(* ===== verification/_CoqProject ===== *)
-Q . S2P
Prelude.v
BigMath.v
Params.v
Analysis.v
Memory.v
Rlp.v
RlpStream.v
RlpTyped.v
Heap.v
Interfaces.v
Machine.v
Gas.v
Instructions.v
JumpTable.v
Precompiles.v
Evm.v
Header.v
StateTransition.v
Transaction.v
TxLaws.v
TrieEncoding.v
Trie.v
Receipt.v
Block.v
TxPool.v
TxPoolLaws.v
BlockCodec.v
VmLaws.v
VmGas.v
VmRules.v
VmInstr.v
VmPrecompiles.v
VmCalls.v
VmTable.v
VmLoop.v
TransitionLaws.v
Hashimoto.v
HashimotoLaws.v
EthashSizes.v
Ethash.v
EthashLaws.v
TrieTree.v
TrieHash.v
TrieRep.v
TrieCommit.v
TrieMap.v
TrieSpec.v
ReceiptLaws.v
SecureTrie.v
TrieProof.v
StateDatabase.v
StateBackend.v
StateDB.v
CoreEvm.v
BlockProcessor.v
Clique.v
CliqueLaws.v
StateEq.v
StateRevert.v
StateHistory.v
StateStorage.v
StateFinalise.v
StateSpec.v
StateVm.v
StateBlock.v
BlockLaws.v
Concrete.v
StateTheorems.v
ConcreteVm.v
WordOps.v
LibTheorems.v
VmTheorems.v
TransitionTheorems.v
EthashTheorems.v
TrieTheorems.v
RlpTheorems.v
CliqueTheorems.v
TxTheorems.v
BlockTheorems.v
TxPoolTheorems.v
