(* ===== verification/Prelude.v ===== *)
(** * Verification of the Ethereum node shipped with BASIC

    BASIC couples an agent-based simulator (GAMA models and a Python bridge)
    with a private Ethereum network.  The program logic is that of the node,
    go-ethereum 1.8, under
    [docker-geth-network-master/monitored-geth-client/go-ethereum-master];
    file names below are relative to that directory.  The development models
    the execution core of the node in Gallina and proves it correct.

    ** How the parts interact

    A message runs on the virtual machine ([core/vm]).  The interpreter loop
    ([interpreter.go]) fetches an opcode, looks its [operation] up in the
    table of the active fork ([jump_table.go]), validates the stack, applies
    the read-only rule, sizes the memory ([memory_table.go]), charges the gas
    ([gas_table.go]) and executes it ([instructions.go]).  Calls and creations
    go back to [evm.go], which snapshots the state database ([core/state]),
    moves the value, runs the callee, and reverts to the snapshot when it
    fails.  The state database caches accounts over tries and undoes changes
    through a journal.  RLP encodes what is hashed or stored.

    ** Conventions

    A Go integer of fixed width is a [Z] with its wrap-around written out
    ([u64]); a [*big.Int] is a [Z]; a byte string a list of [Z] ([is_bytes]
    says that each is a byte); a 20-byte address or a 32-byte hash the number
    it reads as; a Go map a [gmap]; a struct a [Record].  A function that can
    fail returns [res] ([Ok], [Err], [Panic], [OutOfFuel]) or runs in one of
    two state monads: [M] of instructions ([Machine.v]) and [E] of [EVM]
    methods ([Evm.v]).  Panics are values, so that their absence is a theorem.
    Pointers: integers on the stack are not shared (every instruction that
    writes one owns it), and a state object is in one place at a time, so both
    are values.  Log tracing, metrics and locks have no counterpart.

    ** Files

    Models, each the translation of the Go files it names:
    - [BigMath.v]: [common/math]; what is used of [math/big] (module [Big]);
    - [Params.v]: [params]: constants, gas tables, fork rules, compatibility;
    - [Analysis.v]: opcodes and the jump destination bitmap;
    - [Memory.v]: [stack.go], [stack_table.go], [memory.go], [common.go];
    - [Rlp.v]: [rlp/encode.go] and [rlp/raw.go]; [RlpStream.v]:
      [rlp/decode.go], its streams and the decoders of Go types;
    - [Interfaces.v]: hashes, addresses, logs; the trie and code database;
    - [Machine.v]: [contract.go], [interface.go], the structs of the machine;
    - [Gas.v]: [gas.go], [gas_table.go], [memory_table.go];
    - [Instructions.v], [JumpTable.v], [Precompiles.v]: the files so named;
    - [Evm.v]: [evm.go] and [interpreter.go];
    - [StateDB.v]: [core/state/statedb.go], [state_object.go], [journal.go];
    - [CoreEvm.v]: [core/evm.go], and the state database as the machine's.
    - [Header.v]: the header of [core/types/block.go] and its gas limit
      ([core/block_validator.go]);
    - [StateTransition.v]: [core/state_transition.go], [core/gaspool.go];
    - [Hashimoto.v], [EthashSizes.v]: [consensus/ethash/algorithm.go];
    - [Ethash.v]: [consensus/ethash/consensus.go], the search of [sealer.go],
      the generation of [ethash.go], and [consensus/misc];
    - [TrieEncoding.v], [Trie.v]: [trie/encoding.go], [node.go], [trie.go],
      [hasher.go], and the nodes and preimages of [database.go];
    - [SecureTrie.v], [StateDatabase.v]: [trie/secure_trie.go] and
      [core/state/database.go];
    - [TrieProof.v]: [trie/proof.go], with its laws;
    - [Clique.v]: [consensus/clique/snapshot.go], [clique.go], [api.go];
    - [Transaction.v]: [core/types/transaction.go], [transaction_signing.go],
      over the binary heap of [Heap.v] (the language's [container/heap]);
    - [TxPool.v]: [core/tx_pool.go], [core/tx_list.go] and
      [core/state/managed_state.go];
    - [Receipt.v]: [bloom9.go], [log.go], [receipt.go], [derive_sha.go];
    - [Block.v]: [core/types/block.go];
    - [BlockProcessor.v]: [core/state_processor.go], [block_validator.go], the
      context of [core/evm.go], [Finalize] of the proof of work,
      [consensus/misc/dao.go] and [commitTransactions] of [miner/worker.go].
    Proofs about the virtual machine: [VmLaws.v] states what it relies on
    ([VMStateLaws], [EnvLaws], [PrecompileLaws]), the invariant [wf_machine]
    and the predicate transformer [wp]; [VmGas.v], [VmRules.v], [VmInstr.v],
    [VmPrecompiles.v], [VmCalls.v] treat gas functions, instructions,
    precompiled contracts and call instructions; [VmTable.v] every entry of
    every fork's table; [VmLoop.v] a turn of the loop, the six entry points
    and, by induction on the fuel, the loop.  About the state database:
    [StateEq.v] (equality up to what readers see), [StateRevert.v] (every
    operation appends journal entries whose undoing restores the state),
    [StateHistory.v] (snapshots in any history), [StateSpec.v] (refinement of
    a map of accounts), [StateVm.v] (it satisfies [VMStateLaws]),
    [StateStorage.v] (what the caches and the journal say of the storage
    tries behind the objects), [StateFinalise.v] (what the tries hold at the
    end of a transaction).  About the tries: [TrieTree.v] (the tree of
    nibbles a trie stands for, and its operations), [TrieHash.v] (the hash of
    a tree, decoding), [TrieRep.v], [TrieCommit.v] (the
    operations and committing follow the tree), [TrieMap.v] (a tree is a map)
    and [TrieSpec.v] (the operations as steps, against a map);
    [StateBackend.v] makes the tries an instance of the interface of the
    state database.  About transactions and blocks: [BlockCodec.v] (their
    encodings and those of receipts go both ways), [ReceiptLaws.v] (bloom
    filters and the roots of lists), [TxLaws.v] (signers, and the set ordered
    by price and nonce over the heap of [Heap.v]), [StateBlock.v] (the state
    database from one transaction to the next), and [BlockLaws.v] (a transaction,
    a block, its assembly, the loop of the miner).
    [CliqueLaws.v] holds the ballot box that a snapshot of the proof of
    authority refines, the invariant of the engine with its caches and the
    rules of its headers.  [Concrete.v] and [ConcreteVm.v] give instances of
    every interface, on which the theorems are applied to concrete programs.

    ** What the theorems show

    - [VmTheorems.v]: a frame with less gas than fuel ends, without an index
      out of range and within its gas; so do the six entry points (a delegate
      call from a contract only, its code asserts that); a failed
      call leaves a state equal to every reader; a static call changes no
      account.
    - [StateTheorems.v]: reverting to a snapshot restores the state after any
      history; every operation refines the map of accounts; histories keep
      the invariant; equal states answer every reader alike; the intermediate
      root is the root of the accounts and slots that readers see.
    - [WordOps.v]: arithmetic instructions against two's complement numbers.
    - [RlpTheorems.v]: decoding into any Go type inverts encoding, ends on any
      input and accepts the canonical encodings only; the one type for which
      it does not ([byte_array_slice_never_ends]).  The laws of streams are in
      [RlpTyped.v].
    - [LibTheorems.v]: jump destinations, memory and its price, gas of calls,
      precompiled contracts, checked arithmetic, fork compatibility, RLP
      encoding and splitting.
    - [TransitionTheorems.v]: a message ends and settles with the gas pool
      and the miner; a failed one costs the price of its gas and nothing else;
      a refused one changes nothing.  The laws behind them, by the phases of
      [TransitionDb], are in [TransitionLaws.v].
    - [EthashTheorems.v]: the dataset is the same in any interleaving of the
      threads, and hashing over it or over the cache agrees; the search finds
      the first nonce that verifies, the first tried at this engine's
      difficulty of one; the rules of headers and uncles; rewards;
      the bounds of the difficulty function of the package; the order of batch
      verification.  [HashimotoLaws.v] and [EthashLaws.v] hold the laws behind
      them.
    - [CliqueTheorems.v]: snapshots count votes as a ballot box does; there is
      always a signer that may sign; the engine accepts just the headers that
      obey the rules, whatever it has cached, and accepts the blocks that an
      authorized signer makes.
    - [TxTheorems.v]: signed transactions verify where they should and nowhere
      else; the set of pending transactions is a set of queues.
    - [TxPoolTheorems.v]: the transaction pool stays consistent and does not
      panic over any sequence of additions, new heads, price changes and
      evictions.  [TxPoolLaws.v] has the refinement of its lists (sorted by
      nonce) and of the heap of prices (the cheapest first, stale entries
      skipped).
    - [BlockTheorems.v]: blocks and receipts are read back; the transactions
      root binds the transactions; blooms miss no log; processing a block and
      filling one end and account for their gas; assembled blocks validate;
      what [Finalise] does to readers; the block hash function.
    - [TrieTheorems.v]: a trie on its database refines a finite map; its root
      depends on the content alone; what is committed opens again; encodings
      of nodes and of keys go both ways; Merkle proofs are complete and sound.  Distinct encodings are assumed to
      have distinct hashes only within a set of byte strings that holds what
      is stored ([collision_free], [in_world] of [TrieCommit.v]).

    ** Bounds

    Every instruction that does not end its frame costs at least one unit of
    gas, so the loop with fuel above the gas never runs out of it
    ([frames_end]); a nested call runs on the fuel left, which exceeds the gas
    it is given.  The theorems assume gas below 2^62 (blocks have a few
    million) and code and input shorter than 2^62 bytes; memory then stays
    below 2^40 bytes.  Two panics remain possible in the model: the refund
    counter below zero ([PRefund], which needs the invariant of EIP 1283 over
    a whole transaction) and a jump bitmap cached under the hash of other
    code ([PCache], which needs a hash collision).

    ** Parameters

    Hash functions, elliptic curves and the key-value store are C, assembly
    or third-party code: classes [Crypto], [PrecompileCrypto], [DatabaseI]
    with the laws they need.  [Concrete.v] shows that the laws can hold.  Of
    Keccak the theorems assume that it has no collision: on the byte strings
    stored in a trie, on the headers considered, on the addresses and slots in
    use; processing and filling a block run any code and take it without
    collision on all addresses and slots ([keys_distinct]).

    ** Not modelled

    Of the trie database, the reference counts and the flush to disk; trie
    iterators and synchronisation; the commit and copy of the state database.  Networking, synchronisation, the loops of the miner, the journal of the transaction pool, the block database, RPC and
    the command line are concurrent input and output around this core. *)

From stdpp Require Export base numbers list gmap strings.
From Stdlib Require Export ZArith Lia Bool.

#[export] Set Default Goal Selector "!".

Global Open Scope Z_scope.

(** ** Results of fallible code

    Go functions of the node return an error value, panic (index out of
    range, explicit [panic]), or return normally.  [OutOfFuel] is no value of
    the program: it marks a fuelled definition that was given too little fuel,
    and the termination theorems show it does not occur. *)
Inductive res (E A : Type) : Type :=
| Ok (a : A)
| Err (e : E)
| Panic
| OutOfFuel.
Arguments Ok {E A} a.
Arguments Err {E A} e.
Arguments Panic {E A}.
Arguments OutOfFuel {E A}.

Definition res_bind {E A B} (m : res E A) (k : A → res E B) : res E B :=
  match m with
  | Ok a => k a
  | Err e => Err e
  | Panic => Panic
  | OutOfFuel => OutOfFuel
  end.

Declare Scope go_scope.
Delimit Scope go_scope with go.
Notation "x ←? m ; k" := (res_bind m (λ x, k))
  (at level 100, m at level 99, k at level 200, right associativity) : go_scope.
Global Open Scope go_scope.

Definition is_ok {E A} (m : res E A) : bool :=
  match m with Ok _ => true | _ => false end.

Lemma res_bind_ok {E A B} (m : res E A) (k : A → res E B) b :
  res_bind m k = Ok b ↔ ∃ a, m = Ok a ∧ k a = Ok b.
Proof.
  split.
  - destruct m; simpl; intros; try discriminate; eauto.
  - intros (a & -> & H). exact H.
Qed.

(** ** Automation shared by the components *)

Create HintDb geth.

(** Case analysis on the innermost scrutinee of a [match] in the goal. *)
Ltac break_match :=
  match goal with
  | |- context [match ?x with _ => _ end] =>
      lazymatch x with context [match _ with _ => _ end] => fail | _ => idtac end;
      destruct x eqn:?
  end.

Ltac break_match_in H :=
  match type of H with
  | context [match ?x with _ => _ end] =>
      lazymatch x with context [match _ with _ => _ end] => fail | _ => idtac end;
      destruct x eqn:?
  end.

(** Boolean comparisons to propositions, in all hypotheses. *)
Ltac boolp :=
  repeat match goal with
  | H : _ && _ = true |- _ => apply andb_prop in H; destruct H
  | H : _ && _ = false |- _ => apply andb_false_iff in H
  | H : _ || _ = false |- _ => apply orb_false_elim in H; destruct H
  | H : _ || _ = true |- _ => apply orb_true_iff in H
  | H : negb _ = true |- _ => apply negb_true_iff in H
  | H : negb _ = false |- _ => apply negb_false_iff in H
  | H : (_ =? _)%Z = true |- _ => apply Z.eqb_eq in H
  | H : (_ =? _)%Z = false |- _ => apply Z.eqb_neq in H
  | H : (_ <? _)%Z = true |- _ => apply Z.ltb_lt in H
  | H : (_ <? _)%Z = false |- _ => apply Z.ltb_ge in H
  | H : (_ <=? _)%Z = true |- _ => apply Z.leb_le in H
  | H : (_ <=? _)%Z = false |- _ => apply Z.leb_gt in H
  | H : (_ >? _)%Z = true |- _ => rewrite Z.gtb_ltb in H
  | H : (_ >? _)%Z = false |- _ => rewrite Z.gtb_ltb in H
  | H : (_ >=? _)%Z = true |- _ => rewrite Z.geb_leb in H
  | H : (_ >=? _)%Z = false |- _ => rewrite Z.geb_leb in H
  end.

(** ** Machine integers *)

Definition MaxUint64 : Z := 2 ^ 64 - 1.

(** Conversion to [uint64]: arithmetic of the Go type is arithmetic on [Z]
    followed by [u64]. *)
Definition u64 (z : Z) : Z := z mod 2 ^ 64.
Definition is_u64 (z : Z) : Prop := 0 ≤ z < 2 ^ 64.
Definition is_u256 (z : Z) : Prop := 0 ≤ z < 2 ^ 256.
Definition is_byte (b : Z) : Prop := 0 ≤ b < 256.

#[global] Instance is_u64_dec z : Decision (is_u64 z).
Proof. unfold is_u64. apply _. Defined.
#[global] Instance is_u256_dec z : Decision (is_u256 z).
Proof. unfold is_u256. apply _. Defined.
#[global] Instance is_byte_dec z : Decision (is_byte z).
Proof. unfold is_byte. apply _. Defined.

Lemma u64_range z : is_u64 (u64 z).
Proof. unfold is_u64, u64. apply Z.mod_pos_bound. lia. Qed.

Lemma u64_id z : is_u64 z → u64 z = z.
Proof. unfold is_u64, u64. intros. apply Z.mod_small. lia. Qed.

Lemma u64_idemp z : u64 (u64 z) = u64 z.
Proof. apply u64_id, u64_range. Qed.

#[export] Hint Resolve u64_range : geth.


(** ** Byte strings

    A Go [[]byte] is a list of integers; [is_bytes] says each is a byte.
    [be_val]/[be_bytes] are the big-endian reading and writing of
    [big.Int.SetBytes], [big.Int.Bytes] and [encoding/binary]. *)

Abbreviation bytes := (list Z).
Definition is_bytes (bs : bytes) : Prop := Forall is_byte bs.

#[global] Instance is_bytes_dec bs : Decision (is_bytes bs).
Proof. unfold is_bytes. apply _. Defined.

Fixpoint le_bytes (n : nat) (z : Z) : bytes :=
  match n with
  | O => []
  | S m => z mod 256 :: le_bytes m (z / 256)
  end.
Definition be_bytes (n : nat) (z : Z) : bytes := rev (le_bytes n z).

Fixpoint le_val (bs : bytes) : Z :=
  match bs with
  | [] => 0
  | b :: r => b + 256 * le_val r
  end.
Definition be_val (bs : bytes) : Z := fold_left (λ acc b, acc * 256 + b) bs 0.

Definition zlen {A} (l : list A) : Z := Z.of_nat (length l).

Lemma zlen_nonneg {A} (l : list A) : 0 ≤ zlen l.
Proof. unfold zlen. lia. Qed.
Lemma zlen_app {A} (l k : list A) : zlen (l ++ k) = zlen l + zlen k.
Proof. unfold zlen. rewrite length_app. lia. Qed.
Lemma zlen_cons {A} (x : A) l : zlen (x :: l) = 1 + zlen l.
Proof. unfold zlen. simpl. lia. Qed.
Lemma zlen_replicate {A} n (x : A) : zlen (replicate n x) = Z.of_nat n.
Proof. unfold zlen. by rewrite length_replicate. Qed.

Lemma length_le_bytes n z : length (le_bytes n z) = n.
Proof. revert z. induction n; simpl; intros; [done|]. by rewrite IHn. Qed.
Lemma length_be_bytes n z : length (be_bytes n z) = n.
Proof. unfold be_bytes. by rewrite length_rev, length_le_bytes. Qed.

Lemma is_bytes_app a b : is_bytes (a ++ b) ↔ is_bytes a ∧ is_bytes b.
Proof. apply Forall_app. Qed.
Lemma is_bytes_cons a b : is_bytes (a :: b) ↔ is_byte a ∧ is_bytes b.
Proof. apply Forall_cons. Qed.
Lemma is_bytes_nil : is_bytes [].
Proof. constructor. Qed.
Lemma is_bytes_take n a : is_bytes a → is_bytes (take n a).
Proof. apply Forall_take. Qed.
Lemma is_bytes_drop n a : is_bytes a → is_bytes (drop n a).
Proof. apply Forall_drop. Qed.
Lemma is_bytes_replicate n : is_bytes (replicate n 0).
Proof. apply Forall_replicate. unfold is_byte. lia. Qed.

Lemma is_bytes_le_bytes n z : is_bytes (le_bytes n z).
Proof.
  revert z. induction n; simpl; intros; constructor; [|apply IHn].
  unfold is_byte. apply Z.mod_pos_bound. lia.
Qed.
Lemma is_bytes_be_bytes n z : is_bytes (be_bytes n z).
Proof. unfold be_bytes, is_bytes. apply Forall_rev, is_bytes_le_bytes. Qed.

#[export] Hint Resolve is_bytes_nil is_bytes_take is_bytes_drop
  is_bytes_replicate is_bytes_le_bytes is_bytes_be_bytes : geth.

Lemma be_val_rev bs : be_val (rev bs) = le_val bs.
Proof.
  unfold be_val. rewrite <- fold_left_rev_right, rev_involutive.
  induction bs as [|b r IH]; simpl; [done|]. rewrite IH. lia.
Qed.
Lemma be_val_le bs : be_val bs = le_val (rev bs).
Proof. by rewrite <- be_val_rev, rev_involutive. Qed.
Lemma be_val_cons b r : be_val (b :: r) = b * 256 ^ zlen r + be_val r.
Proof.
  unfold be_val, zlen. simpl.
  assert (H : ∀ l acc, fold_left (λ a c, a * 256 + c) l acc
     = acc * 256 ^ Z.of_nat (length l) + fold_left (λ a c, a * 256 + c) l 0).
  { induction l as [|x l IH]; intros acc; [simpl; lia|].
    cbn [fold_left length]. rewrite (IH (acc * 256 + x)), (IH (0 * 256 + x)).
    rewrite Nat2Z.inj_succ, Z.pow_succ_r by lia. lia. }
  apply H.
Qed.
Lemma be_val_nil : be_val [] = 0.
Proof. done. Qed.

Lemma le_val_le_bytes n z : le_val (le_bytes n z) = z mod 256 ^ Z.of_nat n.
Proof.
  revert z. induction n as [|n IH]; intros z; simpl le_bytes; simpl le_val.
  - by rewrite Z.mod_1_r.
  - rewrite IH, Nat2Z.inj_succ, Z.pow_succ_r by lia.
    rewrite Z.rem_mul_r by lia. done.
Qed.
Lemma be_val_be_bytes n z : be_val (be_bytes n z) = z mod 256 ^ Z.of_nat n.
Proof. unfold be_bytes. by rewrite be_val_rev, le_val_le_bytes. Qed.

Lemma le_val_bound bs : is_bytes bs → 0 ≤ le_val bs < 256 ^ zlen bs.
Proof.
  induction 1 as [|b r Hb Hr IH]; [done|].
  rewrite zlen_cons. pose proof (zlen_nonneg r).
  rewrite Z.pow_add_r by lia. unfold is_byte in Hb. simpl le_val.
  change (256 ^ 1) with 256. lia.
Qed.
Lemma be_val_bound bs : is_bytes bs → 0 ≤ be_val bs < 256 ^ zlen bs.
Proof.
  intros H. rewrite be_val_le. unfold zlen. rewrite <- length_rev.
  apply le_val_bound. apply Forall_rev, H.
Qed.
Lemma le_bytes_le_val bs : is_bytes bs → le_bytes (length bs) (le_val bs) = bs.
Proof.
  induction 1 as [|b r Hb Hr IH]; [done|]. unfold is_byte in Hb. simpl.
  rewrite (Z.mul_comm 256), Z_mod_plus_full, Z.mod_small by lia.
  rewrite Z_div_plus_full, Z.div_small by lia. rewrite Z.add_0_l. by rewrite IH.
Qed.
Lemma be_bytes_be_val bs : is_bytes bs → be_bytes (length bs) (be_val bs) = bs.
Proof.
  intros H. unfold be_bytes. rewrite be_val_le, <- length_rev.
  rewrite le_bytes_le_val by (apply Forall_rev, H). apply rev_involutive.
Qed.
Lemma be_val_inj a b :
  is_bytes a → is_bytes b → length a = length b → be_val a = be_val b → a = b.
Proof.
  intros Ha Hb Hl Hv. rewrite <- (be_bytes_be_val a), <- (be_bytes_be_val b) by done.
  by rewrite Hl, Hv.
Qed.

Lemma be_bytes_S n z : be_bytes (S n) z = be_bytes n (z / 256) ++ [z mod 256].
Proof. done. Qed.
Lemma be_bytes_add a b z :
  be_bytes (a + b) z = be_bytes b (z / 256 ^ Z.of_nat a) ++ be_bytes a z.
Proof.
  revert z. induction a as [|a IH]; intros z.
  - simpl. rewrite Z.div_1_r. unfold be_bytes at 3. simpl. by rewrite app_nil_r.
  - rewrite Nat.add_succ_l, !be_bytes_S, IH, <- app_assoc.
    rewrite Z.div_div, Nat2Z.inj_succ, Z.pow_succ_r by lia. done.
Qed.
Lemma be_bytes_mod a n z :
  (a ≤ n)%nat → be_bytes a (z mod 256 ^ Z.of_nat n) = be_bytes a z.
Proof.
  intros Ha. apply be_val_inj; [auto with geth..| |].
  { by rewrite !length_be_bytes. }
  rewrite !be_val_be_bytes. replace n with (a + (n - a))%nat by lia.
  rewrite Nat2Z.inj_add, Z.pow_add_r, Z.rem_mul_r by lia.
  rewrite Z.mul_comm, Z_mod_plus_full. by apply Zmod_mod.
Qed.

(** Removing leading zeroes ([bytes.TrimLeft(b, "\x00")]) keeps the value. *)
Fixpoint trim_left (bs : bytes) : bytes :=
  match bs with
  | 0 :: r => trim_left r
  | _ => bs
  end.
Lemma be_val_trim_left bs : be_val (trim_left bs) = be_val bs.
Proof.
  induction bs as [|b r IH]; [done|]. simpl.
  destruct b; [|done|done]. rewrite IH, be_val_cons. lia.
Qed.
Lemma is_bytes_trim_left bs : is_bytes bs → is_bytes (trim_left bs).
Proof.
  induction 1 as [|b r Hb Hr IH]; [constructor|]. simpl.
  destruct b; [done| |]; by constructor.
Qed.
#[export] Hint Resolve is_bytes_trim_left : geth.

(** [common.RightPadBytes] and [common.LeftPadBytes]. *)
Definition RightPadBytes (slice : bytes) (l : nat) : bytes :=
  if decide (l ≤ length slice)%nat then slice
  else slice ++ replicate (l - length slice) 0.
Definition LeftPadBytes (slice : bytes) (l : nat) : bytes :=
  if decide (l ≤ length slice)%nat then slice
  else replicate (l - length slice) 0 ++ slice.

Lemma be_val_app_zeros n bs : be_val (replicate n 0 ++ bs) = be_val bs.
Proof. induction n; [done|]. simpl. rewrite be_val_cons. lia. Qed.
Lemma be_val_LeftPadBytes bs l : be_val (LeftPadBytes bs l) = be_val bs.
Proof. unfold LeftPadBytes. case_decide; [done|]. apply be_val_app_zeros. Qed.
Lemma length_RightPadBytes bs l :
  length (RightPadBytes bs l) = Nat.max l (length bs).
Proof.
  unfold RightPadBytes. case_decide; [lia|].
  rewrite length_app, length_replicate. lia.
Qed.
Lemma length_LeftPadBytes bs l :
  length (LeftPadBytes bs l) = Nat.max l (length bs).
Proof.
  unfold LeftPadBytes. case_decide; [lia|].
  rewrite length_app, length_replicate. lia.
Qed.
Lemma is_bytes_RightPadBytes bs l : is_bytes bs → is_bytes (RightPadBytes bs l).
Proof.
  unfold RightPadBytes. case_decide; [done|]. intros.
  apply is_bytes_app. auto with geth.
Qed.
#[export] Hint Resolve is_bytes_RightPadBytes : geth.

(** [sort.Search n f]: binary search for the least [i] in [[0,n)] with [f i],
    [n] if there is none.  Fuel [n] is enough: the interval at least halves. *)
Fixpoint search_loop (fuel : nat) (f : nat → bool) (i j : nat) : nat :=
  match fuel with
  | O => i
  | S fuel' =>
      if decide (i < j)%nat then
        let h := ((i + j) / 2)%nat in
        if f h then search_loop fuel' f i h else search_loop fuel' f (S h) j
      else i
  end.
Definition sort_Search (n : nat) (f : nat → bool) : nat := search_loop n f 0 n.

Lemma search_loop_spec fuel f i j :
  (i ≤ j)%nat → (j - i ≤ fuel)%nat →
  (∀ a b, (a ≤ b)%nat → f a = true → f b = true) →
  (∀ k, (k < i)%nat → f k = false) →
  (i ≤ search_loop fuel f i j ≤ j)%nat ∧
  (∀ k, (k < search_loop fuel f i j)%nat → f k = false) ∧
  ((search_loop fuel f i j < j)%nat → f (search_loop fuel f i j) = true).
Proof.
  intros Hij Hf Hmono. revert i j Hij Hf. induction fuel as [|fuel IH]; intros i j Hij Hf Hlo.
  { simpl. split_and!; [lia|lia|done|intros; lia]. }
  cbn [search_loop]. case_decide as Hlt; [|split_and!; [lia|lia|done|intros; lia]].
  pose proof (Nat.div_mod_eq (i + j) 2) as Hdm.
  pose proof (Nat.mod_upper_bound (i + j) 2 ltac:(lia)).
  set (h := ((i + j) / 2)%nat) in *. clearbody h.
  destruct (f h) eqn:Hh.
  - destruct (IH i h) as ([? ?] & Hbelow & Hat); [lia|lia|done|].
    split_and!; [lia|lia|done|].
    intros _. destruct (decide (search_loop fuel f i h < h)%nat); [auto|].
    by replace (search_loop fuel f i h) with h by lia.
  - destruct (IH (S h) j) as ([? ?] & Hbelow & Hat); [lia|lia| |].
    { intros k Hk. destruct (f k) eqn:Hfk; [|done].
      exfalso. rewrite (Hmono k h) in Hh; [done|lia|done]. }
    split_and!; [lia|lia|done|auto].
Qed.

Lemma sort_Search_spec n f :
  (∀ a b, (a ≤ b)%nat → f a = true → f b = true) →
  (sort_Search n f ≤ n)%nat ∧
  (∀ k, (k < sort_Search n f)%nat → f k = false) ∧
  ((sort_Search n f < n)%nat → f (sort_Search n f) = true).
Proof.
  intros Hm. unfold sort_Search.
  destruct (search_loop_spec n f 0 n) as ([_ ?] & ? & ?); [lia|lia|done|lia|done].
Qed.
