(* ===== verification/BigMath.v ===== *)
(** * Integer helpers

  [math/big.Int] as far as the node uses it (module [Big]: a [*big.Int] is
  an unbounded [Z]; the pointers' aliasing is discussed in the root
  header), then [common/math/big.go] and [common/math/integer.go]
  (module [Math]). *)

From S2P Require Import Prelude.

Module Big.
(** Number of bits of the absolute value; 0 for 0. *)
Definition BitLen (x : Z) : Z := if x =? 0 then 0 else Z.log2 (Z.abs x) + 1.
Definition Uint64 (x : Z) : Z := u64 (Z.abs x).
Definition Int64 (x : Z) : Z :=
  let v := u64 (Z.abs x) in
  let v := if v <? 2 ^ 63 then v else v - 2 ^ 64 in
  let v := if x <? 0 then - v else v in
  if v =? 2 ^ 63 then - 2 ^ 63 else v.
Definition Sign (x : Z) : Z := Z.sgn x.

(** Big-endian bytes of the absolute value, without leading zeroes. *)
Definition nbytes (x : Z) : nat := Z.to_nat ((BitLen x + 7) / 8).
Definition Bytes (x : Z) : bytes := be_bytes (nbytes x) (Z.abs x).
Definition SetBytes (bs : bytes) : Z := be_val bs.

(** [Bits]: the 64-bit words of the absolute value, least significant
    first, without high zero words. *)
Fixpoint le_words (n : nat) (z : Z) : list Z :=
  match n with
  | O => []
  | S m => z mod 2 ^ 64 :: le_words m (z / 2 ^ 64)
  end.
Definition nwords (x : Z) : nat := Z.to_nat ((BitLen x + 63) / 64).
Definition Bits (x : Z) : list Z := le_words (nwords x) (Z.abs x).
Definition Bit (x i : Z) : Z := if Z.testbit x i then 1 else 0.

Lemma BitLen_nonneg x : 0 ≤ BitLen x.
Proof. unfold BitLen. case (x =? 0); [lia|]. pose proof (Z.log2_nonneg (Z.abs x)). lia. Qed.

Lemma BitLen_bound x : Z.abs x < 2 ^ BitLen x.
Proof.
  unfold BitLen. destruct (Z.eqb_spec x 0) as [->|]; [done|].
  rewrite Z.add_1_r. apply Z.log2_spec. lia.
Qed.

Lemma BitLen_le x n : 0 ≤ n → (BitLen x ≤ n ↔ Z.abs x < 2 ^ n).
Proof.
  intros Hn. split.
  - intros H. eapply Z.lt_le_trans; [apply BitLen_bound|].
    apply Z.pow_le_mono_r; lia.
  - intros H. unfold BitLen. destruct (Z.eqb_spec x 0); [lia|].
    assert (Z.log2 (Z.abs x) < n); [|lia]. apply Z.log2_lt_pow2; lia.
Qed.

Lemma BitLen_gt64 x : 0 ≤ x → (64 <? BitLen x) = false ↔ is_u64 x.
Proof.
  intros Hx. unfold is_u64. rewrite Z.ltb_ge, BitLen_le by lia.
  rewrite Z.abs_eq by lia. lia.
Qed.

Lemma Uint64_id x : is_u64 x → Uint64 x = x.
Proof. intros H. unfold Uint64. unfold is_u64 in H. rewrite Z.abs_eq by lia. by apply u64_id. Qed.
Lemma Uint64_range x : is_u64 (Uint64 x).
Proof. apply u64_range. Qed.

Lemma Int64_id x : 0 ≤ x < 2 ^ 63 → Int64 x = x.
Proof.
  intros H. unfold Int64. rewrite Z.abs_eq, u64_id by (unfold is_u64; lia).
  destruct (Z.ltb_spec x (2 ^ 63)); [|lia]. destruct (Z.ltb_spec x 0); [lia|].
  destruct (Z.eqb_spec x (2 ^ 63)); lia.
Qed.

Lemma abs_lt_nbytes x : Z.abs x < 256 ^ Z.of_nat (nbytes x).
Proof.
  unfold nbytes. pose proof (BitLen_nonneg x).
  rewrite Z2Nat.id by (apply Z.div_pos; lia).
  change 256 with (2 ^ 8). rewrite <- Z.pow_mul_r by (try apply Z.div_pos; lia).
  apply BitLen_le; [|].
  - pose proof (Z.div_pos (BitLen x + 7) 8). lia.
  - pose proof (Z.div_mod (BitLen x + 7) 8 ltac:(lia)).
    pose proof (Z.mod_pos_bound (BitLen x + 7) 8 ltac:(lia)). lia.
Qed.

Lemma SetBytes_Bytes x : SetBytes (Bytes x) = Z.abs x.
Proof.
  unfold SetBytes, Bytes. rewrite be_val_be_bytes. apply Z.mod_small.
  pose proof (abs_lt_nbytes x). lia.
Qed.

Lemma is_bytes_Bytes x : is_bytes (Bytes x).
Proof. apply is_bytes_be_bytes. Qed.

Lemma nbytes_pos x : x ≠ 0 → (0 < nbytes x)%nat.
Proof.
  intros Hx. unfold nbytes, BitLen. destruct (Z.eqb_spec x 0); [done|].
  pose proof (Z.log2_nonneg (Z.abs x)).
  pose proof (Z.div_le_lower_bound (Z.log2 (Z.abs x) + 1 + 7) 8 1). lia.
Qed.

(** The encoding is minimal: the first byte is not zero. *)
Lemma Bytes_head x : x ≠ 0 → ∃ b r, Bytes x = b :: r ∧ 0 < b < 256.
Proof.
  intros Hx. pose proof (nbytes_pos x Hx) as Hn.
  pose proof (is_bytes_Bytes x) as Hbs. unfold Bytes in *.
  pose proof (length_be_bytes (nbytes x) (Z.abs x)) as Hl.
  pose proof (be_val_be_bytes (nbytes x) (Z.abs x)) as Hv.
  rewrite Z.mod_small in Hv by (pose proof (abs_lt_nbytes x); lia).
  destruct (be_bytes _ _) as [|b r]; [simpl in *; lia|].
  exists b, r. split; [done|]. apply is_bytes_cons in Hbs as [Hb Hr].
  unfold is_byte in Hb. destruct (decide (b = 0)) as [->|]; [|lia].
  exfalso. rewrite be_val_cons in Hv. pose proof (be_val_bound r Hr) as Hbd.
  assert (Hlt : Z.abs x < 256 ^ zlen r) by lia. clear Hv Hbd.
  simpl in Hl. unfold zlen in Hlt.
  assert (Hbl : BitLen x ≤ 8 * Z.of_nat (length r)).
  { apply BitLen_le; [lia|]. by rewrite Z.pow_mul_r by lia. }
  unfold nbytes in Hl.
  pose proof (Z.div_lt_upper_bound (BitLen x + 7) 8 (Z.of_nat (length r) + 1)).
  pose proof (BitLen_nonneg x). pose proof (Z.div_pos (BitLen x + 7) 8). lia.
Qed.

Lemma Bytes_0 : Bytes 0 = [].
Proof. done. Qed.

Lemma length_Bytes_le x n : 0 ≤ x < 256 ^ Z.of_nat n → (length (Bytes x) ≤ n)%nat.
Proof.
  intros [H0 H1]. unfold Bytes. rewrite length_be_bytes. unfold nbytes.
  assert (BitLen x ≤ 8 * Z.of_nat n).
  { apply BitLen_le; [lia|]. rewrite Z.pow_mul_r by lia. by rewrite Z.abs_eq by lia. }
  pose proof (Z.div_lt_upper_bound (BitLen x + 7) 8 (Z.of_nat n + 1)).
  pose proof (BitLen_nonneg x). pose proof (Z.div_pos (BitLen x + 7) 8). lia.
Qed.

(** A byte string without leading zeroes is the encoding of its value. *)
Lemma Bytes_SetBytes bs :
  is_bytes bs → hd 1 bs ≠ 0 → Bytes (SetBytes bs) = bs.
Proof.
  intros Hbs Hhd. pose proof (be_val_bound bs Hbs) as Hb.
  unfold SetBytes. destruct bs as [|b r]; [done|]. simpl in Hhd.
  unfold Bytes. rewrite Z.abs_eq by lia.
  enough (nbytes (be_val (b :: r)) = length (b :: r)) as -> by by apply be_bytes_be_val.
  assert (nbytes (be_val (b :: r)) ≤ length (b :: r))%nat.
  { rewrite <- (length_be_bytes (nbytes (be_val (b :: r))) (Z.abs (be_val (b :: r)))).
    by apply length_Bytes_le. }
  assert (length r < nbytes (be_val (b :: r)))%nat; [|simpl in *; lia].
  apply is_bytes_cons in Hbs as [Hbb Hr]. unfold is_byte in Hbb.
  pose proof (abs_lt_nbytes (be_val (b :: r))) as Hlt. rewrite Z.abs_eq in Hlt by lia.
  pose proof (be_val_bound r Hr) as Hbr. rewrite be_val_cons in Hlt at 1. unfold zlen in *.
  assert (Hp : 256 ^ Z.of_nat (length r) < 256 ^ Z.of_nat (nbytes (be_val (b :: r)))) by nia.
  apply Z.pow_lt_mono_r_iff in Hp; lia.
Qed.

Lemma length_le_words n z : length (le_words n z) = n.
Proof. revert z. induction n; intros; simpl; [done|]. by rewrite IHn. Qed.

Lemma lookup_le_words n z i :
  (i < n)%nat → le_words n z !! i = Some (z / 2 ^ (64 * Z.of_nat i) mod 2 ^ 64).
Proof.
  revert z i. induction n as [|n IH]; intros z i Hi; [lia|].
  destruct i as [|i]; cbn [le_words lookup list_lookup].
  - rewrite Z.mul_0_r, Z.pow_0_r, Z.div_1_r. done.
  - change (list_lookup i (le_words n (z / 2 ^ 64))) with (le_words n (z / 2 ^ 64) !! i).
    rewrite IH by lia. rewrite Z.div_div by lia. rewrite <- Z.pow_add_r by lia.
    do 4 f_equal. lia.
Qed.

Lemma abs_lt_nwords x : Z.abs x < 2 ^ (64 * Z.of_nat (nwords x)).
Proof.
  unfold nwords. pose proof (BitLen_nonneg x).
  rewrite Z2Nat.id by (apply Z.div_pos; lia).
  pose proof (Z.div_mod (BitLen x + 63) 64 ltac:(lia)).
  pose proof (Z.mod_pos_bound (BitLen x + 63) 64 ltac:(lia)).
  apply BitLen_le; lia.
Qed.
End Big.

Module Math.
Definition tt255 : Z := 2 ^ 255.
Definition tt256 : Z := 2 ^ 256.
Definition tt256m1 : Z := tt256 - 1.
Definition wordBytes : nat := 8.
Definition wordBits : nat := 64.

Definition BigMax (x y : Z) : Z := if x <? y then y else x.
Definition BigMin (x y : Z) : Z := if y <? x then y else x.

(** [FirstBitSet]: the loop over [i < v.BitLen()], [n] iterations left. *)
Fixpoint FirstBitSet_loop (n : nat) (v i : Z) : Z :=
  match n with
  | O => Big.BitLen v
  | S m => if 0 <? Big.Bit v i then i else FirstBitSet_loop m v (i + 1)
  end.
Definition FirstBitSet (v : Z) : Z := FirstBitSet_loop (Z.to_nat (Big.BitLen v)) v 0.

(** [ReadBits]: the inner loop writes the bytes of one word downwards from
    position [i], the outer one runs over the words. *)
Fixpoint ReadBits_word (j : nat) (d : Z) (i : nat) (buf : bytes) : nat * bytes :=
  match j, i with
  | S j', S i' => ReadBits_word j' (Z.shiftr d 8) i' (<[i' := d mod 256]> buf)
  | _, _ => (i, buf)
  end.
Fixpoint ReadBits_words (ws : list Z) (i : nat) (buf : bytes) : bytes :=
  match ws with
  | [] => buf
  | d :: ws' =>
      let '(i', buf') := ReadBits_word wordBytes d i buf in
      ReadBits_words ws' i' buf'
  end.
Definition ReadBits (bigint : Z) (buf : bytes) : bytes :=
  ReadBits_words (Big.Bits bigint) (length buf) buf.

Definition PaddedBigBytes (bigint : Z) (n : nat) : bytes :=
  if Z.of_nat n <=? Big.BitLen bigint / 8 then Big.Bytes bigint
  else ReadBits bigint (replicate n 0).

Definition bigEndianByteAt (bigint : Z) (n : nat) : Z :=
  let words := Big.Bits bigint in
  match words !! (n / wordBytes)%nat with
  | None => 0
  | Some word => Z.shiftr word (8 * Z.of_nat (n mod wordBytes)) mod 256
  end.
Definition Byte (bigint : Z) (padlength n : nat) : Z :=
  if decide (padlength ≤ n)%nat then 0 else bigEndianByteAt bigint (padlength - 1 - n).

Definition U256 (x : Z) : Z := Z.land x tt256m1.
Definition S256 (x : Z) : Z := if x <? tt255 then x else x - tt256.

(** [Exp]: [base] is updated in place by the Go code, so the loop carries
    both integers; [Exp_base] is what the caller's [base] holds afterwards. *)
Fixpoint Exp_word (i : nat) (word base result : Z) : Z * Z :=
  match i with
  | O => (base, result)
  | S i' =>
      let result := if Z.land word 1 =? 1 then U256 (result * base) else result in
      Exp_word i' (Z.shiftr word 1) (U256 (base * base)) result
  end.
Fixpoint Exp_words (ws : list Z) (base result : Z) : Z * Z :=
  match ws with
  | [] => (base, result)
  | word :: ws' =>
      let '(base, result) := Exp_word wordBits word base result in
      Exp_words ws' base result
  end.
Definition Exp (base exponent : Z) : Z := snd (Exp_words (Big.Bits exponent) base 1).
Definition Exp_base (base exponent : Z) : Z := fst (Exp_words (Big.Bits exponent) base 1).

Definition SafeSub (x y : Z) : Z * bool := (u64 (x - y), x <? y).
Definition SafeAdd (x y : Z) : Z * bool := (u64 (x + y), MaxUint64 - x <? y).
Definition SafeMul (x y : Z) : Z * bool :=
  if (x =? 0) || (y =? 0) then (0, false)
  else (u64 (x * y), MaxUint64 / x <? y).

(** *** Wrap-around and signed views *)

Lemma U256_mod x : U256 x = x mod 2 ^ 256.
Proof.
  unfold U256, tt256m1, tt256. change (2 ^ 256 - 1) with (Z.ones 256).
  by apply Z.land_ones.
Qed.
Lemma U256_range x : is_u256 (U256 x).
Proof. rewrite U256_mod. unfold is_u256. apply Z.mod_pos_bound. lia. Qed.
Lemma U256_id x : is_u256 x → U256 x = x.
Proof. intros H. rewrite U256_mod. by apply Z.mod_small. Qed.

Lemma S256_range x : is_u256 x → - 2 ^ 255 ≤ S256 x < 2 ^ 255.
Proof. unfold is_u256, S256, tt255, tt256. intros. destruct (Z.ltb_spec x (2 ^ 255)); lia. Qed.
Lemma U256_S256 x : is_u256 x → U256 (S256 x) = x.
Proof.
  intros H. rewrite U256_mod. unfold S256, tt255, tt256, is_u256 in *.
  destruct (x <? 2 ^ 255); [by apply Z.mod_small|].
  replace (x - 2 ^ 256) with (x + (-1) * 2 ^ 256) by lia.
  rewrite Z_mod_plus_full. by apply Z.mod_small.
Qed.

(** *** Overflow-checked arithmetic on [uint64]

    The second result is exactly "the mathematical value does not fit". *)
Lemma SafeAdd_spec x y : is_u64 x → is_u64 y →
  SafeAdd x y = (u64 (x + y), negb (bool_decide (is_u64 (x + y)))).
Proof.
  unfold SafeAdd, is_u64, MaxUint64. intros. f_equal.
  destruct (Z.ltb_spec (2 ^ 64 - 1 - x) y); case_bool_decide; simpl; lia.
Qed.
Lemma SafeSub_spec x y : is_u64 x → is_u64 y →
  SafeSub x y = (u64 (x - y), negb (bool_decide (is_u64 (x - y)))).
Proof.
  unfold SafeSub, is_u64. intros. f_equal.
  destruct (Z.ltb_spec x y); case_bool_decide; simpl; lia.
Qed.
Lemma SafeMul_spec x y : is_u64 x → is_u64 y →
  SafeMul x y = (u64 (x * y), negb (bool_decide (is_u64 (x * y)))).
Proof.
  unfold SafeMul, is_u64, MaxUint64. intros Hx Hy.
  destruct (Z.eqb_spec x 0) as [->|Hx0]; simpl.
  { f_equal; try done. }
  destruct (Z.eqb_spec y 0) as [->|Hy0]; simpl.
  { rewrite Z.mul_0_r. f_equal; try done. }
  f_equal.
  destruct (Z.ltb_spec ((2 ^ 64 - 1) / x) y) as [Hlt|Hge]; case_bool_decide as Hd; try done; exfalso.
  - apply Z.div_lt_upper_bound in Hlt || idtac.
    assert (y ≤ (2 ^ 64 - 1) / x) by (apply Z.div_le_lower_bound; lia). lia.
  - apply Hd. split; [nia|].
    pose proof (Z.mul_div_le (2 ^ 64 - 1) x). nia.
Qed.

Lemma SafeAdd_ok x y z : is_u64 x → is_u64 y →
  SafeAdd x y = (z, false) ↔ z = x + y ∧ is_u64 (x + y).
Proof.
  intros Hx Hy. rewrite SafeAdd_spec by done. case_bool_decide as Hd; simpl.
  - rewrite u64_id by done. split; [intros [= <-]; done|intros [-> _]; done].
  - split; [discriminate|tauto].
Qed.
Lemma SafeMul_ok x y z : is_u64 x → is_u64 y →
  SafeMul x y = (z, false) ↔ z = x * y ∧ is_u64 (x * y).
Proof.
  intros Hx Hy. rewrite SafeMul_spec by done. case_bool_decide as Hd; simpl.
  - rewrite u64_id by done. split; [intros [= <-]; done|intros [-> _]; done].
  - split; [discriminate|tauto].
Qed.

(** *** Byte access *)

Lemma le_words_byte x n w : 0 ≤ x →
  Big.le_words w x !! (n / 8)%nat ≠ None →
  default 0 ((λ word, Z.shiftr word (8 * Z.of_nat (n mod 8)) mod 256)
             <$> Big.le_words w x !! (n / 8)%nat)
  = x / 256 ^ Z.of_nat n mod 256.
Proof.
  intros Hx Hs. destruct (decide (n / 8 < w)%nat) as [Hlt|Hge].
  2: { exfalso. apply Hs, lookup_ge_None. rewrite Big.length_le_words. lia. }
  rewrite Big.lookup_le_words by done. cbn -[Z.pow Nat.div Nat.modulo].
  pose proof (Nat.div_mod_eq n 8) as Hdm.
  pose proof (Nat.mod_upper_bound n 8 ltac:(lia)) as Hmb.
  set (q := (n / 8)%nat) in *. set (r := (n mod 8)%nat) in *. clearbody q r.
  rewrite Z.shiftr_div_pow2 by lia.
  change 256 with (2 ^ 8). rewrite <- Z.pow_mul_r by lia.
  apply Z.bits_inj'. intros i Hi.
  destruct (Z.ltb_spec i 8) as [Hi8|Hi8].
  2: { rewrite !Z.mod_pow2_bits_high by lia. done. }
  rewrite !Z.mod_pow2_bits_low by lia.
  rewrite !Z.div_pow2_bits by lia.
  rewrite Z.mod_pow2_bits_low by lia. rewrite Z.div_pow2_bits by lia.
  f_equal. lia.
Qed.

Lemma bigEndianByteAt_spec x n :
  bigEndianByteAt x n = Z.abs x / 256 ^ Z.of_nat n mod 256.
Proof.
  unfold bigEndianByteAt, wordBytes, Big.Bits.
  destruct (Big.le_words (Big.nwords x) (Z.abs x) !! (n / 8)%nat) eqn:Hl.
  - pose proof (le_words_byte (Z.abs x) n (Big.nwords x) (Z.abs_nonneg x)) as H.
    rewrite Hl in H. simpl fmap in H. apply H. done.
  - apply lookup_ge_None in Hl. rewrite Big.length_le_words in Hl.
    pose proof (Big.abs_lt_nwords x) as Hw.
    rewrite Z.div_small; [done|]. split; [lia|].
    eapply Z.lt_le_trans; [exact Hw|]. change 256 with (2 ^ 8).
    rewrite <- Z.pow_mul_r by lia. apply Z.pow_le_mono_r; [lia|].
    pose proof (Nat.div_mod_eq n 8). pose proof (Nat.mod_upper_bound n 8). lia.
Qed.

Lemma Byte_spec x n : (n < 32)%nat → is_u256 x →
  Byte x 32 n = x / 256 ^ (31 - Z.of_nat n) mod 256.
Proof.
  intros Hn Hx. unfold Byte. case_decide; [lia|]. rewrite bigEndianByteAt_spec.
  unfold is_u256 in Hx. rewrite Z.abs_eq by lia. do 3 f_equal. lia.
Qed.

(** *** [ReadBits] and [PaddedBigBytes] *)

Lemma ReadBits_word_spec j d i buf : (i ≤ length buf)%nat →
  let k := Nat.min i j in
  ReadBits_word j d i buf
  = ((i - k)%nat, take (i - k) buf ++ be_bytes k d ++ drop i buf).
Proof.
  revert d i buf. induction j as [|j IH]; intros d i buf Hi.
  { cbn zeta. rewrite Nat.min_0_r, Nat.sub_0_r. simpl. by rewrite take_drop. }
  destruct i as [|i]; [done|].
  assert (Hbi : (i ≤ length (<[i:=(d mod 256)%Z]> buf))%nat) by (rewrite length_insert; lia).
  simpl ReadBits_word. rewrite (IH _ _ _ Hbi). simpl Nat.min.
  set (k := Nat.min i j). rewrite Z.shiftr_div_pow2 by lia. change (2 ^ 8) with 256.
  f_equal. change (S i - S k)%nat with (i - k)%nat.
  rewrite take_insert_ge by lia. rewrite be_bytes_S, <- !app_assoc. do 2 f_equal.
  rewrite insert_take_drop by lia.
  rewrite drop_app_ge by (rewrite length_take; lia).
  rewrite length_take, Nat.min_l by lia. by rewrite Nat.sub_diag.
Qed.

Lemma ReadBits_words_spec w z i buf : (i ≤ length buf)%nat →
  let k := Nat.min i (8 * w) in
  ReadBits_words (Big.le_words w z) i buf
  = take (i - k) buf ++ be_bytes k z ++ drop i buf.
Proof.
  revert z i buf. induction w as [|w IH]; intros z i buf Hi; cbn zeta.
  { rewrite Nat.mul_0_r, Nat.min_0_r, Nat.sub_0_r. simpl. by rewrite take_drop. }
  cbn [Big.le_words ReadBits_words]. rewrite ReadBits_word_spec by done.
  unfold wordBytes. set (k1 := Nat.min i 8).
  set (buf1 := take (i - k1) buf ++ be_bytes k1 (z mod 2 ^ 64) ++ drop i buf).
  assert (Hl : length (take (i - k1) buf) = (i - k1)%nat) by (rewrite length_take; lia).
  rewrite IH by (unfold buf1; rewrite length_app; lia).
  set (k2 := Nat.min (i - k1) (8 * w)).
  replace (Nat.min i (8 * S w)) with (k1 + k2)%nat by lia.
  rewrite be_bytes_add, <- !app_assoc. f_equal.
  - unfold buf1. rewrite take_app_le by lia. rewrite take_take. f_equal. lia.
  - unfold buf1. rewrite drop_app_ge by lia. rewrite Hl, Nat.sub_diag, drop_0.
    f_equal.
    + destruct (decide (k1 = 8%nat)) as [->|]; [done|].
      by replace k2 with 0%nat by lia.
    + f_equal. change (2 ^ 64) with (256 ^ Z.of_nat 8). apply be_bytes_mod. lia.
Qed.

Lemma ReadBits_spec x buf :
  let k := Nat.min (length buf) (8 * Big.nwords x) in
  ReadBits x buf = take (length buf - k) buf ++ be_bytes k (Z.abs x).
Proof.
  unfold ReadBits, Big.Bits. rewrite ReadBits_words_spec by done.
  by rewrite drop_all, app_nil_r.
Qed.

(** On a zeroed buffer [ReadBits] writes the number, zero-extended on the
    left and truncated to the buffer's size. *)
Lemma ReadBits_zeros x n : ReadBits x (replicate n 0) = be_bytes n (Z.abs x).
Proof.
  rewrite ReadBits_spec, length_replicate. set (k := Nat.min n (8 * Big.nwords x)).
  rewrite take_replicate. rewrite Nat.min_l by lia.
  apply be_val_inj.
  - apply is_bytes_app. auto with geth.
  - auto with geth.
  - rewrite length_app, length_replicate, !length_be_bytes. lia.
  - rewrite be_val_app_zeros, !be_val_be_bytes.
    destruct (decide (n ≤ 8 * Big.nwords x)%nat).
    { by replace k with n by lia. }
    replace k with (8 * Big.nwords x)%nat by lia.
    pose proof (Big.abs_lt_nwords x) as Hw.
    assert (Z.abs x < 256 ^ Z.of_nat (8 * Big.nwords x)).
    { change 256 with (2 ^ 8). rewrite <- Z.pow_mul_r by lia.
      eapply Z.lt_le_trans; [exact Hw|]. apply Z.pow_le_mono_r; lia. }
    rewrite !Z.mod_small; [done| |lia]. split; [lia|].
    eapply Z.lt_le_trans; [eassumption|]. apply Z.pow_le_mono_r; lia.
Qed.

(** *** Square-and-multiply is exponentiation modulo 2^256 *)

Lemma U256_mul_l a b : U256 (U256 a * b) = U256 (a * b).
Proof. rewrite !U256_mod. apply Z.mul_mod_idemp_l. lia. Qed.
Lemma U256_mul_r a b : U256 (a * U256 b) = U256 (a * b).
Proof. rewrite !U256_mod. apply Z.mul_mod_idemp_r. lia. Qed.
Lemma U256_pow_l a n : 0 ≤ n → U256 (U256 a ^ n) = U256 (a ^ n).
Proof. intros. rewrite !U256_mod. apply Z.mod_pow_l. Qed.

Lemma land_1_odd w : (Z.land w 1 =? 1) = Z.odd w.
Proof.
  change 1 with (Z.ones 1) at 1. rewrite Z.land_ones by lia.
  change (2 ^ 1) with 2. rewrite Zmod_odd. by destruct (Z.odd w).
Qed.

Lemma Exp_word_spec i word base result :
  0 ≤ word < 2 ^ Z.of_nat i → is_u256 result →
  let '(base', result') := Exp_word i word base result in
  U256 base' = U256 (base ^ (2 ^ Z.of_nat i)) ∧
  is_u256 result' ∧ result' = U256 (result * base ^ word).
Proof.
  revert word base result. induction i as [|i IH]; intros word base result Hw Hr.
  { simpl in *. assert (word = 0) as -> by lia.
    rewrite Z.pow_0_r, Z.pow_1_r, Z.mul_1_r. split_and!; [done|apply Hr|].
    by rewrite U256_id. }
  cbn [Exp_word]. rewrite land_1_odd.
  assert (Hw2 : 0 ≤ Z.shiftr word 1 < 2 ^ Z.of_nat i).
  { rewrite Z.shiftr_div_pow2 by lia. change (2 ^ 1) with 2.
    rewrite Nat2Z.inj_succ, Z.pow_succ_r in Hw by lia.
    split; [apply Z.div_pos; lia|]. apply Z.div_lt_upper_bound; lia. }
  set (result1 := if Z.odd word then _ else _).
  assert (Hr1 : is_u256 result1).
  { unfold result1. destruct (Z.odd word); [apply U256_range|done]. }
  specialize (IH _ (U256 (base * base)) result1 Hw2 Hr1).
  destruct (Exp_word _ _ _ _) as [base' result']. destruct IH as (Hb & Hr' & Hres).
  split_and!; [|done|].
  - rewrite Hb, U256_pow_l by (apply Z.pow_nonneg; lia).
    rewrite <- Z.pow_2_r, <- Z.pow_mul_r by (try apply Z.pow_nonneg; lia).
    by rewrite Nat2Z.inj_succ, Z.pow_succ_r by lia.
  - rewrite Hres. rewrite <- U256_mul_r, U256_pow_l, U256_mul_r by lia.
    rewrite <- Z.pow_2_r, <- Z.pow_mul_r by lia.
    assert (Hword : word = 2 * Z.shiftr word 1 + (if Z.odd word then 1 else 0)).
    { rewrite <- Z.div2_spec. pose proof (Z.div2_odd word) as H. destruct (Z.odd word); simpl in *; lia. }
    unfold result1. destruct (Z.odd word).
    + rewrite U256_mul_l, <- Z.mul_assoc. do 2 f_equal.
      rewrite Hword at 2. rewrite Z.pow_add_r, Z.pow_1_r by lia. lia.
    + rewrite Hword at 2. by rewrite Z.add_0_r.
Qed.

Lemma Exp_words_spec n z base result :
  0 ≤ z < 2 ^ (64 * Z.of_nat n) → is_u256 result →
  snd (Exp_words (Big.le_words n z) base result) = U256 (result * base ^ z).
Proof.
  revert z base result. induction n as [|n IH]; intros z base result Hz Hr.
  { simpl in *. assert (z = 0) as -> by lia. rewrite Z.pow_0_r, Z.mul_1_r. by rewrite U256_id. }
  cbn [Big.le_words Exp_words].
  pose proof (Exp_word_spec wordBits (z mod 2 ^ 64) base result) as Hw.
  destruct (Exp_word _ _ _ _) as [base' result'].
  destruct Hw as (Hb & Hr' & ->); [|done|].
  { unfold wordBits. change (Z.of_nat 64) with 64. apply Z.mod_pos_bound. lia. }
  assert (Hz' : 0 ≤ z / 2 ^ 64 < 2 ^ (64 * Z.of_nat n)).
  { split; [apply Z.div_pos; lia|]. apply Z.div_lt_upper_bound; [lia|].
    rewrite <- Z.pow_add_r by lia. replace (64 + 64 * Z.of_nat n) with (64 * Z.of_nat (S n)) by lia. lia. }
  rewrite IH by done. rewrite U256_mul_l.
  rewrite <- U256_mul_r, <- U256_pow_l, Hb by lia.
  rewrite U256_pow_l, U256_mul_r by lia. f_equal.
  unfold wordBits. change (Z.of_nat 64) with 64.
  rewrite <- Z.pow_mul_r by (try apply Z.pow_nonneg; lia).
  pose proof (Z.mod_pos_bound z (2 ^ 64)).
  rewrite <- Z.mul_assoc, <- Z.pow_add_r by nia. do 2 f_equal.
  pose proof (Z.div_mod z (2 ^ 64)). lia.
Qed.

Lemma Exp_spec base exponent : 0 ≤ exponent →
  Exp base exponent = base ^ exponent mod 2 ^ 256.
Proof.
  intros He. unfold Exp, Big.Bits. rewrite Z.abs_eq by done.
  pose proof (Big.abs_lt_nwords exponent).
  rewrite Exp_words_spec, U256_mod; [by rewrite Z.mul_1_l|lia|].
  unfold is_u256. lia.
Qed.
End Math.
