(* ===== verification/Params.v ===== *)
(** * Protocol parameters

    [params/protocol_params.go], [params/gas_table.go] and
    [params/config.go]: the constants, the gas schedules and the fork
    configuration, with [CheckCompatible]'s search for the lowest conflict. *)

From S2P Require Import Prelude.

(** ** protocol_params.go *)

Definition MinGasLimit : Z := 5000.
Definition GasLimitBoundDivisor : Z := 1024.
Definition MaximumExtraDataSize : Z := 32.
Definition CallValueTransferGas : Z := 9000.
Definition CallNewAccountGas : Z := 25000.
Definition TxGas : Z := 21000.
Definition TxGasContractCreation : Z := 53000.
Definition TxDataZeroGas : Z := 4.
Definition QuadCoeffDiv : Z := 512.
Definition LogDataGas : Z := 8.
Definition CallStipend : Z := 2300.
Definition Sha3Gas : Z := 30.
Definition Sha3WordGas : Z := 6.
Definition SstoreSetGas : Z := 20000.
Definition SstoreResetGas : Z := 5000.
Definition SstoreClearGas : Z := 5000.
Definition SstoreRefundGas : Z := 15000.
Definition NetSstoreNoopGas : Z := 200.
Definition NetSstoreInitGas : Z := 20000.
Definition NetSstoreCleanGas : Z := 5000.
Definition NetSstoreDirtyGas : Z := 200.
Definition NetSstoreClearRefund : Z := 15000.
Definition NetSstoreResetRefund : Z := 4800.
Definition NetSstoreResetClearRefund : Z := 19800.
Definition JumpdestGas : Z := 1.
Definition CreateDataGas : Z := 200.
Definition CallCreateDepth : Z := 1024.
Definition LogGas : Z := 375.
Definition CopyGas : Z := 3.
Definition StackLimit : Z := 1024.
Definition LogTopicGas : Z := 375.
Definition CreateGas : Z := 32000.
Definition Create2Gas : Z := 32000.
Definition SuicideRefundGas : Z := 24000.
Definition MemoryGas : Z := 3.
Definition TxDataNonZeroGas : Z := 68.
Definition MaxCodeSize : Z := 24576.
Definition EcrecoverGas : Z := 3000.
Definition Sha256BaseGas : Z := 60.
Definition Sha256PerWordGas : Z := 12.
Definition Ripemd160BaseGas : Z := 600.
Definition Ripemd160PerWordGas : Z := 120.
Definition IdentityBaseGas : Z := 15.
Definition IdentityPerWordGas : Z := 3.
Definition ModExpQuadCoeffDiv : Z := 20.
Definition Bn256AddGas : Z := 500.
Definition Bn256ScalarMulGas : Z := 40000.
Definition Bn256PairingBaseGas : Z := 100000.
Definition Bn256PairingPerPointGas : Z := 80000.
Definition DifficultyBoundDivisor : Z := 2048.
Definition MinimumDifficulty : Z := 131072.
Definition DurationLimit : Z := 13.

(** ** gas_table.go *)

Record GasTable := mkGasTable {
  ExtcodeSize : Z;
  ExtcodeCopy : Z;
  ExtcodeHash : Z;
  Balance : Z;
  SLoad : Z;
  Calls : Z;
  Suicide : Z;
  ExpByte : Z;
  CreateBySuicide : Z;
}.

Definition GasTableHomestead : GasTable :=
  {| ExtcodeSize := 20; ExtcodeCopy := 20; ExtcodeHash := 0; Balance := 20;
     SLoad := 50; Calls := 40; Suicide := 0; ExpByte := 10; CreateBySuicide := 0 |}.
Definition GasTableEIP150 : GasTable :=
  {| ExtcodeSize := 700; ExtcodeCopy := 700; ExtcodeHash := 0; Balance := 400;
     SLoad := 200; Calls := 700; Suicide := 5000; ExpByte := 10; CreateBySuicide := 25000 |}.
Definition GasTableEIP158 : GasTable :=
  {| ExtcodeSize := 700; ExtcodeCopy := 700; ExtcodeHash := 0; Balance := 400;
     SLoad := 200; Calls := 700; Suicide := 5000; ExpByte := 50; CreateBySuicide := 25000 |}.
Definition GasTableConstantinople : GasTable :=
  {| ExtcodeSize := 700; ExtcodeCopy := 700; ExtcodeHash := 400; Balance := 400;
     SLoad := 200; Calls := 700; Suicide := 5000; ExpByte := 50; CreateBySuicide := 25000 |}.

(** ** config.go

    A nil [*big.Int] is [None]. *)

Record ChainConfig := mkChainConfig {
  ChainID : option Z;
  HomesteadBlock : option Z;
  DAOForkBlock : option Z;
  DAOForkSupport : bool;
  EIP150Block : option Z;
  EIP150Hash : Z;
  EIP155Block : option Z;
  EIP158Block : option Z;
  ByzantiumBlock : option Z;
  ConstantinopleBlock : option Z;
  EWASMBlock : option Z;
}.

(** [isForked]: the block numbers compared are never nil at the call sites
    modelled here, so [head] is a plain integer. *)
Definition isForked (s : option Z) (head : Z) : bool :=
  match s with
  | None => false
  | Some s => s <=? head
  end.
Definition configNumEqual (x y : option Z) : bool :=
  match x, y with
  | None, None => true
  | Some x, Some y => x =? y
  | _, _ => false
  end.
Definition isForkIncompatible (s1 s2 : option Z) (head : Z) : bool :=
  (isForked s1 head || isForked s2 head) && negb (configNumEqual s1 s2).

Definition IsHomestead (c : ChainConfig) := isForked (HomesteadBlock c).
Definition IsDAOFork (c : ChainConfig) := isForked (DAOForkBlock c).
Definition IsEIP150 (c : ChainConfig) := isForked (EIP150Block c).
Definition IsEIP155 (c : ChainConfig) := isForked (EIP155Block c).
Definition IsEIP158 (c : ChainConfig) := isForked (EIP158Block c).
Definition IsByzantium (c : ChainConfig) := isForked (ByzantiumBlock c).
Definition IsConstantinople (c : ChainConfig) := isForked (ConstantinopleBlock c).
Definition IsEWASM (c : ChainConfig) := isForked (EWASMBlock c).

Definition GasTable_of (c : ChainConfig) (num : Z) : GasTable :=
  if IsConstantinople c num then GasTableConstantinople
  else if IsEIP158 c num then GasTableEIP158
  else if IsEIP150 c num then GasTableEIP150
  else GasTableHomestead.

Record Rules := mkRules {
  r_ChainID : Z;
  r_IsHomestead : bool;
  r_IsEIP150 : bool;
  r_IsEIP155 : bool;
  r_IsEIP158 : bool;
  r_IsByzantium : bool;
  r_IsConstantinople : bool;
}.
Definition Rules_of (c : ChainConfig) (num : Z) : Rules :=
  {| r_ChainID := default 0 (ChainID c);
     r_IsHomestead := IsHomestead c num;
     r_IsEIP150 := IsEIP150 c num;
     r_IsEIP155 := IsEIP155 c num;
     r_IsEIP158 := IsEIP158 c num;
     r_IsByzantium := IsByzantium c num;
     r_IsConstantinople := IsConstantinople c num |}.

(** Which comparison failed: the [What] string of the error. *)
Inductive compat_what :=
| HomesteadForkBlock | DAOForkBlockW | DAOForkSupportFlag | EIP150ForkBlock
| EIP155ForkBlock | EIP158ForkBlock | EIP158ChainID | ByzantiumForkBlock
| ConstantinopleForkBlock | EwasmForkBlock.

Record ConfigCompatError := mkCompatError {
  What : compat_what;
  StoredConfig : option Z;
  NewConfig : option Z;
  RewindTo : Z;
}.

Definition newCompatError (what : compat_what) (storedblock newblock : option Z)
  : ConfigCompatError :=
  let rew :=
    match storedblock, newblock with
    | None, _ => newblock
    | Some _, None => storedblock
    | Some s, Some n => if s <? n then storedblock else newblock
    end in
  let rewind :=
    match rew with
    | Some r => if 0 <? r then u64 (u64 r - 1) else 0
    | None => 0
    end in
  mkCompatError what storedblock newblock rewind.

Definition checkCompatible (c newcfg : ChainConfig) (head : Z) : option ConfigCompatError :=
  if isForkIncompatible (HomesteadBlock c) (HomesteadBlock newcfg) head then
    Some (newCompatError HomesteadForkBlock (HomesteadBlock c) (HomesteadBlock newcfg))
  else if isForkIncompatible (DAOForkBlock c) (DAOForkBlock newcfg) head then
    Some (newCompatError DAOForkBlockW (DAOForkBlock c) (DAOForkBlock newcfg))
  else if IsDAOFork c head && negb (eqb (DAOForkSupport c) (DAOForkSupport newcfg)) then
    Some (newCompatError DAOForkSupportFlag (DAOForkBlock c) (DAOForkBlock newcfg))
  else if isForkIncompatible (EIP150Block c) (EIP150Block newcfg) head then
    Some (newCompatError EIP150ForkBlock (EIP150Block c) (EIP150Block newcfg))
  else if isForkIncompatible (EIP155Block c) (EIP155Block newcfg) head then
    Some (newCompatError EIP155ForkBlock (EIP155Block c) (EIP155Block newcfg))
  else if isForkIncompatible (EIP158Block c) (EIP158Block newcfg) head then
    Some (newCompatError EIP158ForkBlock (EIP158Block c) (EIP158Block newcfg))
  else if IsEIP158 c head && negb (configNumEqual (ChainID c) (ChainID newcfg)) then
    Some (newCompatError EIP158ChainID (EIP158Block c) (EIP158Block newcfg))
  else if isForkIncompatible (ByzantiumBlock c) (ByzantiumBlock newcfg) head then
    Some (newCompatError ByzantiumForkBlock (ByzantiumBlock c) (ByzantiumBlock newcfg))
  else if isForkIncompatible (ConstantinopleBlock c) (ConstantinopleBlock newcfg) head then
    Some (newCompatError ConstantinopleForkBlock (ConstantinopleBlock c) (ConstantinopleBlock newcfg))
  else if isForkIncompatible (EWASMBlock c) (EWASMBlock newcfg) head then
    Some (newCompatError EwasmForkBlock (EWASMBlock c) (EWASMBlock newcfg))
  else None.

(** The [for] loop of [CheckCompatible]; the result is [OutOfFuel] when the
    fuel does not cover its iterations. *)
Fixpoint CheckCompatible_loop (fuel : nat) (c newcfg : ChainConfig) (bhead : Z)
    (lasterr : option ConfigCompatError) : res unit (option ConfigCompatError) :=
  match fuel with
  | O => OutOfFuel
  | S fuel' =>
      match checkCompatible c newcfg bhead with
      | None => Ok lasterr
      | Some err =>
          if match lasterr with
             | Some l => RewindTo err =? RewindTo l
             | None => false
             end
          then Ok lasterr
          else CheckCompatible_loop fuel' c newcfg (RewindTo err) (Some err)
      end
  end.
Definition CheckCompatible (c newcfg : ChainConfig) (height : Z)
  : res unit (option ConfigCompatError) :=
  CheckCompatible_loop (Z.to_nat height + 2) c newcfg height None.

(** ** Every conflict is strictly below the head it was found at *)

Lemma newCompatError_rewind w s1 s2 head :
  0 ≤ head < 2 ^ 64 → isForked s1 head || isForked s2 head = true →
  0 ≤ RewindTo (newCompatError w s1 s2) ∧
  (RewindTo (newCompatError w s1 s2) < head ∨ RewindTo (newCompatError w s1 s2) = 0).
Proof.
  intros Hh Hf.
  assert (Hr : ∀ r, r ≤ head →
    let rw := if 0 <? r then u64 (u64 r - 1) else 0 in 0 ≤ rw ∧ (rw < head ∨ rw = 0)).
  { intros r Hr. simpl. destruct (Z.ltb_spec 0 r); [|lia].
    rewrite (u64_id r), u64_id by (unfold is_u64; lia). lia. }
  unfold newCompatError, isForked in *.
  destruct s1 as [s1|], s2 as [s2|]; cbn [RewindTo]; boolp; try discriminate.
  - destruct (Z.ltb_spec s1 s2); cbn [RewindTo]; apply Hr; destruct Hf; boolp; lia.
  - apply Hr. destruct Hf; [boolp; lia|discriminate].
  - apply Hr. destruct Hf; [discriminate|boolp; lia].
  - destruct Hf; discriminate.
Qed.

Lemma isForkIncompatible_forked s1 s2 head :
  isForkIncompatible s1 s2 head = true → isForked s1 head || isForked s2 head = true.
Proof. unfold isForkIncompatible. intros H. by apply andb_prop in H as [? _]. Qed.

Lemma checkCompatible_rewind c newcfg head e :
  0 ≤ head < 2 ^ 64 → checkCompatible c newcfg head = Some e →
  0 ≤ RewindTo e ∧ (RewindTo e < head ∨ RewindTo e = 0).
Proof.
  intros Hh. unfold checkCompatible.
  repeat match goal with
  | |- (if ?b then Some _ else _) = Some _ → _ =>
      destruct b eqn:?; [intros [= <-]; apply newCompatError_rewind; [done|]|]
  end; try discriminate; try (by apply isForkIncompatible_forked).
  all: apply andb_prop in Heqb as [Hb _] || apply andb_prop in Heqb1 as [Hb _]
       || apply andb_prop in Heqb5 as [Hb _]; unfold IsDAOFork, IsEIP158 in *;
       apply orb_true_iff; by left.
Qed.

Lemma CheckCompatible_loop_spec fuel c newcfg bhead last :
  0 ≤ bhead < 2 ^ 64 → (Z.to_nat bhead + 1 < fuel)%nat ∨
    (bhead = 0 ∧ (0 < fuel)%nat ∧ ∃ l, last = Some l ∧ RewindTo l = 0) →
  (∀ l, last = Some l → RewindTo l = bhead) →
  ∃ r, CheckCompatible_loop fuel c newcfg bhead last = Ok r ∧
    (r = None ↔ last = None ∧ checkCompatible c newcfg bhead = None) ∧
    (∀ e, r = Some e → 0 ≤ RewindTo e ≤ bhead ∧
       (checkCompatible c newcfg (RewindTo e) = None ∨ RewindTo e = 0)).
Proof.
  revert bhead last. induction fuel as [|fuel IH]; intros bhead last Hb Hf Hl; [lia|].
  cbn [CheckCompatible_loop].
  destruct (checkCompatible c newcfg bhead) as [err|] eqn:Hc.
  2: { exists last. split; [done|]. split; [naive_solver|].
       intros e ->. specialize (Hl e eq_refl). subst. split; [lia|by left]. }
  destruct (checkCompatible_rewind _ _ _ _ Hb Hc) as [Hr0 Hr].
  destruct (match last with Some l => _ | None => false end) eqn:Hlast.
  - destruct last as [l|]; [|done]. boolp. specialize (Hl l eq_refl).
    exists (Some l). split; [done|]. split; [naive_solver|].
    intros e [= <-]. split; [lia|]. right. lia.
  - destruct (IH (RewindTo err) (Some err)) as (r & -> & Hn & Hs); [lia| |by intros ? [= <-]|].
    { destruct Hr as [Hr|Hr]; [left|right].
      - destruct Hf as [Hf|(? & ? & l & -> & Hl0)]; lia.
      - split; [done|]. split; [|by eauto].
        destruct Hf as [Hf|(? & ? & l & -> & Hl0)]; [lia|].
        exfalso. rewrite Hr, Hl0 in Hlast. done. }
    exists r. split; [done|]. split; [naive_solver|].
    intros e He. destruct (Hs e He) as [? ?]. split; [lia|done].
Qed.
