(* ===== verification/Analysis.v ===== *)
(** * Opcodes and jump-destination analysis

    [core/vm/opcodes.go] (an [OpCode] is a byte; the [PUSHn], [DUPn],
    [SWAPn] and [LOGn] families are functions of [n]) and
    [core/vm/analysis.go]: the code bitmap the interpreter consults before a
    jump, proved equal to a reference walk over the instructions. *)

From S2P Require Import Prelude BigMath.

Definition STOP : Z := 0x0.
Definition ADD : Z := 0x1.
Definition MUL : Z := 0x2.
Definition SUB : Z := 0x3.
Definition DIV : Z := 0x4.
Definition SDIV : Z := 0x5.
Definition MOD : Z := 0x6.
Definition SMOD : Z := 0x7.
Definition ADDMOD : Z := 0x8.
Definition MULMOD : Z := 0x9.
Definition EXP : Z := 0xa.
Definition SIGNEXTEND : Z := 0xb.
Definition LT : Z := 0x10.
Definition GT : Z := 0x11.
Definition SLT : Z := 0x12.
Definition SGT : Z := 0x13.
Definition EQ : Z := 0x14.
Definition ISZERO : Z := 0x15.
Definition AND : Z := 0x16.
Definition OR : Z := 0x17.
Definition XOR : Z := 0x18.
Definition NOT : Z := 0x19.
Definition BYTE : Z := 0x1a.
Definition SHL : Z := 0x1b.
Definition SHR : Z := 0x1c.
Definition SAR : Z := 0x1d.
Definition SHA3 : Z := 0x20.
Definition ADDRESS : Z := 0x30.
Definition BALANCE : Z := 0x31.
Definition ORIGIN : Z := 0x32.
Definition CALLER : Z := 0x33.
Definition CALLVALUE : Z := 0x34.
Definition CALLDATALOAD : Z := 0x35.
Definition CALLDATASIZE : Z := 0x36.
Definition CALLDATACOPY : Z := 0x37.
Definition CODESIZE : Z := 0x38.
Definition CODECOPY : Z := 0x39.
Definition GASPRICE : Z := 0x3a.
Definition EXTCODESIZE : Z := 0x3b.
Definition EXTCODECOPY : Z := 0x3c.
Definition RETURNDATASIZE : Z := 0x3d.
Definition RETURNDATACOPY : Z := 0x3e.
Definition EXTCODEHASH : Z := 0x3f.
Definition BLOCKHASH : Z := 0x40.
Definition COINBASE : Z := 0x41.
Definition TIMESTAMP : Z := 0x42.
Definition NUMBER : Z := 0x43.
Definition DIFFICULTY : Z := 0x44.
Definition GASLIMIT : Z := 0x45.
Definition POP : Z := 0x50.
Definition MLOAD : Z := 0x51.
Definition MSTORE : Z := 0x52.
Definition MSTORE8 : Z := 0x53.
Definition SLOAD : Z := 0x54.
Definition SSTORE : Z := 0x55.
Definition JUMP : Z := 0x56.
Definition JUMPI : Z := 0x57.
Definition PC : Z := 0x58.
Definition MSIZE : Z := 0x59.
Definition GAS : Z := 0x5a.
Definition JUMPDEST : Z := 0x5b.
Definition CREATE : Z := 0xf0.
Definition CALL : Z := 0xf1.
Definition CALLCODE : Z := 0xf2.
Definition RETURN : Z := 0xf3.
Definition DELEGATECALL : Z := 0xf4.
Definition CREATE2 : Z := 0xf5.
Definition STATICCALL : Z := 0xfa.
Definition REVERT : Z := 0xfd.
Definition SELFDESTRUCT : Z := 0xff.
Definition PUSH (n : Z) : Z := 0x60 + n - 1.
Definition DUP (n : Z) : Z := 0x80 + n - 1.
Definition SWAP (n : Z) : Z := 0x90 + n - 1.
Definition LOG (n : Z) : Z := 0xa0 + n.
Definition PUSH1 : Z := PUSH 1.
Definition PUSH32 : Z := PUSH 32.

Definition IsPush (op : Z) : bool := (PUSH1 <=? op) && (op <=? PUSH32).
Definition IsStaticJump (op : Z) : bool := op =? JUMP.

(** ** analysis.go

    A [bitvec] is a byte vector; indexing outside it panics in Go, hence the
    [res] results. *)

Abbreviation bitvec := (list Z).

Definition bv_or (bits : bitvec) (i : nat) (m : Z) : res unit bitvec :=
  match bits !! i with
  | None => Panic
  | Some b => Ok (<[i := Z.lor b m]> bits)
  end.
Definition bv_set (bits : bitvec) (pos : nat) : res unit bitvec :=
  bv_or bits (pos / 8) (Z.shiftr 0x80 (Z.of_nat (pos mod 8))).
Definition bv_set8 (bits : bitvec) (pos : nat) : res unit bitvec :=
  bits ←? bv_or bits (pos / 8) (Z.shiftr 0xFF (Z.of_nat (pos mod 8)));
  bv_or bits (pos / 8 + 1) (0xFF - Z.shiftr 0xFF (Z.of_nat (pos mod 8))).

Definition codeSegment (bits : bitvec) (pos : nat) : res unit bool :=
  match bits !! (pos / 8)%nat with
  | None => Panic
  | Some b => Ok (Z.land b (Z.shiftr 0x80 (Z.of_nat (pos mod 8))) =? 0)
  end.

(** The two inner loops of [codeBitmap] over [numbits], then the outer loop;
    the fuel of the latter counts instructions, of which there are at most
    [len(code)]. *)
Fixpoint set_bits1 (numbits : nat) (bits : bitvec) (pc : nat) : res unit (bitvec * nat) :=
  match numbits with
  | O => Ok (bits, pc)
  | S n => bits ←? bv_set bits pc; set_bits1 n bits (S pc)
  end.
Fixpoint set_bits8 (groups : nat) (bits : bitvec) (pc : nat) : res unit (bitvec * nat) :=
  match groups with
  | O => Ok (bits, pc)
  | S g => bits ←? bv_set8 bits pc; set_bits8 g bits (pc + 8)
  end.
Fixpoint codeBitmap_loop (fuel : nat) (code : bytes) (bits : bitvec) (pc : nat)
  : res unit bitvec :=
  match code !! pc with
  | None => Ok bits
  | Some op =>
      match fuel with
      | O => OutOfFuel
      | S fuel' =>
          if IsPush op then
            let numbits := Z.to_nat (op - PUSH1 + 1) in
            r ←? set_bits8 (numbits / 8) bits (S pc);
            r ←? set_bits1 (numbits mod 8) r.1 r.2;
            codeBitmap_loop fuel' code r.1 r.2
          else codeBitmap_loop fuel' code bits (S pc)
      end
  end.
Definition codeBitmap (code : bytes) : res unit bitvec :=
  codeBitmap_loop (length code) code (replicate (length code / 8 + 1 + 4) 0) 0.

(** ** Reference: which bytes of the code are push data

    [data_map code skip] walks the code; [skip] counts the data bytes still
    owed to the last push. *)

Definition push_len (op : Z) : nat := if IsPush op then Z.to_nat (op - PUSH1 + 1) else 0.
Fixpoint data_map (code : bytes) (skip : nat) : list bool :=
  match code with
  | [] => []
  | op :: r =>
      match skip with
      | S k => true :: data_map r k
      | O => false :: data_map r (push_len op)
      end
  end.
Definition is_data (code : bytes) (pos : nat) : bool := default false (data_map code 0 !! pos).

(** The loops over [numbits] set the bits [[pc, pc+numbits)]. *)
Definition getbit (bits : bitvec) (pos : nat) : bool :=
  match bits !! (pos / 8)%nat with
  | None => false
  | Some b => Z.testbit b (7 - Z.of_nat (pos mod 8))
  end.

Lemma mask80_testbit r q : (r < 8)%nat → (q < 8)%nat →
  Z.testbit (Z.shiftr 0x80 (Z.of_nat r)) (7 - Z.of_nat q) = bool_decide (q = r).
Proof. intros. do 8 (destruct r as [|r]; [do 8 (destruct q as [|q]; [done|]); lia|]). lia. Qed.
Lemma maskFF_testbit r q : (r < 8)%nat → (q < 8)%nat →
  Z.testbit (Z.shiftr 0xFF (Z.of_nat r)) (7 - Z.of_nat q) = bool_decide (r ≤ q)%nat.
Proof. intros. do 8 (destruct r as [|r]; [do 8 (destruct q as [|q]; [done|]); lia|]). lia. Qed.
Lemma maskFFc_testbit r q : (r < 8)%nat → (q < 8)%nat →
  Z.testbit (0xFF - Z.shiftr 0xFF (Z.of_nat r)) (7 - Z.of_nat q) = bool_decide (q < r)%nat.
Proof. intros. do 8 (destruct r as [|r]; [do 8 (destruct q as [|q]; [done|]); lia|]). lia. Qed.

Lemma land_mask80 b r : (r < 8)%nat →
  (Z.land b (Z.shiftr 0x80 (Z.of_nat r)) =? 0) = negb (Z.testbit b (7 - Z.of_nat r)).
Proof.
  intros Hr.
  assert (Z.shiftr 0x80 (Z.of_nat r) = 2 ^ (7 - Z.of_nat r)) as ->.
  { do 8 (destruct r as [|r]; [done|]). lia. }
  destruct (Z.testbit b (7 - Z.of_nat r)) eqn:Hb; simpl.
  - apply Z.eqb_neq. intros H0.
    apply (f_equal (λ z, Z.testbit z (7 - Z.of_nat r))) in H0.
    rewrite Z.land_spec, Hb, Z.pow2_bits_true, Z.bits_0 in H0 by lia. done.
  - apply Z.eqb_eq, Z.bits_inj'. intros i Hi. rewrite Z.land_spec, Z.bits_0.
    destruct (decide (i = 7 - Z.of_nat r)) as [->|]; [by rewrite Hb|].
    rewrite Z.pow2_bits_false by lia. apply andb_false_r.
Qed.

Lemma codeSegment_getbit bits pos : (pos / 8 < length bits)%nat →
  codeSegment bits pos = Ok (negb (getbit bits pos)).
Proof.
  intros [b Hb]%lookup_lt_is_Some_2. unfold codeSegment, getbit. rewrite Hb.
  rewrite land_mask80; [done|]. apply Nat.mod_upper_bound. lia.
Qed.

Lemma bv_or_spec bits i m : (i < length bits)%nat →
  ∃ bits', bv_or bits i m = Ok bits' ∧ length bits' = length bits ∧
    ∀ p, getbit bits' p = getbit bits p ||
      bool_decide (p / 8 = i)%nat && Z.testbit m (7 - Z.of_nat (p mod 8)).
Proof.
  intros [b Hb]%lookup_lt_is_Some_2. unfold bv_or. rewrite Hb.
  eexists. split; [done|]. split; [apply length_insert|]. intros p.
  unfold getbit. destruct (decide (p / 8 = i)%nat) as [<-|Hne].
  - rewrite list_lookup_insert_eq by (by eapply lookup_lt_Some).
    rewrite Hb, Z.lor_spec. by rewrite bool_decide_true by done.
  - rewrite list_lookup_insert_ne by done. rewrite bool_decide_false by done.
    simpl. by rewrite orb_false_r.
Qed.

Lemma bv_set_spec bits pos : (pos / 8 < length bits)%nat →
  ∃ bits', bv_set bits pos = Ok bits' ∧ length bits' = length bits ∧
    ∀ p, getbit bits' p = getbit bits p || bool_decide (p = pos).
Proof.
  intros Hl. unfold bv_set.
  destruct (bv_or_spec bits (pos / 8) (Z.shiftr 0x80 (Z.of_nat (pos mod 8))) Hl)
    as (bits' & -> & Hlen & Hg).
  exists bits'. split_and!; [done|done|]. intros p. rewrite Hg. f_equal.
  rewrite mask80_testbit by (apply Nat.mod_upper_bound; lia).
  pose proof (Nat.div_mod_eq p 8). pose proof (Nat.div_mod_eq pos 8).
  pose proof (Nat.mod_upper_bound p 8). pose proof (Nat.mod_upper_bound pos 8).
  repeat case_bool_decide; simpl; try done; lia.
Qed.

Lemma bv_set8_spec bits pos : (pos / 8 + 1 < length bits)%nat →
  ∃ bits', bv_set8 bits pos = Ok bits' ∧ length bits' = length bits ∧
    ∀ p, getbit bits' p = getbit bits p || bool_decide (pos ≤ p < pos + 8)%nat.
Proof.
  intros Hl. unfold bv_set8.
  destruct (bv_or_spec bits (pos / 8) (Z.shiftr 0xFF (Z.of_nat (pos mod 8))))
    as (b1 & -> & Hlen & Hg); [lia|]. cbn [res_bind].
  destruct (bv_or_spec b1 (pos / 8 + 1) (0xFF - Z.shiftr 0xFF (Z.of_nat (pos mod 8))))
    as (b2 & -> & Hlen2 & Hg2); [lia|].
  exists b2. split_and!; [done|congruence|]. intros p. rewrite Hg2, Hg, <- orb_assoc. f_equal.
  rewrite maskFF_testbit, maskFFc_testbit by (apply Nat.mod_upper_bound; lia).
  pose proof (Nat.div_mod_eq p 8). pose proof (Nat.div_mod_eq pos 8).
  pose proof (Nat.mod_upper_bound p 8). pose proof (Nat.mod_upper_bound pos 8).
  repeat case_bool_decide; simpl; try done; lia.
Qed.

Lemma div8_mono a b : (a ≤ b)%nat → (a / 8 ≤ b / 8)%nat.
Proof. intros. apply Nat.Div0.div_le_mono. done. Qed.

Lemma set_bits1_spec n bits pc : ((pc + n) / 8 < length bits)%nat →
  ∃ bits', set_bits1 n bits pc = Ok (bits', pc + n)%nat ∧ length bits' = length bits ∧
    ∀ p, getbit bits' p = getbit bits p || bool_decide (pc ≤ p < pc + n)%nat.
Proof.
  revert bits pc. induction n as [|n IH]; intros bits pc Hl.
  - exists bits. simpl. rewrite Nat.add_0_r. split_and!; [done|done|].
    intros p. rewrite bool_decide_false by lia. by rewrite orb_false_r.
  - cbn [set_bits1].
    pose proof (div8_mono pc (pc + S n) ltac:(lia)).
    destruct (bv_set_spec bits pc) as (b1 & -> & Hl1 & Hg1); [lia|]. cbn [res_bind].
    destruct (IH b1 (S pc)) as (b2 & -> & Hl2 & Hg2).
    { by replace (S pc + n)%nat with (pc + S n)%nat by lia; rewrite Hl1. }
    exists b2. split_and!; [do 2 f_equal; lia|congruence|].
    intros p. rewrite Hg2, Hg1, <- orb_assoc. f_equal.
    repeat case_bool_decide; simpl; try done; lia.
Qed.

Lemma set_bits8_spec g bits pc : ((pc + 8 * g) / 8 < length bits)%nat →
  ∃ bits', set_bits8 g bits pc = Ok (bits', pc + 8 * g)%nat ∧ length bits' = length bits ∧
    ∀ p, getbit bits' p = getbit bits p || bool_decide (pc ≤ p < pc + 8 * g)%nat.
Proof.
  revert bits pc. induction g as [|g IH]; intros bits pc Hl.
  - exists bits. simpl. rewrite Nat.add_0_r. split_and!; [done|done|].
    intros p. rewrite bool_decide_false by lia. by rewrite orb_false_r.
  - cbn [set_bits8].
    pose proof (div8_mono (pc + 8 * 1) (pc + 8 * S g) ltac:(lia)) as Hm.
    rewrite (Nat.mul_comm 8 1), Nat.div_add in Hm by lia.
    destruct (bv_set8_spec bits pc) as (b1 & -> & Hl1 & Hg1); [lia|]. cbn [res_bind].
    destruct (IH b1 (pc + 8)%nat) as (b2 & -> & Hl2 & Hg2).
    { by replace (pc + 8 + 8 * g)%nat with (pc + 8 * S g)%nat by lia; rewrite Hl1. }
    exists b2. split_and!; [do 2 f_equal; lia|congruence|].
    intros p. rewrite Hg2, Hg1, <- orb_assoc. f_equal.
    repeat case_bool_decide; simpl; try done; lia.
Qed.

(** One step of the reference walk, from an instruction start. *)
Lemma data_map_skip code k :
  data_map code k = replicate (Nat.min k (length code)) true ++ data_map (drop k code) 0.
Proof.
  revert code. induction k as [|k IH]; intros code; [done|].
  destruct code as [|op r]; [done|]. simpl. by rewrite IH.
Qed.

Lemma length_data_map code k : length (data_map code k) = length code.
Proof. revert k. induction code as [|op r IH]; intros [|k]; simpl; auto. Qed.

Lemma data_map_at code pc op :
  code !! pc = Some op →
  ∀ p, data_map (drop pc code) 0 !! p =
    match p with
    | O => Some false
    | S q => (replicate (Nat.min (push_len op) (length code - S pc)) true ++
              data_map (drop (S pc + push_len op) code) 0) !! q
    end.
Proof.
  intros Hop p. rewrite (drop_S _ _ _ Hop). cbn [data_map].
  destruct p as [|q]; [done|]. cbn [lookup list_lookup].
  rewrite data_map_skip, length_drop, drop_drop. done.
Qed.

Lemma push_len_bound op : (push_len op ≤ 32)%nat.
Proof.
  unfold push_len, IsPush, PUSH32, PUSH1, PUSH.
  destruct (_ && _) eqn:H; boolp; lia.
Qed.

(** Loop invariant of [codeBitmap]: below [pc] the bits are those of the
    reference walk, from [pc] on none is set, and the walk restarted at [pc]
    is the rest of the map. *)
Definition bitmap_inv (code : bytes) (bits : bitvec) (pc : nat) : Prop :=
  length bits = (length code / 8 + 1 + 4)%nat ∧
  (∀ p, (p < pc)%nat → (p < length code)%nat → getbit bits p = is_data code p) ∧
  (∀ p, (pc ≤ p)%nat → getbit bits p = false) ∧
  (∀ p, (pc + p < length code)%nat →
     data_map code 0 !! (pc + p)%nat = data_map (drop pc code) 0 !! p).

Lemma bitmap_inv_step code bits bits' pc op :
  bitmap_inv code bits pc → code !! pc = Some op →
  length bits' = length bits →
  (∀ p, getbit bits' p = getbit bits p ||
     bool_decide (S pc ≤ p < S pc + push_len op)%nat) →
  bitmap_inv code bits' (S pc + push_len op).
Proof.
  intros (Hl & Hlo & Hhi & Hmap) Hop Hl' Hg. pose proof (lookup_lt_Some _ _ _ Hop) as Hpc.
  pose proof (data_map_at _ _ _ Hop) as Hat. split_and!.
  - congruence.
  - intros p Hp Hlen. rewrite Hg. destruct (decide (p < pc)%nat).
    { rewrite bool_decide_false by lia. by rewrite Hlo, orb_false_r. }
    rewrite Hhi by lia. simpl. unfold is_data.
    assert (data_map code 0 !! p = data_map (drop pc code) 0 !! (p - pc)%nat) as ->.
    { rewrite <- Hmap by lia. f_equal. lia. }
    rewrite Hat.
    destruct (p - pc)%nat as [|q] eqn:Hq; [by rewrite bool_decide_false by lia|].
    rewrite bool_decide_true by lia.
    rewrite lookup_app_l by (rewrite length_replicate; lia).
    by rewrite lookup_replicate_2 by lia.
  - intros p Hp. rewrite Hg, bool_decide_false, Hhi by lia. done.
  - intros p Hp. replace (S pc + push_len op + p)%nat with (pc + S (push_len op + p))%nat by lia.
    rewrite Hmap by lia. rewrite Hat.
    rewrite lookup_app_r by (rewrite length_replicate; lia).
    rewrite length_replicate. f_equal. lia.
Qed.

Lemma codeBitmap_loop_spec fuel code bits pc :
  bitmap_inv code bits pc → (length code - pc ≤ fuel)%nat →
  ∃ bits', codeBitmap_loop fuel code bits pc = Ok bits' ∧
    ∃ pc', (length code ≤ pc')%nat ∧ bitmap_inv code bits' pc'.
Proof.
  revert bits pc. induction fuel as [|fuel IH]; intros bits pc Hinv Hf.
  { exists bits. simpl. rewrite lookup_ge_None_2 by lia. split; [done|].
    exists pc. split; [lia|done]. }
  cbn [codeBitmap_loop]. destruct (code !! pc) as [op|] eqn:Hop.
  2: { apply lookup_ge_None in Hop. eauto. }
  pose proof (lookup_lt_Some _ _ _ Hop) as Hpc.
  pose proof (push_len_bound op) as Hpl. destruct Hinv as [Hlen ?] eqn:Hinv'.
  pose proof (div8_mono (S pc + push_len op) (length code + 4 * 8) ltac:(lia)) as Hd.
  rewrite Nat.div_add in Hd by lia.
  assert (Hstep := bitmap_inv_step code bits). unfold push_len in Hpl, Hd, Hstep.
  destruct (IsPush op) eqn:Hp.
  - set (n := Z.to_nat (op - PUSH1 + 1)) in *.
    pose proof (Nat.div_mod_eq n 8) as Hdm.
    destruct (set_bits8_spec (n / 8) bits (S pc)) as (b1 & -> & Hl1 & Hg1).
    { eapply Nat.le_lt_trans; [apply (div8_mono _ (S pc + n)); lia|]. lia. }
    cbn [res_bind fst snd].
    destruct (set_bits1_spec (n mod 8) b1 (S pc + 8 * (n / 8))) as (b2 & -> & Hl2 & Hg2).
    { rewrite Hl1. replace (S pc + 8 * (n / 8) + n mod 8)%nat with (S pc + n)%nat by lia. lia. }
    cbn [res_bind fst snd].
    replace (S pc + 8 * (n / 8) + n mod 8)%nat with (S pc + n)%nat by lia.
    apply IH; [|lia]. specialize (Hstep b2 pc op). rewrite Hp in Hstep.
    apply Hstep; [done|done|congruence|].
    intros p. rewrite Hg2, Hg1, <- orb_assoc. f_equal.
    repeat case_bool_decide; simpl; try done; lia.
  - apply IH; [|lia]. specialize (Hstep bits pc op). rewrite Hp, Nat.add_0_r in Hstep.
    apply Hstep; [done|done|done|].
    intros p. rewrite bool_decide_false by lia. by rewrite orb_false_r.
Qed.

Lemma getbit_zeros n p : getbit (replicate n 0) p = false.
Proof.
  unfold getbit. destruct (replicate n 0 !! (p / 8)%nat) as [b|] eqn:H; [|done].
  apply lookup_replicate in H as [-> _]. apply Z.bits_0.
Qed.

Lemma codeBitmap_spec code : ∃ bits, codeBitmap code = Ok bits ∧
  length bits = (length code / 8 + 1 + 4)%nat ∧
  ∀ p, (p < length code)%nat → getbit bits p = is_data code p.
Proof.
  destruct (codeBitmap_loop_spec (length code) code (replicate (length code / 8 + 1 + 4) 0) 0)
    as (bits & Hb & pc & Hpc & Hl & Hlo & _); [|lia|].
  - split_and!; [apply length_replicate|lia|intros; apply getbit_zeros|].
    intros p _. by rewrite drop_0.
  - exists bits. split_and!; [done|done|]. intros p Hp. apply Hlo; lia.
Qed.

(** *** [destinations.has]

    The cache is shared, by reference, by a contract and the contracts it
    calls; it is threaded as state. *)
Abbreviation destinations := (gmap Z bitvec).

Definition has (d : destinations) (codehash : Z) (code : bytes) (dest : Z)
  : res unit (bool * destinations) :=
  let udest := Big.Uint64 dest in
  if (63 <=? Big.BitLen dest) || (zlen code <=? udest) then Ok (false, d)
  else
    r ←? match d !! codehash with
         | Some m => Ok (m, d)
         | None => m ←? codeBitmap code; Ok (m, <[codehash := m]> d)
         end;
    let pos := Z.to_nat udest in
    match code !! pos with
    | None => Panic
    | Some op =>
        if op =? JUMPDEST then seg ←? codeSegment r.1 pos; Ok (seg, r.2)
        else Ok (false, r.2)
    end.

(** A jump may only go to a [JUMPDEST] byte that is not push data. *)
Definition valid_jumpdest (code : bytes) (dest : Z) : Prop :=
  0 ≤ dest ∧ code !! Z.to_nat dest = Some JUMPDEST ∧ is_data code (Z.to_nat dest) = false.
#[global] Instance valid_jumpdest_dec code dest : Decision (valid_jumpdest code dest).
Proof. unfold valid_jumpdest. apply _. Defined.

Definition cache_ok (d : destinations) (codehash : Z) (code : bytes) : Prop :=
  ∀ m, d !! codehash = Some m → codeBitmap code = Ok m.

Lemma has_spec d codehash code dest :
  0 ≤ dest → zlen code ≤ 2 ^ 62 → cache_ok d codehash code →
  ∃ d', has d codehash code dest = Ok (bool_decide (valid_jumpdest code dest), d') ∧
    cache_ok d' codehash code ∧ ∀ h, h ≠ codehash → d' !! h = d !! h.
Proof.
  intros Hd Hlen Hc. unfold has.
  destruct (63 <=? Big.BitLen dest) eqn:Hbl; boolp.
  { exists d. rewrite bool_decide_false; [done|]. intros (_ & Hop & _).
    apply lookup_lt_Some in Hop. unfold zlen in Hlen.
    assert (dest < 2 ^ 62) by lia.
    assert (Big.BitLen dest ≤ 62); [|lia]. apply Big.BitLen_le; lia. }
  assert (Hdest : dest < 2 ^ 62).
  { assert (Hle : Big.BitLen dest ≤ 62) by lia. apply Big.BitLen_le in Hle; lia. }
  rewrite Big.Uint64_id by (unfold is_u64; lia). cbn [orb].
  destruct (zlen code <=? dest) eqn:Hz; boolp; unfold zlen in *.
  { exists d. rewrite bool_decide_false; [done|]. intros (_ & Hop & _).
    apply lookup_lt_Some in Hop. lia. }
  destruct (codeBitmap_spec code) as (bits & Hbits & Hbl2 & Hget).
  assert (Hcache : ∃ d', match d !! codehash with
    | Some m => Ok (m, d)
    | None => m ←? codeBitmap code; Ok (m, <[codehash := m]> d)
    end = Ok (bits, d') ∧ cache_ok d' codehash code ∧ ∀ h, h ≠ codehash → d' !! h = d !! h).
  { destruct (d !! codehash) as [m|] eqn:Hm.
    - exists d. rewrite (Hc m Hm) in Hbits. injection Hbits as ->. done.
    - exists (<[codehash := bits]> d). rewrite Hbits. cbn [res_bind]. split_and!; [done| |].
      + intros m. rewrite lookup_insert_eq. by intros [= <-].
      + intros h Hh. by rewrite lookup_insert_ne. }
  destruct Hcache as (d' & -> & Hok & Hfr). cbn [res_bind fst snd].
  destruct (code !! Z.to_nat dest) as [op|] eqn:Hop.
  2: { apply lookup_ge_None in Hop. lia. }
  pose proof (lookup_lt_Some _ _ _ Hop) as Hpos.
  exists d'. split; [|done].
  destruct (Z.eqb_spec op JUMPDEST) as [->|Hne].
  - rewrite codeSegment_getbit by (pose proof (div8_mono (Z.to_nat dest) (length code)); lia).
    cbn [res_bind]. rewrite Hget by done.
    destruct (is_data code (Z.to_nat dest)) eqn:Hdat; simpl.
    + rewrite bool_decide_false; [done|]. intros (_ & _ & ?). congruence.
    + rewrite bool_decide_true; done.
  - rewrite bool_decide_false; [done|]. intros (_ & Hop2 & _). congruence.
Qed.
