(* ===== verification/Memory.v ===== *)
(** * Stack and memory of a call frame

    [core/vm/stack.go], [core/vm/memory.go], [core/vm/common.go] and the
    error values of [core/vm/errors.go].

    The stack is the Go slice read from its end: the head of the list is the
    top.  Its elements are [*big.Int]s that the instructions update in place;
    no two live stack slots share a pointer ([dup] copies, the pool only
    hands out popped integers), so the list holds their values. *)

From S2P Require Import Prelude BigMath Params.

(** ** errors.go, and the other errors the interpreter returns *)

Inductive vmerror :=
| ErrOutOfGas
| ErrCodeStoreOutOfGas
| ErrDepth
| ErrInsufficientBalance
| ErrContractAddressCollision
| ErrNoCompatibleInterpreter
| errGasUintOverflow
| errWriteProtection
| errReturnDataOutOfBounds
| errExecutionReverted
| errMaxCodeSizeExceeded
| errInvalidOpcode (op : Z)
| errStackUnderflow (have want : Z)
| errStackLimit (have limit : Z)
| errInvalidJump (nop pos : Z)
| errPrecompile (n : Z).

#[global] Instance vmerror_eq_dec : EqDecision vmerror.
Proof. solve_decision. Defined.

Abbreviation vres := (res vmerror).

(** ** stack.go *)

Abbreviation Stack := (list Z).

Definition newstack : Stack := [].
Definition push (d : Z) (st : Stack) : Stack := d :: st.
Definition pop (st : Stack) : vres (Z * Stack) :=
  match st with
  | [] => Panic
  | x :: r => Ok (x, r)
  end.
Definition Back (st : Stack) (n : nat) : vres Z :=
  match st !! n with
  | None => Panic
  | Some x => Ok x
  end.
Definition peek (st : Stack) : vres Z := Back st 0.
(** [swap n]: exchanges the [n]-th element from the top (1-based) with the top. *)
Definition swap (n : nat) (st : Stack) : vres Stack :=
  match st !! (n - 1)%nat, st !! 0%nat with
  | Some x, Some y => Ok (<[0%nat := x]> (<[(n - 1)%nat := y]> st))
  | _, _ => Panic
  end.
Definition dup (n : nat) (st : Stack) : vres Stack :=
  match st !! (n - 1)%nat with
  | None => Panic
  | Some x => Ok (push x st)
  end.
Definition require (n : Z) (st : Stack) : vres unit :=
  if zlen st <? n then Err (errStackUnderflow (zlen st) n) else Ok tt.

(** [stack_table.go] *)
Definition makeStackFunc (pop push : Z) (st : Stack) : vres unit :=
  _ ←? require pop st;
  if StackLimit <? zlen st + push - pop then Err (errStackLimit (zlen st) StackLimit)
  else Ok tt.
Definition makeDupStackFunc (n : Z) : Stack → vres unit := makeStackFunc n (n + 1).
Definition makeSwapStackFunc (n : Z) : Stack → vres unit := makeStackFunc n n.

Lemma makeStackFunc_ok pop push st :
  makeStackFunc pop push st = Ok tt ↔ pop ≤ zlen st ∧ zlen st + push - pop ≤ StackLimit.
Proof.
  unfold makeStackFunc, require.
  destruct (Z.ltb_spec (zlen st) pop); simpl; [split; [discriminate|lia]|].
  destruct (Z.ltb_spec StackLimit (zlen st + push - pop)); split; try discriminate; try lia; done.
Qed.

(** ** common.go *)

Definition calcMemSize (off l : Z) : Z := if Big.Sign l =? 0 then 0 else off + l.
Definition bigUint64 (v : Z) : Z * bool := (Big.Uint64 v, 64 <? Big.BitLen v).
Definition toWordSize (size : Z) : Z :=
  if MaxUint64 - 31 <? size then MaxUint64 / 32 + 1 else u64 (size + 31) / 32.
(** Conversion [int(x)] of a [uint64]. *)
Definition int_of_u64 (x : Z) : Z := if x <? 2 ^ 63 then x else x - 2 ^ 64.
(** Slice expression [data[s:e]]: panics unless [0 <= s <= e <= len(data)]. *)
Definition slice (data : bytes) (s e : Z) : vres bytes :=
  if (0 <=? s) && (s <=? e) && (e <=? zlen data)
  then Ok (take (Z.to_nat (e - s)) (drop (Z.to_nat s) data)) else Panic.
Definition getData (data : bytes) (start size : Z) : vres bytes :=
  let length := zlen data in
  let start := if length <? start then length else start in
  let e := u64 (start + size) in
  let e := if length <? e then length else e in
  d ←? slice data start e;
  Ok (RightPadBytes d (Z.to_nat (int_of_u64 size))).
Definition getDataBig (data : bytes) (start size : Z) : vres bytes :=
  let dlen := zlen data in
  let s := Math.BigMin start dlen in
  let e := Math.BigMin (s + size) dlen in
  d ←? slice data (Big.Uint64 s) (Big.Uint64 e);
  Ok (RightPadBytes d (Z.to_nat (int_of_u64 (Big.Uint64 size)))).
Definition allZero (b : bytes) : bool := forallb (λ x, x =? 0) b.

(** ** memory.go *)

Record Memory := mkMemory { store : bytes; lastGasCost : Z }.
Definition NewMemory : Memory := mkMemory [] 0.
Definition Len (m : Memory) : Z := zlen (store m).

(** [copy(dst[o:o+size], src)] for a range inside [dst]. *)
Definition copy_into (dst : bytes) (o size : Z) (src : bytes) : bytes :=
  let n := Nat.min (Z.to_nat size) (length src) in
  take (Z.to_nat o) dst ++ take n src ++ drop (Z.to_nat o + n) dst.

Definition Memory_Set (m : Memory) (offset size : Z) (value : bytes) : vres Memory :=
  if 0 <? size then
    let e := u64 (offset + size) in
    if (zlen (store m) <? e) || (e <? offset) then Panic
    else Ok (mkMemory (copy_into (store m) offset size value) (lastGasCost m))
  else Ok m.
Definition Memory_Set32 (m : Memory) (offset : Z) (val : Z) : vres Memory :=
  let e := u64 (offset + 32) in
  if (zlen (store m) <? e) || (e <? offset) then Panic
  else
    let zeroed := copy_into (store m) offset 32 (replicate 32 0) in
    let region := take 32 (drop (Z.to_nat offset) zeroed) in
    Ok (mkMemory (copy_into zeroed offset 32 (Math.ReadBits val region)) (lastGasCost m)).
Definition Resize (m : Memory) (size : Z) : Memory :=
  if zlen (store m) <? size
  then mkMemory (store m ++ replicate (Z.to_nat (size - zlen (store m))) 0) (lastGasCost m)
  else m.
(** [Get] and [GetPtr]: an upper bound past the length is taken to panic (Go
    panics past the capacity); the interpreter only asks for ranges inside. *)
Definition Memory_Get (m : Memory) (offset size : Z) : vres bytes :=
  if size =? 0 then Ok []
  else if offset <? zlen (store m) then slice (store m) offset (offset + size)
  else Ok [].
Definition GetPtr (m : Memory) (offset size : Z) : vres bytes := Memory_Get m offset size.
(** [m.store[off] = b] *)
Definition store_byte (m : Memory) (off b : Z) : vres Memory :=
  if (0 <=? off) && (off <? zlen (store m))
  then Ok (mkMemory (<[Z.to_nat off := b]> (store m)) (lastGasCost m)) else Panic.

(** ** Reads over writes *)

Lemma copy_into_lookup dst o size src i :
  0 ≤ o → o + size ≤ zlen dst →
  copy_into dst o size src !! i =
    if decide (Z.to_nat o ≤ i < Z.to_nat o + Nat.min (Z.to_nat size) (length src))%nat
    then src !! (i - Z.to_nat o)%nat else dst !! i.
Proof.
  unfold copy_into, zlen. intros Ho Hs.
  set (n := Nat.min (Z.to_nat size) (length src)). set (k := Z.to_nat o).
  assert (k + n ≤ length dst ∨ n = 0)%nat as Hn by lia.
  destruct (decide (i < k)%nat) as [Hlt|Hge].
  { rewrite decide_False by lia. rewrite lookup_app.
    destruct (take k dst !! i) eqn:Ht.
    - rewrite lookup_take_lt in Ht by lia. done.
    - rewrite lookup_take_lt in Ht by lia.
      rewrite lookup_app, length_take. apply lookup_ge_None in Ht.
      rewrite (lookup_ge_None_2 dst i) by lia.
      destruct (take n src !! (i - k `min` length dst)%nat) eqn:Hx.
      + apply lookup_lt_Some in Hx. rewrite length_take in Hx. lia.
      + rewrite lookup_drop, length_take. apply lookup_ge_None. lia. }
  destruct (decide (k ≤ length dst)%nat) as [Hk|Hk].
  - rewrite lookup_app_r by (rewrite length_take; lia).
    rewrite length_take, Nat.min_l by lia.
    case_decide as Hin.
    + rewrite lookup_app_l by (rewrite length_take; lia). by rewrite lookup_take_lt by lia.
    + rewrite lookup_app_r by (rewrite length_take; lia).
      rewrite lookup_drop, length_take. f_equal. lia.
  - assert (n = 0%nat) as Hn0 by lia.
    rewrite decide_False by lia. rewrite Hn0, take_0, Nat.add_0_r. simpl.
    rewrite drop_ge, app_nil_r, take_ge by lia. done.
Qed.

Lemma length_copy_into dst o size src :
  0 ≤ o → o + size ≤ zlen dst → length (copy_into dst o size src) = length dst.
Proof.
  unfold copy_into, zlen. intros. rewrite !length_app, !length_take, length_drop. lia.
Qed.

Lemma is_bytes_copy_into dst o size src :
  is_bytes dst → is_bytes src → is_bytes (copy_into dst o size src).
Proof. intros. unfold copy_into. rewrite !is_bytes_app. auto with geth. Qed.

Lemma copy_into_region dst o size src :
  0 ≤ o → 0 ≤ size → o + size ≤ zlen dst → zlen src = size →
  take (Z.to_nat size) (drop (Z.to_nat o) (copy_into dst o size src)) = src.
Proof.
  intros Ho Hs Hl Hsrc. apply list_eq. intros i. unfold zlen in *.
  destruct (decide (i < Z.to_nat size)%nat).
  - rewrite lookup_take_lt, lookup_drop, copy_into_lookup by (unfold zlen; lia).
    rewrite decide_True by lia. f_equal. lia.
  - rewrite lookup_take_ge by lia. symmetry. apply lookup_ge_None. lia.
Qed.

Lemma copy_into_frame dst o size src o' size' :
  0 ≤ o → 0 ≤ o' → 0 ≤ size' → o + size ≤ zlen dst → o' + size' ≤ o ∨ o + size ≤ o' →
  take (Z.to_nat size') (drop (Z.to_nat o') (copy_into dst o size src))
  = take (Z.to_nat size') (drop (Z.to_nat o') dst).
Proof.
  intros. apply list_eq. intros i.
  destruct (decide (i < Z.to_nat size')%nat).
  - rewrite !lookup_take_lt, !lookup_drop, copy_into_lookup by lia.
    rewrite decide_False by lia. done.
  - by rewrite !lookup_take_ge by lia.
Qed.

Definition in_range (m : Memory) (offset size : Z) : Prop :=
  0 ≤ offset ∧ 0 ≤ size ∧ offset + size ≤ zlen (store m) ∧ zlen (store m) < 2 ^ 63.

Lemma Memory_Set_ok m offset size value :
  in_range m offset size →
  Memory_Set m offset size value
  = Ok (mkMemory (copy_into (store m) offset size value) (lastGasCost m)).
Proof.
  intros (? & ? & ? & ?). unfold Memory_Set.
  destruct (Z.ltb_spec 0 size).
  - rewrite u64_id by (unfold is_u64; lia).
    destruct (Z.ltb_spec (zlen (store m)) (offset + size)); [lia|].
    destruct (Z.ltb_spec (offset + size) offset); [lia|]. done.
  - replace size with 0 by lia. unfold copy_into. simpl. rewrite Nat.add_0_r, take_drop.
    by destruct m.
Qed.

Lemma Memory_Set_0 m offset value : Memory_Set m offset 0 value = Ok m.
Proof. done. Qed.

Lemma slice_ok data s e : 0 ≤ s ≤ e → e ≤ zlen data →
  slice data s e = Ok (take (Z.to_nat (e - s)) (drop (Z.to_nat s) data)).
Proof.
  intros. unfold slice.
  destruct (Z.leb_spec 0 s), (Z.leb_spec s e), (Z.leb_spec e (zlen data)); simpl; lia || done.
Qed.

Lemma Memory_Get_ok m offset size :
  in_range m offset size →
  Memory_Get m offset size = Ok (take (Z.to_nat size) (drop (Z.to_nat offset) (store m))).
Proof.
  intros (? & ? & ? & ?). unfold Memory_Get.
  destruct (Z.eqb_spec size 0) as [->|]; [done|].
  destruct (Z.ltb_spec offset (zlen (store m))); [|lia].
  rewrite slice_ok by lia. do 2 f_equal. lia.
Qed.
Lemma Memory_Get_0 m offset : Memory_Get m offset 0 = Ok [].
Proof. done. Qed.

Lemma Memory_Set32_ok m offset val :
  in_range m offset 32 →
  Memory_Set32 m offset val
  = Ok (mkMemory (copy_into (store m) offset 32 (be_bytes 32 (Z.abs val))) (lastGasCost m)).
Proof.
  intros (? & ? & ? & ?). unfold Memory_Set32.
  rewrite u64_id by (unfold is_u64; lia).
  destruct (Z.ltb_spec (zlen (store m)) (offset + 32)); [lia|].
  destruct (Z.ltb_spec (offset + 32) offset); [lia|]. cbn [orb].
  pose proof (copy_into_region (store m) offset 32 (replicate 32 0)) as Hreg.
  change (Z.to_nat 32) with 32%nat in Hreg.
  rewrite Hreg by (done || lia). rewrite Math.ReadBits_zeros.
  do 2 f_equal. apply list_eq. intros i.
  assert (Hz : zlen (copy_into (store m) offset 32 (replicate 32 0)) = zlen (store m)).
  { unfold zlen. by rewrite length_copy_into by lia. }
  rewrite !copy_into_lookup by lia. rewrite !length_be_bytes, length_replicate.
  by destruct (decide _).
Qed.

Lemma length_Resize m size : 0 ≤ size →
  zlen (store (Resize m size)) = Z.max size (zlen (store m)).
Proof.
  intros. unfold Resize. destruct (Z.ltb_spec (zlen (store m)) size); simpl; [|lia].
  rewrite zlen_app, zlen_replicate. lia.
Qed.

(** Growing the memory appends zeroes: existing bytes stay. *)
Lemma Resize_lookup m size i b : store m !! i = Some b → store (Resize m size) !! i = Some b.
Proof. intros. unfold Resize. destruct (_ <? _); [|done]. simpl. by apply lookup_app_l_Some. Qed.

Lemma toWordSize_spec size : is_u64 size →
  toWordSize size = (size + 31) / 32.
Proof.
  unfold is_u64, toWordSize, MaxUint64. intros.
  destruct (Z.ltb_spec (2 ^ 64 - 1 - 31) size).
  - change ((2 ^ 64 - 1) / 32 + 1) with (2 ^ 59).
    apply (Z.div_unique _ _ _ (size + 31 - 2 ^ 64)); lia.
  - by rewrite u64_id by (unfold is_u64; lia).
Qed.
Lemma toWordSize_bounds size : is_u64 size →
  size ≤ 32 * toWordSize size < size + 32 ∧ 0 ≤ toWordSize size ≤ 2 ^ 59.
Proof.
  intros H. rewrite toWordSize_spec by done. unfold is_u64 in H.
  pose proof (Z.div_mod (size + 31) 32 ltac:(lia)).
  pose proof (Z.mod_pos_bound (size + 31) 32 ltac:(lia)).
  pose proof (Z.div_pos (size + 31) 32). lia.
Qed.

(** [getDataBig] pads with zeroes: the result has [size] bytes and byte [i]
    is [data[start+i]], or 0 past the end. *)
Lemma getDataBig_spec data start size :
  0 ≤ start → 0 ≤ size < 2 ^ 63 → zlen data < 2 ^ 63 →
  ∃ out, getDataBig data start size = Ok out ∧ zlen out = size ∧
    ∀ i, 0 ≤ i < size →
      out !! Z.to_nat i = Some (default 0 (data !! Z.to_nat (start + i))).
Proof.
  intros Hs Hsz Hd. unfold getDataBig. pose proof (zlen_nonneg data) as Hp.
  set (s := Math.BigMin start (zlen data)). set (e := Math.BigMin (s + size) (zlen data)).
  assert (0 ≤ s ≤ e ∧ e ≤ zlen data ∧ s = Z.min start (zlen data)
          ∧ e = Z.min (s + size) (zlen data)) as (Hse & He & Hs' & He').
  { subst e s. unfold Math.BigMin.
    repeat case_match; boolp; lia. }
  clearbody s e. rewrite !Big.Uint64_id by (unfold is_u64; lia).
  rewrite slice_ok by lia. cbn [res_bind].
  unfold int_of_u64. destruct (Z.ltb_spec size (2 ^ 63)); [|lia].
  eexists. split; [done|]. unfold zlen in *.
  rewrite length_RightPadBytes, length_take, length_drop. split; [lia|].
  intros i Hi. unfold RightPadBytes. rewrite length_take, length_drop.
  case_decide as Hpad.
  - rewrite lookup_take_lt, lookup_drop by lia.
    destruct (lookup_lt_is_Some_2 data (Z.to_nat s + Z.to_nat i)) as [b Hb]; [lia|].
    rewrite Hb. replace (Z.to_nat (start + i)) with (Z.to_nat s + Z.to_nat i)%nat by lia.
    by rewrite Hb.
  - destruct (decide (Z.to_nat i < Z.to_nat (e - s))%nat).
    + rewrite lookup_app_l by (rewrite length_take, length_drop; lia).
      rewrite lookup_take_lt, lookup_drop by lia.
      destruct (lookup_lt_is_Some_2 data (Z.to_nat s + Z.to_nat i)) as [b Hb]; [lia|].
      rewrite Hb. replace (Z.to_nat (start + i)) with (Z.to_nat s + Z.to_nat i)%nat by lia.
      by rewrite Hb.
    + rewrite lookup_app_r by (rewrite length_take, length_drop; lia).
      rewrite length_take, length_drop, lookup_replicate_2 by lia.
      rewrite (lookup_ge_None_2 data) by lia. done.
Qed.

Lemma is_bytes_slice data s e d : is_bytes data → slice data s e = Ok d → is_bytes d.
Proof. unfold slice. intros H. destruct (_ && _); [|done]. intros [= <-]. auto with geth. Qed.
