(* ===== verification/Rlp.v ===== *)
(** * RLP

    [rlp/encode.go] (the [encbuf] that defers list headers, the writers of
    the kinds of values the node encodes) and [rlp/raw.go] (splitting encoded
    data), against the recursive definition [rlp] of the format.

    [writer] selection by reflection ([typecache.go]) is replaced by the
    constructor of [val]: [VUint] is [writeUint], [VBool] [writeBool], [VBig]
    [writeBigInt], [VBytes] [writeBytes]/[writeByteArray]/[writeString],
    [VList] the slice and struct writers. *)

From S2P Require Import Prelude BigMath.

Inductive rlperror :=
| ErrUnexpectedEOF
| ErrCanonSize
| ErrValueTooLarge
| ErrExpectedString
| ErrExpectedList
| errNegativeBig.

Abbreviation rres := (res rlperror).

#[warnings="-all"]
Inductive val :=
| VUint (i : Z)
| VBool (b : bool)
| VBig (i : Z)
| VBytes (b : bytes)
| VList (l : list val).

(** Induction over nested lists. *)
Fixpoint val_ind' (P : val → Prop)
  (HU : ∀ i, P (VUint i)) (HB : ∀ b, P (VBool b)) (HG : ∀ i, P (VBig i))
  (HS : ∀ b, P (VBytes b)) (HL : ∀ l, Forall P l → P (VList l)) (v : val) : P v :=
  match v with
  | VUint i => HU i
  | VBool b => HB b
  | VBig i => HG i
  | VBytes b => HS b
  | VList l =>
      HL l ((fix go (l : list val) : Forall P l :=
        match l with
        | [] => Forall_nil_2 P
        | v :: r => Forall_cons_2 P v r (val_ind' P HU HB HG HS HL v) (go r)
        end) l)
  end.

(** ** encode.go: integers and headers *)

Definition byte (i : Z) : Z := i mod 256.

Definition putint (i : Z) : bytes :=
  if i <? 2 ^ 8 then [byte i]
  else if i <? 2 ^ 16 then [byte (Z.shiftr i 8); byte i]
  else if i <? 2 ^ 24 then [byte (Z.shiftr i 16); byte (Z.shiftr i 8); byte i]
  else if i <? 2 ^ 32 then
    [byte (Z.shiftr i 24); byte (Z.shiftr i 16); byte (Z.shiftr i 8); byte i]
  else if i <? 2 ^ 40 then
    [byte (Z.shiftr i 32); byte (Z.shiftr i 24); byte (Z.shiftr i 16); byte (Z.shiftr i 8); byte i]
  else if i <? 2 ^ 48 then
    [byte (Z.shiftr i 40); byte (Z.shiftr i 32); byte (Z.shiftr i 24); byte (Z.shiftr i 16);
     byte (Z.shiftr i 8); byte i]
  else if i <? 2 ^ 56 then
    [byte (Z.shiftr i 48); byte (Z.shiftr i 40); byte (Z.shiftr i 32); byte (Z.shiftr i 24);
     byte (Z.shiftr i 16); byte (Z.shiftr i 8); byte i]
  else
    [byte (Z.shiftr i 56); byte (Z.shiftr i 48); byte (Z.shiftr i 40); byte (Z.shiftr i 32);
     byte (Z.shiftr i 24); byte (Z.shiftr i 16); byte (Z.shiftr i 8); byte i].

(** [intsize]: the loop shifts until the value is exhausted; a [uint64]
    takes at most 8 rounds. *)
Fixpoint intsize_loop (fuel : nat) (i size : Z) : Z :=
  match fuel with
  | O => size
  | S fuel' =>
      let i := Z.shiftr i 8 in
      if i =? 0 then size else intsize_loop fuel' i (size + 1)
  end.
Definition intsize (i : Z) : Z := intsize_loop 8 i 1.

Definition headsize (size : Z) : Z := if size <? 56 then 1 else 1 + intsize size.
Definition puthead (smalltag largetag size : Z) : bytes :=
  if size <? 56 then [byte (smalltag + byte size)]
  else
    let s := putint size in
    byte (largetag + byte (zlen s)) :: s.

(** ** encbuf *)

Record listhead := mkListhead { offset : Z; size : Z }.
Record encbuf := mkEncbuf {
  str : bytes;              (* string data, contains everything except list headers *)
  lheads : list listhead;   (* all list headers *)
  lhsize : Z;               (* sum of sizes of all encoded list headers *)
}.
Definition empty_encbuf : encbuf := mkEncbuf [] [] 0.

Definition listhead_encode (h : listhead) : bytes := puthead 0xC0 0xF7 (size h).
Definition append_str (w : encbuf) (b : bytes) : encbuf :=
  mkEncbuf (str w ++ b) (lheads w) (lhsize w).
Definition encodeStringHeader (w : encbuf) (size : Z) : encbuf :=
  if size <? 56 then append_str w [byte (0x80 + byte size)]
  else
    let s := putint size in
    append_str w (byte (0xB7 + byte (zlen s)) :: s).
Definition encodeString (w : encbuf) (b : bytes) : encbuf :=
  match b with
  | [x] =>
      if x <=? 0x7F then append_str w [x]
      else append_str (encodeStringHeader w (zlen b)) b
  | _ => append_str (encodeStringHeader w (zlen b)) b
  end.
Definition encbuf_size (w : encbuf) : Z := zlen (str w) + lhsize w.
(** [list] returns a pointer into [lheads]: here its index. *)
Definition encbuf_list (w : encbuf) : encbuf * nat :=
  (mkEncbuf (str w) (lheads w ++ [mkListhead (zlen (str w)) (lhsize w)]) (lhsize w),
   length (lheads w)).
Definition listEnd (w : encbuf) (lh : nat) : encbuf :=
  match lheads w !! lh with
  | None => w
  | Some h =>
      let sz := encbuf_size w - offset h - size h in
      mkEncbuf (str w) (<[lh := mkListhead (offset h) sz]> (lheads w))
        (if sz <? 56 then lhsize w + 1 else lhsize w + 1 + intsize sz)
  end.
(** [toBytes]: string data interleaved with the encoded headers. *)
Fixpoint toBytes_loop (str : bytes) (strpos : Z) (heads : list listhead) : bytes :=
  match heads with
  | [] => drop (Z.to_nat strpos) str
  | h :: r =>
      take (Z.to_nat (offset h - strpos)) (drop (Z.to_nat strpos) str)
      ++ listhead_encode h ++ toBytes_loop str (offset h) r
  end.
Definition toBytes (w : encbuf) : bytes := toBytes_loop (str w) 0 (lheads w).

(** ** The writers *)

Definition writeUint (i : Z) (w : encbuf) : encbuf :=
  if i =? 0 then append_str w [0x80]
  else if i <? 128 then append_str w [byte i]
  else
    let s := putint i in
    append_str w (byte (0x80 + byte (zlen s)) :: s).
Definition writeBool (b : bool) (w : encbuf) : encbuf :=
  append_str w (if b then [0x01] else [0x80]).
Definition writeBigInt (i : Z) (w : encbuf) : rres encbuf :=
  let cmp := i ?= 0 in
  match cmp with
  | Lt => Err errNegativeBig
  | Eq => Ok (append_str w [0x80])
  | Gt => Ok (encodeString w (Big.Bytes i))
  end.
Definition writeBytes (b : bytes) (w : encbuf) : encbuf := encodeString w b.

Fixpoint writeVal (v : val) (w : encbuf) : rres encbuf :=
  match v with
  | VUint i => Ok (writeUint i w)
  | VBool b => Ok (writeBool b w)
  | VBig i => writeBigInt i w
  | VBytes b => Ok (writeBytes b w)
  | VList l =>
      let '(w, lh) := encbuf_list w in
      w ←? (fix elems (l : list val) (w : encbuf) : rres encbuf :=
              match l with
              | [] => Ok w
              | v :: r => w ←? writeVal v w; elems r w
              end) l w;
      Ok (listEnd w lh)
  end.
Definition EncodeToBytes (v : val) : rres bytes :=
  w ←? writeVal v empty_encbuf; Ok (toBytes w).

(** ** raw.go *)

Inductive Kind := KByte | KString | KList.
#[global] Instance Kind_eq_dec : EqDecision Kind.
Proof. solve_decision. Defined.

Definition readSize (b : bytes) (slen : nat) : rres Z :=
  if decide (length b < slen)%nat then Err ErrUnexpectedEOF
  else
    let at_ i := default 0 (b !! i) in
    let s := match slen with
      | 1%nat => at_ 0%nat
      | 2%nat => Z.lor (Z.shiftl (at_ 0%nat) 8) (at_ 1%nat)
      | 3%nat => Z.lor (Z.lor (Z.shiftl (at_ 0%nat) 16) (Z.shiftl (at_ 1%nat) 8)) (at_ 2%nat)
      | 4%nat => Z.lor (Z.lor (Z.lor (Z.shiftl (at_ 0%nat) 24) (Z.shiftl (at_ 1%nat) 16)) (Z.shiftl (at_ 2%nat) 8)) (at_ 3%nat)
      | 5%nat => Z.lor (Z.lor (Z.lor (Z.lor (Z.shiftl (at_ 0%nat) 32) (Z.shiftl (at_ 1%nat) 24)) (Z.shiftl (at_ 2%nat) 16))
               (Z.shiftl (at_ 3%nat) 8)) (at_ 4%nat)
      | 6%nat => Z.lor (Z.lor (Z.lor (Z.lor (Z.lor (Z.shiftl (at_ 0%nat) 40) (Z.shiftl (at_ 1%nat) 32)) (Z.shiftl (at_ 2%nat) 24))
               (Z.shiftl (at_ 3%nat) 16)) (Z.shiftl (at_ 4%nat) 8)) (at_ 5%nat)
      | 7%nat => Z.lor (Z.lor (Z.lor (Z.lor (Z.lor (Z.lor (Z.shiftl (at_ 0%nat) 48) (Z.shiftl (at_ 1%nat) 40)) (Z.shiftl (at_ 2%nat) 32))
               (Z.shiftl (at_ 3%nat) 24)) (Z.shiftl (at_ 4%nat) 16)) (Z.shiftl (at_ 5%nat) 8)) (at_ 6%nat)
      | 8%nat => Z.lor (Z.lor (Z.lor (Z.lor (Z.lor (Z.lor (Z.lor (Z.shiftl (at_ 0%nat) 56) (Z.shiftl (at_ 1%nat) 48))
               (Z.shiftl (at_ 2%nat) 40)) (Z.shiftl (at_ 3%nat) 32)) (Z.shiftl (at_ 4%nat) 24)) (Z.shiftl (at_ 5%nat) 16))
               (Z.shiftl (at_ 6%nat) 8)) (at_ 7%nat)
      | _ => 0
      end in
    if (s <? 56) || (at_ 0%nat =? 0) then Err ErrCanonSize else Ok s.

Definition readKind (buf : bytes) : rres (Kind * Z * Z) :=
  match buf with
  | [] => Err ErrUnexpectedEOF
  | b :: buf1 =>
      r ←? (if b <? 0x80 then Ok (KByte, 0, 1)
            else if b <? 0xB8 then
              let contentsize := b - 0x80 in
              match buf1 with
              | b1 :: _ =>
                  if (contentsize =? 1) && (b1 <? 128) then Err ErrCanonSize
                  else Ok (KString, 1, contentsize)
              | [] => Ok (KString, 1, contentsize)
              end
            else if b <? 0xC0 then
              s ←? readSize buf1 (Z.to_nat (b - 0xB7)); Ok (KString, b - 0xB7 + 1, s)
            else if b <? 0xF8 then Ok (KList, 1, b - 0xC0)
            else
              s ←? readSize buf1 (Z.to_nat (b - 0xF7)); Ok (KList, b - 0xF7 + 1, s));
      let '(k, tagsize, contentsize) := r in
      if u64 (zlen buf - tagsize) <? contentsize then Err ErrValueTooLarge
      else Ok (k, tagsize, contentsize)
  end.

Definition Split (b : bytes) : rres (Kind * bytes * bytes) :=
  r ←? readKind b;
  let '(k, ts, cs) := r in
  Ok (k, take (Z.to_nat cs) (drop (Z.to_nat ts) b), drop (Z.to_nat (ts + cs)) b).
Definition SplitString (b : bytes) : rres (bytes * bytes) :=
  r ←? Split b;
  let '(k, content, rest) := r in
  if decide (k = KList) then Err ErrExpectedString else Ok (content, rest).
Definition SplitList (b : bytes) : rres (bytes * bytes) :=
  r ←? Split b;
  let '(k, content, rest) := r in
  if decide (k = KList) then Ok (content, rest) else Err ErrExpectedList.

(** [CountValues]: every value takes at least one byte, so [len(b)] rounds
    are enough. *)
Fixpoint CountValues_loop (fuel : nat) (b : bytes) (i : Z) : rres Z :=
  match b with
  | [] => Ok i
  | _ :: _ =>
      match fuel with
      | O => OutOfFuel
      | S fuel' =>
          r ←? readKind b;
          let '(_, tagsize, sz) := r in
          CountValues_loop fuel' (drop (Z.to_nat (tagsize + sz)) b) (i + 1)
      end
  end.
Definition CountValues (b : bytes) : rres Z := CountValues_loop (length b) b 0.

(** ** The format, as a recursive function *)

Definition rlp_head (small large len : Z) : bytes :=
  if len <? 56 then [small + len] else (large + zlen (Big.Bytes len)) :: Big.Bytes len.
Definition rlp_bytes (b : bytes) : bytes :=
  match b with
  | [x] => if x <? 0x80 then [x] else rlp_head 0x80 0xB7 (zlen b) ++ b
  | _ => rlp_head 0x80 0xB7 (zlen b) ++ b
  end.
Definition rlp_list (content : bytes) : bytes := rlp_head 0xC0 0xF7 (zlen content) ++ content.
Fixpoint rlp (v : val) : bytes :=
  match v with
  | VUint i => rlp_bytes (Big.Bytes i)
  | VBool b => rlp_bytes (if b then [1] else [])
  | VBig i => rlp_bytes (Big.Bytes i)
  | VBytes b => rlp_bytes b
  | VList l => rlp_list (concat (map rlp l))
  end.

(** Values Go can hold: [uint64]s, non-negative integers, byte slices; the
    encoding as a whole fits the address space. *)
Fixpoint val_ok (v : val) : Prop :=
  match v with
  | VUint i => is_u64 i
  | VBool _ => True
  | VBig i => 0 ≤ i
  | VBytes b => is_bytes b
  | VList l => (fix all (l : list val) : Prop :=
      match l with [] => True | v :: r => val_ok v ∧ all r end) l
  end.
Lemma val_ok_list l : val_ok (VList l) ↔ Forall val_ok l.
Proof.
  induction l as [|v r IH]; simpl in *; [by split|].
  rewrite Forall_cons, IH. done.
Qed.

Example rlp_dog : rlp (VBytes [100; 111; 103]) = [0x83; 100; 111; 103].
Proof. done. Qed.
Example enc_nested :
  EncodeToBytes (VList [VList []; VList [VList []]; VUint 1024])
  = Ok [0xc6; 0xc0; 0xc1; 0xc0; 0x82; 0x04; 0x00].
Proof. vm_compute. done. Qed.

(** ** Integers: [putint] writes the minimal big-endian form *)

Lemma Bytes_width k i :
  (0 < k)%nat → 256 ^ (Z.of_nat k - 1) ≤ i < 256 ^ Z.of_nat k → Big.Bytes i = be_bytes k i.
Proof.
  intros Hk [Hlo Hhi]. assert (0 < 256 ^ (Z.of_nat k - 1)) by (apply Z.pow_pos_nonneg; lia).
  unfold Big.Bytes. rewrite Z.abs_eq by lia.
  enough (Big.nbytes i = k) as -> by done.
  pose proof (Big.length_Bytes_le i k ltac:(lia)) as Hle.
  unfold Big.Bytes in Hle. rewrite length_be_bytes in Hle.
  pose proof (Big.abs_lt_nbytes i) as Hlt. rewrite Z.abs_eq in Hlt by lia.
  assert (Hp : 256 ^ (Z.of_nat k - 1) < 256 ^ Z.of_nat (Big.nbytes i)) by lia.
  apply Z.pow_lt_mono_r_iff in Hp; lia.
Qed.

Lemma putint_cases i : is_u64 i →
  ∃ k, (1 ≤ k ≤ 8)%nat ∧ putint i = be_bytes k i ∧ i < 256 ^ Z.of_nat k ∧
    (k = 1%nat ∨ 256 ^ (Z.of_nat k - 1) ≤ i).
Proof.
  unfold is_u64. intros Hi. unfold putint.
  destruct (Z.ltb_spec i (2 ^ 8)); [exists 1%nat|].
  2: destruct (Z.ltb_spec i (2 ^ 16)); [exists 2%nat|].
  3: destruct (Z.ltb_spec i (2 ^ 24)); [exists 3%nat|].
  4: destruct (Z.ltb_spec i (2 ^ 32)); [exists 4%nat|].
  5: destruct (Z.ltb_spec i (2 ^ 40)); [exists 5%nat|].
  6: destruct (Z.ltb_spec i (2 ^ 48)); [exists 6%nat|].
  7: destruct (Z.ltb_spec i (2 ^ 56)); [exists 7%nat|exists 8%nat].
  all: split_and!; [lia|lia| |simpl Z.of_nat; lia|simpl Z.of_nat; lia].
  all: rewrite ?Z.shiftr_div_pow2 by lia; unfold be_bytes, byte; simpl le_bytes; simpl rev;
       rewrite ?Z.div_div by lia; reflexivity.
Qed.

Lemma putint_Bytes i : is_u64 i → 0 < i → putint i = Big.Bytes i.
Proof.
  intros Hi Hpos. destruct (putint_cases i Hi) as (k & Hk & -> & Hhi & Hlo).
  symmetry. apply Bytes_width; [lia|]. split; [|done].
  destruct Hlo as [->|]; [simpl; lia|done].
Qed.

Lemma intsize_loop_spec fuel k i s :
  (1 ≤ k ≤ fuel)%nat → 0 ≤ i < 256 ^ Z.of_nat k →
  k = 1%nat ∨ 256 ^ (Z.of_nat k - 1) ≤ i →
  intsize_loop fuel i s = s + Z.of_nat k - 1.
Proof.
  revert k i s. induction fuel as [|fuel IH]; intros k i s Hk [Hi0 Hi] Hlo; [lia|].
  cbn [intsize_loop]. rewrite Z.shiftr_div_pow2 by lia. change (2 ^ 8) with 256.
  destruct (decide (k = 1%nat)) as [->|Hk1].
  - rewrite Z.div_small by (simpl in Hi; lia). simpl. lia.
  - destruct Hlo as [?|Hlo]; [lia|].
    assert (Hp : 256 ^ (Z.of_nat k - 1) = 256 * 256 ^ (Z.of_nat (k - 1) - 1)).
    { rewrite <- Z.pow_succ_r by lia. f_equal. lia. }
    assert (Hp2 : 256 ^ Z.of_nat k = 256 * 256 ^ Z.of_nat (k - 1)).
    { rewrite <- Z.pow_succ_r by lia. f_equal. lia. }
    assert (0 < 256 ^ (Z.of_nat (k - 1) - 1)) by (apply Z.pow_pos_nonneg; lia).
    pose proof (Z.div_le_lower_bound i 256 (256 ^ (Z.of_nat (k - 1) - 1))).
    pose proof (Z.div_lt_upper_bound i 256 (256 ^ Z.of_nat (k - 1))).
    destruct (Z.eqb_spec (i / 256) 0); [lia|].
    rewrite (IH (k - 1)%nat); lia.
Qed.

Lemma intsize_putint i : is_u64 i → intsize i = zlen (putint i).
Proof.
  intros Hi. destruct (putint_cases i Hi) as (k & Hk & -> & Hhi & Hlo).
  unfold intsize. unfold is_u64 in Hi.
  rewrite (intsize_loop_spec 8 k) by (done || lia).
  unfold zlen. rewrite length_be_bytes. lia.
Qed.

Lemma zlen_putint i : is_u64 i → 1 ≤ zlen (putint i) ≤ 8.
Proof.
  intros Hi. destruct (putint_cases i Hi) as (k & Hk & -> & _).
  unfold zlen. rewrite length_be_bytes. lia.
Qed.

Lemma byte_id x : is_byte x → byte x = x.
Proof. unfold is_byte, byte. intros. apply Z.mod_small. lia. Qed.

(** ** Headers *)

Lemma puthead_rlp small large n : is_u64 n →
  0 ≤ small ≤ 200 → 0 ≤ large ≤ 0xF7 → puthead small large n = rlp_head small large n.
Proof.
  intros Hn Hs Hl. unfold puthead, rlp_head. pose proof (zlen_putint n Hn).
  unfold is_u64 in Hn. destruct (Z.ltb_spec n 56).
  - rewrite !byte_id; [done| |rewrite byte_id]; unfold is_byte; lia.
  - rewrite !byte_id; [|unfold is_byte; lia|rewrite byte_id; unfold is_byte; lia].
    by rewrite putint_Bytes by (unfold is_u64; lia).
Qed.

Lemma zlen_rlp_head small large n : is_u64 n →
  zlen (rlp_head small large n) = headsize n.
Proof.
  intros Hn. unfold rlp_head, headsize. destruct (Z.ltb_spec n 56); [done|].
  rewrite zlen_cons, intsize_putint, putint_Bytes; [done|done|lia|done].
Qed.

Lemma append_str_app w a b : append_str (append_str w a) b = append_str w (a ++ b).
Proof. unfold append_str. simpl. by rewrite app_assoc. Qed.

Lemma encodeString_rlp w b : is_u64 (zlen b) → encodeString w b = append_str w (rlp_bytes b).
Proof.
  intros Hb. assert (Hh : encodeStringHeader w (zlen b) = append_str w (rlp_head 0x80 0xB7 (zlen b))).
  { rewrite <- puthead_rlp by (done || lia). unfold encodeStringHeader, puthead.
    by destruct (zlen b <? 56). }
  assert (Hall : append_str (encodeStringHeader w (zlen b)) b
                 = append_str w (rlp_head 0x80 0xB7 (zlen b) ++ b)).
  { by rewrite Hh, append_str_app. }
  unfold encodeString, rlp_bytes. destruct b as [|x [|y r]]; [done| |done].
  destruct (Z.leb_spec x 0x7F), (Z.ltb_spec x 0x80); try lia; done.
Qed.

Lemma writeUint_rlp w i : is_u64 i → writeUint i w = append_str w (rlp (VUint i)).
Proof.
  intros Hi. unfold writeUint. simpl rlp. unfold is_u64 in Hi.
  destruct (Z.eqb_spec i 0) as [->|]; [done|].
  destruct (Z.ltb_spec i 128).
  - rewrite (Bytes_width 1) by (simpl; lia). unfold be_bytes. simpl.
    rewrite byte_id, Z.mod_small by (unfold is_byte; lia).
    destruct (Z.ltb_spec i 128); [done|lia].
  - rewrite <- putint_Bytes by (unfold is_u64; lia).
    pose proof (zlen_putint i ltac:(unfold is_u64; lia)) as Hz.
    rewrite !byte_id; [|unfold is_byte; lia|rewrite byte_id; unfold is_byte; lia].
    f_equal. unfold rlp_bytes, rlp_head.
    destruct (putint i) as [|x [|y r]] eqn:Hp; [by destruct Hz| |].
    + destruct (Z.ltb_spec x 0x80); [exfalso|done].
      pose proof (f_equal be_val Hp) as Hv. rewrite putint_Bytes in Hv by (unfold is_u64; lia).
      change (be_val (Big.Bytes i)) with (Big.SetBytes (Big.Bytes i)) in Hv.
      rewrite Big.SetBytes_Bytes in Hv. unfold be_val in Hv. simpl in Hv. lia.
    + destruct (Z.ltb_spec (zlen (x :: y :: r)) 56); [done|lia].
Qed.

(** ** The buffered encoder computes the format

    A value contributes string data [s] and headers [hs] with offsets
    relative to it; [toBytes] interleaves them into [rlp v]. *)

Definition shift_heads (n : Z) (hs : list listhead) : list listhead :=
  map (λ h, mkListhead (offset h + n) (size h)) hs.
Fixpoint heads_ok (p : Z) (hs : list listhead) (n : Z) : Prop :=
  match hs with
  | [] => p ≤ n
  | h :: r => p ≤ offset h ∧ heads_ok (offset h) r n
  end.
Definition hsum (hs : list listhead) : Z := foldr (λ h acc, headsize (size h) + acc) 0 hs.

Lemma shift_heads_app n a b : shift_heads n (a ++ b) = shift_heads n a ++ shift_heads n b.
Proof. apply map_app. Qed.
Lemma shift_heads_shift n m a : shift_heads n (shift_heads m a) = shift_heads (m + n) a.
Proof.
  unfold shift_heads. rewrite map_map. apply map_ext. intros h. simpl. f_equal. lia.
Qed.
Lemma shift_heads_0 a : shift_heads 0 a = a.
Proof.
  unfold shift_heads. rewrite <- (map_id a) at 2. apply map_ext. intros [o s]. simpl. f_equal. lia.
Qed.
Lemma hsum_app a b : hsum (a ++ b) = hsum a + hsum b.
Proof. induction a as [|h r IH]; simpl in *; [done|]. unfold hsum in *. rewrite IH. lia. Qed.
Lemma hsum_shift n a : hsum (shift_heads n a) = hsum a.
Proof. induction a as [|h r IH]; simpl in *; [done|]. unfold hsum in *. by rewrite IH. Qed.
Lemma heads_ok_le p hs n : heads_ok p hs n → p ≤ n.
Proof.
  revert p. induction hs as [|h r IH]; simpl; intros p; [done|]. intros [? H].
  apply IH in H. lia.
Qed.
Lemma heads_ok_mono p hs n q m : heads_ok p hs n → q ≤ p → n ≤ m → heads_ok q hs m.
Proof.
  revert p q. induction hs as [|h r IH]; simpl; intros p q; [lia|].
  intros [? H] ? ?. split; [lia|]. eapply IH; [done|lia|lia].
Qed.
Lemma heads_ok_app p a n b m :
  heads_ok p a n → heads_ok 0 b m → 0 ≤ m → 0 ≤ n → heads_ok p (a ++ shift_heads n b) (n + m).
Proof.
  intros Ha Hb Hm Hn. revert p Ha. induction a as [|h r IH]; simpl; intros p Ha.
  - assert (Hs : ∀ q, heads_ok q b m → heads_ok (q + n) (shift_heads n b) (n + m)).
    { clear. induction b as [|h r IH]; simpl; intros q; [lia|].
      intros [? H]. split; [lia|]. by apply IH. }
    apply Hs in Hb. eapply heads_ok_mono; [exact Hb|lia|lia].
  - destruct Ha as [? Ha]. split; [done|]. by apply IH.
Qed.

Lemma toBytes_loop_shift s1 s2 p hs m : 0 ≤ p → heads_ok p hs m → 
  toBytes_loop (s1 ++ s2) (p + zlen s1) (shift_heads (zlen s1) hs) = toBytes_loop s2 p hs.
Proof.
  revert p. induction hs as [|h r IH]; intros p Hp Hok; simpl.
  - rewrite drop_app_ge by (unfold zlen; lia). f_equal. unfold zlen. lia.
  - destruct Hok as [Ho Hok]. rewrite IH by (done || lia). f_equal.
    rewrite drop_app_ge by (unfold zlen; lia). do 2 f_equal; [lia|]. unfold zlen. lia.
Qed.

Lemma toBytes_loop_app s1 s2 p hs1 hs2 m :
  0 ≤ p → heads_ok p hs1 (zlen s1) → heads_ok 0 hs2 m →
  toBytes_loop (s1 ++ s2) p (hs1 ++ shift_heads (zlen s1) hs2)
  = toBytes_loop s1 p hs1 ++ toBytes_loop s2 0 hs2.
Proof.
  intros Hp Hok1 Hok2. revert p Hp Hok1. induction hs1 as [|h r IH]; intros p Hp Hok1.
  - simpl in *. destruct hs2 as [|h2 r2]; simpl.
    + rewrite drop_app_le by (unfold zlen in *; lia). by rewrite drop_0.
    + destruct Hok2 as [Ho2 Hok2]. unfold zlen in *.
      rewrite drop_app_le by lia. rewrite drop_0.
      assert (Hgo : toBytes_loop (s1 ++ s2) (offset h2 + Z.of_nat (length s1))
         (shift_heads (Z.of_nat (length s1)) r2) = toBytes_loop s2 (offset h2) r2).
      { exact (toBytes_loop_shift s1 s2 (offset h2) r2 m Ho2 Hok2). }
      rewrite Hgo. clear Hgo.
      rewrite take_app_ge by (rewrite length_drop; lia).
      rewrite <- app_assoc. f_equal. rewrite length_drop.
      do 2 f_equal. lia.
  - simpl in *. destruct Hok1 as [Ho Hok1]. rewrite IH by (done || lia).
    rewrite <- !app_assoc. f_equal. apply heads_ok_le in Hok1.
    rewrite drop_app_le by (unfold zlen in *; lia).
    rewrite take_app_le; [done|]. rewrite length_drop. unfold zlen in *. lia.
Qed.

Definition enc_spec (out : bytes) (wr : encbuf → rres encbuf) : Prop :=
  ∃ s hs, zlen s + hsum hs = zlen out ∧ heads_ok 0 hs (zlen s) ∧
    toBytes_loop s 0 hs = out ∧
    ∀ w, wr w = Ok (mkEncbuf (str w ++ s) (lheads w ++ shift_heads (zlen (str w)) hs)
                             (lhsize w + hsum hs)).

Lemma enc_spec_str out wr :
  (∀ w, wr w = Ok (append_str w out)) → enc_spec out wr.
Proof.
  intros H. exists out, []. simpl. split_and!; [lia|apply zlen_nonneg|by rewrite drop_0|].
  intros w. rewrite H. unfold append_str. by rewrite app_nil_r, Z.add_0_r.
Qed.

Lemma zlen_concat_le (x : bytes) l : x ∈ l → zlen x ≤ zlen (concat l).
Proof.
  induction 1 as [|x y l _ IH]; simpl; rewrite zlen_app.
  - pose proof (zlen_nonneg (concat l)). lia.
  - pose proof (zlen_nonneg y). lia.
Qed.

Definition elems_writer :=
  fix elems (l : list val) (w : encbuf) : rres encbuf :=
    match l with
    | [] => Ok w
    | v :: r => w ←? writeVal v w; elems r w
    end.

Lemma enc_spec_elems l :
  Forall (λ v, enc_spec (rlp v) (writeVal v)) l →
  enc_spec (concat (map rlp l)) (elems_writer l).
Proof.
  induction 1 as [|v r (s1 & hs1 & Hn1 & Hok1 & Hb1 & Hw1) _ (s2 & hs2 & Hn2 & Hok2 & Hb2 & Hw2)].
  { apply enc_spec_str. intros w. destruct w. unfold append_str. simpl. by rewrite app_nil_r. }
  exists (s1 ++ s2), (hs1 ++ shift_heads (zlen s1) hs2). simpl map. simpl concat.
  rewrite !zlen_app, hsum_app, hsum_shift.
  pose proof (zlen_nonneg s1). pose proof (zlen_nonneg s2).
  split_and!; [lia|by apply heads_ok_app| |].
  - erewrite toBytes_loop_app by done. by rewrite Hb1, Hb2.
  - intros w. cbn [elems_writer]. rewrite Hw1. cbn [res_bind]. rewrite Hw2.
    cbn [str lheads lhsize]. do 2 f_equal.
    + by rewrite app_assoc.
    + rewrite <- app_assoc, shift_heads_app, shift_heads_shift, zlen_app.
      do 2 f_equal. f_equal. lia.
    + lia.
Qed.

Lemma enc_spec_list out wr : is_u64 (zlen out) → enc_spec out wr →
  enc_spec (rlp_list out)
    (λ w, let '(w, lh) := encbuf_list w in w ←? wr w; Ok (listEnd w lh)).
Proof.
  intros Hu (s & hs & Hn & Hok & Hb & Hw).
  exists s, (mkListhead 0 (zlen out) :: hs). unfold rlp_list.
  rewrite zlen_app, zlen_rlp_head by done. split_and!.
  - cbn [hsum foldr size]. fold (hsum hs). lia.
  - simpl. split; [lia|done].
  - simpl. rewrite Hb. unfold listhead_encode. cbn [size]. by rewrite puthead_rlp by (done || lia).
  - intros w. cbn [encbuf_list]. rewrite Hw. cbn [res_bind str lheads lhsize].
    unfold listEnd. cbn [lheads]. rewrite <- app_assoc.
    rewrite lookup_app_r by lia. rewrite Nat.sub_diag. cbn [lookup list_lookup app].
    cbn [offset size]. unfold encbuf_size. cbn [str lhsize].
    rewrite insert_app_r_alt by lia. rewrite Nat.sub_diag. cbn [insert list_insert].
    rewrite zlen_app.
    replace (zlen (str w) + zlen s + (lhsize w + hsum hs) - zlen (str w) - lhsize w)
      with (zlen out) by lia.
    unfold shift_heads at 2. cbn [map offset size]. fold (shift_heads (zlen (str w)) hs).
    do 2 f_equal. simpl hsum. unfold headsize. unfold hsum.
    destruct (zlen out <? 56); lia.
Qed.

Lemma zlen_rlp_bytes_ge b : zlen b ≤ zlen (rlp_bytes b).
Proof.
  unfold rlp_bytes. assert (zlen b ≤ zlen (rlp_head 0x80 0xB7 (zlen b) ++ b)).
  { rewrite zlen_app. pose proof (zlen_nonneg (rlp_head 0x80 0xB7 (zlen b))). lia. }
  destruct b as [|x [|y r]]; [done| |done]. by destruct (x <? 0x80).
Qed.
Lemma is_u64_zlen_le {A B} (a : list A) (b : list B) :
  zlen a ≤ zlen b → is_u64 (zlen b) → is_u64 (zlen a).
Proof. unfold is_u64. pose proof (zlen_nonneg a). lia. Qed.

Lemma writeVal_spec v :
  val_ok v → is_u64 (zlen (rlp v)) → enc_spec (rlp v) (writeVal v).
Proof.
  induction v as [i|b|i|b|l IH] using val_ind'; intros Hok Hu.
  - apply enc_spec_str. intros w. cbn [writeVal]. by rewrite writeUint_rlp.
  - apply enc_spec_str. intros w. by destruct b.
  - apply enc_spec_str. intros w. cbn [writeVal]. unfold writeBigInt.
    simpl in Hok. destruct (Z.compare_spec i 0) as [->|?|?]; [done|lia|].
    rewrite encodeString_rlp; [done|].
    eapply is_u64_zlen_le, Hu. apply zlen_rlp_bytes_ge.
  - apply enc_spec_str. intros w. cbn [writeVal]. unfold writeBytes.
    rewrite encodeString_rlp; [done|]. eapply is_u64_zlen_le, Hu. apply zlen_rlp_bytes_ge.
  - assert (Hlen : zlen (concat (map rlp l)) ≤ zlen (rlp (VList l))).
    { simpl. unfold rlp_list. rewrite zlen_app.
      pose proof (zlen_nonneg (rlp_head 0xC0 0xF7 (zlen (concat (map rlp l))))). lia. }
    apply enc_spec_list; [by eapply is_u64_zlen_le|].
    apply enc_spec_elems. rewrite Forall_forall in *. intros v Hv. apply IH; [done| |].
    + apply val_ok_list in Hok. rewrite Forall_forall in Hok. by apply Hok.
    + eapply is_u64_zlen_le, Hu. etrans; [|exact Hlen]. apply zlen_concat_le.
      by apply list_elem_of_fmap_2.
Qed.

Lemma EncodeToBytes_rlp v :
  val_ok v → is_u64 (zlen (rlp v)) → EncodeToBytes v = Ok (rlp v).
Proof.
  intros Hok Hu. destruct (writeVal_spec v Hok Hu) as (s & hs & _ & _ & Hb & Hw).
  unfold EncodeToBytes. rewrite Hw. cbn [res_bind]. unfold toBytes. simpl.
  change (zlen []) with 0. by rewrite shift_heads_0, Hb.
Qed.

(** ** Reading headers back *)

Lemma lor_add k x y : 0 ≤ k → 0 ≤ y < 2 ^ k → x mod 2 ^ k = 0 → Z.lor x y = x + y.
Proof.
  intros Hk Hy Hx. assert (Hl : Z.land x y = 0).
  { apply Z.bits_inj'. intros i Hi. rewrite Z.land_spec, Z.bits_0.
    destruct (Z.ltb_spec i k).
    - rewrite <- (Z.mod_pow2_bits_low x k) by lia. rewrite Hx, Z.bits_0. done.
    - rewrite <- (Z.mod_small y (2 ^ k)), Z.mod_pow2_bits_high by lia. apply andb_false_r. }
  by rewrite <- Z.lxor_lor, Z.add_nocarry_lxor.
Qed.

Ltac lor_bytes :=
  rewrite ?Z.shiftl_mul_pow2 by lia;
  repeat match goal with
  | |- context [Z.lor ?x ?y] =>
      lazymatch x with context [Z.lor _ _] => fail | _ => idtac end;
      let k := lazymatch y with _ * 2 ^ ?n => constr:(n + 8) | _ => constr:(8) end in
      let k := eval vm_compute in k in
      rewrite (lor_add k x y); [|lia|simpl Z.pow; lia|simpl Z.pow; Z.div_mod_to_equations; lia]
  end.

Lemma readSize_spec b slen :
  is_bytes b → (1 ≤ slen ≤ 8)%nat → (slen ≤ length b)%nat →
  readSize b slen =
    (if (be_val (take slen b) <? 56) || (default 0 (b !! 0%nat) =? 0)
     then Err ErrCanonSize else Ok (be_val (take slen b))).
Proof.
  intros Hb Hs Hl. unfold readSize. rewrite decide_False by lia.
  assert (Hgo : ∀ s, s = be_val (take slen b) →
    (if (s <? 56) || (default 0 (b !! 0%nat) =? 0) then Err ErrCanonSize else Ok s)
    = (if (be_val (take slen b) <? 56) || (default 0 (b !! 0%nat) =? 0)
       then Err ErrCanonSize else Ok (be_val (take slen b)) : rres Z)) by by intros ? ->.
  apply Hgo. clear Hgo.
  destruct slen as [|[|[|[|[|[|[|[|[|]]]]]]]]]; try lia.
  all: repeat (destruct b as [|? b]; [simpl in Hl; lia|];
    apply is_bytes_cons in Hb as [? Hb]; unfold is_byte in *).
  all: cbn [lookup list_lookup default from_option id take]; lor_bytes;
    rewrite ?firstn_cons, take_0; unfold be_val; cbn [fold_left]; simpl Z.pow; lia.
Qed.

Lemma readSize_ok b slen s :
  is_bytes b → (1 ≤ slen ≤ 8)%nat →
  readSize b slen = Ok s ↔
    56 ≤ s ∧ take slen b = Big.Bytes s ∧ length (Big.Bytes s) = slen.
Proof.
  intros Hb Hs. split.
  - intros H. destruct (decide (length b < slen)%nat) as [Hl|Hl].
    { unfold readSize in H. by rewrite decide_True in H. }
    rewrite readSize_spec in H by (done || lia).
    destruct ((be_val (take slen b) <? 56) || (default 0 (b !! 0%nat) =? 0)) eqn:Hc; [done|].
    injection H as <-. boolp.
    assert (Htk : Big.Bytes (be_val (take slen b)) = take slen b).
    { apply Big.Bytes_SetBytes; [auto with geth|].
      destruct b as [|x r], slen; simpl in *; lia || done. }
    split_and!; [lia|done|]. rewrite Htk, length_take. lia.
  - intros (Hge & Htk & Hlen).
    assert (length (take slen b) = slen) as Hl by congruence. rewrite length_take in Hl.
    rewrite readSize_spec by (done || lia).
    assert (Hv : be_val (take slen b) = s).
    { rewrite Htk. change (Big.SetBytes (Big.Bytes s) = s). rewrite Big.SetBytes_Bytes. lia. }
    rewrite Hv. destruct (Z.ltb_spec s 56); [lia|]. cbn [orb].
    destruct (Big.Bytes_head s) as (x & r & Hx & Hx0); [lia|]. rewrite Hx in Htk.
    destruct slen as [|m]; [lia|]. destruct b as [|y b]; [done|].
    rewrite firstn_cons in Htk. assert (y = x) as -> by congruence.
    cbn [lookup list_lookup default from_option id]. destruct (Z.eqb_spec x 0); [lia|done].
Qed.

Lemma Bytes_len_u64 n : 56 ≤ n → is_u64 n → (1 ≤ length (Big.Bytes n) ≤ 8)%nat.
Proof.
  intros Hn Hu. rewrite <- putint_Bytes by (done || lia).
  pose proof (zlen_putint n Hu). unfold zlen in *. lia.
Qed.

(** What an accepted header looks like. *)
Definition kind_head (k : Kind) (cs : Z) : bytes :=
  match k with
  | KByte => []
  | KString => rlp_head 0x80 0xB7 cs
  | KList => rlp_head 0xC0 0xF7 cs
  end.
Definition kind_content (k : Kind) (content : bytes) : Prop :=
  match k with
  | KByte => ∃ x, content = [x] ∧ x < 0x80
  | KString => ∀ x, content = [x] → 0x80 ≤ x
  | KList => True
  end.

Lemma readKind_long small large (k : Kind) buf1 b s :
  is_bytes buf1 → (∀ n, 56 ≤ n → rlp_head small large n = (large + zlen (Big.Bytes n)) :: Big.Bytes n) →
  large < b ≤ large + 8 → is_u64 (zlen buf1) →
  readSize buf1 (Z.to_nat (b - large)) = Ok s → s ≤ zlen buf1 + 1 - (b - large + 1) →
  ∃ content rest, b :: buf1 = rlp_head small large s ++ content ++ rest ∧ zlen content = s
    ∧ zlen (rlp_head small large s) = b - large + 1.
Proof.
  intros Hb Hhead Hr Hu Hs Hle. apply readSize_ok in Hs as (H56 & Htk & Hlen); [|done|lia].
  rewrite (Hhead s H56). set (n := Z.to_nat (b - large)) in *.
  exists (take (Z.to_nat s) (drop n buf1)), (drop (Z.to_nat s) (drop n buf1)).
  assert (Hbl : b = large + zlen (Big.Bytes s)) by (unfold zlen; lia).
  split_and!.
  - rewrite take_drop. rewrite <- Hbl, <- Htk. simpl. by rewrite take_drop.
  - unfold zlen in *. rewrite length_take, length_drop. lia.
  - rewrite zlen_cons. lia.
Qed.

Lemma readKind_sound buf k ts cs :
  is_bytes buf → is_u64 (zlen buf) → readKind buf = Ok (k, ts, cs) →
  ∃ content rest, buf = kind_head k cs ++ content ++ rest ∧ zlen content = cs ∧
    zlen (kind_head k cs) = ts ∧ kind_content k content.
Proof.
  intros Hb Hu. destruct buf as [|b buf1]; [done|]. cbn [readKind].
  apply is_bytes_cons in Hb as [Hbb Hb1]. unfold is_byte in Hbb.
  rewrite zlen_cons in *. pose proof (zlen_nonneg buf1) as Hz.
  assert (Hu1 : is_u64 (zlen buf1)) by (unfold is_u64 in *; lia).
  assert (Hshort : ∀ small cs0, 0 ≤ cs0 → cs0 ≤ zlen buf1 → cs0 < 56 → b = small + cs0 →
    b :: buf1 = rlp_head small (small + 55) cs0 ++ take (Z.to_nat cs0) buf1 ++ drop (Z.to_nat cs0) buf1
    ∧ zlen (take (Z.to_nat cs0) buf1) = cs0 ∧ zlen (rlp_head small (small + 55) cs0) = 1).
  { intros small cs0 ? ? ? ->. unfold rlp_head. destruct (Z.ltb_spec cs0 56); [|lia].
    rewrite take_drop. unfold zlen in *. rewrite length_take. split_and!; [done|lia|done]. }
  destruct (Z.ltb_spec b 0x80).
  { cbn [res_bind]. rewrite u64_id by (unfold is_u64 in *; lia).
    destruct (Z.ltb_spec (1 + zlen buf1 - 0) 1); [lia|]. intros [= <- <- <-].
    exists [b], buf1. split_and!; [done|done|done|]. by exists b. }
  destruct (Z.ltb_spec b 0xB8).
  { assert (Hdone : (u64 (1 + zlen buf1 - 1) <? b - 128) = false →
      (∀ x r, buf1 = x :: r → b - 128 = 1 → 128 ≤ x) →
      ∃ content rest, b :: buf1 = kind_head KString (b - 128) ++ content ++ rest ∧
        zlen content = b - 128 ∧ zlen (kind_head KString (b - 128)) = 1 ∧ kind_content KString content).
    { intros Hc Hx. rewrite u64_id in Hc by (unfold is_u64 in *; lia). boolp.
      destruct (Hshort 0x80 (b - 128)) as (He & Hl & Hh); [lia|lia|lia|lia|].
      eexists _, _. split; [exact He|]. split; [done|]. split; [done|].
      intros x Hx1. destruct buf1 as [|y r]; [by rewrite take_nil in Hx1|].
      rewrite Hx1 in Hl. change (zlen [x]) with 1 in Hl.
      specialize (Hx y r eq_refl ltac:(lia)). rewrite <- Hl in Hx1. simpl in Hx1.
      injection Hx1 as ->. done. }
    destruct buf1 as [|b1 r].
    - cbn [res_bind]. destruct (u64 _ <? _) eqn:Hc; [done|]. intros [= <- <- <-].
      apply Hdone; [done|]. intros; discriminate.
    - destruct ((b - 128 =? 1) && (b1 <? 128)) eqn:Hcan; [done|]. cbn [res_bind].
      destruct (u64 _ <? _) eqn:Hc; [done|]. intros [= <- <- <-].
      apply Hdone; [done|]. intros x r' [= -> ->] Hb1'. boolp. destruct Hcan; boolp; lia. }
  destruct (Z.ltb_spec b 0xC0).
  { destruct (readSize buf1 (Z.to_nat (b - 183))) as [s| | |] eqn:Hs; cbn [res_bind]; try done.
    destruct (u64 _ <? _) eqn:Hc; [done|]. intros [= <- <- <-].
    assert (b - 183 ≤ zlen buf1).
    { apply readSize_ok in Hs as (? & Htk & Hlen); [|done|lia].
      apply (f_equal length) in Htk. rewrite length_take in Htk. unfold zlen. lia. }
    rewrite u64_id in Hc by (unfold is_u64 in *; lia). boolp.
    destruct (readKind_long 0x80 0xB7 KString buf1 b s) as (content & rest & He & Hl & Hh); [done| |lia|done|done|lia|].
    { intros n Hn. unfold rlp_head. destruct (Z.ltb_spec n 56); [lia|done]. }
    exists content, rest. split_and!; [done|done|done|].
    intros x ->. change (zlen [x]) with 1 in Hl. apply readSize_ok in Hs as [? _]; [lia|done|lia]. }
  destruct (Z.ltb_spec b 0xF8).
  { cbn [res_bind]. rewrite u64_id by (unfold is_u64 in *; lia).
    destruct (Z.ltb_spec (1 + zlen buf1 - 1) (b - 192)); [done|]. intros [= <- <- <-].
    destruct (Hshort 0xC0 (b - 192)) as (He & Hl & Hh); [lia|lia|lia|lia|].
    eexists _, _. split_and!; [exact He|done|done|done]. }
  { destruct (readSize buf1 (Z.to_nat (b - 247))) as [s| | |] eqn:Hs; cbn [res_bind]; try done.
    destruct (u64 _ <? _) eqn:Hc; [done|]. intros [= <- <- <-].
    assert (b - 247 ≤ zlen buf1).
    { apply readSize_ok in Hs as (? & Htk & Hlen); [|done|lia].
      apply (f_equal length) in Htk. rewrite length_take in Htk. unfold zlen. lia. }
    rewrite u64_id in Hc by (unfold is_u64 in *; lia). boolp.
    destruct (readKind_long 0xC0 0xF7 KList buf1 b s) as (content & rest & He & Hl & Hh); [done| |lia|done|done|lia|].
    { intros n Hn. unfold rlp_head. destruct (Z.ltb_spec n 56); [lia|done]. }
    exists content, rest. split_and!; done. }
Qed.

Lemma readKind_complete k content rest :
  is_bytes content → is_bytes rest → kind_content k content →
  is_u64 (zlen (kind_head k (zlen content) ++ content ++ rest)) →
  readKind (kind_head k (zlen content) ++ content ++ rest)
  = Ok (k, zlen (kind_head k (zlen content)), zlen content).
Proof.
  intros Hc Hr Hk Hu. pose proof (zlen_nonneg content) as Hz0. pose proof (zlen_nonneg rest) as Hz1.
  assert (Hlong : ∀ small large n, 56 ≤ n → is_u64 n →
    rlp_head small large n = (large + zlen (Big.Bytes n)) :: Big.Bytes n
    ∧ (1 ≤ length (Big.Bytes n) ≤ 8)%nat
    ∧ readSize (Big.Bytes n ++ content ++ rest) (Z.to_nat (zlen (Big.Bytes n))) = Ok n).
  { intros small large n Hn Hun. pose proof (Bytes_len_u64 n Hn Hun) as Hl. split_and!; [|lia|lia|].
    - unfold rlp_head. destruct (Z.ltb_spec n 56); [lia|done].
    - unfold zlen. rewrite Nat2Z.id. apply readSize_ok; [|done|].
      + rewrite !is_bytes_app. split_and!; [apply Big.is_bytes_Bytes|done|done].
      + split_and!; [done| |done]. by rewrite take_app_length. }
  assert (Hun : is_u64 (zlen content)).
  { revert Hu. rewrite !zlen_app. pose proof (zlen_nonneg (kind_head k (zlen content))).
    unfold is_u64. lia. }
  destruct k; cbn [kind_head kind_content] in *.
  - destruct Hk as (x & -> & Hx). cbn [app]. unfold readKind.
    apply is_bytes_cons in Hc as [Hc _]. unfold is_byte in Hc.
    destruct (Z.ltb_spec x 0x80); [|lia]. cbn [res_bind].
    rewrite u64_id by (simpl in Hu; by rewrite Z.sub_0_r). simpl in Hu. rewrite zlen_cons.
    destruct (Z.ltb_spec (1 + zlen rest - 0) 1); [lia|done].
  - destruct (Z.ltb_spec (zlen content) 56) as [Hs|Hs].
    + revert Hu. unfold rlp_head. destruct (Z.ltb_spec (zlen content) 56); [|lia].
      cbn [app]. rewrite zlen_cons. intros Hu. unfold readKind.
      destruct (Z.ltb_spec (0x80 + zlen content) 0x80); [lia|].
      destruct (Z.ltb_spec (0x80 + zlen content) 0xB8); [|lia].
      replace (0x80 + zlen content - 0x80) with (zlen content) by lia.
      assert (Hg : (match content ++ rest with
         | [] => Ok (KString, 1, zlen content)
         | b1 :: _ => if (zlen content =? 1) && (b1 <? 128) then Err ErrCanonSize
                      else Ok (KString, 1, zlen content) end : rres _) = Ok (KString, 1, zlen content)).
      { destruct content as [|x [|y c]]; cbn [app].
        - by destruct rest.
        - specialize (Hk x eq_refl). destruct (Z.ltb_spec x 128); [lia|]. done.
        - destruct (Z.eqb_spec (zlen (x :: y :: c)) 1) as [He|]; [|done].
          exfalso. revert He. rewrite !zlen_cons. pose proof (zlen_nonneg c). lia. }
      rewrite Hg. cbn [res_bind]. rewrite zlen_cons, u64_id by (unfold is_u64 in *; rewrite zlen_app in *; lia).
      rewrite zlen_app in *.
      destruct (Z.ltb_spec (1 + (zlen content + zlen rest) - 1) (zlen content)); [lia|done].
    + destruct (Hlong 0x80 0xB7 (zlen content) Hs Hun) as (He & Hl & Hsz).
      rewrite He in *. cbn [app]. unfold readKind.
      set (L := zlen (Big.Bytes (zlen content))) in *.
      assert (1 ≤ L ≤ 8) by (unfold L, zlen; unfold zlen in Hl; lia).
      destruct (Z.ltb_spec (0xB7 + L) 0x80); [lia|]. destruct (Z.ltb_spec (0xB7 + L) 0xB8); [lia|].
      destruct (Z.ltb_spec (0xB7 + L) 0xC0); [|lia].
      replace (0xB7 + L - 0xB7) with L by lia. rewrite Hsz. cbn [res_bind].
      cbn [app] in Hu. rewrite !zlen_cons, !zlen_app in *. fold L in Hu |- *.
      rewrite u64_id by (unfold is_u64 in *; lia).
      destruct (Z.ltb_spec (1 + (L + (zlen content + zlen rest)) - (L + 1)) (zlen content)); [lia|].
      do 3 f_equal. lia.
  - destruct (Z.ltb_spec (zlen content) 56) as [Hs|Hs].
    + revert Hu. unfold rlp_head. destruct (Z.ltb_spec (zlen content) 56); [|lia].
      cbn [app]. rewrite zlen_cons. intros Hu. unfold readKind.
      destruct (Z.ltb_spec (0xC0 + zlen content) 0x80); [lia|].
      destruct (Z.ltb_spec (0xC0 + zlen content) 0xB8); [lia|].
      destruct (Z.ltb_spec (0xC0 + zlen content) 0xC0); [lia|].
      destruct (Z.ltb_spec (0xC0 + zlen content) 0xF8); [|lia].
      replace (0xC0 + zlen content - 0xC0) with (zlen content) by lia.
      cbn [res_bind]. rewrite zlen_cons, u64_id by (unfold is_u64 in *; rewrite zlen_app in *; lia).
      rewrite zlen_app in *.
      destruct (Z.ltb_spec (1 + (zlen content + zlen rest) - 1) (zlen content)); [lia|done].
    + destruct (Hlong 0xC0 0xF7 (zlen content) Hs Hun) as (He & Hl & Hsz).
      rewrite He in *. cbn [app]. unfold readKind.
      set (L := zlen (Big.Bytes (zlen content))) in *.
      assert (1 ≤ L ≤ 8) by (unfold L, zlen; unfold zlen in Hl; lia).
      destruct (Z.ltb_spec (0xF7 + L) 0x80); [lia|]. destruct (Z.ltb_spec (0xF7 + L) 0xB8); [lia|].
      destruct (Z.ltb_spec (0xF7 + L) 0xC0); [lia|]. destruct (Z.ltb_spec (0xF7 + L) 0xF8); [lia|].
      replace (0xF7 + L - 0xF7) with L by lia. rewrite Hsz. cbn [res_bind].
      cbn [app] in Hu. rewrite !zlen_cons, !zlen_app in *. fold L in Hu |- *.
      rewrite u64_id by (unfold is_u64 in *; lia).
      destruct (Z.ltb_spec (1 + (L + (zlen content + zlen rest)) - (L + 1)) (zlen content)); [lia|].
      do 3 f_equal. lia.
Qed.

Lemma Split_iff b k content rest :
  is_bytes b → is_u64 (zlen b) →
  Split b = Ok (k, content, rest) ↔
    b = kind_head k (zlen content) ++ content ++ rest ∧ kind_content k content.
Proof.
  intros Hb Hu. split.
  - unfold Split. intros (r & Hrk & Hs)%res_bind_ok. destruct r as [[k' ts] cs].
    destruct (readKind_sound b k' ts cs Hb Hu Hrk) as (c & r & He & Hc & Hh & Hk).
    injection Hs as <- <- <-.
    assert (Hdrop : drop (Z.to_nat ts) b = c ++ r).
    { rewrite He, <- Hh. unfold zlen. by rewrite Nat2Z.id, drop_app_length. }
    assert (Hrest : drop (Z.to_nat (ts + cs)) b = r).
    { rewrite Z2Nat.inj_add by (subst; apply zlen_nonneg).
      rewrite <- drop_drop, Hdrop, <- Hc. unfold zlen. by rewrite Nat2Z.id, drop_app_length. }
    assert (Hcont : take (Z.to_nat cs) (drop (Z.to_nat ts) b) = c).
    { rewrite Hdrop, <- Hc. unfold zlen. by rewrite Nat2Z.id, take_app_length. }
    rewrite Hcont, Hrest, Hc. done.
  - intros [He Hk]. unfold Split.
    assert (is_bytes content ∧ is_bytes rest) as [Hbc Hbr].
    { rewrite He, !is_bytes_app in Hb. tauto. }
    rewrite He in Hu |- *. rewrite readKind_complete by done. cbn [res_bind].
    set (h := kind_head k (zlen content)).
    rewrite Z2Nat.inj_add by apply zlen_nonneg. unfold zlen. rewrite !Nat2Z.id.
    rewrite <- drop_drop, drop_app_length, drop_app_length, take_app_length. done.
Qed.

Lemma rlp_bytes_kind content : is_bytes content →
  ∃ k, k ≠ KList ∧ kind_content k content ∧
    rlp_bytes content = kind_head k (zlen content) ++ content ∧
    ∀ k', k' ≠ KList → kind_content k' content →
      kind_head k' (zlen content) ++ content = rlp_bytes content.
Proof.
  intros Hc.
  assert ((∃ x, content = [x] ∧ x < 0x80) ∨ ¬ (∃ x, content = [x] ∧ x < 0x80)) as [Hx|Hx].
  { destruct content as [|x [|y r]]; [right; naive_solver| |right; naive_solver].
    destruct (decide (x < 128)); [left; eauto|right; naive_solver]. }
  - exists KByte. destruct Hx as (x & -> & Hx). split_and!; [done|by exists x| |].
    + simpl. by destruct (Z.ltb_spec x 128); [|lia].
    + intros [] Hne Hk; [| |done]; simpl in Hk |- *; destruct (Z.ltb_spec x 128); try lia; try done.
      specialize (Hk x eq_refl). lia.
  - exists KString. split_and!; [done| | |].
    + intros x ->. destruct (Z.ltb_spec x 128); [|done]. naive_solver.
    + unfold rlp_bytes. destruct content as [|x [|y r]]; [done| |done].
      destruct (Z.ltb_spec x 128); [naive_solver|done].
    + intros [] Hne Hk; [| |done].
      * destruct Hk as (x & -> & ?). naive_solver.
      * unfold rlp_bytes. destruct content as [|x [|y r]]; [done| |done].
        destruct (Z.ltb_spec x 128); [naive_solver|done].
Qed.

(** The splitters accept exactly the canonical encodings. *)
Lemma SplitString_iff b content rest :
  is_bytes b → is_u64 (zlen b) →
  SplitString b = Ok (content, rest) ↔ b = rlp_bytes content ++ rest.
Proof.
  intros Hb Hu. split.
  - unfold SplitString. intros ([[k c] r] & Hs & H)%res_bind_ok. case_decide; [done|].
    injection H as <- <-. apply Split_iff in Hs as [He Hk]; [|done|done].
    assert (is_bytes c) as Hc by (rewrite He, !is_bytes_app in Hb; tauto).
    destruct (rlp_bytes_kind c Hc) as (k' & _ & _ & _ & Huniq).
    by rewrite <- (Huniq k), <- app_assoc.
  - intros He.
    assert (is_bytes content) as Hc.
    { rewrite He, is_bytes_app in Hb. destruct Hb as [Hb _]. revert Hb. unfold rlp_bytes.
      destruct content as [|x [|y r]]; [intros; constructor| |];
        [destruct (x <? 128); [done|]|]; rewrite is_bytes_app; tauto. }
    destruct (rlp_bytes_kind content Hc) as (k & Hne & Hk & Heq & _).
    unfold SplitString. rewrite (proj2 (Split_iff b k content rest Hb Hu)).
    + cbn [res_bind]. by rewrite decide_False.
    + split; [|done]. by rewrite He, Heq, <- app_assoc.
Qed.

Lemma SplitList_iff b content rest :
  is_bytes b → is_u64 (zlen b) →
  SplitList b = Ok (content, rest) ↔ b = rlp_list content ++ rest.
Proof.
  intros Hb Hu. unfold SplitList, rlp_list. split.
  - intros ([[k c] r] & Hs & H)%res_bind_ok. case_decide; [|done]. subst k.
    injection H as <- <-. apply Split_iff in Hs as [He Hk]; [|done|done].
    by rewrite He, <- app_assoc.
  - intros He. rewrite (proj2 (Split_iff b KList content rest Hb Hu)); [done|].
    split; [|done]. by rewrite He, <- app_assoc.
Qed.

Lemma is_bytes_rlp_head small large n :
  0 ≤ n < 2 ^ 64 → 0 ≤ small ≤ 200 → 0 ≤ large ≤ 0xF7 → is_bytes (rlp_head small large n).
Proof.
  intros Hn Hs Hl. unfold rlp_head. destruct (Z.ltb_spec n 56).
  - constructor; [unfold is_byte; lia|constructor].
  - constructor; [|apply Big.is_bytes_Bytes].
    pose proof (Bytes_len_u64 n ltac:(lia) Hn). unfold is_byte, zlen. lia.
Qed.
Lemma is_bytes_rlp_bytes b : is_bytes b → is_u64 (zlen b) → is_bytes (rlp_bytes b).
Proof.
  intros Hb Hu.
  assert (is_bytes (rlp_head 0x80 0xB7 (zlen b) ++ b)).
  { apply is_bytes_app. split; [|done]. by apply is_bytes_rlp_head. }
  unfold rlp_bytes. destruct b as [|x [|y r]]; [done| |done]. by destruct (x <? 128).
Qed.

Lemma is_bytes_concat (l : list bytes) : Forall is_bytes l → is_bytes (concat l).
Proof. induction 1; [constructor|]. by apply is_bytes_app. Qed.
Lemma is_bytes_rlp_val v : val_ok v → is_u64 (zlen (rlp v)) → is_bytes (rlp v).
Proof.
  induction v as [i|b|i|b|l IH] using val_ind'; intros Hok Hu; cbn [rlp] in *.
  - apply is_bytes_rlp_bytes; [apply Big.is_bytes_Bytes|]. eapply is_u64_zlen_le, Hu. apply zlen_rlp_bytes_ge.
  - destruct b; [apply is_bytes_rlp_bytes; [repeat constructor; by compute|done]|]. repeat constructor; by compute.
  - apply is_bytes_rlp_bytes; [apply Big.is_bytes_Bytes|]. eapply is_u64_zlen_le, Hu. apply zlen_rlp_bytes_ge.
  - apply is_bytes_rlp_bytes; [done|]. eapply is_u64_zlen_le, Hu. apply zlen_rlp_bytes_ge.
  - unfold rlp_list in *. rewrite zlen_app in Hu. apply val_ok_list in Hok.
    pose proof (zlen_nonneg (rlp_head 0xC0 0xF7 (zlen (concat (map rlp l))))) as Hh.
    assert (Hc : is_u64 (zlen (concat (map rlp l)))).
    { unfold is_u64 in *. pose proof (zlen_nonneg (concat (map rlp l))). lia. }
    apply is_bytes_app. split; [by apply is_bytes_rlp_head|]. apply is_bytes_concat.
    apply Forall_map. rewrite Forall_forall in *. intros v Hv. apply IH; [done|by apply Hok|].
    eapply is_u64_zlen_le, Hc. apply zlen_concat_le. by apply list_elem_of_fmap_2.
Qed.

Lemma zlen_rlp_head_le small large n : is_u64 n → zlen (rlp_head small large n) ≤ 9.
Proof.
  intros Hn. rewrite zlen_rlp_head by done. unfold headsize. destruct (n <? 56); [lia|].
  rewrite intsize_putint by done. pose proof (zlen_putint n Hn). lia.
Qed.
Lemma zlen_rlp_bytes_le b : zlen b < 2 ^ 36 → zlen (rlp_bytes b) ≤ 9 + zlen b.
Proof.
  intros Hb. assert (H : zlen (rlp_head 0x80 0xB7 (zlen b) ++ b) ≤ 9 + zlen b).
  { rewrite zlen_app. pose proof (zlen_rlp_head_le 0x80 0xB7 (zlen b)) as Hh. pose proof (zlen_nonneg b).
    specialize (Hh ltac:(unfold is_u64; lia)). lia. }
  unfold rlp_bytes. destruct b as [|x [|y r]]; [done| |done]. by destruct (x <? 128).
Qed.
Lemma zlen_rlp_list_le c : zlen c < 2 ^ 40 → zlen (rlp_list c) ≤ 9 + zlen c.
Proof.
  intros Hb. unfold rlp_list. rewrite zlen_app. pose proof (zlen_nonneg c).
  pose proof (zlen_rlp_head_le 0xC0 0xF7 (zlen c) ltac:(unfold is_u64; lia)). lia.
Qed.

Lemma rlp_nonempty v : rlp v ≠ [].
Proof.
  assert (Hh : ∀ s l n b, rlp_head s l n ++ b ≠ []).
  { intros. unfold rlp_head. by destruct (n <? 56). }
  assert (Hb : ∀ b, rlp_bytes b ≠ []).
  { intros b. unfold rlp_bytes. destruct b as [|x [|y r]]; try apply Hh.
    destruct (x <? 128); [done|apply Hh]. }
  destruct v; simpl; try apply Hb. apply Hh.
Qed.
