(* ===== verification/RlpStream.v ===== *)
(** * The RLP stream decoder

    [rlp/decode.go]: the [Stream] that reads values off a reader, and the
    decoders that reflection makes for Go types ([makeDecoder],
    [typecache.go]).  A reader is the bytes that are left of it
    ([bytes.Reader]).  A Go type is a term of [typ]; a Go value of it a
    [gval], and [val_of] what [makeWriter] makes of it.

    Not covered: [RawValue], types with their own [DecodeRLP], and the path in
    the text of an error ([addErrorContext]). *)

From S2P Require Import Prelude BigMath Rlp.

(** ** Streams *)

Inductive serr :=
| EOL | io_EOF | io_ErrUnexpectedEOF
| sErrExpectedString | sErrExpectedList | ErrCanonInt | sErrCanonSize | ErrElemTooLarge | sErrValueTooLarge
| ErrMoreThanOneValue | errNotInList | errNotAtEOL | errUintOverflow
| errInvalidBool (num : Z)
| decodeErr (e : serr)  (* a decodeError, by the error it wraps *)
| errTooFew | errTooLong | errTooShort.

(** [kind] is [None] for -1; the top of the stack first. *)
Record Stream := mkStream {
  r : bytes;
  remaining : Z;
  limited : bool;
  kind : option Kind;
  ssize : Z;
  byteval : Z;
  kinderr : option serr;
  stack : list (Z * Z);
}.
Definition set_r (x : bytes) (s : Stream) : Stream := mkStream x (remaining s) (limited s) (kind s) (ssize s) (byteval s) (kinderr s) (stack s).
Definition set_remaining (x : Z) (s : Stream) : Stream := mkStream (r s) x (limited s) (kind s) (ssize s) (byteval s) (kinderr s) (stack s).
Definition set_kind (x : option Kind) (s : Stream) : Stream := mkStream (r s) (remaining s) (limited s) x (ssize s) (byteval s) (kinderr s) (stack s).
Definition set_ssize (x : Z) (s : Stream) : Stream := mkStream (r s) (remaining s) (limited s) (kind s) x (byteval s) (kinderr s) (stack s).
Definition set_byteval (x : Z) (s : Stream) : Stream := mkStream (r s) (remaining s) (limited s) (kind s) (ssize s) x (kinderr s) (stack s).
Definition set_kinderr (x : option serr) (s : Stream) : Stream := mkStream (r s) (remaining s) (limited s) (kind s) (ssize s) (byteval s) x (stack s).
Definition set_stack (x : list (Z * Z)) (s : Stream) : Stream := mkStream (r s) (remaining s) (limited s) (kind s) (ssize s) (byteval s) (kinderr s) x.

(** An operation of a stream changes it, whether it fails or not. *)
Inductive sout (A : Type) := SOk (a : A) (s : Stream) | SErr (e : serr) (s : Stream) | SFuel.
Arguments SOk {A} _ _. Arguments SErr {A} _ _. Arguments SFuel {A}.
Definition SM (A : Type) : Type := Stream → sout A.
Definition S_ret {A} (a : A) : SM A := SOk a.
Definition S_bind {A B} (m : SM A) (k : A → SM B) : SM B := λ s,
  match m s with SOk a s => k a s | SErr e s => SErr e s | SFuel => SFuel end.
Definition S_fail {A} (e : serr) : SM A := SErr e.
Definition S_modify (f : Stream → Stream) : SM unit := λ s, SOk tt (f s).
Definition S_get {A} (f : Stream → A) : SM A := λ s, SOk (f s) s.
(** [if err != nil { return g(err) }] *)
Definition S_map_err {A} (g : serr → serr) (m : SM A) : SM A := λ s,
  match m s with SErr e s => SErr (g e) s | x => x end.
Declare Scope stream_scope.
Delimit Scope stream_scope with stream.
Notation "x ←s m ; k" := (S_bind m (λ x, k)) (at level 20, m at level 100, k at level 200, right associativity) : stream_scope.
Notation "m ;;s k" := (S_bind m (λ _, k)) (at level 100, k at level 200, right associativity) : stream_scope.
Local Open Scope stream_scope.

(** [NewStream] over a byte reader: the limit is the length of the input. *)
Definition NewStream (input : bytes) (inputLimit : Z) : Stream :=
  mkStream input (if 0 <? inputLimit then inputLimit else zlen input) true None 0 0 None [].

Definition willRead (n : Z) : SM unit := λ s,
  let s := set_kind None s in
  match (match stack s with
         | [] => Some s
         | (pos, size) :: st =>
             if u64 (size - pos) <? n then None else Some (set_stack ((u64 (pos + n), size) :: st) s)
         end) with
  | None => SErr ErrElemTooLarge s
  | Some s =>
      if limited s then
        if remaining s <? n then SErr sErrValueTooLarge s else SOk tt (set_remaining (remaining s - n) s)
      else SOk tt s
  end.
Definition readByte : SM Z :=
  willRead 1;;s λ s,
  match r s with
  | [] => SErr io_ErrUnexpectedEOF s
  | b :: rest => SOk b (set_r rest s)
  end.
Definition readFull (n : Z) : SM bytes :=
  willRead n;;s λ s,
  if zlen (r s) <? n then SErr io_ErrUnexpectedEOF (set_r [] s)
  else SOk (take (Z.to_nat n) (r s)) (set_r (drop (Z.to_nat n) (r s)) s).
Definition readUint (size : Z) : SM Z :=
  if size =? 0 then S_modify (set_kind None);;s S_ret 0
  else if size =? 1 then readByte
  else
    b ←s readFull size;
    match b with
    | 0 :: _ => S_fail sErrCanonSize
    | _ => S_ret (be_val b)
    end.

(** The kind, the size, and the error, which [Kind] keeps. *)
Definition readKind_long (k : Kind) (sizesize : Z) (s : Stream) : Kind * Z * option serr * Stream :=
  match readUint sizesize s with
  | SOk size s => (k, size, if size <? 56 then Some sErrCanonSize else None, s)
  | SErr e s => (k, 0, Some e, s)
  | SFuel => (k, 0, None, s)  (* never *)
  end.
Definition stream_readKind (s : Stream) : Kind * Z * option serr * Stream :=
  match readByte s with
  | SOk b s =>
      let s := set_byteval 0 s in
      if b <? 0x80 then (KByte, 0, None, set_byteval b s)
      else if b <? 0xB8 then (KString, b - 0x80, None, s)
      else if b <? 0xC0 then readKind_long KString (b - 0xB7) s
      else if b <? 0xF8 then (KList, b - 0xC0, None, s)
      else readKind_long KList (b - 0xF7) s
  | SErr e s =>
      let e := match stack s with
               | [] => match e with io_ErrUnexpectedEOF | sErrValueTooLarge => io_EOF | _ => e end
               | _ => e
               end in
      (KByte, 0, Some e, s)
  | SFuel => (KByte, 0, None, s)  (* never *)
  end.
Definition stream_Kind : SM (Kind * Z) := λ s,
  let kept (s : Stream) (k : Kind) : sout (Kind * Z) :=
    match kinderr s with Some e => SErr e s | None => SOk (k, ssize s) s end in
  match kind s with
  | Some k => kept s k
  | None =>
      let s := set_kinderr None s in
      let at_end := match stack s with (pos, size) :: _ => pos =? size | [] => false end in
      if at_end then SErr EOL s
      else
        let '(k, size, err, s) := stream_readKind s in
        let err :=
          match err with
          | Some e => Some e
          | None =>
              match stack s with
              | [] => if limited s && (remaining s <? size) then Some sErrValueTooLarge else None
              | (pos, tsize) :: _ => if u64 (tsize - pos) <? size then Some ErrElemTooLarge else None
              end
          end in
        kept (set_kinderr err (set_ssize size (set_kind (Some k) s))) k
  end.
Definition rearm : SM unit := S_modify (set_kind None).

(** [Bytes] *)
Definition stream_Bytes : SM bytes :=
  ks ←s stream_Kind;
  let '(k, size) := ks in
  match k with
  | KByte => rearm;;s v ←s S_get byteval; S_ret [v]
  | KString =>
      b ←s readFull size;
      if (size =? 1) && (default 0 (head b) <? 128) then S_fail sErrCanonSize else S_ret b
  | KList => S_fail sErrExpectedString
  end.
(** [Raw] *)
Definition stream_Raw : SM bytes :=
  ks ←s stream_Kind;
  let '(k, size) := ks in
  match k with
  | KByte => rearm;;s v ←s S_get byteval; S_ret [v]
  | KString => b ←s readFull size; S_ret (puthead 0x80 0xB7 size ++ b)
  | KList => b ←s readFull size; S_ret (puthead 0xC0 0xF7 size ++ b)
  end.
(** [uint] *)
Definition stream_uint (maxbits : Z) : SM Z :=
  ks ←s stream_Kind;
  let '(k, size) := ks in
  match k with
  | KByte =>
      v ←s S_get byteval;
      if v =? 0 then S_fail ErrCanonInt else rearm;;s S_ret v
  | KString =>
      if maxbits / 8 <? size then S_fail errUintOverflow
      else
        v ←s S_map_err (λ e, match e with sErrCanonSize => ErrCanonInt | _ => e end) (readUint (size mod 256));
        if (0 <? size) && (v <? 128) then S_fail sErrCanonSize else S_ret v
  | KList => S_fail sErrExpectedString
  end.
Definition stream_Bool : SM bool :=
  num ←s stream_uint 8;
  if num =? 0 then S_ret false else if num =? 1 then S_ret true else S_fail (errInvalidBool num).
(** [List], [ListEnd] *)
Definition stream_List : SM Z :=
  ks ←s stream_Kind;
  let '(k, size) := ks in
  match k with
  | KList => S_modify (λ s, set_ssize 0 (set_kind None (set_stack ((0, size) :: stack s) s)));;s S_ret size
  | _ => S_fail sErrExpectedList
  end.
Definition stream_ListEnd : SM unit := λ s,
  match stack s with
  | [] => SErr errNotInList s
  | (pos, size) :: st =>
      if negb (pos =? size) then SErr errNotAtEOL s
      else
        let st := match st with [] => [] | (p, sz) :: st => (u64 (p + size), sz) :: st end in
        SOk tt (set_ssize 0 (set_kind None (set_stack st s)))
  end.

(** ** Types and values *)

(** [TBytes] is a byte slice or a string, [TOptPtr] a pointer in a field with
    the tag "nil"; the tail of a struct is the element type of a last field
    with the tag "tail". *)
#[warnings="-all"]
Inductive typ :=
| TUint (bits : Z)
| TBool
| TBig
| TBytes
| TByteArray (n : nat)
| TSlice (t : typ)
| TArray (n : nat) (t : typ)
| TStruct (fields : list typ) (tail : option typ)
| TPtr (t : typ)
| TOptPtr (t : typ)
| TInterface.

(** A slice, an array and a struct are lists; a byte slice and a byte array
    byte strings. *)
#[warnings="-all"]
Inductive gval :=
| GUint (i : Z)
| GBool (b : bool)
| GBig (i : Z)
| GBytes (b : bytes)
| GList (l : list gval)
| GPtr (v : gval)
| GNil.

(** [wrapStreamError] *)
Definition wrapStreamError (e : serr) : serr :=
  match e with
  | ErrCanonInt | sErrCanonSize | sErrExpectedList | sErrExpectedString | errUintOverflow | errNotAtEOL => decodeErr e
  | _ => e
  end.

(** ** Decoders *)

Definition decodeUint (bits : Z) : SM gval := v ←s S_map_err wrapStreamError (stream_uint bits); S_ret (GUint v).
Definition decodeBool : SM gval := b ←s S_map_err wrapStreamError stream_Bool; S_ret (GBool b).
Definition decodeBigInt : SM gval :=
  b ←s S_map_err wrapStreamError stream_Bytes;
  match b with
  | 0 :: _ => S_fail (wrapStreamError ErrCanonInt)
  | _ => S_ret (GBig (Big.SetBytes b))
  end.
Definition decodeByteSlice : SM gval := b ←s S_map_err wrapStreamError stream_Bytes; S_ret (GBytes b).
Definition decodeByteArray (vlen : nat) : SM gval :=
  ks ←s stream_Kind;
  let '(k, size) := ks in
  match k with
  | KByte =>
      if (vlen =? 0)%nat then S_fail errTooLong
      else if (1 <? vlen)%nat then S_fail errTooShort
      else λ s,
        (* bv, _ := s.Uint() *)
        match stream_uint 64 s with
        | SOk bv s => SOk (GBytes [bv]) s
        | SErr _ s => SOk (GBytes [0]) s
        | SFuel => SFuel
        end
  | KString =>
      if Z.of_nat vlen <? size then S_fail errTooLong
      else if size <? Z.of_nat vlen then S_fail errTooShort
      else
        b ←s readFull size;
        if (size =? 1) && (default 0 (head b) <? 128) then S_fail (wrapStreamError sErrCanonSize)
        else S_ret (GBytes b)
  | KList => S_fail (wrapStreamError sErrExpectedString)
  end.

(** [decodeSliceElems]: elements until the end of the list; each takes a
    turn. *)
Fixpoint decodeSliceElems (elemdec : SM gval) (fuel : nat) : SM (list gval) := λ s,
  match fuel with
  | O => SFuel
  | S fuel =>
      match elemdec s with
      | SOk v s => (vs ←s decodeSliceElems elemdec fuel; S_ret (v :: vs)) s
      | SErr EOL s => SOk [] s
      | SErr e s => SErr e s
      | SFuel => SFuel
      end
  end.
Definition decodeListSlice (elemdec : SM gval) (fuel : nat) : SM gval :=
  size ←s S_map_err wrapStreamError stream_List;
  if size =? 0 then stream_ListEnd;;s S_ret (GList [])
  else vs ←s decodeSliceElems elemdec fuel; stream_ListEnd;;s S_ret (GList vs).
Fixpoint decodeArrayElems (elemdec : SM gval) (n : nat) : SM (list gval) :=
  match n with
  | O => S_ret []
  | S n => λ s,
      match elemdec s with
      | SOk v s => (vs ←s decodeArrayElems elemdec n; S_ret (v :: vs)) s
      | SErr EOL s => SErr errTooFew s
      | SErr e s => SErr e s
      | SFuel => SFuel
      end
  end.
Definition decodeListArray (elemdec : SM gval) (n : nat) : SM gval :=
  S_map_err wrapStreamError stream_List;;s
  vs ←s decodeArrayElems elemdec n;
  S_map_err wrapStreamError stream_ListEnd;;s S_ret (GList vs).
(** The fields of a struct: an EOL of a decoder is "too few elements". *)
Definition S_field {A} (m : SM A) : SM A := λ s,
  match m s with SErr EOL s => SErr errTooFew s | x => x end.
Definition decodeOptionalPtr (elemdec : SM gval) : SM gval := λ s,
  match stream_Kind s with
  | SErr e s => SErr e (set_kind None s)
  | SOk (k, size) s =>
      if (size =? 0) && negb (bool_decide (k = KByte)) then SOk GNil (set_kind None s)
      else (v ←s elemdec; S_ret (GPtr v)) s
  | SFuel => SFuel
  end.
Fixpoint decodeInterface (fuel : nat) : SM gval :=
  match fuel with
  | O => λ _, SFuel
  | S fuel =>
      ks ←s stream_Kind;
      match ks.1 with
      | KList => decodeListSlice (decodeInterface fuel) fuel
      | _ => b ←s stream_Bytes; S_ret (GBytes b)
      end
  end.

(** [makeDecoder]; the fuel bounds the elements of a slice and the depth of an
    interface value. *)
Fixpoint decode (fuel : nat) (t : typ) : SM gval :=
  match t with
  | TUint bits => decodeUint bits
  | TBool => decodeBool
  | TBig => decodeBigInt
  | TBytes => decodeByteSlice
  | TByteArray n => decodeByteArray n
  | TSlice t => decodeListSlice (decode fuel t) fuel
  | TArray n t => decodeListArray (decode fuel t) n
  | TStruct fs tail =>
      S_map_err wrapStreamError stream_List;;s
      vs ←s (fix go (fs : list typ) : SM (list gval) :=
        match fs with
        | [] =>
            match tail with
            | Some t => S_field (vs ←s decodeSliceElems (decode fuel t) fuel; S_ret [GList vs])
            | None => S_ret []
            end
        | f :: fs => v ←s S_field (decode fuel f); vs ←s go fs; S_ret (v :: vs)
        end) fs;
      S_map_err wrapStreamError stream_ListEnd;;s S_ret (GList vs)
  | TPtr t => v ←s decode fuel t; S_ret (GPtr v)
  | TOptPtr t => decodeOptionalPtr (decode fuel t)
  | TInterface => decodeInterface fuel
  end.

(** Elements and lists take at least a byte each. *)
Definition DecodeBytes (t : typ) (b : bytes) : sout gval :=
  match decode (S (S (length b))) t (NewStream b (zlen b)) with
  | SOk v s => if 0 <? zlen (r s) then SErr ErrMoreThanOneValue s else SOk v s
  | x => x
  end.

(** ** What the writers of a type encode *)

(** The nil pointer to a value of the type ([makePtrWriter]), else the zero
    value. *)
Fixpoint nil_val (t : typ) : val :=
  match t with
  | TUint _ => VUint 0
  | TBool => VBool false
  | TBig => VBig 0
  | TBytes | TByteArray _ => VBytes []
  | TSlice _ | TArray _ _ | TStruct _ _ | TInterface => VList []
  | TPtr t | TOptPtr t => nil_val t
  end.
(** [writeInterface], of the values that decoding makes. *)
Fixpoint interface_val (v : gval) : val :=
  match v with
  | GBytes b => VBytes b
  | GList l => VList (map interface_val l)
  | _ => VList []
  end.
(** [makeWriter]; a value that is not of the type is taken for nil. *)
Fixpoint val_of (t : typ) (v : gval) : val :=
  match t, v with
  | TUint _, GUint i => VUint i
  | TBool, GBool b => VBool b
  | TBig, GBig i => VBig i
  | (TBytes | TByteArray _), GBytes b => VBytes b
  | (TSlice t | TArray _ t), GList l => VList (map (val_of t) l)
  | TStruct fs tail, GList vs =>
      VList ((fix go (fs : list typ) (vs : list gval) : list val :=
        match fs, vs with
        | f :: fs, v :: vs => val_of f v :: go fs vs
        | [], [GList l] => match tail with Some t => map (val_of t) l | None => [] end
        | _, _ => []
        end) fs vs)
  | (TPtr t | TOptPtr t), GPtr v => val_of t v
  | TInterface, v => interface_val v
  | t, _ => nil_val t
  end.
Definition EncodeValue (t : typ) (v : gval) : rres bytes := EncodeToBytes (val_of t v).
