(* ===== verification/RlpTyped.v ===== *)
(** * Laws of the stream decoder

    What each operation of a stream does at a position of its input, and from
    that the decoders of types: decoding inverts encoding, and what is decoded
    was the encoding. *)

From S2P Require Import Prelude BigMath Rlp RlpStream.

(** ** Positions *)

(** The lists that are open fit into each other. *)
Fixpoint stack_ok (st : list (Z * Z)) : Prop :=
  match st with
  | [] => True
  | (p, sz) :: st =>
      0 ≤ p ≤ sz ∧ is_u64 sz ∧ match st with [] => True | (p2, s2) :: _ => p2 + sz ≤ s2 end ∧ stack_ok st
  end.
Definition fits_in (st : list (Z * Z)) (n : Z) : Prop := match st with [] => True | (p, sz) :: _ => n ≤ sz - p end.
Definition advance (n : Z) (st : list (Z * Z)) : list (Z * Z) := match st with [] => [] | (p, sz) :: st => (p + n, sz) :: st end.
Definition at_end (st : list (Z * Z)) : Prop := match st with [] => False | (p, sz) :: _ => p = sz end.

Record core (s : Stream) (inp : bytes) (st : list (Z * Z)) : Prop := {
  co_r : r s = inp; co_remaining : remaining s = zlen inp; co_limited : limited s = true; co_stack : stack s = st;
  co_bytes : is_bytes inp; co_u64 : is_u64 (zlen inp); co_ok : stack_ok st;
}.
Definition ready (s : Stream) (inp : bytes) (st : list (Z * Z)) : Prop := core s inp st ∧ kind s = None.

Lemma advance_0 st : advance 0 st = st.
Proof. destruct st as [|[p sz] st]; cbn; [done|]. by rewrite Z.add_0_r. Qed.
Lemma advance_add a b st : advance a (advance b st) = advance (b + a) st.
Proof. destruct st as [|[p sz] st]; cbn; [done|]. by rewrite Z.add_assoc. Qed.
Lemma fits_advance a b st : fits_in (advance a st) b ↔ fits_in st (a + b).
Proof. destruct st as [|[p sz] st]; cbn; [done|]. lia. Qed.
Lemma fits_le a b st : a ≤ b → fits_in st b → fits_in st a.
Proof. destruct st as [|[p sz] st]; cbn; lia. Qed.
Lemma stack_ok_advance n st : stack_ok st → 0 ≤ n → fits_in st n → stack_ok (advance n st).
Proof. destruct st as [|[p sz] st]; cbn; [done|]. intros (? & ? & ? & ?) ? ?. split_and!; try done; lia. Qed.
Lemma willRead_spec s inp st n : core s inp st → 0 ≤ n →
  (∃ e s', willRead n s = SErr e s' ∧ e ≠ EOL ∧ ¬ (fits_in st n ∧ n ≤ zlen inp)) ∨
  fits_in st n ∧ n ≤ zlen inp ∧ ∃ s', willRead n s = SOk tt s' ∧ r s' = inp ∧ remaining s' = zlen inp - n ∧
    limited s' = true ∧ kind s' = None ∧ stack s' = advance n st.
Proof.
  intros [<- E2 E3 <- Hb Hu Hs] Hn. unfold willRead. cbn [stack set_kind].
  assert (Hlim : ∀ t, limited t = true → remaining t = zlen (r s) → r t = r s → kind t = None → stack t = advance n (stack s) → fits_in (stack s) n →
    (∃ e s', (if limited t then if remaining t <? n then SErr sErrValueTooLarge t else SOk tt (set_remaining (remaining t - n) t) else SOk tt t) = SErr e s' ∧ e ≠ EOL ∧ ¬ (fits_in (stack s) n ∧ n ≤ zlen (r s))) ∨
    fits_in (stack s) n ∧ n ≤ zlen (r s) ∧ ∃ s', (if limited t then if remaining t <? n then SErr sErrValueTooLarge t else SOk tt (set_remaining (remaining t - n) t) else SOk tt t) = SOk tt s' ∧ r s' = r s ∧ remaining s' = zlen (r s) - n ∧
    limited s' = true ∧ kind s' = None ∧ stack s' = advance n (stack s)).
  { intros t H1 H2 H3 H4 H5 Hf. rewrite H1, H2. destruct (Z.ltb_spec (zlen (r s)) n).
    - left. eexists _, _. split_and!; [done|done|]. lia.
    - right. split_and!; [done|lia|]. eexists. by split_and!. }
  destruct (stack s) as [|[p sz] st] eqn:Est; [by apply Hlim|].
  cbn in Hs. destruct Hs as (Hp & Hsz & Hpar & Hst). rewrite u64_id by (unfold is_u64 in *; lia).
  destruct (Z.ltb_spec (sz - p) n).
  - left. eexists _, _. split_and!; [done|done|]. cbn. lia.
  - rewrite (u64_id (p + n)) by (unfold is_u64 in *; lia). apply Hlim; try done.
Qed.
Lemma readFull_spec s inp st n : core s inp st → 0 ≤ n →
  (∃ e s', readFull n s = SErr e s' ∧ e ≠ EOL ∧ ¬ (fits_in st n ∧ n ≤ zlen inp)) ∨
  fits_in st n ∧ n ≤ zlen inp ∧ ∃ s', readFull n s = SOk (take (Z.to_nat n) inp) s' ∧ ready s' (drop (Z.to_nat n) inp) (advance n st).
Proof.
  intros C Hn. unfold readFull, S_bind. destruct (willRead_spec s inp st n C Hn) as [(e & s' & -> & He)|(Hf & Hl & s' & -> & E1 & E2 & E3 & E4 & E5)].
  { left. by exists e, s'. }
  right. rewrite E1. destruct (Z.ltb_spec (zlen inp) n); [lia|]. split_and!; [done|done|]. eexists. split; [done|].
  assert (Hz : zlen (drop (Z.to_nat n) inp) = zlen inp - n) by (unfold zlen in *; rewrite length_drop; lia).
  split; [|done]. destruct C as [_ _ _ _ Hb Hu Hs]. split; cbn; try done.
  - by rewrite Hz.
  - by apply is_bytes_drop.
  - rewrite Hz. unfold is_u64 in *. lia.
  - by apply stack_ok_advance.
Qed.
Lemma readByte_spec s inp st : core s inp st →
  (∃ e s', readByte s = SErr e s' ∧ e ≠ EOL ∧ ¬ (fits_in st 1 ∧ 1 ≤ zlen inp)) ∨
  ∃ b rest s', inp = b :: rest ∧ fits_in st 1 ∧ readByte s = SOk b s' ∧ ready s' rest (advance 1 st).
Proof.
  intros C. unfold readByte, S_bind. destruct (willRead_spec s inp st 1 C ltac:(lia)) as [(e & s' & -> & He)|(Hf & Hl & s' & -> & E1 & E2 & E3 & E4 & E5)].
  { left. by exists e, s'. }
  right. rewrite E1. destruct inp as [|b rest]; [done|]. exists b, rest. eexists. split_and!; [done|done|done|].
  destruct C as [_ _ _ _ Hb Hu Hs]. rewrite zlen_cons in *. pose proof (zlen_nonneg rest).
  split; [|done]. split; cbn; try done.
  - rewrite E2. lia.
  - by apply is_bytes_cons in Hb as [_ ?].
  - unfold is_u64 in *. lia.
  - apply stack_ok_advance; [done|lia|done].
Qed.
(** A number of [n] bytes, without a leading zero if they are several. *)
Lemma readUint_spec s inp st n : core s inp st → 0 ≤ n →
  (∃ e s', readUint n s = SErr e s' ∧ e ≠ EOL ∧ (fits_in st n → n ≤ zlen inp → 2 ≤ n ∧ ∃ rest, inp = 0 :: rest)) ∨
  fits_in st n ∧ n ≤ zlen inp ∧ (2 ≤ n → ∀ rest, inp ≠ 0 :: rest) ∧
  ∃ s', readUint n s = SOk (be_val (take (Z.to_nat n) inp)) s' ∧ ready s' (drop (Z.to_nat n) inp) (advance n st).
Proof.
  intros C Hn. unfold readUint. destruct (Z.eqb_spec n 0) as [->|].
  { right. split_and!; [|apply zlen_nonneg|lia|].
    - destruct st as [|[p sz] st]; [done|]. destruct C as [_ _ _ _ _ _ (? & _)]. cbn. lia.
    - eexists. split; [done|]. rewrite advance_0. destruct C. by split. }
  destruct (Z.eqb_spec n 1) as [->|].
  { destruct (readByte_spec s inp st C) as [(e & s' & -> & He & Hno)|(b & rest & s' & -> & Hf & -> & R)].
    - left. exists e, s'. split_and!; [done|done|]. intros ? ?. by destruct Hno.
    - right. rewrite zlen_cons. pose proof (zlen_nonneg rest). split_and!; [done|lia|lia|]. exists s'.
      split; [|exact R]. change (take (Z.to_nat 1) (b :: rest)) with [b]. by unfold be_val. }
  unfold S_bind. destruct (readFull_spec s inp st n C Hn) as [(e & s' & -> & He & Hno)|(Hf & Hl & s' & -> & R)].
  { left. exists e, s'. split_and!; [done|done|]. intros ? ?. by destruct Hno. }
  destruct inp as [|b rest]; [change (zlen (@nil Z)) with 0 in Hl; lia|].
  destruct (Z.to_nat n) as [|m] eqn:Em; [lia|]. cbn [take]. destruct (decide (b = 0)) as [->|Hb].
  - left. eexists _, _. split_and!; [done|done|]. intros _ _. split; [lia|by eexists].
  - right. split_and!; [done|done|by intros _ ? [= -> _]|]. exists s'. split; [|done]. by destruct b.
Qed.

(** ** The kind of the next value *)

Definition hlen (k : Kind) (size : Z) : Z := match k with KByte => 1 | _ => zlen (kind_head k size) end.
Definition parsed (k : Kind) (size : Z) (s : Stream) (inp rest : bytes) : Prop :=
  match k with
  | KByte => inp = byteval s :: rest ∧ 0 ≤ byteval s < 128 ∧ size = 0
  | _ => inp = kind_head k size ++ rest ∧ is_u64 size
  end.
Lemma set_byteval_ready b s inp st : ready s inp st → ready (set_byteval b s) inp st.
Proof. by intros [[] ?]. Qed.

Lemma rlp_head_long small large n : 56 ≤ n → rlp_head small large n = (large + zlen (Big.Bytes n)) :: Big.Bytes n.
Proof. intros Hn. unfold rlp_head. by destruct (Z.ltb_spec n 56); [lia|]. Qed.
Lemma rlp_head_short small large n : n < 56 → rlp_head small large n = [small + n].
Proof. intros Hn. unfold rlp_head. by destruct (Z.ltb_spec n 56); [|lia]. Qed.

(** A length of [n] bytes. *)
Lemma readKind_long_sound k n s inp st small large : core s inp st → 1 ≤ n ≤ 8 →
  (∃ sz e s', readKind_long k n s = (k, sz, Some e, s') ∧ e ≠ EOL) ∨
  ∃ size s' rest, readKind_long k n s = (k, size, None, s') ∧ ready s' rest (advance n st) ∧
    large + n :: inp = rlp_head small large size ++ rest ∧ is_u64 size ∧ 56 ≤ size ∧ fits_in st n ∧ zlen (rlp_head small large size) = 1 + n.
Proof.
  intros C Hn. unfold readKind_long.
  destruct (readUint_spec s inp st n C ltac:(lia)) as [(e & s' & -> & He & _)|(Hf & Hl & Hz & s' & -> & R)].
  { left. by exists 0, e, s'. }
  set (v := be_val _) in *. destruct (Z.ltb_spec v 56) as [|H56]; [left; by eexists _, _, _|]. right.
  assert (Hb : is_bytes (take (Z.to_nat n) inp)) by (apply is_bytes_take, C).
  assert (Hln : zlen (take (Z.to_nat n) inp) = n) by (unfold zlen in *; rewrite length_take; lia).
  assert (Ev : Big.Bytes v = take (Z.to_nat n) inp).
  { apply Big.Bytes_SetBytes; [done|]. destruct (take (Z.to_nat n) inp) as [|b rest] eqn:Et; [done|]. cbn. intros ->.
    destruct (Z_lt_le_dec n 2).
    - assert (rest = []) as -> by (destruct rest; [done|]; rewrite !zlen_cons in Hln; pose proof (zlen_nonneg rest); lia).
      unfold v in H56. by unfold be_val in H56; cbn in H56; lia.
    - apply (Hz ltac:(lia) (rest ++ drop (Z.to_nat n) inp)). rewrite <- (take_drop (Z.to_nat n) inp) at 1. by rewrite Et. }
  pose proof (be_val_bound _ Hb) as Hbd. rewrite Hln in Hbd. fold v in Hbd.
  assert (256 ^ n ≤ 256 ^ 8) by (apply Z.pow_le_mono_r; lia).
  exists v, s', (drop (Z.to_nat n) inp). rewrite rlp_head_long, Ev, Hln by done. split_and!; try done.
  - cbn [app]. by rewrite take_drop.
  - unfold is_u64. change (256 ^ 8) with (2 ^ 64) in *. lia.
  - rewrite zlen_cons. lia.
Qed.
Lemma readKind_long_complete k s inp st v : core s (Big.Bytes v ++ inp) st → 56 ≤ v → is_u64 v → fits_in st (zlen (Big.Bytes v)) →
  ∃ s', readKind_long k (zlen (Big.Bytes v)) s = (k, v, None, s') ∧ ready s' inp (advance (zlen (Big.Bytes v)) st).
Proof.
  intros C H56 Hu Hf. pose proof (Bytes_len_u64 v H56 Hu) as Hl. unfold readKind_long.
  assert (Hz : ∀ rest, Big.Bytes v ++ inp ≠ 0 :: rest).
  { destruct (Big.Bytes_head v ltac:(lia)) as (b & r & -> & Hb). intros rest [= -> _]. lia. }
  assert (Ez : Z.to_nat (zlen (Big.Bytes v)) = length (Big.Bytes v)) by (unfold zlen; lia).
  destruct (readUint_spec s _ st (zlen (Big.Bytes v)) C (zlen_nonneg _)) as [(e & s' & _ & _ & Hno)|(_ & _ & _ & s' & -> & R)].
  { destruct Hno as (_ & rest & E); [done|rewrite zlen_app; pose proof (zlen_nonneg inp); lia|]. by apply Hz in E. }
  rewrite Ez, take_app_length, drop_app_length in *.
  assert (Ev : be_val (Big.Bytes v) = v) by (pose proof (Big.SetBytes_Bytes v) as E; unfold Big.SetBytes in E; unfold is_u64 in Hu; lia).
  rewrite Ev. destruct (Z.ltb_spec v 56); [lia|]. by exists s'.
Qed.

Lemma readKind_spec s inp st : core s inp st →
  (∃ k size e s', stream_readKind s = (k, size, Some e, s') ∧ e ≠ EOL) ∨
  ∃ k size s' rest, stream_readKind s = (k, size, None, s') ∧ ready s' rest (advance (hlen k size) st) ∧
    parsed k size s' inp rest ∧ fits_in st (hlen k size).
Proof.
  intros C. unfold stream_readKind.
  destruct (readByte_spec s inp st C) as [(e & s' & -> & He & _)|(b & rest & s' & -> & Hf & -> & R)].
  { left. eexists _, _, _, _. split; [done|]. destruct (stack s'); [by destruct e|done]. }
  assert (Hb : 0 ≤ b < 256) by (pose proof (co_bytes _ _ _ C) as Hbs; by apply is_bytes_cons in Hbs as [? _]).
  destruct (Z.ltb_spec b 0x80).
  { right. exists KByte, 0, (set_byteval b (set_byteval 0 s')), rest. split; [done|].
    split; [by do 2 apply set_byteval_ready|]. split; [|done]. cbn. split_and!; [done|lia|lia|done]. }
  apply (set_byteval_ready 0) in R. set (s1 := set_byteval 0 s') in *. pose proof (proj1 R) as C1.
  assert (Hshort : ∀ k small large, kind_head k (b - small) = rlp_head small large (b - small) → k ≠ KByte → 0 ≤ b - small < 56 →
    ready s1 rest (advance (hlen k (b - small)) st) ∧ parsed k (b - small) s1 (b :: rest) rest ∧ fits_in st (hlen k (b - small))).
  { intros k small large Ek Hk Hs. assert (E1 : kind_head k (b - small) = [b]) by (rewrite Ek, rlp_head_short by lia; f_equal; lia).
    assert (Eh : hlen k (b - small) = 1) by (by destruct k; [|unfold hlen; rewrite E1..]). rewrite Eh. split_and!; [done| |done].
    assert (is_u64 (b - small)) by (unfold is_u64; lia). by destruct k; [|unfold parsed; rewrite E1..]. }
  assert (Hlong : ∀ k small large, (∀ n, kind_head k n = rlp_head small large n) → k ≠ KByte → 1 ≤ b - large ≤ 8 →
    (∃ k' size e s', readKind_long k (b - large) s1 = (k', size, Some e, s') ∧ e ≠ EOL) ∨
    ∃ k' size s' rest', readKind_long k (b - large) s1 = (k', size, None, s') ∧ ready s' rest' (advance (hlen k' size) st) ∧
      parsed k' size s' (b :: rest) rest' ∧ fits_in st (hlen k' size)).
  { intros k small large Ek Hk Hn. destruct (readKind_long_sound k (b - large) s1 rest (advance 1 st) small large C1 Hn)
      as [(sz & e & s2 & E & He)|(size & s2 & rest' & E & R2 & Ei & Hu & H56 & Hf2 & Hhl)].
    - left. by exists k, sz, e, s2.
    - right. exists k, size, s2, rest'. assert (Eh : hlen k size = 1 + (b - large)) by (by destruct k; [|unfold hlen; rewrite Ek..]).
      rewrite Eh. rewrite fits_advance in Hf2. rewrite advance_add in R2. split_and!; [done|done| |done].
      replace (large + (b - large)) with b in Ei by lia. by destruct k; [|unfold parsed; rewrite Ek..]. }
  destruct (Z.ltb_spec b 0xB8).
  { right. exists KString, (b - 0x80), s1, rest. split; [done|]. apply (Hshort KString 0x80 0xB7); [done|done|lia]. }
  destruct (Z.ltb_spec b 0xC0); [apply (Hlong KString 0x80 0xB7); [done|done|lia]|].
  destruct (Z.ltb_spec b 0xF8).
  { right. exists KList, (b - 0xC0), s1, rest. split; [done|]. apply (Hshort KList 0xC0 0xF7); [done|done|lia]. }
  apply (Hlong KList 0xC0 0xF7); [done|done|lia].
Qed.
Lemma readKind_byte s b inp st : core s (b :: inp) st → b < 128 → fits_in st 1 →
  ∃ s', stream_readKind s = (KByte, 0, None, s') ∧ byteval s' = b ∧ ready s' inp (advance 1 st).
Proof.
  intros C Hb Hf. unfold stream_readKind. pose proof (zlen_nonneg inp).
  destruct (readByte_spec s _ st C) as [(e & s' & _ & _ & Hno)|(b' & rest & s' & [= <- <-] & _ & -> & R)].
  { destruct Hno. rewrite zlen_cons. split; [done|lia]. }
  destruct (Z.ltb_spec b 0x80); [|lia]. eexists. split_and!; [done|done|]. by do 2 apply set_byteval_ready.
Qed.
Lemma readKind_head k size s inp st : k ≠ KByte → core s (kind_head k size ++ inp) st → is_u64 size → fits_in st (hlen k size) →
  ∃ s', stream_readKind s = (k, size, None, s') ∧ ready s' inp (advance (hlen k size) st).
Proof.
  intros Hk C Hu Hf. pose proof (zlen_nonneg inp) as Hi. pose proof (zlen_nonneg (Big.Bytes size)) as Hbz.
  assert (Hsm : ∃ small large, (∀ n, kind_head k n = rlp_head small large n) ∧ (k = KString ∧ small = 0x80 ∧ large = 0xB7 ∨ k = KList ∧ small = 0xC0 ∧ large = 0xF7)).
  { destruct k; [done|exists 0x80, 0xB7; auto|exists 0xC0, 0xF7; auto]. }
  destruct Hsm as (small & large & Ek & Hcase). assert (Eh : hlen k size = zlen (rlp_head small large size)) by (by destruct k; [|unfold hlen; rewrite Ek..]).
  rewrite Eh, Ek in *. unfold stream_readKind. unfold is_u64 in Hu.
  destruct (Z_lt_le_dec size 56) as [H56|H56].
  - rewrite rlp_head_short in * by done. cbn [app] in C. change (zlen [small + size]) with 1 in *.
    destruct (readByte_spec s _ st C) as [(e & s' & _ & _ & Hno)|(b' & rest & s' & [= <- <-] & _ & -> & R)].
    { destruct Hno. rewrite zlen_cons. split; [done|lia]. }
    apply (set_byteval_ready 0) in R.
    destruct Hcase as [(-> & -> & ->)|(-> & -> & ->)].
    + destruct (Z.ltb_spec (0x80 + size) 0x80); [lia|]. destruct (Z.ltb_spec (0x80 + size) 0xB8); [|lia].
      replace (0x80 + size - 0x80) with size by lia. by eexists.
    + destruct (Z.ltb_spec (0xC0 + size) 0x80); [lia|]. destruct (Z.ltb_spec (0xC0 + size) 0xB8); [lia|].
      destruct (Z.ltb_spec (0xC0 + size) 0xC0); [lia|]. destruct (Z.ltb_spec (0xC0 + size) 0xF8); [|lia].
      replace (0xC0 + size - 0xC0) with size by lia. by eexists.
  - pose proof (Bytes_len_u64 size H56 Hu) as Hl. rewrite rlp_head_long in * by done. cbn [app] in C. rewrite zlen_cons in *.
    destruct (readByte_spec s _ st C) as [(e & s' & _ & _ & Hno)|(b' & rest & s' & [= <- <-] & _ & -> & R)].
    { destruct Hno. rewrite zlen_cons, zlen_app. split; [eapply fits_le, Hf; lia|lia]. }
    apply (set_byteval_ready 0) in R. unfold zlen in Hbz, Hf |- *. set (n := Z.of_nat (length (Big.Bytes size))) in *.
    assert (Hn : 1 ≤ n ≤ 8) by lia.
    destruct (readKind_long_complete k (set_byteval 0 s') inp (advance 1 st) size (proj1 R) H56 Hu) as (s2 & E2 & R2).
    { rewrite fits_advance. exact Hf. }
    unfold zlen in E2, R2. fold n in E2, R2. rewrite advance_add in R2. exists s2. split; [|done]. rewrite <- E2.
    destruct Hcase as [(-> & -> & ->)|(-> & -> & ->)].
    + destruct (Z.ltb_spec (0xB7 + n) 0x80); [lia|]. destruct (Z.ltb_spec (0xB7 + n) 0xB8); [lia|].
      destruct (Z.ltb_spec (0xB7 + n) 0xC0); [|lia]. by replace (0xB7 + n - 0xB7) with n by lia.
    + destruct (Z.ltb_spec (0xF7 + n) 0x80); [lia|]. destruct (Z.ltb_spec (0xF7 + n) 0xB8); [lia|].
      destruct (Z.ltb_spec (0xF7 + n) 0xC0); [lia|]. destruct (Z.ltb_spec (0xF7 + n) 0xF8); [lia|].
      by replace (0xF7 + n - 0xF7) with n by lia.
Qed.

Lemma hlen_pos k size : is_u64 size → 1 ≤ hlen k size.
Proof.
  intros Hu. destruct k; cbn; [lia|..]; unfold rlp_head; destruct (_ <? _); rewrite zlen_cons; pose proof (zlen_nonneg (@nil Z));
    pose proof (zlen_nonneg (Big.Bytes size)); lia.
Qed.
Definition peeked (k : Kind) (size : Z) (s : Stream) (rest : bytes) (st : list (Z * Z)) : Prop :=
  core s rest st ∧ kind s = Some k ∧ ssize s = size ∧ kinderr s = None.
Lemma Kind_again k size s rest st : peeked k size s rest st → stream_Kind s = SOk (k, size) s.
Proof. intros (C & E1 & E2 & E3). unfold stream_Kind. by rewrite E1, E3, E2. Qed.
#[local] Instance at_end_dec st : Decision (at_end st).
Proof. destruct st as [|[p sz] st]; unfold at_end; apply _. Defined.
Lemma at_end_test s inp st : core s inp st →
  match stack s with (pos, size) :: _ => pos =? size | [] => false end = bool_decide (at_end st).
Proof.
  intros C. rewrite (co_stack _ _ _ C). destruct st as [|[p sz] st]; cbn; [done|].
  destruct (Z.eqb_spec p sz); [by rewrite bool_decide_true|by rewrite bool_decide_false].
Qed.
Definition Kind_limit (size : Z) (s : Stream) : option serr :=
  match stack s with
  | [] => if limited s && (remaining s <? size) then Some sErrValueTooLarge else None
  | (pos, tsize) :: _ => if u64 (tsize - pos) <? size then Some ErrElemTooLarge else None
  end.
Lemma Kind_limit_spec size s inp st : core s inp st →
  (Kind_limit size s = None ∧ fits_in st size ∧ (st = [] → size ≤ zlen inp)) ∨
  (∃ e, Kind_limit size s = Some e ∧ e ≠ EOL ∧ ¬ (fits_in st size ∧ size ≤ zlen inp)).
Proof.
  intros C. unfold Kind_limit. rewrite (co_stack _ _ _ C), (co_limited _ _ _ C), (co_remaining _ _ _ C).
  destruct st as [|[p sz] st]; cbn [andb].
  - destruct (Z.ltb_spec (zlen inp) size); [right|by left]. eexists. split_and!; [done|done|]. lia.
  - pose proof (co_ok _ _ _ C) as (Hp & Hsz & _). rewrite u64_id by (unfold is_u64 in *; lia).
    destruct (Z.ltb_spec (sz - p) size); [right|left]; cbn; [|split_and!; [done|lia|done]].
    eexists. split_and!; [done|done|lia].
Qed.
Lemma Kind_unfold s inp st : ready s inp st →
  stream_Kind s = if bool_decide (at_end st) then SErr EOL (set_kinderr None s)
    else let '(k, size, err, s) := stream_readKind (set_kinderr None s) in
         let err := match err with Some e => Some e | None => Kind_limit size s end in
         match err with
         | Some e => SErr e (set_kinderr err (set_ssize size (set_kind (Some k) s)))
         | None => SOk (k, size) (set_kinderr err (set_ssize size (set_kind (Some k) s)))
         end.
Proof.
  intros [C Ek]. unfold stream_Kind. rewrite Ek. cbn [stack set_kinderr]. rewrite (at_end_test _ _ _ C).
  destruct (bool_decide _); [done|]. destruct (stream_readKind _) as [[[k size] err] s']. cbn [kinderr set_kinderr set_ssize set_kind ssize].
  by destruct err.
Qed.
Lemma ready_kinderr s inp st : ready s inp st → ready (set_kinderr None s) inp st.
Proof. by intros [[] ?]. Qed.
Lemma core_peek k size s inp st : core s inp st → peeked k size (set_kinderr None (set_ssize size (set_kind (Some k) s))) inp st.
Proof. intros []. split; [by split|done]. Qed.

Lemma Kind_spec s inp st : ready s inp st →
  (at_end st ∧ ∃ s', stream_Kind s = SErr EOL s' ∧ ready s' inp st) ∨
  (¬ at_end st ∧ ∃ e s', stream_Kind s = SErr e s' ∧ e ≠ EOL) ∨
  ¬ at_end st ∧ ∃ k size s' rest, stream_Kind s = SOk (k, size) s' ∧ peeked k size s' rest (advance (hlen k size) st) ∧
    parsed k size s' inp rest ∧ fits_in st (hlen k size + size).
Proof.
  intros R. rewrite (Kind_unfold s inp st R). apply ready_kinderr in R. destruct (decide (at_end st)) as [Ha|Ha].
  { rewrite bool_decide_true by done. left. split; [done|]. by eexists. }
  rewrite bool_decide_false by done. right.
  destruct (readKind_spec _ _ _ (proj1 R)) as [(k & size & e & s' & -> & He)|(k & size & s' & rest & -> & R' & Hp & Hf)].
  { left. split; [done|]. by eexists _, _. }
  destruct (Kind_limit_spec size s' rest _ (proj1 R')) as [(-> & Hf' & _)|(e & -> & He & _)]; [right|left; split; [done|by eexists _, _]].
  split; [done|]. exists k, size. eexists _, rest. split; [done|]. split; [by apply core_peek, R'|].
  rewrite fits_advance in Hf'. split; [|done]. by destruct k.
Qed.
Lemma not_at_end st n : 1 ≤ n → fits_in st n → ¬ at_end st.
Proof. destruct st as [|[p sz] st]; cbn; [by intros _ _ []|lia]. Qed.
Lemma Kind_head k size s inp st : k ≠ KByte → ready s (kind_head k size ++ inp) st → is_u64 size →
  fits_in st (hlen k size + size) → size ≤ zlen inp →
  ∃ s', stream_Kind s = SOk (k, size) s' ∧ peeked k size s' inp (advance (hlen k size) st).
Proof.
  intros Hk R Hu Hf Hl. rewrite (Kind_unfold _ _ _ R). apply ready_kinderr in R.
  pose proof (hlen_pos k size Hu) as Hh. assert (0 ≤ size) by (unfold is_u64 in Hu; lia).
  rewrite bool_decide_false by (eapply not_at_end, Hf; lia).
  destruct (readKind_head k size _ inp st Hk (proj1 R) Hu) as (s' & -> & R'); [eapply fits_le, Hf; lia|].
  destruct (Kind_limit_spec size s' inp _ (proj1 R')) as [(-> & _)|(e & _ & _ & [])].
  - eexists. split; [done|]. by apply core_peek, R'.
  - by rewrite fits_advance.
Qed.
Lemma Kind_byte b s inp st : ready s (b :: inp) st → b < 128 → fits_in st 1 →
  ∃ s', stream_Kind s = SOk (KByte, 0) s' ∧ byteval s' = b ∧ peeked KByte 0 s' inp (advance 1 st).
Proof.
  intros R Hb Hf. rewrite (Kind_unfold _ _ _ R). apply ready_kinderr in R.
  rewrite bool_decide_false by (eapply not_at_end, Hf; lia).
  destruct (readKind_byte _ b inp st (proj1 R) Hb Hf) as (s' & -> & Eb & R').
  destruct (Kind_limit_spec 0 s' inp _ (proj1 R')) as [(-> & _)|(e & _ & _ & [])].
  - eexists. split; [done|]. split; [done|]. by apply core_peek, R'.
  - rewrite fits_advance. split; [done|apply zlen_nonneg].
Qed.

(** ** Specifications of operations *)

(** The operation reads [enc] off the input and gives [a]. *)
Definition reads {A} (m : SM A) (a : A) (enc : bytes) : Prop :=
  ∀ s rest st, ready s (enc ++ rest) st → fits_in st (zlen enc) → ∃ s', m s = SOk a s' ∧ ready s' rest (advance (zlen enc) st).
(** What the operation reads off an input of at most [n] bytes when it
    succeeds; EOL only at the end of a list. *)
Definition yields {A} (n : nat) (m : SM A) (P : A → bytes → Prop) : Prop :=
  ∀ s inp st, ready s inp st → (length inp ≤ n)%nat →
  match m s with
  | SOk a s' => ∃ enc rest, inp = enc ++ rest ∧ enc ≠ [] ∧ fits_in st (zlen enc) ∧ ready s' rest (advance (zlen enc) st) ∧ P a enc
  | SErr EOL s' => at_end st ∧ ready s' inp st
  | SErr _ _ => True
  | SFuel => False
  end.
(** At the end of a list there is nothing to read. *)
Definition ends {A} (m : SM A) : Prop :=
  ∀ s inp st, ready s inp st → at_end st → ∃ s', m s = SErr EOL s' ∧ ready s' inp st.

Lemma Kind_ends : ends stream_Kind.
Proof.
  intros s inp st R Ha. destruct (Kind_spec s inp st R) as [(_ & s' & ? & ?)|[(? & _)|(? & _)]]; [|done|done]. by exists s'.
Qed.
Lemma ends_bind {A B} (m : SM A) (k : A → SM B) : ends m → ends (S_bind m k).
Proof. intros H s inp st R Ha. destruct (H s inp st R Ha) as (s' & E & R'). exists s'. unfold S_bind. by rewrite E. Qed.
Lemma ends_map_err {A} g (m : SM A) : g EOL = EOL → ends m → ends (S_map_err g m).
Proof. intros Hg H s inp st R Ha. destruct (H s inp st R Ha) as (s' & E & R'). exists s'. unfold S_map_err. by rewrite E, Hg. Qed.
Lemma yields_map {A B} n (m : SM A) (f : A → B) (P : A → bytes → Prop) (Q : B → bytes → Prop) :
  yields n m P → (∀ a enc, P a enc → Q (f a) enc) → yields n (S_bind m (λ a, S_ret (f a))) Q.
Proof.
  intros H Hf s inp st R Hn. specialize (H s inp st R Hn). unfold S_bind, S_ret.
  destruct (m s) as [a s'|e s'|]; [|done|done]. destruct H as (enc & rest & ? & ? & ? & ? & ?). exists enc, rest. eauto 10.
Qed.
Lemma yields_map_err {A} n g (m : SM A) (P : A → bytes → Prop) : (∀ e, g e = EOL → e = EOL) → yields n m P → yields n (S_map_err g m) P.
Proof.
  intros Hg H s inp st R Hn. specialize (H s inp st R Hn). unfold S_map_err.
  destruct (m s) as [a s'|e s'|]; [done| |done]. destruct (g e) eqn:E; try done. apply Hg in E as ->. done.
Qed.
Lemma yields_weaken {A} n (m : SM A) (P Q : A → bytes → Prop) : yields n m P → (∀ a enc, P a enc → Q a enc) → yields n m Q.
Proof.
  intros H Hf s inp st R Hn. specialize (H s inp st R Hn). destruct (m s) as [a s'|e s'|]; [|done|done].
  destruct H as (enc & rest & ? & ? & ? & ? & ?). exists enc, rest. eauto 10.
Qed.
Lemma reads_map {A B} (m : SM A) (f : A → B) a enc : reads m a enc → reads (S_bind m (λ a, S_ret (f a))) (f a) enc.
Proof. intros H s rest st R Hf. destruct (H s rest st R Hf) as (s' & E & R'). exists s'. unfold S_bind. by rewrite E. Qed.
Lemma reads_map_err {A} g (m : SM A) a enc : reads m a enc → reads (S_map_err g m) a enc.
Proof. intros H s rest st R Hf. destruct (H s rest st R Hf) as (s' & E & R'). exists s'. unfold S_map_err. by rewrite E. Qed.
Lemma wrap_EOL e : wrapStreamError e = EOL → e = EOL.
Proof. by destruct e. Qed.

(** ** Strings and numbers *)

Lemma rlp_bytes_cases b :
  (∃ x, b = [x] ∧ x < 128 ∧ rlp_bytes b = [x]) ∨ (rlp_bytes b = kind_head KString (zlen b) ++ b ∧ ∀ x, b = [x] → 128 ≤ x).
Proof.
  unfold rlp_bytes. destruct b as [|x [|y l]]; [by right| |by right]. destruct (Z.ltb_spec x 128); [left; by exists x|right].
  split; [done|]. by intros ? [= <-].
Qed.
Lemma peeked_readFull k size s inp st n : peeked k size s inp st → 0 ≤ n →
  (∃ e s', readFull n s = SErr e s' ∧ e ≠ EOL ∧ ¬ (fits_in st n ∧ n ≤ zlen inp)) ∨
  fits_in st n ∧ n ≤ zlen inp ∧ ∃ s', readFull n s = SOk (take (Z.to_nat n) inp) s' ∧ ready s' (drop (Z.to_nat n) inp) (advance n st).
Proof. intros (C & _). by apply readFull_spec. Qed.
Lemma rearm_peeked k size s inp st : peeked k size s inp st → ready (set_kind None s) inp st.
Proof. intros ([] & _). by split. Qed.
Lemma ready_bytes_u64 s (a b : bytes) st : ready s (a ++ b) st → is_bytes a ∧ is_bytes b ∧ is_u64 (zlen a) ∧ is_u64 (zlen b).
Proof.
  intros [[_ _ _ _ Hb Hu _] _]. apply is_bytes_app in Hb as [? ?]. rewrite zlen_app in Hu. unfold is_u64 in *.
  pose proof (zlen_nonneg a). pose proof (zlen_nonneg b). split_and!; try done; lia.
Qed.
(** The content behind a header. *)
Lemma readFull_content k size s b rest st : peeked k size s (b ++ rest) st → fits_in st (zlen b) →
  ∃ s', readFull (zlen b) s = SOk b s' ∧ ready s' rest (advance (zlen b) st).
Proof.
  intros P Hf. pose proof (zlen_nonneg rest). pose proof (zlen_nonneg b).
  destruct (peeked_readFull _ _ _ _ _ (zlen b) P (zlen_nonneg b)) as [(e & s' & _ & _ & [])|(_ & _ & s' & -> & R)].
  { split; [done|]. rewrite zlen_app. lia. }
  assert (E : Z.to_nat (zlen b) = length b) by (unfold zlen; lia). rewrite E, take_app_length, drop_app_length in *. by exists s'.
Qed.
Lemma Kind_string s b rest st : ready s ((kind_head KString (zlen b) ++ b) ++ rest) st → fits_in st (zlen (kind_head KString (zlen b) ++ b)) →
  ∃ s', stream_Kind s = SOk (KString, zlen b) s' ∧ peeked KString (zlen b) s' (b ++ rest) (advance (zlen (kind_head KString (zlen b))) st) ∧
    fits_in (advance (zlen (kind_head KString (zlen b))) st) (zlen b).
Proof.
  intros R Hf. rewrite <- app_assoc in R. rewrite zlen_app in Hf.
  destruct (ready_bytes_u64 _ _ _ _ R) as (_ & Hb & _ & Hu). rewrite zlen_app in Hu. pose proof (zlen_nonneg rest). pose proof (zlen_nonneg b).
  destruct (Kind_head KString (zlen b) s (b ++ rest) st) as (s' & E & P); [done|done|unfold is_u64 in *; lia|done|rewrite zlen_app; lia|].
  exists s'. split_and!; [done|done|]. by rewrite fits_advance.
Qed.
Lemma Bytes_reads b : reads stream_Bytes b (rlp_bytes b).
Proof.
  intros s rest st R Hf. unfold stream_Bytes, S_bind. destruct (rlp_bytes_cases b) as [(x & -> & Hx & E)|[E Hx]]; rewrite E in *.
  - destruct (Kind_byte x s rest st R Hx Hf) as (s' & -> & Eb & P). cbn. rewrite Eb. eexists. split; [done|]. by eapply rearm_peeked.
  - destruct (Kind_string s b rest st R Hf) as (s' & -> & P & Hf'). cbn beta iota zeta.
    destruct (readFull_content _ _ _ _ _ _ P Hf') as (s2 & -> & R2). rewrite advance_add, <- zlen_app in R2.
    exists s2. split; [|done]. destruct (Z.eqb_spec (zlen b) 1) as [E1|]; [|done]. destruct b as [|x [|y l]]; [done| |].
    + cbn. destruct (Z.ltb_spec x 128); [|done]. specialize (Hx x eq_refl). lia.
    + rewrite !zlen_cons in E1. pose proof (zlen_nonneg l). lia.
Qed.
(** Reading the content that a header announced. *)
Lemma readFull_sound k size s inp st : peeked k size s inp st → 0 ≤ size →
  match readFull size s with
  | SOk b s' => ∃ rest, inp = b ++ rest ∧ zlen b = size ∧ fits_in st size ∧ ready s' rest (advance size st)
  | SErr e _ => e ≠ EOL
  | SFuel => False
  end.
Proof.
  intros P Hs. destruct (peeked_readFull _ _ _ _ _ size P Hs) as [(e & s' & -> & He & _)|(Hf & Hl & s' & -> & R)]; [done|].
  exists (drop (Z.to_nat size) inp). split_and!; [by rewrite take_drop| |done|done]. unfold zlen in *. rewrite length_take. lia.
Qed.
Lemma string_enc b rest size inp st : inp = kind_head KString size ++ b ++ rest → zlen b = size → (size = 1 → ∀ x, b = [x] → 128 ≤ x) →
  fits_in st (hlen KString size + size) →
  inp = rlp_bytes b ++ rest ∧ rlp_bytes b ≠ [] ∧ fits_in st (zlen (rlp_bytes b)) ∧ zlen (rlp_bytes b) = hlen KString size + size.
Proof.
  intros -> <- Hx Hf. assert (E : rlp_bytes b = kind_head KString (zlen b) ++ b).
  { destruct (rlp_bytes_cases b) as [(x & -> & Hx' & _)|[? _]]; [|done]. specialize (Hx eq_refl x eq_refl). lia. }
  assert (El : zlen (rlp_bytes b) = hlen KString (zlen b) + zlen b) by (rewrite E, zlen_app; done).
  rewrite El, E, <- app_assoc. split_and!; [done| |done|done].
  intros [En _]%app_eq_nil. revert En. unfold kind_head, rlp_head. by destruct (_ <? _).
Qed.
Lemma single_not_small (b : bytes) size : zlen b = size → (size =? 1) && (default 0 (head b) <? 128) = false → size = 1 → ∀ x, b = [x] → 128 ≤ x.
Proof. intros Hl Ht -> x ->. cbn in Ht. destruct (Z.ltb_spec x 128); [done|lia]. Qed.

Lemma Bytes_yields n : yields n stream_Bytes (λ b enc, enc = rlp_bytes b ∧ is_bytes b).
Proof.
  intros s inp st R _. unfold stream_Bytes, S_bind.
  destruct (Kind_spec s inp st R) as [(Ha & s' & -> & R')|[(_ & e & s' & -> & He)|(_ & k & size & s' & rest & -> & P & Hp & Hf)]].
  { done. } { by destruct e. }
  pose proof (co_bytes _ _ _ (proj1 R)) as Hb. destruct k; cbn beta iota zeta.
  - destruct Hp as (-> & Hx & ->). exists [byteval s'], rest. cbn [rearm S_modify S_ret S_get set_kind byteval]. split_and!; try done.
    + by eapply rearm_peeked.
    + destruct (rlp_bytes_cases [byteval s']) as [(x & [= <-] & _ & ->)|[_ H]]; [done|]. specialize (H _ eq_refl). lia.
    + apply is_bytes_cons. split; [unfold is_byte; lia|constructor].
  - destruct Hp as [-> Hu]. pose proof (readFull_sound _ _ _ _ _ P ltac:(unfold is_u64 in Hu; lia)) as Hr.
    destruct (readFull size s') as [b s2|e s2|]; [|by destruct e|done]. destruct Hr as (rest' & -> & Hl & Hf' & R2).
    destruct (_ && _) eqn:Ht; [done|].
    destruct (string_enc b rest' size _ st eq_refl Hl (single_not_small b size Hl Ht) Hf) as (E & Hne & Hfe & Hle).
    exists (rlp_bytes b), rest'. rewrite Hle. rewrite advance_add in R2. rewrite Hle in Hfe. split_and!; try done.
    rewrite !is_bytes_app in Hb. tauto.
  - done.
Qed.

Definition bits_ok (bits : Z) : Prop := bits = 8 ∨ bits = 16 ∨ bits = 32 ∨ bits = 64.
Lemma bits_pow bits : bits_ok bits → 2 ^ bits = 256 ^ (bits / 8) ∧ 1 ≤ bits / 8 ≤ 8.
Proof. intros [->|[->|[->| ->]]]; done. Qed.
Lemma be_val_Bytes v : 0 ≤ v → be_val (Big.Bytes v) = v.
Proof. intros Hv. pose proof (Big.SetBytes_Bytes v) as E. unfold Big.SetBytes in E. lia. Qed.
Lemma Bytes_small v : 0 < v < 128 → Big.Bytes v = [v].
Proof.
  intros Hv. pose proof (Big.length_Bytes_le v 1 ltac:(change (256 ^ Z.of_nat 1) with 256; lia)) as Hl.
  destruct (Big.Bytes_head v ltac:(lia)) as (b & l & E & Hb). pose proof (be_val_Bytes v ltac:(lia)) as Ev. rewrite E in *.
  destruct l; [|cbn in Hl; lia]. unfold be_val in Ev. cbn in Ev. by subst.
Qed.
Lemma uint_reads bits v : bits_ok bits → 0 ≤ v < 2 ^ bits → reads (stream_uint bits) v (rlp_bytes (Big.Bytes v)).
Proof.
  intros Hb Hv s rest st R Hf. destruct (bits_pow bits Hb) as [Hpow Hb8]. unfold stream_uint, S_bind.
  destruct (rlp_bytes_cases (Big.Bytes v)) as [(x & Ex & Hx & E)|[E Hx]]; rewrite E in *.
  - destruct (Kind_byte x s rest st R Hx Hf) as (s' & -> & Eb & P). cbn beta iota zeta. unfold S_get. rewrite Eb.
    assert (v ≠ 0) by (intros ->; done). destruct (Big.Bytes_head v ltac:(lia)) as (b & l & E' & Hb0). rewrite Ex in E'. injection E' as <- <-.
    destruct (Z.eqb_spec x 0); [lia|]. pose proof (be_val_Bytes v ltac:(lia)) as Ev. rewrite Ex in Ev. unfold be_val in Ev. cbn in Ev. rewrite <- Ev.
    eexists. split; [done|]. by eapply rearm_peeked.
  - destruct (Kind_string s _ rest st R Hf) as (s' & -> & P & Hf'). cbn beta iota zeta.
    set (size := zlen (Big.Bytes v)) in *. assert (Hsz : 0 ≤ size ≤ bits / 8).
    { split; [apply zlen_nonneg|]. pose proof (Big.length_Bytes_le v (Z.to_nat (bits / 8))) as H.
      rewrite Z2Nat.id, <- Hpow in H by lia. specialize (H Hv). unfold size, zlen. lia. }
    destruct (Z.ltb_spec (bits / 8) size); [lia|]. rewrite Z.mod_small by lia. unfold S_map_err.
    pose proof (zlen_nonneg rest). pose proof (zlen_app (Big.Bytes v) rest) as Hza. fold size in Hza.
    destruct (readUint_spec s' _ _ size (proj1 P) ltac:(lia)) as [(e & s2 & _ & _ & Hno)|(_ & _ & _ & s2 & E2 & R2)].
    { destruct Hno as (H2 & rest' & En); [done|lia|]. destruct (Z.eq_dec v 0) as [->|Hv0]; [change size with 0 in H2; lia|].
      destruct (Big.Bytes_head v Hv0) as (b & l & E' & Hb0). rewrite E' in En. injection En as -> _. lia. }
    rewrite E2. assert (En : Z.to_nat size = length (Big.Bytes v)) by (unfold size, zlen; lia).
    rewrite En, take_app_length in *. rewrite drop_app_length in R2. rewrite be_val_Bytes by lia.
    rewrite advance_add in R2. unfold size in R2. rewrite <- zlen_app in R2. exists s2. split; [|done].
    destruct (Z.ltb_spec 0 size); [|done]. destruct (Z.ltb_spec v 128); [|done]. exfalso.
    destruct (Z.eq_dec v 0) as [->|]; [by change size with 0 in *|]. specialize (Hx v (Bytes_small v ltac:(lia))). lia.
Qed.
Lemma uint_yields n bits : bits_ok bits → yields n (stream_uint bits) (λ v enc, enc = rlp_bytes (Big.Bytes v) ∧ 0 ≤ v < 2 ^ bits).
Proof.
  intros Hb s inp st R _. destruct (bits_pow bits Hb) as [Hpow Hb8]. unfold stream_uint, S_bind.
  assert (Hp8 : 256 ^ 1 ≤ 2 ^ bits) by (rewrite Hpow; apply Z.pow_le_mono_r; lia).
  destruct (Kind_spec s inp st R) as [(Ha & s' & -> & R')|[(_ & e & s' & -> & He)|(_ & k & size & s' & rest & -> & P & Hp & Hf)]].
  { done. } { by destruct e. }
  pose proof (co_bytes _ _ _ (proj1 R)) as Hbs. destruct k; cbn beta iota zeta; unfold S_get.
  - destruct Hp as (-> & Hx & ->). destruct (Z.eqb_spec (byteval s') 0) as [|Hx0]; [done|].
    exists [byteval s'], rest. cbn. rewrite Bytes_small by lia.
    split_and!; try done; [by eapply rearm_peeked| |lia|lia]. cbn. destruct (Z.ltb_spec (byteval s') 128); [done|lia].
  - destruct Hp as [-> Hu]. destruct (Z.ltb_spec (bits / 8) size); [done|]. unfold is_u64 in Hu. rewrite Z.mod_small by lia. unfold S_map_err.
    destruct (readUint_spec s' _ _ size (proj1 P) ltac:(lia)) as [(e & s2 & -> & He & _)|(Hf' & Hl & Hz & s2 & -> & R2)]; [by destruct e|].
    set (b := take (Z.to_nat size) rest) in *. assert (Hbl : zlen b = size) by (unfold b, zlen in *; rewrite length_take; lia).
    assert (Hbb : is_bytes b) by (apply is_bytes_take; apply is_bytes_app in Hbs; tauto).
    destruct ((0 <? size) && (be_val b <? 128)) eqn:Ht; [done|].
    assert (Erest : rest = b ++ drop (Z.to_nat size) rest) by (unfold b; by rewrite take_drop).
    assert (Hv : Big.Bytes (be_val b) = b).
    { apply Big.Bytes_SetBytes; [done|]. destruct b as [|x l]; [done|]. cbn. intros ->.
      destruct (Z_lt_le_dec size 2) as [Hs2|Hs2].
      - rewrite zlen_cons in Hbl. pose proof (zlen_nonneg l). destruct l; [|rewrite zlen_cons in Hbl; pose proof (zlen_nonneg l); lia].
        cbn in Hbl. subst size. done.
      - apply (Hz Hs2 (l ++ drop (Z.to_nat size) rest)). exact Erest. }
    assert (H128 : size = 1 → ∀ x, b = [x] → 128 ≤ x).
    { intros -> x Eb. apply andb_false_iff in Ht as [Ht|Ht]; [done|]. apply Z.ltb_ge in Ht. rewrite Eb in Ht. exact Ht. }
    destruct (string_enc b (drop (Z.to_nat size) rest) size (kind_head KString size ++ rest) st) as (E & Hne & Hfe & Hle);
      [by rewrite <- Erest|done|done|done|].
    exists (rlp_bytes b), (drop (Z.to_nat size) rest). rewrite Hv. rewrite advance_add in R2. split_and!; try done.
    + by rewrite Hle.
    + pose proof (be_val_bound b Hbb). lia.
    + pose proof (be_val_bound b Hbb) as Hbd. rewrite Hbl in Hbd. assert (256 ^ size ≤ 256 ^ (bits / 8)) by (apply Z.pow_le_mono_r; lia). lia.
  - done.
Qed.

(** ** Byte arrays *)

Lemma wrong_size n size : (Z.of_nat n <? size) = false → (size <? Z.of_nat n) = false → size = Z.of_nat n.
Proof. intros H1%Z.ltb_ge H2%Z.ltb_ge. lia. Qed.
Lemma byte_array_reads b : b ≠ [0] → reads (decodeByteArray (length b)) (GBytes b) (rlp_bytes b).
Proof.
  intros Hne s rest st R Hf. unfold decodeByteArray, S_bind.
  destruct (rlp_bytes_cases b) as [(x & -> & Hx & E)|[E Hx]]; rewrite E in *.
  - destruct (Kind_byte x s rest st R Hx Hf) as (s' & -> & Eb & P). cbn [length Nat.eqb Nat.ltb Nat.leb].
    unfold stream_uint, S_bind. rewrite (Kind_again _ _ _ _ _ P). unfold S_get. rewrite Eb.
    destruct (Z.eqb_spec x 0) as [->|]; [done|]. eexists. split; [done|]. by eapply rearm_peeked.
  - destruct (Kind_string s b rest st R Hf) as (s' & -> & P & Hf'). unfold zlen at 1 2. rewrite Z.ltb_irrefl.
    destruct (readFull_content _ _ _ _ _ _ P Hf') as (s2 & -> & R2). rewrite advance_add, <- zlen_app in R2.
    exists s2. split; [|done]. destruct (Z.eqb_spec (zlen b) 1) as [E1|]; [|done]. destruct b as [|x [|y l]]; [done| |].
    + cbn. destruct (Z.ltb_spec x 128); [|done]. specialize (Hx x eq_refl). lia.
    + rewrite !zlen_cons in E1. pose proof (zlen_nonneg l). lia.
Qed.
Lemma byte_array_yields n m : m ≠ 1%nat →
  yields n (decodeByteArray m) (λ v enc, ∃ b, v = GBytes b ∧ enc = rlp_bytes b ∧ is_bytes b ∧ length b = m).
Proof.
  intros Hm s inp st R _. unfold decodeByteArray, S_bind.
  destruct (Kind_spec s inp st R) as [(Ha & s' & -> & R')|[(_ & e & s' & -> & He)|(_ & k & size & s' & rest & -> & P & Hp & Hf)]].
  { done. } { by destruct e. }
  pose proof (co_bytes _ _ _ (proj1 R)) as Hb. destruct k; cbn beta iota zeta.
  - destruct (Nat.eqb_spec m 0); [done|]. destruct (Nat.ltb_spec 1 m); [done|lia].
  - destruct Hp as [-> Hu]. destruct (_ <? size) eqn:H1; [done|]. destruct (size <? _) eqn:H2; [done|]. pose proof (wrong_size _ _ H1 H2) as Es.
    pose proof (readFull_sound _ _ _ _ _ P ltac:(unfold is_u64 in Hu; lia)) as Hr.
    destruct (readFull size s') as [b s2|e s2|]; [|by destruct e|done]. destruct Hr as (rest' & -> & Hl & Hf' & R2).
    destruct (_ && _) eqn:Ht; [done|].
    destruct (string_enc b rest' size _ st eq_refl Hl (single_not_small b size Hl Ht) Hf) as (E & Hne & Hfe & Hle).
    exists (rlp_bytes b), rest'. rewrite Hle. rewrite advance_add in R2. rewrite Hle in Hfe. split_and!; try done.
    exists b. rewrite !is_bytes_app in Hb. unfold zlen in Hl. split_and!; [done|done|tauto|lia].
  - done.
Qed.

(** ** Lists *)

Lemma ready_push s inp st size k : peeked k size s inp st → is_u64 size → fits_in st size → ∀ s',
  s' = set_ssize 0 (set_kind None (set_stack ((0, size) :: stack s) s)) → ready s' inp ((0, size) :: st).
Proof.
  intros ([E1 E2 E3 E4 Hb Hu Hs] & _) Hsz Hf s' ->. split; [|done]. split; cbn; try done; [by rewrite E4|].
  unfold is_u64 in *. split_and!; [lia|lia|lia|lia| |done]. destruct st as [|[p sz] st]; [done|]. cbn in Hf. lia.
Qed.
Lemma List_reads s c rest st : ready s (rlp_list c ++ rest) st → fits_in st (zlen (rlp_list c)) →
  ∃ s', stream_List s = SOk (zlen c) s' ∧ ready s' (c ++ rest) ((0, zlen c) :: advance (zlen (kind_head KList (zlen c))) st).
Proof.
  intros R Hf. unfold rlp_list in *. fold (kind_head KList (zlen c)) in *. rewrite <- app_assoc in R. rewrite zlen_app in Hf.
  destruct (ready_bytes_u64 _ _ _ _ R) as (_ & _ & _ & Hu). rewrite zlen_app in Hu. pose proof (zlen_nonneg rest). pose proof (zlen_nonneg c).
  assert (Huc : is_u64 (zlen c)) by (unfold is_u64 in *; lia).
  destruct (Kind_head KList (zlen c) s (c ++ rest) st) as (s' & E & P); [done|done|done|done|rewrite zlen_app; lia|].
  unfold stream_List, S_bind. rewrite E. eexists. split; [done|]. eapply ready_push; [exact P|done| |done]. by rewrite fits_advance.
Qed.
Lemma ListEnd_ok s inp sz st : ready s inp ((sz, sz) :: st) → ∃ s', stream_ListEnd s = SOk tt s' ∧ ready s' inp (advance sz st).
Proof.
  intros [[E1 E2 E3 E4 Hb Hu Hs] _]. unfold stream_ListEnd. rewrite E4, Z.eqb_refl. cbn [negb].
  destruct Hs as (Hp & Hsz & Hpar & Hst). eexists. split; [done|]. split; [|done]. destruct st as [|[p s2] st].
  - split; cbn; try done.
  - pose proof Hst as (Hp2 & Hs2 & _). split; cbn; try done.
    + rewrite u64_id; [done|]. unfold is_u64 in *. lia.
    + destruct Hst as (? & ? & ? & ?). split_and!; try done; lia.
Qed.
Lemma ListEnd_sound s inp p sz st : ready s inp ((p, sz) :: st) →
  match stream_ListEnd s with SOk _ s' => p = sz ∧ ready s' inp (advance sz st) | SErr e _ => e ≠ EOL | SFuel => False end.
Proof.
  intros R. destruct (Z.eq_dec p sz) as [->|Hne].
  - by destruct (ListEnd_ok s inp sz st R) as (s' & -> & R').
  - destruct R as [[_ _ _ E4 _ _ _] _]. unfold stream_ListEnd. rewrite E4. by destruct (Z.eqb_spec p sz).
Qed.
(** The content of a list: read from the top to the end of an open list. *)
Definition reads_all {A} (m : SM A) (a : A) (content : bytes) : Prop :=
  ∀ s rest p st, ready s (content ++ rest) ((p, p + zlen content) :: st) →
  ∃ s', m s = SOk a s' ∧ ready s' rest ((p + zlen content, p + zlen content) :: st).
Definition yields_all {A} (n : nat) (m : SM A) (P : A → bytes → Prop) : Prop :=
  ∀ s inp p sz st, ready s inp ((p, sz) :: st) → (length inp ≤ n)%nat →
  match m s with
  | SOk a s' => ∃ content rest q, inp = content ++ rest ∧ q = p + zlen content ∧ ready s' rest ((q, sz) :: st) ∧ P a content
  | SErr e _ => e ≠ EOL
  | SFuel => False
  end.

Lemma list_reads {A} (k : Z → SM A) a c :
  (∀ s rest st, ready s (c ++ rest) ((0, zlen c) :: st) → ∃ s', k (zlen c) s = SOk a s' ∧ ready s' rest (advance (zlen c) st)) →
  reads (S_bind (S_map_err wrapStreamError stream_List) k) a (rlp_list c).
Proof.
  intros H s rest st R Hf. destruct (List_reads s c rest st R Hf) as (s' & E & R').
  unfold S_bind, S_map_err. rewrite E. destruct (H s' rest _ R') as (s2 & E2 & R2). exists s2. split; [done|].
  rewrite advance_add in R2. unfold rlp_list. by rewrite zlen_app.
Qed.
Lemma list_yields {A} n (k : Z → SM A) (P : A → bytes → Prop) :
  (∀ size s inp st, ready s inp ((0, size) :: st) → (S (length inp) ≤ n)%nat →
    match k size s with
    | SOk a s' => ∃ c rest, inp = c ++ rest ∧ zlen c = size ∧ ready s' rest (advance size st) ∧ P a c
    | SErr e _ => e ≠ EOL
    | SFuel => False
    end) →
  yields n (S_bind (S_map_err wrapStreamError stream_List) k) (λ a enc, ∃ c, enc = rlp_list c ∧ P a c).
Proof.
  intros H s inp st R Hn. unfold S_bind, S_map_err, stream_List, S_bind.
  destruct (Kind_spec s inp st R) as [(Ha & s' & -> & R')|[(_ & e & s' & -> & He)|(_ & kd & size & s' & rest & -> & P' & Hp & Hf)]].
  { done. } { destruct (wrapStreamError e) eqn:E; try done. by apply wrap_EOL in E. }
  destruct kd; cbn beta iota zeta; [done|done|]. destruct Hp as [-> Hu]. unfold S_modify, S_ret.
  assert (R1 : ready (set_ssize 0 (set_kind None (set_stack ((0, size) :: stack s') s'))) rest ((0, size) :: advance (hlen KList size) st)).
  { eapply ready_push; [exact P'|done|by rewrite fits_advance|done]. }
  pose proof (hlen_pos KList size Hu) as Hh. unfold hlen, zlen in Hh. rewrite length_app in Hn.
  specialize (H size _ rest _ R1 ltac:(lia)). destruct (k size _) as [a s2|e s2|]; [|by destruct e|done].
  destruct H as (c & rest' & -> & <- & R2 & Pc). rewrite advance_add in R2.
  exists (rlp_list c), rest'. unfold rlp_list at 1 3 4. fold (kind_head KList (zlen c)). rewrite zlen_app, <- app_assoc.
  split_and!; [done| |done|done|by exists c]. unfold rlp_list, rlp_head. by destruct (_ <? _).
Qed.
(** The end of a list, after its content. *)
Lemma list_end_reads {A B} (m : SM A) (f : A → B) g a c s rest st : reads_all m a c → ready s (c ++ rest) ((0, zlen c) :: st) →
  ∃ s', S_bind m (λ a, S_bind (S_map_err g stream_ListEnd) (λ _, S_ret (f a))) s = SOk (f a) s' ∧ ready s' rest (advance (zlen c) st).
Proof.
  intros H R. destruct (H s rest 0 st R) as (s' & E & R'). unfold S_bind. rewrite E.
  destruct (ListEnd_ok _ _ _ _ R') as (s2 & E2 & R2). unfold S_map_err. rewrite E2. by exists s2.
Qed.
Lemma list_end_yields {A B} n (m : SM A) (f : A → B) g (P : A → bytes → Prop) size s inp st :
  (∀ e, g e = EOL → e = EOL) → yields_all n m P → ready s inp ((0, size) :: st) → (length inp ≤ n)%nat →
  match S_bind m (λ a, S_bind (S_map_err g stream_ListEnd) (λ _, S_ret (f a))) s with
  | SOk b s' => ∃ c rest, inp = c ++ rest ∧ zlen c = size ∧ ready s' rest (advance size st) ∧ ∃ a, b = f a ∧ P a c
  | SErr e _ => e ≠ EOL
  | SFuel => False
  end.
Proof.
  intros Hg H R Hn. specialize (H s inp 0 size st R Hn). unfold S_bind. destruct (m s) as [a s'|e s'|]; [|done|done].
  destruct H as (c & rest & q & -> & -> & R' & Pa). pose proof (ListEnd_sound _ _ _ _ _ R') as Hl. unfold S_map_err.
  destruct (stream_ListEnd s') as [[] s2|e s2|]; [|by intros ?%Hg|done]. destruct Hl as [Hq R2]. rewrite Z.add_0_l in Hq.
  exists c, rest. split_and!; [done|done|done|by exists a].
Qed.

(** Elements of a slice. *)
Definition items_read (elemdec : SM gval) (vs : list gval) (encs : list bytes) : Prop :=
  Forall2 (λ v enc, reads elemdec v enc ∧ enc ≠ []) vs encs.
Lemma slice_elems_read elemdec vs encs fuel : ends elemdec → items_read elemdec vs encs → (length vs < fuel)%nat →
  reads_all (decodeSliceElems elemdec fuel) vs (concat encs).
Proof.
  intros He H. revert fuel. induction H as [|v enc vs encs [Hr Hne] _ IH]; intros fuel Hf s rest p st R; (destruct fuel as [|fuel]; [cbn in Hf; lia|]);
    cbn [decodeSliceElems concat] in *.
  - change (zlen (@nil Z)) with 0 in *. rewrite Z.add_0_r in *. destruct (He s rest _ R) as (s' & -> & R'); [done|]. by exists s'.
  - rewrite <- app_assoc in R. rewrite zlen_app in *. pose proof (zlen_nonneg (concat encs)).
    destruct (Hr s (concat encs ++ rest) _ R) as (s' & -> & R'); [cbn; lia|]. cbn [advance] in R'.
    rewrite Z.add_assoc in *. destruct (IH fuel ltac:(cbn in Hf; lia) s' rest _ _ R') as (s2 & E2 & R2). unfold S_bind. rewrite E2. by exists s2.
Qed.
Definition items_yield (P : gval → bytes → Prop) (vs : list gval) (content : bytes) : Prop :=
  ∃ encs, content = concat encs ∧ Forall2 P vs encs.
Lemma slice_elems_yield n elemdec P : (∀ n', (n' ≤ n)%nat → yields n' elemdec P) → ∀ fuel, (n < fuel)%nat →
  yields_all n (decodeSliceElems elemdec fuel) (items_yield P).
Proof.
  revert elemdec. induction n as [n IH] using lt_wf_ind. intros elemdec H fuel Hf s inp p sz st R Hn.
  destruct fuel as [|fuel]; [lia|]. cbn [decodeSliceElems]. pose proof (H n (le_n n) s inp _ R Hn) as Hs.
  destruct (elemdec s) as [v s'|e s'|]; [| |done].
  - destruct Hs as (enc & rest & -> & Hne & Hfit & R' & Pv). rewrite length_app in Hn.
    assert (Hl : (1 ≤ length enc)%nat) by (destruct enc; [done|cbn; lia]). unfold S_bind.
    assert (HI : yields_all (length rest) (decodeSliceElems elemdec fuel) (items_yield P)).
    { apply (IH (length rest)); [lia| |lia]. intros n' Hn'. apply H. lia. }
    specialize (HI s' rest _ _ _ R' (le_n _)). destruct (decodeSliceElems elemdec fuel s') as [vs s2|e s2|]; [|done|done].
    destruct HI as (c & rest' & q & -> & -> & R2 & encs & -> & HF). exists (enc ++ concat encs), rest', (p + zlen (enc ++ concat encs)).
    rewrite app_assoc. rewrite zlen_app, Z.add_assoc. split_and!; [done|done|done|]. exists (enc :: encs). split; [done|by constructor].
  - destruct e; try done. destruct Hs as [_ R']. exists [], inp, p. change (zlen (@nil Z)) with 0. split_and!; [done|lia|done|].
    exists []. split; [done|constructor].
Qed.

(** Elements of an array. *)
Lemma array_elems_read elemdec vs encs : items_read elemdec vs encs → reads_all (decodeArrayElems elemdec (length vs)) vs (concat encs).
Proof.
  intros H. induction H as [|v enc vs encs [Hr Hne] _ IH]; intros s rest p st R; cbn [decodeArrayElems concat length] in *.
  - change (zlen (@nil Z)) with 0 in *. rewrite Z.add_0_r in *. by exists s.
  - rewrite <- app_assoc in R. rewrite zlen_app in *. pose proof (zlen_nonneg (concat encs)).
    destruct (Hr s (concat encs ++ rest) _ R) as (s' & -> & R'); [cbn; lia|]. cbn [advance] in R'.
    rewrite Z.add_assoc in *. destruct (IH s' rest _ _ R') as (s2 & E2 & R2). unfold S_bind. rewrite E2. by exists s2.
Qed.
Lemma array_elems_yield n elemdec P m : (∀ n', (n' ≤ n)%nat → yields n' elemdec P) →
  yields_all n (decodeArrayElems elemdec m) (λ vs c, length vs = m ∧ items_yield P vs c).
Proof.
  intros H. induction m as [|m IH]; intros s inp p sz st R Hn; cbn [decodeArrayElems].
  - exists [], inp, p. change (zlen (@nil Z)) with 0. split_and!; [done|lia|done|done|]. exists []. split; [done|constructor].
  - pose proof (H n (le_n n) s inp _ R Hn) as Hs. destruct (elemdec s) as [v s'|e s'|]; [|by destruct e|done].
    destruct Hs as (enc & rest & -> & Hne & Hfit & R' & Pv). rewrite length_app in Hn. unfold S_bind.
    specialize (IH s' rest _ _ _ R' ltac:(lia)). destruct (decodeArrayElems elemdec m s') as [vs s2|e s2|]; [|done|done].
    destruct IH as (c & rest' & q & -> & -> & R2 & Hl & encs & -> & HF). exists (enc ++ concat encs), rest', (p + zlen (enc ++ concat encs)).
    rewrite app_assoc. rewrite zlen_app, Z.add_assoc. split_and!; [done|done|done|cbn; lia|]. exists (enc :: encs). split; [done|by constructor].
Qed.

(** The fields of a struct, one after the other. *)
Lemma field_reads {A B C} (m : SM A) (rest : SM B) (f : A → B → C) a b enc c : reads m a enc → reads_all rest b c →
  reads_all (S_bind (S_field m) (λ a, S_bind rest (λ b, S_ret (f a b)))) (f a b) (enc ++ c).
Proof.
  intros Hm Hr s inp p st R. rewrite <- app_assoc in R. rewrite zlen_app in *. pose proof (zlen_nonneg c).
  destruct (Hm s (c ++ inp) _ R) as (s' & E & R'); [cbn; lia|]. cbn [advance] in R'. rewrite Z.add_assoc in *.
  destruct (Hr s' inp _ _ R') as (s2 & E2 & R2). exists s2. unfold S_bind, S_field. by rewrite E, E2.
Qed.
Lemma field_yields {A B C} n (m : SM A) (rest : SM B) (f : A → B → C) (P : A → bytes → Prop) (Q : B → bytes → Prop) :
  yields n m P → yields_all n rest Q →
  yields_all n (S_bind (S_field m) (λ a, S_bind rest (λ b, S_ret (f a b)))) (λ v c, ∃ a b enc c', v = f a b ∧ c = enc ++ c' ∧ P a enc ∧ Q b c').
Proof.
  intros Hm Hr s inp p sz st R Hn. unfold S_bind, S_field. specialize (Hm s inp _ R Hn).
  destruct (m s) as [a s'|e s'|]; [|by destruct e|done]. destruct Hm as (enc & inp' & -> & _ & _ & R' & Pa). rewrite length_app in Hn.
  specialize (Hr s' inp' _ _ _ R' ltac:(lia)). destruct (rest s') as [b s2|e s2|]; [|done|done].
  destruct Hr as (c' & inp2 & q & -> & -> & R2 & Qb). exists (enc ++ c'), inp2, (p + zlen (enc ++ c')).
  rewrite app_assoc. rewrite zlen_app, Z.add_assoc. split_and!; [done|done|done|]. by exists a, b, enc, c'.
Qed.
Lemma ret_reads_all {A} (a : A) : reads_all (S_ret a) a [].
Proof. intros s rest p st R. change (zlen (@nil Z)) with 0 in *. rewrite Z.add_0_r in *. by exists s. Qed.
Lemma ret_yields_all {A} n (a : A) : yields_all n (S_ret a) (λ v c, v = a ∧ c = []).
Proof. intros s inp p sz st R _. exists [], inp, p. change (zlen (@nil Z)) with 0. split_and!; [done|lia|done|done|done]. Qed.
Lemma yields_all_weaken {A} n (m : SM A) (P Q : A → bytes → Prop) : yields_all n m P → (∀ a c, P a c → Q a c) → yields_all n m Q.
Proof.
  intros H Hf s inp p sz st R Hn. specialize (H s inp p sz st R Hn). destruct (m s) as [a s'|e s'|]; [|done|done].
  destruct H as (c & rest & q & ? & ? & ? & ?). exists c, rest, q. eauto.
Qed.
Lemma reads_all_map {A B} (m : SM A) (f : A → B) a c : reads_all m a c → reads_all (S_field (S_bind m (λ a, S_ret (f a)))) (f a) c.
Proof.
  intros H s rest p st R. destruct (H s rest p st R) as (s' & E & R'). exists s'. unfold S_field, S_bind. by rewrite E.
Qed.
Lemma yields_all_map {A B} n (m : SM A) (f : A → B) (P : A → bytes → Prop) : yields_all n m P →
  yields_all n (S_field (S_bind m (λ a, S_ret (f a)))) (λ b c, ∃ a, b = f a ∧ P a c).
Proof.
  intros H s inp p sz st R Hn. specialize (H s inp p sz st R Hn). unfold S_field, S_bind, S_ret.
  destruct (m s) as [a s'|e s'|]; [|by destruct e|done]. destruct H as (c & rest & q & ? & ? & ? & ?). exists c, rest, q. split_and!; try done. by exists a.
Qed.

(** ** A second look at the kind *)

Lemma Kind_twice s ks s' : stream_Kind s = SOk ks s' → stream_Kind s' = SOk ks s'.
Proof.
  unfold stream_Kind at 1. destruct (kind s) as [k|] eqn:Ek.
  - destruct (kinderr s) eqn:Ee; [done|]. intros [= <- <-]. unfold stream_Kind. by rewrite Ek, Ee.
  - destruct (match stack (set_kinderr None s) with [] => false | _ => _ end); [done|].
    destruct (stream_readKind _) as [[[k size] err] s1]. cbn [kinderr set_kinderr].
    destruct (match err with Some e => Some e | None => _ end); [done|]. by intros [= <- <-].
Qed.
Definition peeks {A} (m : SM A) : Prop := ∀ s ks s', stream_Kind s = SOk ks s' → m s' = m s.
Lemma peeks_Kind : peeks stream_Kind.
Proof. intros s ks s' E. rewrite E. by eapply Kind_twice. Qed.
Lemma peeks_bind {A B} (m : SM A) (k : A → SM B) : peeks m → peeks (S_bind m k).
Proof. intros H s ks s' E. unfold S_bind. by rewrite (H _ _ _ E). Qed.
Lemma peeks_map_err {A} g (m : SM A) : peeks m → peeks (S_map_err g m).
Proof. intros H s ks s' E. unfold S_map_err. by rewrite (H _ _ _ E). Qed.
Lemma peeks_list fuel elemdec : peeks (decodeListSlice elemdec fuel).
Proof. apply peeks_bind, peeks_map_err, peeks_bind, peeks_Kind. Qed.
Lemma decode_peeks t fuel : peeks (decode fuel t).
Proof.
  induction t; cbn [decode].
  1: apply peeks_bind, peeks_map_err, peeks_bind, peeks_Kind.
  1: apply peeks_bind, peeks_map_err, peeks_bind, peeks_bind, peeks_Kind.
  1-2: apply peeks_bind, peeks_map_err, peeks_bind, peeks_Kind.
  - apply peeks_bind, peeks_Kind.
  - apply peeks_list.
  - apply peeks_bind, peeks_map_err, peeks_bind, peeks_Kind.
  - apply peeks_bind, peeks_map_err, peeks_bind, peeks_Kind.
  - by apply peeks_bind.
  - intros s ks s' E. unfold decodeOptionalPtr. by rewrite E, (Kind_twice _ _ _ E).
  - destruct fuel; [done|]. apply peeks_bind, peeks_Kind.
Qed.
Lemma decode_ends t fuel : (0 < fuel)%nat → ends (decode fuel t).
Proof.
  intros Hf. induction t; cbn [decode].
  1: apply ends_bind, ends_map_err, ends_bind, Kind_ends; done.
  1: apply ends_bind, ends_map_err, ends_bind, ends_bind, Kind_ends; done.
  1-2: apply ends_bind, ends_map_err, ends_bind, Kind_ends; done.
  - apply ends_bind, Kind_ends.
  - apply ends_bind, ends_map_err, ends_bind, Kind_ends; done.
  - apply ends_bind, ends_map_err, ends_bind, Kind_ends; done.
  - apply ends_bind, ends_map_err, ends_bind, Kind_ends; done.
  - by apply ends_bind.
  - intros s inp st R Ha. destruct (Kind_ends s inp st R Ha) as (s' & E & R'). unfold decodeOptionalPtr. rewrite E.
    eexists. split; [done|]. destruct R' as [[] ?]. by split.
  - destruct fuel; [lia|]. apply ends_bind, Kind_ends.
Qed.

(** ** Slices and interfaces *)

Lemma ListSlice_reads elemdec vs encs fuel : ends elemdec → items_read elemdec vs encs → (length vs < fuel)%nat →
  reads (decodeListSlice elemdec fuel) (GList vs) (rlp_list (concat encs)).
Proof.
  intros He H Hf. unfold decodeListSlice. apply list_reads. intros s rest st R.
  pose proof (list_end_reads _ GList id _ _ s rest st (slice_elems_read elemdec vs encs fuel He H Hf) R) as Hl.
  destruct (Z.eqb_spec (zlen (concat encs)) 0) as [E0|].
  - assert (encs = []) as ->.
    { destruct encs as [|enc encs]; [done|]. inversion H as [|? ? ? ? [_ Hne]]; subst. cbn in E0. rewrite zlen_app in E0.
      destruct enc; [done|]. rewrite zlen_cons in E0. pose proof (zlen_nonneg enc). pose proof (zlen_nonneg (concat encs)). lia. }
    inversion H; subst. cbn in R. destruct (ListEnd_ok _ _ _ _ R) as (s' & E & R'). unfold S_bind. rewrite E. by exists s'.
  - destruct Hl as (s' & E & R'). exists s'. split; [|done]. rewrite <- E. unfold S_bind, S_map_err. by destruct (decodeSliceElems _ _ _) as [? t|? ?|]; [destruct (stream_ListEnd t)|..].
Qed.
Lemma ListSlice_yields n elemdec P fuel : (∀ n', (n' < n)%nat → yields n' elemdec P) → (n < fuel)%nat →
  yields n (decodeListSlice elemdec fuel) (λ v enc, ∃ vs encs, v = GList vs ∧ enc = rlp_list (concat encs) ∧ Forall2 P vs encs).
Proof.
  intros H Hf. eapply yields_weaken.
  - unfold decodeListSlice. apply (list_yields n _ (λ v c, ∃ vs, v = GList vs ∧ items_yield P vs c)). intros size s inp st R Hn.
    destruct (Z.eqb_spec size 0) as [->|Hne].
    + unfold S_bind, S_ret. destruct (ListEnd_ok _ _ _ _ R) as (s' & -> & R'). exists [], inp. split_and!; [done|done|done|].
      exists []. split; [done|]. exists []. split; [done|constructor].
    + assert (Hel : yields_all (length inp) (decodeSliceElems elemdec fuel) (items_yield P)).
      { apply slice_elems_yield; [|lia]. intros n' Hn'. apply H. lia. }
      pose proof (list_end_yields _ _ GList id _ _ _ _ _ (λ e H, H) Hel R (le_n _)) as Hl.
      unfold S_bind, S_map_err in Hl |- *. destruct (decodeSliceElems _ _ _) as [vs t|? ?|]; [|done|done].
      destruct (stream_ListEnd t) as [[] t2|? ?|]; [|done|done]. exact Hl.
  - intros v enc (c & -> & vs & -> & encs & -> & HF). by exists vs, encs.
Qed.

Fixpoint iface_ok (v : gval) : Prop :=
  match v with
  | GBytes b => is_bytes b
  | GList l => fold_right (λ v P, iface_ok v ∧ P) True l
  | _ => False
  end.
Lemma iface_ok_list l : iface_ok (GList l) ↔ Forall iface_ok l.
Proof. cbn. induction l as [|v l IH]; cbn; [by rewrite Forall_nil|]. by rewrite Forall_cons, IH. Qed.
Lemma interface_yields fuel : ∀ n, (S n < fuel)%nat → yields n (decodeInterface fuel) (λ v enc, enc = rlp (interface_val v) ∧ iface_ok v).
Proof.
  induction fuel as [|fuel IH]; intros n Hf s inp st R Hn; [lia|]. cbn [decodeInterface]. unfold S_bind at 1.
  destruct (stream_Kind s) as [[k size] s'|e s'|] eqn:E.
  - destruct k; cbn [fst].
    1,2: rewrite (peeks_bind stream_Bytes (λ b, S_ret (GBytes b)) (peeks_bind _ _ peeks_Kind) _ _ _ E);
      eapply (yields_map n _ _ _ _ (Bytes_yields n)); [|done|done]; intros b enc [-> Hb]; by split.
    rewrite (peeks_list fuel _ _ _ _ E).
    assert (Hl : yields n (decodeListSlice (decodeInterface fuel) fuel) (λ v enc, enc = rlp (interface_val v) ∧ iface_ok v)).
    { eapply yields_weaken; [apply (ListSlice_yields n _ (λ v enc, enc = rlp (interface_val v) ∧ iface_ok v)); [|lia]|].
      - intros n' Hn'. apply IH. lia.
      - intros v enc (vs & encs & -> & -> & HF). rewrite iface_ok_list. cbn [interface_val rlp]. rewrite map_map. split.
        + do 2 f_equal. induction HF as [|? ? ? ? [-> _]]; [done|]. cbn. by f_equal.
        + induction HF as [|? ? ? ? [_ ?]]; by constructor. }
    by apply (Hl s inp st).
  - pose proof (Kind_spec s inp st R) as HK. rewrite E in HK.
    destruct HK as [(Ha & s2 & [= -> ->] & R')|[(_ & e2 & s2 & [= -> ->] & He)|(_ & ? & ? & ? & ? & ? & _)]]; [done|by destruct e2|done].
  - pose proof (Kind_spec s inp st R) as HK. rewrite E in HK. by destruct HK as [(_ & ? & ? & _)|[(_ & ? & ? & ? & _)|(_ & ? & ? & ? & ? & ? & _)]].
Qed.
Lemma gval_ind' (P : gval → Prop) (HU : ∀ i, P (GUint i)) (HB : ∀ b, P (GBool b)) (HG : ∀ i, P (GBig i)) (HS : ∀ b, P (GBytes b))
  (HL : ∀ l, Forall P l → P (GList l)) (HP : ∀ v, P v → P (GPtr v)) (HN : P GNil) : ∀ v, P v.
Proof.
  fix IH 1. intros [i|b|i|b|l|v|]; [apply HU|apply HB|apply HG|apply HS| |by apply HP|apply HN].
  apply HL. revert l. fix IHl 1. intros [|v l]; constructor; [apply IH|apply IHl].
Qed.
Lemma concat_length_ge (encs : list bytes) : Forall (λ e, e ≠ []) encs → (length encs ≤ length (concat encs))%nat.
Proof. induction 1 as [|e encs He _ IH]; [done|]. cbn. rewrite length_app. destruct e; [done|]. cbn. lia. Qed.
Lemma length_rlp_list c : (length c < length (rlp_list c))%nat.
Proof. unfold rlp_list, rlp_head. rewrite length_app. destruct (_ <? _); cbn; lia. Qed.
Lemma items_rlp (f : gval → val) l : Forall (λ e : bytes, e ≠ []) (map rlp (map f l)).
Proof. rewrite map_map. induction l; constructor; [apply rlp_nonempty|done]. Qed.
Lemma length_items (f : gval → val) l : (length l ≤ length (concat (map rlp (map f l))))%nat.
Proof. rewrite <- concat_length_ge by apply items_rlp. by rewrite !length_map. Qed.
Lemma length_item (f : gval → val) v l : v ∈ l → (length (rlp (f v)) ≤ length (concat (map rlp (map f l))))%nat.
Proof.
  intros H. assert (Hz : zlen (rlp (f v)) ≤ zlen (concat (map rlp (map f l)))); [|unfold zlen in Hz; lia].
  apply zlen_concat_le. rewrite map_map. by apply (list_elem_of_fmap_2 (λ x, rlp (f x))).
Qed.
Lemma items_read_rlp (m : SM gval) (f : gval → val) l : (∀ v, v ∈ l → reads m v (rlp (f v))) → items_read m l (map rlp (map f l)).
Proof.
  intros H. rewrite map_map. unfold items_read. induction l as [|v l IH]; constructor.
  - split; [apply H; by left|apply rlp_nonempty].
  - apply IH. intros w Hw. apply H. by right.
Qed.

Lemma interface_reads v : iface_ok v → ∀ fuel, (length (rlp (interface_val v)) < fuel)%nat → reads (decodeInterface fuel) v (rlp (interface_val v)).
Proof.
  induction v as [i|b|i|b|l IH|v IH|] using gval_ind'; try done; intros Hok fuel Hf; (destruct fuel as [|fuel]; [lia|]); intros s rest st R Hfit.
  - cbn [interface_val rlp] in *. cbn [decodeInterface]. pose proof (reads_map _ GBytes _ _ (Bytes_reads b) s rest st R Hfit) as (s2 & E2 & R2).
    exists s2. split; [|done]. unfold S_bind at 1. destruct (rlp_bytes_cases b) as [(x & -> & Hx & E)|[E Hx]]; rewrite E in R, Hfit.
    + destruct (Kind_byte x s rest st R Hx Hfit) as (s' & EK & _). rewrite EK. cbn [fst].
      by rewrite (peeks_bind stream_Bytes (λ b, S_ret (GBytes b)) (peeks_bind _ _ peeks_Kind) _ _ _ EK).
    + destruct (Kind_string s b rest st R Hfit) as (s' & EK & _). rewrite EK. cbn [fst].
      by rewrite (peeks_bind stream_Bytes (λ b, S_ret (GBytes b)) (peeks_bind _ _ peeks_Kind) _ _ _ EK).
  - cbn [interface_val rlp] in Hf, R, Hfit |- *. pose proof (length_rlp_list (concat (map rlp (map interface_val l)))) as Hll.
    assert (Hl : reads (decodeListSlice (decodeInterface fuel) fuel) (GList l) (rlp_list (concat (map rlp (map interface_val l))))).
    { apply ListSlice_reads.
      - destruct fuel; [lia|]. exact (decode_ends TInterface (S fuel) ltac:(lia)).
      - apply items_read_rlp. intros v Hv. rewrite Forall_forall in IH. apply IH; [done| |].
        + apply iface_ok_list in Hok. rewrite Forall_forall in Hok. by apply Hok.
        + pose proof (length_item interface_val v l Hv). lia.
      - pose proof (length_items interface_val l). lia. }
    destruct (Hl s rest st R Hfit) as (s2 & E2 & R2). exists s2. split; [|done]. cbn [decodeInterface]. unfold S_bind at 1.
    destruct (List_reads s _ rest st R Hfit) as (s3 & E3 & _). unfold stream_List, S_bind in E3.
    destruct (stream_Kind s) as [[k size] s'|e s'|] eqn:EK; [|done|done]. destruct k; try done. cbn [fst].
    by rewrite (peeks_list fuel _ _ _ _ EK).
Qed.

(** ** Types *)

Section TypInd.
Variable P : typ → Prop.
Hypotheses (HU : ∀ b, P (TUint b)) (HB : P TBool) (HG : P TBig) (HS : P TBytes) (HA : ∀ n, P (TByteArray n))
  (HL : ∀ t, P t → P (TSlice t)) (HR : ∀ n t, P t → P (TArray n t))
  (HF : ∀ fs tail, Forall P fs → match tail with Some t => P t | None => True end → P (TStruct fs tail))
  (HP : ∀ t, P t → P (TPtr t)) (HO : ∀ t, P t → P (TOptPtr t)) (HI : P TInterface).
Lemma typ_ind' : ∀ t, P t.
Proof.
  fix IH 1. intros [b| | | |n|t|n t|fs tail|t|t|]; [apply HU|apply HB|apply HG|apply HS|apply HA|by apply HL|by apply HR| |by apply HP|by apply HO|apply HI].
  apply HF.
  - revert fs. fix IHl 1. intros [|f fs]; constructor; [apply IH|apply IHl].
  - destruct tail as [u|]; [apply IH|exact I].
Qed.
End TypInd.
(** A predicate on a type and all its parts. *)
Fixpoint typ_all (P : typ → Prop) (t : typ) : Prop :=
  P t ∧
  match t with
  | TSlice t | TArray _ t | TPtr t | TOptPtr t => typ_all P t
  | TStruct fs tail => fold_right (λ f Q, typ_all P f ∧ Q) (match tail with Some t => typ_all P t | None => True end) fs
  | _ => True
  end.
Lemma typ_all_struct P fs tail : typ_all P (TStruct fs tail) → Forall (typ_all P) fs ∧ ∀ t, tail = Some t → typ_all P t.
Proof.
  intros [_ H]. induction fs as [|f fs IH]; cbn in H.
  - split; [constructor|]. by intros t ->.
  - destruct H as [Hf H]. destruct (IH H) as [? ?]. split; [by constructor|done].
Qed.
(** Unsigned integers of Go's widths. *)
Definition typ_ok : typ → Prop := typ_all (λ t, match t with TUint bits => bits_ok bits | _ => True end).
(** No array of one byte, and no pointer that an empty value makes nil. *)
Definition strict : typ → Prop := typ_all (λ t, match t with TByteArray n => n ≠ 1%nat | TOptPtr _ => False | _ => True end).

(** An encoding that a nil pointer does not have. *)
Definition nonempty_enc (b : bytes) : Prop := head b ≠ Some 0x80 ∧ head b ≠ Some 0xC0.
Definition fields_typed (ht : typ → gval → Prop) (tail : option typ) : list typ → list gval → Prop :=
  fix go fs vs :=
    match fs, vs with
    | f :: fs, v :: vs => ht f v ∧ go fs vs
    | [], [] => tail = None
    | [], [GList l] => match tail with Some t => Forall (ht t) l | None => False end
    | _, _ => False
    end.
(** The values of a type that encoding and decoding keep: an array of one byte
    does not hold zero, and an optional pointer is nil or does not point to an
    empty value. *)
Fixpoint has_type (t : typ) (v : gval) : Prop :=
  match t, v with
  | TUint bits, GUint i => 0 ≤ i < 2 ^ bits
  | TBool, GBool _ => True
  | TBig, GBig i => 0 ≤ i
  | TBytes, GBytes b => is_bytes b
  | TByteArray n, GBytes b => is_bytes b ∧ length b = n ∧ b ≠ [0]
  | TSlice t, GList l => Forall (has_type t) l
  | TArray n t, GList l => length l = n ∧ Forall (has_type t) l
  | TStruct fs tail, GList vs =>
      (fix go fs vs :=
        match fs, vs with
        | f :: fs, v :: vs => has_type f v ∧ go fs vs
        | [], [] => tail = None
        | [], [GList l] => match tail with Some t => Forall (has_type t) l | None => False end
        | _, _ => False
        end) fs vs
  | TPtr t, GPtr v => has_type t v
  | TOptPtr _, GNil => True
  | TOptPtr t, GPtr v => has_type t v ∧ nonempty_enc (rlp (val_of t v))
  | TInterface, v => iface_ok v
  | _, _ => False
  end.
Definition fields_val (vo : typ → gval → val) (tail : option typ) : list typ → list gval → list val :=
  fix go fs vs :=
    match fs, vs with
    | f :: fs, v :: vs => vo f v :: go fs vs
    | [], [GList l] => match tail with Some t => map (vo t) l | None => [] end
    | _, _ => []
    end.
Definition decodeFields (dec : typ → SM gval) (fuel : nat) (tail : option typ) : list typ → SM (list gval) :=
  fix go fs :=
    match fs with
    | [] =>
        match tail with
        | Some t => S_field (S_bind (decodeSliceElems (dec t) fuel) (λ vs, S_ret [GList vs]))
        | None => S_ret []
        end
    | f :: fs => S_bind (S_field (dec f)) (λ v, S_bind (go fs) (λ vs, S_ret (v :: vs)))
    end.
Lemma has_type_struct fs tail vs : has_type (TStruct fs tail) (GList vs) = fields_typed has_type tail fs vs.
Proof. done. Qed.
Lemma val_of_struct fs tail vs : val_of (TStruct fs tail) (GList vs) = VList (fields_val val_of tail fs vs).
Proof. done. Qed.
Lemma decode_struct fuel fs tail : decode fuel (TStruct fs tail) =
  S_bind (S_map_err wrapStreamError stream_List) (λ _, S_bind (decodeFields (decode fuel) fuel tail fs)
    (λ vs, S_bind (S_map_err wrapStreamError stream_ListEnd) (λ _, S_ret (GList vs)))).
Proof. done. Qed.

(** ** Decoding what was encoded *)

Lemma rlp_cases w : (∃ b, rlp w = rlp_bytes b) ∨ ∃ c, rlp w = rlp_list c.
Proof. destruct w; cbn [rlp]; eauto. Qed.
(** The kind of an encoded value; size 0 is the encoding of an empty one. *)
Lemma Kind_value w s rest st : ready s (rlp w ++ rest) st → fits_in st (zlen (rlp w)) →
  ∃ k size s', stream_Kind s = SOk (k, size) s' ∧ (nonempty_enc (rlp w) → (size =? 0) && negb (bool_decide (k = KByte)) = false).
Proof.
  intros R Hf. destruct (rlp_cases w) as [[b E]|[c E]]; rewrite E in *.
  - destruct (rlp_bytes_cases b) as [(x & -> & Hx & E2)|[E2 Hx]]; rewrite E2 in *.
    + destruct (Kind_byte x s rest st R Hx Hf) as (s' & -> & _). by eexists _, _, _.
    + destruct (Kind_string s b rest st R Hf) as (s' & -> & _). eexists _, _, _. split; [done|]. intros [H1 _].
      destruct (Z.eqb_spec (zlen b) 0) as [E0|]; [|done]. destruct b; [done|]. rewrite zlen_cons in E0. pose proof (zlen_nonneg b). lia.
  - destruct (List_reads s c rest st R Hf) as (s2 & E2 & _). unfold stream_List, S_bind in E2.
    destruct (stream_Kind s) as [[k size] s'|e s'|]; [|done|done]. eexists _, _, _. split; [done|]. intros [_ H2].
    destruct k; try done. injection E2 as -> _. destruct (Z.eqb_spec (zlen c) 0) as [E0|]; [|done].
    destruct c; [done|]. rewrite zlen_cons in E0. pose proof (zlen_nonneg c). lia.
Qed.
Lemma nil_val_enc t : ∃ k, k ≠ KByte ∧ rlp (nil_val t) = kind_head k 0.
Proof. induction t; try done; try (by exists KString); by exists KList. Qed.
Lemma OptionalPtr_nil fuel t : reads (decodeOptionalPtr (decode fuel t)) GNil (rlp (nil_val t)).
Proof.
  destruct (nil_val_enc t) as (k & Hk & ->). intros s rest st R Hf. unfold decodeOptionalPtr.
  assert (Hh : hlen k 0 = zlen (kind_head k 0)) by (by destruct k).
  destruct (Kind_head k 0 s rest st Hk R) as (s' & -> & P); [done|by rewrite Hh, Z.add_0_r|apply zlen_nonneg|].
  rewrite Z.eqb_refl, bool_decide_false by done. eexists. split; [done|]. rewrite <- Hh. by eapply rearm_peeked.
Qed.
Lemma OptionalPtr_reads fuel t w v : reads (decode fuel t) v (rlp w) → nonempty_enc (rlp w) →
  reads (decodeOptionalPtr (decode fuel t)) (GPtr v) (rlp w).
Proof.
  intros H Hne s rest st R Hf. unfold decodeOptionalPtr. destruct (Kind_value w s rest st R Hf) as (k & size & s' & E & Hk).
  rewrite E, (Hk Hne). destruct (H s rest st R Hf) as (s2 & E2 & R2). unfold S_bind.
  rewrite (decode_peeks t fuel _ _ _ E), E2. by exists s2.
Qed.
Lemma Bool_reads b : reads stream_Bool b (rlp_bytes (if b then [1] else [])).
Proof.
  intros s rest st R Hf. unfold stream_Bool, S_bind.
  assert (H : reads (stream_uint 8) (if b then 1 else 0) (rlp_bytes (Big.Bytes (if b then 1 else 0)))).
  { apply uint_reads; [by left|by destruct b]. }
  assert (E : Big.Bytes (if b then 1 else 0) = if b then [1] else []) by (by destruct b). rewrite E in H.
  destruct (H s rest st R Hf) as (s' & -> & R'). exists s'. by destruct b.
Qed.
Lemma BigInt_reads i : 0 ≤ i → reads decodeBigInt (GBig i) (rlp_bytes (Big.Bytes i)).
Proof.
  intros Hi s rest st R Hf. destruct (reads_map_err wrapStreamError _ _ _ (Bytes_reads (Big.Bytes i)) s rest st R Hf) as (s' & E & R').
  unfold decodeBigInt, S_bind. rewrite E. exists s'. split; [|done].
  assert (Ei : Big.SetBytes (Big.Bytes i) = i) by (rewrite Big.SetBytes_Bytes; lia).
  destruct (Z.eq_dec i 0) as [->|Hi0]; [done|]. destruct (Big.Bytes_head i Hi0) as (b & l & Eb & Hb). rewrite Eb in *.
  destruct b; [lia| |lia]. unfold S_ret. by rewrite Ei.
Qed.

Lemma fields_read fuel tail fs vs : (0 < fuel)%nat → fields_typed has_type tail fs vs →
  Forall (λ t, ∀ v, has_type t v → (length (rlp (val_of t v)) < fuel)%nat → reads (decode fuel t) v (rlp (val_of t v))) fs →
  match tail with Some t => ∀ v, has_type t v → (length (rlp (val_of t v)) < fuel)%nat → reads (decode fuel t) v (rlp (val_of t v)) | None => True end →
  (length (concat (map rlp (fields_val val_of tail fs vs))) < fuel)%nat →
  reads_all (decodeFields (decode fuel) fuel tail fs) vs (concat (map rlp (fields_val val_of tail fs vs))).
Proof.
  intros H0 Ht HF Htl. revert vs Ht. induction HF as [|f fs Hf _ IH]; intros vs Ht Hl.
  - destruct vs as [|[| | | |l| |] [|? ?]]; try done.
    { cbn in Ht. subst tail. apply ret_reads_all. }
    cbn in Ht. destruct tail as [t|]; [|done]. cbn [decodeFields fields_val] in *.
    apply (reads_all_map _ (λ vs, [GList vs])). apply slice_elems_read; [by apply decode_ends| |].
    + apply items_read_rlp. intros v Hv. rewrite Forall_forall in Ht. apply Htl; [by apply Ht|].
      pose proof (length_item (val_of t) v l Hv). lia.
    + pose proof (length_items (val_of t) l). lia.
  - destruct vs as [|v vs]; [done|]. destruct Ht as [Hv Ht]. cbn [fields_val map concat] in Hl |- *. rewrite length_app in Hl.
    cbn [decodeFields]. apply field_reads; [apply Hf; [done|lia]|apply IH; [done|lia]].
Qed.
Lemma elems_read fuel t l : (∀ v, has_type t v → (length (rlp (val_of t v)) < fuel)%nat → reads (decode fuel t) v (rlp (val_of t v))) →
  Forall (has_type t) l → (length (concat (map rlp (map (val_of t) l))) < fuel)%nat →
  items_read (decode fuel t) l (map rlp (map (val_of t) l)).
Proof.
  intros H Hl Hf. apply items_read_rlp. intros v Hv. rewrite Forall_forall in Hl. apply H; [by apply Hl|].
  pose proof (length_item (val_of t) v l Hv). lia.
Qed.
Lemma decode_reads t : typ_ok t → ∀ v fuel, has_type t v → (length (rlp (val_of t v)) < fuel)%nat →
  reads (decode fuel t) v (rlp (val_of t v)).
Proof.
  induction t as [bits| | | |m|t IH|m t IH|fs tail IHfs IHtl|t IH|t IH|] using typ_ind'; intros Hok v fuel Hv Hf.
  - destruct v; try done. apply (reads_map _ GUint), reads_map_err, uint_reads; [apply Hok|done].
  - destruct v; try done. apply (reads_map _ GBool), reads_map_err, Bool_reads.
  - destruct v; try done. by apply BigInt_reads.
  - destruct v; try done. apply (reads_map _ GBytes), reads_map_err, Bytes_reads.
  - destruct v; try done. destruct Hv as (_ & <- & Hb). by apply byte_array_reads.
  - destruct v as [| | | |l| |]; try done. destruct Hok as [_ Hok]. cbn [val_of rlp decode] in *.
    pose proof (length_rlp_list (concat (map rlp (map (val_of t) l)))). pose proof (length_items (val_of t) l).
    apply ListSlice_reads; [apply decode_ends; lia| |lia]. apply elems_read; [|done|lia]. intros. by apply IH.
  - destruct v as [| | | |l| |]; try done. destruct Hok as [_ Hok]. destruct Hv as [<- Hv]. cbn [val_of rlp decode] in *.
    pose proof (length_rlp_list (concat (map rlp (map (val_of t) l)))).
    unfold decodeListArray. apply list_reads. intros s rest st R. eapply (list_end_reads _ GList); [|exact R].
    apply array_elems_read, elems_read; [|done|lia]. intros. by apply IH.
  - destruct v as [| | | |vs| |]; try done. rewrite has_type_struct in Hv. rewrite val_of_struct in *. cbn [rlp] in *.
    apply typ_all_struct in Hok as [Hfs Htl]. rewrite decode_struct.
    pose proof (length_rlp_list (concat (map rlp (fields_val val_of tail fs vs)))).
    apply list_reads. intros s rest st R. eapply (list_end_reads _ GList); [|exact R].
    apply fields_read; [lia|done| | |lia].
    + rewrite Forall_forall in *. intros f Hin v ? ?. by apply IHfs; [|apply Hfs|..].
    + destruct tail as [t|]; [|done]. intros v ? ?. apply IHtl; [by apply Htl|done|done].
  - destruct v; try done. destruct Hok as [_ Hok]. by apply (reads_map _ GPtr), IH.
  - destruct Hok as [_ Hok]. destruct v; try done.
    + destruct Hv as [Hv Hne]. apply OptionalPtr_reads; [by apply IH|done].
    + apply OptionalPtr_nil.
  - by apply interface_reads.
Qed.

(** ** What is decoded was the encoding *)

Definition enc_of (t : typ) (v : gval) (enc : bytes) : Prop := enc = rlp (val_of t v) ∧ has_type t v.
Lemma Bool_yields n : yields n stream_Bool (λ b enc, enc = rlp_bytes (if b then [1] else [])).
Proof.
  intros s inp st R Hn. unfold stream_Bool, S_bind. pose proof (uint_yields n 8 ltac:(by left) s inp st R Hn) as H.
  destruct (stream_uint 8 s) as [v s'|e s'|]; [|done|done]. destruct H as (enc & rest & ? & ? & ? & ? & -> & Hv).
  destruct (Z.eqb_spec v 0) as [->|]; [exists [0x80], rest; by split_and!|].
  destruct (Z.eqb_spec v 1) as [->|]; [|done]. exists [1], rest. by split_and!.
Qed.
Lemma BigInt_yields n : yields n decodeBigInt (λ v enc, ∃ i, v = GBig i ∧ 0 ≤ i ∧ enc = rlp_bytes (Big.Bytes i)).
Proof.
  intros s inp st R Hn. unfold decodeBigInt, S_bind.
  pose proof (yields_map_err n wrapStreamError _ _ wrap_EOL (Bytes_yields n) s inp st R Hn) as H.
  destruct (S_map_err _ _ s) as [b s'|e s'|]; [|done|done]. destruct H as (enc & rest & ? & ? & ? & ? & -> & Hb).
  assert (Hc : hd 1 b ≠ 0 → ∃ enc' rest', inp = enc' ++ rest' ∧ enc' ≠ [] ∧ fits_in st (zlen enc') ∧ ready s' rest' (advance (zlen enc') st) ∧
    ∃ i, GBig (Big.SetBytes b) = GBig i ∧ 0 ≤ i ∧ enc' = rlp_bytes (Big.Bytes i)).
  { intros Hb0. exists (rlp_bytes b), rest. split_and!; try done. exists (Big.SetBytes b).
    rewrite (Big.Bytes_SetBytes b Hb Hb0). split_and!; [done|pose proof (be_val_bound b Hb); unfold Big.SetBytes; lia|done]. }
  by destruct b as [|[] b]; [apply Hc..|done|apply Hc|apply Hc].
Qed.
Lemma items_enc_of t vs encs : Forall2 (enc_of t) vs encs → concat encs = concat (map rlp (map (val_of t) vs)) ∧ Forall (has_type t) vs.
Proof.
  induction 1 as [|v enc vs encs [-> Hv] _ [IH1 IH2]]; [by split|]. cbn. split; [by f_equal|by constructor].
Qed.
Lemma fields_yield fuel n tail fs : (S n < fuel)%nat →
  Forall (λ t, yields n (decode fuel t) (enc_of t)) fs →
  match tail with Some t => ∀ n', (n' ≤ n)%nat → yields n' (decode fuel t) (enc_of t) | None => True end →
  yields_all n (decodeFields (decode fuel) fuel tail fs)
    (λ vs c, c = concat (map rlp (fields_val val_of tail fs vs)) ∧ fields_typed has_type tail fs vs).
Proof.
  intros Hn HF Htl. induction HF as [|f fs Hf _ IH]; cbn [decodeFields].
  - destruct tail as [t|].
    + eapply yields_all_weaken; [apply (yields_all_map n _ (λ vs, [GList vs])), slice_elems_yield; [exact Htl|lia]|].
      intros vs c (l & -> & encs & -> & HE). destruct (items_enc_of _ _ _ HE) as [-> Hl]. by split.
    + eapply yields_all_weaken; [apply ret_yields_all|]. by intros vs c [-> ->].
  - eapply yields_all_weaken; [exact (field_yields n _ _ _ _ _ Hf IH)|].
    intros vs c (v & vs' & enc & c' & -> & -> & [-> Hv] & -> & Ht). by split.
Qed.
Lemma decode_yields t : typ_ok t → strict t → ∀ fuel n, (S n < fuel)%nat → yields n (decode fuel t) (enc_of t).
Proof.
  induction t as [bits| | | |m|t IH|m t IH|fs tail IHfs IHtl|t IH|t IH|] using typ_ind'; intros Hok Hst fuel n Hn.
  - eapply yields_map; [apply yields_map_err; [apply wrap_EOL|apply uint_yields, Hok]|]. intros v enc [-> Hv]. by split.
  - eapply yields_map; [apply yields_map_err; [apply wrap_EOL|apply Bool_yields]|]. intros b enc ->. by split.
  - eapply yields_weaken; [apply BigInt_yields|]. intros v enc (i & -> & Hi & ->). by split.
  - eapply yields_map; [apply yields_map_err; [apply wrap_EOL|apply Bytes_yields]|]. intros b enc [-> Hb]. by split.
  - destruct Hst as [Hm _]. eapply yields_weaken; [by apply byte_array_yields|]. intros v enc (b & -> & -> & Hb & Hl).
    split; [done|]. cbn. split_and!; [done|done|]. intros ->. by subst m.
  - destruct Hok as [_ Hok], Hst as [_ Hst]. eapply yields_weaken.
    + apply (ListSlice_yields n _ (enc_of t)); [|lia]. intros n' Hn'. apply IH; [done|done|lia].
    + intros v enc (vs & encs & -> & -> & HE). destruct (items_enc_of _ _ _ HE) as [-> Hl]. by split.
  - destruct Hok as [_ Hok], Hst as [_ Hst]. cbn [decode]. unfold decodeListArray. eapply yields_weaken.
    + apply list_yields. intros size s inp st R Hl. eapply (list_end_yields (length inp) _ GList); [apply wrap_EOL| |exact R|lia].
      apply (array_elems_yield _ _ (enc_of t)). intros n' Hn'. apply IH; [done|done|lia].
    + intros v enc (c & -> & vs & -> & Hl & encs & -> & HE). destruct (items_enc_of _ _ _ HE) as [-> Hl']. by split.
  - apply typ_all_struct in Hok as [Hfs Htl], Hst as [Hsfs Hstl]. rewrite decode_struct. eapply yields_weaken.
    + apply list_yields. intros size s inp st R Hl. eapply (list_end_yields (length inp) _ GList); [apply wrap_EOL| |exact R|lia].
      apply fields_yield; [lia| |].
      * rewrite Forall_forall in *. intros f Hin. apply IHfs; [done|by apply Hfs|by apply Hsfs|lia].
      * destruct tail as [t|]; [|done]. intros n' Hn'. apply IHtl; [by apply Htl|by apply Hstl|lia].
    + intros v enc (c & -> & vs & -> & -> & Ht). split; [by rewrite val_of_struct|by rewrite has_type_struct].
  - destruct Hok as [_ Hok], Hst as [_ Hst]. eapply yields_map; [by apply (IH Hok Hst fuel n)|]. intros v enc [-> Hv]. by split.
  - by destruct Hst.
  - by apply interface_yields.
Qed.

(** ** Values that Go can hold *)

Lemma iface_val_ok v : iface_ok v → val_ok (interface_val v).
Proof.
  induction v as [| | | |l IH| |] using gval_ind'; try done. rewrite iface_ok_list. intros Hl. cbn [interface_val]. apply val_ok_list.
  apply Forall_map. eapply Forall_impl; [apply Forall_and; exact (conj IH Hl)|]. intros v [H Hv]. by apply H.
Qed.
Lemma nil_val_ok t : val_ok (nil_val t).
Proof. induction t; try done; cbn; constructor. Qed.
Lemma fields_val_ok tail fs vs : fields_typed has_type tail fs vs →
  Forall (λ t, ∀ v, has_type t v → val_ok (val_of t v)) fs →
  match tail with Some t => ∀ v, has_type t v → val_ok (val_of t v) | None => True end →
  Forall val_ok (fields_val val_of tail fs vs).
Proof.
  intros Ht HF Htl. revert vs Ht. induction HF as [|f fs Hf _ IH]; intros vs Ht.
  - destruct vs as [|[| | | |l| |] [|? ?]]; try done. cbn in Ht. destruct tail as [t|]; [|done]. apply Forall_map.
    by eapply Forall_impl.
  - destruct vs as [|v vs]; [done|]. destruct Ht as [Hv Ht]. constructor; [by apply Hf|by apply IH].
Qed.
Lemma val_of_ok t : typ_ok t → ∀ v, has_type t v → val_ok (val_of t v).
Proof.
  induction t as [bits| | | |m|t IH|m t IH|fs tail IHfs IHtl|t IH|t IH|] using typ_ind'; intros Hok v Hv.
  - destruct v; try done. destruct Hok as [Hb _]. cbn in *. unfold is_u64. destruct (bits_pow bits Hb) as [_ Hb8].
    assert (2 ^ bits ≤ 2 ^ 64) by (apply Z.pow_le_mono_r; destruct Hb as [->|[->|[->| ->]]]; lia). lia.
  - by destruct v.
  - by destruct v.
  - by destruct v.
  - destruct v; try done. by destruct Hv.
  - destruct v as [| | | |l| |]; try done. destruct Hok as [_ Hok]. cbn [val_of]. apply val_ok_list, Forall_map. eapply Forall_impl; [exact Hv|]. by apply IH.
  - destruct v as [| | | |l| |]; try done. destruct Hok as [_ Hok]. cbn [val_of]. apply val_ok_list, Forall_map. eapply Forall_impl; [apply Hv|]. by apply IH.
  - destruct v as [| | | |vs| |]; try done. rewrite val_of_struct. rewrite has_type_struct in Hv. apply typ_all_struct in Hok as [Hfs Htl].
    apply val_ok_list, fields_val_ok; [done| |].
    + rewrite Forall_forall in *. intros f Hin. apply IHfs; [done|by apply Hfs].
    + destruct tail as [t|]; [|done]. by apply IHtl, Htl.
  - destruct v; try done. destruct Hok as [_ Hok]. by apply IH.
  - destruct Hok as [_ Hok]. destruct v; try done; [|apply nil_val_ok]. by apply IH; [|destruct Hv].
  - by apply iface_val_ok.
Qed.
Lemma EncodeValue_rlp t v : typ_ok t → has_type t v → is_u64 (zlen (rlp (val_of t v))) → EncodeValue t v = Ok (rlp (val_of t v)).
Proof. intros Ht Hv Hu. unfold EncodeValue. apply EncodeToBytes_rlp; [by apply val_of_ok|done]. Qed.
Lemma NewStream_ready b : is_bytes b → is_u64 (zlen b) → ready (NewStream b (zlen b)) b [].
Proof.
  intros Hb Hu. split; [|done]. split; cbn; try done. by destruct (0 <? zlen b).
Qed.
(** A value is decoded from its own encoding. *)
Lemma DecodeBytes_end t v enc : typ_ok t → has_type t v → enc = rlp (val_of t v) → is_u64 (zlen enc) →
  ∃ s, DecodeBytes t enc = SOk v s ∧ r s = [].
Proof.
  intros Ht Hv -> Hu.
  assert (Hb : is_bytes (rlp (val_of t v))) by (by apply is_bytes_rlp_val; [apply val_of_ok|]).
  destruct (decode_reads t Ht v (S (S (length (rlp (val_of t v))))) Hv ltac:(lia) (NewStream (rlp (val_of t v)) (zlen (rlp (val_of t v)))) [] []) as (s & E & R2);
    [by rewrite app_nil_r; apply NewStream_ready|done|].
  unfold DecodeBytes. rewrite E. exists s. destruct R2 as [[-> _ _ _ _ _ _] _]. by split.
Qed.
