(* ===== verification/Heap.v ===== *)
(** * Binary heaps

    Go's [container/heap], on a list and the order of its elements: the code
    of the transaction pool and of block production keeps prices and nonces
    in such heaps.  The laws: the operations permute the elements and keep the
    heap, whose first element no other precedes. *)

From S2P Require Import Prelude.

Section Heap.
Context {A : Type}.
(** [Less], of two elements. *)
Variable lt : A → A → bool.

Definition Less (i j : nat) (h : list A) : bool :=
  match h !! i, h !! j with Some a, Some b => lt a b | _, _ => false end.
Definition Swap (i j : nat) (h : list A) : list A :=
  match h !! i, h !! j with Some a, Some b => <[i := b]> (<[j := a]> h) | _, _ => h end.

Definition parent (j : nat) : nat := ((j - 1) / 2)%nat.

(** [up]: the index at least halves in every turn. *)
Fixpoint up_loop (fuel j : nat) (h : list A) : list A :=
  match fuel with
  | O => h
  | S fuel =>
      let i := parent j in
      if bool_decide (i = j) || negb (Less j i h) then h else up_loop fuel i (Swap i j h)
  end.
Definition up (j : nat) (h : list A) : list A := up_loop (S j) j h.

(** [down], among the first [n] elements: where the element ends. *)
Definition down_child (i n : nat) (h : list A) : nat :=
  let j1 := (2 * i + 1)%nat in
  let j2 := (j1 + 1)%nat in
  if (j2 <? n)%nat && Less j2 j1 h then j2 else j1.
Fixpoint down_loop (fuel i n : nat) (h : list A) : nat * list A :=
  match fuel with
  | O => (i, h)
  | S fuel =>
      if (n <=? 2 * i + 1)%nat then (i, h)
      else
        let j := down_child i n h in
        if negb (Less j i h) then (i, h) else down_loop fuel j n (Swap i j h)
  end.
Definition down (i0 n : nat) (h : list A) : bool * list A :=
  let '(i, h) := down_loop n i0 n h in ((i0 <? i)%nat, h).

Definition Init (h : list A) : list A :=
  let n := length h in fold_left (λ h i, (down i n h).2) (rev (seq 0 (n / 2))) h.
Definition Push (x : A) (h : list A) : list A := up (length h) (h ++ [x]).
(** The last element, taken off. *)
Definition pop_last (h : list A) : option A * list A := (last h, take (length h - 1) h).
Definition Pop (h : list A) : option A * list A :=
  let n := (length h - 1)%nat in pop_last (down 0 n (Swap 0 n h)).2.
Definition Fix (i : nat) (h : list A) : list A :=
  let '(moved, h) := down i (length h) h in if moved then h else up i h.
Definition Remove (i : nat) (h : list A) : option A * list A :=
  let n := (length h - 1)%nat in
  pop_last (if (n =? i)%nat then h
            else let '(moved, h) := down i n (Swap i n h) in if moved then h else up i h).

(** ** Swapping *)

Lemma Swap_lookup i j h k : (i < length h)%nat → (j < length h)%nat →
  Swap i j h !! k = h !! (if decide (k = i) then j else if decide (k = j) then i else k).
Proof.
  intros Hi Hj. unfold Swap. destruct (lookup_lt_is_Some_2 h i Hi) as [a Ha], (lookup_lt_is_Some_2 h j Hj) as [b Hb]. rewrite Ha, Hb.
  case_decide; [subst; rewrite list_lookup_insert_eq; [done|by rewrite length_insert]|].
  rewrite list_lookup_insert_ne by done. case_decide; [subst; by rewrite list_lookup_insert_eq|by rewrite list_lookup_insert_ne].
Qed.
Lemma length_Swap i j h : length (Swap i j h) = length h.
Proof. unfold Swap. destruct (h !! i), (h !! j); try done. by rewrite !length_insert. Qed.
Lemma Swap_perm i j h : Swap i j h ≡ₚ h.
Proof. unfold Swap. destruct (h !! i) eqn:Ha, (h !! j) eqn:Hb; try done. by apply Permutation_insert_swap. Qed.

(** ** The order of a heap *)

Context (lt_asym : ∀ a b, lt a b = true → lt b a = false).
(** Negatively transitive: "not after" is an order. *)
Context (lt_trans : ∀ a b c, lt b a = false → lt c b = false → lt c a = false).

(** The element at [j] does not precede the one at [i]. *)
Definition above (i j : nat) (h : list A) : Prop := Less j i h = false.
(** Among the first [n], no child precedes its parent, where the parent is at
    [k] or after, save at [x] and between [x] and its parent. *)
Definition heap_but (x k n : nat) (h : list A) : Prop :=
  ∀ j, (0 < j < n)%nat → (k ≤ parent j)%nat → parent j ≠ x → j ≠ x → above (parent j) j h.
Definition is_heap (k n : nat) (h : list A) : Prop :=
  ∀ j, (0 < j < n)%nat → (k ≤ parent j)%nat → above (parent j) j h.
(** The children of [x] do not precede the parent of [x]. *)
Definition grand_ok (x k n : nat) (h : list A) : Prop :=
  ∀ j, (0 < j < n)%nat → parent j = x → (0 < x)%nat → (k ≤ parent x)%nat → above (parent x) j h.

Lemma parent_spec j : (0 < j)%nat → (parent j < j ∧ (j = 2 * parent j + 1 ∨ j = 2 * parent j + 2))%nat.
Proof. intros Hj. unfold parent. pose proof (Nat.div_mod_eq (j - 1) 2). pose proof (Nat.mod_upper_bound (j - 1) 2). lia. Qed.
Lemma parent_0 : parent 0 = 0%nat.
Proof. done. Qed.
Lemma above_lookup i j h a b : h !! i = Some a → h !! j = Some b → above i j h ↔ lt b a = false.
Proof. intros Ha Hb. unfold above, Less. by rewrite Ha, Hb. Qed.
Lemma above_trans i j k h : (j < length h)%nat → above i j h → above j k h → above i k h.
Proof.
  intros Hj. destruct (lookup_lt_is_Some_2 h j Hj) as [b Hb]. unfold above, Less. rewrite Hb.
  destruct (h !! i) as [a|], (h !! k) as [c|]; try done. intros H1 H2. by eapply lt_trans.
Qed.
Lemma Less_above i j h : Less i j h = true → above i j h.
Proof. unfold above, Less. destruct (h !! i), (h !! j); try done. apply lt_asym. Qed.
Lemma above_Swap x y i j h : (x < length h)%nat → (y < length h)%nat →
  above i j (Swap x y h) ↔
  above (if decide (i = x) then y else if decide (i = y) then x else i) (if decide (j = x) then y else if decide (j = y) then x else j) h.
Proof. intros Hx Hy. unfold above, Less. by rewrite !Swap_lookup. Qed.

(** [x] does not precede its parent; its children do not precede it. *)
Definition top_ok (x k n : nat) (h : list A) : Prop := (0 < x < n)%nat → (k ≤ parent x)%nat → above (parent x) x h.
Definition children_ok (x n : nat) (h : list A) : Prop := ∀ j, (0 < j < n)%nat → parent j = x → above x j h.
Lemma is_heap_intro x k n h : heap_but x k n h → top_ok x k n h → children_ok x n h → is_heap k n h.
Proof.
  intros H Ht Hc j Hj Hk. destruct (decide (parent j = x)) as [<-|]; [by apply Hc|].
  destruct (decide (j = x)) as [->|]; [by apply Ht|by apply H].
Qed.
Lemma is_heap_but x k n h : is_heap k n h → heap_but x k n h.
Proof. intros H j ? ? ? ?. by apply H. Qed.
Lemma children_of i j : (0 < j)%nat → parent j = i → (j = 2 * i + 1 ∨ j = 2 * i + 2)%nat.
Proof. intros Hj <-. destruct (parent_spec j Hj). lia. Qed.
Lemma parent_of i j : (j = 2 * i + 1 ∨ j = 2 * i + 2)%nat → parent j = i.
Proof. intros H. destruct (parent_spec j ltac:(lia)). lia. Qed.

(** The child that [down] compares with precedes its sibling. *)
Lemma down_child_spec i n h : (2 * i + 1 < n)%nat → (n ≤ length h)%nat →
  let j := down_child i n h in (i < j < n)%nat ∧ parent j = i ∧ ∀ c, (0 < c < n)%nat → parent c = i → above j c h.
Proof.
  intros Hi Hn. unfold down_child. replace (2 * i + 1 + 1)%nat with (2 * i + 2)%nat by lia.
  destruct (Nat.ltb_spec (2 * i + 2) n) as [H2|H2]; cbn [andb].
  - destruct (Less (2 * i + 2) (2 * i + 1) h) eqn:HL.
    + split_and!; [lia|lia|apply parent_of; lia|]. intros c Hc Hp. apply children_of in Hp as [->| ->]; [|unfold above, Less|lia].
      * by apply Less_above.
      * destruct (h !! _) eqn:E; [|done]. destruct (lt a a) eqn:Ha; [|done]. by rewrite (lt_asym _ _ Ha) in Ha.
    + split_and!; [lia|lia|apply parent_of; lia|]. intros c Hc Hp. apply children_of in Hp as [->| ->]; [unfold above, Less|done|lia].
      destruct (h !! _) eqn:E; [|done]. destruct (lt a a) eqn:Ha; [|done]. by rewrite (lt_asym _ _ Ha) in Ha.
  - split_and!; [lia|lia|apply parent_of; lia|]. intros c Hc Hp. apply children_of in Hp as [->| ->]; [unfold above, Less|lia..].
    destruct (h !! _) eqn:E; [|done]. destruct (lt a a) eqn:Ha; [|done]. by rewrite (lt_asym _ _ Ha) in Ha.
Qed.
(** One turn of [down]: the gap moves to the child. *)
Lemma down_step i j k n h : (i < j < n)%nat → (n ≤ length h)%nat → parent j = i → Less j i h = true →
  (∀ c, (0 < c < n)%nat → parent c = i → above j c h) →
  heap_but i k n h → grand_ok i k n h →
  heap_but j k n (Swap i j h) ∧ grand_ok j k n (Swap i j h) ∧ top_ok j k n (Swap i j h).
Proof.
  intros Hij Hn Hp HL Hc H G. assert (Hi : (i < length h)%nat) by lia. assert (Hj : (j < length h)%nat) by lia. split_and!.
  - intros c Hcn Hk Hcp Hcj. apply above_Swap; [done|done|]. rewrite (decide_False (P := c = j)) by done. rewrite (decide_False (P := parent c = j)) by done.
    destruct (decide (parent c = i)) as [Ep|Ep].
    + rewrite decide_False by (destruct (parent_spec c); lia). by apply Hc.
    + destruct (decide (c = i)) as [->|]; [|by apply H]. apply G; [lia|done|lia|done].
  - intros c Hcn Hcp Hj0 Hk. rewrite Hp in *. destruct (parent_spec c ltac:(lia)) as [? _]. apply above_Swap; [done|done|].
    rewrite (decide_True (P := i = i)), (decide_False (P := c = i)), (decide_False (P := c = j)) by lia.
    rewrite <- Hcp. apply H; [lia|rewrite Hcp; lia|lia|lia].
  - intros Hjn Hk. rewrite Hp in *. apply above_Swap; [done|done|].
    rewrite decide_True by done. rewrite (decide_False (P := j = i)), (decide_True (P := j = j)) by lia. by apply Less_above.
Qed.

Record sinks (k n i : nat) (h : list A) (i' : nat) (h' : list A) : Prop := {
  sk_le : (i ≤ i')%nat;
  sk_perm : h' ≡ₚ h;
  sk_beyond m : (n ≤ m)%nat → h' !! m = h !! m;
}.
Lemma down_loop_sinks k fuel : ∀ i n h, (n ≤ length h)%nat → (i < n)%nat →
  sinks k n i h (down_loop fuel i n h).1 (down_loop fuel i n h).2.
Proof.
  induction fuel as [|fuel IH]; intros i n h Hn Hi; cbn [down_loop]; [by split|].
  destruct (Nat.leb_spec n (2 * i + 1)); [by split|]. destruct (down_child_spec i n h) as (Hj & _); [done|done|].
  destruct (negb _); [by split|]. destruct (IH (down_child i n h) n (Swap i (down_child i n h) h)) as [H1 H2 H3]; [by rewrite length_Swap|lia|].
  split; [lia|by rewrite H2, Swap_perm|]. intros m Hm. rewrite H3 by done. destruct (decide (m < length h)%nat).
  - rewrite Swap_lookup by lia. by rewrite !decide_False by lia.
  - rewrite !lookup_ge_None_2; [done|lia|rewrite length_Swap; lia].
Qed.
Lemma down_loop_heap k n fuel : ∀ i h, (n ≤ length h)%nat → (n ≤ fuel + i)%nat →
  heap_but i k n h → grand_ok i k n h → top_ok i k n h → is_heap k n (down_loop fuel i n h).2.
Proof.
  induction fuel as [|fuel IH]; intros i h Hn Hf H G Ht; cbn [down_loop].
  - apply (is_heap_intro i); [done|done|]. intros j Hj Hp. destruct (parent_spec j); lia.
  - destruct (Nat.leb_spec n (2 * i + 1)) as [Hl|Hl].
    { apply (is_heap_intro i); [done|done|]. intros j Hj Hp. apply children_of in Hp; lia. }
    destruct (down_child_spec i n h) as (Hj & Hp & Hc); [done|done|]. destruct (Less _ i h) eqn:HL; cbn [negb].
    + destruct (down_step i _ k n h Hj Hn Hp HL Hc H G) as (H' & G' & T'). apply IH; [by rewrite length_Swap|lia|done..].
    + cbn [snd]. apply (is_heap_intro i); [done|done|]. intros c Hcn Hcp. apply (above_trans _ (down_child i n h)); [lia|exact HL|by apply Hc].
Qed.
(** When the element did not move, its children are in order; when it did,
    everything from [k] on is. *)
Lemma down_spec k n i h : (n ≤ length h)%nat → (i < n)%nat → heap_but i k n h → grand_ok i k n h →
  let r := down i n h in
  r.2 ≡ₚ h ∧ (∀ m, (n ≤ m)%nat → r.2 !! m = h !! m) ∧
  (if r.1 then is_heap k n r.2 else r.2 = h ∧ children_ok i n h).
Proof.
  intros Hn Hi H G. unfold down. destruct (down_loop_sinks k n i n h Hn Hi) as [H1 H2 H3]. destruct n as [|fuel]; [lia|]. remember (S fuel) as n eqn:En.
  assert (E : down_loop n i n h = if (n <=? 2 * i + 1)%nat then (i, h) else let j := down_child i n h in
    if negb (Less j i h) then (i, h) else down_loop fuel j n (Swap i j h)) by (rewrite En at 1; done).
  rewrite E in *. destruct (Nat.leb_spec n (2 * i + 1)) as [Hl|Hl].
  { cbn [fst snd]. rewrite Nat.ltb_irrefl. split_and!; try done. intros j Hj Hp. apply children_of in Hp; lia. }
  destruct (down_child_spec i n h) as (Hj & Hp & Hc); [done|done|]. cbv zeta in *. destruct (Less _ i h) eqn:HL; cbn [negb] in *.
  - destruct (down_step i _ k n h Hj Hn Hp HL Hc H G) as (H' & G' & T').
    destruct (down_loop_sinks k fuel (down_child i n h) n (Swap i (down_child i n h) h)) as [K1 _ _]; [by rewrite length_Swap|lia|].
    pose proof (down_loop_heap k n fuel (down_child i n h) (Swap i (down_child i n h) h) ltac:(by rewrite length_Swap) ltac:(lia) H' G' T').
    destruct (down_loop fuel _ n _) as [i' h']. cbn [fst snd] in *. destruct (Nat.ltb_spec i i'); [done|lia].
  - cbn [fst snd]. rewrite Nat.ltb_irrefl. split_and!; try done. intros c Hcn Hcp. apply (above_trans _ (down_child i n h)); [lia|exact HL|by apply Hc].
Qed.

(** ** Moving up *)

Definition heap_below (x n : nat) (h : list A) : Prop := ∀ c, (0 < c < n)%nat → c ≠ x → above (parent c) c h.
Lemma up_step j n h : (0 < j < n)%nat → (n ≤ length h)%nat → Less j (parent j) h = true →
  heap_below j n h → grand_ok j 0 n h →
  heap_below (parent j) n (Swap (parent j) j h) ∧ grand_ok (parent j) 0 n (Swap (parent j) j h).
Proof.
  intros Hj Hn HL H G. destruct (parent_spec j ltac:(lia)) as [Hp _]. set (i := parent j) in *.
  assert (Hi : (i < length h)%nat) by lia. assert (Hjl : (j < length h)%nat) by lia. split.
  - intros c Hc Hci. apply above_Swap; [done|done|]. rewrite (decide_False (P := c = i)) by done.
    destruct (decide (c = j)) as [->|Hcj].
    { fold i. rewrite decide_True by done. by apply Less_above. }
    destruct (decide (parent c = i)) as [Ep|]; [|destruct (decide (parent c = j)) as [Ep|]].
    + apply (above_trans _ i); [done|by apply Less_above|]. rewrite <- Ep. by apply H.
    + apply G; [done|done|lia|lia].
    + by apply H.
  - intros c Hc Hcp Hi0 _. destruct (parent_spec i Hi0) as [? _]. assert (Hpi : above (parent i) i h) by (apply H; lia).
    destruct (parent_spec c ltac:(lia)) as [? _]. apply above_Swap; [done|done|]. rewrite (decide_False (P := parent i = i)), (decide_False (P := parent i = j)), (decide_False (P := c = i)) by lia.
    destruct (decide (c = j)) as [->|]; [done|]. apply (above_trans _ i); [done|done|]. rewrite <- Hcp. apply H; [done|lia].
Qed.
Lemma up_loop_spec n fuel : ∀ j h, (j < n)%nat → (n ≤ length h)%nat → (j < fuel)%nat → heap_below j n h → grand_ok j 0 n h →
  up_loop fuel j h ≡ₚ h ∧ is_heap 0 n (up_loop fuel j h) ∧ ∀ m, (n ≤ m)%nat → up_loop fuel j h !! m = h !! m.
Proof.
  induction fuel as [|fuel IH]; intros j h Hj Hn Hf H G; [lia|]. cbn [up_loop].
  assert (Hstop : (j = 0%nat ∨ above (parent j) j h) → is_heap 0 n h).
  { intros Hs c Hc _. destruct (decide (c = j)) as [->|]; [destruct Hs as [->|]; [lia|done]|by apply H]. }
  destruct (decide (parent j = j)) as [Ej|Ej].
  { rewrite bool_decide_true by done. cbn [orb]. split_and!; try done. apply Hstop. left. destruct j; [done|]. destruct (parent_spec (S j)); lia. }
  rewrite bool_decide_false by done. cbn [orb]. destruct (Less j (parent j) h) eqn:HL; cbn [negb].
  - assert (Hj0 : (0 < j)%nat) by (destruct j; [done|lia]). destruct (parent_spec j Hj0) as [Hp _].
    destruct (up_step j n h) as [H' G']; [lia|done|done|done|done|].
    destruct (IH (parent j) (Swap (parent j) j h)) as (P1 & P2 & P3); [lia|by rewrite length_Swap|lia|done|done|].
    split_and!; [by rewrite P1, Swap_perm|done|]. intros m Hm. rewrite P3 by done. destruct (decide (m < length h)%nat).
    + rewrite Swap_lookup by lia. by rewrite !decide_False by lia.
    + rewrite !lookup_ge_None_2; [done|lia|rewrite length_Swap; lia].
  - split_and!; try done. apply Hstop. by right.
Qed.
Lemma is_heap_grand k n x h : (n ≤ length h)%nat → is_heap k n h → grand_ok x k n h.
Proof.
  intros Hn H j Hj Hp Hx Hk. destruct (parent_spec j ltac:(lia)) as [? _]. destruct (parent_spec x Hx) as [? _].
  apply (above_trans _ x); [lia|by apply H; [lia|]|]. rewrite <- Hp. apply H; [done|lia].
Qed.

(** ** The operations keep a heap *)

Definition heap (h : list A) : Prop := is_heap 0 (length h) h.
Lemma heap_nil : heap [].
Proof. intros j Hj. cbn in Hj. lia. Qed.
Lemma heap_min h x : heap h → h !! 0%nat = Some x → ∀ y, y ∈ h → lt y x = false.
Proof.
  intros H Hx y (j & Hy)%list_elem_of_lookup. revert y Hy. induction j as [j IH] using lt_wf_ind. intros y Hy.
  destruct (decide (j = 0%nat)) as [->|].
  { rewrite Hx in Hy. injection Hy as ->. destruct (lt y y) eqn:E; [|done]. by rewrite (lt_asym _ _ E) in E. }
  destruct (parent_spec j ltac:(lia)) as [Hp _]. pose proof (lookup_lt_Some _ _ _ Hy).
  destruct (lookup_lt_is_Some_2 h (parent j) ltac:(lia)) as [z Hz]. apply (lt_trans x z y); [by apply (IH (parent j))|].
  apply (above_lookup (parent j) j h z y Hz Hy). apply H; lia.
Qed.
Lemma pop_last_spec h n x : length h = S n → h !! n = Some x → pop_last h = (Some x, take n h) ∧ h ≡ₚ x :: take n h.
Proof.
  intros Hl Hx. unfold pop_last. rewrite Hl. replace (S n - 1)%nat with n by lia. rewrite last_lookup, Hl. cbn [pred]. rewrite Hx. split; [done|].
  assert (E : h = take n h ++ [x]).
  { rewrite <- (take_drop n h) at 1. f_equal. rewrite (drop_S _ _ _ Hx), drop_ge by lia. done. }
  rewrite E at 1. by rewrite Permutation_app_comm.
Qed.
Lemma is_heap_take n h : is_heap 0 n h → (n ≤ length h)%nat → heap (take n h).
Proof.
  intros H Hn j Hj Hk. rewrite length_take in Hj. destruct (parent_spec j ltac:(lia)) as [Hp _].
  unfold above, Less. rewrite !lookup_take_lt by lia. apply H; [lia|done].
Qed.

Lemma Push_spec x h : heap h → heap (Push x h) ∧ Push x h ≡ₚ x :: h.
Proof.
  intros H. unfold Push, up.
  assert (Hb : heap_below (length h) (S (length h)) (h ++ [x])).
  { intros c Hc Hcx. destruct (parent_spec c ltac:(lia)) as [Hp _]. unfold above, Less. rewrite !lookup_app_l by lia. apply H; lia. }
  destruct (up_loop_spec (S (length h)) (S (length h)) (length h) (h ++ [x])) as (P1 & P2 & _); [lia|rewrite length_app; cbn; lia|lia|done| |].
  { intros j Hj Hp. destruct (parent_spec j); lia. }
  split; [|by rewrite P1, Permutation_app_comm]. unfold heap. rewrite (Permutation_length P1), length_app. cbn [length]. by replace (length h + 1)%nat with (S (length h)) by lia.
Qed.
(** Moving the element at [x] to its place, among the first [n]. *)
Lemma settle_spec x n h : (x < n)%nat → (n ≤ length h)%nat → heap_but x 0 n h → grand_ok x 0 n h →
  let r := if (down x n h).1 then (down x n h).2 else up x (down x n h).2 in
  r ≡ₚ h ∧ is_heap 0 n r ∧ ∀ m, (n ≤ m)%nat → r !! m = h !! m.
Proof.
  intros Hx Hn H G. destruct (down_spec 0 n x h Hn Hx H G) as (P1 & P2 & P3). cbv zeta in *. destruct (down x n h) as [[] h1]; cbn [fst snd] in *; [done|].
  destruct P3 as [-> Hc]. unfold up. apply up_loop_spec; [done|done|lia| |done].
  intros c Hcn Hcx. destruct (decide (parent c = x)) as [<-|]; [by apply Hc|by apply H; [|lia|..]].
Qed.
Lemma Fix_spec i h : (i < length h)%nat → heap_but i 0 (length h) h → grand_ok i 0 (length h) h → heap (Fix i h) ∧ Fix i h ≡ₚ h.
Proof.
  intros Hi H G. destruct (settle_spec i (length h) h Hi ltac:(lia) H G) as (P1 & P2 & _). unfold Fix.
  destruct (down i (length h) h) as [moved h1]. cbv zeta in *. cbn [fst snd] in *. split; [|done]. unfold heap. by rewrite (Permutation_length P1).
Qed.
(** Any element put at the place of [i]. *)
Lemma Fix_insert i x h : (i < length h)%nat → heap h → heap (Fix i (<[i := x]> h)) ∧ Fix i (<[i := x]> h) ≡ₚ <[i := x]> h.
Proof.
  intros Hi H. apply Fix_spec; rewrite length_insert; [done| |].
  - intros j Hj Hk Hp Hx. unfold above, Less. rewrite !list_lookup_insert_ne by done. by apply H.
  - intros j Hj Hp Hx Hk. destruct (parent_spec j ltac:(lia)) as [? _]. destruct (parent_spec i Hx) as [? _].
    unfold above, Less. rewrite !list_lookup_insert_ne by lia. by apply (is_heap_grand 0 (length h) i).
Qed.
Lemma Remove_spec i h x : heap h → h !! i = Some x → ∃ h', Remove i h = (Some x, h') ∧ h ≡ₚ x :: h' ∧ heap h'.
Proof.
  intros H Hx. pose proof (lookup_lt_Some _ _ _ Hx) as Hi. unfold Remove. set (n := (length h - 1)%nat). assert (Hl : length h = S n) by (unfold n; lia).
  assert (Hh : is_heap 0 n h) by (intros j Hj; apply H; lia).
  destruct (Nat.eqb_spec n i) as [En|Hne].
  { destruct (pop_last_spec h n x Hl) as [E P]; [by rewrite En|]. exists (take n h). split_and!; [done|done|]. apply is_heap_take; [done|lia]. }
  assert (Hin : (i < n)%nat) by lia. set (g := Swap i n h).
  assert (Hg : ∀ m, g !! m = h !! (if decide (m = i) then n else if decide (m = n) then i else m)) by (intros m; apply Swap_lookup; lia).
  assert (Hgl : length g = S n) by (unfold g; by rewrite length_Swap).
  destruct (settle_spec i n g Hin ltac:(lia)) as (P1 & P2 & P3).
  { intros j Hj Hk Hp Hji. destruct (parent_spec j ltac:(lia)) as [? _]. unfold above, Less. rewrite !Hg.
    rewrite !decide_False by lia. apply Hh; [done|lia]. }
  { intros j Hj Hp Hi0 Hk. destruct (parent_spec j ltac:(lia)) as [? _]. destruct (parent_spec i Hi0) as [? _]. unfold above, Less. rewrite !Hg.
    rewrite !decide_False by lia. apply (is_heap_grand 0 n i h); [lia|done|done|done|done|done]. }
  destruct (down i n g) as [moved h1]. cbv zeta in *. cbn [fst snd] in *. set (r := if moved then h1 else up i h1) in *.
  assert (Hrn : r !! n = Some x) by (rewrite P3, Hg, decide_False, decide_True by lia; done).
  destruct (pop_last_spec r n x) as [E P]; [by rewrite P1|done|]. exists (take n r). split_and!; [done| |].
  - rewrite <- P, P1. symmetry. apply Swap_perm.
  - apply is_heap_take; [done|]. rewrite P1. lia.
Qed.
Lemma Pop_Remove h x : h !! 0%nat = Some x → heap h → ∃ h', Pop h = (Some x, h') ∧ h ≡ₚ x :: h' ∧ heap h'.
Proof.
  intros Hx H. pose proof (lookup_lt_Some _ _ _ Hx) as Hi. unfold Pop. set (n := (length h - 1)%nat). assert (Hl : length h = S n) by (unfold n; lia).
  set (g := Swap 0 n h). assert (Hg : ∀ m, g !! m = h !! (if decide (m = 0%nat) then n else if decide (m = n) then 0%nat else m)) by (intros m; apply Swap_lookup; lia).
  assert (Hgl : length g = S n) by (unfold g; by rewrite length_Swap).
  assert (Hd : (down 0 n g).2 ≡ₚ g ∧ (down 0 n g).2 !! n = Some x ∧ is_heap 0 n (down 0 n g).2).
  { assert (Hgn : g !! n = Some x) by (rewrite Hg; destruct (decide (n = 0%nat)) as [E0|]; [by rewrite E0|by rewrite decide_True]).
    destruct (decide (n = 0%nat)) as [En|Hn]; [rewrite En in *; split_and!; [done|done|]; intros j Hj; lia|].
    destruct (down_spec 0 n 0 g) as (P1 & P2 & P3); [lia|lia| | |].
    - intros j Hj Hk Hp Hji. destruct (parent_spec j ltac:(lia)) as [? _]. unfold above, Less. rewrite !Hg.
      rewrite !decide_False by lia. apply H; [lia|lia].
    - intros j Hj Hp Hi0. lia.
    - cbv zeta in *. split_and!; [done|rewrite P2 by lia; done|]. destruct (down 0 n g) as [[] h1]; cbn [fst snd] in *; [done|].
      destruct P3 as [-> Hc]. intros j Hj Hk. destruct (decide (parent j = 0%nat)) as [Ej|Ej]; [rewrite Ej; by apply Hc|].
      destruct (parent_spec j ltac:(lia)) as [? _]. unfold above, Less. rewrite !Hg. rewrite !decide_False by lia. apply H; lia. }
  destruct Hd as (P1 & P2 & P3). set (r := (down 0 n g).2) in *.
  destruct (pop_last_spec r n x) as [E P]; [by rewrite P1|done|]. exists (take n r). split_and!; [done| |].
  - rewrite <- P, P1. symmetry. apply Swap_perm.
  - apply is_heap_take; [done|]. rewrite P1. lia.
Qed.
Lemma Init_spec h : heap (Init h) ∧ Init h ≡ₚ h.
Proof.
  unfold Init. set (n := length h).
  assert (Hind : ∀ m g, length g = n → g ≡ₚ h → is_heap m n g →
    let r := fold_left (λ h i, (down i n h).2) (rev (seq 0 m)) g in is_heap 0 n r ∧ r ≡ₚ h).
  { induction m as [|m IH]; intros g Hg Hp Hh; [done|]. rewrite seq_S, rev_app_distr. cbn [rev app fold_left plus].
    destruct (decide (m < n)%nat) as [Hm|Hm].
    - destruct (down_spec m n m g) as (P1 & _ & P3); [lia|done| | |].
      { intros j Hj Hk Hpj Hji. apply Hh; [done|lia]. }
      { intros j Hj Hpj Hm0 Hk. destruct (parent_spec m Hm0). lia. }
      apply IH; [by rewrite P1|by rewrite P1|]. destruct (down m n g) as [[] h1]; cbn [fst snd] in *; [done|]. destruct P3 as [-> Hc].
      apply (is_heap_intro m); [|by intros Hm0 Hk; destruct (parent_spec m); lia|done].
      intros j Hj Hk Hpj Hji. apply Hh; [done|lia].
    - assert (E : (down m n g).2 = g).
      { unfold down. destruct n as [|n']; [done|]. cbn [down_loop]. by destruct (Nat.leb_spec (S n') (2 * m + 1)); [|lia]. }
      rewrite E. apply IH; [done|done|]. intros j Hj Hk. apply Hh; [done|]. destruct (parent_spec j); lia. }
  destruct (Hind (n / 2)%nat h) as [H1 H2]; [done|done| |].
  { intros j Hj Hk. destruct (parent_spec j ltac:(lia)). pose proof (Nat.div_mod_eq n 2). pose proof (Nat.mod_upper_bound n 2). lia. }
  cbv zeta in *. split; [|done]. unfold heap. by rewrite (Permutation_length H2).
Qed.
End Heap.
