(* ===== verification/Interfaces.v ===== *)
(** * Interfaces between components

    What the state and the virtual machine rely on: the hash functions, the
    tries and the database of [core/state/database.go], and the account
    codec.  Each is a class; the components are proved against the classes. *)

From S2P Require Import Prelude.

(** [crypto.Keccak256] and the hashes of the precompiled contracts.  The
    node's own implementations are not modelled: they are parameters. *)
Class Crypto := {
  Keccak256 : bytes → bytes;
  Keccak256_length : ∀ b, length (Keccak256 b) = 32%nat;
  Keccak256_bytes : ∀ b, is_bytes (Keccak256 b);
}.

(** Fixed-size values are kept as integers: [common.Hash] is 32 bytes,
    [common.Address] 20 bytes, big-endian. *)
Definition BytesToHash (b : bytes) : Z := be_val b mod 2 ^ 256.
Definition BytesToAddress (b : bytes) : Z := be_val b mod 2 ^ 160.
Definition BigToHash (x : Z) : Z := Z.abs x mod 2 ^ 256.
Definition BigToAddress (x : Z) : Z := Z.abs x mod 2 ^ 160.
Definition hash_bytes (h : Z) : bytes := be_bytes 32 h.
Definition addr_bytes (a : Z) : bytes := be_bytes 20 a.
Definition Keccak256Hash `{!Crypto} (b : bytes) : Z := BytesToHash (Keccak256 b).

Definition is_hash (h : Z) : Prop := is_u256 h.
Definition is_addr (a : Z) : Prop := 0 ≤ a < 2 ^ 160.

Lemma BytesToHash_range b : is_hash (BytesToHash b).
Proof. apply Z.mod_pos_bound. lia. Qed.
Lemma BigToHash_range x : is_hash (BigToHash x).
Proof. apply Z.mod_pos_bound. lia. Qed.
Lemma BigToAddress_range x : is_addr (BigToAddress x).
Proof. apply Z.mod_pos_bound. lia. Qed.
Lemma BytesToHash_hash_bytes h : is_hash h → BytesToHash (hash_bytes h) = h.
Proof.
  unfold BytesToHash, hash_bytes, is_hash, is_u256. intros.
  rewrite be_val_be_bytes. change (256 ^ Z.of_nat 32) with (2 ^ 256).
  rewrite !Z.mod_small; [done|done|by rewrite Z.mod_small].
Qed.
Lemma hash_bytes_BytesToHash b :
  is_bytes b → length b = 32%nat → hash_bytes (BytesToHash b) = b.
Proof.
  intros Hb Hl. unfold hash_bytes, BytesToHash.
  pose proof (be_val_bound b Hb) as Hv. unfold zlen in Hv. rewrite Hl in Hv.
  rewrite Z.mod_small by (simpl in Hv; lia). rewrite <- Hl. by apply be_bytes_be_val.
Qed.
Lemma addr_bytes_inj a b : is_addr a → is_addr b → addr_bytes a = addr_bytes b → a = b.
Proof.
  unfold addr_bytes, is_addr. intros Ha Hb H. apply (f_equal be_val) in H.
  rewrite !be_val_be_bytes in H. change (256 ^ Z.of_nat 20) with (2 ^ 160) in H.
  by rewrite !Z.mod_small in H.
Qed.

(** Errors of the database layer, by a code. *)
Inductive dberror := ErrDB (code : Z).

(** The [Trie] interface of [core/state/database.go].  [TryGet] also updates
    the trie's node cache, which no reader can tell. *)
Class TrieI (T : Type) := {
  TryGet : bytes → T → bytes * option dberror;
  TryUpdate : bytes → bytes → T → T * option dberror;
  TryDelete : bytes → T → T * option dberror;
  TrieHash : T → Z;
}.

(** Byte strings of a size that a machine holds; an empty value is no value. *)
Abbreviation bmap := (gmap (list Z) (list Z)).
Definition fits (m : bmap) : Prop :=
  map_Forall (λ k v, is_bytes k ∧ is_bytes v ∧ v ≠ [] ∧ zlen k < 2 ^ 32 ∧ zlen v < 2 ^ 32) m.

(** What a trie promises: it is a map, on keys that it may hash, and its hash
    depends on the map alone. *)
Class TrieLaws (T : Type) `{!TrieI T} := {
  trie_key : bytes → bytes;
  trie_map : T → bmap → Prop;
  trie_root : bmap → Z;
  TryGet_map : ∀ t m k, trie_map t m → TryGet k t = (default [] (m !! trie_key k), None);
  TryUpdate_map : ∀ t m k v, trie_map t m → v ≠ [] →
    ∃ t', TryUpdate k v t = (t', None) ∧ trie_map t' (<[trie_key k := v]> m);
  TryDelete_map : ∀ t m k, trie_map t m →
    ∃ t', TryDelete k t = (t', None) ∧ trie_map t' (delete (trie_key k) m);
  TrieHash_map : ∀ t m, trie_map t m → fits m → TrieHash t = trie_root m;
  trie_key_ok : ∀ k, is_bytes k → zlen k < 2 ^ 32 → is_bytes (trie_key k) ∧ zlen (trie_key k) < 2 ^ 32;
}.

(** The [Database] interface: opening tries and reading contract code by
    hash.  The zero root opens the empty trie. *)
Class DatabaseI (D T : Type) := {
  OpenStorageTrie : D → Z → Z → T + dberror;
  EmptyStorageTrie : D → Z → T;
  ContractCode : D → Z → Z → bytes * option dberror;
  ContractCodeSize : D → Z → Z → Z * option dberror;
  OpenStorageTrie_empty : ∀ d h, OpenStorageTrie d h 0 = inl (EmptyStorageTrie d h);
}.

(** What a database promises: a root that it stores opens as its map. *)
Class DatabaseLaws (D T : Type) `{!TrieI T} `{!TrieLaws T} `{!DatabaseI D T} := {
  db_stores : D → Z → bmap → Prop;
  OpenStorageTrie_map : ∀ d h r m, db_stores d r m → ∃ t, OpenStorageTrie d h r = inl t ∧ trie_map t m;
  EmptyStorageTrie_map : ∀ d h, trie_map (EmptyStorageTrie d h) ∅;
}.

(** [core/types/log.go] *)
Record Log := mkLog {
  l_Address : Z;
  l_Topics : list Z;
  l_Data : bytes;
  l_BlockNumber : Z;
  l_TxHash : Z;
  l_TxIndex : Z;
  l_BlockHash : Z;
  l_Index : Z;
}.
