(* ===== verification/Machine.v ===== *)
(** * The machine of the virtual machine

    What an instruction works on: the call frame (program counter, stack,
    memory, contract), the parts of [EVM] and [EVMInterpreter] that change,
    the environment that does not, and the state database behind an
    interface.  [core/vm/contract.go], [core/vm/interface.go] and the structs
    of [core/vm/evm.go] and [core/vm/interpreter.go]. *)

From S2P Require Import Prelude BigMath Params Analysis Memory Interfaces.

(** ** interface.go

    The [StateDB] interface.  Readers return the state too, since they may
    load and cache.  [None] is a panic. *)
Class VMState (S : Type) := {
  sCreateAccount : Z → S → S;
  sSubBalance : Z → Z → S → S;
  sAddBalance : Z → Z → S → S;
  sGetBalance : Z → S → Z * S;
  sGetNonce : Z → S → Z * S;
  sSetNonce : Z → Z → S → S;
  sGetCodeHash : Z → S → Z * S;
  sGetCode : Z → S → bytes * S;
  sSetCode : Z → bytes → S → S;
  sGetCodeSize : Z → S → Z * S;
  sAddRefund : Z → S → S;
  sSubRefund : Z → S → option S;
  sGetRefund : S → Z;
  sGetCommittedState : Z → Z → S → Z * S;
  sGetState : Z → Z → S → Z * S;
  sSetState : Z → Z → Z → S → S;
  sSuicide : Z → S → bool * S;
  sHasSuicided : Z → S → bool * S;
  sExist : Z → S → bool * S;
  sEmpty : Z → S → bool * S;
  sRevertToSnapshot : Z → S → option S;
  sSnapshot : S → Z * S;
  sAddLog : Log → S → S;
  sAddPreimage : Z → bytes → S → S;
}.

(** ** contract.go *)

Record Contract := mkContract {
  CallerAddress : Z;
  self : Z;  (* [self.Address()] *)
  Code : bytes;
  CodeHash : Z;
  CodeAddr : option Z;
  Input : bytes;
  Gas : Z;
  value : Z;
  DelegateCall : bool;
}.
Definition set_Gas (g : Z) (c : Contract) : Contract :=
  mkContract (CallerAddress c) (self c) (Code c) (CodeHash c) (CodeAddr c) (Input c) g (value c) (DelegateCall c).
Definition set_Input (i : bytes) (c : Contract) : Contract :=
  mkContract (CallerAddress c) (self c) (Code c) (CodeHash c) (CodeAddr c) i (Gas c) (value c) (DelegateCall c).

(** A [ContractRef] is an account reference or a contract. *)
Inductive ContractRef :=
| AccountRef (a : Z)
| ContractOf (c : Contract).
Definition Address (r : ContractRef) : Z :=
  match r with AccountRef a => a | ContractOf c => self c end.

(** The jump destination cache, which [NewContract] hands down, is part of the
    machine.  The nil value of a delegate call is 0 until [AsDelegate]. *)
Definition NewContract (caller object : ContractRef) (value gas : Z) : Contract :=
  mkContract (Address caller) (Address object) [] 0 None [] gas value false.
(** [None]: the type assertion [c.caller.( *Contract )] panics. *)
Definition AsDelegate (caller : ContractRef) (c : Contract) : option Contract :=
  match caller with
  | AccountRef _ => None
  | ContractOf parent =>
      Some (mkContract (CallerAddress parent) (self c) (Code c) (CodeHash c) (CodeAddr c)
              (Input c) (Gas c) (value parent) true)
  end.
Definition SetCallCode (addr : option Z) (hash : Z) (code : bytes) (c : Contract) : Contract :=
  mkContract (CallerAddress c) (self c) code hash addr (Input c) (Gas c) (value c) (DelegateCall c).
Definition GetByte (c : Contract) (n : Z) : Z :=
  if n <? zlen (Code c) then default 0 (Code c !! Z.to_nat n) else 0.
Definition GetOp (c : Contract) (n : Z) : Z := GetByte c n.
(** [None]: not enough gas. *)
Definition UseGas (gas : Z) (c : Contract) : option Contract :=
  if Gas c <? gas then None else Some (set_Gas (Gas c - gas) c).

(** ** evm.go, interpreter.go: the environment and the parts that change *)

Record Env (S : Type) := mkEnv {
  CanTransfer : S → Z → Z → bool * S;
  Transfer : S → Z → Z → Z → S;
  GetHash : Z → Z;
  Origin : Z;
  GasPrice : Z;
  Coinbase : Z;
  GasLimit : Z;
  BlockNumber : Z;
  Time : Z;
  Difficulty : Z;
  chainConfig : ChainConfig;
  NoRecursion : bool;  (* of [vmConfig] *)
  EnablePreimageRecording : bool;
  abort : bool;  (* set by [Cancel] *)
}.
Arguments CanTransfer {S}. Arguments Transfer {S}. Arguments GetHash {S}. Arguments Origin {S}.
Arguments GasPrice {S}. Arguments Coinbase {S}. Arguments GasLimit {S}. Arguments BlockNumber {S}.
Arguments Time {S}. Arguments Difficulty {S}. Arguments chainConfig {S}. Arguments NoRecursion {S}.
Arguments EnablePreimageRecording {S}. Arguments abort {S}.

Definition chainRules {S} (env : Env S) : Rules := Rules_of (chainConfig env) (BlockNumber env).

(** The state database, the mutable fields of [EVM] and [EVMInterpreter], and
    the jump destination cache shared by the contracts of a transaction. *)
Record evmst (S : Type) := mkEvmst {
  statedb : S;
  depth : Z;
  callGasTemp : Z;
  readOnly : bool;
  returnData : bytes;
  jumpdests : destinations;
}.
Arguments mkEvmst {S}. Arguments statedb {S}. Arguments depth {S}. Arguments callGasTemp {S}.
Arguments readOnly {S}. Arguments returnData {S}. Arguments jumpdests {S}.

(** A call frame on top of it. *)
Record machine (S : Type) := mkMachine {
  evm : evmst S;
  pc : Z;
  stack : Stack;
  mem : Memory;
  contract : Contract;
}.
Arguments mkMachine {S}. Arguments evm {S}. Arguments pc {S}. Arguments stack {S}.
Arguments mem {S}. Arguments contract {S}.

Section Setters.
Context {S : Type}.
Implicit Types (v : evmst S) (m : machine S).
Definition with_statedb (x : S) v := mkEvmst x (depth v) (callGasTemp v) (readOnly v) (returnData v) (jumpdests v).
Definition with_depth x v := mkEvmst (statedb v) x (callGasTemp v) (readOnly v) (returnData v) (jumpdests v).
Definition with_callGasTemp x v := mkEvmst (statedb v) (depth v) x (readOnly v) (returnData v) (jumpdests v).
Definition with_readOnly x v := mkEvmst (statedb v) (depth v) (callGasTemp v) x (returnData v) (jumpdests v).
Definition with_returnData x v := mkEvmst (statedb v) (depth v) (callGasTemp v) (readOnly v) x (jumpdests v).
Definition with_jumpdests x v := mkEvmst (statedb v) (depth v) (callGasTemp v) (readOnly v) (returnData v) x.
Definition with_evm (x : evmst S) m := mkMachine x (pc m) (stack m) (mem m) (contract m).
Definition with_pc x m := mkMachine (evm m) x (stack m) (mem m) (contract m).
Definition with_stack x m := mkMachine (evm m) (pc m) x (mem m) (contract m).
Definition with_mem x m := mkMachine (evm m) (pc m) (stack m) x (contract m).
Definition with_contract x m := mkMachine (evm m) (pc m) (stack m) (mem m) x.
End Setters.

(** ** The monad of instructions

    State and error: a Go error keeps the changes made so far; a panic ends
    everything.  [PIndex] is an index or slice expression out of range or a
    failed type assertion in the virtual machine, [PRefund] the refund counter
    going below zero, [PRevert] an unknown snapshot or a bad journal entry,
    [PCache] an index out of range in a jump destination bitmap that belongs
    to other code. *)
Inductive why := PIndex | PRefund | PRevert | PCache.
Inductive out (S A : Type) :=
| Done (a : A) (m : machine S)
| Fail (e : vmerror) (m : machine S)
| Crash (w : why)
| NoFuel.
Arguments Done {S A}. Arguments Fail {S A}. Arguments Crash {S A}. Arguments NoFuel {S A}.

Definition M (S A : Type) := machine S → out S A.
#[export] Instance M_ret S : MRet (M S) := λ A a, Done a.
#[export] Instance M_bind S : MBind (M S) := λ A B k x m,
  match x m with
  | Done a m => k a m
  | Fail e m => Fail e m
  | Crash w => Crash w
  | NoFuel => NoFuel
  end.

Section Monad.
Context {S : Type}.
Definition fail {A} (e : vmerror) : M S A := Fail e.
Definition crash {A} (w : why) : M S A := λ _, Crash w.
Definition gets {A} (f : machine S → A) : M S A := λ m, Done (f m) m.
Definition modify (f : machine S → machine S) : M S unit := λ m, Done tt (f m).
(** A computation of [Memory.v] or [Analysis.v]. *)
Definition lift {A} (x : vres A) : M S A :=
  match x with
  | Ok a => mret a
  | Err e => fail e
  | Panic => crash PIndex
  | OutOfFuel => λ _, NoFuel
  end.
Definition guard (b : bool) (e : vmerror) : M S unit := if b then mret tt else fail e.

(** [stack.pop()], [stack.push(x)], [stack.peek()], updating the peeked
    integer in place, and [stack.Back(n)]. *)
Definition vpop : M S Z := λ m,
  match stack m with [] => Crash PIndex | x :: r => Done x (with_stack r m) end.
Definition vpush (x : Z) : M S unit := modify (λ m, with_stack (x :: stack m) m).
Definition vpeek : M S Z := λ m,
  match stack m with [] => Crash PIndex | x :: _ => Done x m end.
Definition vset (x : Z) : M S unit := λ m,
  match stack m with [] => Crash PIndex | _ :: r => Done tt (with_stack (x :: r) m) end.
Definition vback (n : nat) : M S Z := st ← gets stack; lift (Back st n).

(** Calls of the state database. *)
Definition sread {A} (f : S → A * S) : M S A := λ m,
  let '(a, s) := f (statedb (evm m)) in Done a (with_evm (with_statedb s (evm m)) m).
Definition swrite (f : S → S) : M S unit := λ m,
  Done tt (with_evm (with_statedb (f (statedb (evm m))) (evm m)) m).
Definition spartial (w : why) (f : S → option S) : M S unit := λ m,
  match f (statedb (evm m)) with
  | None => Crash w
  | Some s => Done tt (with_evm (with_statedb s (evm m)) m)
  end.
(** Memory reads and writes. *)
Definition mread {A} (f : Memory → vres A) : M S A := x ← gets mem; lift (f x).
Definition mwrite (f : Memory → vres Memory) : M S unit :=
  x ← gets mem; y ← lift (f x); modify (with_mem y).
End Monad.
