(* ===== verification/Gas.v ===== *)
(** * Gas

    [core/vm/gas.go], [core/vm/memory_table.go] and [core/vm/gas_table.go]:
    the memory an instruction needs and the gas it costs. *)

From S2P Require Import Prelude BigMath Params Analysis Memory Interfaces Machine.

(** ** gas.go *)

Definition GasQuickStep : Z := 2.
Definition GasFastestStep : Z := 3.
Definition GasFastStep : Z := 5.
Definition GasMidStep : Z := 8.
Definition GasSlowStep : Z := 10.
Definition GasExtStep : Z := 20.
Definition GasReturn : Z := 0.
Definition GasStop : Z := 0.
Definition GasContractByte : Z := 200.

Definition callGas (gt : GasTable) (availableGas base callCost : Z) : vres Z :=
  let gas := let avail := u64 (availableGas - base) in avail - avail / 64 in
  if (0 <? CreateBySuicide gt) && ((64 <? Big.BitLen callCost) || (gas <? Big.Uint64 callCost))
  then Ok gas
  else if 64 <? Big.BitLen callCost then Err errGasUintOverflow
  else Ok (Big.Uint64 callCost).

(** ** memory_table.go *)

Definition memorySizeFunc : Type := Stack → vres Z.

Definition calcMemSize_at (i j : nat) : memorySizeFunc := λ st,
  off ←? Back st i; l ←? Back st j; Ok (calcMemSize off l).
Definition memorySha3 : memorySizeFunc := calcMemSize_at 0 1.
Definition memoryCallDataCopy : memorySizeFunc := calcMemSize_at 0 2.
Definition memoryReturnDataCopy : memorySizeFunc := calcMemSize_at 0 2.
Definition memoryCodeCopy : memorySizeFunc := calcMemSize_at 0 2.
Definition memoryExtCodeCopy : memorySizeFunc := calcMemSize_at 1 3.
Definition memoryMLoad : memorySizeFunc := λ st, off ←? Back st 0; Ok (calcMemSize off 32).
Definition memoryMStore8 : memorySizeFunc := λ st, off ←? Back st 0; Ok (calcMemSize off 1).
Definition memoryMStore : memorySizeFunc := λ st, off ←? Back st 0; Ok (calcMemSize off 32).
Definition memoryCreate : memorySizeFunc := calcMemSize_at 1 2.
Definition memoryCreate2 : memorySizeFunc := calcMemSize_at 1 2.
Definition memoryCall : memorySizeFunc := λ st,
  x ←? calcMemSize_at 5 6 st; y ←? calcMemSize_at 3 4 st; Ok (Math.BigMax x y).
Definition memoryDelegateCall : memorySizeFunc := λ st,
  x ←? calcMemSize_at 4 5 st; y ←? calcMemSize_at 2 3 st; Ok (Math.BigMax x y).
Definition memoryStaticCall : memorySizeFunc := λ st,
  x ←? calcMemSize_at 4 5 st; y ←? calcMemSize_at 2 3 st; Ok (Math.BigMax x y).
Definition memoryReturn : memorySizeFunc := calcMemSize_at 0 1.
Definition memoryRevert : memorySizeFunc := calcMemSize_at 0 1.
Definition memoryLog : memorySizeFunc := λ st,
  mSize ←? Back st 1; mStart ←? Back st 0; Ok (calcMemSize mStart mSize).

(** ** gas_table.go *)

(** Arithmetic of [uint64]. *)
Definition memoryGasCost (m : Memory) (newMemSize : Z) : vres (Z * Memory) :=
  if newMemSize =? 0 then Ok (0, m)
  else if 0xffffffffe0 <? newMemSize then Err errGasUintOverflow
  else
    let newMemSizeWords := toWordSize newMemSize in
    let newMemSize := u64 (newMemSizeWords * 32) in
    if Len m <? newMemSize then
      let square := u64 (newMemSizeWords * newMemSizeWords) in
      let linCoef := u64 (newMemSizeWords * MemoryGas) in
      let quadCoef := square / QuadCoeffDiv in
      let newTotalFee := u64 (linCoef + quadCoef) in
      let fee := u64 (newTotalFee - lastGasCost m) in
      Ok (fee, mkMemory (store m) newTotalFee)
    else Ok (0, m).

Section GasTable.
Context {S : Type} `{!VMState S}.
Variable env : Env S.

Definition gasFunc : Type := GasTable → Z → M S Z.

Definition memGas (memorySize : Z) : M S Z :=
  m ← gets mem; r ← lift (memoryGasCost m memorySize);
  modify (with_mem r.2);; mret r.1.
(** [gas, overflow = math.SafeAdd(gas, x); overflow]: an error. *)
Definition addGas (x y : Z) : M S Z :=
  let '(g, overflow) := Math.SafeAdd x y in
  guard (negb overflow) errGasUintOverflow;; mret g.
Definition mulGas (x y : Z) : M S Z :=
  let '(g, overflow) := Math.SafeMul x y in
  guard (negb overflow) errGasUintOverflow;; mret g.
(** [words, overflow := bigUint64(stack.Back(n)); overflow]: an error. *)
Definition backUint64 (n : nat) : M S Z :=
  x ← vback n;
  let '(v, overflow) := bigUint64 x in
  guard (negb overflow) errGasUintOverflow;; mret v.

Definition constGasFunc (gas : Z) : gasFunc := λ gt memorySize, mret gas.

(** The cost of copying the words counted by [stack.Back(n)], after a fixed
    cost. *)
Definition gasCopyWords (base : Z) (n : nat) (memorySize : Z) : M S Z :=
  gas ← memGas memorySize;
  gas ← addGas gas base;
  words ← backUint64 n;
  words ← mulGas (toWordSize words) CopyGas;
  addGas gas words.
Definition gasCallDataCopy : gasFunc := λ gt, gasCopyWords GasFastestStep 2.
Definition gasReturnDataCopy : gasFunc := λ gt, gasCopyWords GasFastestStep 2.
Definition gasCodeCopy : gasFunc := λ gt, gasCopyWords GasFastestStep 2.
Definition gasExtCodeCopy : gasFunc := λ gt, gasCopyWords (ExtcodeCopy gt) 3.

Definition gasSStore : gasFunc := λ gt memorySize,
  y ← vback 1; x ← vback 0;
  c ← gets contract;
  current ← sread (sGetState (self c) (BigToHash x));
  if negb (r_IsConstantinople (chainRules env)) then
    if (current =? 0) && negb (Big.Sign y =? 0) then mret SstoreSetGas
    else if negb (current =? 0) && (Big.Sign y =? 0) then
      swrite (sAddRefund SstoreRefundGas);; mret SstoreClearGas
    else mret SstoreResetGas
  else
    let value := BigToHash y in
    if current =? value then mret NetSstoreNoopGas
    else
      original ← sread (sGetCommittedState (self c) (BigToHash x));
      if original =? current then
        if original =? 0 then mret NetSstoreInitGas
        else
          (if value =? 0 then swrite (sAddRefund NetSstoreClearRefund) else mret tt);;
          mret NetSstoreCleanGas
      else
        (if negb (original =? 0) then
           if current =? 0 then spartial PRefund (sSubRefund NetSstoreClearRefund)
           else if value =? 0 then swrite (sAddRefund NetSstoreClearRefund)
           else mret tt
         else mret tt);;
        (if original =? value then
           if original =? 0 then swrite (sAddRefund NetSstoreResetClearRefund)
           else swrite (sAddRefund NetSstoreResetRefund)
         else mret tt);;
        mret NetSstoreDirtyGas.

Definition makeGasLog (n : Z) : gasFunc := λ gt memorySize,
  requestedSize ← backUint64 1;
  gas ← memGas memorySize;
  gas ← addGas gas LogGas;
  gas ← addGas gas (u64 (n * LogTopicGas));
  memorySizeGas ← mulGas requestedSize LogDataGas;
  addGas gas memorySizeGas.
Definition gasSha3 : gasFunc := λ gt memorySize,
  gas ← memGas memorySize;
  gas ← addGas gas Sha3Gas;
  wordGas ← backUint64 1;
  wordGas ← mulGas (toWordSize wordGas) Sha3WordGas;
  addGas gas wordGas.
Definition gasExtCodeHash : gasFunc := λ gt memorySize, mret (ExtcodeHash gt).
(** The memory cost, whose error [gasMLoad] and its kin replace by their own. *)
Definition gasMemPlus (base : Z) (memorySize : Z) : M S Z :=
  gas ← memGas memorySize; addGas gas base.
Definition gasMLoad : gasFunc := λ gt, gasMemPlus GasFastestStep.
Definition gasMStore8 : gasFunc := λ gt, gasMemPlus GasFastestStep.
Definition gasMStore : gasFunc := λ gt, gasMemPlus GasFastestStep.
Definition gasCreate : gasFunc := λ gt, gasMemPlus CreateGas.
Definition gasCreate2 : gasFunc := λ gt, gasMemPlus Create2Gas.
Definition gasBalance : gasFunc := λ gt memorySize, mret (Balance gt).
Definition gasExtCodeSize : gasFunc := λ gt memorySize, mret (ExtcodeSize gt).
Definition gasSLoad : gasFunc := λ gt memorySize, mret (SLoad gt).
Definition gasExp : gasFunc := λ gt memorySize,
  e ← vback 1;
  let expByteLen := (Big.BitLen e + 7) / 8 in
  addGas (u64 (expByteLen * ExpByte gt)) GasSlowStep.

(** The end of the gas functions of calls: the gas of the callee goes to
    [evm.callGasTemp]. *)
Definition addCallGas (gt : GasTable) (gas : Z) : M S Z :=
  c ← gets contract;
  requested ← vback 0;
  let setTemp t := modify (λ m, with_evm (with_callGasTemp t (evm m)) m) in
  t ← match callGas gt (Gas c) gas requested with
      | Err e => setTemp 0;; fail e
      | r => lift r
      end;
  setTemp t;;
  addGas gas t.
Definition gasCall : gasFunc := λ gt memorySize,
  v ← vback 2; a ← vback 1;
  let gas := Calls gt in
  let transfersValue := negb (Big.Sign v =? 0) in
  let address := BigToAddress a in
  gas ← (if IsEIP158 (chainConfig env) (BlockNumber env) then
           if transfersValue then
             e ← sread (sEmpty address);
             mret (if (e : bool) then u64 (gas + CallNewAccountGas) else gas)
           else mret gas
         else
           e ← sread (sExist address);
           mret (if (e : bool) then gas else u64 (gas + CallNewAccountGas)));
  let gas := if transfersValue then u64 (gas + CallValueTransferGas) else gas in
  memoryGas ← memGas memorySize;
  gas ← addGas gas memoryGas;
  addCallGas gt gas.
Definition gasCallCode : gasFunc := λ gt memorySize,
  v ← vback 2;
  let gas := if negb (Big.Sign v =? 0) then u64 (Calls gt + CallValueTransferGas) else Calls gt in
  memoryGas ← memGas memorySize;
  gas ← addGas gas memoryGas;
  addCallGas gt gas.
Definition gasReturn : gasFunc := λ gt, memGas.
Definition gasRevert : gasFunc := λ gt, memGas.
Definition gasSuicide : gasFunc := λ gt memorySize,
  gas ← (if IsEIP150 (chainConfig env) (BlockNumber env) then
           let gas := Suicide gt in
           a ← vback 0;
           let address := BigToAddress a in
           c ← gets contract;
           if IsEIP158 (chainConfig env) (BlockNumber env) then
             e ← sread (sEmpty address);
             if (e : bool) then
               b ← sread (sGetBalance (self c));
               mret (if negb (Big.Sign b =? 0) then u64 (gas + CreateBySuicide gt) else gas)
             else mret gas
           else
             e ← sread (sExist address);
             mret (if (e : bool) then gas else u64 (gas + CreateBySuicide gt))
         else mret 0);
  c ← gets contract;
  h ← sread (sHasSuicided (self c));
  (if (h : bool) then mret tt else swrite (sAddRefund SuicideRefundGas));;
  mret gas.
Definition gasDelegateCall : gasFunc := λ gt memorySize,
  gas ← memGas memorySize; gas ← addGas gas (Calls gt); addCallGas gt gas.
Definition gasStaticCall : gasFunc := λ gt memorySize,
  gas ← memGas memorySize; gas ← addGas gas (Calls gt); addCallGas gt gas.
Definition gasPush : gasFunc := λ gt memorySize, mret GasFastestStep.
Definition gasSwap : gasFunc := λ gt memorySize, mret GasFastestStep.
Definition gasDup : gasFunc := λ gt memorySize, mret GasFastestStep.

End GasTable.
