(* ===== verification/Instructions.v ===== *)
(** * Instructions

    [core/vm/instructions.go].  The integer pool is not modelled: the
    integers it hands out are overwritten before they are read. *)

From S2P Require Import Prelude BigMath Params Analysis Memory Interfaces Machine Gas.

Definition tt255 : Z := 2 ^ 255.

(** What a message call or a contract creation hands back: the output, the gas
    left and the error value (with, for a creation, the address before them). *)
Definition call_result : Type := bytes * Z * option vmerror.
Definition create_result : Type := bytes * Z * Z * option vmerror.

(** The methods of [EVM] the instructions call back into. *)
Record Calls_of (S : Type) := mkCalls {
  evm_Call : Contract → Z → bytes → Z → Z → M S call_result;
  evm_CallCode : Contract → Z → bytes → Z → Z → M S call_result;
  evm_DelegateCall : Contract → Z → bytes → Z → M S call_result;
  evm_StaticCall : Contract → Z → bytes → Z → M S call_result;
  evm_Create : Contract → bytes → Z → Z → M S create_result;
  evm_Create2 : Contract → bytes → Z → Z → Z → M S create_result;
}.
Arguments evm_Call {S}. Arguments evm_CallCode {S}. Arguments evm_DelegateCall {S}.
Arguments evm_StaticCall {S}. Arguments evm_Create {S}. Arguments evm_Create2 {S}.

Section Instructions.
Context {S : Type} `{!VMState S} `{!Crypto}.
Variable env : Env S.
Variable calls : Calls_of S.

Definition executionFunc : Type := M S bytes.
Definition done_nil : M S bytes := mret [].
Definition bool_int (b : bool) : Z := if b then 1 else 0.

(** ** Arithmetic *)

Definition opAdd : executionFunc := x ← vpop; y ← vpeek; vset (Math.U256 (x + y));; done_nil.
Definition opSub : executionFunc := x ← vpop; y ← vpeek; vset (Math.U256 (x - y));; done_nil.
Definition opMul : executionFunc := x ← vpop; y ← vpop; vpush (Math.U256 (x * y));; done_nil.
Definition opDiv : executionFunc :=
  x ← vpop; y ← vpeek;
  (if negb (Big.Sign y =? 0) then vset (Math.U256 (x / y)) else vset 0);; done_nil.
(** [res.Div(x.Abs(x), y.Abs(y))]: on the absolute values. *)
Definition opSdiv : executionFunc :=
  x ← vpop; y ← vpop;
  let x := Math.S256 x in let y := Math.S256 y in
  (if (Big.Sign y =? 0) || (Big.Sign x =? 0) then vpush 0
   else if negb (Big.Sign x =? Big.Sign y) then vpush (Math.U256 (- (Z.abs x / Z.abs y)))
   else vpush (Math.U256 (Z.abs x / Z.abs y)));;
  done_nil.
Definition opMod : executionFunc :=
  x ← vpop; y ← vpop;
  (if Big.Sign y =? 0 then vpush 0 else vpush (Math.U256 (x mod y)));; done_nil.
Definition opSmod : executionFunc :=
  x ← vpop; y ← vpop;
  let x := Math.S256 x in let y := Math.S256 y in
  (if Big.Sign y =? 0 then vpush 0
   else if Big.Sign x <? 0 then vpush (Math.U256 (- (Z.abs x mod Z.abs y)))
   else vpush (Math.U256 (Z.abs x mod Z.abs y)));;
  done_nil.
Definition opExp : executionFunc :=
  base ← vpop; exponent ← vpop; vpush (Math.Exp base exponent);; done_nil.
Definition opSignExtend : executionFunc :=
  back ← vpop;
  (if back <? 31 then
     let bit := Big.Uint64 back * 8 + 7 in
     num ← vpop;
     let mask := Z.shiftl 1 bit - 1 in
     vpush (Math.U256 (if 0 <? Big.Bit num bit then Z.lor num (Z.lnot mask) else Z.land num mask))
   else mret tt);;
  done_nil.
Definition opNot : executionFunc := x ← vpeek; vset (Math.U256 (Z.lnot x));; done_nil.
Definition opLt : executionFunc := x ← vpop; y ← vpeek; vset (bool_int (x <? y));; done_nil.
Definition opGt : executionFunc := x ← vpop; y ← vpeek; vset (bool_int (y <? x));; done_nil.
Definition opSlt : executionFunc :=
  x ← vpop; y ← vpeek;
  vset (if (tt255 <=? x) && (y <? tt255) then 1
        else if (x <? tt255) && (tt255 <=? y) then 0
        else bool_int (x <? y));;
  done_nil.
Definition opSgt : executionFunc :=
  x ← vpop; y ← vpeek;
  vset (if (tt255 <=? x) && (y <? tt255) then 0
        else if (x <? tt255) && (tt255 <=? y) then 1
        else bool_int (y <? x));;
  done_nil.
Definition opEq : executionFunc := x ← vpop; y ← vpeek; vset (bool_int (x =? y));; done_nil.
Definition opIszero : executionFunc := x ← vpeek; vset (if 0 <? Big.Sign x then 0 else 1);; done_nil.
Definition opAnd : executionFunc := x ← vpop; y ← vpop; vpush (Z.land x y);; done_nil.
Definition opOr : executionFunc := x ← vpop; y ← vpeek; vset (Z.lor x y);; done_nil.
Definition opXor : executionFunc := x ← vpop; y ← vpeek; vset (Z.lxor x y);; done_nil.
Definition opByte : executionFunc :=
  th ← vpop; val ← vpeek;
  (if th <? 32 then vset (Math.Byte val 32 (Z.to_nat (Big.Int64 th))) else vset 0);; done_nil.
Definition opAddmod : executionFunc :=
  x ← vpop; y ← vpop; z ← vpop;
  (if 0 <? z then vpush (Math.U256 ((x + y) mod z)) else vpush 0);; done_nil.
Definition opMulmod : executionFunc :=
  x ← vpop; y ← vpop; z ← vpop;
  (if 0 <? z then vpush (Math.U256 ((x * y) mod z)) else vpush 0);; done_nil.
Definition opSHL : executionFunc :=
  shift ← vpop; value ← vpeek;
  let shift := Math.U256 shift in let value := Math.U256 value in
  vset value;;
  (if 256 <=? shift then vset 0
   else vset (Math.U256 (Z.shiftl value (Big.Uint64 shift))));;
  done_nil.
Definition opSHR : executionFunc :=
  shift ← vpop; value ← vpeek;
  let shift := Math.U256 shift in let value := Math.U256 value in
  vset value;;
  (if 256 <=? shift then vset 0
   else vset (Math.U256 (Z.shiftr value (Big.Uint64 shift))));;
  done_nil.
Definition opSAR : executionFunc :=
  shift ← vpop; value ← vpop;
  let shift := Math.U256 shift in let value := Math.S256 value in
  (if 256 <=? shift then
     vpush (Math.U256 (if 0 <=? Big.Sign value then 0 else -1))
   else vpush (Math.U256 (Z.shiftr value (Big.Uint64 shift))));;
  done_nil.

(** ** The environment *)

Definition opSha3 : executionFunc :=
  offset ← vpop; size ← vpop;
  data ← mread (λ m, Memory_Get m (Big.Int64 offset) (Big.Int64 size));
  let hash := Keccak256 data in
  (if EnablePreimageRecording env then swrite (sAddPreimage (BytesToHash hash) data) else mret tt);;
  vpush (Big.SetBytes hash);; done_nil.
Definition opAddress : executionFunc := c ← gets contract; vpush (self c);; done_nil.
Definition opBalance : executionFunc :=
  slot ← vpeek; b ← sread (sGetBalance (BigToAddress slot)); vset b;; done_nil.
Definition opOrigin : executionFunc := vpush (Origin env);; done_nil.
Definition opCaller : executionFunc := c ← gets contract; vpush (CallerAddress c);; done_nil.
Definition opCallValue : executionFunc := c ← gets contract; vpush (value c);; done_nil.
Definition opCallDataLoad : executionFunc :=
  c ← gets contract; off ← vpop;
  d ← lift (getDataBig (Input c) off 32); vpush (Big.SetBytes d);; done_nil.
Definition opCallDataSize : executionFunc := c ← gets contract; vpush (zlen (Input c));; done_nil.
Definition opCallDataCopy : executionFunc :=
  memOffset ← vpop; dataOffset ← vpop; length ← vpop;
  c ← gets contract;
  d ← lift (getDataBig (Input c) dataOffset length);
  mwrite (λ m, Memory_Set m (Big.Uint64 memOffset) (Big.Uint64 length) d);; done_nil.
Definition opReturnDataSize : executionFunc :=
  v ← gets evm; vpush (zlen (returnData v));; done_nil.
Definition opReturnDataCopy : executionFunc :=
  memOffset ← vpop; dataOffset ← vpop; length ← vpop;
  let e := dataOffset + length in
  v ← gets evm;
  guard (negb ((64 <? Big.BitLen e) || (zlen (returnData v) <? Big.Uint64 e))) errReturnDataOutOfBounds;;
  d ← lift (slice (returnData v) (Big.Uint64 dataOffset) (Big.Uint64 e));
  mwrite (λ m, Memory_Set m (Big.Uint64 memOffset) (Big.Uint64 length) d);; done_nil.
Definition opExtCodeSize : executionFunc :=
  slot ← vpeek; n ← sread (sGetCodeSize (BigToAddress slot)); vset (u64 n);; done_nil.
Definition opCodeSize : executionFunc := c ← gets contract; vpush (zlen (Code c));; done_nil.
Definition opCodeCopy : executionFunc :=
  memOffset ← vpop; codeOffset ← vpop; length ← vpop;
  c ← gets contract;
  codeCopy ← lift (getDataBig (Code c) codeOffset length);
  mwrite (λ m, Memory_Set m (Big.Uint64 memOffset) (Big.Uint64 length) codeCopy);; done_nil.
Definition opExtCodeCopy : executionFunc :=
  addr ← vpop; memOffset ← vpop; codeOffset ← vpop; length ← vpop;
  code ← sread (sGetCode (BigToAddress addr));
  codeCopy ← lift (getDataBig code codeOffset length);
  mwrite (λ m, Memory_Set m (Big.Uint64 memOffset) (Big.Uint64 length) codeCopy);; done_nil.
Definition opExtCodeHash : executionFunc :=
  slot ← vpeek; h ← sread (sGetCodeHash (BigToAddress slot)); vset h;; done_nil.
Definition opGasprice : executionFunc := vpush (GasPrice env);; done_nil.
Definition opBlockhash : executionFunc :=
  num ← vpop;
  let n := BlockNumber env - 257 in
  (if (n <? num) && (num <? BlockNumber env) then vpush (GetHash env (Big.Uint64 num)) else vpush 0);;
  done_nil.
Definition opCoinbase : executionFunc := vpush (Coinbase env);; done_nil.
Definition opTimestamp : executionFunc := vpush (Math.U256 (Time env));; done_nil.
Definition opNumber : executionFunc := vpush (Math.U256 (BlockNumber env));; done_nil.
Definition opDifficulty : executionFunc := vpush (Math.U256 (Difficulty env));; done_nil.
Definition opGasLimit : executionFunc := vpush (Math.U256 (GasLimit env));; done_nil.

(** ** Stack, memory, storage and control flow *)

Definition opPop : executionFunc := vpop;; done_nil.
Definition opMload : executionFunc :=
  offset ← vpop; d ← mread (λ m, Memory_Get m (Big.Int64 offset) 32);
  vpush (Big.SetBytes d);; done_nil.
Definition opMstore : executionFunc :=
  mStart ← vpop; val ← vpop; mwrite (λ m, Memory_Set32 m (Big.Uint64 mStart) val);; done_nil.
Definition opMstore8 : executionFunc :=
  off ← vpop; val ← vpop;
  mwrite (λ m, store_byte m (Big.Int64 off) (Z.land (Big.Int64 val) 0xff));; done_nil.
Definition opSload : executionFunc :=
  loc ← vpeek; c ← gets contract;
  val ← sread (sGetState (self c) (BigToHash loc)); vset val;; done_nil.
Definition opSstore : executionFunc :=
  loc ← vpop; val ← vpop; c ← gets contract;
  swrite (sSetState (self c) (BigToHash loc) (BigToHash val));; done_nil.
(** [contract.jumpdests.has(contract.CodeHash, contract.Code, pos)] *)
Definition jumpdest_has (pos : Z) : M S bool := λ m,
  match has (jumpdests (evm m)) (CodeHash (contract m)) (Code (contract m)) pos with
  | Ok (b, d) => Done b (with_evm (with_jumpdests d (evm m)) m)
  | OutOfFuel => NoFuel
  | _ => Crash PCache
  end.
Definition jump_to (pos : Z) : M S unit :=
  ok ← jumpdest_has pos; c ← gets contract;
  guard ok (errInvalidJump (GetOp c (Big.Uint64 pos)) pos);;
  modify (with_pc (Big.Uint64 pos)).
Definition opJump : executionFunc := pos ← vpop; jump_to pos;; done_nil.
Definition opJumpi : executionFunc :=
  pos ← vpop; cond ← vpop;
  (if negb (Big.Sign cond =? 0) then jump_to pos else modify (λ m, with_pc (u64 (pc m + 1)) m));;
  done_nil.
Definition opJumpdest : executionFunc := done_nil.
Definition opPc : executionFunc := p ← gets pc; vpush p;; done_nil.
Definition opMsize : executionFunc := m ← gets mem; vpush (Len m);; done_nil.
Definition opGas : executionFunc := c ← gets contract; vpush (Gas c);; done_nil.

(** ** Calls and creations *)

(** [contract.Gas += returnGas] *)
Definition returnGas (g : Z) : M S unit :=
  modify (λ m, with_contract (set_Gas (u64 (Gas (contract m) + g)) (contract m)) m).
(** [contract.UseGas(gas)], the result ignored. *)
Definition useGas (g : Z) : M S unit :=
  modify (λ m, with_contract (default (contract m) (UseGas g (contract m))) m).
Definition opCreate : executionFunc :=
  value ← vpop; offset ← vpop; size ← vpop;
  input ← mread (λ m, Memory_Get m (Big.Int64 offset) (Big.Int64 size));
  c ← gets contract;
  let gas := if IsEIP150 (chainConfig env) (BlockNumber env) then Gas c - Gas c / 64 else Gas c in
  useGas gas;;
  c ← gets contract;
  '(res, addr, g, suberr) ← evm_Create calls c input gas value;
  (if IsHomestead (chainConfig env) (BlockNumber env) && bool_decide (suberr = Some ErrCodeStoreOutOfGas)
   then vpush 0
   else if negb (bool_decide (suberr = None)) && negb (bool_decide (suberr = Some ErrCodeStoreOutOfGas))
   then vpush 0
   else vpush addr);;
  returnGas g;;
  mret (if bool_decide (suberr = Some errExecutionReverted) then res else []).
Definition opCreate2 : executionFunc :=
  endowment ← vpop; offset ← vpop; size ← vpop; salt ← vpop;
  input ← mread (λ m, Memory_Get m (Big.Int64 offset) (Big.Int64 size));
  c ← gets contract;
  let gas := Gas c - Gas c / 64 in
  useGas gas;;
  c ← gets contract;
  '(res, addr, g, suberr) ← evm_Create2 calls c input gas endowment salt;
  (if bool_decide (suberr = None) then vpush addr else vpush 0);;
  returnGas g;;
  mret (if bool_decide (suberr = Some errExecutionReverted) then res else []).

(** What the four call instructions do with the result: push the outcome,
    copy the output to memory, take back the gas. *)
Definition after_call (retOffset retSize : Z) (r : call_result) : M S bytes :=
  let '(out, g, err) := r in
  vpush (bool_int (bool_decide (err = None)));;
  (if bool_decide (err = None) || bool_decide (err = Some errExecutionReverted)
   then mwrite (λ m, Memory_Set m (Big.Uint64 retOffset) (Big.Uint64 retSize) out) else mret tt);;
  returnGas g;;
  mret out.
Definition opCall : executionFunc :=
  vpop;; v ← gets evm;
  let gas := callGasTemp v in
  addr ← vpop; value ← vpop; inOffset ← vpop; inSize ← vpop; retOffset ← vpop; retSize ← vpop;
  let value := Math.U256 value in
  args ← mread (λ m, Memory_Get m (Big.Int64 inOffset) (Big.Int64 inSize));
  let gas := if negb (Big.Sign value =? 0) then u64 (gas + CallStipend) else gas in
  c ← gets contract;
  r ← evm_Call calls c (BigToAddress addr) args gas value;
  after_call retOffset retSize r.
Definition opCallCode : executionFunc :=
  vpop;; v ← gets evm;
  let gas := callGasTemp v in
  addr ← vpop; value ← vpop; inOffset ← vpop; inSize ← vpop; retOffset ← vpop; retSize ← vpop;
  let value := Math.U256 value in
  args ← mread (λ m, Memory_Get m (Big.Int64 inOffset) (Big.Int64 inSize));
  let gas := if negb (Big.Sign value =? 0) then u64 (gas + CallStipend) else gas in
  c ← gets contract;
  r ← evm_CallCode calls c (BigToAddress addr) args gas value;
  after_call retOffset retSize r.
Definition opDelegateCall : executionFunc :=
  vpop;; v ← gets evm;
  let gas := callGasTemp v in
  addr ← vpop; inOffset ← vpop; inSize ← vpop; retOffset ← vpop; retSize ← vpop;
  args ← mread (λ m, Memory_Get m (Big.Int64 inOffset) (Big.Int64 inSize));
  c ← gets contract;
  r ← evm_DelegateCall calls c (BigToAddress addr) args gas;
  after_call retOffset retSize r.
Definition opStaticCall : executionFunc :=
  vpop;; v ← gets evm;
  let gas := callGasTemp v in
  addr ← vpop; inOffset ← vpop; inSize ← vpop; retOffset ← vpop; retSize ← vpop;
  args ← mread (λ m, Memory_Get m (Big.Int64 inOffset) (Big.Int64 inSize));
  c ← gets contract;
  r ← evm_StaticCall calls c (BigToAddress addr) args gas;
  after_call retOffset retSize r.

(** ** Ending a frame *)

Definition opReturn : executionFunc :=
  offset ← vpop; size ← vpop; mread (λ m, GetPtr m (Big.Int64 offset) (Big.Int64 size)).
Definition opRevert : executionFunc :=
  offset ← vpop; size ← vpop; mread (λ m, GetPtr m (Big.Int64 offset) (Big.Int64 size)).
Definition opStop : executionFunc := done_nil.
Definition opSuicide : executionFunc :=
  c ← gets contract;
  balance ← sread (sGetBalance (self c));
  a ← vpop;
  swrite (sAddBalance (BigToAddress a) balance);;
  sread (sSuicide (self c));; done_nil.

(** ** Instructions made for a width *)

Fixpoint pop_topics (n : nat) : M S (list Z) :=
  match n with
  | O => mret []
  | Datatypes.S n => x ← vpop; r ← pop_topics n; mret (BigToHash x :: r)
  end.
Definition makeLog (size : nat) : executionFunc :=
  mStart ← vpop; mSize ← vpop;
  topics ← pop_topics size;
  d ← mread (λ m, Memory_Get m (Big.Int64 mStart) (Big.Int64 mSize));
  c ← gets contract;
  swrite (sAddLog (mkLog (self c) topics d (Big.Uint64 (BlockNumber env)) 0 0 0 0));; done_nil.
Definition makePush (size pushByteSize : Z) : executionFunc :=
  c ← gets contract; p ← gets pc;
  let codeLen := zlen (Code c) in
  let p1 := int_of_u64 (u64 (p + 1)) in
  let startMin := if p1 <? codeLen then p1 else codeLen in
  let endMin := if startMin + pushByteSize <? codeLen then startMin + pushByteSize else codeLen in
  d ← lift (slice (Code c) startMin endMin);
  vpush (Big.SetBytes (RightPadBytes d (Z.to_nat pushByteSize)));;
  modify (with_pc (u64 (p + size)));; done_nil.
Definition makeDup (size : nat) : executionFunc :=
  st ← gets stack; st' ← lift (dup size st); modify (with_stack st');; done_nil.
Definition makeSwap (size : nat) : executionFunc :=
  st ← gets stack; st' ← lift (swap (Datatypes.S size) st); modify (with_stack st');; done_nil.

End Instructions.
