(* ===== verification/JumpTable.v ===== *)
(** * Instruction sets

    [core/vm/jump_table.go]: for every opcode its execution, gas, stack and
    memory functions and its flags, per fork.  A [[256]operation] array is an
    association list read from the front; absent opcodes are the zero
    [operation], which is not valid. *)

From S2P Require Import Prelude BigMath Params Analysis Memory Interfaces Machine Gas Instructions.

Section JumpTable.
Context {S : Type} `{!VMState S} `{!Crypto}.
Variable env : Env S.
Variable calls : Calls_of S.

Record operation := mkOperation {
  execute : M S bytes;
  gasCost : GasTable → Z → M S Z;
  validateStack : Stack → vres unit;
  memorySize : option (Stack → vres Z);
  halts : bool;
  jumps : bool;
  writes : bool;
  valid : bool;
  reverts : bool;
  returns : bool;
}.

(** The zero value, and the fields an entry of the tables sets. *)
Definition invalid : operation :=
  mkOperation (crash PIndex) (λ _ _, crash PIndex) (λ _, Panic) None false false false false false false.
Definition op (ex : M S bytes) (g : GasTable → Z → M S Z) (v : Stack → vres unit) : operation :=
  mkOperation ex g v None false false false true false false.
Definition memory (f : Stack → vres Z) (o : operation) : operation :=
  mkOperation (execute o) (gasCost o) (validateStack o) (Some f) (halts o) (jumps o) (writes o) (valid o) (reverts o) (returns o).
Definition halting (o : operation) : operation :=
  mkOperation (execute o) (gasCost o) (validateStack o) (memorySize o) true (jumps o) (writes o) (valid o) (reverts o) (returns o).
Definition jumping (o : operation) : operation :=
  mkOperation (execute o) (gasCost o) (validateStack o) (memorySize o) (halts o) true (writes o) (valid o) (reverts o) (returns o).
Definition writing (o : operation) : operation :=
  mkOperation (execute o) (gasCost o) (validateStack o) (memorySize o) (halts o) (jumps o) true (valid o) (reverts o) (returns o).
Definition reverting (o : operation) : operation :=
  mkOperation (execute o) (gasCost o) (validateStack o) (memorySize o) (halts o) (jumps o) (writes o) (valid o) true (returns o).
Definition returning (o : operation) : operation :=
  mkOperation (execute o) (gasCost o) (validateStack o) (memorySize o) (halts o) (jumps o) (writes o) (valid o) (reverts o) true.

(** ** The frontier instruction set *)

Definition frontier_arithmetic : list (Z * operation) :=
  [(STOP, halting (op opStop (constGasFunc 0) (makeStackFunc 0 0)));
   (ADD, op opAdd (constGasFunc GasFastestStep) (makeStackFunc 2 1));
   (MUL, op opMul (constGasFunc GasFastStep) (makeStackFunc 2 1));
   (SUB, op opSub (constGasFunc GasFastestStep) (makeStackFunc 2 1));
   (DIV, op opDiv (constGasFunc GasFastStep) (makeStackFunc 2 1));
   (SDIV, op opSdiv (constGasFunc GasFastStep) (makeStackFunc 2 1));
   (MOD, op opMod (constGasFunc GasFastStep) (makeStackFunc 2 1));
   (SMOD, op opSmod (constGasFunc GasFastStep) (makeStackFunc 2 1));
   (ADDMOD, op opAddmod (constGasFunc GasMidStep) (makeStackFunc 3 1));
   (MULMOD, op opMulmod (constGasFunc GasMidStep) (makeStackFunc 3 1));
   (EXP, op opExp gasExp (makeStackFunc 2 1));
   (SIGNEXTEND, op opSignExtend (constGasFunc GasFastStep) (makeStackFunc 2 1));
   (LT, op opLt (constGasFunc GasFastestStep) (makeStackFunc 2 1));
   (GT, op opGt (constGasFunc GasFastestStep) (makeStackFunc 2 1));
   (SLT, op opSlt (constGasFunc GasFastestStep) (makeStackFunc 2 1));
   (SGT, op opSgt (constGasFunc GasFastestStep) (makeStackFunc 2 1));
   (EQ, op opEq (constGasFunc GasFastestStep) (makeStackFunc 2 1));
   (ISZERO, op opIszero (constGasFunc GasFastestStep) (makeStackFunc 1 1));
   (AND, op opAnd (constGasFunc GasFastestStep) (makeStackFunc 2 1));
   (XOR, op opXor (constGasFunc GasFastestStep) (makeStackFunc 2 1));
   (OR, op opOr (constGasFunc GasFastestStep) (makeStackFunc 2 1));
   (NOT, op opNot (constGasFunc GasFastestStep) (makeStackFunc 1 1));
   (BYTE, op opByte (constGasFunc GasFastestStep) (makeStackFunc 2 1))].

Definition frontier_environment : list (Z * operation) :=
  [(SHA3, memory memorySha3 (op (opSha3 env) gasSha3 (makeStackFunc 2 1)));
   (ADDRESS, op opAddress (constGasFunc GasQuickStep) (makeStackFunc 0 1));
   (BALANCE, op opBalance gasBalance (makeStackFunc 1 1));
   (ORIGIN, op (opOrigin env) (constGasFunc GasQuickStep) (makeStackFunc 0 1));
   (CALLER, op opCaller (constGasFunc GasQuickStep) (makeStackFunc 0 1));
   (CALLVALUE, op opCallValue (constGasFunc GasQuickStep) (makeStackFunc 0 1));
   (CALLDATALOAD, op opCallDataLoad (constGasFunc GasFastestStep) (makeStackFunc 1 1));
   (CALLDATASIZE, op opCallDataSize (constGasFunc GasQuickStep) (makeStackFunc 0 1));
   (CALLDATACOPY, memory memoryCallDataCopy (op opCallDataCopy gasCallDataCopy (makeStackFunc 3 0)));
   (CODESIZE, op opCodeSize (constGasFunc GasQuickStep) (makeStackFunc 0 1));
   (CODECOPY, memory memoryCodeCopy (op opCodeCopy gasCodeCopy (makeStackFunc 3 0)));
   (GASPRICE, op (opGasprice env) (constGasFunc GasQuickStep) (makeStackFunc 0 1));
   (EXTCODESIZE, op opExtCodeSize gasExtCodeSize (makeStackFunc 1 1));
   (EXTCODECOPY, memory memoryExtCodeCopy (op opExtCodeCopy gasExtCodeCopy (makeStackFunc 4 0)));
   (BLOCKHASH, op (opBlockhash env) (constGasFunc GasExtStep) (makeStackFunc 1 1));
   (COINBASE, op (opCoinbase env) (constGasFunc GasQuickStep) (makeStackFunc 0 1));
   (TIMESTAMP, op (opTimestamp env) (constGasFunc GasQuickStep) (makeStackFunc 0 1));
   (NUMBER, op (opNumber env) (constGasFunc GasQuickStep) (makeStackFunc 0 1));
   (DIFFICULTY, op (opDifficulty env) (constGasFunc GasQuickStep) (makeStackFunc 0 1));
   (GASLIMIT, op (opGasLimit env) (constGasFunc GasQuickStep) (makeStackFunc 0 1))].

Definition frontier_storage : list (Z * operation) :=
  [(POP, op opPop (constGasFunc GasQuickStep) (makeStackFunc 1 0));
   (MLOAD, memory memoryMLoad (op opMload gasMLoad (makeStackFunc 1 1)));
   (MSTORE, memory memoryMStore (op opMstore gasMStore (makeStackFunc 2 0)));
   (MSTORE8, memory memoryMStore8 (op opMstore8 gasMStore8 (makeStackFunc 2 0)));
   (SLOAD, op opSload gasSLoad (makeStackFunc 1 1));
   (SSTORE, writing (op opSstore (gasSStore env) (makeStackFunc 2 0)));
   (JUMP, jumping (op opJump (constGasFunc GasMidStep) (makeStackFunc 1 0)));
   (JUMPI, jumping (op opJumpi (constGasFunc GasSlowStep) (makeStackFunc 2 0)));
   (PC, op opPc (constGasFunc GasQuickStep) (makeStackFunc 0 1));
   (MSIZE, op opMsize (constGasFunc GasQuickStep) (makeStackFunc 0 1));
   (GAS, op opGas (constGasFunc GasQuickStep) (makeStackFunc 0 1));
   (JUMPDEST, op opJumpdest (constGasFunc JumpdestGas) (makeStackFunc 0 0))].

Definition push_entry (n : Z) : Z * operation :=
  (PUSH n, op (makePush n n) gasPush (makeStackFunc 0 1)).
Definition frontier_push_low : list (Z * operation) :=
  map push_entry [1; 2; 3; 4; 5; 6; 7; 8; 9; 10; 11; 12; 13; 14; 15; 16].
Definition frontier_push_high : list (Z * operation) :=
  map push_entry [17; 18; 19; 20; 21; 22; 23; 24; 25; 26; 27; 28; 29; 30; 31; 32].
Definition frontier_dup : list (Z * operation) :=
  map (λ n, (DUP n, op (makeDup (Z.to_nat n)) gasDup (makeDupStackFunc n)))
    [1; 2; 3; 4; 5; 6; 7; 8; 9; 10; 11; 12; 13; 14; 15; 16].
Definition frontier_swap : list (Z * operation) :=
  map (λ n, (SWAP n, op (makeSwap (Z.to_nat n)) gasSwap (makeSwapStackFunc (n + 1))))
    [1; 2; 3; 4; 5; 6; 7; 8; 9; 10; 11; 12; 13; 14; 15; 16].
Definition frontier_log : list (Z * operation) :=
  map (λ n, (LOG n, writing (memory memoryLog
                      (op (makeLog env (Z.to_nat n)) (makeGasLog n) (makeStackFunc (n + 2) 0)))))
    [0; 1; 2; 3; 4].
Definition frontier_system : list (Z * operation) :=
  [(CREATE, writing (returning (memory memoryCreate (op (opCreate env calls) gasCreate (makeStackFunc 3 1)))));
   (CALL, returning (memory memoryCall (op (opCall calls) (gasCall env) (makeStackFunc 7 1))));
   (CALLCODE, returning (memory memoryCall (op (opCallCode calls) gasCallCode (makeStackFunc 7 1))));
   (RETURN, halting (memory memoryReturn (op opReturn gasReturn (makeStackFunc 2 0))));
   (SELFDESTRUCT, halting (writing (op opSuicide (gasSuicide env) (makeStackFunc 1 0))))].

Definition newFrontierInstructionSet : list (Z * operation) :=
  frontier_arithmetic ++ frontier_environment ++ frontier_storage ++ frontier_push_low ++
  frontier_push_high ++ frontier_dup ++ frontier_swap ++ frontier_log ++ frontier_system.

(** ** The later instruction sets *)

Definition newHomesteadInstructionSet : list (Z * operation) :=
  [(DELEGATECALL, returning (memory memoryDelegateCall (op (opDelegateCall calls) gasDelegateCall (makeStackFunc 6 1))))]
  ++ newFrontierInstructionSet.
Definition newByzantiumInstructionSet : list (Z * operation) :=
  [(STATICCALL, returning (memory memoryStaticCall (op (opStaticCall calls) gasStaticCall (makeStackFunc 6 1))));
   (RETURNDATASIZE, op opReturnDataSize (constGasFunc GasQuickStep) (makeStackFunc 0 1));
   (RETURNDATACOPY, memory memoryReturnDataCopy (op opReturnDataCopy gasReturnDataCopy (makeStackFunc 3 0)));
   (REVERT, reverting (returning (memory memoryRevert (op opRevert gasRevert (makeStackFunc 2 0)))))]
  ++ newHomesteadInstructionSet.
Definition newConstantinopleInstructionSet : list (Z * operation) :=
  [(SHL, op opSHL (constGasFunc GasFastestStep) (makeStackFunc 2 1));
   (SHR, op opSHR (constGasFunc GasFastestStep) (makeStackFunc 2 1));
   (SAR, op opSAR (constGasFunc GasFastestStep) (makeStackFunc 2 1));
   (EXTCODEHASH, op opExtCodeHash gasExtCodeHash (makeStackFunc 1 1));
   (CREATE2, writing (returning (memory memoryCreate2 (op (opCreate2 calls) gasCreate2 (makeStackFunc 4 1)))))]
  ++ newByzantiumInstructionSet.

(** [JumpTable[op]] *)
Definition lookup_op (set : list (Z * operation)) (o : Z) : operation :=
  match find (λ e, e.1 =? o) set with
  | Some e => e.2
  | None => invalid
  end.

(** [NewEVMInterpreter]'s choice of the table. *)
Definition JumpTable : list (Z * operation) :=
  let c := chainConfig env in let n := BlockNumber env in
  if IsConstantinople c n then newConstantinopleInstructionSet
  else if IsByzantium c n then newByzantiumInstructionSet
  else if IsHomestead c n then newHomesteadInstructionSet
  else newFrontierInstructionSet.

End JumpTable.
