(* ===== verification/Precompiles.v ===== *)
(** * Precompiled contracts

    [core/vm/contracts.go], with [ValidateSignatureValues] of
    [crypto/crypto.go].  The hash functions and the curve arithmetic are
    parameters ([PrecompileCrypto]): they are C and assembly code, or vendored
    packages. *)

From S2P Require Import Prelude BigMath Params Memory Interfaces.

Class PrecompileCrypto := {
  sha256_Sum256 : bytes → bytes;
  ripemd160_Sum : bytes → bytes;
  (** [crypto.Ecrecover(hash, sig)]: the 65-byte public key, or an error. *)
  Ecrecover : bytes → bytes → option bytes;
  (** [crypto/bn256]: points, decoding with the curve check, operations. *)
  G1 : Type;
  G2 : Type;
  G1_Unmarshal : bytes → option G1;
  G2_Unmarshal : bytes → option G2;
  G1_Add : G1 → G1 → G1;
  G1_ScalarMult : G1 → Z → G1;
  G1_Marshal : G1 → bytes;
  PairingCheck : list G1 → list G2 → bool;
  Ecrecover_length : ∀ h sig k, Ecrecover h sig = Some k → length k = 65%nat;
}.

Definition secp256k1N : Z :=
  0xfffffffffffffffffffffffffffffffebaaedce6af48a03bbfd25e8cd0364141.
Definition secp256k1halfN : Z := secp256k1N / 2.
Definition ValidateSignatureValues (v r s : Z) (homestead : bool) : bool :=
  if (r <? 1) || (s <? 1) then false
  else if homestead && (secp256k1halfN <? s) then false
  else (r <? secp256k1N) && (s <? secp256k1N) && ((v =? 0) || (v =? 1)).

Inductive PrecompiledContract :=
| ecrecover | sha256hash | ripemd160hash | dataCopy
| bigModExp | bn256Add | bn256ScalarMul | bn256Pairing.

Definition PrecompiledContractsHomestead (a : Z) : option PrecompiledContract :=
  match a with
  | 1 => Some ecrecover
  | 2 => Some sha256hash
  | 3 => Some ripemd160hash
  | 4 => Some dataCopy
  | _ => None
  end.
Definition PrecompiledContractsByzantium (a : Z) : option PrecompiledContract :=
  match a with
  | 1 => Some ecrecover
  | 2 => Some sha256hash
  | 3 => Some ripemd160hash
  | 4 => Some dataCopy
  | 5 => Some bigModExp
  | 6 => Some bn256Add
  | 7 => Some bn256ScalarMul
  | 8 => Some bn256Pairing
  | _ => None
  end.

(** The only Go errors of a precompile are those of the bn256 functions. *)
Definition errMalformedPoint : vmerror := errPrecompile 1.
Definition errBadPairingInput : vmerror := errPrecompile 2.

(** ** Gas *)

Definition words32 (input : bytes) : Z := u64 (zlen input + 31) / 32.

(** The input after the three 32-byte lengths. *)
Definition after_header (input : bytes) : bytes := drop 96 input.

Definition bigModExp_complexity (x : Z) : Z :=
  if x <=? 64 then x * x
  else if x <=? 1024 then (x * x) / 4 + (96 * x - 3072)
  else (x * x) / 16 + (480 * x - 199680).
Definition bigModExp_RequiredGas (input : bytes) : vres Z :=
  d0 ←? getData input 0 32;
  d1 ←? getData input 32 32;
  d2 ←? getData input 64 32;
  let baseLen := Big.SetBytes d0 in
  let expLen := Big.SetBytes d1 in
  let modLen := Big.SetBytes d2 in
  let input := after_header input in
  expHead ←? (if zlen input <=? baseLen then Ok 0
              else
                d ←? getData input (Big.Uint64 baseLen)
                       (if 32 <? expLen then 32 else Big.Uint64 expLen);
                Ok (Big.SetBytes d));
  let bitlen := Big.BitLen expHead in
  let msb := if 0 <? bitlen then bitlen - 1 else 0 in
  let adjExpLen := (if 32 <? expLen then 8 * (expLen - 32) else 0) + msb in
  let gas := bigModExp_complexity (Math.BigMax modLen baseLen) in
  let gas := (gas * Math.BigMax adjExpLen 1) / ModExpQuadCoeffDiv in
  Ok (if 64 <? Big.BitLen gas then MaxUint64 else Big.Uint64 gas).
Definition RequiredGas (p : PrecompiledContract) (input : bytes) : vres Z :=
  match p with
  | ecrecover => Ok EcrecoverGas
  | sha256hash => Ok (u64 (words32 input * Sha256PerWordGas + Sha256BaseGas))
  | ripemd160hash => Ok (u64 (words32 input * Ripemd160PerWordGas + Ripemd160BaseGas))
  | dataCopy => Ok (u64 (words32 input * IdentityPerWordGas + IdentityBaseGas))
  | bigModExp => bigModExp_RequiredGas input
  | bn256Add => Ok Bn256AddGas
  | bn256ScalarMul => Ok Bn256ScalarMulGas
  | bn256Pairing => Ok (u64 (Bn256PairingBaseGas + zlen input / 192 * Bn256PairingPerPointGas))
  end.

(** ** Running *)

(** [big.Int.Exp(base, exp, mod)] for positive [mod] and non-negative [exp],
    by repeated squaring over the bits of [exp]. *)
Fixpoint powmod_pos (base : Z) (e : positive) (m : Z) : Z :=
  match e with
  | xH => base mod m
  | xO e => let r := powmod_pos base e m in (r * r) mod m
  | xI e => let r := powmod_pos base e m in ((r * r) mod m * base) mod m
  end.
Definition Big_Exp (base e m : Z) : Z :=
  match e with
  | Zpos p => powmod_pos base p m
  | _ => 1 mod m
  end.

Section Run.
Context `{!Crypto} `{!PrecompileCrypto}.

Definition ecrecover_Run (input : bytes) : vres bytes :=
  let input := RightPadBytes input 128 in
  let r := Big.SetBytes (take 32 (drop 64 input)) in
  let s := Big.SetBytes (take 32 (drop 96 input)) in
  let v := (default 0 (input !! 63%nat) - 27) mod 256 in
  if negb (allZero (take 31 (drop 32 input))) || negb (ValidateSignatureValues v r s false)
  then Ok []
  else
    match Ecrecover (take 32 input) (take 64 (drop 64 input) ++ [v]) with
    | None => Ok []
    | Some pubKey => Ok (LeftPadBytes (drop 12 (Keccak256 (drop 1 pubKey))) 32)
    end.
(** What [input] holds afterwards: [append(input[64:128], v)] writes past the
    signature when the caller's slice is longer than 128 bytes. *)
Definition ecrecover_input_after (input : bytes) : bytes :=
  let v := (default 0 (input !! 63%nat) - 27) mod 256 in
  let r := Big.SetBytes (take 32 (drop 64 input)) in
  let s := Big.SetBytes (take 32 (drop 96 input)) in
  if (128 <? zlen input) && allZero (take 31 (drop 32 input)) && ValidateSignatureValues v r s false
  then <[128%nat := v]> input else input.

Definition bigModExp_Run (input : bytes) : vres bytes :=
  d0 ←? getData input 0 32;
  d1 ←? getData input 32 32;
  d2 ←? getData input 64 32;
  let baseLen := Big.Uint64 (Big.SetBytes d0) in
  let expLen := Big.Uint64 (Big.SetBytes d1) in
  let modLen := Big.Uint64 (Big.SetBytes d2) in
  let input := after_header input in
  if (baseLen =? 0) && (modLen =? 0) then Ok []
  else
    b ←? getData input 0 baseLen;
    e ←? getData input baseLen expLen;
    m ←? getData input (u64 (baseLen + expLen)) modLen;
    let mod_ := Big.SetBytes m in
    let pad := Z.to_nat (int_of_u64 modLen) in
    if Big.BitLen mod_ =? 0 then Ok (LeftPadBytes [] pad)
    else Ok (LeftPadBytes (Big.Bytes (Big_Exp (Big.SetBytes b) (Big.SetBytes e) mod_)) pad).

Definition newCurvePoint (blob : bytes) : vres G1 :=
  match G1_Unmarshal blob with Some p => Ok p | None => Err errMalformedPoint end.
Definition newTwistPoint (blob : bytes) : vres G2 :=
  match G2_Unmarshal blob with Some p => Ok p | None => Err errMalformedPoint end.
Definition bn256Add_Run (input : bytes) : vres bytes :=
  d0 ←? getData input 0 64; x ←? newCurvePoint d0;
  d1 ←? getData input 64 64; y ←? newCurvePoint d1;
  Ok (G1_Marshal (G1_Add x y)).
Definition bn256ScalarMul_Run (input : bytes) : vres bytes :=
  d0 ←? getData input 0 64; p ←? newCurvePoint d0;
  d1 ←? getData input 64 32;
  Ok (G1_Marshal (G1_ScalarMult p (Big.SetBytes d1))).
Definition true32Byte : bytes := replicate 31 0 ++ [1].
Definition false32Byte : bytes := replicate 32 0.
(** The loop over the 192-byte chunks; one unit of fuel per chunk. *)
Fixpoint pairing_points (fuel : nat) (i : Z) (input : bytes) : vres (list G1 * list G2) :=
  if zlen input <=? i then Ok ([], [])
  else
    match fuel with
    | O => OutOfFuel
    | S fuel =>
        b1 ←? slice input i (i + 64); c ←? newCurvePoint b1;
        b2 ←? slice input (i + 64) (i + 192); t ←? newTwistPoint b2;
        r ←? pairing_points fuel (i + 192) input;
        Ok (c :: r.1, t :: r.2)
    end.
Definition bn256Pairing_Run (input : bytes) : vres bytes :=
  if 0 <? zlen input mod 192 then Err errBadPairingInput
  else
    r ←? pairing_points (length input) 0 input;
    Ok (if PairingCheck r.1 r.2 then true32Byte else false32Byte).

Definition Precompiled_Run (p : PrecompiledContract) (input : bytes) : vres bytes :=
  match p with
  | ecrecover => ecrecover_Run input
  | sha256hash => Ok (sha256_Sum256 input)
  | ripemd160hash => Ok (LeftPadBytes (ripemd160_Sum input) 32)
  | dataCopy => Ok input
  | bigModExp => bigModExp_Run input
  | bn256Add => bn256Add_Run input
  | bn256ScalarMul => bn256ScalarMul_Run input
  | bn256Pairing => bn256Pairing_Run input
  end.

End Run.
