(* ===== verification/Evm.v ===== *)
(** * The virtual machine

    [core/vm/interpreter.go] and [core/vm/evm.go]: the interpreter loop,
    message calls and contract creation, which call each other.  The loop
    takes fuel; a nested call runs on what fuel is left.  [VmLoop.v] shows
    that more fuel than gas is enough. *)

From S2P Require Import Prelude BigMath Params Analysis Memory Rlp Interfaces.
From S2P Require Import Machine Gas Instructions JumpTable Precompiles.

(** ** Computations of [EVM] methods

    They change the [evmst]; Go errors are part of their results. *)
Inductive eout (S A : Type) :=
| EDone (a : A) (v : evmst S)
| ECrash (w : why)
| ENoFuel.
Arguments EDone {S A}. Arguments ECrash {S A}. Arguments ENoFuel {S A}.
Definition E (S A : Type) := evmst S → eout S A.
#[export] Instance E_ret S : MRet (E S) := λ A a, EDone a.
#[export] Instance E_bind S : MBind (E S) := λ A B k x v,
  match x v with
  | EDone a v => k a v
  | ECrash w => ECrash w
  | ENoFuel => ENoFuel
  end.

Section Evm.
Context {S : Type} `{!VMState S} `{!Crypto} `{!PrecompileCrypto}.
Variable env : Env S.

Definition egets {A} (f : evmst S → A) : E S A := λ v, EDone (f v) v.
Definition emodify (f : evmst S → evmst S) : E S unit := λ v, EDone tt (f v).
Definition eread {A} (f : S → A * S) : E S A := λ v,
  let '(a, s) := f (statedb v) in EDone a (with_statedb s v).
Definition ewrite (f : S → S) : E S unit := λ v, EDone tt (with_statedb (f (statedb v)) v).
Definition epartial (w : why) (f : S → option S) : E S unit := λ v,
  match f (statedb v) with
  | None => ECrash w
  | Some s => EDone tt (with_statedb s v)
  end.
Definition ecrash {A} (w : why) : E S A := λ _, ECrash w.
(** An [EVM] method called by an instruction. *)
Definition liftE {A} (x : E S A) : M S A := λ m,
  match x (evm m) with
  | EDone a v => Done a (with_evm v m)
  | ECrash w => Crash w
  | ENoFuel => NoFuel
  end.

Definition precompiles (a : Z) : option PrecompiledContract :=
  if IsByzantium (chainConfig env) (BlockNumber env) then PrecompiledContractsByzantium a
  else PrecompiledContractsHomestead a.

(** Output, error, and the contract, of which the gas has changed. *)
Definition run_result : Type := bytes * option vmerror * Contract.

Definition RunPrecompiledContract (p : PrecompiledContract) (input : bytes) (c : Contract) : E S run_result :=
  match RequiredGas p input with
  | Ok gas =>
      match UseGas gas c with
      | Some c =>
          match Precompiled_Run p input with
          | Ok out => mret (out, None, c)
          | Err e => mret ([], Some e, c)
          | Panic => ecrash PIndex
          | OutOfFuel => λ _, ENoFuel
          end
      | None => mret ([], Some ErrOutOfGas, c)
      end
  | Err e => mret ([], Some e, c)
  | Panic => ecrash PIndex
  | OutOfFuel => λ _, ENoFuel
  end.

(** ** [EVMInterpreter.Run]

    [loop] is the rest of the program: the interpreter loop on a new frame. *)
Definition frame_result : Type := bytes * option vmerror.
Definition Run (loop : M S frame_result) (c : Contract) (input : bytes) (ro : bool) : E S run_result := λ v,
  let v := with_depth (depth v + 1) v in
  let setRO := ro && negb (readOnly v) in
  let v := if setRO then with_readOnly true v else v in
  let v := with_returnData [] v in
  (* the deferred functions *)
  let leave v :=
    let v := if setRO then with_readOnly false v else v in
    with_depth (depth v - 1) v in
  match Code c with
  | [] => EDone ([], None, c) (leave v)
  | _ =>
      match loop (mkMachine v 0 newstack NewMemory (set_Input input c)) with
      | Done (out, err) m => EDone (out, err, contract m) (leave (evm m))
      | Fail e m => EDone ([], Some e, contract m) (leave (evm m))
      | Crash w => ECrash w
      | NoFuel => ENoFuel
      end
  end.

(** [run]: the built-in interpreter is the only one, and can run anything. *)
Definition run (loop : M S frame_result) (c : Contract) (input : bytes) (ro : bool) : E S run_result :=
  match match CodeAddr c with Some a => precompiles a | None => None end with
  | Some p => RunPrecompiledContract p input c
  | None => Run loop c input ro
  end.

(** The end of a call: on an error the state goes back to the snapshot, and
    the gas is gone unless the code reverted. *)
Definition finish_call (snapshot : Z) (r : run_result) : E S call_result :=
  let '(out, err, c) := r in
  match err with
  | None => mret (out, Gas c, err)
  | Some e =>
      epartial PRevert (sRevertToSnapshot snapshot);;
      mret (out, if bool_decide (e = errExecutionReverted) then Gas c else 0, err)
  end.

Definition Call (loop : M S frame_result) (caller : ContractRef) (addr : Z) (input : bytes)
    (gas value : Z) : E S call_result :=
  d ← egets depth;
  if NoRecursion env && (0 <? d) then mret ([], gas, None)
  else if CallCreateDepth <? d then mret ([], gas, Some ErrDepth)
  else
    ok ← eread (λ s, CanTransfer env s (Address caller) value);
    if negb ok then mret ([], gas, Some ErrInsufficientBalance)
    else
      snapshot ← eread sSnapshot;
      ex ← eread (sExist addr);
      if negb ex && bool_decide (precompiles addr = None)
         && IsEIP158 (chainConfig env) (BlockNumber env) && (Big.Sign value =? 0)
      then mret ([], gas, None)
      else
        (if (ex : bool) then mret tt else ewrite (sCreateAccount addr));;
        ewrite (λ s, Transfer env s (Address caller) addr value);;
        hash ← eread (sGetCodeHash addr);
        code ← eread (sGetCode addr);
        let c := SetCallCode (Some addr) hash code (NewContract caller (AccountRef addr) value gas) in
        r ← run loop c input false;
        finish_call snapshot r.

Definition CallCode (loop : M S frame_result) (caller : ContractRef) (addr : Z) (input : bytes)
    (gas value : Z) : E S call_result :=
  d ← egets depth;
  if NoRecursion env && (0 <? d) then mret ([], gas, None)
  else if CallCreateDepth <? d then mret ([], gas, Some ErrDepth)
  else
    ok ← eread (λ s, CanTransfer env s (Address caller) value);
    if negb ok then mret ([], gas, Some ErrInsufficientBalance)
    else
      snapshot ← eread sSnapshot;
      hash ← eread (sGetCodeHash addr);
      code ← eread (sGetCode addr);
      let c := SetCallCode (Some addr) hash code
                 (NewContract caller (AccountRef (Address caller)) value gas) in
      r ← run loop c input false;
      finish_call snapshot r.

Definition DelegateCall (loop : M S frame_result) (caller : ContractRef) (addr : Z) (input : bytes)
    (gas : Z) : E S call_result :=
  d ← egets depth;
  if NoRecursion env && (0 <? d) then mret ([], gas, None)
  else if CallCreateDepth <? d then mret ([], gas, Some ErrDepth)
  else
    snapshot ← eread sSnapshot;
    match AsDelegate caller (NewContract caller (AccountRef (Address caller)) 0 gas) with
    | None => ecrash PIndex
    | Some c =>
        hash ← eread (sGetCodeHash addr);
        code ← eread (sGetCode addr);
        r ← run loop (SetCallCode (Some addr) hash code c) input false;
        finish_call snapshot r
    end.

Definition StaticCall (loop : M S frame_result) (caller : ContractRef) (addr : Z) (input : bytes)
    (gas : Z) : E S call_result :=
  d ← egets depth;
  if NoRecursion env && (0 <? d) then mret ([], gas, None)
  else if CallCreateDepth <? d then mret ([], gas, Some ErrDepth)
  else
    snapshot ← eread sSnapshot;
    hash ← eread (sGetCodeHash addr);
    code ← eread (sGetCode addr);
    let c := SetCallCode (Some addr) hash code (NewContract caller (AccountRef addr) 0 gas) in
    r ← run loop c input true;
    finish_call snapshot r.

(** [emptyCodeHash] of evm.go *)
Definition emptyCodeHash_ : Z := Keccak256Hash [].

(** The part of [create] after the code has run. *)
Definition finish_create (snapshot address : Z) (r : run_result) : E S create_result :=
  let '(out, err, c) := r in
  let maxCodeSizeExceeded :=
    IsEIP158 (chainConfig env) (BlockNumber env) && (MaxCodeSize <? zlen out) in
  '(err, c) ←
    (if bool_decide (err = None) && negb maxCodeSizeExceeded then
       let createDataGas := u64 (zlen out * CreateDataGas) in
       match UseGas createDataGas c with
       | Some c => ewrite (sSetCode address out);; mret (err, c)
       | None => mret (Some ErrCodeStoreOutOfGas, c)
       end
     else mret (err, c) : E S (option vmerror * Contract));
  c ←
    (if maxCodeSizeExceeded
        || negb (bool_decide (err = None))
           && (IsHomestead (chainConfig env) (BlockNumber env)
               || negb (bool_decide (err = Some ErrCodeStoreOutOfGas)))
     then
       epartial PRevert (sRevertToSnapshot snapshot);;
       mret (if bool_decide (err = Some errExecutionReverted) then c else set_Gas 0 c)
     else mret c : E S Contract);
  let err := if maxCodeSizeExceeded && bool_decide (err = None) then Some errMaxCodeSizeExceeded else err in
  mret (out, address, Gas c, err).

Definition create (loop : M S frame_result) (caller : ContractRef) (code : bytes) (gas value : Z)
    (address : Z) : E S create_result :=
  d ← egets depth;
  if CallCreateDepth <? d then mret ([], 0, gas, Some ErrDepth)
  else
    ok ← eread (λ s, CanTransfer env s (Address caller) value);
    if negb ok then mret ([], 0, gas, Some ErrInsufficientBalance)
    else
      nonce ← eread (sGetNonce (Address caller));
      ewrite (sSetNonce (Address caller) (u64 (nonce + 1)));;
      contractHash ← eread (sGetCodeHash address);
      n ← eread (sGetNonce address);
      if negb (n =? 0) || negb (contractHash =? 0) && negb (contractHash =? emptyCodeHash_)
      then mret ([], 0, 0, Some ErrContractAddressCollision)
      else
        snapshot ← eread sSnapshot;
        ewrite (sCreateAccount address);;
        (if IsEIP158 (chainConfig env) (BlockNumber env) then ewrite (sSetNonce address 1) else mret tt);;
        ewrite (λ s, Transfer env s (Address caller) address value);;
        let c := SetCallCode (Some address) (Keccak256Hash code) code
                   (NewContract caller (AccountRef address) value gas) in
        if NoRecursion env && (0 <? d) then mret ([], address, gas, None)
        else
          r ← run loop c [] false;
          finish_create snapshot address r.

(** [crypto.CreateAddress] and [crypto.CreateAddress2] *)
Definition CreateAddress (b nonce : Z) : Z :=
  match EncodeToBytes (VList [VBytes (addr_bytes b); VUint nonce]) with
  | Ok data => BytesToAddress (drop 12 (Keccak256 data))
  | _ => BytesToAddress (drop 12 (Keccak256 []))
  end.
Definition CreateAddress2 (b salt : Z) (code : bytes) : Z :=
  BytesToAddress (drop 12 (Keccak256 ([0xff] ++ addr_bytes b ++ hash_bytes salt ++ Keccak256 code))).
Definition Create (loop : M S frame_result) (caller : ContractRef) (code : bytes) (gas value : Z)
  : E S create_result :=
  nonce ← eread (sGetNonce (Address caller));
  create loop caller code gas value (CreateAddress (Address caller) nonce).
Definition Create2 (loop : M S frame_result) (caller : ContractRef) (code : bytes) (gas endowment salt : Z)
  : E S create_result :=
  create loop caller code gas endowment (CreateAddress2 (Address caller) (BigToHash salt) code).

(** The methods an instruction of a contract calls. *)
Definition calls_of (loop : M S frame_result) : Calls_of S := {|
  evm_Call c addr input gas value := liftE (Call loop (ContractOf c) addr input gas value);
  evm_CallCode c addr input gas value := liftE (CallCode loop (ContractOf c) addr input gas value);
  evm_DelegateCall c addr input gas := liftE (DelegateCall loop (ContractOf c) addr input gas);
  evm_StaticCall c addr input gas := liftE (StaticCall loop (ContractOf c) addr input gas);
  evm_Create c code gas value := liftE (Create loop (ContractOf c) code gas value);
  evm_Create2 c code gas value salt := liftE (Create2 loop (ContractOf c) code gas value salt);
|}.

(** ** The interpreter loop *)

Definition enforceRestrictions (o : Z) (operation : @operation S) : M S unit :=
  ro ← gets (λ m, readOnly (evm m));
  if r_IsByzantium (chainRules env) && ro then
    if writes operation then fail errWriteProtection
    else if o =? CALL then
      v ← vback 2; guard (negb (0 <? Big.BitLen v)) errWriteProtection
    else mret tt
  else mret tt.

(** The size to which the memory grows. *)
Definition memory_size (operation : @operation S) : M S Z :=
  match memorySize operation with
  | None => mret 0
  | Some f =>
      st ← gets stack; v ← lift (f st);
      let '(memSize, overflow) := bigUint64 v in
      guard (negb overflow) errGasUintOverflow;;
      let '(memorySize, overflow) := Math.SafeMul (toWordSize memSize) 32 in
      guard (negb overflow) errGasUintOverflow;;
      mret memorySize
  end.
(** Any error of the gas function is out of gas. *)
Definition gas_cost (operation : @operation S) (memorySize : Z) : M S Z := λ m,
  match gasCost operation (GasTable_of (chainConfig env) (BlockNumber env)) memorySize m with
  | Fail _ m => Fail ErrOutOfGas m
  | r => r
  end.
Definition charge (cost : Z) : M S unit := λ m,
  match UseGas cost (contract m) with
  | None => Fail ErrOutOfGas m
  | Some c => Done tt (with_contract c m)
  end.

Inductive step_result :=
| Continue
| Halt (out : bytes)
| Revert (out : bytes).

(** One turn of the loop. *)
Definition step (loop : M S frame_result) : M S step_result :=
  c ← gets contract; p ← gets pc;
  let o := GetOp c p in
  let operation := lookup_op (JumpTable env (calls_of loop)) o in
  guard (valid operation) (errInvalidOpcode o);;
  st ← gets stack;
  lift (validateStack operation st);;
  enforceRestrictions o operation;;
  memorySize ← memory_size operation;
  cost ← gas_cost operation memorySize;
  charge cost;;
  (if 0 <? memorySize then modify (λ m, with_mem (Resize (mem m) memorySize) m) else mret tt);;
  res ← execute operation;
  (if returns operation then modify (λ m, with_evm (with_returnData res (evm m)) m) else mret tt);;
  (if reverts operation then mret (Revert res)
   else if halts operation then mret (Halt res)
   else
     (if jumps operation then mret tt else modify (λ m, with_pc (u64 (pc m + 1)) m));;
     mret Continue).

Fixpoint run_loop (fuel : nat) (m : machine S) : out S frame_result :=
  match fuel with
  | O => NoFuel
  | Datatypes.S fuel =>
      if abort env then Done ([], None) m
      else
        match step (run_loop fuel) m with
        | Done Continue m => run_loop fuel m
        | Done (Halt res) m => Done (res, None) m
        | Done (Revert res) m => Done (res, Some errExecutionReverted) m
        | Fail e m => Done ([], Some e) m
        | Crash w => Crash w
        | NoFuel => NoFuel
        end
  end.

End Evm.

(** [NewEVM]: the state of a fresh virtual machine.  [None]: it panics, since
    there is no ewasm interpreter. *)
Definition NewEVM {S} (env : Env S) (s : S) : option (evmst S) :=
  if IsEWASM (chainConfig env) (BlockNumber env) then None
  else Some (mkEvmst s 0 0 false [] ∅).
