(* ===== verification/Header.v ===== *)
(** * Block headers

    [core/types/block.go]: the header of a block, its RLP value and its hash;
    [core/block_validator.go]'s gas limit of the next block. *)

From S2P Require Import Prelude BigMath Params Rlp Interfaces.

(** [Number], [Difficulty] and [Time] are big integers; the bloom filter, the
    extra data and the nonce byte strings; hashes and addresses numbers. *)
Record Header := mkHeader {
  h_ParentHash : Z;
  h_UncleHash : Z;
  h_Coinbase : Z;
  h_Root : Z;
  h_TxHash : Z;
  h_ReceiptHash : Z;
  h_Bloom : bytes;
  h_Difficulty : Z;
  h_Number : Z;
  h_GasLimit : Z;  (* uint64 *)
  h_GasUsed : Z;  (* uint64 *)
  h_Time : Z;
  h_Extra : bytes;
  h_MixDigest : Z;
  h_Nonce : bytes;
}.

(** The fields in order, as the reflection of [rlp.Encode] takes them. *)
Definition header_vals (h : Header) : list val :=
  [VBytes (hash_bytes (h_ParentHash h)); VBytes (hash_bytes (h_UncleHash h));
   VBytes (addr_bytes (h_Coinbase h)); VBytes (hash_bytes (h_Root h));
   VBytes (hash_bytes (h_TxHash h)); VBytes (hash_bytes (h_ReceiptHash h));
   VBytes (h_Bloom h); VBig (h_Difficulty h); VBig (h_Number h);
   VUint (h_GasLimit h); VUint (h_GasUsed h); VBig (h_Time h); VBytes (h_Extra h);
   VBytes (hash_bytes (h_MixDigest h)); VBytes (h_Nonce h)].
Section Hash.
Context `{!Crypto}.
(** [rlpHash]: an encoding error is ignored, and the hash is then of nothing. *)
Definition rlpHash (v : val) : Z :=
  match EncodeToBytes v with
  | Ok b => Keccak256Hash b
  | _ => Keccak256Hash []
  end.
Definition Header_Hash (h : Header) : Z := rlpHash (VList (header_vals h)).
Definition CalcUncleHash (uncles : list Header) : Z :=
  rlpHash (VList (map (λ h, VList (header_vals h)) uncles)).
End Hash.

Definition EncodeNonce (i : Z) : bytes := be_bytes 8 i.
Definition BlockNonce_Uint64 (n : bytes) : Z := be_val n.

(** ** core/block_validator.go *)

(** [CalcGasLimit], of the limit and use of the parent. *)
Definition CalcGasLimit (parent : Header) (gasFloor gasCeil : Z) : Z :=
  let contrib := u64 (u64 (h_GasUsed parent + h_GasUsed parent / 2) / GasLimitBoundDivisor) in
  let decay := u64 (h_GasLimit parent / GasLimitBoundDivisor - 1) in
  let limit := u64 (u64 (h_GasLimit parent - decay) + contrib) in
  let limit := if limit <? MinGasLimit then MinGasLimit else limit in
  if limit <? gasFloor then
    let limit := u64 (h_GasLimit parent + decay) in
    if gasFloor <? limit then gasFloor else limit
  else if gasCeil <? limit then
    let limit := u64 (h_GasLimit parent - decay) in
    if limit <? gasCeil then gasCeil else limit
  else limit.
