(* ===== verification/StateTransition.v ===== *)
(** * The transition of a message

    [core/state_transition.go] and [core/gaspool.go]: a message buys its gas,
    pays its intrinsic gas, runs, is refunded, and pays the miner.  The state
    is that of the virtual machine it runs on, with the gas pool of the block
    and the gas of the message beside it. *)

From S2P Require Import Prelude BigMath Params Memory Interfaces.
From S2P Require Import Machine Gas Instructions JumpTable Precompiles Evm.

(** ** gaspool.go *)

Definition GasPool : Type := Z.
(** [None]: it panics. *)
Definition AddGas (amount : Z) (gp : GasPool) : option GasPool :=
  if MaxUint64 - amount <? gp then None else Some (u64 (gp + amount)).
(** [None]: [ErrGasLimitReached]. *)
Definition SubGas (amount : Z) (gp : GasPool) : option GasPool :=
  if gp <? amount then None else Some (gp - amount).

(** ** The message and the transition *)

Record Message := mkMessage {
  msg_From : Z;
  msg_To : option Z;  (* nil: a creation *)
  msg_GasPrice : Z;
  msg_Gas : Z;  (* uint64 *)
  msg_Value : Z;
  msg_Nonce : Z;  (* uint64 *)
  msg_CheckNonce : bool;
  msg_Data : bytes;
}.

Inductive txerror :=
| errInsufficientBalanceForGas
| ErrGasLimitReached
| ErrNonceTooHigh
| ErrNonceTooLow
| VMError (e : vmerror).

(** Gas already charged is [initialGas - gas]. *)
Record StateTransition (S : Type) := mkST {
  gp : GasPool;
  gas : Z;
  initialGas : Z;
  st_evm : evmst S;
}.
Arguments mkST {S}. Arguments gp {S}. Arguments gas {S}. Arguments initialGas {S}. Arguments st_evm {S}.

(** A panic of the machine, or of the gas pool. *)
Inductive txpanic := TPVM (w : why) | TPGasPool.
Inductive tout (S A : Type) :=
| TOk (a : A) (st : StateTransition S)
| TErr (e : txerror) (st : StateTransition S)
| TPanic (p : txpanic)
| TNoFuel.
Arguments TOk {S A}. Arguments TErr {S A}. Arguments TPanic {S A}. Arguments TNoFuel {S A}.
Definition TM (S A : Type) := StateTransition S → tout S A.
#[export] Instance TM_ret S : MRet (TM S) := λ A a, TOk a.
#[export] Instance TM_bind S : MBind (TM S) := λ A B k x st,
  match x st with
  | TOk a st => k a st
  | TErr e st => TErr e st
  | TPanic p => TPanic p
  | TNoFuel => TNoFuel
  end.

(** [IntrinsicGas] *)
Definition IntrinsicGas (data : bytes) (contractCreation homestead : bool) : vres Z :=
  let gas := if contractCreation && homestead then TxGasContractCreation else TxGas in
  match data with
  | [] => Ok gas
  | _ =>
      let nz := Z.of_nat (length (filter (λ b, b ≠ 0) data)) in
      if (MaxUint64 - gas) / TxDataNonZeroGas <? nz then Err ErrOutOfGas
      else
        let gas := u64 (gas + u64 (nz * TxDataNonZeroGas)) in
        let z := u64 (zlen data - nz) in
        if (MaxUint64 - gas) / TxDataZeroGas <? z then Err ErrOutOfGas
        else Ok (u64 (gas + u64 (z * TxDataZeroGas)))
  end.

Section Transition.
Context {S : Type} `{!VMState S} `{!Crypto} `{!PrecompileCrypto}.
Variable env : Env S.
Variable loop : M S frame_result.
Variable msg : Message.

Definition with_gp (x : GasPool) (st : StateTransition S) := mkST x (gas st) (initialGas st) (st_evm st).
Definition with_gas x (st : StateTransition S) := mkST (gp st) x (initialGas st) (st_evm st).
Definition with_initialGas x (st : StateTransition S) := mkST (gp st) (gas st) x (st_evm st).
Definition with_st_evm (x : evmst S) (st : StateTransition S) := mkST (gp st) (gas st) (initialGas st) x.

Definition tfail {A} (e : txerror) : TM S A := TErr e.
Definition tgets {A} (f : StateTransition S → A) : TM S A := λ st, TOk (f st) st.
Definition tmodify (f : StateTransition S → StateTransition S) : TM S unit := λ st, TOk tt (f st).
(** A call of the machine, or of its state. *)
Definition tlift {A} (x : E S A) : TM S A := λ st,
  match x (st_evm st) with
  | EDone a v => TOk a (with_st_evm v st)
  | ECrash w => TPanic (TPVM w)
  | ENoFuel => TNoFuel
  end.
Definition tread {A} (f : S → A * S) : TM S A := tlift (eread f).
Definition twrite (f : S → S) : TM S unit := tlift (ewrite f).

Definition to : Z := default 0 (msg_To msg).
Definition st_useGas (amount : Z) : TM S unit := λ st,
  if gas st <? amount then TErr (VMError ErrOutOfGas) st
  else TOk tt (with_gas (gas st - amount) st).
Definition buyGas : TM S unit :=
  let mgval := msg_Gas msg * msg_GasPrice msg in
  b ← tread (sGetBalance (msg_From msg));
  if b <? mgval then tfail errInsufficientBalanceForGas
  else
    p ← tgets gp;
    match SubGas (msg_Gas msg) p with
    | None => tfail ErrGasLimitReached
    | Some p =>
        tmodify (with_gp p);;
        tmodify (λ st, with_gas (u64 (gas st + msg_Gas msg)) st);;
        tmodify (with_initialGas (msg_Gas msg));;
        twrite (sSubBalance (msg_From msg) mgval)
    end.
Definition preCheck : TM S unit :=
  (if msg_CheckNonce msg then
     nonce ← tread (sGetNonce (msg_From msg));
     if nonce <? msg_Nonce msg then tfail ErrNonceTooHigh
     else if msg_Nonce msg <? nonce then tfail ErrNonceTooLow
     else mret tt
   else mret tt);;
  buyGas.
Definition gasUsed (st : StateTransition S) : Z := u64 (initialGas st - gas st).
(** [st.gp.AddGas(st.gas)] *)
Definition gas_to_pool : TM S unit := λ st,
  match AddGas (gas st) (gp st) with
  | None => TPanic TPGasPool
  | Some p => TOk tt (with_gp p st)
  end.
Definition refundGas : TM S unit :=
  used ← tgets gasUsed;
  r ← tgets (λ st, sGetRefund (statedb (st_evm st)));
  let refund := if r <? used / 2 then r else used / 2 in
  tmodify (λ st, with_gas (u64 (gas st + refund)) st);;
  g ← tgets gas;
  twrite (sAddBalance (msg_From msg) (g * msg_GasPrice msg));;
  gas_to_pool.

(** The output, the gas used, and whether the message failed. *)
Definition TransitionDb : TM S (bytes * Z * bool) :=
  preCheck;;
  let sender := AccountRef (msg_From msg) in
  let homestead := IsHomestead (chainConfig env) (BlockNumber env) in
  let contractCreation := match msg_To msg with None => true | Some _ => false end in
  match IntrinsicGas (msg_Data msg) contractCreation homestead with
  | Err e => tfail (VMError e)
  | Panic | OutOfFuel => λ _, TNoFuel
  | Ok g =>
      st_useGas g;;
      g ← tgets gas;
      '(ret, remaining, vmerr) ←
        (if contractCreation then
           '(ret, _, remaining, vmerr) ← tlift (Create env loop sender (msg_Data msg) g (msg_Value msg));
           mret (ret, remaining, vmerr)
         else
           nonce ← tread (sGetNonce (msg_From msg));
           twrite (sSetNonce (msg_From msg) (u64 (nonce + 1)));;
           tlift (Call env loop sender to (msg_Data msg) g (msg_Value msg)) : TM S call_result);
      tmodify (with_gas remaining);;
      if bool_decide (vmerr = Some ErrInsufficientBalance)
      then tfail (VMError ErrInsufficientBalance)
      else
        refundGas;;
        used ← tgets gasUsed;
        twrite (sAddBalance (Coinbase env) (used * msg_GasPrice msg));;
        mret (ret, used, negb (bool_decide (vmerr = None)))
  end.

(** [ApplyMessage]: a fresh transition on the machine. *)
Definition ApplyMessage (v : evmst S) (p : GasPool) : tout S (bytes * Z * bool) :=
  TransitionDb (mkST p 0 0 v).

End Transition.
