(* ===== verification/Transaction.v ===== *)
(** * Transactions

    [core/types/transaction.go] and [transaction_signing.go]: transactions,
    their encoding and hashes, the signers of the forks, and the set that
    hands transactions out by price and nonce.  JSON and the cache of the
    hash and the size, both functions of the immutable data, are left out; the
    cache of the sender, which depends on the signer, is modelled. *)

From S2P Require Import Prelude BigMath Params Rlp RlpStream Heap Interfaces Precompiles Header StateTransition.

(** ** Data *)

Record txdata := mkTxdata {
  AccountNonce : Z;  (* uint64 *)
  Price : Z;
  TxGasLimit : Z;  (* GasLimit, uint64 *)
  Recipient : option Z;  (* nil: a creation *)
  Amount : Z;
  Payload : bytes;
  tx_V : Z;
  tx_R : Z;
  tx_S : Z;
}.
Inductive Signer :=
| FrontierSigner
| HomesteadSigner
| EIP155Signer (chainId chainIdMul : Z).
(** The data, and the sender last derived with the signer it was derived by. *)
Record Transaction := mkTransaction { tx_data : txdata; tx_from : option (Signer * Z) }.

Definition newTransaction (nonce : Z) (to : option Z) (amount : Z) (gasLimit : Z) (gasPrice : Z) (data : bytes) : Transaction :=
  mkTransaction (mkTxdata nonce gasPrice gasLimit to amount data 0 0 0) None.
Definition NewTransaction (nonce to amount gasLimit gasPrice : Z) (data : bytes) : Transaction :=
  newTransaction nonce (Some to) amount gasLimit gasPrice data.
Definition NewContractCreation (nonce amount gasLimit gasPrice : Z) (data : bytes) : Transaction :=
  newTransaction nonce None amount gasLimit gasPrice data.

Definition Cost (tx : Transaction) : Z := Price (tx_data tx) * TxGasLimit (tx_data tx) + Amount (tx_data tx).

Definition deriveChainId (v : Z) : Z :=
  if Big.BitLen v <=? 64 then
    let v := Big.Uint64 v in
    if (v =? 27) || (v =? 28) then 0 else u64 (v - 35) / 2
  else (v - 35) / 2.
Definition ChainId (tx : Transaction) : Z := deriveChainId (tx_V (tx_data tx)).
Definition isProtectedV (v : Z) : bool :=
  if Big.BitLen v <=? 8 then let v := Big.Uint64 v in negb (v =? 27) && negb (v =? 28) else true.
Definition Protected (tx : Transaction) : bool := isProtectedV (tx_V (tx_data tx)).

(** ** Encoding *)

Definition txdata_typ : typ :=
  TStruct [TUint 64; TBig; TUint 64; TOptPtr (TByteArray 20); TBig; TBytes; TBig; TBig; TBig] None.
Definition addr_gval (a : option Z) : gval := match a with Some a => GPtr (GBytes (addr_bytes a)) | None => GNil end.
Definition txdata_gval (d : txdata) : gval :=
  GList [GUint (AccountNonce d); GBig (Price d); GUint (TxGasLimit d); addr_gval (Recipient d); GBig (Amount d);
         GBytes (Payload d); GBig (tx_V d); GBig (tx_R d); GBig (tx_S d)].
Definition gval_addr (v : gval) : option Z := match v with GPtr (GBytes b) => Some (BytesToAddress b) | _ => None end.
Definition txdata_of (v : gval) : option txdata :=
  match v with
  | GList [GUint n; GBig p; GUint g; a; GBig m; GBytes d; GBig v; GBig r; GBig s] => Some (mkTxdata n p g (gval_addr a) m d v r s)
  | _ => None
  end.
Definition Transaction_EncodeRLP (tx : Transaction) : rres bytes := EncodeValue txdata_typ (txdata_gval (tx_data tx)).
(** [DecodeRLP] at the top of an input. *)
Definition Transaction_DecodeRLP (b : bytes) : option Transaction :=
  match DecodeBytes txdata_typ b with
  | SOk v _ => option_map (λ d, mkTransaction d None) (txdata_of v)
  | _ => None
  end.

(** ** Signers *)

(** [crypto.Sign] and the addresses of keys: [secp256k1] is C code. *)
Class Signing `{!Crypto} `{!PrecompileCrypto} := {
  PrivateKey : Type;
  Sign : bytes → PrivateKey → option bytes;
}.
Inductive sigerror := ErrInvalidSig | ErrInvalidChainId | ErrInvalidPublicKey | ErrRecoverFailed | ErrSignFailed.
Abbreviation sigres := (res sigerror).

(** The interface value [x == y] of [Equal]. *)
Definition Signer_Equal (s s2 : Signer) : bool :=
  match s, s2 with
  | FrontierSigner, FrontierSigner | HomesteadSigner, HomesteadSigner => true
  | EIP155Signer c _, EIP155Signer c2 _ => c2 =? c
  | _, _ => false
  end.
Definition NewEIP155Signer (chainId : option Z) : Signer :=
  let c := default 0 chainId in EIP155Signer c (c * 2).
Definition MakeSigner (config : ChainConfig) (blockNumber : Z) : Signer :=
  if IsEIP155 config blockNumber then NewEIP155Signer (ChainID config)
  else if IsHomestead config blockNumber then HomesteadSigner
  else FrontierSigner.

Definition addr_val (a : option Z) : val := VBytes (match a with Some a => addr_bytes a | None => [] end).
Definition tx_vals (d : txdata) : list val :=
  [VUint (AccountNonce d); VBig (Price d); VUint (TxGasLimit d); addr_val (Recipient d); VBig (Amount d); VBytes (Payload d)].

Section Signers.
Context {CRY : Crypto} {PCR : PrecompileCrypto}.

Definition Signer_Hash (s : Signer) (tx : Transaction) : Z :=
  match s with
  | FrontierSigner | HomesteadSigner => rlpHash (VList (tx_vals (tx_data tx)))
  | EIP155Signer c _ => rlpHash (VList (tx_vals (tx_data tx) ++ [VBig c; VUint 0; VUint 0]))
  end.
Definition Transaction_Hash (tx : Transaction) : Z := rlpHash (val_of txdata_typ (txdata_gval (tx_data tx))).

(** A number in 32 bytes; a longer one would panic, but was refused before. *)
Definition sig_word (x : Z) : bytes := let b := Big.Bytes x in replicate (32 - length b) 0 ++ b.
(** [crypto.PubkeyToAddress] of an uncompressed key. *)
Definition pub_address (pub : bytes) : Z := BytesToAddress (drop 12 (Keccak256 (drop 1 pub))).
Definition recoverPlain (sighash : Z) (R S Vb : Z) (homestead : bool) : sigres Z :=
  if 8 <? Big.BitLen Vb then Err ErrInvalidSig
  else
    let V := u64 (Big.Uint64 Vb - 27) mod 256 in
    if negb (ValidateSignatureValues V R S homestead) then Err ErrInvalidSig
    else
      match Ecrecover (hash_bytes sighash) (sig_word R ++ sig_word S ++ [V]) with
      | None => Err ErrRecoverFailed
      | Some pub =>
          if match pub with b :: _ => negb (b =? 4) | [] => true end then Err ErrInvalidPublicKey
          else Ok (pub_address pub)
      end.
Definition Homestead_Sender (tx : Transaction) : sigres Z :=
  recoverPlain (Signer_Hash HomesteadSigner tx) (tx_R (tx_data tx)) (tx_S (tx_data tx)) (tx_V (tx_data tx)) true.
(** [Signer.Sender] *)
Definition Signer_Sender (s : Signer) (tx : Transaction) : sigres Z :=
  match s with
  | FrontierSigner => recoverPlain (Signer_Hash FrontierSigner tx) (tx_R (tx_data tx)) (tx_S (tx_data tx)) (tx_V (tx_data tx)) false
  | HomesteadSigner => Homestead_Sender tx
  | EIP155Signer c cm =>
      if negb (Protected tx) then Homestead_Sender tx
      else if negb (ChainId tx =? c) then Err ErrInvalidChainId
      else recoverPlain (Signer_Hash s tx) (tx_R (tx_data tx)) (tx_S (tx_data tx)) (tx_V (tx_data tx) - cm - 8) true
  end.
(** [types.Sender]: the address, and the transaction with its cache filled. *)
Definition Sender (signer : Signer) (tx : Transaction) : sigres Z * Transaction :=
  let derive :=
    match Signer_Sender signer tx with
    | Ok addr => (Ok addr, mkTransaction (tx_data tx) (Some (signer, addr)))
    | r => (r, tx)
    end in
  match tx_from tx with
  | Some (s, addr) => if Signer_Equal s signer then (Ok addr, tx) else derive
  | None => derive
  end.

(** [SignatureValues]: R, S and V of a signature [R || S || V]. *)
Definition SignatureValues (s : Signer) (sig : bytes) : sigres (Z * Z * Z) :=
  if negb (zlen sig =? 65) then Panic
  else
    let r := Big.SetBytes (take 32 sig) in
    let ss := Big.SetBytes (take 32 (drop 32 sig)) in
    let b := nth 64 sig 0 in
    let v := (b + 27) mod 256 in
    match s with
    | EIP155Signer c cm => Ok (r, ss, if c =? 0 then v else (b + 35) mod 256 + cm)
    | _ => Ok (r, ss, v)
    end.
Definition WithSignature (signer : Signer) (sig : bytes) (tx : Transaction) : sigres Transaction :=
  rsv ←? SignatureValues signer sig;
  let '(r, s, v) := rsv in
  let d := tx_data tx in
  Ok (mkTransaction (mkTxdata (AccountNonce d) (Price d) (TxGasLimit d) (Recipient d) (Amount d) (Payload d) v r s) None).
Definition SignTx `{!Signing} (tx : Transaction) (s : Signer) (prv : PrivateKey) : sigres Transaction :=
  match Sign (hash_bytes (Signer_Hash s tx)) prv with
  | None => Err ErrSignFailed
  | Some sig => WithSignature s sig tx
  end.

Definition AsMessage (s : Signer) (tx : Transaction) : sigres Message :=
  f ←? (Sender s tx).1;
  let d := tx_data tx in
  Ok (mkMessage f (Recipient d) (Price d) (TxGasLimit d) (Amount d) (AccountNonce d) true (Payload d)).

(** ** Lists of transactions *)

(** [GetRlp], of a transaction of the list. *)
Definition GetRlp_tx (tx : Transaction) : bytes := match Transaction_EncodeRLP tx with Ok b => b | _ => [] end.
Definition TxDifference (a b : list Transaction) : list Transaction :=
  let remove := list_to_set (map Transaction_Hash b) : gset Z in
  filter (λ tx, Transaction_Hash tx ∉ remove) a.

(** [TxByNonce], [TxByPrice] *)
Definition TxByNonce_Less (a b : Transaction) : bool := AccountNonce (tx_data a) <? AccountNonce (tx_data b).
Definition TxByPrice_Less (a b : Transaction) : bool := Price (tx_data b) <? Price (tx_data a).

(** ** Transactions by price and nonce *)

Record TransactionsByPriceAndNonce := mkTBPN {
  pn_txs : gmap Z (list Transaction);
  pn_heads : list Transaction;
  pn_signer : Signer;
}.
(** The sender that the code takes, dropping the error. *)
Definition sender_or_zero (signer : Signer) (tx : Transaction) : Z := match (Sender signer tx).1 with Ok a => a | _ => 0 end.
(** The map is ranged over while it is changed: [order] is the order in which
    the keys come.  An empty list of transactions panics. *)
Fixpoint take_heads (signer : Signer) (order : list Z) (heads : list Transaction) (txs : gmap Z (list Transaction)) :
    option (list Transaction * gmap Z (list Transaction)) :=
  match order with
  | [] => Some (heads, txs)
  | from :: order =>
      match txs !! from with
      | None => take_heads signer order heads txs
      | Some [] => None
      | Some (tx :: accTxs) =>
          let acc := sender_or_zero signer tx in
          let txs := <[acc := accTxs]> txs in
          take_heads signer order (heads ++ [tx]) (if from =? acc then txs else base.delete from txs)
      end
  end.
Definition NewTransactionsByPriceAndNonce (signer : Signer) (order : list Z) (txs : gmap Z (list Transaction)) :
    option TransactionsByPriceAndNonce :=
  match take_heads signer order [] txs with
  | Some (heads, txs) => Some (mkTBPN txs (Heap.Init TxByPrice_Less heads) signer)
  | None => None
  end.
Definition Peek (t : TransactionsByPriceAndNonce) : option Transaction := head (pn_heads t).
(** [Shift], [Pop]: [None] when there is no head, where the code panics. *)
Definition Shift (t : TransactionsByPriceAndNonce) : option TransactionsByPriceAndNonce :=
  match pn_heads t with
  | [] => None
  | tx :: _ =>
      let acc := sender_or_zero (pn_signer t) tx in
      match pn_txs t !! acc with
      | Some (next :: rest) =>
          Some (mkTBPN (<[acc := rest]> (pn_txs t)) (Heap.Fix TxByPrice_Less 0 (<[0%nat := next]> (pn_heads t))) (pn_signer t))
      | _ => Some (mkTBPN (pn_txs t) (Heap.Pop TxByPrice_Less (pn_heads t)).2 (pn_signer t))
      end
  end.
Definition PopTx (t : TransactionsByPriceAndNonce) : option TransactionsByPriceAndNonce :=
  match pn_heads t with
  | [] => None
  | _ => Some (mkTBPN (pn_txs t) (Heap.Pop TxByPrice_Less (pn_heads t)).2 (pn_signer t))
  end.
End Signers.
