(* ===== verification/TxLaws.v ===== *)
(** * Laws of transactions

    The sender's cache, signatures, encodings, and the set of transactions by
    price and nonce. *)

From S2P Require Import Prelude BigMath Params Rlp RlpStream RlpTyped Heap Interfaces Precompiles Header StateTransition Transaction.

Section Laws.
Context {CRY : Crypto} {PCR : PrecompileCrypto}.

(** ** The cache of the sender *)

(** Signers as [NewEIP155Signer] makes them. *)
Definition signer_ok (s : Signer) : Prop := match s with EIP155Signer c cm => 0 ≤ c ∧ cm = c * 2 | _ => True end.
Definition cache_ok (tx : Transaction) : Prop :=
  match tx_from tx with Some (s, a) => signer_ok s ∧ Signer_Sender s tx = Ok a | None => True end.
Lemma Signer_Equal_eq s s2 : signer_ok s → signer_ok s2 → Signer_Equal s s2 = true → s = s2.
Proof. destruct s, s2; try done. cbn. intros [_ ->] [_ ->] ->%Z.eqb_eq. done. Qed.
Lemma Signer_Sender_data s tx f : Signer_Sender s (mkTransaction (tx_data tx) f) = Signer_Sender s tx.
Proof. done. Qed.
Lemma Sender_ok s tx : cache_ok tx → signer_ok s →
  (Sender s tx).1 = Signer_Sender s tx ∧ cache_ok (Sender s tx).2 ∧ tx_data (Sender s tx).2 = tx_data tx.
Proof.
  intros Hc Hs. unfold Sender. destruct (tx_from tx) as [[s0 a]|] eqn:Ef; [destruct (Signer_Equal s0 s) eqn:E|].
  2-3: by destruct (Signer_Sender s tx) eqn:E2; split_and!.
  pose proof Hc as Hc'. unfold cache_ok in Hc'. rewrite Ef in Hc'. destruct Hc' as [H0 H1]. apply Signer_Equal_eq in E as ->; [|done|done].
  by split_and!.
Qed.

(** ** Signatures *)

(** What [crypto.Sign] promises: 65 bytes, [R] and [S] in range and [S] in the
    lower half, from which [Ecrecover] gets the key. *)
Class SigningLaws `{!Signing} := {
  PublicKey : PrivateKey → bytes;
  PublicKey_form k : head (PublicKey k) = Some 4;
  Sign_ok h k sig : Sign h k = Some sig →
    is_bytes sig ∧ length sig = 65%nat ∧ (nth 64 sig 0 = 0 ∨ nth 64 sig 0 = 1) ∧
    1 ≤ be_val (take 32 sig) < secp256k1N ∧ 1 ≤ be_val (take 32 (drop 32 sig)) ≤ secp256k1halfN ∧
    Ecrecover h sig = Some (PublicKey k);
}.
Lemma sig_word_be b : is_bytes b → length b = 32%nat → sig_word (be_val b) = b.
Proof.
  intros Hb Hl. unfold sig_word. pose proof (be_val_bound b Hb) as Hv. unfold zlen in Hv. rewrite Hl in Hv.
  pose proof (Big.length_Bytes_le (be_val b) 32 Hv) as Hle.
  apply be_val_inj; [apply is_bytes_app; split; [apply is_bytes_replicate|apply Big.is_bytes_Bytes]|done| |].
  - rewrite length_app, length_replicate. lia.
  - rewrite be_val_app_zeros. apply be_val_Bytes. lia.
Qed.
Lemma halfN_lt : secp256k1halfN < secp256k1N.
Proof. done. Qed.
Lemma recoverPlain_signed `{!Signing} `{!SigningLaws} h k sig v homestead : Sign (hash_bytes h) k = Some sig → v = nth 64 sig 0 + 27 →
  recoverPlain h (be_val (take 32 sig)) (be_val (take 32 (drop 32 sig))) v homestead = Ok (pub_address (PublicKey k)).
Proof.
  intros Hs ->. destruct (Sign_ok _ _ _ Hs) as (Hb & Hl & Hv & Hr & Hss & He). unfold recoverPlain.
  assert (Hbit : 8 <? Big.BitLen (nth 64 sig 0 + 27) = false) by (by destruct Hv as [-> | ->]). rewrite Hbit.
  assert (Ev : u64 (Big.Uint64 (nth 64 sig 0 + 27) - 27) mod 256 = nth 64 sig 0) by (by destruct Hv as [-> | ->]). rewrite Ev.
  pose proof halfN_lt.
  assert (Hval : ValidateSignatureValues (nth 64 sig 0) (be_val (take 32 sig)) (be_val (take 32 (drop 32 sig))) homestead = true).
  { unfold ValidateSignatureValues. destruct (Z.ltb_spec (be_val (take 32 sig)) 1); [lia|]. destruct (Z.ltb_spec (be_val (take 32 (drop 32 sig))) 1); [lia|].
    cbn [orb]. destruct (Z.ltb_spec secp256k1halfN (be_val (take 32 (drop 32 sig)))); [lia|]. rewrite andb_false_r.
    destruct (Z.ltb_spec (be_val (take 32 sig)) secp256k1N); [|lia]. destruct (Z.ltb_spec (be_val (take 32 (drop 32 sig))) secp256k1N); [|lia].
    by destruct Hv as [-> | ->]. }
  rewrite Hval. cbn [negb]. rewrite !sig_word_be; [|by apply is_bytes_take, is_bytes_drop|rewrite length_take, length_drop; lia|by apply is_bytes_take|rewrite length_take; lia].
  assert (Esig : take 32 sig ++ take 32 (drop 32 sig) ++ [nth 64 sig 0] = sig).
  { rewrite <- (take_drop 32 sig) at 4. f_equal. rewrite <- (take_drop 32 (drop 32 sig)) at 2. f_equal. rewrite drop_drop. cbn [Nat.add].
    destruct (lookup_lt_is_Some_2 sig 64 ltac:(lia)) as [x Hx]. rewrite (drop_S _ _ _ Hx), drop_ge by lia. by rewrite (nth_lookup_Some _ _ _ _ Hx). }
  rewrite Esig, He. pose proof (PublicKey_form k) as Hp. destruct (PublicKey k) as [|b pub]; [done|]. by injection Hp as ->.
Qed.
Lemma WithSignature_ok s sig tx : length sig = 65%nat → signer_ok s → (nth 64 sig 0 = 0 ∨ nth 64 sig 0 = 1) →
  let b := nth 64 sig 0 in
  ∃ tx', WithSignature s sig tx = Ok tx' ∧ tx_vals (tx_data tx') = tx_vals (tx_data tx) ∧
    tx_R (tx_data tx') = be_val (take 32 sig) ∧ tx_S (tx_data tx') = be_val (take 32 (drop 32 sig)) ∧
    tx_V (tx_data tx') = match s with EIP155Signer c _ => if c =? 0 then b + 27 else b + 35 + c * 2 | _ => b + 27 end.
Proof.
  intros Hl Hs Hb. unfold WithSignature, SignatureValues. assert (E : zlen sig =? 65 = true) by (unfold zlen; rewrite Hl; done). rewrite E. cbn [negb].
  destruct s as [| |c cm]; cbn [res_bind]; eexists; split_and!; try done; cbn [tx_V tx_data].
  - by destruct Hb as [-> | ->].
  - by destruct Hb as [-> | ->].
  - destruct Hs as [_ ->]. destruct (c =? 0); by destruct Hb as [-> | ->].
Qed.
Lemma Hash_vals s tx tx' : tx_vals (tx_data tx) = tx_vals (tx_data tx') → Signer_Hash s tx = Signer_Hash s tx'.
Proof. intros E. unfold Signer_Hash. by rewrite E. Qed.
Lemma recoverPlain_bad_v h r s v homestead : 28 < v → recoverPlain h r s v homestead = Err ErrInvalidSig.
Proof.
  intros Hv. unfold recoverPlain. destruct (Z.ltb_spec 8 (Big.BitLen v)) as [|Hb%Big.BitLen_le]; [done| |lia].
  rewrite Z.abs_eq in Hb by lia. change (2 ^ 8) with 256 in Hb.
  rewrite Big.Uint64_id, (u64_id (v - 27)) by (unfold is_u64; lia). rewrite Z.mod_small by lia. unfold ValidateSignatureValues.
  destruct (_ || _); [done|]. destruct (_ && _); [done|]. destruct (Z.eqb_spec (v - 27) 0); [lia|]. destruct (Z.eqb_spec (v - 27) 1); [lia|].
  by rewrite andb_false_r.
Qed.
(** The V of a signature for chain [c]. *)
Lemma protected_v c b : 0 ≤ c → b = 0 ∨ b = 1 → isProtectedV (b + 35 + c * 2) = true ∧ deriveChainId (b + 35 + c * 2) = c.
Proof.
  intros Hc Hb. split.
  - unfold isProtectedV. destruct (Z.leb_spec (Big.BitLen (b + 35 + c * 2)) 8) as [Hl%Big.BitLen_le|]; [|lia|done]. rewrite Z.abs_eq in Hl by lia.
    change (2 ^ 8) with 256 in Hl. rewrite Big.Uint64_id by (unfold is_u64; lia).
    destruct (Z.eqb_spec (b + 35 + c * 2) 27); [lia|]. by destruct (Z.eqb_spec (b + 35 + c * 2) 28); [lia|].
  - assert (E : (b + 35 + c * 2 - 35) / 2 = c).
    { replace (b + 35 + c * 2 - 35) with (b + c * 2) by lia. rewrite Z.div_add by lia. by destruct Hb as [-> | ->]. }
    unfold deriveChainId. destruct (Z.leb_spec (Big.BitLen (b + 35 + c * 2)) 64) as [Hl%Big.BitLen_le|]; [|lia|done]. rewrite Z.abs_eq in Hl by lia.
    rewrite Big.Uint64_id by (unfold is_u64; lia). destruct (Z.eqb_spec (b + 35 + c * 2) 27); [lia|]. destruct (Z.eqb_spec (b + 35 + c * 2) 28); [lia|]. cbn [orb].
    by rewrite u64_id by (unfold is_u64; lia).
Qed.
Lemma SignTx_cache `{!Signing} tx s k tx' : SignTx tx s k = Ok tx' → cache_ok tx'.
Proof.
  unfold SignTx, WithSignature. destruct (Sign _ k) as [sig|]; [|done]. intros Hw. apply res_bind_ok in Hw as ([[r x] v] & ? & Hw). by injection Hw as <-.
Qed.
(** A transaction signed for a chain, as every signer sees it. *)
Lemma signed_sender `{!Signing} `{!SigningLaws} s k tx tx' : signer_ok s → (∀ cm, s ≠ EIP155Signer 0 cm) → SignTx tx s k = Ok tx' →
  Signer_Sender s tx' = Ok (pub_address (PublicKey k)).
Proof.
  intros Hs Hc. unfold SignTx. destruct (Sign _ k) as [sig|] eqn:Esig; [|done]. destruct (Sign_ok _ _ _ Esig) as (Hb & Hl & Hv & _).
  destruct (WithSignature_ok s sig tx Hl Hs Hv) as (t & Et & Evals & ER & ES & EV). rewrite Et. intros [= <-].
  pose proof (Hash_vals s _ _ Evals) as Eh. rewrite <- Eh in Esig. destruct s as [| |c cm].
  - cbn [Signer_Sender]. rewrite ER, ES, EV. by apply (recoverPlain_signed _ _ _ _ _ Esig).
  - cbn [Signer_Sender]. unfold Homestead_Sender. rewrite ER, ES, EV. by apply (recoverPlain_signed _ _ _ _ _ Esig).
  - destruct Hs as [Hc0 ->]. assert (c ≠ 0) by (intros ->; by apply (Hc (0 * 2))). destruct (Z.eqb_spec c 0); [done|].
    destruct (protected_v c (nth 64 sig 0) Hc0 Hv) as [Hp Hd]. cbn [Signer_Sender]. unfold Protected, ChainId. rewrite EV, Hp, Hd, Z.eqb_refl. cbn [negb].
    rewrite ER, ES. apply (recoverPlain_signed _ _ _ _ _ Esig). lia.
Qed.
(** For chain zero the signature is taken for one without a chain. *)
Lemma signed_for_zero `{!Signing} `{!SigningLaws} k tx tx' : SignTx tx (EIP155Signer 0 0) k = Ok tx' → Signer_Sender (EIP155Signer 0 0) tx' = Homestead_Sender tx'.
Proof.
  unfold SignTx. destruct (Sign _ k) as [sig|] eqn:Esig; [|done]. destruct (Sign_ok _ _ _ Esig) as (Hb & Hl & Hv & _).
  destruct (WithSignature_ok (EIP155Signer 0 0) sig tx Hl ltac:(by split) Hv) as (t & Et & _ & _ & _ & EV). rewrite Et. intros [= <-].
  cbn [Signer_Sender]. unfold Protected. rewrite EV. by destruct Hv as [-> | ->].
Qed.
Lemma signed_elsewhere `{!Signing} `{!SigningLaws} c k tx tx' s : 0 < c → SignTx tx (EIP155Signer c (c * 2)) k = Ok tx' → s ≠ EIP155Signer c (c * 2) → signer_ok s →
  Signer_Sender s tx' = Err (match s with EIP155Signer _ _ => ErrInvalidChainId | _ => ErrInvalidSig end).
Proof.
  intros Hc Hsig Hne Hs. unfold SignTx in Hsig. destruct (Sign _ k) as [sig|] eqn:Esig; [|done]. destruct (Sign_ok _ _ _ Esig) as (Hb & Hl & Hv & _).
  destruct (WithSignature_ok (EIP155Signer c (c * 2)) sig tx Hl ltac:(split; lia) Hv) as (t & Et & Evals & ER & ES & EV). rewrite Et in Hsig. injection Hsig as <-.
  destruct (Z.eqb_spec c 0); [lia|]. destruct (protected_v c (nth 64 sig 0) ltac:(lia) Hv) as [Hp Hd]. destruct s as [| |c2 cm]; cbn [Signer_Sender].
  - apply recoverPlain_bad_v. lia.
  - apply recoverPlain_bad_v. lia.
  - destruct Hs as [Hc2 ->]. unfold Protected, ChainId. rewrite EV, Hp, Hd. cbn [negb]. destruct (Z.eqb_spec c c2) as [<-|]; [done|done].
Qed.

(** ** Encoding *)

Record txdata_ok (d : txdata) : Prop := {
  tk_nonce : is_u64 (AccountNonce d);
  tk_price : 0 ≤ Price d;
  tk_gas : is_u64 (TxGasLimit d);
  tk_to : match Recipient d with Some a => is_addr a | None => True end;
  tk_amount : 0 ≤ Amount d;
  tk_data : is_bytes (Payload d);
  tk_v : 0 ≤ tx_V d; tk_r : 0 ≤ tx_R d; tk_s : 0 ≤ tx_S d;
}.
Lemma BytesToAddress_addr_bytes a : is_addr a → BytesToAddress (addr_bytes a) = a.
Proof.
  unfold BytesToAddress, addr_bytes, is_addr. intros. rewrite be_val_be_bytes. change (256 ^ Z.of_nat 20) with (2 ^ 160).
  rewrite !Z.mod_small; [done|done|by rewrite Z.mod_small].
Qed.
Lemma txdata_typ_ok : typ_ok txdata_typ.
Proof. cbn. unfold bits_ok. tauto. Qed.
Lemma addr_enc_nonempty a : nonempty_enc (rlp (val_of (TByteArray 20) (GBytes (addr_bytes a)))).
Proof.
  cbn [val_of rlp]. destruct (rlp_bytes_cases (addr_bytes a)) as [(x & E & _ & _)|[-> _]].
  - apply (f_equal length) in E. unfold addr_bytes in E. by rewrite length_be_bytes in E.
  - unfold addr_bytes, zlen. by rewrite length_be_bytes.
Qed.
Lemma addr_gval_typed a : match a with Some a => is_addr a | None => True end → has_type (TOptPtr (TByteArray 20)) (addr_gval a).
Proof.
  destruct a as [a|]; [|done]. intros Ha. split; [|apply addr_enc_nonempty]. split_and!.
  - apply is_bytes_be_bytes.
  - apply length_be_bytes.
  - intros E. apply (f_equal length) in E. unfold addr_bytes in E. by rewrite length_be_bytes in E.
Qed.
Lemma gval_addr_gval a : match a with Some a => is_addr a | None => True end → gval_addr (addr_gval a) = a.
Proof. destruct a as [a|]; [|done]. intros Ha. cbn [addr_gval gval_addr]. by rewrite BytesToAddress_addr_bytes. Qed.
Lemma txdata_typed d : txdata_ok d → has_type txdata_typ (txdata_gval d).
Proof. intros []. pose proof (addr_gval_typed (Recipient d)). by split_and!; auto. Qed.
Lemma txdata_of_gval d : txdata_ok d → txdata_of (txdata_gval d) = Some d.
Proof. intros []. unfold txdata_of, txdata_gval. rewrite gval_addr_gval by done. by destruct d. Qed.

(** ** By price and nonce *)

Section PriceNonce.
Variable signer : Signer.
Abbreviation sends := (sender_or_zero signer).
Lemma price_asym a b : TxByPrice_Less a b = true → TxByPrice_Less b a = false.
Proof. unfold TxByPrice_Less. intros H%Z.ltb_lt. apply Z.ltb_ge. lia. Qed.
Lemma price_trans a b c : TxByPrice_Less b a = false → TxByPrice_Less c b = false → TxByPrice_Less c a = false.
Proof. unfold TxByPrice_Less. rewrite !Z.ltb_ge. lia. Qed.

(** The specification: a queue of transactions for each account; what is taken
    is the first of a queue and of the best price among the first ones. *)
Abbreviation queues := (gmap Z (list Transaction)).
Definition queues_ok (q : queues) : Prop := map_Forall (λ a l, l ≠ [] ∧ Forall (λ tx, sends tx = a) l) q.
Definition firsts (q : queues) : list Transaction := omap (λ p, head p.2) (map_to_list q).
Definition is_best (q : queues) (a : Z) (tx : Transaction) (rest : list Transaction) : Prop :=
  q !! a = Some (tx :: rest) ∧ ∀ b tx' rest', q !! b = Some (tx' :: rest') → Price (tx_data tx') ≤ Price (tx_data tx).
Inductive pick := PShift | PPop.
Definition picked (op : pick) (a : Z) (rest : list Transaction) (q : queues) : queues :=
  match op, rest with PShift, _ :: _ => <[a := rest]> q | _, _ => base.delete a q end.
Inductive picks : queues → list pick → list Transaction → queues → Prop :=
| picks_nil q : picks q [] [] q
| picks_cons q op ops a tx rest outs q' : is_best q a tx rest → picks (picked op a rest q) ops outs q' → picks q (op :: ops) (tx :: outs) q'.

(** What the heap and the map say of the queues. *)
Record holds (t : TransactionsByPriceAndNonce) (q : queues) : Prop := {
  ho_signer : pn_signer t = signer;
  ho_ok : queues_ok q;
  ho_heap : heap TxByPrice_Less (pn_heads t);
  ho_heads : pn_heads t ≡ₚ firsts q;
  ho_tails : ∀ a tx rest, q !! a = Some (tx :: rest) → pn_txs t !! a = Some rest;
}.
Lemma firsts_insert q a tx rest : q !! a = None → firsts (<[a := tx :: rest]> q) ≡ₚ tx :: firsts q.
Proof. intros Hq. unfold firsts. by rewrite map_to_list_insert. Qed.
Lemma firsts_delete q a tx rest : q !! a = Some (tx :: rest) → firsts q ≡ₚ tx :: firsts (base.delete a q).
Proof. intros Hq. rewrite <- (insert_delete_id q a (tx :: rest) Hq) at 1. apply firsts_insert, lookup_delete_eq. Qed.
Lemma elem_of_firsts q tx : tx ∈ firsts q ↔ ∃ a rest, q !! a = Some (tx :: rest).
Proof.
  unfold firsts. rewrite list_elem_of_omap. split.
  - intros ([a l] & Hl%elem_of_map_to_list & Hh). destruct l as [|x rest]; [done|]. injection Hh as ->. by exists a, rest.
  - intros (a & rest & Hq). exists (a, tx :: rest). by rewrite elem_of_map_to_list.
Qed.
Lemma queues_ok_insert q a l : queues_ok q → l ≠ [] → Forall (λ tx, sends tx = a) l → queues_ok (<[a := l]> q).
Proof. intros H ? ?. by apply map_Forall_insert_2. Qed.
Lemma queues_ok_delete q a : queues_ok q → queues_ok (base.delete a q).
Proof. intros H. by apply map_Forall_delete. Qed.

(** The head of the heap is the best first transaction, and the queue it is of
    that of its sender. *)
Lemma holds_peek t q tx l : holds t q → pn_heads t = tx :: l →
  ∃ rest, is_best q (sends tx) tx rest ∧ pn_txs t !! sends tx = Some rest ∧ l ≡ₚ firsts (base.delete (sends tx) q).
Proof.
  intros [Hs Hok Hh Hp Ht] E. assert (Hin : tx ∈ firsts q) by (rewrite <- Hp, E; by left).
  apply elem_of_firsts in Hin as (a & rest & Hq). destruct (Hok a _ Hq) as [_ HF]. apply Forall_cons in HF as [<- _].
  exists rest. split_and!.
  - split; [done|]. intros b tx' rest' Hb. assert (Hin' : tx' ∈ pn_heads t) by (rewrite Hp; apply elem_of_firsts; eauto).
    pose proof (heap_min _ price_asym price_trans (pn_heads t) tx Hh ltac:(by rewrite E) tx' Hin') as Hl. unfold TxByPrice_Less in Hl. apply Z.ltb_ge in Hl. lia.
  - by eapply Ht.
  - apply (inj (cons tx)). rewrite <- (firsts_delete q _ _ _ Hq), <- Hp, E. done.
Qed.
Lemma holds_delete t q a h : holds t q → heap TxByPrice_Less h → h ≡ₚ firsts (base.delete a q) → holds (mkTBPN (pn_txs t) h (pn_signer t)) (base.delete a q).
Proof.
  intros [Hs Hok Hh Hp Ht] Hheap Hperm. split; cbn; try done; [by apply queues_ok_delete|].
  intros b tx rest [_ Hb]%lookup_delete_Some. by eapply Ht.
Qed.
Lemma Pop_heads t q tx l : holds t q → pn_heads t = tx :: l →
  heap TxByPrice_Less (Pop TxByPrice_Less (pn_heads t)).2 ∧ (Pop TxByPrice_Less (pn_heads t)).2 ≡ₚ l.
Proof.
  intros H E. destruct (Pop_Remove _ price_asym price_trans (pn_heads t) tx) as (h' & EP & P & Hh); [by rewrite E|apply H|].
  rewrite EP. split; [done|]. apply (inj (cons tx)). by rewrite <- E.
Qed.
Lemma PopTx_holds t q tx l : holds t q → pn_heads t = tx :: l → ∃ t', PopTx t = Some t' ∧ holds t' (base.delete (sends tx) q).
Proof.
  intros H E. destruct (holds_peek t q tx l H E) as (rest & _ & _ & P). destruct (Pop_heads t q tx l H E) as [Hh Hp].
  exists (mkTBPN (pn_txs t) (Pop TxByPrice_Less (pn_heads t)).2 (pn_signer t)). split; [unfold PopTx; by rewrite E|]. apply holds_delete; [done|done|by rewrite Hp].
Qed.
Lemma Shift_holds t q tx l : holds t q → pn_heads t = tx :: l → ∃ t' rest, Shift t = Some t' ∧ is_best q (sends tx) tx rest ∧ holds t' (picked PShift (sends tx) rest q).
Proof.
  intros H E. destruct (holds_peek t q tx l H E) as (rest & Hb & Htl & P). destruct (Pop_heads t q tx l H E) as [Hh Hp].
  assert (ES : Shift t = match rest with
    | next :: rest => Some (mkTBPN (<[sends tx := rest]> (pn_txs t)) (Fix TxByPrice_Less 0 (<[0%nat := next]> (pn_heads t))) (pn_signer t))
    | [] => Some (mkTBPN (pn_txs t) (Pop TxByPrice_Less (pn_heads t)).2 (pn_signer t))
    end) by (unfold Shift; rewrite E, (ho_signer _ _ H), Htl; by destruct rest).
  rewrite ES. destruct rest as [|next rest].
  - eexists _, []. split_and!; [done|done|]. apply holds_delete; [done|done|by rewrite Hp].
  - eexists _, (next :: rest). split_and!; [done|done|]. destruct Hb as [Hq _]. destruct H as [Hs Hok Hheap Hperm Ht].
    destruct (Hok _ _ Hq) as [_ HF]. apply Forall_cons in HF as [_ HF]. cbn [picked]. split; cbn [pn_signer pn_heads pn_txs]; [done|by apply queues_ok_insert| | |].
    + apply (Fix_insert _ price_asym price_trans); [rewrite E; cbn; lia|done].
    + destruct (Fix_insert _ price_asym price_trans 0 next (pn_heads t) ltac:(rewrite E; cbn; lia) Hheap) as [_ ->]. rewrite E. cbn [insert list_insert].
      rewrite <- insert_delete_eq, firsts_insert by apply lookup_delete_eq. by rewrite P.
    + intros b tx' rest' [[<- [= <- <-]]|[Hne Hb]]%lookup_insert_Some; [by rewrite lookup_insert_eq|]. rewrite lookup_insert_ne by done. by eapply Ht.
Qed.

Definition next_of (op : pick) (t : TransactionsByPriceAndNonce) : option TransactionsByPriceAndNonce :=
  match op with PShift => Shift t | PPop => PopTx t end.
Lemma next_holds op t q tx l : holds t q → pn_heads t = tx :: l →
  ∃ t1 rest, next_of op t = Some t1 ∧ is_best q (sends tx) tx rest ∧ holds t1 (picked op (sends tx) rest q).
Proof.
  intros H E. destruct op; [by eapply Shift_holds|]. destruct (holds_peek t q tx l H E) as (rest & Hb & _).
  destruct (PopTx_holds t q tx l H E) as (t1 & E1 & H1). by exists t1, rest.
Qed.

(** Any sequence of Shift and Pop, each on the transaction that Peek gives. *)
Fixpoint run_picks (ops : list pick) (t : TransactionsByPriceAndNonce) : option (list Transaction * TransactionsByPriceAndNonce) :=
  match ops with
  | [] => Some ([], t)
  | op :: ops =>
      match Peek t, next_of op t with
      | Some tx, Some t => '(outs, t) ← run_picks ops t; Some (tx :: outs, t)
      | _, _ => None
      end
  end.
Lemma run_picks_ok ops : ∀ t q outs t', holds t q → run_picks ops t = Some (outs, t') → ∃ q', picks q ops outs q' ∧ holds t' q'.
Proof.
  induction ops as [|op ops IH]; intros t q outs t' H; cbn [run_picks].
  { intros [= <- <-]. exists q. by split; [constructor|]. }
  unfold Peek. destruct (pn_heads t) as [|tx l] eqn:E; [done|]. cbn [head].
  pose proof (next_holds op t q tx l H E) as Hop.
  destruct Hop as (t1 & rest & -> & Hb & H1). destruct (run_picks ops t1) as [[outs1 t2]|] eqn:E2; [|done]. cbn. intros [= <- <-].
  destruct (IH t1 _ outs1 t2 H1 E2) as (q' & Hp & Hh). exists q'. split; [|done]. by econstructor.
Qed.
Lemma holds_empty t q : holds t q → Peek t = None ↔ q = ∅.
Proof.
  intros H. unfold Peek. pose proof (ho_heads _ _ H) as Hp. split.
  - destruct (pn_heads t); [|done]. intros _. symmetry in Hp. apply Permutation_nil_r in Hp. apply map_empty. intros a. destruct (q !! a) as [l|] eqn:Ea; [|done].
    destruct (ho_ok _ _ H _ _ Ea) as [Hne _]. destruct l as [|tx l]; [done|]. assert (Hin : tx ∈ firsts q) by (apply elem_of_firsts; eauto). rewrite Hp in Hin. by apply elem_of_nil in Hin.
  - intros ->. unfold firsts in Hp. rewrite map_to_list_empty in Hp. apply Permutation_nil_r in Hp. by rewrite Hp.
Qed.

(** The heads that are taken off the map at the start. *)
Lemma take_heads_spec order : ∀ heads txs, NoDup order → (∀ a, a ∈ order → ∃ tx rest, txs !! a = Some (tx :: rest) ∧ sends tx = a) →
  ∃ txs', take_heads signer order heads txs = Some (heads ++ omap (λ a, txs !! a ≫= head) order, txs') ∧
    ∀ a, txs' !! a = if decide (a ∈ order) then tail <$> txs !! a else txs !! a.
Proof.
  induction order as [|a order IH]; intros heads txs Hnd Hall; cbn [take_heads].
  { exists txs. cbn. rewrite app_nil_r. split; [done|]. intros a. rewrite decide_False; [done|]. by intros ?%elem_of_nil. }
  apply NoDup_cons in Hnd as [Hna Hnd]. destruct (Hall a ltac:(by left)) as (tx & rest & Ea & Es). rewrite Ea, Es, Z.eqb_refl.
  destruct (IH (heads ++ [tx]) (<[a := rest]> txs)) as (txs' & E & Hl); [done| |].
  { intros b Hb. destruct (Hall b ltac:(by right)) as (tx' & rest' & Eb & Es'). exists tx', rest'. split; [|done]. rewrite lookup_insert_ne; [done|]. intros ->. done. }
  exists txs'. rewrite E. cbn [omap list_omap]. rewrite Ea. cbn [mbind option_bind head]. rewrite <- app_assoc. cbn [app]. split.
  - do 4 f_equal. clear -Hna. induction order as [|b order IH]; [done|]. cbn [omap list_omap]. apply not_elem_of_cons in Hna as [Hne Hna].
    rewrite lookup_insert_ne by done. destruct (txs !! b ≫= head); [f_equal|]; by apply IH.
  - intros b. rewrite Hl. destruct (decide (b = a)) as [->|Hne].
    + rewrite decide_False by done. rewrite decide_True by (by left). rewrite lookup_insert_eq, Ea. done.
    + rewrite lookup_insert_ne by done. apply decide_ext. rewrite elem_of_cons. naive_solver.
Qed.
Lemma New_holds order txs : queues_ok txs → order ≡ₚ (map_to_list txs).*1 →
  ∃ t, NewTransactionsByPriceAndNonce signer order txs = Some t ∧ holds t txs.
Proof.
  intros Hok Ho. assert (Hin : ∀ a, a ∈ order ↔ is_Some (txs !! a)).
  { intros a. rewrite Ho, list_elem_of_fmap. split.
    - intros ([b l] & -> & Hb%elem_of_map_to_list). by eexists.
    - intros [l Hl]. exists (a, l). by rewrite elem_of_map_to_list. }
  destruct (take_heads_spec order [] txs) as (txs' & E & Hl).
  { rewrite Ho. apply NoDup_fst_map_to_list. }
  { intros a [l Ea]%Hin. destruct (Hok a l Ea) as [Hne HF]. destruct l as [|tx rest]; [done|]. apply Forall_cons in HF as [? _]. by exists tx, rest. }
  unfold NewTransactionsByPriceAndNonce. rewrite E. eexists. split; [done|].
  destruct (Init_spec _ price_asym price_trans (omap (λ a, txs !! a ≫= head) order)) as [Hh Hp]. cbn [app].
  split; cbn [pn_signer pn_heads pn_txs]; [done|done|done| |].
  - rewrite Hp. etrans; [by apply omap_Permutation, Ho|]. unfold firsts. clear. assert (HF : Forall (λ p, txs !! p.1 = Some p.2) (map_to_list txs)).
    { apply Forall_forall. by intros [a l] H%elem_of_map_to_list. }
    induction HF as [|[a l] ps Ha _ IH]; [done|]. cbn in *. rewrite Ha. cbn. by destruct (head l); [f_equiv|].
  - intros a tx rest Ea. rewrite Hl, decide_True by (apply Hin; by eexists). by rewrite Ea.
Qed.
End PriceNonce.
End Laws.
