(* ===== verification/TrieEncoding.v ===== *)
(** * Encodings of trie keys

    [trie/encoding.go]: a key in bytes, its nibbles with a terminator (hex),
    and the compact form that is stored. *)

From S2P Require Import Prelude BigMath Rlp.

(** [hasTerm] *)
Definition hasTerm (s : bytes) : bool :=
  match last s with Some x => x =? 16 | None => false end.

(** [decodeNibbles]: pairs of nibbles into bytes; called on an even number. *)
Fixpoint decodeNibbles (nibbles : bytes) : bytes :=
  match nibbles with
  | a :: b :: r => Z.lor (Z.shiftl a 4 mod 256) b :: decodeNibbles r
  | _ => []
  end.

Definition hexToCompact (hex : bytes) : bytes :=
  let terminator := if hasTerm hex then 1 else 0 in
  let hex := if hasTerm hex then take (length hex - 1) hex else hex in
  let flag := Z.shiftl terminator 5 in
  match hex with
  | h0 :: r => if Nat.odd (length hex) then Z.lor (Z.lor flag (Z.shiftl 1 4)) h0 :: decodeNibbles r
               else flag :: decodeNibbles hex
  | [] => [flag]
  end.

Fixpoint nibbles_of (str : bytes) : bytes :=
  match str with
  | [] => []
  | b :: r => b / 16 :: b mod 16 :: nibbles_of r
  end.
Definition keybytesToHex (str : bytes) : bytes := nibbles_of str ++ [16].

(** [None]: a slice bound out of range, on an empty argument. *)
Definition compactToHex (compact : bytes) : option bytes :=
  let base := keybytesToHex compact in
  match base with
  | [] => None
  | b0 :: _ =>
      let base := if b0 <? 2 then take (length base - 1) base else base in
      let chop := Z.to_nat (2 - Z.land b0 1) in
      if (chop <=? length base)%nat then Some (drop chop base) else None
  end.

(** [None]: it panics on an odd length. *)
Definition hexToKeybytes (hex : bytes) : option bytes :=
  let hex := if hasTerm hex then take (length hex - 1) hex else hex in
  if Nat.odd (length hex) then None else Some (decodeNibbles hex).

Fixpoint prefixLen (a b : bytes) : nat :=
  match a, b with
  | x :: a, y :: b => if x =? y then S (prefixLen a b) else O
  | _, _ => O
  end.

(** ** Laws *)

Definition is_nibble (x : Z) : Prop := 0 ≤ x < 16.
Abbreviation nibbles := (Forall is_nibble).
(** The hex form of a key, and of a part of one that ends at a branch. *)
Definition hex_key (k : bytes) : Prop := ∃ p, k = p ++ [16] ∧ nibbles p.

Lemma hasTerm_app p : hasTerm (p ++ [16]) = true.
Proof. unfold hasTerm. by rewrite last_snoc. Qed.
Lemma hasTerm_nibbles p : nibbles p → hasTerm p = false.
Proof.
  unfold hasTerm. intros H. destruct (last p) as [x|] eqn:E; [|done].
  apply last_Some in E as [q ->]. apply Forall_app in H as [_ H]. apply Forall_cons in H as [H _].
  unfold is_nibble in H. lia.
Qed.
Lemma nibbles_of_nibbles str : is_bytes str → nibbles (nibbles_of str).
Proof.
  induction 1 as [|b r Hb _ IH]; [constructor|]. unfold is_byte in Hb. cbn [nibbles_of].
  constructor; [split; [apply Z.div_pos; lia|apply Z.div_lt_upper_bound; lia]|].
  constructor; [apply Z.mod_pos_bound; lia|done].
Qed.
Lemma keybytesToHex_hex str : is_bytes str → hex_key (keybytesToHex str).
Proof. intros H. exists (nibbles_of str). split; [done|by apply nibbles_of_nibbles]. Qed.
Lemma length_nibbles_of str : length (nibbles_of str) = (2 * length str)%nat.
Proof. induction str as [|b r IH]; cbn [nibbles_of length]; lia. Qed.
Lemma nibble_byte a b : is_nibble a → is_nibble b → Z.lor (Z.shiftl a 4 mod 256) b = a * 16 + b.
Proof.
  unfold is_nibble. intros Ha Hb. rewrite Z.shiftl_mul_pow2 by lia. change (2 ^ 4) with 16.
  rewrite Z.mod_small by lia. 
  apply (lor_add 4); [lia|lia|]. change (2 ^ 4) with 16. apply Z_mod_mult.
Qed.
Lemma decode_nibbles_of str : is_bytes str → decodeNibbles (nibbles_of str) = str.
Proof.
  induction 1 as [|b r Hb _ IH]; [done|]. unfold is_byte in Hb. cbn [nibbles_of decodeNibbles].
  rewrite nibble_byte by (split; [apply Z.div_pos || apply Z.mod_pos_bound|apply Z.div_lt_upper_bound || apply Z.mod_pos_bound]; lia).
  rewrite IH. f_equal. pose proof (Z.div_mod b 16). lia.
Qed.
Lemma nibbles_of_decode p : nibbles p → Nat.even (length p) = true → nibbles_of (decodeNibbles p) = p.
Proof.
  remember (length p) as n eqn:Hn. revert p Hn. induction n as [n IH] using lt_wf_ind. intros p Hn Hp He.
  destruct p as [|a [|b r]]; [done|by subst|]. apply Forall_cons in Hp as [Ha Hp]. apply Forall_cons in Hp as [Hb Hp].
  cbn [decodeNibbles nibbles_of]. rewrite nibble_byte by done. unfold is_nibble in *.
  rewrite Z.div_add_l, (Z.div_small b), Z.add_0_r by lia.
  rewrite Z.add_comm, Z_mod_plus_full, Z.mod_small by lia. do 2 f_equal.
  apply (IH (length r)); [cbn in Hn; lia|done|done|]. subst n. done.
Qed.
Lemma is_bytes_decodeNibbles p : nibbles p → is_bytes (decodeNibbles p).
Proof.
  remember (length p) as n eqn:Hn. revert p Hn. induction n as [n IH] using lt_wf_ind. intros p Hn Hp.
  destruct p as [|a [|b r]]; [constructor|constructor|].
  apply Forall_cons in Hp as [Ha Hp]. apply Forall_cons in Hp as [Hb Hp].
  cbn [decodeNibbles]. constructor; [rewrite nibble_byte by done; unfold is_nibble, is_byte in *; lia|].
  apply (IH (length r)); [cbn in Hn; lia|done|done].
Qed.

(** A key part: nibbles, with or without the terminator. *)
Definition key_part (k : bytes) : Prop := nibbles k ∨ hex_key k.
Lemma strip_term p : take (length (p ++ [16]) - 1) (p ++ [16]) = p.
Proof. rewrite length_app. cbn [length]. rewrite Nat.add_sub. apply take_app_length. Qed.

Lemma compact_cases p t : nibbles p →
  hexToCompact (if t : bool then p ++ [16] else p) =
  match p with
  | h0 :: r => if Nat.odd (length p) then (if t then 48 else 16) + h0 :: decodeNibbles r
               else (if t then 32 else 0) :: decodeNibbles p
  | [] => [if t then 32 else 0]
  end.
Proof.
  intros Hp. unfold hexToCompact. 
  assert (E : (if hasTerm (if t then p ++ [16] else p) then 1 else 0) = if t then 1 else 0).
  { destruct t; [by rewrite hasTerm_app|by rewrite hasTerm_nibbles]. }
  rewrite E. assert (E2 : (if hasTerm (if t then p ++ [16] else p) then take (length (if t then p ++ [16] else p) - 1)
    (if t then p ++ [16] else p) else if t then p ++ [16] else p) = p).
  { destruct t; [by rewrite hasTerm_app, strip_term|by rewrite hasTerm_nibbles]. }
  rewrite E2. destruct p as [|h0 r]; [by destruct t|]. apply Forall_cons in Hp as [Hh _].
  destruct (Nat.odd _); [|by destruct t]. f_equal.
  unfold is_nibble in Hh. assert (Hc : ∀ f, f = 0 ∨ f = 32 → Z.lor (Z.lor f (Z.shiftl 1 4)) h0 = f + 16 + h0).
  { intros f Hf. replace (Z.lor f (Z.shiftl 1 4)) with ((f + 16) / 16 * 16) by (by destruct Hf as [-> | ->]).
    replace ((f + 16) / 16 * 16) with (Z.shiftl ((f + 16) / 16) 4 mod 256) by (by destruct Hf as [-> | ->]).
    rewrite nibble_byte; [by destruct Hf as [-> | ->]| |done].
    destruct Hf as [-> | ->]; by compute. }
  rewrite Hc by (destruct t; [by right|by left]).
  destruct t; [change (Z.shiftl 1 5) with 32|change (Z.shiftl 0 5) with 0]; lia.
Qed.
(** Decoding the compact form gives the key part back. *)
Lemma compactToHex_hexToCompact k : key_part k → compactToHex (hexToCompact k) = Some k.
Proof.
  intros Hk. assert (Hpt : ∃ p (t : bool), nibbles p ∧ k = if t then p ++ [16] else p).
  { destruct Hk as [Hk|(p & -> & Hp)]; [by exists k, false|by exists p, true]. }
  destruct Hpt as (p & t & Hp & ->). rewrite compact_cases by done. clear Hk.
  unfold compactToHex, keybytesToHex.
  destruct p as [|h0 r]; [by destruct t|]. pose proof Hp as Hp'. apply Forall_cons in Hp' as [Hh Hr].
  unfold is_nibble in Hh. destruct (Nat.odd (length (h0 :: r))) eqn:Ho.
  - assert (He : Nat.even (length r) = true).
    { cbn [length] in Ho. by rewrite Nat.odd_succ in Ho. }
    cbn [nibbles_of app]. rewrite nibbles_of_decode by done.
    destruct t.
    + replace ((48 + h0) / 16) with 3 by (Z.div_mod_to_equations; lia).
      replace ((48 + h0) mod 16) with h0 by (Z.div_mod_to_equations; lia). done.
    + replace ((16 + h0) / 16) with 1 by (Z.div_mod_to_equations; lia).
      replace ((16 + h0) mod 16) with h0 by (Z.div_mod_to_equations; lia).
      change (1 <? 2) with true. cbv iota zeta. pose proof (strip_term (1 :: h0 :: r)) as E. cbn [app] in E. by rewrite E.
  - assert (He : Nat.even (length (h0 :: r)) = true) by (by rewrite <- Nat.negb_odd, Ho).
    cbn [nibbles_of app]. rewrite nibbles_of_decode by done. destruct t; [done|].
    change (0 / 16) with 0. change (0 mod 16) with 0. change (0 <? 2) with true. cbv iota zeta.
    cbn [app].
    pose proof (strip_term (0 :: 0 :: h0 :: r)) as E. cbn [app] in E. by rewrite E.
Qed.
Lemma hexToKeybytes_keybytesToHex str : is_bytes str → hexToKeybytes (keybytesToHex str) = Some str.
Proof.
  intros H. unfold hexToKeybytes, keybytesToHex. rewrite hasTerm_app, strip_term, length_nibbles_of.
  rewrite <- Nat.negb_even, Nat.even_mul. cbn [negb Nat.even orb]. by rewrite decode_nibbles_of.
Qed.
Lemma keybytesToHex_inj a b : is_bytes a → is_bytes b → keybytesToHex a = keybytesToHex b → a = b.
Proof.
  intros Ha Hb E. apply (inj Some). rewrite <- (hexToKeybytes_keybytesToHex a), <- (hexToKeybytes_keybytesToHex b) by done.
  by rewrite E.
Qed.
Lemma is_bytes_hexToCompact k : key_part k → is_bytes (hexToCompact k).
Proof.
  intros Hk. assert (Hpt : ∃ p (t : bool), nibbles p ∧ k = if t then p ++ [16] else p).
  { destruct Hk as [Hk|(p & -> & Hp)]; [by exists k, false|by exists p, true]. }
  destruct Hpt as (p & t & Hp & ->). rewrite compact_cases by done.
  destruct p as [|h0 r]; [constructor; [destruct t; by compute|constructor]|].
  pose proof Hp as Hp'. apply Forall_cons in Hp' as [Hh Hr]. unfold is_nibble in Hh.
  destruct (Nat.odd _); constructor; try (by apply is_bytes_decodeNibbles);
    unfold is_byte; destruct t; lia.
Qed.
Lemma length_decodeNibbles p : (length (decodeNibbles p) ≤ length p)%nat.
Proof.
  remember (length p) as n eqn:Hn. revert p Hn. induction n as [n IH] using lt_wf_ind. intros [|a [|b r]] ->; cbn [decodeNibbles length]; [lia|lia|].
  specialize (IH (length r) ltac:(cbn; lia) r eq_refl). lia.
Qed.
Lemma zlen_hexToCompact k : zlen (hexToCompact k) ≤ zlen k + 1.
Proof.
  assert (H : ∀ h, (length h ≤ length k)%nat → ∀ f g,
    zlen (match h with h0 :: r => if Nat.odd (length h) then g h0 :: decodeNibbles r else f :: decodeNibbles h | [] => [f] end) ≤ zlen k + 1).
  { intros [|h0 r] Hl f g; [unfold zlen; cbn; lia|]. pose proof (length_decodeNibbles r). pose proof (length_decodeNibbles (h0 :: r)).
    destruct (Nat.odd _); rewrite zlen_cons; unfold zlen; cbn in *; lia. }
  unfold hexToCompact. apply H. destruct (hasTerm k); [rewrite length_take|]; lia.
Qed.

(** ** Common prefixes *)

Lemma prefixLen_le_l a b : (prefixLen a b ≤ length a)%nat.
Proof. revert b. induction a as [|x a IH]; intros [|y b]; cbn; try lia. destruct (x =? y); [|lia]. specialize (IH b). lia. Qed.
Lemma prefixLen_take a b : take (prefixLen a b) a = take (prefixLen a b) b.
Proof.
  revert b. induction a as [|x a IH]; intros [|y b]; try done. cbn [prefixLen].
  destruct (Z.eqb_spec x y) as [->|]; [|done]. cbn [firstn]. by rewrite IH.
Qed.
Lemma prefixLen_le_r a b : (prefixLen a b ≤ length b)%nat.
Proof. revert b. induction a as [|x a IH]; intros [|y b]; cbn; try lia. destruct (x =? y); [|lia]. specialize (IH b). lia. Qed.
Lemma prefixLen_all a b : prefixLen a b = length b → a = b ++ drop (length b) a.
Proof.
  intros E. rewrite <- (take_drop (length b) a) at 1. f_equal.
  rewrite <- E at 1. rewrite prefixLen_take, E. by apply take_ge.
Qed.
Lemma prefixLen_app p a : prefixLen (p ++ a) p = length p.
Proof. induction p as [|x p IH]; [by destruct a|]. cbn. by rewrite Z.eqb_refl, IH. Qed.
(** Past the common prefix the keys differ or one has ended. *)
Lemma prefixLen_differ a b x y :
  a !! prefixLen a b = Some x → b !! prefixLen a b = Some y → x ≠ y.
Proof.
  revert b. induction a as [|u a IH]; intros [|v b]; try done. cbn [prefixLen].
  destruct (Z.eqb_spec u v) as [->|Hne]; [apply IH|]. cbn. by intros [= <-] [= <-].
Qed.
