(* ===== verification/Trie.v ===== *)
(** * The Merkle Patricia trie

    [trie/node.go], [trie/trie.go], [trie/hasher.go], and of
    [trie/database.go] the nodes, blobs and preimages kept in memory over a
    disk.  Nodes are immutable values: every operation copies what it changes.
    The reference counts and the flush list of the database, which decide when
    a node leaves the memory, have no counterpart. *)

From S2P Require Import Prelude BigMath Rlp Interfaces TrieEncoding.

(** ** node.go *)

Record nodeFlag := mkFlag { fl_hash : option bytes; gen : Z; dirty : bool }.

(** [NNil] is the nil interface; a full node has 17 children. *)
Inductive node :=
| NNil
| NShort (Key : bytes) (Val : node) (flags : nodeFlag)
| NFull (Children : list node) (flags : nodeFlag)
| NHash (h : bytes)
| NValue (v : bytes).

Definition is_nil (n : node) : bool := match n with NNil => true | _ => false end.

Definition u16 (z : Z) : Z := z mod 2 ^ 16.
Definition flag_canUnload (f : nodeFlag) (cachegen cachelimit : Z) : bool :=
  negb (dirty f) && (cachelimit <=? u16 (cachegen - gen f)).
Definition canUnload (n : node) (cachegen cachelimit : Z) : bool :=
  match n with
  | NShort _ _ f | NFull _ f => flag_canUnload f cachegen cachelimit
  | _ => false
  end.
Definition cache (n : node) : option bytes * bool :=
  match n with
  | NShort _ _ f | NFull _ f => (fl_hash f, dirty f)
  | _ => (None, true)
  end.

(** What [rlp.Encode] makes of a node: a short node is a struct of two
    fields, a full node a list in which nil is the empty string, a nil
    interface elsewhere the empty list. *)
Fixpoint node_val (n : node) : val :=
  match n with
  | NNil => VList []
  | NShort k v _ => VList [VBytes k; node_val v]
  | NFull cs _ => VList (map (λ c, match c with NNil => VBytes [] | _ => node_val c end) cs)
  | NHash h => VBytes h
  | NValue v => VBytes v
  end.

Inductive trieerror :=
| MissingNodeError (NodeHash : Z) (Path : bytes)
| ErrUnexpectedEOF
| errDecode (e : rlperror)
| errElements (n : Z)
| errOversized (size : Z)
| errStringSize (n : Z).
Abbreviation tres := (res trieerror).
Definition of_rlp {A} (x : rres A) : tres A :=
  match x with Ok a => Ok a | Err e => Err (errDecode e) | Panic => Panic | OutOfFuel => OutOfFuel end.
Definition of_opt {A} (x : option A) : tres A := match x with Some a => Ok a | None => Panic end.

Definition hashLen : Z := 32.

(** [decodeRef], on the decoder of embedded nodes, and the sixteen of
    [decodeFull]. *)
Section DecodeRef.
Variable decodeNode : option bytes → bytes → tres node.
Definition decodeRef (buf : bytes) : tres (node * bytes) :=
  s ←? of_rlp (Split buf);
  let '(kind, v, rest) := s in
  match kind with
  | KList =>
      let size := zlen buf - zlen rest in
      if hashLen <? size then Err (errOversized size)
      else n ←? decodeNode None buf; Ok (n, rest)
  | KString =>
      if zlen v =? 0 then Ok (NNil, rest)
      else if zlen v =? 32 then Ok (NHash v, rest) else Err (errStringSize (zlen v))
  | KByte => Err (errStringSize (zlen v))
  end.
Fixpoint decodeRefs (n : nat) (elems : bytes) : tres (list node * bytes) :=
  match n with
  | O => Ok ([], elems)
  | S n =>
      r ←? decodeRef elems;
      let '(c, elems) := r in
      r ←? decodeRefs n elems;
      let '(cs, elems) := r in
      Ok (c :: cs, elems)
  end.
End DecodeRef.

(** [decodeNode], with [decodeShort] and [decodeFull]; an embedded node is
    shorter than the buffer it is in. *)
Section Decode.
Variable cachegen : Z.
Fixpoint decodeNode (fuel : nat) (hash : option bytes) (buf : bytes) : tres node :=
  match fuel with
  | O => OutOfFuel
  | S fuel =>
      if zlen buf =? 0 then Err ErrUnexpectedEOF
      else
        s ←? of_rlp (SplitList buf);
        let elems := s.1 in
        (* an error of CountValues is dropped, with a count of zero *)
        let c := match CountValues elems with Ok c => c | _ => 0 end in
        if c =? 2 then
          s ←? of_rlp (SplitString elems);
          let '(kbuf, rest) := s in
          let flag := mkFlag hash cachegen false in
          key ←? of_opt (compactToHex kbuf);
          if hasTerm key then
            s ←? of_rlp (SplitString rest);
            Ok (NShort key (NValue s.1) flag)
          else
            r ←? decodeRef (decodeNode fuel) rest;
            Ok (NShort key r.1 flag)
        else if c =? 17 then
          r ←? decodeRefs (decodeNode fuel) 16%nat elems;
          let '(cs, elems) := r in
          s ←? of_rlp (SplitString elems);
          let v := if 0 <? zlen s.1 then NValue s.1 else NNil in
          Ok (NFull (cs ++ [v]) (mkFlag hash cachegen false))
        else Err (errElements c)
  end.
End Decode.

(** ** database.go *)

(** A node as the memory keeps it, without flags ([rawShortNode],
    [rawFullNode]). *)
Inductive rnode :=
| RNil
| RShort (Key : bytes) (Val : rnode)
| RFull (Children : list rnode)
| RHash (h : bytes)
| RValue (v : bytes).

(** Inside a node: [simplifyNode] of a nil interface alone panics. *)
Fixpoint simplifyNode (n : node) : rnode :=
  match n with
  | NNil => RNil
  | NShort k v _ => RShort k (simplifyNode v)
  | NFull cs _ => RFull (map simplifyNode cs)
  | NHash h => RHash h
  | NValue v => RValue v
  end.
(** [None]: [compactToHex] panics, or the node is nil; the nil children of a
    full node are kept. *)
Fixpoint expandNode (hash : option bytes) (n : rnode) (cachegen : Z) : option node :=
  match n with
  | RNil => None
  | RShort k v =>
      k ← compactToHex k;
      v ← expandNode None v cachegen;
      Some (NShort k v (mkFlag hash cachegen false))
  | RFull cs =>
      cs ← mapM (λ c, match c with RNil => Some NNil | _ => expandNode None c cachegen end) cs;
      Some (NFull cs (mkFlag hash cachegen false))
  | RHash h => Some (NHash h)
  | RValue v => Some (NValue v)
  end.
(** The value that [rlp.EncodeToBytes] encodes for a raw node. *)
Fixpoint rnode_val (r : rnode) : val :=
  match r with
  | RNil => VList []
  | RShort k v => VList [VBytes k; rnode_val v]
  | RFull cs => VList (map (λ c, match c with RNil => VBytes [] | _ => rnode_val c end) cs)
  | RHash h => VBytes h
  | RValue v => VBytes v
  end.

(** [cachedNode]: a collapsed node, or a blob ([rawNode]). *)
Inductive cachedNode := CNode (n : rnode) | CBlob (blob : bytes).
Record Database := mkDatabase {
  nodes : gmap Z cachedNode;
  preimages : gmap Z bytes;
  diskdb : bytes → option bytes;
}.
(** The entry under the zero hash is the meta root of the reference counts. *)
Definition NewDatabase (disk : bytes → option bytes) : Database := mkDatabase {[0 := CNode RNil]} ∅ disk.
(** [insert]: an entry that is there already is kept. *)
Definition db_insert (h : Z) (c : cachedNode) (db : Database) : Database :=
  match nodes db !! h with
  | Some _ => db
  | None => mkDatabase (<[h := c]> (nodes db)) (preimages db) (diskdb db)
  end.
Definition InsertBlob (h : Z) (blob : bytes) (db : Database) : Database := db_insert h (CBlob blob) db.
Definition insertPreimage (h : Z) (preimage : bytes) (db : Database) : Database :=
  match preimages db !! h with
  | Some _ => db
  | None => mkDatabase (nodes db) (<[h := preimage]> (preimages db)) (diskdb db)
  end.
Definition mustDecodeNode (hash : bytes) (buf : bytes) (cachegen : Z) : tres node :=
  match decodeNode cachegen (S (length buf)) (Some hash) buf with Ok n => Ok n | _ => Panic end.
Definition obj (c : cachedNode) (h cachegen : Z) : tres node :=
  match c with
  | CBlob b => mustDecodeNode (hash_bytes h) b cachegen
  | CNode r => of_opt (expandNode (Some (hash_bytes h)) r cachegen)
  end.
(** [node]: from memory, or decoded from disk; [Ok None] when it is missing. *)
Definition db_node (h cachegen : Z) (db : Database) : tres (option node) :=
  match nodes db !! h with
  | Some c => n ←? obj c h cachegen; Ok (Some n)
  | None =>
      match diskdb db (hash_bytes h) with
      | None => Ok None
      | Some enc => n ←? mustDecodeNode (hash_bytes h) enc cachegen; Ok (Some n)
      end
  end.
(** [Node]: the encoding of an entry, from memory or from disk. *)
Definition cachedNode_rlp (c : cachedNode) : tres bytes :=
  match c with
  | CBlob b => Ok b
  | CNode r => match EncodeToBytes (rnode_val r) with Ok b => Ok b | _ => Panic end
  end.
Definition Node (h : Z) (db : Database) : tres (option bytes) :=
  match nodes db !! h with
  | Some c => b ←? cachedNode_rlp c; Ok (Some b)
  | None => Ok (diskdb db (hash_bytes h))
  end.

(** [secureKeyPrefix] *)
Definition secureKeyPrefix : bytes := [115; 101; 99; 117; 114; 101; 45; 107; 101; 121; 45].
Definition secureKey (key : bytes) : bytes := secureKeyPrefix ++ key.
Definition preimage (h : Z) (db : Database) : option bytes :=
  match preimages db !! h with
  | Some p => Some p
  | None => diskdb db (secureKey (hash_bytes h))
  end.

(** ** trie.go *)

Definition emptyRoot : Z := 0x56e81f171bcc55a6ff8345e692c0f86e5b48e01b996cadc001622fb5e363b421.

Record Trie := mkTrie { root : node; cachegen : Z; cachelimit : Z }.

Section Operations.
Variable db : Database.
Variable cg : Z.  (* the trie's cachegen *)

Definition newFlag : nodeFlag := mkFlag None cg true.
Definition resolveHash (n : bytes) (prefix : bytes) : tres node :=
  let hash := BytesToHash n in
  r ←? db_node hash cg db;
  match r with
  | Some n => Ok n
  | None => Err (MissingNodeError hash prefix)
  end.
Definition resolve (n : node) (prefix : bytes) : tres node :=
  match n with NHash h => resolveHash h prefix | _ => Ok n end.

(** [Children[i]], of an array of 17. *)
Definition child (cs : list node) (i : Z) : tres node := of_opt (cs !! Z.to_nat i).
Definition set_child (cs : list node) (i : Z) (n : node) : list node := <[Z.to_nat i := n]> cs.
Definition set_gen (f : nodeFlag) : nodeFlag := mkFlag (fl_hash f) cg (dirty f).

(** The value, the node with what was loaded, and whether anything was. *)
Fixpoint tryGet (fuel : nat) (origNode : node) (key : bytes) (pos : nat) : tres (option bytes * node * bool) :=
  match fuel with
  | O => OutOfFuel
  | S fuel =>
      match origNode with
      | NNil => Ok (None, NNil, false)
      | NValue v => Ok (Some v, origNode, false)
      | NShort nk nv fl =>
          if (length key - pos <? length nk)%nat || negb (bool_decide (nk = take (length nk) (drop pos key)))
          then Ok (None, origNode, false)
          else
            r ←? tryGet fuel nv key (pos + length nk);
            let '(value, newnode, didResolve) := r in
            Ok (value, if didResolve then NShort nk newnode (set_gen fl) else origNode, didResolve)
      | NFull cs fl =>
          k ←? of_opt (key !! pos);
          c ←? child cs k;
          r ←? tryGet fuel c key (pos + 1);
          let '(value, newnode, didResolve) := r in
          Ok (value, if didResolve then NFull (set_child cs k newnode) (set_gen fl) else origNode, didResolve)
      | NHash h =>
          c ←? resolveHash h (take pos key);
          r ←? tryGet fuel c key pos;
          let '(value, newnode, _) := r in
          Ok (value, newnode, true)
      end
  end.

(** Whether anything changed, and the new node. *)
Fixpoint insert (fuel : nat) (n : node) (prefix key : bytes) (value : node) : tres (bool * node) :=
  match fuel with
  | O => OutOfFuel
  | S fuel =>
      match key with
      | [] =>
          match n, value with
          | NValue v, NValue w => Ok (negb (bool_decide (v = w)), value)
          | NValue _, _ => Panic
          | _, _ => Ok (true, value)
          end
      | k0 :: krest =>
          match n with
          | NShort nk nv fl =>
              let matchlen := prefixLen key nk in
              if (matchlen =? length nk)%nat then
                r ←? insert fuel nv (prefix ++ take matchlen key) (drop matchlen key) value;
                let '(dirty, nn) := r in
                if dirty then Ok (true, NShort nk nn newFlag) else Ok (false, n)
              else
                a ←? of_opt (nk !! matchlen);
                r ←? insert fuel NNil (prefix ++ take (S matchlen) nk) (drop (S matchlen) nk) nv;
                _ ←? of_opt (replicate 17 tt !! Z.to_nat a);
                let cs := set_child (replicate 17 NNil) a r.2 in
                b ←? of_opt (key !! matchlen);
                r ←? insert fuel NNil (prefix ++ take (S matchlen) key) (drop (S matchlen) key) value;
                _ ←? of_opt (replicate 17 tt !! Z.to_nat b);
                let branch := NFull (set_child cs b r.2) newFlag in
                if (matchlen =? 0)%nat then Ok (true, branch)
                else Ok (true, NShort (take matchlen key) branch newFlag)
          | NFull cs fl =>
              c ←? child cs k0;
              r ←? insert fuel c (prefix ++ [k0]) krest value;
              let '(dirty, nn) := r in
              if dirty then Ok (true, NFull (set_child cs k0 nn) newFlag) else Ok (false, n)
          | NNil => Ok (true, NShort key value newFlag)
          | NHash h =>
              rn ←? resolveHash h prefix;
              r ←? insert fuel rn prefix key value;
              let '(dirty, nn) := r in
              if dirty then Ok (true, nn) else Ok (false, rn)
          | NValue _ => Panic
          end
      end
  end.

(** The index of the only child that is left, or [None]. *)
Fixpoint live (i : Z) (cs : list node) : list Z :=
  match cs with
  | [] => []
  | c :: cs => if is_nil c then live (i + 1) cs else i :: live (i + 1) cs
  end.
Definition only_child (cs : list node) : option Z :=
  match live 0 cs with [pos] => Some pos | _ => None end.

Fixpoint delete (fuel : nat) (n : node) (prefix key : bytes) : tres (bool * node) :=
  match fuel with
  | O => OutOfFuel
  | S fuel =>
      match n with
      | NShort nk nv fl =>
          let matchlen := prefixLen key nk in
          if (matchlen <? length nk)%nat then Ok (false, n)
          else if (matchlen =? length key)%nat then Ok (true, NNil)
          else
            r ←? delete fuel nv (prefix ++ take (length nk) key) (drop (length nk) key);
            let '(dirty, c) := r in
            if dirty then
              match c with
              | NShort ck cv _ => Ok (true, NShort (nk ++ ck) cv newFlag)
              | _ => Ok (true, NShort nk c newFlag)
              end
            else Ok (false, n)
      | NFull cs fl =>
          match key with
          | [] => Panic
          | k0 :: krest =>
              c ←? child cs k0;
              r ←? delete fuel c (prefix ++ [k0]) krest;
              let '(dirty, nn) := r in
              if dirty then
                let cs := set_child cs k0 nn in
                match only_child cs with
                | Some pos =>
                    c ←? child cs pos;
                    if pos =? 16 then Ok (true, NShort [pos] c newFlag)
                    else
                      cnode ←? resolve c prefix;
                      match cnode with
                      | NShort ck cv _ => Ok (true, NShort (pos :: ck) cv newFlag)
                      | _ => Ok (true, NShort [pos] c newFlag)
                      end
                | None => Ok (true, NFull cs newFlag)
                end
              else Ok (false, n)
          end
      | NValue _ => Ok (true, NNil)
      | NNil => Ok (false, NNil)
      | NHash h =>
          rn ←? resolveHash h prefix;
          r ←? delete fuel rn prefix key;
          let '(dirty, nn) := r in
          if dirty then Ok (true, nn) else Ok (false, rn)
      end
  end.
End Operations.

(** Each nibble of the key is met at most twice, the second time below a hash
    node. *)
Definition key_fuel (k : bytes) : nat := 2 * length k + 2.

Definition TryGet (db : Database) (key : bytes) (t : Trie) : tres (option bytes * Trie) :=
  let k := keybytesToHex key in
  r ←? tryGet db (cachegen t) (key_fuel k) (root t) k 0;
  let '(value, newroot, didResolve) := r in
  Ok (value, if didResolve then mkTrie newroot (cachegen t) (cachelimit t) else t).
Definition set_root (n : node) (t : Trie) : Trie := mkTrie n (cachegen t) (cachelimit t).
Definition TryDelete (db : Database) (key : bytes) (t : Trie) : tres Trie :=
  let k := keybytesToHex key in
  r ←? delete db (cachegen t) (key_fuel k) (root t) [] k;
  Ok (set_root r.2 t).
Definition TryUpdate (db : Database) (key value : bytes) (t : Trie) : tres Trie :=
  let k := keybytesToHex key in
  if zlen value =? 0 then
    r ←? delete db (cachegen t) (key_fuel k) (root t) [] k; Ok (set_root r.2 t)
  else
    r ←? insert db (cachegen t) (key_fuel k) (root t) [] k (NValue value); Ok (set_root r.2 t).
(** [New], with the cache limit that [SetCacheLimit] gives. *)
Definition New (db : Database) (r : Z) (limit : Z) : tres Trie :=
  if (r =? 0) || (r =? emptyRoot) then Ok (mkTrie NNil 0 limit)
  else n ←? resolveHash db 0 (hash_bytes r) []; Ok (mkTrie n 0 limit).

(** ** hasher.go *)

Section Hasher.
Context {CRY : Crypto}.
Variables (cg limit : Z).

(** [store]: the node, or the hash that stands for it. *)
Definition store (n : node) (db : option Database) (force : bool) : tres (node * option Database) :=
  match n with
  | NHash _ | NNil => Ok (n, db)
  | _ =>
      match EncodeToBytes (node_val n) with
      | Ok b =>
          if (zlen b <? 32) && negb force then Ok (n, db)
          else
            let h := match (cache n).1 with Some h => h | None => Keccak256 b end in
            Ok (NHash h, option_map (db_insert (BytesToHash h) (CNode (simplifyNode n))) db)
      | _ => Panic
      end
  end.
Definition set_hash (n hashed : node) (clean : bool) : node :=
  let h := match hashed with NHash h => Some h | _ => None end in
  let f f0 := mkFlag h (gen f0) (if clean then false else dirty f0) in
  match n with
  | NShort k v f0 => NShort k v (f f0)
  | NFull cs f0 => NFull cs (f f0)
  | _ => n
  end.

(** [hashChildren], on the hashing of a child: the collapsed node, the node
    with its children cached, and the database. *)
Section HashChildren.
Variable hash_child : node → option Database → tres (node * node * option Database).
Fixpoint hashBranch (i : nat) (cs : list node) (db : option Database) : tres (list node * list node * option Database) :=
  match cs with
  | [] => Ok ([], [], db)
  | c :: cs =>
      r ←? (match c with
            | NNil => Ok (c, c, db)
            | _ => if (i <? 16)%nat then hash_child c db else Ok (c, c, db)
            end);
      let '(hc, cc, db) := r in
      r ←? hashBranch (S i) cs db;
      let '(hcs, ccs, db) := r in
      Ok (hc :: hcs, cc :: ccs, db)
  end.
Definition hashChildren (n : node) (db : option Database) : tres (node * node * option Database) :=
  match n with
  | NShort k v f =>
      match v with
      | NValue _ => Ok (NShort (hexToCompact k) v f, n, db)
      | _ => r ←? hash_child v db;
             let '(hv, cv, db) := r in
             Ok (NShort (hexToCompact k) hv f, NShort k cv f, db)
      end
  | NFull cs f =>
      r ←? hashBranch 0%nat cs db;
      let '(hcs, ccs, db) := r in
      Ok (NFull hcs f, NFull ccs f, db)
  | _ => Ok (n, n, db)
  end.
End HashChildren.

(** The hash of a node, or the node if it is short, the node with the hash
    cached, and the database. *)
Fixpoint hash (n : node) (db : option Database) (force : bool) : tres (node * node * option Database) :=
  let walk :=
    ch ←? hashChildren (λ c db, hash c db false) n db;
    let '(collapsed, cached, db) := ch in
    s ←? store collapsed db force;
    let '(hashed, db) := s in
    Ok (hashed, set_hash cached hashed (match db with Some _ => true | None => false end), db) in
  match n with
  | NNil => Panic  (* cache() of a nil interface *)
  | _ =>
      match cache n with
      | (Some h, dirty) =>
          match db with
          | None => Ok (NHash h, n, db)
          | Some _ =>
              if canUnload n cg limit then Ok (NHash h, NHash h, db)
              else if negb dirty then Ok (NHash h, n, db)
              else walk
          end
      | (None, _) => walk
      end
  end.
End Hasher.

Section Roots.
Context {CRY : Crypto}.

Definition hashRoot (t : Trie) (db : option Database) : tres (node * node * option Database) :=
  match root t with
  | NNil => Ok (NHash (hash_bytes emptyRoot), NNil, db)
  | n => hash (cachegen t) (cachelimit t) n db true
  end.
(** [Hash]: the hash, and the trie with it cached. *)
Definition Hash (t : Trie) : tres (Z * Trie) :=
  r ←? hashRoot t None;
  let '(h, cached, _) := r in
  match h with
  | NHash h => Ok (BytesToHash h, set_root cached t)
  | _ => Panic
  end.
Definition Commit (db : Database) (t : Trie) : tres (Z * Trie * Database) :=
  r ←? hashRoot t (Some db);
  let '(h, cached, db) := r in
  match h, db with
  | NHash h, Some db => Ok (BytesToHash h, mkTrie cached (u16 (cachegen t + 1)) (cachelimit t), db)
  | _, _ => Panic
  end.
End Roots.
