(* ===== verification/Receipt.v ===== *)
(** * Logs, blooms, receipts and the roots of lists

    [core/types/bloom9.go], [log.go], [receipt.go] and [derive_sha.go].  JSON,
    the text form of a bloom and the estimates of sizes are left out. *)

From S2P Require Import Prelude BigMath Rlp RlpStream Interfaces TrieEncoding Trie Transaction.

Section Bloom.
Context {CRY : Crypto}.

(** ** bloom9.go *)

Definition BloomByteLength : Z := 256.
(** [Bloom.SetBytes] into a fresh bloom; [None]: it panics. *)
Definition BytesToBloom (d : bytes) : option bytes :=
  if BloomByteLength <? zlen d then None else Some (replicate (256 - length d) 0 ++ d).
Definition Bloom_Big (b : bytes) : Z := Big.SetBytes b.
Definition bloom_bit (h : bytes) (i : nat) : Z := Z.land (nth (i + 1) h 0 + Z.shiftl (nth i h 0) 8) 2047.
Definition bloom9 (b : bytes) : Z :=
  let h := Keccak256 b in
  fold_left (λ r i, Z.lor r (Z.shiftl 1 (bloom_bit h i))) [0; 2; 4]%nat 0.
Definition LogsBloom (logs : list Log) : Z :=
  fold_left (λ bin log,
    fold_left (λ bin b, Z.lor bin (bloom9 (hash_bytes b))) (l_Topics log) (Z.lor bin (bloom9 (addr_bytes (l_Address log)))))
    logs 0.
(** [b.SetBytes] overwrites the end of the bloom only. *)
Definition Bloom_SetBytes (d b : bytes) : option bytes :=
  if zlen b <? zlen d then None else Some (take (length b - length d) b ++ d).
Definition Bloom_Add (d : Z) (b : bytes) : option bytes :=
  Bloom_SetBytes (Big.Bytes (Z.lor (Bloom_Big b) (bloom9 (Big.Bytes d)))) b.
Definition BloomLookup (bin topic : bytes) : bool :=
  let cmp := bloom9 topic in Z.land (Bloom_Big bin) cmp =? cmp.
Definition Bloom_Test (b : bytes) (test : Z) : bool := BloomLookup b (Big.Bytes test).
Definition Bloom_TestBytes (b test : bytes) : bool := Bloom_Test b (Big.SetBytes test).

(** ** receipt.go, log.go *)

Record Receipt := mkReceipt {
  PostState : bytes;
  Status : Z;  (* uint64 *)
  CumulativeGasUsed : Z;  (* uint64 *)
  Bloom : bytes;
  Logs : list Log;
  rc_TxHash : Z;
  ContractAddress : Z;
  GasUsed : Z;  (* uint64 *)
}.
Definition ReceiptStatusFailed : Z := 0.
Definition ReceiptStatusSuccessful : Z := 1.
Definition zero_bloom : bytes := replicate 256 0.
Definition NewReceipt (root : bytes) (failed : bool) (cumulativeGasUsed : Z) : Receipt :=
  mkReceipt root (if failed then ReceiptStatusFailed else ReceiptStatusSuccessful) cumulativeGasUsed zero_bloom [] 0 0 0.
Definition CreateBloom (receipts : list Receipt) : option bytes :=
  BytesToBloom (Big.Bytes (fold_left (λ bin r, Z.lor bin (LogsBloom (Logs r))) receipts 0)).

Definition receiptStatusFailedRLP : bytes := [].
Definition receiptStatusSuccessfulRLP : bytes := [1].
Definition statusEncoding (r : Receipt) : bytes :=
  match PostState r with
  | [] => if Status r =? ReceiptStatusFailed then receiptStatusFailedRLP else receiptStatusSuccessfulRLP
  | root => root
  end.
(** The post state and the status; [None]: an error. *)
Definition setStatus (b : bytes) (r : Receipt) : option Receipt :=
  let set p s := mkReceipt p s (CumulativeGasUsed r) (Bloom r) (Logs r) (rc_TxHash r) (ContractAddress r) (GasUsed r) in
  if bool_decide (b = receiptStatusSuccessfulRLP) then Some (set (PostState r) ReceiptStatusSuccessful)
  else if bool_decide (b = receiptStatusFailedRLP) then Some (set (PostState r) ReceiptStatusFailed)
  else if zlen b =? 32 then Some (set b (Status r))
  else None.

Definition rlpLog_typ : typ := TStruct [TByteArray 20; TSlice (TByteArray 32); TBytes] None.
Definition rlpStorageLog_typ : typ :=
  TStruct [TByteArray 20; TSlice (TByteArray 32); TBytes; TUint 64; TByteArray 32; TUint 64; TByteArray 32; TUint 64] None.
Definition log_gval (l : Log) : gval :=
  GList [GBytes (addr_bytes (l_Address l)); GList (map (λ t, GBytes (hash_bytes t)) (l_Topics l)); GBytes (l_Data l)].
Definition storage_log_gval (l : Log) : gval :=
  GList [GBytes (addr_bytes (l_Address l)); GList (map (λ t, GBytes (hash_bytes t)) (l_Topics l)); GBytes (l_Data l);
         GUint (l_BlockNumber l); GBytes (hash_bytes (l_TxHash l)); GUint (l_TxIndex l); GBytes (hash_bytes (l_BlockHash l)); GUint (l_Index l)].
Definition gval_hash (v : gval) : Z := match v with GBytes b => BytesToHash b | _ => 0 end.
Definition log_of (v : gval) : option Log :=
  match v with
  | GPtr (GList [GBytes a; GList ts; GBytes d]) => Some (mkLog (BytesToAddress a) (map gval_hash ts) d 0 0 0 0 0)
  | _ => None
  end.
Definition storage_log_of (v : gval) : option Log :=
  match v with
  | GPtr (GList [GBytes a; GList ts; GBytes d; GUint n; GBytes th; GUint ti; GBytes bh; GUint i]) =>
      Some (mkLog (BytesToAddress a) (map gval_hash ts) d n (BytesToHash th) ti (BytesToHash bh) i)
  | _ => None
  end.
Definition receiptRLP_typ : typ := TStruct [TBytes; TUint 64; TByteArray 256; TSlice (TPtr rlpLog_typ)] None.
Definition receipt_gval (r : Receipt) : gval :=
  GList [GBytes (statusEncoding r); GUint (CumulativeGasUsed r); GBytes (Bloom r); GList (map (λ l, GPtr (log_gval l)) (Logs r))].
Definition receipt_zero : Receipt := mkReceipt [] 0 0 zero_bloom [] 0 0 0.
Definition receipt_of (v : gval) : option Receipt :=
  match v with
  | GList [GBytes st; GUint g; GBytes b; GList ls] =>
      r ← setStatus st receipt_zero;
      ls ← mapM log_of ls;
      Some (mkReceipt (PostState r) (Status r) g b ls (rc_TxHash r) (ContractAddress r) (GasUsed r))
  | _ => None
  end.
Definition Receipt_EncodeRLP (r : Receipt) : rres bytes := EncodeValue receiptRLP_typ (receipt_gval r).
Definition Receipt_DecodeRLP (b : bytes) : option Receipt :=
  match DecodeBytes receiptRLP_typ b with SOk v _ => receipt_of v | _ => None end.

Definition receiptStorageRLP_typ : typ :=
  TStruct [TBytes; TUint 64; TByteArray 256; TByteArray 32; TByteArray 20; TSlice (TPtr rlpStorageLog_typ); TUint 64] None.
Definition receipt_storage_gval (r : Receipt) : gval :=
  GList [GBytes (statusEncoding r); GUint (CumulativeGasUsed r); GBytes (Bloom r); GBytes (hash_bytes (rc_TxHash r));
         GBytes (addr_bytes (ContractAddress r)); GList (map (λ l, GPtr (storage_log_gval l)) (Logs r)); GUint (GasUsed r)].
Definition receipt_storage_of (v : gval) : option Receipt :=
  match v with
  | GList [GBytes st; GUint g; GBytes b; GBytes th; GBytes ca; GList ls; GUint u] =>
      r ← setStatus st receipt_zero;
      ls ← mapM storage_log_of ls;
      Some (mkReceipt (PostState r) (Status r) g b ls (BytesToHash th) (BytesToAddress ca) u)
  | _ => None
  end.
Definition ReceiptForStorage_EncodeRLP (r : Receipt) : rres bytes := EncodeValue receiptStorageRLP_typ (receipt_storage_gval r).
Definition ReceiptForStorage_DecodeRLP (b : bytes) : option Receipt :=
  match DecodeBytes receiptStorageRLP_typ b with SOk v _ => receipt_storage_of v | _ => None end.

(** [GetRlp], of a receipt of the list; an error panics. *)
Definition GetRlp_receipt (r : Receipt) : rres bytes := Receipt_EncodeRLP r.

(** ** derive_sha.go *)

(** A zero trie has no database; nothing of it is ever unloaded. *)
Definition no_db : Database := NewDatabase (λ _, None).
Definition zero_trie : Trie := mkTrie NNil 0 0.
(** The encodings of the items from index [i] on. *)
Fixpoint derive_loop (i : Z) (list : list bytes) (T : Trie) : tres Trie :=
  match list with
  | [] => Ok T
  | item :: list =>
      k ←? of_rlp (EncodeToBytes (VUint i));
      match TryUpdate no_db k item T with
      | Ok T => derive_loop (i + 1) list T
      | Err _ => derive_loop (i + 1) list T
      | Panic => Panic
      | OutOfFuel => OutOfFuel
      end
  end.
Definition DeriveSha (list : list bytes) : tres Z :=
  T ←? derive_loop 0 list zero_trie;
  r ←? Hash T;
  Ok r.1.
End Bloom.
