(* ===== verification/Block.v ===== *)
(** * Blocks

    [core/types/block.go] besides the header: blocks, their encoding, and the
    assembly of a block from its parts.  Caches of the hash and the size,
    sorting by a given order and the format of databases before eth/63 are
    left out. *)

From S2P Require Import Prelude BigMath Rlp RlpStream Interfaces TrieEncoding Trie Header Transaction Receipt.

Record Block := mkBlock { b_header : Header; b_uncles : list Header; b_transactions : list Transaction }.

(** ** Encoding *)

Definition header_typ : typ :=
  TStruct [TByteArray 32; TByteArray 32; TByteArray 20; TByteArray 32; TByteArray 32; TByteArray 32; TByteArray 256;
           TBig; TBig; TUint 64; TUint 64; TBig; TBytes; TByteArray 32; TByteArray 8] None.
Definition header_gval (h : Header) : gval :=
  GList [GBytes (hash_bytes (h_ParentHash h)); GBytes (hash_bytes (h_UncleHash h)); GBytes (addr_bytes (h_Coinbase h));
         GBytes (hash_bytes (h_Root h)); GBytes (hash_bytes (h_TxHash h)); GBytes (hash_bytes (h_ReceiptHash h));
         GBytes (h_Bloom h); GBig (h_Difficulty h); GBig (h_Number h); GUint (h_GasLimit h); GUint (h_GasUsed h);
         GBig (h_Time h); GBytes (h_Extra h); GBytes (hash_bytes (h_MixDigest h)); GBytes (h_Nonce h)].
Definition header_of (v : gval) : option Header :=
  match v with
  | GList [GBytes p; GBytes u; GBytes c; GBytes r; GBytes t; GBytes rc; GBytes bl; GBig d; GBig n; GUint gl; GUint gu; GBig ti;
           GBytes ex; GBytes mx; GBytes no] =>
      Some (mkHeader (BytesToHash p) (BytesToHash u) (BytesToAddress c) (BytesToHash r) (BytesToHash t) (BytesToHash rc) bl d n gl gu ti
              ex (BytesToHash mx) no)
  | _ => None
  end.
(** [extblock]: transactions encode as their data. *)
Definition extblock_typ : typ := TStruct [TPtr header_typ; TSlice (TPtr txdata_typ); TSlice (TPtr header_typ)] None.
Definition block_gval (b : Block) : gval :=
  GList [GPtr (header_gval (b_header b)); GList (map (λ tx, GPtr (txdata_gval (tx_data tx))) (b_transactions b));
         GList (map (λ h, GPtr (header_gval h)) (b_uncles b))].
Definition of_ptr {A} (f : gval → option A) (v : gval) : option A := match v with GPtr v => f v | _ => None end.
Definition block_of (v : gval) : option Block :=
  match v with
  | GList [h; GList txs; GList us] =>
      h ← of_ptr header_of h;
      txs ← mapM (of_ptr txdata_of) txs;
      us ← mapM (of_ptr header_of) us;
      Some (mkBlock h us (map (λ d, mkTransaction d None) txs))
  | _ => None
  end.
Definition Block_EncodeRLP (b : Block) : rres bytes := EncodeValue extblock_typ (block_gval b).
Definition Block_DecodeRLP (b : bytes) : option Block :=
  match DecodeBytes extblock_typ b with SOk v _ => block_of v | _ => None end.

(** ** Assembly *)

Section Blocks.
Context {CRY : Crypto}.

Definition EmptyRootHash : tres Z := DeriveSha [].
Definition EmptyUncleHash : Z := CalcUncleHash [].

Definition set_roots (tx receipt uncle : Z) (bloom : bytes) (h : Header) : Header :=
  mkHeader (h_ParentHash h) uncle (h_Coinbase h) (h_Root h) tx receipt bloom (h_Difficulty h) (h_Number h)
    (h_GasLimit h) (h_GasUsed h) (h_Time h) (h_Extra h) (h_MixDigest h) (h_Nonce h).
(** [DeriveSha] of receipts: an encoding error panics. *)
Fixpoint receipt_rlps (receipts : list Receipt) : tres (list bytes) :=
  match receipts with
  | [] => Ok []
  | r :: receipts =>
      match GetRlp_receipt r with
      | Ok b => bs ←? receipt_rlps receipts; Ok (b :: bs)
      | _ => Panic
      end
  end.
Definition ReceiptsSha (receipts : list Receipt) : tres Z := bs ←? receipt_rlps receipts; DeriveSha bs.
Definition TransactionsSha (txs : list Transaction) : tres Z := DeriveSha (map GetRlp_tx txs).
Definition NewBlock (header : Header) (txs : list Transaction) (uncles : list Header) (receipts : list Receipt) : tres Block :=
  txHash ←? (match txs with [] => EmptyRootHash | _ => TransactionsSha txs end);
  rb ←? (match receipts with
         | [] => e ←? EmptyRootHash; Ok (e, h_Bloom header)
         | _ =>
             s ←? ReceiptsSha receipts;
             match CreateBloom receipts with Some b => Ok (s, b) | None => Panic end
         end);
  let '(receiptHash, bloom) := rb in
  let uncleHash := match uncles with [] => EmptyUncleHash | _ => CalcUncleHash uncles end in
  Ok (mkBlock (set_roots txHash receiptHash uncleHash bloom header) uncles txs).
Definition NewBlockWithHeader (header : Header) : Block := mkBlock header [] [].
Definition WithSeal (header : Header) (b : Block) : Block := mkBlock header (b_uncles b) (b_transactions b).
Definition WithBody (transactions : list Transaction) (uncles : list Header) (b : Block) : Block :=
  mkBlock (b_header b) uncles transactions.
Definition Block_Hash (b : Block) : Z := Header_Hash (b_header b).
Context {PCR : Precompiles.PrecompileCrypto}.
Definition Block_Transaction (hash : Z) (b : Block) : option Transaction :=
  list_find (λ tx, Transaction_Hash tx = hash) (b_transactions b) ≫= λ p, Some p.2.
End Blocks.
