(* ===== verification/TxPool.v ===== *)
(** * The transaction pool

    [core/tx_list.go], [core/tx_pool.go] and [core/state/managed_state.go]:
    for every account its executable transactions and those that wait, the
    index of all by hash and the heap of their prices.  The head state is what
    its readers see of it; the clock is an argument.  The sender that a
    transaction caches, the journal on disk, the lock, the metrics and the
    events sent to subscribers have no counterpart. *)

From stdpp Require Import sorting.
From S2P Require Import Prelude BigMath Params Memory Rlp Interfaces Heap Precompiles Header StateTransition Transaction Block.

(** The order in which a map is iterated: any. *)
Class MapRange := {
  range {A} : gmap Z A → list (Z * A);
  range_perm {A} (m : gmap Z A) : range m ≡ₚ map_to_list m;
}.
Definition Nonce (tx : Transaction) : Z := AccountNonce (tx_data tx).
Definition GasPrice (tx : Transaction) : Z := Price (tx_data tx).
Definition Gas (tx : Transaction) : Z := TxGasLimit (tx_data tx).

(** ** core/tx_list.go: transactions by nonce *)

Definition nonce_lt (a b : Z) : bool := a <? b.
Record txSortedMap := mkSortedMap { sm_items : gmap Z Transaction; sm_index : list Z; sm_cache : option (list Transaction) }.
Definition newTxSortedMap : txSortedMap := mkSortedMap ∅ [] None.
Definition sm_Get (nonce : Z) (m : txSortedMap) : option Transaction := sm_items m !! nonce.
Definition sm_Put (tx : Transaction) (m : txSortedMap) : txSortedMap :=
  let index := match sm_items m !! Nonce tx with None => Heap.Push nonce_lt (Nonce tx) (sm_index m) | Some _ => sm_index m end in
  mkSortedMap (<[Nonce tx := tx]> (sm_items m)) index None.
(** The results of the operations that read the items under the nonces of the
    index, and cut the cache: [None] if one is missing, or if the cache is too
    short, which panics there or in the callers. *)
Fixpoint forward_loop (fuel : nat) (threshold : Z) (items : gmap Z Transaction) (index : list Z) :
    option (list Transaction * gmap Z Transaction * list Z) :=
  match fuel, index with
  | S fuel, n :: _ =>
      if n <? threshold then
        match Heap.Pop nonce_lt index with
        | (Some nonce, index) =>
            tx ← items !! nonce;
            '(removed, items, index) ← forward_loop fuel threshold (base.delete nonce items) index;
            Some (tx :: removed, items, index)
        | (None, _) => None
        end
      else Some ([], items, index)
  | _, _ => Some ([], items, index)
  end.
Definition sm_Forward (threshold : Z) (m : txSortedMap) : option (list Transaction * txSortedMap) :=
  '(removed, items, index) ← forward_loop (length (sm_index m)) threshold (sm_items m) (sm_index m);
  cache ← match sm_cache m with
          | Some c => if (length c <? length removed)%nat then None else Some (Some (drop (length removed) c))
          | None => Some None
          end;
  Some (removed, mkSortedMap items index cache).
Definition map_without (removed : list (Z * Transaction)) (items : gmap Z Transaction) : gmap Z Transaction :=
  foldr (λ r, base.delete r.1) items removed.
Section Filter.
Context {RG : MapRange}.
Definition sm_Filter (f : Transaction → bool) (m : txSortedMap) : list Transaction * txSortedMap :=
  let removed := filter (λ r : Z * Transaction, f r.2 = true) (range (sm_items m)) in
  if bool_decide (removed = []) then ([], m)
  else
    let items := map_without removed (sm_items m) in
    (removed.*2, mkSortedMap items (Heap.Init nonce_lt (range items).*1) None).
Fixpoint cap_loop (size : nat) (threshold : Z) (items : gmap Z Transaction) (index : list Z) : option (list Transaction * gmap Z Transaction) :=
  if Z.of_nat size <=? threshold then Some ([], items)
  else
    match size with
    | O => None
    | S i =>
        nonce ← index !! i;
        tx ← items !! nonce;
        '(drops, items) ← cap_loop i threshold (base.delete nonce items) index;
        Some (tx :: drops, items)
    end.
Definition sm_Cap (threshold : Z) (m : txSortedMap) : option (list Transaction * txSortedMap) :=
  if Z.of_nat (base.size (sm_items m)) <=? threshold then Some ([], m)
  else
    let index := merge_sort Z.le (sm_index m) in
    '(drops, items) ← cap_loop (base.size (sm_items m)) threshold (sm_items m) index;
    cache ← match sm_cache m with
            | Some c => if (length c <? length drops)%nat then None else Some (Some (take (length c - length drops) c))
            | None => Some None
            end;
    Some (drops, mkSortedMap items (Heap.Init nonce_lt (take (Z.to_nat threshold) index)) cache).
Definition sm_Remove (nonce : Z) (m : txSortedMap) : bool * txSortedMap :=
  match sm_items m !! nonce with
  | None => (false, m)
  | Some _ =>
      let index := match list_find (λ n, n = nonce) (sm_index m) with
                   | Some (i, _) => (Heap.Remove nonce_lt i (sm_index m)).2
                   | None => sm_index m
                   end in
      (true, mkSortedMap (base.delete nonce (sm_items m)) index None)
  end.
Fixpoint ready_loop (fuel : nat) (next : Z) (items : gmap Z Transaction) (index : list Z) :
    option (list Transaction * gmap Z Transaction * list Z) :=
  match fuel, index with
  | S fuel, n :: _ =>
      if n =? next then
        tx ← items !! next;
        '(ready, items, index) ← ready_loop fuel (u64 (next + 1)) (base.delete next items) (Heap.Pop nonce_lt index).2;
        Some (tx :: ready, items, index)
      else Some ([], items, index)
  | _, _ => Some ([], items, index)
  end.
Definition sm_Ready (start : Z) (m : txSortedMap) : option (list Transaction * txSortedMap) :=
  match sm_index m with
  | [] => Some ([], m)
  | n :: _ =>
      if start <? n then Some ([], m)
      else
        '(ready, items, index) ← ready_loop (length (sm_index m)) n (sm_items m) (sm_index m);
        Some (ready, mkSortedMap items index None)
  end.
Definition sm_Len (m : txSortedMap) : Z := Z.of_nat (base.size (sm_items m)).
Definition by_nonce (a b : Transaction) : Prop := Nonce a ≤ Nonce b.
#[export] Instance by_nonce_dec a b : Decision (by_nonce a b).
Proof. unfold by_nonce. apply _. Defined.
Definition sm_Flatten (m : txSortedMap) : list Transaction * txSortedMap :=
  match sm_cache m with
  | Some c => (c, m)
  | None => let c := merge_sort by_nonce (range (sm_items m)).*2 in (c, mkSortedMap (sm_items m) (sm_index m) (Some c))
  end.

(** ** The transactions of an account *)

Record txList := mkTxList { strict : bool; txs : txSortedMap; costcap : Z; gascap : Z }.
Definition newTxList (strict : bool) : txList := mkTxList strict newTxSortedMap 0 0.
Definition set_txs (m : txSortedMap) (l : txList) : txList := mkTxList (strict l) m (costcap l) (gascap l).
Definition Overlaps (tx : Transaction) (l : txList) : bool := bool_decide (is_Some (sm_Get (Nonce tx) (txs l))).
(** Whether the new transaction pays too little to replace the old one. *)
Definition keeps_old (priceBump : Z) (old tx : Transaction) : bool :=
  let threshold := (GasPrice old * int_of_u64 (u64 (100 + int_of_u64 priceBump))) / 100 in
  (GasPrice tx <=? GasPrice old) || (GasPrice tx <? threshold).
Definition list_Add (tx : Transaction) (priceBump : Z) (l : txList) : (bool * option Transaction) * txList :=
  let old := sm_Get (Nonce tx) (txs l) in
  if match old with Some old => keeps_old priceBump old tx | None => false end then ((false, None), l)
  else
    ((true, old),
     mkTxList (strict l) (sm_Put tx (txs l)) (if costcap l <? Cost tx then Cost tx else costcap l) (if gascap l <? Gas tx then Gas tx else gascap l)).
Definition list_Forward (threshold : Z) (l : txList) : option (list Transaction * txList) :=
  '(removed, m) ← sm_Forward threshold (txs l); Some (removed, set_txs m l).
Definition list_Filter (costLimit gasLimit : Z) (l : txList) : (list Transaction * list Transaction) * txList :=
  if (costcap l <=? costLimit) && (gascap l <=? gasLimit) then (([], []), l)
  else
    let '(removed, m) := sm_Filter (λ tx, (costLimit <? Cost tx) || (gasLimit <? Gas tx)) (txs l) in
    let '(invalids, m) :=
      if strict l && negb (bool_decide (removed = [])) then
        let lowest := foldl (λ lowest tx, if Nonce tx <? lowest then Nonce tx else lowest) (2 ^ 64 - 1) removed in
        sm_Filter (λ tx, lowest <? Nonce tx) m
      else ([], m) in
    ((removed, invalids), mkTxList (strict l) m costLimit gasLimit).
Definition list_Cap (threshold : Z) (l : txList) : option (list Transaction * txList) :=
  '(drops, m) ← sm_Cap threshold (txs l); Some (drops, set_txs m l).
Definition list_Remove (tx : Transaction) (l : txList) : (bool * list Transaction) * txList :=
  let nonce := Nonce tx in
  let '(removed, m) := sm_Remove nonce (txs l) in
  if negb removed then ((false, []), l)
  else if strict l then let '(invalids, m) := sm_Filter (λ tx, nonce <? Nonce tx) m in ((true, invalids), set_txs m l)
  else ((true, []), set_txs m l).
Definition list_Ready (start : Z) (l : txList) : option (list Transaction * txList) :=
  '(ready, m) ← sm_Ready start (txs l); Some (ready, set_txs m l).
Definition list_Len (l : txList) : Z := sm_Len (txs l).
Definition list_Empty (l : txList) : bool := list_Len l =? 0.
Definition list_Flatten (l : txList) : list Transaction * txList := let '(c, m) := sm_Flatten (txs l) in (c, set_txs m l).
End Filter.

(** ** core/tx_list.go: transactions by price *)

(** The cheaper, and of one price the one of the higher nonce, comes first. *)
Definition price_lt (a b : Transaction) : bool :=
  if GasPrice a <? GasPrice b then true else if GasPrice b <? GasPrice a then false else Nonce b <? Nonce a.
Record txPricedList := mkPriced { pr_items : list Transaction; pr_stales : Z }.
Definition newTxPricedList : txPricedList := mkPriced [] 0.

Section Pool.
Context {CRY : Crypto} {PCR : PrecompileCrypto} {RG : MapRange}.

Definition containsTx (signer : Signer) (locals : gset Z) (tx : Transaction) : bool :=
  match (Sender signer tx).1 with Ok addr => bool_decide (addr ∈ locals) | _ => false end.
(** The list has a pointer to the index of all transactions. *)
Definition priced_Put (tx : Transaction) (l : txPricedList) : txPricedList := mkPriced (Heap.Push price_lt tx (pr_items l)) (pr_stales l).
Definition priced_Removed (all : gmap Z Transaction) (l : txPricedList) : txPricedList :=
  let stales := pr_stales l + 1 in
  if stales <=? zlen (pr_items l) / 4 then mkPriced (pr_items l) stales
  else mkPriced (Heap.Init price_lt (range all).*2) 0.
Definition known (all : gmap Z Transaction) (tx : Transaction) : bool := bool_decide (is_Some (all !! Transaction_Hash tx)).
Definition push_all (save : list Transaction) (l : txPricedList) : txPricedList := foldl (λ l tx, priced_Put tx l) l save.
(** The transactions that are popped off and dropped, and those saved, in order. *)
Fixpoint priced_cap_loop (fuel : nat) (threshold : Z) (local : Transaction → bool) (all : gmap Z Transaction) (drop save : list Transaction) (l : txPricedList) :
    list Transaction * list Transaction * txPricedList :=
  match fuel, Heap.Pop price_lt (pr_items l) with
  | S fuel, (Some tx, items) =>
      if negb (known all tx) then priced_cap_loop fuel threshold local all drop save (mkPriced items (pr_stales l - 1))
      else if threshold <=? GasPrice tx then (drop, save ++ [tx], mkPriced items (pr_stales l))
      else if local tx then priced_cap_loop fuel threshold local all drop (save ++ [tx]) (mkPriced items (pr_stales l))
      else priced_cap_loop fuel threshold local all (drop ++ [tx]) save (mkPriced items (pr_stales l))
  | _, _ => (drop, save, l)
  end.
Definition priced_Cap (threshold : Z) (local : Transaction → bool) (all : gmap Z Transaction) (l : txPricedList) : list Transaction * txPricedList :=
  let '(drop, save, l) := priced_cap_loop (length (pr_items l)) threshold local all [] [] l in (drop, push_all save l).
Fixpoint drop_stales (fuel : nat) (all : gmap Z Transaction) (l : txPricedList) : txPricedList :=
  match fuel, pr_items l with
  | S fuel, head :: _ =>
      if known all head then l else drop_stales fuel all (mkPriced (Heap.Pop price_lt (pr_items l)).2 (pr_stales l - 1))
  | _, _ => l
  end.
Definition priced_Underpriced (tx : Transaction) (local : Transaction → bool) (all : gmap Z Transaction) (l : txPricedList) : bool * txPricedList :=
  if local tx then (false, l)
  else
    let l := drop_stales (length (pr_items l)) all l in
    match pr_items l with
    | [] => (false, l)
    | cheapest :: _ => (GasPrice tx <=? GasPrice cheapest, l)
    end.
Fixpoint discard_loop (fuel : nat) (count : Z) (local : Transaction → bool) (all : gmap Z Transaction) (drop save : list Transaction) (l : txPricedList) :
    list Transaction * list Transaction * txPricedList :=
  if count <=? 0 then (drop, save, l)
  else
    match fuel, Heap.Pop price_lt (pr_items l) with
    | S fuel, (Some tx, items) =>
        if negb (known all tx) then discard_loop fuel count local all drop save (mkPriced items (pr_stales l - 1))
        else if local tx then discard_loop fuel count local all drop (save ++ [tx]) (mkPriced items (pr_stales l))
        else discard_loop fuel (count - 1) local all (drop ++ [tx]) save (mkPriced items (pr_stales l))
    | _, _ => (drop, save, l)
    end.
Definition priced_Discard (count : Z) (local : Transaction → bool) (all : gmap Z Transaction) (l : txPricedList) : list Transaction * txPricedList :=
  let '(drop, save, l) := discard_loop (length (pr_items l)) count local all [] [] l in (drop, push_all save l).

(** ** core/state/managed_state.go *)

Record account := mkAccount { nstart : Z; nonces : list bool }.
(** The nonces of the copied state, those set since, and the accounts. *)
Record ManagedState := mkManaged { ms_base : Z → Z; ms_set : gmap Z Z; ms_accounts : gmap Z account }.
Definition ManageState (base : Z → Z) : ManagedState := mkManaged base ∅ ∅.
Definition ms_SetState (base : Z → Z) (ms : ManagedState) : ManagedState := mkManaged base ∅ (ms_accounts ms).
Definition ms_so_nonce (addr : Z) (ms : ManagedState) : Z := default (ms_base ms addr) (ms_set ms !! addr).
Definition put_account (addr : Z) (a : account) (ms : ManagedState) : ManagedState := mkManaged (ms_base ms) (ms_set ms) (<[addr := a]> (ms_accounts ms)).
Definition hasAccount (addr : Z) (ms : ManagedState) : bool := bool_decide (is_Some (ms_accounts ms !! addr)).
Definition newAccount (nonce : Z) : account := mkAccount nonce [].
Definition getAccount (addr : Z) (ms : ManagedState) : account * ManagedState :=
  let fresh := newAccount (ms_so_nonce addr ms) in
  match ms_accounts ms !! addr with
  | None => (fresh, put_account addr fresh ms)
  | Some a => if u64 (zlen (nonces a) + nstart a) <? ms_so_nonce addr ms then (fresh, put_account addr fresh ms) else (a, ms)
  end.
Definition ms_RemoveNonce (addr n : Z) (ms : ManagedState) : ManagedState :=
  if hasAccount addr ms then
    let '(a, ms) := getAccount addr ms in
    let k := u64 (n - nstart a) in
    if k <=? zlen (nonces a) then put_account addr (mkAccount (nstart a) (take (Z.to_nat k) (nonces a))) ms else ms
  else ms.
Definition ms_NewNonce (addr : Z) (ms : ManagedState) : Z * ManagedState :=
  let '(a, ms) := getAccount addr ms in
  match list_find (λ b, b = false) (nonces a) with
  | Some (i, _) => (u64 (nstart a + Z.of_nat i), ms)
  | None => (u64 (zlen (nonces a) + nstart a), put_account addr (mkAccount (nstart a) (nonces a ++ [true])) ms)
  end.
Definition ms_GetNonce (addr : Z) (ms : ManagedState) : Z * ManagedState :=
  if hasAccount addr ms then let '(a, ms) := getAccount addr ms in (u64 (zlen (nonces a) + nstart a), ms)
  else (ms_so_nonce addr ms, ms).
Definition ms_SetNonce (addr nonce : Z) (ms : ManagedState) : ManagedState :=
  put_account addr (newAccount nonce) (mkManaged (ms_base ms) (<[addr := nonce]> (ms_set ms)) (ms_accounts ms)).

(** ** core/tx_pool.go *)

Inductive poolerror :=
| ErrInvalidSender | ErrNonceTooLow | ErrUnderpriced | ErrReplaceUnderpriced | ErrInsufficientFunds | ErrIntrinsicGas | ErrGasLimit
| ErrNegativeValue | ErrOversizedData | errKnown (hash : Z) | ErrIntrinsicOverflow.
Record TxPoolConfig := mkPoolConfig {
  Locals : list Z; NoLocals : bool; PriceLimit : Z; PriceBump : Z;
  AccountSlots : Z; GlobalSlots : Z; AccountQueue : Z; GlobalQueue : Z;  (* uint64 *)
  Lifetime : Z;  (* nanoseconds *)
}.
Definition sanitize (c : TxPoolConfig) : TxPoolConfig :=
  mkPoolConfig (Locals c) (NoLocals c) (if PriceLimit c <? 1 then 1 else PriceLimit c) (if PriceBump c <? 1 then 10 else PriceBump c)
    (AccountSlots c) (GlobalSlots c) (AccountQueue c) (GlobalQueue c) (Lifetime c).
(** The state at the head, as it is read. *)
Record head_state := mkHeadState { hs_nonce : Z → Z; hs_balance : Z → Z }.
Record TxPool := mkTxPool {
  tp_config : TxPoolConfig;
  tp_signer : Signer;
  tp_gasPrice : Z;
  tp_currentState : head_state;
  tp_pendingState : ManagedState;
  tp_currentMaxGas : Z;
  tp_locals : gset Z;
  tp_pending : gmap Z txList;
  tp_queue : gmap Z txList;
  tp_beats : gmap Z Z;
  tp_all : gmap Z Transaction;
  tp_priced : txPricedList;
  tp_homestead : bool;
}.
(** What a result of the pool is without: a panic. *)
Definition PM (A : Type) : Type := TxPool → option (A * TxPool).
#[export] Instance pm_ret : MRet PM := λ A a p, Some (a, p).
#[export] Instance pm_bind : MBind PM := λ A B f m p, '(a, p) ← m p; f a p.
Definition pm_get {A} (f : TxPool → A) : PM A := λ p, Some (f p, p).
Definition pm_panic {A} : PM A := λ _, None.
Definition pm_each {A} (f : A → PM unit) : list A → PM unit :=
  fix go l := match l with [] => mret tt | x :: l => _ ← f x; go l end.
Definition set_gasPrice (x : Z) (p : TxPool) : TxPool :=
  mkTxPool (tp_config p) (tp_signer p) x (tp_currentState p) (tp_pendingState p) (tp_currentMaxGas p) (tp_locals p) (tp_pending p) (tp_queue p) (tp_beats p) (tp_all p) (tp_priced p) (tp_homestead p).
Definition set_pendingState (x : ManagedState) (p : TxPool) : TxPool :=
  mkTxPool (tp_config p) (tp_signer p) (tp_gasPrice p) (tp_currentState p) x (tp_currentMaxGas p) (tp_locals p) (tp_pending p) (tp_queue p) (tp_beats p) (tp_all p) (tp_priced p) (tp_homestead p).
Definition set_locals (x : gset Z) (p : TxPool) : TxPool :=
  mkTxPool (tp_config p) (tp_signer p) (tp_gasPrice p) (tp_currentState p) (tp_pendingState p) (tp_currentMaxGas p) x (tp_pending p) (tp_queue p) (tp_beats p) (tp_all p) (tp_priced p) (tp_homestead p).
Definition set_pending (x : gmap Z txList) (p : TxPool) : TxPool :=
  mkTxPool (tp_config p) (tp_signer p) (tp_gasPrice p) (tp_currentState p) (tp_pendingState p) (tp_currentMaxGas p) (tp_locals p) x (tp_queue p) (tp_beats p) (tp_all p) (tp_priced p) (tp_homestead p).
Definition set_queue (x : gmap Z txList) (p : TxPool) : TxPool :=
  mkTxPool (tp_config p) (tp_signer p) (tp_gasPrice p) (tp_currentState p) (tp_pendingState p) (tp_currentMaxGas p) (tp_locals p) (tp_pending p) x (tp_beats p) (tp_all p) (tp_priced p) (tp_homestead p).
Definition set_beats (x : gmap Z Z) (p : TxPool) : TxPool :=
  mkTxPool (tp_config p) (tp_signer p) (tp_gasPrice p) (tp_currentState p) (tp_pendingState p) (tp_currentMaxGas p) (tp_locals p) (tp_pending p) (tp_queue p) x (tp_all p) (tp_priced p) (tp_homestead p).
Definition set_all (x : gmap Z Transaction) (p : TxPool) : TxPool :=
  mkTxPool (tp_config p) (tp_signer p) (tp_gasPrice p) (tp_currentState p) (tp_pendingState p) (tp_currentMaxGas p) (tp_locals p) (tp_pending p) (tp_queue p) (tp_beats p) x (tp_priced p) (tp_homestead p).
Definition set_priced (x : txPricedList) (p : TxPool) : TxPool :=
  mkTxPool (tp_config p) (tp_signer p) (tp_gasPrice p) (tp_currentState p) (tp_pendingState p) (tp_currentMaxGas p) (tp_locals p) (tp_pending p) (tp_queue p) (tp_beats p) (tp_all p) x (tp_homestead p).
Definition set_homestead (x : bool) (p : TxPool) : TxPool :=
  mkTxPool (tp_config p) (tp_signer p) (tp_gasPrice p) (tp_currentState p) (tp_pendingState p) (tp_currentMaxGas p) (tp_locals p) (tp_pending p) (tp_queue p) (tp_beats p) (tp_all p) (tp_priced p) x.
Definition set_head (s : head_state) (ms : ManagedState) (g : Z) (p : TxPool) : TxPool :=
  mkTxPool (tp_config p) (tp_signer p) (tp_gasPrice p) s ms g (tp_locals p) (tp_pending p) (tp_queue p) (tp_beats p) (tp_all p) (tp_priced p) (tp_homestead p).
Definition pm_put (f : TxPool → TxPool) : PM unit := λ p, Some (tt, f p).
Definition of_nil {A} (x : option A) : PM A := λ p, match x with Some a => Some (a, p) | None => None end.

Definition local_of (p : TxPool) : Transaction → bool := containsTx (tp_signer p) (tp_locals p).
Definition sender (p : TxPool) (tx : Transaction) : Z := sender_or_zero (tp_signer p) tx.
Definition all_Add (tx : Transaction) : PM unit := pm_put (λ p, set_all (<[Transaction_Hash tx := tx]> (tp_all p)) p).
Definition all_Remove (hash : Z) : PM unit := pm_put (λ p, set_all (base.delete hash (tp_all p)) p).
Definition pool_priced_Removed : PM unit := pm_put (λ p, set_priced (priced_Removed (tp_all p) (tp_priced p)) p).
Definition pool_priced_Put (tx : Transaction) : PM unit := pm_put (λ p, set_priced (priced_Put tx (tp_priced p)) p).
(** A transaction leaves the pool, and the heap of prices hears of it. *)
Definition forget (tx : Transaction) : PM unit := _ ← all_Remove (Transaction_Hash tx); pool_priced_Removed.
Definition pending_GetNonce (addr : Z) : PM Z := λ p, let '(n, ms) := ms_GetNonce addr (tp_pendingState p) in Some (n, set_pendingState ms p).
Definition pending_SetNonce (addr nonce : Z) : PM unit := pm_put (λ p, set_pendingState (ms_SetNonce addr nonce (tp_pendingState p)) p).
Definition put_pending (addr : Z) (l : txList) : PM unit := pm_put (λ p, set_pending (<[addr := l]> (tp_pending p)) p).
Definition put_queue (addr : Z) (l : txList) : PM unit := pm_put (λ p, set_queue (<[addr := l]> (tp_queue p)) p).
(** The virtual nonce of an account falls back to that of a transaction. *)
Definition lower_nonce (addr : Z) (tx : Transaction) : PM unit :=
  n ← pending_GetNonce addr;
  if Nonce tx <? n then pending_SetNonce addr (Nonce tx) else mret tt.

Definition sigres_pool (r : sigres Z) : res poolerror Z := match r with Ok a => Ok a | _ => Err ErrInvalidSender end.
Definition refuse (b : bool) (e : poolerror) : res poolerror unit := if b then Err e else Ok tt.
Definition validateTx (tx : Transaction) (local : bool) (p : TxPool) : res poolerror unit :=
  _ ←? refuse (32 * 1024 <? zlen (GetRlp_tx tx)) ErrOversizedData;
  _ ←? refuse (Amount (tx_data tx) <? 0) ErrNegativeValue;
  _ ←? refuse (tp_currentMaxGas p <? Gas tx) ErrGasLimit;
  from ←? sigres_pool (Sender (tp_signer p) tx).1;
  let local := local || bool_decide (from ∈ tp_locals p) in
  _ ←? refuse (negb local && (GasPrice tx <? tp_gasPrice p)) ErrUnderpriced;
  _ ←? refuse (Nonce tx <? hs_nonce (tp_currentState p) from) ErrNonceTooLow;
  _ ←? refuse (hs_balance (tp_currentState p) from <? Cost tx) ErrInsufficientFunds;
  match IntrinsicGas (Payload (tx_data tx)) (bool_decide (Recipient (tx_data tx) = None)) (tp_homestead p) with
  | Ok intrGas => refuse (Gas tx <? intrGas) ErrIntrinsicGas
  | _ => Err ErrIntrinsicOverflow
  end.

(** Into the queue; the answer: whether an old transaction was replaced. *)
Definition enqueueTx (hash : Z) (tx : Transaction) : PM (res poolerror bool) := λ p,
  let from := sender p tx in
  let list := default (newTxList false) (tp_queue p !! from) in
  let '((inserted, old), list) := list_Add tx (PriceBump (tp_config p)) list in
  (_ ← put_queue from list;
   if negb inserted then mret (Err ErrReplaceUnderpriced)
   else
     _ ← match old with Some old => forget old | None => mret tt end;
     all ← pm_get tp_all;
     _ ← match all !! hash with None => _ ← all_Add tx; pool_priced_Put tx | Some _ => mret tt end;
     mret (Ok (bool_decide (is_Some old)))) p.
Definition promoteTx (now addr hash : Z) (tx : Transaction) : PM bool := λ p,
  let list := default (newTxList true) (tp_pending p !! addr) in
  let '((inserted, old), list) := list_Add tx (PriceBump (tp_config p)) list in
  (_ ← put_pending addr list;
   if negb inserted then
     _ ← all_Remove hash; _ ← pool_priced_Removed; mret false
   else
     _ ← match old with Some old => forget old | None => mret tt end;
     all ← pm_get tp_all;
     _ ← match all !! hash with None => _ ← all_Add tx; pool_priced_Put tx | Some _ => mret tt end;
     _ ← pm_put (λ p, set_beats (<[addr := now]> (tp_beats p)) p);
     _ ← pending_SetNonce addr (u64 (Nonce tx + 1));
     mret true) p.
Definition remove_queued (addr : Z) (tx : Transaction) : PM unit := λ p,
  match tp_queue p !! addr with
  | None => Some (tt, p)
  | Some future =>
      let '(_, future) := list_Remove tx future in
      Some (tt, set_queue (if list_Empty future then base.delete addr (tp_queue p) else <[addr := future]> (tp_queue p)) p)
  end.
Definition enqueue_again (tx : Transaction) : PM unit := _ ← enqueueTx (Transaction_Hash tx) tx; mret tt.
Definition removeTx (hash : Z) (outofbound : bool) : PM unit :=
  all ← pm_get tp_all;
  match all !! hash with
  | None => mret tt
  | Some tx =>
      addr ← pm_get (λ p, sender p tx);
      _ ← all_Remove hash;
      _ ← (if outofbound then pool_priced_Removed else mret tt);
      pending ← pm_get (λ p, tp_pending p !! addr);
      match (pending ← pending; match list_Remove tx pending with (true, invalids, l) => Some (invalids, l) | _ => None end) with
      | Some (invalids, l) =>
          _ ← (if list_Empty l then pm_put (λ p, set_beats (base.delete addr (tp_beats p)) (set_pending (base.delete addr (tp_pending p)) p))
               else put_pending addr l);
          _ ← pm_each enqueue_again invalids;
          lower_nonce addr tx
      | None => remove_queued addr tx
      end
  end.

(** Room is made in a full pool; [Err]: the transaction is not worth it. *)
Definition make_room (tx : Transaction) (local : bool) : PM (res poolerror unit) := λ p,
  let slots := u64 (GlobalSlots (tp_config p) + GlobalQueue (tp_config p)) in
  if Z.of_nat (base.size (tp_all p)) <? slots then Some (Ok tt, p)
  else
    let '(under, priced) := if local then (false, tp_priced p) else priced_Underpriced tx (local_of p) (tp_all p) (tp_priced p) in
    let p := set_priced priced p in
    if under : bool then Some (Err ErrUnderpriced, p)
    else
      let '(drop, priced) := priced_Discard (Z.of_nat (base.size (tp_all p)) - int_of_u64 (u64 (slots - 1))) (local_of p) (tp_all p) (tp_priced p) in
      (_ ← pm_each (λ tx, removeTx (Transaction_Hash tx) false) drop; mret (Ok tt)) (set_priced priced p).
(** The transactions of a sender that are executable, when one of them has the
    nonce of the new one. *)
Definition overlapping (tx : Transaction) (p : TxPool) : option txList :=
  l ← tp_pending p !! sender p tx; if Overlaps tx l then Some l else None.
Definition add (tx : Transaction) (local : bool) : PM (res poolerror bool) := λ p,
  let hash := Transaction_Hash tx in
  match tp_all p !! hash with
  | Some _ => Some (Err (errKnown hash), p)
  | None =>
      match validateTx tx local p with
      | Ok _ =>
          (room ← make_room tx local;
           match room with
           | Ok _ =>
               over ← pm_get (overlapping tx);
               from ← pm_get (λ p, sender p tx);
               bump ← pm_get (λ p, PriceBump (tp_config p));
               match over with
               | Some l =>
                   let '((inserted, old), l) := list_Add tx bump l in
                   _ ← put_pending from l;
                   if negb inserted then mret (Err ErrReplaceUnderpriced)
                   else
                     _ ← match old with Some old => forget old | None => mret tt end;
                     _ ← all_Add tx;
                     _ ← pool_priced_Put tx;
                     mret (Ok (bool_decide (is_Some old)))
               | None =>
                   r ← enqueueTx hash tx;
                   match r with
                   | Ok replace =>
                       _ ← (if local then pm_put (λ p, set_locals (tp_locals p ∪ {[from]}) p) else mret tt);
                       mret (Ok replace)
                   | r => mret r
                   end
               end
           | Err e => mret (Err e)
           | _ => pm_panic
           end) p
      | Err e => Some (Err e, p)
      | _ => None
      end
  end.

(** ** Promotion *)

Definition promote_account (now addr : Z) : PM unit := λ p,
  match tp_queue p !! addr with
  | None => Some (tt, p)
  | Some list =>
      (r ← of_nil (list_Forward (hs_nonce (tp_currentState p) addr) list);
       let '(olds, list) := r in
       _ ← put_queue addr list;
       _ ← pm_each forget olds;
       let '((drops, _), list) := list_Filter (hs_balance (tp_currentState p) addr) (tp_currentMaxGas p) list in
       _ ← put_queue addr list;
       _ ← pm_each forget drops;
       n ← pending_GetNonce addr;
       r ← of_nil (list_Ready n list);
       let '(ready, list) := r in
       _ ← put_queue addr list;
       _ ← pm_each (λ tx, _ ← promoteTx now addr (Transaction_Hash tx) tx; mret tt) ready;
       list ← (if bool_decide (addr ∈ tp_locals p) then mret list
               else r ← of_nil (list_Cap (int_of_u64 (AccountQueue (tp_config p))) list);
                    let '(capped, list) := r in
                    _ ← put_queue addr list;
                    _ ← pm_each forget capped; mret list);
       if list_Empty list then pm_put (λ p, set_queue (base.delete addr (tp_queue p)) p) else mret tt) p
  end.
Definition count_lists (m : gmap Z txList) : Z := foldr (λ l n, u64 (list_Len l.2 + n)) 0 (map_to_list m).
(** The last transaction of an offender goes. *)
Definition cap_one (addr : Z) : PM unit := λ p,
  match tp_pending p !! addr with
  | None => None
  | Some list =>
      (r ← of_nil (list_Cap (list_Len list - 1) list);
       let '(capped, list) := r in
       _ ← put_pending addr list;
       pm_each (λ tx, _ ← forget tx; lower_nonce addr tx) capped) p
  end.
Definition pending_len (addr : Z) : PM Z := λ p, l ← tp_pending p !! addr; Some (list_Len l, p).
(** While there are more than the global slots and [more] holds, every offender
    loses one. *)
Fixpoint cap_rounds (fuel : nat) (more : PM bool) (offenders : list Z) (pending : Z) : PM Z :=
  match fuel with
  | O => pm_panic
  | S fuel =>
      slots ← pm_get (λ p, GlobalSlots (tp_config p));
      if pending <=? slots then mret pending
      else
        go ← more;
        if go : bool then
          _ ← pm_each cap_one offenders;
          cap_rounds fuel more offenders (u64 (pending - zlen offenders))
        else mret pending
  end.
(** The offenders are levelled to [threshold]; each round takes one from [last]. *)
Definition level (threshold : Z) (offenders : list Z) (last : Z) (pending : Z) : PM Z :=
  n ← pending_len last;
  cap_rounds (S (Z.to_nat n)) (n ← pending_len last; mret (threshold <? n)) offenders pending.
(** The offenders in the order they are popped off, most transactions first;
    they are levelled to the length of the last. *)
Definition spam_lt (a b : Z * Z) : bool := b.2 <? a.2.
Fixpoint penalize (fuel : nat) (spammers : list (Z * Z)) (offenders : list Z) (pending : Z) : PM (list Z * Z) :=
  match fuel with
  | O => pm_panic
  | S fuel =>
      slots ← pm_get (λ p, GlobalSlots (tp_config p));
      if pending <=? slots then mret (offenders, pending)
      else
        match Heap.Pop spam_lt spammers with
        | (Some (offender, _), spammers) =>
            pending ← match last offenders with
                      | None => mret pending
                      | Some before => threshold ← pending_len offender; level threshold offenders before pending
                      end;
            penalize fuel spammers (offenders ++ [offender]) pending
        | (None, _) => mret (offenders, pending)
        end
  end.
Definition cap_pending : PM unit := λ p,
  let pending := count_lists (tp_pending p) in
  if pending <=? GlobalSlots (tp_config p) then Some (tt, p)
  else
    let fat := filter (λ l : Z * txList, l.1 ∉ tp_locals p ∧ AccountSlots (tp_config p) < list_Len l.2) (range (tp_pending p)) in
    let spammers := foldl (λ h l, Heap.Push spam_lt (l.1, list_Len l.2) h) [] fat in
    (r ← penalize (S (length spammers)) spammers [] pending;
     let '(offenders, pending) := r in
     match last offenders with
     | None => mret tt
     | Some final =>
         slots ← pm_get (λ p, AccountSlots (tp_config p));
         _ ← level slots offenders final pending;
         mret tt
     end) p.
(** Queues of other accounts are dropped, the one heard of last first. *)
Definition by_beat (a b : Z * Z) : Prop := a.2 ≤ b.2.
#[export] Instance by_beat_dec a b : Decision (by_beat a b).
Proof. unfold by_beat. apply _. Defined.
Fixpoint remove_last (fuel : nat) (drop : Z) (txs : list Transaction) : PM Z :=
  match fuel, last txs with
  | S fuel, Some tx =>
      if drop <=? 0 then mret drop
      else _ ← removeTx (Transaction_Hash tx) true; remove_last fuel (drop - 1) (removelast txs)
  | _, _ => mret drop
  end.
Fixpoint drop_queues (drop : Z) (addresses : list Z) : PM unit :=
  match addresses with
  | [] => mret tt
  | addr :: addresses =>
      if drop <=? 0 then mret tt
      else
        queue ← pm_get tp_queue;
        match queue !! addr with
        | None => pm_panic
        | Some list =>
            let size := list_Len list in
            let '(txs, list) := list_Flatten list in
            _ ← put_queue addr list;
            if size <=? drop then
              _ ← pm_each (λ tx, removeTx (Transaction_Hash tx) true) txs;
              drop_queues (drop - size) addresses
            else
              drop ← remove_last (length txs) drop txs;
              drop_queues drop addresses
        end
  end.
Definition cap_queue : PM unit := λ p,
  let queued := count_lists (tp_queue p) in
  if queued <=? GlobalQueue (tp_config p) then Some (tt, p)
  else
    let others := filter (λ l : Z * txList, l.1 ∉ tp_locals p) (range (tp_queue p)) in
    let addresses := merge_sort by_beat (map (λ l, (l.1, default 0 (tp_beats p !! l.1))) others) in
    drop_queues (queued - GlobalQueue (tp_config p)) (reverse addresses.*1) p.
(** [accounts]: those to look at, or all that have a queue. *)
Definition promoteExecutables (now : Z) (accounts : option (list Z)) : PM unit :=
  queue ← pm_get tp_queue;
  let accounts := match accounts with Some l => l | None => (range queue).*1 end in
  _ ← pm_each (promote_account now) accounts;
  _ ← cap_pending;
  cap_queue.

(** ** Additions *)

Definition addTx (now : Z) (tx : Transaction) (local : bool) : PM (res poolerror unit) :=
  r ← add tx local;
  match r with
  | Ok replace =>
      from ← pm_get (λ p, sender p tx);
      _ ← (if replace : bool then mret tt else promoteExecutables now (Some [from]));
      mret (Ok tt)
  | Err e => mret (Err e)
  | _ => pm_panic
  end.
(** The errors in order, and the accounts that got a transaction. *)
Fixpoint add_all (local : bool) (txs : list Transaction) (dirty : gmap Z unit) : PM (list (res poolerror unit) * gmap Z unit) :=
  match txs with
  | [] => mret ([], dirty)
  | tx :: txs =>
      r ← add tx local;
      from ← pm_get (λ p, sender p tx);
      let dirty := match r with Ok false => <[from := tt]> dirty | _ => dirty end in
      '(errs, dirty) ← add_all local txs dirty;
      mret ((_ ←? r; Ok tt) :: errs, dirty)
  end.
Definition addTxsLocked (now : Z) (txs : list Transaction) (local : bool) : PM (list (res poolerror unit)) :=
  '(errs, dirty) ← add_all local txs ∅;
  _ ← (if bool_decide (dirty = ∅) then mret tt else promoteExecutables now (Some (range dirty).*1));
  mret errs.
Definition AddLocal (now : Z) (tx : Transaction) : PM (res poolerror unit) := λ p, addTx now tx (negb (NoLocals (tp_config p))) p.
Definition AddRemote (now : Z) (tx : Transaction) : PM (res poolerror unit) := addTx now tx false.
Definition AddLocals (now : Z) (txs : list Transaction) : PM (list (res poolerror unit)) := λ p, addTxsLocked now txs (negb (NoLocals (tp_config p))) p.
Definition AddRemotes (now : Z) (txs : list Transaction) : PM (list (res poolerror unit)) := addTxsLocked now txs false.
Definition SetGasPrice (price : Z) : PM unit := λ p,
  let '(drop, priced) := priced_Cap price (local_of p) (tp_all p) (tp_priced p) in
  pm_each (λ tx, removeTx (Transaction_Hash tx) false) drop (set_priced priced (set_gasPrice price p)).

(** ** A new head *)

Definition demote_account (addr : Z) : PM unit := λ p,
  match tp_pending p !! addr with
  | None => Some (tt, p)
  | Some list =>
      let nonce := hs_nonce (tp_currentState p) addr in
      (r ← of_nil (list_Forward nonce list);
       let '(olds, list) := r in
       _ ← put_pending addr list;
       _ ← pm_each forget olds;
       let '((drops, invalids), list) := list_Filter (hs_balance (tp_currentState p) addr) (tp_currentMaxGas p) list in
       _ ← put_pending addr list;
       _ ← pm_each forget drops;
       _ ← pm_each enqueue_again invalids;
       list ← (if (0 <? list_Len list) && bool_decide (sm_Get nonce (txs list) = None) then
                 r ← of_nil (list_Cap 0 list);
                 let '(gapped, list) := r in
                 _ ← put_pending addr list;
                 _ ← pm_each enqueue_again gapped;
                 mret list
               else mret list);
       if list_Empty list then pm_put (λ p, set_beats (base.delete addr (tp_beats p)) (set_pending (base.delete addr (tp_pending p)) p)) else mret tt) p
  end.
Definition demoteUnexecutables : PM unit := pending ← pm_get tp_pending; pm_each demote_account (range pending).*1.
(** The virtual nonces follow the executable transactions. *)
Definition bump_nonce (addr : Z) : PM unit := λ p,
  match tp_pending p !! addr with
  | None => Some (tt, p)
  | Some list =>
      let '(c, list) := list_Flatten list in
      match last c with
      | None => None
      | Some tx => (_ ← put_pending addr list; pending_SetNonce addr (u64 (Nonce tx + 1))) p
      end
  end.

(** The chain: blocks by hash and number, and states by their roots. *)
Record PoolChain := mkPoolChain { pc_GetBlock : Z → Z → option Block; pc_StateAt : Z → option head_state }.
Variable chain : PoolChain.
Definition number_of (b : Block) : Z := Big.Uint64 (h_Number (b_header b)).
Definition parent_of (b : Block) : option Block := pc_GetBlock chain (h_ParentHash (b_header b)) (u64 (number_of b - 1)).
(** Back from [b] to the number [n], and the transactions on the way; [Err]:
    the chain is not rooted. *)
Fixpoint walk_back (fuel : nat) (n : Z) (b : Block) (acc : list Transaction) : res unit (Block * list Transaction) :=
  match fuel with
  | O => OutOfFuel
  | S fuel =>
      if number_of b <=? n then Ok (b, acc)
      else match parent_of b with Some b' => walk_back fuel n b' (acc ++ b_transactions b) | None => Err tt end
  end.
Fixpoint walk_both (fuel : nat) (rem add : Block) (discarded included : list Transaction) : res unit (list Transaction * list Transaction) :=
  match fuel with
  | O => OutOfFuel
  | S fuel =>
      if Block_Hash rem =? Block_Hash add then Ok (discarded, included)
      else
        match parent_of rem, parent_of add with
        | Some rem', Some add' => walk_both fuel rem' add' (discarded ++ b_transactions rem) (included ++ b_transactions add)
        | _, _ => Err tt
        end
  end.
(** The transactions to put back after a reorganisation; at an unrooted chain
    the reset is given up.  A block of a head that is not known panics. *)
Definition reinject (fuel : nat) (rem add : Block) : res unit (list Transaction) :=
  r ←? walk_back fuel (number_of add) rem [];
  let '(rem1, discarded) := r in
  r ←? walk_back fuel (number_of rem1) add [];
  let '(add1, included) := r in
  r ←? walk_both fuel rem1 add1 discarded included;
  let '(discarded, included) := r in
  Ok (TxDifference discarded included).
Definition reinjected (fuel : nat) (oldHead : option Header) (newHead : Header) : res unit (list Transaction) :=
  match oldHead with
  | Some old =>
      if Header_Hash old =? h_ParentHash newHead then Ok []
      else if 64 <? Z.abs (Big.Uint64 (h_Number old) - Big.Uint64 (h_Number newHead)) then Ok []
      else
        match pc_GetBlock chain (Header_Hash old) (Big.Uint64 (h_Number old)), pc_GetBlock chain (Header_Hash newHead) (Big.Uint64 (h_Number newHead)) with
        | Some rem, Some add => reinject fuel rem add
        | _, _ => Panic
        end
  | None => Ok []
  end.
(** Out of fuel counts as a panic: [reinjected_ok] shows how much is enough. *)
Definition reset (fuel : nat) (now : Z) (oldHead : option Header) (newHead : Header) : PM unit := λ p,
  match reinjected fuel oldHead newHead with
  | Ok txs =>
      match pc_StateAt chain (h_Root newHead) with
      | None => Some (tt, p)
      | Some st =>
          (_ ← addTxsLocked now txs false;
           _ ← demoteUnexecutables;
           pending ← pm_get tp_pending;
           _ ← pm_each bump_nonce (range pending).*1;
           promoteExecutables now None) (set_head st (ManageState (hs_nonce st)) (h_GasLimit newHead) p)
      end
  | Err _ => Some (tt, p)
  | _ => None
  end.

(** [NewTxPool], without the journal. *)
Definition NewTxPool (fuel : nat) (now : Z) (config : TxPoolConfig) (chainconfig : ChainConfig) (head : Header) : option TxPool :=
  let config := sanitize config in
  let zero := mkHeadState (λ _, 0) (λ _, 0) in
  snd <$> reset fuel now None head
    (mkTxPool config (NewEIP155Signer (ChainID chainconfig)) (PriceLimit config) zero (ManageState (λ _, 0)) 0 (list_to_set (Locals config))
       ∅ ∅ ∅ ∅ newTxPricedList false).
(** The turns of [loop] that change the pool: a new head, and the eviction of
    queues that were not heard of for long. *)
Definition on_head (fuel : nat) (now : Z) (chainconfig : ChainConfig) (old new : Header) : PM unit := λ p,
  reset fuel now (Some old) new (set_homestead (tp_homestead p || IsHomestead chainconfig (h_Number new)) p).
Definition evict_account (now addr : Z) : PM unit := λ p,
  match tp_queue p !! addr with
  | Some list =>
      if bool_decide (addr ∈ tp_locals p) then Some (tt, p)
      else if Lifetime (tp_config p) <? now - default 0 (tp_beats p !! addr) then
        let '(c, list) := list_Flatten list in
        (_ ← put_queue addr list; pm_each (λ tx, removeTx (Transaction_Hash tx) true) c) p
      else Some (tt, p)
  | None => Some (tt, p)
  end.
Definition on_evict (now : Z) : PM unit := queue ← pm_get tp_queue; pm_each (evict_account now) (range queue).*1.

(** ** Queries *)

Definition stats (p : TxPool) : Z * Z := (count_lists (tp_pending p), count_lists (tp_queue p)).
Definition Content (p : TxPool) : gmap Z (list Transaction) * gmap Z (list Transaction) :=
  ((λ l, (list_Flatten l).1) <$> tp_pending p, (λ l, (list_Flatten l).1) <$> tp_queue p).
Definition Pending (p : TxPool) : gmap Z (list Transaction) := (λ l, (list_Flatten l).1) <$> tp_pending p.
Definition pool_Get (hash : Z) (p : TxPool) : option Transaction := tp_all p !! hash.
Inductive TxStatus := TxStatusUnknown | TxStatusQueued | TxStatusPending | TxStatusIncluded.
Definition Status_of (p : TxPool) (hash : Z) : TxStatus :=
  match tp_all p !! hash with
  | None => TxStatusUnknown
  | Some tx =>
      match tp_pending p !! sender p tx with
      | Some l => if bool_decide (is_Some (sm_Get (Nonce tx) (txs l))) then TxStatusPending else TxStatusQueued
      | None => TxStatusQueued
      end
  end.
Definition Status (hashes : list Z) (p : TxPool) : list TxStatus := map (Status_of p) hashes.
Definition local (p : TxPool) : gmap Z (list Transaction) :=
  let flat (m : gmap Z txList) addr := match m !! addr with Some l => (list_Flatten l).1 | None => [] end in
  list_to_map (filter (λ l, l.2 ≠ []) (map (λ addr, (addr, flat (tp_pending p) addr ++ flat (tp_queue p) addr)) (elements (tp_locals p)))).
End Pool.
