(* ===== verification/TxPoolLaws.v ===== *)
(** * Laws of the transaction pool

    The map of an account's transactions is the list of them in the order of
    their nonces.  The pool is consistent: the index by hash holds just the
    transactions of the lists, each in one place, and the heap of prices misses
    none. *)

From stdpp Require Import sorting.
From S2P Require Import Prelude BigMath Params Memory Rlp Interfaces Heap Precompiles Header StateTransition Transaction Block TxPool.

(** ** Lists in the order of their nonces *)

Definition later (a b : Transaction) : Prop := Nonce a < Nonce b.
#[export] Instance later_antisymm : AntiSymm (=) later.
Proof. intros a b. unfold later. lia. Qed.
#[export] Instance by_nonce_total : Total by_nonce.
Proof. intros a b. unfold by_nonce. lia. Qed.
#[export] Instance by_nonce_trans : Transitive by_nonce.
Proof. intros a b c. unfold by_nonce. lia. Qed.
Record nlisted (M : gmap Z Transaction) (l : list Transaction) : Prop := {
  nl_items : ∀ n tx, M !! n = Some tx ↔ tx ∈ l ∧ Nonce tx = n;
  nl_sorted : StronglySorted later l;
}.
Lemma later_nodup l : StronglySorted later l → NoDup (Nonce <$> l).
Proof.
  induction 1 as [|tx l Hl IH Hall]; [constructor|]. rewrite fmap_cons. apply NoDup_cons. split; [|done].
  intros (tx' & E & Hin)%list_elem_of_fmap. rewrite Forall_forall in Hall. specialize (Hall _ Hin). unfold later in Hall. lia.
Qed.
Lemma later_inj l a b : StronglySorted later l → a ∈ l → b ∈ l → Nonce a = Nonce b → a = b.
Proof.
  induction 1 as [|tx l Hl IH Hall]; [by intros ?%elem_of_nil|]. rewrite Forall_forall in Hall. unfold later in Hall.
  intros [->|Ha]%elem_of_cons [->|Hb]%elem_of_cons E; [done|specialize (Hall _ Hb); lia|specialize (Hall _ Ha); lia|by apply IH].
Qed.
Lemma nl_pairs M l : nlisted M l → map_to_list M ≡ₚ (λ tx, (Nonce tx, tx)) <$> l.
Proof.
  intros [Hi Hs]. apply NoDup_Permutation; [apply NoDup_map_to_list| |].
  - apply (NoDup_fmap_1 fst). rewrite <- list_fmap_compose. by apply later_nodup.
  - intros [n tx]. rewrite elem_of_map_to_list, Hi, list_elem_of_fmap. split; [intros [Hl <-]; by exists tx|intros (? & [= -> ->] & Hl); done].
Qed.
Lemma nl_values M l : nlisted M l → (map_to_list M).*2 ≡ₚ l.
Proof. intros H. rewrite (nl_pairs _ _ H), <- list_fmap_compose. by rewrite list_fmap_id. Qed.
Lemma nl_keys M l : nlisted M l → (map_to_list M).*1 ≡ₚ Nonce <$> l.
Proof. intros H. by rewrite (nl_pairs _ _ H), <- list_fmap_compose. Qed.
Lemma nl_size M l : nlisted M l → base.size M = length l.
Proof. intros H. rewrite <- length_map_to_list, (nl_pairs _ _ H). by rewrite length_fmap. Qed.
Lemma nl_unique M l l' : nlisted M l → nlisted M l' → l = l'.
Proof.
  intros H H'. apply (StronglySorted_unique later); [apply (nl_sorted _ _ H)|apply (nl_sorted _ _ H')|]. by rewrite <- (nl_values _ _ H), (nl_values _ _ H').
Qed.
Lemma nl_nil : nlisted ∅ [].
Proof. split; [|constructor]. intros n tx. rewrite lookup_empty, elem_of_nil. naive_solver. Qed.
Lemma later_filter (P : Transaction → Prop) `{!∀ tx, Decision (P tx)} l : StronglySorted later l → StronglySorted later (filter P l).
Proof.
  induction 1 as [|tx l Hl IH Hall]; [constructor|]. rewrite filter_cons. case_decide; [|done]. constructor; [done|].
  rewrite Forall_forall in Hall |- *. intros x Hx. apply list_elem_of_filter in Hx as [_ Hx]. by apply Hall.
Qed.
(** The part of a map that a predicate selects. *)
Lemma nl_filter (P : Transaction → Prop) `{!∀ tx, Decision (P tx)} M M' l : nlisted M l →
  (∀ n tx, M' !! n = Some tx ↔ M !! n = Some tx ∧ P tx) → nlisted M' (filter P l).
Proof.
  intros [Hi Hs] HM. split; [|by apply later_filter]. intros n tx. rewrite HM, Hi, list_elem_of_filter. tauto.
Qed.
Lemma later_app l1 l2 : StronglySorted later (l1 ++ l2) ↔ StronglySorted later l1 ∧ StronglySorted later l2 ∧ ∀ a b, a ∈ l1 → b ∈ l2 → later a b.
Proof.
  induction l1 as [|x l1 IH]; cbn.
  - split; [intros H; split_and!; [constructor|done|by intros ? ? ?%elem_of_nil]|tauto].
  - split.
    + inversion 1 as [|? ? Hs Hall]; subst. apply IH in Hs as (H1 & H2 & H3). apply Forall_app in Hall as [Ha Hb]. split_and!; [by constructor|done|].
      intros a b [->|Ha']%elem_of_cons Hb'; [|by apply H3]. rewrite Forall_forall in Hb. by apply Hb.
    + intros (H1 & H2 & H3). inversion H1 as [|? ? Hs Hall]; subst. constructor; [apply IH; split_and!; [done|done|intros; apply H3; [by right|done]]|].
      apply Forall_app. split; [done|]. apply Forall_forall. intros b Hb. apply H3; [by left|done].
Qed.
Lemma flat_sorted {RG : MapRange} M l : nlisted M l → merge_sort by_nonce (range M).*2 = l.
Proof.
  intros H. apply (StronglySorted_unique later); [|apply (nl_sorted _ _ H)|].
  - assert (Hp : merge_sort by_nonce (range M).*2 ≡ₚ l) by (by rewrite merge_sort_Permutation, (range_perm M), (nl_values _ _ H)).
    pose proof (StronglySorted_merge_sort by_nonce (range M).*2) as Hs. assert (Hnd : NoDup (Nonce <$> merge_sort by_nonce (range M).*2)).
    { rewrite Hp. by apply later_nodup, (nl_sorted _ _ H). }
    revert Hs Hnd. generalize (merge_sort by_nonce (range M).*2). intros k. induction 1 as [|tx k Hk IH Hall]; [constructor|].
    rewrite fmap_cons. intros [Hn Hnd]%NoDup_cons. constructor; [by apply IH|]. rewrite Forall_forall in Hall |- *. intros x Hx. specialize (Hall _ Hx).
    unfold by_nonce, later in *. assert (Nonce tx ≠ Nonce x) by (intros E; apply Hn; rewrite E; by apply list_elem_of_fmap_2). lia.
  - by rewrite merge_sort_Permutation, (range_perm M), (nl_values _ _ H).
Qed.

(** ** The sorted map *)

Lemma nonce_asym a b : nonce_lt a b = true → nonce_lt b a = false.
Proof. unfold nonce_lt. rewrite Z.ltb_lt, Z.ltb_ge. lia. Qed.
Lemma nonce_trans a b c : nonce_lt b a = false → nonce_lt c b = false → nonce_lt c a = false.
Proof. unfold nonce_lt. rewrite !Z.ltb_ge. lia. Qed.
Abbreviation nheap := (Heap.heap nonce_lt).
(** [m] keeps the transactions [l]. *)
Record repr (m : txSortedMap) (l : list Transaction) : Prop := {
  rp_items : nlisted (sm_items m) l;
  rp_index : sm_index m ≡ₚ Nonce <$> l;
  rp_heap : nheap (sm_index m);
  rp_cache : sm_cache m = None ∨ sm_cache m = Some l;
}.
Lemma repr_new : repr newTxSortedMap [].
Proof. split; [apply nl_nil|done|apply Heap.heap_nil|by left]. Qed.
Lemma repr_unique m l l' : repr m l → repr m l' → l = l'.
Proof. intros H H'. by eapply nl_unique; apply rp_items. Qed.
Lemma repr_Len m l : repr m l → sm_Len m = zlen l.
Proof. intros H. unfold sm_Len, zlen. by rewrite (nl_size _ _ (rp_items _ _ H)). Qed.
Lemma repr_Get m l n tx : repr m l → sm_Get n m = Some tx ↔ tx ∈ l ∧ Nonce tx = n.
Proof. intros H. apply (nl_items _ _ (rp_items _ _ H)). Qed.
Lemma repr_Get_None m l n : repr m l → sm_Get n m = None ↔ ∀ tx, tx ∈ l → Nonce tx ≠ n.
Proof.
  intros H. destruct (sm_Get n m) as [tx|] eqn:E.
  - apply (repr_Get _ _ _ _ H) in E as [Hin En]. split; [done|]. intros Hall. by destruct (Hall tx Hin).
  - split; [|done]. intros _ tx Hin En. assert (sm_Get n m = Some tx) by (by apply (repr_Get _ _ _ _ H)). congruence.
Qed.
Lemma Flatten_ok {RG : MapRange} m l : repr m l → ∃ m', sm_Flatten m = (l, m') ∧ repr m' l ∧ sm_items m' = sm_items m.
Proof.
  intros [H1 H2 H3 H4]. unfold sm_Flatten. destruct (sm_cache m) as [c|] eqn:E.
  - exists m. destruct H4 as [H4|[= ->]]; [done|]. split; [done|]. split; [split; try done; rewrite E; by right|done].
  - rewrite (flat_sorted _ _ H1). eexists. split; [done|]. split; [split; try done; by right|done].
Qed.
(** The insertion of a transaction in the place of its nonce. *)
Definition insert_tx (tx : Transaction) (l : list Transaction) : list Transaction :=
  filter (λ t, Nonce t < Nonce tx) l ++ tx :: filter (λ t, Nonce tx < Nonce t) l.
Lemma elem_of_insert_tx x tx l : x ∈ insert_tx tx l ↔ x = tx ∨ x ∈ l ∧ Nonce x ≠ Nonce tx.
Proof. unfold insert_tx. rewrite elem_of_app, elem_of_cons, !list_elem_of_filter. destruct (Z.lt_trichotomy (Nonce x) (Nonce tx)) as [|[|]]; naive_solver lia. Qed.
Lemma insert_tx_sorted tx l : StronglySorted later l → StronglySorted later (insert_tx tx l).
Proof.
  intros Hl. apply later_app. split; [by apply later_filter|]. split.
  - constructor; [by apply later_filter|]. apply Forall_forall. intros x Hx. apply list_elem_of_filter in Hx as [Hx _]. done.
  - intros a b Ha [->|Hb]%elem_of_cons; apply list_elem_of_filter in Ha as [Ha _]; [done|]. apply list_elem_of_filter in Hb as [Hb _]. unfold later. lia.
Qed.
Lemma Put_ok tx m l : repr m l → repr (sm_Put tx m) (insert_tx tx l).
Proof.
  intros H. pose proof H as [H1 H2 H3 H4]. assert (HN : nlisted (<[Nonce tx := tx]> (sm_items m)) (insert_tx tx l)).
  { split; [|by apply insert_tx_sorted, (nl_sorted _ _ H1)]. intros n x. rewrite elem_of_insert_tx, lookup_insert_Some, (nl_items _ _ H1). naive_solver. }
  split; cbn [sm_items sm_index sm_cache sm_Put]; [done| | |by left].
  - destruct (sm_items m !! Nonce tx) as [old|] eqn:E.
    + rewrite H2. apply NoDup_Permutation; [apply later_nodup, (nl_sorted _ _ H1)|apply later_nodup, (nl_sorted _ _ HN)|].
      apply (nl_items _ _ H1) in E as [Hold En]. intros n. rewrite !list_elem_of_fmap. split.
      * intros (x & -> & Hx). destruct (decide (Nonce x = Nonce tx)) as [Ex|]; [exists tx|exists x]; by rewrite elem_of_insert_tx; auto.
      * intros (x & -> & Hx). apply elem_of_insert_tx in Hx as [->|[Hx _]]; [by exists old|by exists x].
    + destruct (Push_spec nonce_lt nonce_asym nonce_trans (Nonce tx) (sm_index m) H3) as [_ ->]. rewrite H2.
      assert (Hno : ∀ x, x ∈ l → Nonce x ≠ Nonce tx) by (by apply (repr_Get_None m l)).
      rewrite <- fmap_cons. apply (fmap_Permutation Nonce). apply NoDup_Permutation.
      * apply NoDup_cons. split; [intros Hin; by apply (Hno tx)|]. apply (NoDup_fmap_1 Nonce), later_nodup, (nl_sorted _ _ H1).
      * apply (NoDup_fmap_1 Nonce), later_nodup, (nl_sorted _ _ HN).
      * intros x. rewrite elem_of_cons, elem_of_insert_tx. naive_solver.
  - destruct (sm_items m !! Nonce tx); [done|]. by apply (Push_spec nonce_lt nonce_asym nonce_trans).
Qed.
Lemma head_index (index : list Z) tx l : StronglySorted later (tx :: l) → index ≡ₚ Nonce <$> (tx :: l) → nheap index → ∃ rest, index = Nonce tx :: rest.
Proof.
  intros Hs Hp Hh. destruct index as [|n rest]; [by apply Permutation_nil_l in Hp|]. exists rest. f_equal.
  assert (Hin : n ∈ Nonce <$> (tx :: l)) by (rewrite <- Hp; by left). assert (Hin2 : Nonce tx ∈ n :: rest) by (rewrite Hp; by left).
  pose proof (heap_min nonce_lt nonce_asym nonce_trans (n :: rest) n Hh eq_refl _ Hin2) as Hm. unfold nonce_lt in Hm. apply Z.ltb_ge in Hm.
  apply list_elem_of_fmap in Hin as (x & -> & Hx). inversion Hs as [|? ? _ Hall]; subst. rewrite Forall_forall in Hall.
  apply elem_of_cons in Hx as [->|Hx]; [done|]. specialize (Hall _ Hx). unfold later in Hall. lia.
Qed.
Lemma pop_index (index : list Z) tx l : StronglySorted later (tx :: l) → index ≡ₚ Nonce <$> (tx :: l) → nheap index →
  ∃ index', Heap.Pop nonce_lt index = (Some (Nonce tx), index') ∧ index' ≡ₚ Nonce <$> l ∧ nheap index'.
Proof.
  intros Hs Hp Hh. destruct (head_index index tx l Hs Hp Hh) as [rest ->].
  destruct (Pop_Remove nonce_lt nonce_asym nonce_trans (Nonce tx :: rest) (Nonce tx) eq_refl Hh) as (h' & E & Ep & Hh').
  exists h'. split; [done|]. split; [|done]. rewrite Ep in Hp. rewrite fmap_cons in Hp. by apply Permutation_cons_inv in Hp.
Qed.
Lemma nl_tail M tx l : nlisted M (tx :: l) → nlisted (base.delete (Nonce tx) M) l.
Proof.
  intros [Hi Hs]. inversion Hs as [|? ? Hl Hall]; subst. split; [|done]. intros n x. rewrite lookup_delete_Some, Hi, elem_of_cons.
  rewrite Forall_forall in Hall. split; [naive_solver|]. intros [Hx <-]. specialize (Hall _ Hx). unfold later in Hall. split; [lia|auto].
Qed.
Lemma filter_none (P : Transaction → Prop) `{!∀ tx, Decision (P tx)} (l : list Transaction) : (∀ x, x ∈ l → ¬ P x) → filter P l = [].
Proof.
  induction l as [|x l IH]; [done|]. intros Hno. rewrite filter_cons_False by (apply Hno; by left). apply IH. intros y Hy. apply Hno. by right.
Qed.
Lemma filter_every (P : Transaction → Prop) `{!∀ tx, Decision (P tx)} (l : list Transaction) : (∀ x, x ∈ l → P x) → filter P l = l.
Proof.
  induction l as [|x l IH]; [done|]. intros Hall. rewrite filter_cons_True by (apply Hall; by left). f_equal. apply IH. intros y Hy. apply Hall. by right.
Qed.
Lemma forward_loop_ok t l : ∀ fuel items index, nlisted items l → index ≡ₚ Nonce <$> l → nheap index → (length l ≤ fuel)%nat →
  ∃ items' index', forward_loop fuel t items index = Some (filter (λ x, Nonce x < t) l, items', index') ∧
    nlisted items' (filter (λ x, t ≤ Nonce x) l) ∧ index' ≡ₚ Nonce <$> filter (λ x, t ≤ Nonce x) l ∧ nheap index'.
Proof.
  induction l as [|tx l IH]; intros fuel items index Hi Hp Hh Hf.
  { apply Permutation_nil_r in Hp as ->. exists items, []. by destruct fuel. }
  destruct fuel as [|fuel]; [cbn in Hf; lia|]. pose proof (nl_sorted _ _ Hi) as Hs. destruct (head_index index tx l Hs Hp Hh) as [rest E]. rewrite E. cbn [forward_loop]. rewrite <- E.
  rewrite !filter_cons. destruct (Z.ltb_spec (Nonce tx) t) as [Hlt|Hge].
  - destruct (pop_index index tx l Hs Hp Hh) as (index' & -> & Hp' & Hh').
    assert (Et : items !! Nonce tx = Some tx) by (apply (nl_items _ _ Hi); split; [by left|done]). rewrite Et. cbn.
    destruct (IH fuel (base.delete (Nonce tx) items) index') as (items2 & index2 & -> & H1 & H2 & H3); [by apply nl_tail|done|done|cbn in Hf; lia|].
    cbn. rewrite decide_True, decide_False by lia. by exists items2, index2.
  - inversion Hs as [|? ? _ Hall]; subst. rewrite Forall_forall in Hall. unfold later in Hall.
    rewrite decide_False, decide_True by lia. rewrite filter_none, filter_every by (intros x Hx; specialize (Hall _ Hx); lia). by exists items, (Nonce tx :: rest).
Qed.
Lemma drop_below t l : StronglySorted later l → drop (length (filter (λ x, Nonce x < t) l)) l = filter (λ x, t ≤ Nonce x) l.
Proof.
  induction 1 as [|tx l Hs IH Hall]; [done|]. rewrite !filter_cons. destruct (decide (Nonce tx < t)).
  - rewrite decide_False by lia. by cbn.
  - rewrite decide_True by lia. rewrite Forall_forall in Hall. unfold later in Hall.
    rewrite filter_none, filter_every by (intros x Hx; specialize (Hall _ Hx); lia). done.
Qed.
Lemma Forward_ok t m l : repr m l → ∃ m', sm_Forward t m = Some (filter (λ x, Nonce x < t) l, m') ∧ repr m' (filter (λ x, t ≤ Nonce x) l).
Proof.
  intros [H1 H2 H3 H4]. unfold sm_Forward. assert (Hlen : (length l ≤ length (sm_index m))%nat) by (rewrite H2, length_fmap; done).
  destruct (forward_loop_ok t l _ _ _ H1 H2 H3 Hlen) as (items & index & -> & H5 & H6 & H7). cbn -[Nat.ltb]. destruct H4 as [-> | ->]; cbn -[Nat.ltb].
  - eexists. split; [done|]. split; try done. by left.
  - destruct (Nat.ltb_spec (length l) (length (filter (λ x, Nonce x < t) l))) as [Hlt|_]; [pose proof (length_filter (λ x, Nonce x < t) l); lia|].
    cbn. eexists. split; [done|]. split; try done. right. by rewrite drop_below by apply (nl_sorted _ _ H1).
Qed.
Lemma map_without_lookup removed (items : gmap Z Transaction) n tx : map_without removed items !! n = Some tx ↔ items !! n = Some tx ∧ n ∉ removed.*1.
Proof.
  induction removed as [|[k x] removed IH]; cbn [map_without foldr]; [by rewrite elem_of_nil; naive_solver|]. fold (map_without removed items).
  rewrite lookup_delete_Some, IH, fmap_cons, elem_of_cons. cbn. naive_solver.
Qed.
Lemma keys_heap {RG : MapRange} M l : nlisted M l → (Heap.Init nonce_lt (range M).*1) ≡ₚ Nonce <$> l ∧ nheap (Heap.Init nonce_lt (range M).*1).
Proof.
  intros H. destruct (Init_spec nonce_lt nonce_asym nonce_trans (range M).*1) as [H1 H2]. split; [|done]. by rewrite H2, (range_perm M), (nl_keys _ _ H).
Qed.
Lemma filter_pairs (f : Transaction → bool) (l : list Transaction) :
  filter (λ r : Z * Transaction, f r.2 = true) ((λ tx, (Nonce tx, tx)) <$> l) = (λ tx, (Nonce tx, tx)) <$> filter (λ x, f x = true) l.
Proof. induction l as [|tx l IH]; [done|]. rewrite fmap_cons, !filter_cons. cbn [snd]. destruct (decide (f tx = true)); [rewrite fmap_cons; by f_equal|done]. Qed.
Lemma Filter_ok {RG : MapRange} f m l : repr m l → ∃ removed m', sm_Filter f m = (removed, m') ∧
  removed ≡ₚ filter (λ x, f x = true) l ∧ repr m' (filter (λ x, f x = false) l).
Proof.
  intros H. pose proof H as [H1 H2 H3 H4]. unfold sm_Filter. set (rem := filter _ (range (sm_items m))).
  assert (Hrem : rem.*2 ≡ₚ filter (λ x, f x = true) l).
  { unfold rem. assert (E : filter (λ r : Z * Transaction, f r.2 = true) (range (sm_items m)) ≡ₚ (λ tx, (Nonce tx, tx)) <$> filter (λ x, f x = true) l).
    { rewrite (range_perm (sm_items m)), (nl_pairs _ _ H1). by rewrite filter_pairs. }
    rewrite E, <- list_fmap_compose. by rewrite list_fmap_id. }
  assert (Hin : ∀ n tx, (n, tx) ∈ rem ↔ tx ∈ l ∧ Nonce tx = n ∧ f tx = true).
  { intros n tx. unfold rem. rewrite list_elem_of_filter, (range_perm (sm_items m)), elem_of_map_to_list, (nl_items _ _ H1). cbn. tauto. }
  case_bool_decide as E.
  - exists [], m. rewrite E in Hrem. cbn in Hrem. split; [done|]. split; [done|].
    assert (Hall : ∀ x, x ∈ l → f x = false).
    { intros x Hx. destruct (f x) eqn:Ef; [|done]. assert (Hbad : (Nonce x, x) ∈ rem) by (by apply Hin). rewrite E in Hbad. by apply elem_of_nil in Hbad. }
    by rewrite filter_every.
  - exists rem.*2. eexists. split; [done|]. split; [done|].
    assert (HN : nlisted (map_without rem (sm_items m)) (filter (λ x, f x = false) l)).
    { apply (nl_filter _ _ _ _ H1). intros n tx. rewrite map_without_lookup. split; intros [Hn Hf]; (split; [done|]); apply (nl_items _ _ H1) in Hn as [Hl <-].
      - destruct (f tx) eqn:Ef; [|done]. destruct Hf. apply (list_elem_of_fmap_2 fst rem (Nonce tx, tx)). by apply Hin.
      - intros ([k x] & Ek & Hx)%list_elem_of_fmap. cbn in Ek. subst k. apply Hin in Hx as (Hx & En & Ef).
        rewrite (later_inj l x tx (nl_sorted _ _ H1) Hx Hl En) in Ef. congruence. }
    destruct (keys_heap _ _ HN). split; cbn; [done|done|done|by left].
Qed.
Lemma sorted_index (index : list Z) l : StronglySorted later l → index ≡ₚ Nonce <$> l → merge_sort Z.le index = Nonce <$> l.
Proof.
  intros Hs Hp. apply (StronglySorted_unique Z.le); [apply (StronglySorted_merge_sort _)| |by rewrite merge_sort_Permutation].
  clear Hp. induction Hs as [|tx l _ IH Hall]; [constructor|]. rewrite fmap_cons. constructor; [done|]. apply Forall_fmap. eapply Forall_impl; [done|].
  intros x. cbn. unfold later. lia.
Qed.
Lemma nl_init M tx l : nlisted M (l ++ [tx]) → nlisted (base.delete (Nonce tx) M) l.
Proof.
  intros [Hi Hs]. pose proof (proj1 (later_app _ _) Hs) as (Hl & _ & Hlt). split; [|done]. intros n x. rewrite lookup_delete_Some, Hi, elem_of_app, list_elem_of_singleton.
  split; [naive_solver|]. intros [Hx <-]. specialize (Hlt x tx Hx ltac:(by left)). unfold later in Hlt. split; [lia|auto].
Qed.
Lemma cap_loop_ok t full : 0 ≤ t → ∀ l items, nlisted items l → (∃ rest, full = l ++ rest) →
  ∃ items', cap_loop (length l) t items (Nonce <$> full) = Some (reverse (drop (Z.to_nat t) l), items') ∧ nlisted items' (take (Z.to_nat t) l).
Proof.
  intros Ht l. induction l as [|tx l IH] using rev_ind; intros items Hi [rest ->].
  { exists items. cbn [length cap_loop]. destruct (Z.leb_spec (Z.of_nat 0) t); [|lia]. by rewrite drop_nil, take_nil. }
  rewrite length_app. cbn [length]. replace (length l + 1)%nat with (S (length l)) by lia. cbn [cap_loop].
  destruct (Z.leb_spec (Z.of_nat (S (length l))) t) as [Hle|Hgt].
  - exists items. rewrite drop_ge, take_ge by (rewrite length_app; cbn; lia). by split.
  - rewrite list_lookup_fmap. assert (El : ((l ++ [tx]) ++ rest) !! length l = Some tx) by (rewrite <- app_assoc; by apply list_lookup_middle). rewrite El. cbn.
    assert (Et : items !! Nonce tx = Some tx) by (apply (nl_items _ _ Hi); split; [apply elem_of_app; right; by left|done]). rewrite Et. cbn.
    destruct (IH (base.delete (Nonce tx) items)) as (items' & E & H'); [by apply nl_init|exists ([tx] ++ rest); by rewrite app_assoc|].
    rewrite E. cbn. exists items'. rewrite drop_app_le, take_app_le by lia. rewrite reverse_snoc. by split.
Qed.
Lemma Cap_ok t m l : 0 ≤ t → repr m l → ∃ m', sm_Cap t m = Some (reverse (drop (Z.to_nat t) l), m') ∧ repr m' (take (Z.to_nat t) l).
Proof.
  intros Ht H. pose proof H as [H1 H2 H3 H4]. unfold sm_Cap. rewrite (nl_size _ _ H1). destruct (Z.leb_spec (Z.of_nat (length l)) t) as [Hle|Hgt].
  { exists m. rewrite drop_ge, take_ge by lia. by split. }
  rewrite (sorted_index _ l (nl_sorted _ _ H1) H2). destruct (cap_loop_ok t l Ht l (sm_items m) H1) as (items' & E & HN); [exists []; by rewrite app_nil_r|].
  rewrite E. cbn -[Nat.ltb]. assert (Hix : take (Z.to_nat t) (Nonce <$> l) = Nonce <$> take (Z.to_nat t) l) by (by rewrite fmap_take).
  destruct (Init_spec nonce_lt nonce_asym nonce_trans (take (Z.to_nat t) (Nonce <$> l))) as [Hh Hp].
  destruct H4 as [-> | ->]; cbn -[Nat.ltb].
  - eexists. split; [done|]. split; cbn; [done|by rewrite Hp, Hix|done|by left].
  - rewrite length_reverse, length_drop. destruct (Nat.ltb_spec (length l) (length l - Z.to_nat t)) as [|_]; [lia|].
    cbn. eexists. split; [done|]. split; cbn; [done|by rewrite Hp, Hix|done|right]. f_equal. f_equal. lia.
Qed.
Lemma Remove_ok n m l : repr m l →
  match sm_Get n m with
  | None => sm_Remove n m = (false, m)
  | Some _ => ∃ m', sm_Remove n m = (true, m') ∧ repr m' (filter (λ x, Nonce x ≠ n) l)
  end.
Proof.
  intros H. pose proof H as [H1 H2 H3 H4]. unfold sm_Get, sm_Remove. destruct (sm_items m !! n) as [tx|] eqn:E; [|done].
  apply (nl_items _ _ H1) in E as [Hin En]. eexists. split; [done|].
  assert (HN : nlisted (base.delete n (sm_items m)) (filter (λ x, Nonce x ≠ n) l)).
  { apply (nl_filter _ _ _ _ H1). intros k x. rewrite lookup_delete_Some, (nl_items _ _ H1). naive_solver. }
  assert (Hix : n ∈ sm_index m) by (rewrite H2, <- En; by apply list_elem_of_fmap_2).
  destruct (list_find (λ k, k = n) (sm_index m)) as [[i k]|] eqn:Ef.
  - apply list_find_Some in Ef as (Ei & -> & _). destruct (Remove_spec nonce_lt nonce_asym nonce_trans i (sm_index m) n H3 Ei) as (h' & -> & Hp & Hh).
    split; cbn; [done| |done|by left]. apply (Permutation_cons_inv (a:=n)). rewrite <- Hp, H2. apply NoDup_Permutation.
    + apply later_nodup, (nl_sorted _ _ H1).
    + apply NoDup_cons. split; [|apply later_nodup, (nl_sorted _ _ HN)]. intros (x & Ex & Hx)%list_elem_of_fmap. by apply list_elem_of_filter in Hx as [? _].
    + intros k. rewrite elem_of_cons, !list_elem_of_fmap. split.
      * intros (x & -> & Hx). destruct (decide (Nonce x = n)); [by left|right]. exists x. by rewrite list_elem_of_filter.
      * intros [->|(x & -> & Hx)]; [by exists tx|]. apply list_elem_of_filter in Hx as [_ Hx]. by exists x.
  - apply list_find_None in Ef. rewrite Forall_forall in Ef. by destruct (Ef n Hix).
Qed.
(** The transactions of consecutive nonces from [next] on. *)
Fixpoint run (next : Z) (l : list Transaction) : list Transaction :=
  match l with
  | tx :: l => if Nonce tx =? next then tx :: run (u64 (next + 1)) l else []
  | [] => []
  end.
Lemma run_prefix l : ∀ next, run next l ++ drop (length (run next l)) l = l.
Proof. induction l as [|tx l IH]; intros next; [done|]. cbn [run]. destruct (_ =? _); [|done]. cbn. by rewrite IH. Qed.
Lemma ready_loop_ok l : ∀ fuel next items index, nlisted items l → index ≡ₚ Nonce <$> l → nheap index → (length l ≤ fuel)%nat →
  ∃ items' index', ready_loop fuel next items index = Some (run next l, items', index') ∧
    nlisted items' (drop (length (run next l)) l) ∧ index' ≡ₚ Nonce <$> drop (length (run next l)) l ∧ nheap index'.
Proof.
  induction l as [|tx l IH]; intros fuel next items index Hi Hp Hh Hf.
  { apply Permutation_nil_r in Hp as ->. exists items, []. by destruct fuel. }
  destruct fuel as [|fuel]; [cbn in Hf; lia|]. pose proof (nl_sorted _ _ Hi) as Hs. destruct (head_index index tx l Hs Hp Hh) as [rest E]. rewrite E. cbn [ready_loop run]. rewrite <- E.
  destruct (Z.eqb_spec (Nonce tx) next) as [<-|Hne].
  - destruct (pop_index index tx l Hs Hp Hh) as (index' & -> & Hp' & Hh').
    assert (Et : items !! Nonce tx = Some tx) by (apply (nl_items _ _ Hi); split; [by left|done]). rewrite Et. cbn.
    destruct (IH fuel (u64 (Nonce tx + 1)) (base.delete (Nonce tx) items) index') as (items2 & index2 & -> & H1 & H2 & H3); [by apply nl_tail|done|done|cbn in Hf; lia|].
    cbn. by exists items2, index2.
  - exists items, index. by rewrite E in *.
Qed.
(** What is ready from [start] on. *)
Definition ready_run (start : Z) (l : list Transaction) : list Transaction :=
  match l with [] => [] | tx :: _ => if start <? Nonce tx then [] else run (Nonce tx) l end.
Lemma ready_prefix start l : ready_run start l ++ drop (length (ready_run start l)) l = l.
Proof. unfold ready_run. destruct l as [|tx l]; [done|]. destruct (_ <? _); [done|]. apply run_prefix. Qed.
Lemma Ready_ok start m l : repr m l →
  ∃ m', sm_Ready start m = Some (ready_run start l, m') ∧ repr m' (drop (length (ready_run start l)) l).
Proof.
  intros H. pose proof H as [H1 H2 H3 H4]. unfold sm_Ready. destruct l as [|tx l].
  { assert (E : sm_index m = []) by (by apply Permutation_nil_r). rewrite E. by exists m. }
  destruct (head_index _ _ _ (nl_sorted _ _ H1) H2 H3) as [rest E]. rewrite E. cbn [ready_run]. destruct (start <? Nonce tx); [by exists m|]. rewrite <- E.
  destruct (ready_loop_ok (tx :: l) (length (sm_index m)) (Nonce tx) _ _ H1 H2 H3) as (items & index & -> & H5 & H6 & H7); [by rewrite H2, length_fmap|].
  cbn -[run]. eexists. split; [done|]. split; cbn -[run]; try done. by left.
Qed.

(** ** The list of an account *)

(** [tl] keeps [l], and its caps bound the costs and the gas. *)
Record lrepr (tl : txList) (l : list Transaction) : Prop := {
  lr_map : repr (txs tl) l;
  lr_caps : Forall (λ tx, Cost tx ≤ costcap tl ∧ Gas tx ≤ gascap tl) l;
}.
Lemma lrepr_new st : lrepr (newTxList st) [].
Proof. split; [apply repr_new|constructor]. Qed.
Lemma lrepr_unique tl l l' : lrepr tl l → lrepr tl l' → l = l'.
Proof. intros [H _] [H' _]. by eapply repr_unique. Qed.
Lemma lrepr_Len tl l : lrepr tl l → list_Len tl = zlen l.
Proof. intros [H _]. by apply repr_Len. Qed.
Lemma lrepr_Empty tl l : lrepr tl l → list_Empty tl = bool_decide (l = []).
Proof. intros H. unfold list_Empty. rewrite (lrepr_Len _ _ H). unfold zlen. destruct l; [done|]. case_bool_decide; [done|]. apply Z.eqb_neq. cbn. lia. Qed.
(** A change of the map that keeps only some transactions. *)
Lemma lrepr_sub tl l m l' : lrepr tl l → repr m l' → (∀ x, x ∈ l' → x ∈ l) → lrepr (set_txs m tl) l'.
Proof. intros [_ Hc] Hm Hsub. split; [done|]. rewrite Forall_forall in Hc |- *. intros x Hx. cbn. by apply Hc, Hsub. Qed.
Lemma list_Add_ok tx bump tl l : lrepr tl l →
  let old := sm_Get (Nonce tx) (txs tl) in
  match list_Add tx bump tl with
  | ((false, _), tl') => tl' = tl ∧ ∃ o, old = Some o ∧ keeps_old bump o tx = true
  | ((true, o), tl') => o = old ∧ strict tl' = strict tl ∧ lrepr tl' (insert_tx tx l) ∧ ∀ o, old = Some o → keeps_old bump o tx = false
  end.
Proof.
  intros [Hm Hc]. cbv zeta. unfold list_Add. destruct (sm_Get (Nonce tx) (txs tl)) as [o|] eqn:Eo; [destruct (keeps_old bump o tx) eqn:Ek; [split; [done|by exists o]|]|].
  all: cbv zeta; split; [done|]; split; [done|]; split; [|naive_solver]; split; [by apply Put_ok|]; cbn [costcap gascap]; rewrite Forall_forall in Hc |- *;
    intros x Hx; apply elem_of_insert_tx in Hx as [->|[Hx _]]; [|specialize (Hc x Hx)];
    destruct (Z.ltb_spec (costcap tl) (Cost tx)), (Z.ltb_spec (gascap tl) (Gas tx)); lia.
Qed.
Lemma list_Forward_ok t tl l : lrepr tl l →
  ∃ tl', list_Forward t tl = Some (filter (λ x, Nonce x < t) l, tl') ∧ lrepr tl' (filter (λ x, t ≤ Nonce x) l) ∧ strict tl' = strict tl.
Proof.
  intros H. unfold list_Forward. destruct (Forward_ok t _ _ (lr_map _ _ H)) as (m & -> & Hm). cbn. eexists. split; [done|]. split; [|done].
  eapply lrepr_sub; [done|done|]. intros x Hx. by apply list_elem_of_filter in Hx as [_ Hx].
Qed.
Lemma list_Cap_ok t tl l : 0 ≤ t → lrepr tl l →
  ∃ tl', list_Cap t tl = Some (reverse (drop (Z.to_nat t) l), tl') ∧ lrepr tl' (take (Z.to_nat t) l) ∧ strict tl' = strict tl.
Proof.
  intros Ht H. unfold list_Cap. destruct (Cap_ok t _ _ Ht (lr_map _ _ H)) as (m & -> & Hm). cbn. eexists. split; [done|]. split; [|done].
  eapply lrepr_sub; [done|done|]. intros x Hx. rewrite <- (take_drop (Z.to_nat t) l). apply elem_of_app. by left.
Qed.
Lemma list_Ready_ok start tl l : lrepr tl l →
  ∃ tl', list_Ready start tl = Some (ready_run start l, tl') ∧ lrepr tl' (drop (length (ready_run start l)) l) ∧ strict tl' = strict tl.
Proof.
  intros H. unfold list_Ready. destruct (Ready_ok start _ _ (lr_map _ _ H)) as (m & -> & Hm). cbn. eexists. split; [done|]. split; [|done].
  eapply lrepr_sub; [done|done|]. intros x Hx. rewrite <- (ready_prefix start l). apply elem_of_app. by right.
Qed.
Lemma list_Flatten_ok {RG : MapRange} tl l : lrepr tl l →
  ∃ tl', list_Flatten tl = (l, tl') ∧ lrepr tl' l ∧ strict tl' = strict tl ∧ sm_items (txs tl') = sm_items (txs tl).
Proof.
  intros H. unfold list_Flatten. destruct (Flatten_ok _ _ (lr_map _ _ H)) as (m & -> & Hm & Hi). eexists. split; [done|]. split; [|done]. by eapply lrepr_sub.
Qed.
Lemma list_Remove_ok {RG : MapRange} tx tl l : lrepr tl l →
  match sm_Get (Nonce tx) (txs tl) with
  | None => list_Remove tx tl = ((false, []), tl)
  | Some _ => ∃ invalids tl', list_Remove tx tl = ((true, invalids), tl') ∧ strict tl' = strict tl ∧
      if strict tl then invalids ≡ₚ filter (λ x, Nonce tx < Nonce x) l ∧ lrepr tl' (filter (λ x, Nonce x < Nonce tx) l)
      else invalids = [] ∧ lrepr tl' (filter (λ x, Nonce x ≠ Nonce tx) l)
  end.
Proof.
  intros H. unfold list_Remove. pose proof (Remove_ok (Nonce tx) _ _ (lr_map _ _ H)) as Hr. destruct (sm_Get (Nonce tx) (txs tl)) as [o|]; [|by rewrite Hr].
  destruct Hr as (m & -> & Hm). cbn [negb]. destruct (strict tl) eqn:Es.
  - destruct (Filter_ok (λ x, Nonce tx <? Nonce x) m _ Hm) as (inv & m' & -> & Hi & Hm'). exists inv. eexists. split; [done|]. split; [done|].
    rewrite list_filter_filter in Hi, Hm'. split.
    + rewrite Hi. apply reflexive_eq, list_filter_iff. intros x. rewrite Z.ltb_lt. lia.
    + eapply lrepr_sub; [done| |].
      * rewrite (list_filter_iff _ (λ x, Nonce x < Nonce tx)) in Hm'; [done|]. intros x. rewrite Z.ltb_ge. lia.
      * intros x Hx. by apply list_elem_of_filter in Hx as [_ Hx].
  - eexists [], _. split; [done|]. split; [done|]. split; [done|]. eapply lrepr_sub; [done|done|]. intros x Hx. by apply list_elem_of_filter in Hx as [_ Hx].
Qed.

(** What an account can pay, up to the first transaction it cannot. *)
Definition affordable (c g : Z) (tx : Transaction) : bool := (Cost tx <=? c) && (Gas tx <=? g).
Fixpoint payable (c g : Z) (l : list Transaction) : list Transaction :=
  match l with
  | tx :: l => if affordable c g tx then tx :: payable c g l else []
  | [] => []
  end.
Lemma payable_prefix c g l : ∃ rest, l = payable c g l ++ rest.
Proof. induction l as [|tx l [rest E]]; [by exists []|]. cbn. destruct (affordable c g tx); [exists rest; cbn; by f_equal|by exists (tx :: l)]. Qed.
Lemma payable_affordable c g l : Forall (λ tx, affordable c g tx = true) (payable c g l).
Proof. induction l as [|tx l IH]; cbn; [constructor|]. destruct (affordable c g tx) eqn:E; [by constructor|constructor]. Qed.
Lemma payable_all c g l : Forall (λ tx, affordable c g tx = true) l → payable c g l = l.
Proof. induction 1 as [|tx l E _ IH]; cbn; [done|]. by rewrite E, IH. Qed.
Lemma foldl_lowest l : ∀ x, let r := foldl (λ lowest tx, if Nonce tx <? lowest then Nonce tx else lowest) x l in
  r ≤ x ∧ (∀ tx, tx ∈ l → r ≤ Nonce tx) ∧ (r = x ∨ ∃ tx, tx ∈ l ∧ r = Nonce tx).
Proof.
  induction l as [|t l IH]; intros x; cbn; [split; [lia|]; split; [by intros ? ?%elem_of_nil|by left]|].
  specialize (IH (if Nonce t <? x then Nonce t else x)). cbv zeta in IH. destruct IH as (H1 & H2 & H3). set (r := foldl _ _ l) in *.
  destruct (Z.ltb_spec (Nonce t) x); (split; [lia|]); (split; [intros y [->|Hy]%elem_of_cons; [lia|by apply H2]|]).
  - destruct H3 as [->|(y & Hy & ->)]; right; [exists t|exists y]; (split; [|done]); [by left|by right].
  - destruct H3 as [->|(y & Hy & ->)]; [by left|right]. exists y. split; [by right|done].
Qed.
Lemma payable_lowest c g l lowest : StronglySorted later l →
  (∀ tx, tx ∈ l → affordable c g tx = false → lowest ≤ Nonce tx) → (∃ tx, tx ∈ l ∧ affordable c g tx = false ∧ lowest = Nonce tx) →
  filter (λ x, (lowest <? Nonce x) = false) (filter (λ x, affordable c g x = true) l) = payable c g l.
Proof.
  induction 1 as [|tx l Hs IH Hall]; intros Hlow (t & Ht & Ea & ->); [by apply elem_of_nil in Ht|]. cbn [payable]. rewrite Forall_forall in Hall. unfold later in Hall.
  rewrite filter_cons. destruct (affordable c g tx) eqn:E.
  - rewrite decide_True by done. apply elem_of_cons in Ht as [->|Ht]; [congruence|]. specialize (Hall _ Ht) as Hlt.
    rewrite filter_cons_True by (apply Z.ltb_ge; lia). f_equal. apply IH; [intros x Hx Ex; apply Hlow; [by right|done]|by exists t].
  - rewrite decide_False by done. apply filter_none. intros x Hx. apply list_elem_of_filter in Hx as [_ Hx]. specialize (Hall _ Hx).
    specialize (Hlow tx ltac:(by left) E). rewrite Z.ltb_ge. lia.
Qed.
Lemma filter_split (f : Transaction → bool) l : l ≡ₚ filter (λ x, f x = true) l ++ filter (λ x, f x = false) l.
Proof.
  induction l as [|x l IH]; [done|]. rewrite !filter_cons. destruct (f x).
  - rewrite decide_True, decide_False by done. cbn. by rewrite IH at 1.
  - rewrite decide_False, decide_True by done. rewrite <- Permutation_middle. by rewrite IH at 1.
Qed.
Lemma list_Filter_ok {RG : MapRange} c g tl l : lrepr tl l → Forall (λ tx, is_u64 (Nonce tx)) l →
  ∃ removed invalids tl', list_Filter c g tl = ((removed, invalids), tl') ∧ strict tl' = strict tl ∧
    let l' := if strict tl then payable c g l else filter (λ x, affordable c g x = true) l in
    lrepr tl' l' ∧ l ≡ₚ l' ++ removed ++ invalids ∧ (strict tl = false → invalids = []).
Proof.
  intros H Hu. pose proof H as [Hm Hc]. unfold list_Filter. destruct ((costcap tl <=? c) && (gascap tl <=? g)) eqn:Ecap.
  - apply andb_true_iff in Ecap as [E1%Z.leb_le E2%Z.leb_le]. assert (Hall : Forall (λ tx, affordable c g tx = true) l).
    { eapply Forall_impl; [exact Hc|]. intros tx [H1 H2]. unfold affordable. apply andb_true_iff. rewrite !Z.leb_le. lia. }
    exists [], [], tl. split; [done|]. split; [done|]. cbv zeta. rewrite payable_all by done. rewrite filter_every by by apply Forall_forall.
    assert (El : (if strict tl then l else l) = l) by by destruct (strict tl). rewrite El. split; [done|]. by rewrite !app_nil_r.
  - assert (Ef : ∀ x, (c <? Cost x) || (g <? Gas x) = negb (affordable c g x)).
    { intros x. unfold affordable. rewrite negb_andb, !Z.leb_antisym, !negb_involutive. done. }
    destruct (Filter_ok (λ tx, (c <? Cost tx) || (g <? Gas tx)) _ _ Hm) as (rem & m1 & -> & Hr & Hm1).
    rewrite (list_filter_iff _ (λ x, affordable c g x = false)) in Hr by (intros x; rewrite Ef; by destruct (affordable c g x)).
    rewrite (list_filter_iff _ (λ x, affordable c g x = true)) in Hm1 by (intros x; rewrite Ef; by destruct (affordable c g x)).
    assert (Hsplit : l ≡ₚ filter (λ x, affordable c g x = true) l ++ rem).
    { rewrite Hr. apply (filter_split (affordable c g)). }
    assert (Hcaps : ∀ m l' , repr m l' → Forall (λ tx, affordable c g tx = true) l' → lrepr (mkTxList (strict tl) m c g) l').
    { intros m l' Hm' Hl'. split; [done|]. eapply Forall_impl; [exact Hl'|]. cbn. unfold affordable. intros x [E1%Z.leb_le E2%Z.leb_le]%andb_true_iff. lia. }
    assert (Hok : Forall (λ tx, affordable c g tx = true) (filter (λ x, affordable c g x = true) l)).
    { apply Forall_forall. intros x Hx. by apply list_elem_of_filter in Hx as [Hx _]. }
    destruct (strict tl) eqn:Es; cbn [andb]; [|exists rem, []; eexists; split; [done|]; split; [done|]; cbv zeta; rewrite app_nil_r; split; [by apply Hcaps|done]].
    case_bool_decide as Ee; cbn [negb].
    + exists rem, []. eexists. split; [done|]. split; [done|]. cbv zeta. subst rem. cbn [app] in *. rewrite app_nil_r in Hsplit |- *.
      assert (Hall : Forall (λ tx, affordable c g tx = true) l) by (rewrite Hsplit; exact Hok). rewrite payable_all by done.
      rewrite filter_every in Hm1 by by apply Forall_forall. split; [by apply Hcaps|done].
    + set (lowest := foldl _ _ rem). destruct (foldl_lowest rem (2 ^ 64 - 1)) as (Hl1 & Hl2 & Hl3). fold lowest in Hl1, Hl2, Hl3.
      assert (Hin : ∀ tx, tx ∈ rem ↔ tx ∈ l ∧ affordable c g tx = false) by (intros tx; rewrite Hr, list_elem_of_filter; tauto).
      rewrite Forall_forall in Hu.
      assert (Hex : ∃ tx, tx ∈ l ∧ affordable c g tx = false ∧ lowest = Nonce tx).
      { destruct Hl3 as [Hl3|(tx & Htx & Hl3)]; [|apply Hin in Htx as [? ?]; by exists tx]. destruct rem as [|tx rem']; [done|].
        pose proof (proj1 (Hin tx) ltac:(by left)) as [Htl Hta]. exists tx. split; [done|]. split; [done|]. specialize (Hl2 tx ltac:(by left)). specialize (Hu tx Htl). unfold is_u64 in Hu. lia. }
      destruct (Filter_ok (λ tx, lowest <? Nonce tx) _ _ Hm1) as (inv & m2 & E2 & Hi & Hm2). rewrite E2.
      rewrite payable_lowest in Hm2; [|apply (nl_sorted _ _ (rp_items _ _ Hm))|intros tx Htx Ha; apply Hl2; by apply Hin|done].
      exists rem, inv. eexists. split; [done|]. split; [done|]. cbv zeta. split; [apply Hcaps; [done|apply payable_affordable]|]. split; [|done].
      rewrite Hsplit at 1. rewrite Hi. rewrite <- (payable_lowest c g l lowest); [|apply (nl_sorted _ _ (rp_items _ _ Hm))|intros tx Htx Ha; apply Hl2; by apply Hin|done].
      set (k := filter (λ x, affordable c g x = true) l). rewrite (Permutation_app_comm rem). rewrite app_assoc. f_equiv.
      rewrite (filter_split (λ x, lowest <? Nonce x) k) at 1. apply Permutation_app_comm.
Qed.

(** ** The heap of prices *)

Lemma price_lt_asym a b : price_lt a b = true → price_lt b a = false.
Proof.
  unfold price_lt. destruct (Z.ltb_spec (GasPrice a) (GasPrice b)), (Z.ltb_spec (GasPrice b) (GasPrice a)); try done; try lia.
Qed.
Lemma price_lt_trans a b c : price_lt b a = false → price_lt c b = false → price_lt c a = false.
Proof.
  unfold price_lt. destruct (Z.ltb_spec (GasPrice b) (GasPrice a)), (Z.ltb_spec (GasPrice a) (GasPrice b)), (Z.ltb_spec (GasPrice c) (GasPrice b)), (Z.ltb_spec (GasPrice b) (GasPrice c)),
    (Z.ltb_spec (GasPrice c) (GasPrice a)), (Z.ltb_spec (GasPrice a) (GasPrice c)); try done; try lia.
Qed.
Abbreviation pheap := (Heap.heap price_lt).
Lemma price_pop (l : list Transaction) : pheap l → l ≠ [] → ∃ tx l', Heap.Pop price_lt l = (Some tx, l') ∧ l ≡ₚ tx :: l' ∧ pheap l' ∧ ∀ y, y ∈ l → GasPrice tx ≤ GasPrice y.
Proof.
  intros Hh Hne. destruct l as [|tx l]; [done|]. destruct (Pop_Remove price_lt price_lt_asym price_lt_trans (tx :: l) tx eq_refl Hh) as (l' & E & Hp & Hh').
  exists tx, l'. split_and!; try done. intros y Hy. pose proof (heap_min price_lt price_lt_asym price_lt_trans _ _ Hh eq_refl _ Hy) as Hm. unfold price_lt in Hm.
  destruct (Z.ltb_spec (GasPrice y) (GasPrice tx)); [done|lia].
Qed.
Lemma push_all_ok save : ∀ l, pheap (pr_items l) → pheap (pr_items (push_all save l)) ∧ pr_items (push_all save l) ≡ₚ save ++ pr_items l.
Proof.
  induction save as [|tx save IH]; intros l Hl; [done|]. cbn [push_all foldl]. fold (push_all save (priced_Put tx l)).
  destruct (Push_spec price_lt price_lt_asym price_lt_trans tx (pr_items l) Hl) as [Hh Hp]. destruct (IH (priced_Put tx l) Hh) as [H1 H2]. split; [done|].
  rewrite H2. cbn [pr_items priced_Put]. rewrite Hp. by rewrite <- Permutation_middle.
Qed.

Section Pool.
Context {CRY : Crypto} {PCR : PrecompileCrypto} {RG : MapRange}.
Abbreviation hash := Transaction_Hash.
(** The heap has every transaction of the index, save those of hashes [X]. *)
Record covers (X : list Z) (all : gmap Z Transaction) (l : txPricedList) : Prop := {
  cv_heap : pheap (pr_items l);
  cv_all : ∀ h tx, all !! h = Some tx → tx ∈ pr_items l ∨ h ∈ X;
}.
Definition keyed (all : gmap Z Transaction) : Prop := ∀ h tx, all !! h = Some tx → hash tx = h.
Lemma covers_sub X all all' l : covers X all l → all' ⊆ all → covers X all' l.
Proof. intros [H1 H2] Hs. split; [done|]. intros h tx Hh. eapply H2, lookup_weaken; done. Qed.
Lemma covers_Put X all tx l : covers X all l → covers X (<[hash tx := tx]> all) (priced_Put tx l).
Proof.
  intros [H1 H2]. destruct (Push_spec price_lt price_lt_asym price_lt_trans tx (pr_items l) H1) as [Hh Hp]. split; [done|].
  intros h x [[<- <-]|[_ Hx]]%lookup_insert_Some; cbn; rewrite Hp, elem_of_cons; [by left; left|]. destruct (H2 _ _ Hx); tauto.
Qed.
Lemma covers_Removed X all l : covers X all l → covers X all (priced_Removed all l).
Proof.
  intros [H1 H2]. unfold priced_Removed. destruct (_ <=? _); [by split|]. destruct (Init_spec price_lt price_lt_asym price_lt_trans (range all).*2) as [Hh Hp]. split; [done|].
  intros h tx Hx. left. cbn. rewrite Hp, (range_perm all). apply (list_elem_of_fmap_2 snd _ (h, tx)). by apply elem_of_map_to_list.
Qed.
Lemma covers_drop X all l : covers X all l → (∀ h, h ∈ X → all !! h = None) → covers [] all l.
Proof. intros [H1 H2] HX. split; [done|]. intros h tx Hh. destruct (H2 _ _ Hh) as [|Hin]; [by left|]. by rewrite (HX _ Hin) in Hh. Qed.
Lemma known_spec all tx : known all tx = true ↔ is_Some (all !! hash tx).
Proof. unfold known. apply bool_decide_eq_true. Qed.
(** One transaction leaves the heap, for [save] or [drop] or as stale. *)
Definition cover_rest (X : list Z) (all : gmap Z Transaction) (drop save : list Transaction) (l : txPricedList) : Prop :=
  pheap (pr_items l) ∧ (∀ h tx, all !! h = Some tx → tx ∈ pr_items l ∨ h ∈ X ∨ tx ∈ save ∨ h ∈ hash <$> drop) ∧ (∀ tx, tx ∈ drop → is_Some (all !! hash tx)).
Lemma cover_rest_pop X all drop save l tx items n : keyed all → cover_rest X all drop save l → pr_items l ≡ₚ tx :: items → pheap items →
  (known all tx = false → cover_rest X all drop save (mkPriced items n)) ∧ cover_rest X all drop (save ++ [tx]) (mkPriced items n) ∧
  (known all tx = true → cover_rest X all (drop ++ [tx]) save (mkPriced items n)).
Proof.
  intros Hk (H1 & H2 & H3) Hp Hh. assert (Hc : ∀ h x, all !! h = Some x → x = tx ∨ x ∈ items ∨ h ∈ X ∨ x ∈ save ∨ h ∈ hash <$> drop).
  { intros h x Hx. destruct (H2 _ _ Hx) as [Hin|]; [|tauto]. rewrite Hp in Hin. apply elem_of_cons in Hin. tauto. }
  split_and!; try (intros Ek); (split; [done|]); cbn [pr_items].
  - split; [|done]. intros h x Hx. destruct (Hc _ _ Hx) as [->|]; [|done]. rewrite <- (Hk _ _ Hx) in Hx. assert (known all tx = true) by (apply known_spec; by eexists). congruence.
  - split; [|done]. intros h x Hx. rewrite elem_of_app, list_elem_of_singleton. destruct (Hc _ _ Hx); tauto.
  - split.
    + intros h x Hx. rewrite fmap_app, elem_of_app. cbn. rewrite list_elem_of_singleton. destruct (Hc _ _ Hx) as [->|]; [|tauto]. rewrite (Hk _ _ Hx). tauto.
    + intros x. rewrite elem_of_app, list_elem_of_singleton. intros [Hx| ->]; [by apply H3|by apply known_spec].
Qed.
Lemma cover_rest_end X all drop save l : cover_rest X all drop save l → covers ((hash <$> drop) ++ X) all (push_all save l) ∧ ∀ tx, tx ∈ drop → is_Some (all !! hash tx).
Proof.
  intros (H1 & H2 & H3). destruct (push_all_ok save l H1) as [Hh Hp]. split; [|done]. split; [done|]. intros h tx Hx. rewrite Hp, !elem_of_app. destruct (H2 _ _ Hx); tauto.
Qed.
Lemma cap_loop_covers X fuel t loc all : keyed all → ∀ drop save l, cover_rest X all drop save l →
  let '(drop', save', l') := priced_cap_loop fuel t loc all drop save l in cover_rest X all drop' save' l'.
Proof.
  intros Hk. induction fuel as [|fuel IH]; intros drop save l Hl; cbn [priced_cap_loop]; [done|].
  destruct (decide (pr_items l = [])) as [E|Hne]; [rewrite E; done|]. destruct (price_pop _ (proj1 Hl) Hne) as (tx & items & -> & Hp & Hh & _).
  pose proof (λ n, cover_rest_pop X all drop save l tx items n Hk Hl Hp Hh) as HR. destruct (known all tx); cbn [negb].
  - destruct (_ <=? _); [apply HR|]. destruct (loc tx); apply IH; by apply HR.
  - by apply IH, HR.
Qed.
Lemma discard_loop_covers X fuel loc all : keyed all → ∀ count drop save l, cover_rest X all drop save l →
  let '(drop', save', l') := discard_loop fuel count loc all drop save l in cover_rest X all drop' save' l'.
Proof.
  intros Hk. induction fuel as [|fuel IH]; intros count drop save l Hl; cbn [discard_loop]; (destruct (count <=? 0); [done|]); [done|].
  destruct (decide (pr_items l = [])) as [E|Hne]; [rewrite E; done|]. destruct (price_pop _ (proj1 Hl) Hne) as (tx & items & -> & Hp & Hh & _).
  pose proof (λ n, cover_rest_pop X all drop save l tx items n Hk Hl Hp Hh) as HR. destruct (known all tx); cbn [negb].
  - destruct (loc tx); apply IH; by apply HR.
  - by apply IH, HR.
Qed.
Lemma cover_rest_start X all l : covers X all l → cover_rest X all [] [] l.
Proof. intros [H1 H2]. split; [done|]. split; [|by intros ? ?%elem_of_nil]. intros h tx Hx. destruct (H2 _ _ Hx); tauto. Qed.
Lemma priced_Cap_covers X t loc all l : keyed all → covers X all l →
  let '(drop, l') := priced_Cap t loc all l in covers ((hash <$> drop) ++ X) all l' ∧ ∀ tx, tx ∈ drop → is_Some (all !! hash tx).
Proof.
  intros Hk Hl. unfold priced_Cap. pose proof (cap_loop_covers X (length (pr_items l)) t loc all Hk [] [] l (cover_rest_start _ _ _ Hl)) as H.
  destruct (priced_cap_loop _ _ _ _ _ _ _) as [[drop save] l']. by apply cover_rest_end.
Qed.
Lemma priced_Discard_covers X count loc all l : keyed all → covers X all l →
  let '(drop, l') := priced_Discard count loc all l in covers ((hash <$> drop) ++ X) all l' ∧ ∀ tx, tx ∈ drop → is_Some (all !! hash tx).
Proof.
  intros Hk Hl. unfold priced_Discard. pose proof (discard_loop_covers X (length (pr_items l)) loc all Hk count [] [] l (cover_rest_start _ _ _ Hl)) as H.
  destruct (discard_loop _ _ _ _ _ _ _) as [[drop save] l']. by apply cover_rest_end.
Qed.
Lemma drop_stales_covers X all : keyed all → ∀ fuel l, covers X all l → (length (pr_items l) ≤ fuel)%nat →
  let l' := drop_stales fuel all l in covers X all l' ∧ (∀ head, pr_items l' !! 0%nat = Some head → known all head = true).
Proof.
  intros Hk fuel. induction fuel as [|fuel IH]; intros l Hl Hf; cbn [drop_stales].
  { assert (E : pr_items l = []) by (apply nil_length_inv; lia). rewrite E. by split. }
  destruct (pr_items l) as [|tx items0] eqn:E; [by rewrite E|]. destruct (known all tx) eqn:Ek; [split; [done|]; rewrite E; by intros h [= <-]|].
  destruct (price_pop (pr_items l) (cv_heap _ _ _ Hl)) as (tx' & items & Ep & Hp & Hh & _); [by rewrite E|]. rewrite <- E, Ep. cbn [snd].
  assert (Etx : tx' = tx).
  { pose proof (cv_heap _ _ _ Hl) as Hhl. destruct (Pop_Remove price_lt price_lt_asym price_lt_trans (pr_items l) tx) as (h' & E' & _); [by rewrite E|done|]. rewrite Ep in E'. by injection E'. }
  subst tx'. apply IH; cbn [pr_items]; [|apply Permutation_length in Hp; rewrite E in Hp; cbn in Hf, Hp; lia]. pose proof (cover_rest_pop X all [] [] l tx items (pr_stales l - 1) Hk (cover_rest_start _ _ _ Hl) Hp Hh) as (Hr & _).
  destruct (Hr Ek) as (R1 & R2 & _). split; [done|]. intros h x Hx. destruct (R2 _ _ Hx) as [|[|[Hb|Hb]]]; [by left|by right|by apply elem_of_nil in Hb..].
Qed.
(** A transaction is underpriced when none of the pool is cheaper; for the
    converse no two transactions share a hash. *)
Lemma Underpriced_ok all tx loc l : keyed all → covers [] all l →
  let '(b, l') := priced_Underpriced tx loc all l in covers [] all l' ∧
  (b = true → loc tx = false ∧ ∀ h x, all !! h = Some x → GasPrice tx ≤ GasPrice x) ∧
  ((∀ x y, hash x = hash y → x = y) → b = false → all ≠ ∅ → loc tx = true ∨ ∃ h x, all !! h = Some x ∧ GasPrice x < GasPrice tx).
Proof.
  intros Hk Hl. unfold priced_Underpriced. destruct (loc tx); [split; [done|]; naive_solver|].
  destruct (drop_stales_covers [] all Hk (length (pr_items l)) l Hl ltac:(done)) as [Hl' Hhd]. set (l' := drop_stales _ all l) in *.
  destruct (pr_items l') as [|c items] eqn:E.
  - split; [done|]. split; [done|]. intros _ _ Hne. exfalso. apply Hne, map_eq. intros h. rewrite lookup_empty. destruct (all !! h) as [x|] eqn:Ex; [|done].
    destruct (cv_all _ _ _ Hl' _ _ Ex) as [Hb|Hb]; [rewrite E in Hb|]; by apply elem_of_nil in Hb.
  - split; [done|]. specialize (Hhd c eq_refl). pose proof (cv_heap _ _ _ Hl') as Hhl. split.
    + intros Hle%Z.leb_le. split; [done|]. intros h x Hx. destruct (cv_all _ _ _ Hl' _ _ Hx) as [Hin|Hb]; [|by apply elem_of_nil in Hb].
      pose proof (heap_min price_lt price_lt_asym price_lt_trans (pr_items l') c Hhl ltac:(by rewrite E) x Hin) as Hm. unfold price_lt in Hm.
      destruct (Z.ltb_spec (GasPrice x) (GasPrice c)); [done|lia].
    + intros Hinj Hlt%Z.leb_gt _. right. apply known_spec in Hhd as [x Hx]. exists (hash c), x. split; [done|]. by rewrite (Hinj x c (Hk _ _ Hx)).
Qed.
End Pool.
