(* ===== verification/BlockCodec.v ===== *)
(** * Encodings of blocks and receipts

    The values that the encoders make are of the types that the decoders ask
    for, and go back to what they were made of. *)

From S2P Require Import Prelude BigMath Rlp RlpStream RlpTyped Interfaces Header Transaction TxLaws Receipt Block.

(** A Go type with the two directions of its conversion. *)
Definition codes {X} (t : typ) (enc : X → gval) (dec : gval → option X) (P : X → Prop) : Prop :=
  ∀ x, P x → has_type t (enc x) ∧ dec (enc x) = Some x.
Lemma typed_roundtrip t v : typ_ok t → has_type t v → is_u64 (zlen (rlp (val_of t v))) → ∃ b s, EncodeValue t v = Ok b ∧ DecodeBytes t b = SOk v s.
Proof.
  intros Ht Hv Hu. destruct (DecodeBytes_end t v _ Ht Hv eq_refl Hu) as (s & E & _). exists (rlp (val_of t v)), s. split; [by apply EncodeValue_rlp|done].
Qed.
Lemma codes_roundtrip {X} t (enc : X → gval) dec P x : typ_ok t → codes t enc dec P → P x → is_u64 (zlen (rlp (val_of t (enc x)))) →
  ∃ b s, EncodeValue t (enc x) = Ok b ∧ DecodeBytes t b = SOk (enc x) s ∧ dec (enc x) = Some x.
Proof.
  intros Ht H Hx Hu. destruct (H x Hx) as [Hty Hd]. destruct (typed_roundtrip t (enc x) Ht Hty Hu) as (b & s & E & D).
  by exists b, s.
Qed.
Lemma codes_ptr {X} t (enc : X → gval) dec P : codes t enc dec P → codes (TPtr t) (λ x, GPtr (enc x)) (of_ptr dec) P.
Proof. intros H x Hx. by apply H. Qed.
Lemma codes_list {X} t (enc : X → gval) dec P l : codes t enc dec P → Forall P l →
  Forall (has_type t) (map enc l) ∧ mapM dec (map enc l) = Some l.
Proof.
  intros H. induction 1 as [|x l Hx _ [IH1 IH2]]; [done|]. cbn [map mapM]. destruct (H x Hx) as [Hty ->]. split; [by constructor|].
  cbn. by rewrite IH2.
Qed.

(** ** Parts of fixed size *)

Lemma hash_bytes_typed h : has_type (TByteArray 32) (GBytes (hash_bytes h)).
Proof.
  split_and!; [apply is_bytes_be_bytes|apply length_be_bytes|]. intros E. apply (f_equal length) in E. unfold hash_bytes in E.
  by rewrite length_be_bytes in E.
Qed.
Lemma addr_bytes_typed a : has_type (TByteArray 20) (GBytes (addr_bytes a)).
Proof.
  split_and!; [apply is_bytes_be_bytes|apply length_be_bytes|]. intros E. apply (f_equal length) in E. unfold addr_bytes in E.
  by rewrite length_be_bytes in E.
Qed.
Definition bytes_of (n : nat) (b : bytes) : Prop := is_bytes b ∧ length b = n.
Lemma bytes_typed n b : n ≠ 1%nat → bytes_of n b → has_type (TByteArray n) (GBytes b).
Proof. intros Hn [Hb Hl]. split_and!; [done|done|]. by intros ->. Qed.
Lemma hash_list_code ts : Forall is_hash ts →
  Forall (has_type (TByteArray 32)) (map (λ t, GBytes (hash_bytes t)) ts) ∧ map gval_hash (map (λ t, GBytes (hash_bytes t)) ts) = ts.
Proof.
  induction 1 as [|t ts Ht _ [IH1 IH2]]; [done|]. cbn [map gval_hash]. rewrite BytesToHash_hash_bytes, IH2 by done.
  split; [|done]. constructor; [apply hash_bytes_typed|done].
Qed.
Hint Resolve hash_bytes_typed addr_bytes_typed : core.

(** ** Headers and blocks *)

Record header_ok (h : Header) : Prop := {
  hk_hashes : is_hash (h_ParentHash h) ∧ is_hash (h_UncleHash h) ∧ is_hash (h_Root h) ∧ is_hash (h_TxHash h) ∧
    is_hash (h_ReceiptHash h) ∧ is_hash (h_MixDigest h);
  hk_coinbase : is_addr (h_Coinbase h);
  hk_bloom : bytes_of 256 (h_Bloom h);
  hk_numbers : 0 ≤ h_Difficulty h ∧ 0 ≤ h_Number h ∧ is_u64 (h_GasLimit h) ∧ is_u64 (h_GasUsed h) ∧ 0 ≤ h_Time h;
  hk_extra : is_bytes (h_Extra h);
  hk_nonce : bytes_of 8 (h_Nonce h);
}.
Lemma header_codes : codes header_typ header_gval header_of header_ok.
Proof.
  intros h [(?&?&?&?&?&?) Hc Hb (?&?&?&?&?) He Hn]. split.
  - pose proof (bytes_typed 256 _ ltac:(done) Hb). pose proof (bytes_typed 8 _ ltac:(done) Hn).
    unfold header_typ, header_gval. rewrite has_type_struct. cbn [fields_typed]. by split_and!; auto.
  - unfold header_of, header_gval. rewrite !BytesToHash_hash_bytes, BytesToAddress_addr_bytes by done. by destruct h.
Qed.
Lemma txdata_codes : codes txdata_typ txdata_gval txdata_of txdata_ok.
Proof. intros d Hd. split; [by apply txdata_typed|by apply txdata_of_gval]. Qed.
(** The caches of the senders are not in a block's encoding. *)
Definition fresh_tx (tx : Transaction) : Transaction := mkTransaction (tx_data tx) None.
Definition fresh_block (b : Block) : Block := mkBlock (b_header b) (b_uncles b) (map fresh_tx (b_transactions b)).
(** The encoding of a transaction in a list. *)
Lemma tx_roundtrip tx : txdata_ok (tx_data tx) → is_u64 (zlen (rlp (val_of txdata_typ (txdata_gval (tx_data tx))))) →
  Transaction_EncodeRLP tx = Ok (GetRlp_tx tx) ∧ Transaction_DecodeRLP (GetRlp_tx tx) = Some (fresh_tx tx).
Proof.
  intros Hok Hl. destruct (codes_roundtrip _ _ _ _ _ txdata_typ_ok txdata_codes Hok Hl) as (b & s & E & D & O).
  unfold GetRlp_tx, Transaction_DecodeRLP, Transaction_EncodeRLP. rewrite E. split; [done|]. by rewrite D, O.
Qed.
(** Transactions with encodings of a sane size. *)
Definition encodable_tx (tx : Transaction) : Prop := txdata_ok (tx_data tx) ∧ zlen (GetRlp_tx tx) < 2 ^ 32 ∧ is_u64 (zlen (rlp (val_of txdata_typ (txdata_gval (tx_data tx))))).
Lemma GetRlp_txs_inj txs1 txs2 : Forall encodable_tx txs1 → Forall encodable_tx txs2 → map GetRlp_tx txs1 = map GetRlp_tx txs2 → map tx_data txs1 = map tx_data txs2.
Proof.
  intros H1. revert txs2. induction H1 as [|tx txs1 (Ht & _ & Hl) _ IH]; intros [|tx2 txs2] H2; cbn [map]; try done.
  apply Forall_cons in H2 as [(Ht2 & _ & Hl2) H2]. intros [= E Es]. f_equal; [|by apply IH].
  destruct (tx_roundtrip tx Ht Hl) as [_ D1]. destruct (tx_roundtrip tx2 Ht2 Hl2) as [_ D2]. rewrite E, D2 in D1. by injection D1 as ->.
Qed.
Record block_ok (b : Block) : Prop := {
  bk_header : header_ok (b_header b);
  bk_uncles : Forall header_ok (b_uncles b);
  bk_txs : Forall (λ tx, txdata_ok (tx_data tx)) (b_transactions b);
}.
Lemma header_typ_ok : typ_ok header_typ.
Proof. cbn. unfold bits_ok. tauto. Qed.
Lemma extblock_typ_ok : typ_ok extblock_typ.
Proof. cbn. unfold bits_ok. tauto. Qed.
Lemma block_typed b : block_ok b → has_type extblock_typ (block_gval b) ∧ block_of (block_gval b) = Some (fresh_block b).
Proof.
  intros [Hh Hu Ht]. destruct (codes_ptr _ _ _ _ header_codes _ Hh) as [T1 D1].
  destruct (codes_list _ _ _ _ _ (codes_ptr _ _ _ _ header_codes) Hu) as [T2 D2].
  assert (Ht' : Forall txdata_ok (map tx_data (b_transactions b))) by (by apply Forall_map).
  destruct (codes_list _ _ _ _ _ (codes_ptr _ _ _ _ txdata_codes) Ht') as [T3 D3]. rewrite map_map in T3, D3.
  split; [by unfold extblock_typ, block_gval; rewrite has_type_struct; cbn [fields_typed]; split_and!|].
  unfold block_of, block_gval. rewrite D1. cbn [mbind option_bind]. rewrite D3. cbn [mbind option_bind]. rewrite D2. cbn.
  unfold fresh_block. by rewrite map_map.
Qed.

(** ** Logs and receipts *)

Record log_ok (l : Log) : Prop := {
  lk_address : is_addr (l_Address l);
  lk_topics : Forall is_hash (l_Topics l);
  lk_data : is_bytes (l_Data l);
  lk_place : is_u64 (l_BlockNumber l) ∧ is_hash (l_TxHash l) ∧ is_u64 (l_TxIndex l) ∧ is_hash (l_BlockHash l) ∧ is_u64 (l_Index l);
}.
(** The consensus fields of a log. *)
Definition bare_log (l : Log) : Log := mkLog (l_Address l) (l_Topics l) (l_Data l) 0 0 0 0 0.
Lemma storage_log_codes : codes (TPtr rlpStorageLog_typ) (λ l, GPtr (storage_log_gval l)) storage_log_of log_ok.
Proof.
  intros l [Ha Ht Hd (?&?&?&?&?)]. destruct (hash_list_code _ Ht) as [T1 D1]. split.
  - change (has_type rlpStorageLog_typ (storage_log_gval l)). unfold rlpStorageLog_typ, storage_log_gval.
    rewrite has_type_struct. cbn [fields_typed]. by split_and!; auto.
  - unfold storage_log_of, storage_log_gval. rewrite D1, BytesToAddress_addr_bytes, !BytesToHash_hash_bytes by done. by destruct l.
Qed.
Lemma log_codes l : log_ok l → has_type (TPtr rlpLog_typ) (GPtr (log_gval l)) ∧ log_of (GPtr (log_gval l)) = Some (bare_log l).
Proof.
  intros [Ha Ht Hd _]. destruct (hash_list_code _ Ht) as [T1 D1]. split.
  - change (has_type rlpLog_typ (log_gval l)). unfold rlpLog_typ, log_gval.
    rewrite has_type_struct. cbn [fields_typed]. by split_and!; auto.
  - unfold log_of, log_gval. by rewrite D1, BytesToAddress_addr_bytes.
Qed.
(** A receipt has the root of the state before Byzantium, besides its status,
    or a status only. *)
Record receipt_ok (r : Receipt) : Prop := {
  rk_status : bytes_of 32 (PostState r) ∨ PostState r = [] ∧ (Status r = ReceiptStatusFailed ∨ Status r = ReceiptStatusSuccessful);
  rk_gas : is_u64 (CumulativeGasUsed r) ∧ is_u64 (GasUsed r);
  rk_bloom : bytes_of 256 (Bloom r);
  rk_logs : Forall log_ok (Logs r);
  rk_place : is_hash (rc_TxHash r) ∧ is_addr (ContractAddress r);
}.
(** The status that the encodings keep: none besides a root. *)
Definition stored_status (r : Receipt) : Z := match PostState r with [] => Status r | _ => 0 end.
Definition stored_receipt (r : Receipt) : Receipt :=
  mkReceipt (PostState r) (stored_status r) (CumulativeGasUsed r) (Bloom r) (Logs r) (rc_TxHash r) (ContractAddress r) (GasUsed r).
Lemma status_bytes r : receipt_ok r → is_bytes (statusEncoding r) ∧ (length (statusEncoding r) ≤ 32)%nat.
Proof.
  intros [[[Hb Hl]|[E Hs]] _ _ _ _]; unfold statusEncoding.
  - destruct (PostState r) eqn:E; [done|]. split; [done|lia].
  - rewrite E. destruct (Status r =? ReceiptStatusFailed); [by split; [constructor|cbn; lia]|]. split; [by repeat constructor|cbn; lia].
Qed.
Lemma setStatus_encoding r : receipt_ok r → ∃ r', setStatus (statusEncoding r) receipt_zero = Some r' ∧
  PostState r' = PostState r ∧ Status r' = stored_status r ∧ rc_TxHash r' = 0 ∧ ContractAddress r' = 0 ∧ GasUsed r' = 0.
Proof.
  intros [[[Hb Hl]|[E Hs]] _ _ _ _]; unfold statusEncoding, setStatus, stored_status.
  - assert (Hne : ∀ l, length l ≠ 32%nat → PostState r ≠ l) by (intros l H E; by rewrite <- E in H).
    destruct (PostState r) eqn:E; [done|]. rewrite <- E in *.
    rewrite !bool_decide_false by (by apply Hne). unfold zlen. rewrite Hl. cbn [Z.eqb Z.of_nat Pos.eqb Pos.of_succ_nat Pos.succ].
    eexists. split; [done|]. by split_and!.
  - rewrite E. destruct Hs as [-> | ->]; eexists; (split; [reflexivity|by split_and!]).
Qed.
Lemma receipt_storage_typ_ok : typ_ok receiptStorageRLP_typ.
Proof. cbn. unfold bits_ok. tauto. Qed.
Lemma receipt_typ_ok : typ_ok receiptRLP_typ.
Proof. cbn. unfold bits_ok. tauto. Qed.
Lemma receipt_storage_codes r : receipt_ok r →
  has_type receiptStorageRLP_typ (receipt_storage_gval r) ∧ receipt_storage_of (receipt_storage_gval r) = Some (stored_receipt r).
Proof.
  intros Hr. destruct (status_bytes r Hr) as [Hs _]. destruct (setStatus_encoding r Hr) as (r' & E & E1 & E2 & _).
  destruct Hr as [_ [? ?] Hb Hl [Ht Hc]]. destruct (codes_list _ _ _ _ _ storage_log_codes Hl) as [T1 D1]. split.
  - pose proof (bytes_typed 256 _ ltac:(done) Hb). unfold receiptStorageRLP_typ, receipt_storage_gval. rewrite has_type_struct. cbn [fields_typed].
    by split_and!; auto.
  - unfold receipt_storage_of, receipt_storage_gval. rewrite E. cbn [mbind option_bind]. rewrite D1. cbn [mbind option_bind].
    by rewrite E1, E2, BytesToHash_hash_bytes, BytesToAddress_addr_bytes.
Qed.
(** The consensus fields of a receipt. *)
Definition bare_receipt (r : Receipt) : Receipt :=
  mkReceipt (PostState r) (stored_status r) (CumulativeGasUsed r) (Bloom r) (map bare_log (Logs r)) 0 0 0.
Lemma receipt_codes r : receipt_ok r → has_type receiptRLP_typ (receipt_gval r) ∧ receipt_of (receipt_gval r) = Some (bare_receipt r).
Proof.
  intros Hr. destruct (status_bytes r Hr) as [Hs _]. destruct (setStatus_encoding r Hr) as (r' & E & E1 & E2 & E3 & E4 & E5).
  destruct Hr as [_ [? ?] Hb Hl _].
  assert (HL : Forall (has_type (TPtr rlpLog_typ)) (map (λ l, GPtr (log_gval l)) (Logs r)) ∧
    mapM log_of (map (λ l, GPtr (log_gval l)) (Logs r)) = Some (map bare_log (Logs r))).
  { induction Hl as [|l ls Hl _ [IH1 IH2]]; [done|]. destruct (log_codes l Hl) as [T D]. cbn [map mapM]. rewrite D. cbn [mbind option_bind].
    rewrite IH2. split; [by constructor|done]. }
  destruct HL as [T1 D1]. split.
  - pose proof (bytes_typed 256 _ ltac:(done) Hb). unfold receiptRLP_typ, receipt_gval. rewrite has_type_struct. cbn [fields_typed].
    by split_and!; auto.
  - unfold receipt_of, receipt_gval. rewrite E. cbn [mbind option_bind]. rewrite D1. cbn [mbind option_bind].
    by rewrite E1, E2, E3, E4, E5.
Qed.
