(* ===== verification/VmLaws.v ===== *)
(** * What the virtual machine relies on, and what it keeps

    The laws of the state database as the virtual machine uses it
    ([VMStateLaws], discharged for [StateDB.v] in [StateVm.v]), the
    environment's ([EnvLaws]), the invariant of a machine and the predicate
    transformer its proofs are written in. *)

From S2P Require Import Prelude BigMath Params Analysis Memory Rlp Interfaces.
From S2P Require Import Machine Gas Instructions JumpTable Precompiles Evm.

Definition code_ok (c : bytes) : Prop := is_bytes c ∧ zlen c < 2 ^ 62.
Lemma code_ok_nil : code_ok [].
Proof. split; [apply is_bytes_nil|unfold zlen; simpl; lia]. Qed.

(** Whether the read-only rule, which came with a fork, is relied on. *)
Class Forks := byzantium : bool.

Section Laws.
Context {S : Type} `{!VMState S}.

Definition bal (a : Z) (s : S) : Z := (sGetBalance a s).1.

(** Equal accounts, where one that is missing counts as one without balance,
    nonce and code; equal for every reader. *)
Record accounts_eq (s s' : S) : Prop := {
  aq_balance a : (sGetBalance a s).1 = (sGetBalance a s').1;
  aq_nonce a : (sGetNonce a s).1 = (sGetNonce a s').1;
  aq_code a : (sGetCode a s).1 = (sGetCode a s').1;
  aq_state a k : (sGetState a k s).1 = (sGetState a k s').1;
  aq_suicided a : (sHasSuicided a s).1 = (sHasSuicided a s').1;
  aq_refund : sGetRefund s = sGetRefund s';
}.
Record readers_eq (s s' : S) : Prop := {
  rq_accounts : accounts_eq s s';
  rq_exist a : (sExist a s).1 = (sExist a s').1;
  rq_empty a : (sEmpty a s).1 = (sEmpty a s').1;
  rq_codehash a : (sGetCodeHash a s).1 = (sGetCodeHash a s').1;
  rq_committed a k : (sGetCommittedState a k s).1 = (sGetCommittedState a k s').1;
}.

(** The readers, which may load and cache. *)
Inductive reads : S → S → Prop :=
| rd_balance a s : is_addr a → reads s (sGetBalance a s).2
| rd_nonce a s : is_addr a → reads s (sGetNonce a s).2
| rd_codehash a s : is_addr a → reads s (sGetCodeHash a s).2
| rd_code a s : is_addr a → reads s (sGetCode a s).2
| rd_codesize a s : is_addr a → reads s (sGetCodeSize a s).2
| rd_committed a k s : is_addr a → is_hash k → reads s (sGetCommittedState a k s).2
| rd_state a k s : is_addr a → is_hash k → reads s (sGetState a k s).2
| rd_suicided a s : is_addr a → reads s (sHasSuicided a s).2
| rd_exist a s : is_addr a → reads s (sExist a s).2
| rd_empty a s : is_addr a → reads s (sEmpty a s).2.

(** The operations of the virtual machine on the state, snapshots apart, with
    arguments in range and no debit below zero. *)
Inductive sop : S → S → Prop :=
| so_read s s' : reads s s' → sop s s'
| so_create a s : is_addr a → sop s (sCreateAccount a s)
| so_sub a v s : is_addr a → 0 ≤ v ≤ bal a s → sop s (sSubBalance a v s)
| so_add a v s : is_addr a → 0 ≤ v → sop s (sAddBalance a v s)
| so_nonce a n s : is_addr a → is_u64 n → sop s (sSetNonce a n s)
| so_code a c s : is_addr a → code_ok c → sop s (sSetCode a c s)
| so_addrefund g s : sop s (sAddRefund g s)
| so_subrefund g s s' : sSubRefund g s = Some s' → sop s s'
| so_setstate a k v s : is_addr a → is_hash k → is_u256 v → sop s (sSetState a k v s)
| so_suicide a s : is_addr a → sop s (sSuicide a s).2
| so_log l s : sop s (sAddLog l s)
| so_preimage h p s : sop s (sAddPreimage h p s).

End Laws.

(** The contract between the virtual machine and the state: an invariant, the
    relation between a snapshot and the states that come after it, what
    reverting gives back ([seq_]: equal to every reader), and what a static
    call may do ([quiet]: no account changes, save that one without balance,
    nonce and code may appear). *)
Class VMStateLaws (S : Type) `{!VMState S} := {
  sinv : S → Prop;
  since : S → Z → S → Prop;
  seq_ : S → S → Prop;
  sinv_sop s s' : sinv s → sop s s' → sinv s';
  sinv_snapshot s : sinv s → sinv (sSnapshot s).2;
  since_snapshot s : sinv s → since s (sSnapshot s).1 (sSnapshot s).2;
  since_sop s0 id s s' : sinv s → since s0 id s → sop s s' → since s0 id s';
  since_snapshot_inner s0 id s : since s0 id s → since s0 id (sSnapshot s).2;
  since_revert s0 id s i s' s'' :
    since s0 id s → since s i s' → sRevertToSnapshot i s' = Some s'' → since s0 id s'';
  revert_since s0 id s : sinv s0 → sinv s → since s0 id s →
    ∃ s', sRevertToSnapshot id s = Some s' ∧ seq_ s' s0 ∧ sinv s';
  seq_equiv :: Equivalence seq_;
  seq_reads s s' : sinv s → reads s s' → seq_ s' s;
  seq_readers s s' : seq_ s' s → readers_eq s' s;
  quiet : S → S → Prop;
  quiet_preorder :: PreOrder quiet;
  quiet_accounts s s' : quiet s s' → accounts_eq s' s;
  quiet_seq s s' : seq_ s' s → quiet s s';
  quiet_snapshot s : sinv s → quiet s (sSnapshot s).2;
  quiet_preimage h p s : sinv s → quiet s (sAddPreimage h p s);
  quiet_create a s : sinv s → (sExist a s).1 = false → quiet s (sCreateAccount a s);
  quiet_sub a s : sinv s → quiet s (sSubBalance a 0 s);
  quiet_add a s : sinv s → quiet s (sAddBalance a 0 s);
  bal_nonneg a s : sinv s → is_addr a → 0 ≤ bal a s;
  nonce_range a s : sinv s → is_addr a → is_u64 (sGetNonce a s).1;
  codehash_range a s : sinv s → 0 ≤ (sGetCodeHash a s).1;
  code_range a s : sinv s → is_addr a → code_ok (sGetCode a s).1;
  state_range a k s : sinv s → is_addr a → 0 ≤ (sGetState a k s).1;
  bal_reads a s s' : sinv s → reads s s' → bal a s' = bal a s;
  refund_nonneg s : sinv s → 0 ≤ sGetRefund s;
  bal_create a b s : sinv s → bal a (sCreateAccount b s) = bal a s;
  bal_nonce a b n s : sinv s → bal a (sSetNonce b n s) = bal a s;
  bal_sub a b v s : sinv s → bal a (sSubBalance b v s) = if decide (a = b) then bal a s - v else bal a s;
  bal_add a b v s : sinv s → bal a (sAddBalance b v s) = if decide (a = b) then bal a s + v else bal a s;
  nonce_sub a b v s : sinv s → (sGetNonce a (sSubBalance b v s)).1 = (sGetNonce a s).1;
  nonce_add a b v s : sinv s → (sGetNonce a (sAddBalance b v s)).1 = (sGetNonce a s).1;
  nonce_set a b n s : sinv s →
    (sGetNonce a (sSetNonce b n s)).1 = if decide (a = b) then n else (sGetNonce a s).1;
  bal_snapshot a s : sinv s → bal a (sSnapshot s).2 = bal a s;
}.

(** [s'] comes from [s] by operations and closed snapshots; a static frame
    changes nothing. *)
Definition evolves {S} `{!VMState S} `{!VMStateLaws S} (static : bool) (s s' : S) : Prop :=
  sinv s → sinv s' ∧ (∀ s0 id, since s0 id s → since s0 id s') ∧ (static = true → quiet s s').

#[export] Instance evolves_preorder {S} `{!VMState S} `{!VMStateLaws S} st : PreOrder (evolves (S:=S) st).
Proof.
  split; [by intros s W|]. intros s1 s2 s3 H1 H2 W. destruct (H1 W) as (W2 & F1 & Q1).
  destruct (H2 W2) as (W3 & F2 & Q2). split_and!; [done|by auto|]. intros Hs. etrans; [by apply Q1|by apply Q2].
Qed.

Section Evolves.
Context {S} `{!VMState S} `{!VMStateLaws S}.
Implicit Types (s : S) (st : bool).

Lemma evolves_mono st st' s s' : (st' = true → st = true) → evolves st s s' → evolves st' s s'.
Proof. intros Hs H W. destruct (H W) as (H1 & H2 & H3). split_and!; auto. Qed.
Lemma evolves_sop st s s' : sop s s' → (st = true → sinv s → quiet s s') → evolves st s s'.
Proof.
  intros H Q W. split_and!; [by eapply sinv_sop| |by auto]. intros. by eapply since_sop.
Qed.
Lemma evolves_reads st s s' : reads s s' → evolves st s s'.
Proof. intros. apply evolves_sop; [by apply so_read|]. intros _ W. by apply quiet_seq, seq_reads. Qed.
Lemma evolves_snapshot st s : evolves st s (sSnapshot s).2.
Proof.
  intros W. split_and!; [by apply sinv_snapshot| |by intros; apply quiet_snapshot].
  intros. by apply since_snapshot_inner.
Qed.
(** A snapshot, anything, and the revert to it. *)
Lemma revert_possible st s s' :
  sinv s → evolves st (sSnapshot s).2 s' →
  ∃ s'', sRevertToSnapshot (sSnapshot s).1 s' = Some s'' ∧ seq_ s'' s ∧ evolves st s s''.
Proof.
  intros W H. destruct (H (sinv_snapshot _ W)) as (W' & F & _).
  pose proof (F _ _ (since_snapshot _ W)) as Hs.
  destruct (revert_since _ _ _ W W' Hs) as (t & Ht & E & Wt).
  exists t. split_and!; [done|done|]. intros _. split_and!; [done| |by intros; apply quiet_seq].
  intros s0 id H0. by eapply since_revert.
Qed.
End Evolves.

(** The environment: values in range, and a transfer that debits what the
    sender has. *)
Class EnvLaws {S} `{!VMState S} `{!VMStateLaws S} (env : Env S) := {
  CanTransfer_evolves st s a v : sinv s → is_addr a → evolves st s (CanTransfer env s a v).2;
  CanTransfer_seq s a v : sinv s → is_addr a → seq_ (CanTransfer env s a v).2 s;
  CanTransfer_bal s a v : sinv s → is_addr a → (CanTransfer env s a v).1 = true →
    v ≤ bal a (CanTransfer env s a v).2;
  Transfer_evolves st s a b v : sinv s → is_addr a → is_addr b → 0 ≤ v ≤ bal a s → (st = true → v = 0) →
    evolves st s (Transfer env s a b v);
  Origin_addr : is_addr (Origin env);
  GasPrice_nonneg : 0 ≤ GasPrice env;
  Coinbase_addr : is_addr (Coinbase env);
  GetHash_nonneg n : 0 ≤ GetHash env n;
}.

(** The hash functions and curves behind the precompiled contracts return
    byte strings of fixed lengths. *)
Class PrecompileLaws `{!PrecompileCrypto} := {
  sha256_bytes b : is_bytes (sha256_Sum256 b);
  sha256_length b : length (sha256_Sum256 b) = 32%nat;
  ripemd160_bytes b : is_bytes (ripemd160_Sum b);
  ripemd160_length b : length (ripemd160_Sum b) = 20%nat;
  G1_Marshal_bytes p : is_bytes (G1_Marshal p);
  G1_Marshal_length p : length (G1_Marshal p) = 64%nat;
}.

(** ** The machine *)

Section Wf.
Context {S : Type} `{!VMState S} `{!VMStateLaws S}.

Record wf_evm (v : evmst S) : Prop := {
  wv_state : sinv (statedb v);
  wv_temp : is_u64 (callGasTemp v);
  wv_return : is_bytes (returnData v);
}.
(** The gas bound is far beyond any block gas limit; past it the modular
    exponentiation contract can panic. *)
Record wf_contract (c : Contract) : Prop := {
  wc_code : code_ok (Code c);
  wc_input : code_ok (Input c);
  wc_gas : 0 ≤ Gas c < 2 ^ 62;
  wc_value : 0 ≤ value c;
  wc_self : is_addr (self c);
  wc_caller : is_addr (CallerAddress c);
}.
Record wf_machine (m : machine S) : Prop := {
  wm_evm : wf_evm (evm m);
  wm_pc : 0 ≤ pc m;
  wm_stack : Forall (λ x, 0 ≤ x) (stack m);
  wm_bytes : is_bytes (store (mem m));
  wm_mem : zlen (store (mem m)) ≤ 2 ^ 40;
  wm_contract : wf_contract (contract m);
}.

Lemma wf_self m : wf_machine m → is_addr (self (contract m)).
Proof. intros W. apply W. Qed.
Lemma is_addr_nonneg a : is_addr a → 0 ≤ a.
Proof. unfold is_addr. lia. Qed.

(** A frame that may not write: [byzantium] tells whether the rule is in
    force. *)
Context {FK : Forks}.
Definition static (v : evmst S) : bool := byzantium && readOnly v.

(** What a computation of a frame keeps of the machine under it. *)
Record keeps (v v' : evmst S) : Prop := {
  kp_evolves : evolves (static v) (statedb v) (statedb v');
  kp_depth : depth v' = depth v;
  kp_readOnly : readOnly v' = readOnly v;
  kp_temp : is_u64 (callGasTemp v) → is_u64 (callGasTemp v');
  kp_return : is_bytes (returnData v) → is_bytes (returnData v');
}.
#[export] Instance keeps_preorder : PreOrder keeps.
Proof.
  split; [by split|]. intros v1 v2 v3 [] [E2 ? R2 ? ?]. split; try congruence; auto.
  etrans; [done|]. replace (static v1) with (static v2) by (unfold static; congruence). done.
Qed.
Lemma static_keeps v v' : keeps v v' → static v' = static v.
Proof. intros H. unfold static. by rewrite (kp_readOnly _ _ H). Qed.
Lemma wf_keeps v v' : wf_evm v → keeps v v' → wf_evm v'.
Proof. intros [W1 W2 W3] [H1 H2 H3 H4 H5]. split; [by apply H1|auto..]. Qed.

(** The panics the virtual machine does not rule out by itself. *)
Definition okc (w : why) : Prop := w = PRefund ∨ w = PCache.

Definition wp {A} (x : M S A) (Q : A → machine S → Prop) (F : vmerror → machine S → Prop)
    (m : machine S) : Prop :=
  match x m with
  | Done a m' => Q a m'
  | Fail e m' => F e m'
  | Crash w => okc w
  | NoFuel => False
  end.
Definition ewp {A} (x : E S A) (Q : A → evmst S → Prop) (v : evmst S) : Prop :=
  match x v with
  | EDone a v' => Q a v'
  | ECrash w => okc w
  | ENoFuel => False
  end.

Lemma wp_bind {A B} (x : M S A) (k : A → M S B) Q F m :
  wp x (λ a, wp (k a) Q F) F m → wp (x ≫= k) Q F m.
Proof. unfold wp, mbind, M_bind. by destruct (x m). Qed.
Lemma wp_mono {A} (x : M S A) (Q Q' : A → machine S → Prop) (F F' : vmerror → machine S → Prop) m :
  wp x Q F m → (∀ a m', Q a m' → Q' a m') → (∀ e m', F e m' → F' e m') → wp x Q' F' m.
Proof. unfold wp. intros H HQ HF. destruct (x m); auto. Qed.
Lemma ewp_bind {A B} (x : E S A) (k : A → E S B) Q v :
  ewp x (λ a, ewp (k a) Q) v → ewp (x ≫= k) Q v.
Proof. unfold ewp, mbind, E_bind. by destruct (x v). Qed.
Lemma ewp_mono {A} (x : E S A) (Q Q' : A → evmst S → Prop) v :
  ewp x Q v → (∀ a v', Q a v' → Q' a v') → ewp x Q' v.
Proof. unfold ewp. intros H HQ. destruct (x v); auto. Qed.
Lemma wp_liftE {A} (x : E S A) Q F m :
  ewp x (λ a v, Q a (with_evm v m)) (evm m) → wp (liftE x) Q F m.
Proof. unfold ewp, wp, liftE. by destruct (x (evm m)). Qed.
Lemma wp_lift {A} (x : vres A) a Q F m : x = Ok a → Q a m → wp (lift x) Q F m.
Proof. by intros ->. Qed.

End Wf.
