(* ===== verification/VmGas.v ===== *)
(** * The gas functions

    For every entry of the instruction tables: the memory size and gas
    functions do not panic on a stack the validation accepts, the gas is a
    [uint64] of at least one unit, and only the memory fee and [callGasTemp]
    change. *)

From S2P Require Import Prelude BigMath Params Analysis Memory Rlp Interfaces.
From S2P Require Import Machine Gas Instructions JumpTable Precompiles Evm.
From S2P Require Import VmLaws.

Section Step.
Context {S : Type} `{!VMState S} `{!VMStateLaws S} {FK : Forks}.

(** What a gas function may change. *)
Record gstep (m m' : machine S) : Prop := {
  gs_keeps : keeps (evm m) (evm m');
  gs_pc : pc m' = pc m;
  gs_stack : stack m' = stack m;
  gs_store : store (mem m') = store (mem m);
  gs_contract : contract m' = contract m;
}.
#[export] Instance gstep_preorder : PreOrder gstep.
Proof. split; [by split|]. intros m1 m2 m3 [] []. split; try congruence. by etrans. Qed.
Lemma gstep_wf m m' : wf_machine m → gstep m m' → wf_machine m'.
Proof.
  intros [W1 W2 W3 W4 W5 W6] [G1 G2 G3 G4 G5]. split; rewrite ?G2, ?G3, ?G4, ?G5; try done.
  by eapply wf_keeps.
Qed.
Lemma gstep_self m m' : wf_machine m → gstep m m' → is_addr (self (contract m')).
Proof. intros W G. apply wf_self. by eapply gstep_wf. Qed.

End Step.

(** An address or a slot in range, and an operation on it. *)
Ltac vm_range := first [done | apply BigToAddress_range | apply BigToHash_range | by apply wf_self | by eapply gstep_self].
Ltac vm_read := constructor; vm_range.

Section Gas.
Context {S : Type} `{!VMState S} `{!VMStateLaws S} {FK : Forks}.
Variable env : Env S.

Record gt_ok (gt : GasTable) : Prop := {
  gt_size : 1 ≤ ExtcodeSize gt ≤ 25000;
  gt_copy : 1 ≤ ExtcodeCopy gt ≤ 25000;
  gt_hash : 0 ≤ ExtcodeHash gt ≤ 25000;
  gt_balance : 1 ≤ Balance gt ≤ 25000;
  gt_sload : 1 ≤ SLoad gt ≤ 25000;
  gt_calls : 1 ≤ Calls gt ≤ 25000;
  gt_suicide : 0 ≤ Suicide gt ≤ 25000;
  gt_exp : 1 ≤ ExpByte gt ≤ 25000;
  gt_create : 0 ≤ CreateBySuicide gt ≤ 25000;
}.
Lemma GasTable_of_ok c n : gt_ok (GasTable_of c n).
Proof.
  unfold GasTable_of, GasTableConstantinople, GasTableEIP158, GasTableEIP150, GasTableHomestead.
  destruct (IsConstantinople c n), (IsEIP158 c n), (IsEIP150 c n); split; simpl; lia.
Qed.

Definition gt0 : GasTable := GasTable_of (chainConfig env) (BlockNumber env).
Lemma gt0_ok : gt_ok gt0.
Proof. apply GasTable_of_ok. Qed.

(** [gas_ok g pops lo mf]: with [pops] operands on the stack the gas function
    succeeds with at least [lo], or errs; with [mf] it bounds the memory; with
    [w] the frame may write. *)
Definition gas_ok_if (w : bool) (g : GasTable → Z → M S Z) (pops : Z) (lo : Z) (mf : bool) : Prop :=
  ∀ ms m, wf_machine m → pops ≤ zlen (stack m) → is_u64 ms → (w = true → static (evm m) = false) →
  wp (g gt0 ms) (λ c m', gstep m m' ∧ is_u64 c ∧ lo ≤ c ∧ (mf = true → ms ≤ 2 ^ 40))
     (λ _ m', gstep m m') m.
Abbreviation gas_ok := (gas_ok_if false).
Lemma gas_ok_any w g pops lo mf : gas_ok g pops lo mf → gas_ok_if w g pops lo mf.
Proof. intros H ms m W Hp Hu _. by apply H. Qed.
(** The same for a call: what goes to the callee, with its stipend, is less
    than what is charged. *)
Definition stipend (m : machine S) : Z :=
  match stack m !! 2%nat with
  | Some v => if Big.Sign v =? 0 then 0 else CallStipend
  | None => 0
  end.
Definition call_gas_ok (g : GasTable → Z → M S Z) (pops : Z) (with_value : bool) : Prop :=
  ∀ ms m, wf_machine m → pops ≤ zlen (stack m) → is_u64 ms →
  wp (g gt0 ms) (λ c m', gstep m m' ∧ is_u64 c ∧ ms ≤ 2 ^ 40 ∧
       callGasTemp (evm m') + (if with_value then stipend m else 0) < c)
     (λ _ m', gstep m m') m.

(** ** The building blocks *)

Lemma stack_lookup st n pops : pops ≤ zlen st → Z.of_nat n < pops → Forall (λ x, 0 ≤ x) st →
  ∃ x, st !! n = Some x ∧ 0 ≤ x.
Proof.
  unfold zlen. intros Hp Hn Hf. destruct (lookup_lt_is_Some_2 st n) as [x Hx]; [lia|].
  exists x. split; [done|]. by eapply Forall_lookup_1 in Hx.
Qed.

Lemma wp_vback n (m : machine S) x Q F : stack m !! n = Some x → Q x m → wp (vback n) Q F m.
Proof. intros Hx HQ. unfold wp, vback, mbind, M_bind, gets, Back. by rewrite Hx. Qed.
Lemma wp_ret {A} (a : A) Q F (m : machine S) : Q a m → wp (mret a) Q F m.
Proof. done. Qed.
Lemma wp_gets {A} (f : machine S → A) Q F m : Q (f m) m → wp (gets f) Q F m.
Proof. done. Qed.
Lemma wp_modify (f : machine S → machine S) Q F m : Q tt (f m) → wp (modify f) Q F m.
Proof. done. Qed.
Lemma wp_guard b e Q F (m : machine S) : (b = true → Q tt m) → (b = false → F e m) → wp (guard b e) Q F m.
Proof. unfold guard, wp. intros. destruct b; simpl; auto. Qed.

Lemma wp_addGas x y Q F (m : machine S) : is_u64 x → is_u64 y →
  (∀ g, g = x + y → is_u64 g → Q g m) → (∀ e, F e m) → wp (addGas x y) Q F m.
Proof.
  intros Hx Hy HQ HF. unfold addGas. rewrite Math.SafeAdd_spec by done. rewrite negb_involutive.
  apply wp_bind, wp_guard; [|auto]. intros Hb. apply bool_decide_eq_true in Hb.
  apply wp_ret, HQ; [by apply u64_id|]. by rewrite u64_id.
Qed.
Lemma wp_mulGas x y Q F (m : machine S) : is_u64 x → is_u64 y →
  (∀ g, g = x * y → is_u64 g → Q g m) → (∀ e, F e m) → wp (mulGas x y) Q F m.
Proof.
  intros Hx Hy HQ HF. unfold mulGas. rewrite Math.SafeMul_spec by done. rewrite negb_involutive.
  apply wp_bind, wp_guard; [|auto]. intros Hb. apply bool_decide_eq_true in Hb.
  apply wp_ret, HQ; [by apply u64_id|]. by rewrite u64_id.
Qed.
Lemma bigUint64_ok v x : 0 ≤ v → bigUint64 v = (x, false) → x = v ∧ is_u64 v.
Proof.
  intros Hv. unfold bigUint64. intros [= <- Hb]. apply Big.BitLen_gt64 in Hb; [|done].
  split; [by apply Big.Uint64_id|done].
Qed.
Lemma wp_backUint64 n (m : machine S) x Q F : stack m !! n = Some x → 0 ≤ x →
  (is_u64 x → Q x m) → (∀ e, F e m) → wp (backUint64 n) Q F m.
Proof.
  intros Hx Hp HQ HF. unfold backUint64. apply wp_bind. eapply wp_vback; [done|].
  destruct (bigUint64 x) as [v o] eqn:Hb. apply wp_bind, wp_guard; [|auto]. intros Ho.
  destruct o; [done|]. apply bigUint64_ok in Hb as [-> Hu]; [|done]. apply wp_ret. auto.
Qed.

Lemma toWordSize_u64 x : is_u64 x → is_u64 (toWordSize x).
Proof. intros H. pose proof (toWordSize_bounds x H). unfold is_u64. lia. Qed.

Lemma memoryGasCost_ok (mm : Memory) ms : is_u64 ms →
  (∃ g mm', memoryGasCost mm ms = Ok (g, mm') ∧ store mm' = store mm ∧ is_u64 g ∧ ms ≤ 2 ^ 40) ∨
  memoryGasCost mm ms = Err errGasUintOverflow.
Proof.
  intros Hu. unfold memoryGasCost. destruct (ms =? 0) eqn:Hz; boolp.
  { left. exists 0, mm. unfold is_u64. split_and!; try done; lia. }
  destruct (_ <? ms) eqn:Hl; boolp; [by right|left].
  destruct (_ <? _); [|exists 0, mm; unfold is_u64; split_and!; try done; lia].
  eexists _, _. split; [done|]. split_and!; [done|apply u64_range|lia].
Qed.

Lemma wp_memGas ms Q F (m : machine S) : is_u64 ms →
  (∀ g m', gstep m m' → is_u64 g → ms ≤ 2 ^ 40 → Q g m') → (∀ e, F e m) → wp (memGas ms) Q F m.
Proof.
  intros Hu HQ HF. unfold memGas. apply wp_bind, wp_gets, wp_bind.
  destruct (memoryGasCost_ok (mem m) ms Hu) as [(g & mm & -> & Hs & Hg & Hb)| -> ]; simpl.
  - apply wp_ret, wp_bind, wp_modify, wp_ret, HQ; [|done|done]. by split.
  - apply HF.
Qed.

Lemma wp_sread {A} (f : S → A * S) Q F m :
  (let '(a, s) := f (statedb (evm m)) in
   Q a (with_evm (with_statedb s (evm m)) m)) → wp (sread f) Q F m.
Proof. unfold wp, sread. by destruct (f (statedb (evm m))). Qed.
Lemma gstep_state s m : evolves (static (evm m)) (statedb (evm m)) s → gstep m (with_evm (with_statedb s (evm m)) m).
Proof. intros H. by split. Qed.
(** A read of the state. *)
Lemma wp_read {A} (f : S → A * S) Q F m :
  reads (statedb (evm m)) (f (statedb (evm m))).2 →
  (∀ m', gstep m m' → statedb (evm m') = (f (statedb (evm m))).2 → Q (f (statedb (evm m))).1 m') →
  wp (sread f) Q F m.
Proof.
  intros Hr HQ. apply wp_sread. destruct (f (statedb (evm m))) as [a s].
  apply HQ; [|done]. by apply gstep_state, evolves_reads.
Qed.
Lemma wp_write_if (f : S → S) Q F m :
  evolves (static (evm m)) (statedb (evm m)) (f (statedb (evm m))) →
  (∀ m', gstep m m' → Q tt m') → wp (swrite f) Q F m.
Proof. intros Hs HQ. apply HQ. by apply gstep_state. Qed.
(** A change of the state, in a frame that may write. *)
Lemma evolves_write st (s s' : S) : st = false → sop s s' → evolves st s s'.
Proof. intros -> H. by apply evolves_sop. Qed.
Lemma wp_write (f : S → S) Q F m : static (evm m) = false →
  sop (statedb (evm m)) (f (statedb (evm m))) →
  (∀ m', gstep m m' → Q tt m') → wp (swrite f) Q F m.
Proof. intros Hw Hs HQ. apply wp_write_if; [|done]. by apply evolves_write. Qed.
Lemma wp_partial w (f : S → option S) Q F m : okc w → static (evm m) = false →
  (∀ s, f (statedb (evm m)) = Some s → sop (statedb (evm m)) s) →
  (∀ m', gstep m m' → Q tt m') → wp (spartial w f) Q F m.
Proof.
  intros Hw Hst Hs HQ. unfold wp, spartial. destruct (f _) as [s|] eqn:Hf; [|done].
  apply HQ, gstep_state, evolves_write; [done|]. by apply Hs.
Qed.

(** ** The gas functions *)

Lemma gas_ok_const g lo : is_u64 g → lo ≤ g → gas_ok (constGasFunc g) 0 lo false.
Proof. intros Hg Hl ms m W Hp Hms _. apply wp_ret. by split_and!. Qed.

Lemma gas_ok_value (f : GasTable → Z) lo pops : is_u64 (f gt0) → lo ≤ f gt0 →
  gas_ok (λ gt _, mret (f gt)) pops lo false.
Proof. intros Hg Hl ms m W Hp Hms _. apply wp_ret. by split_and!. Qed.

Lemma gas_ok_memPlus (base : GasTable → Z) lo : is_u64 (base gt0) → lo ≤ base gt0 →
  gas_ok (λ gt, gasMemPlus (base gt)) 0 lo true.
Proof.
  intros Hb Hl ms m W Hp Hms _. unfold gasMemPlus. apply wp_bind, wp_memGas; [done| |done].
  intros g m' G Hg Hms'. apply wp_addGas; [done|done| |done]. intros g' -> Hg'.
  split_and!; try done. unfold is_u64 in *. lia.
Qed.
Lemma gas_ok_mem : gas_ok (λ gt, memGas) 0 0 true.
Proof.
  intros ms m W Hp Hms _. apply wp_memGas; [done| |done].
  intros g m' G Hg Hms'. split_and!; try done. apply Hg.
Qed.

Lemma gas_ok_copyWords (base : GasTable → Z) n lo : is_u64 (base gt0) → lo ≤ base gt0 →
  gas_ok (λ gt, gasCopyWords (base gt) n) (Z.of_nat n + 1) lo true.
Proof.
  intros Hb Hl ms m W Hp Hms _. unfold gasCopyWords. apply wp_bind, wp_memGas; [done| |done].
  intros g m' G Hg Hms'. apply wp_bind, wp_addGas; [done|done| |done]. intros g' -> Hg'.
  destruct (stack_lookup (stack m) n _ Hp) as (x & Hx & Hx0); [lia|apply W|].
  apply wp_bind. eapply wp_backUint64; [by rewrite (gs_stack _ _ G)|done| |done]. intros Hxu.
  apply wp_bind, wp_mulGas; [by apply toWordSize_u64|by unfold is_u64, CopyGas| |done].
  intros w -> Hw. apply wp_addGas; [done|done| |done]. intros t -> Ht.
  split_and!; try done. unfold is_u64 in *. lia.
Qed.

Lemma gas_ok_log n : 0 ≤ n ≤ 4 → gas_ok (makeGasLog n) 2 1 true.
Proof.
  intros Hn ms m W Hp Hms _. unfold makeGasLog.
  destruct (stack_lookup (stack m) 1 _ Hp) as (x & Hx & Hx0); [lia|apply W|].
  apply wp_bind. eapply wp_backUint64; [done|done| |done]. intros Hxu.
  apply wp_bind, wp_memGas; [done| |done]. intros g m' G Hg Hms'.
  apply wp_bind, wp_addGas; [done|by unfold is_u64, LogGas| |done]. intros g1 -> Hg1.
  apply wp_bind, wp_addGas; [done|apply u64_range| |done]. intros g2 -> Hg2.
  apply wp_bind, wp_mulGas; [done|by unfold is_u64, LogDataGas| |done]. intros w -> Hw.
  apply wp_addGas; [done|done| |done]. intros t -> Ht.
  split_and!; try done. pose proof (u64_range (n * LogTopicGas)).
  unfold is_u64, LogGas in *. lia.
Qed.
Lemma gas_ok_sha3 : gas_ok gasSha3 2 1 true.
Proof.
  intros ms m W Hp Hms _. unfold gasSha3.
  destruct (stack_lookup (stack m) 1 _ Hp) as (x & Hx & Hx0); [lia|apply W|].
  apply wp_bind, wp_memGas; [done| |done]. intros g m' G Hg Hms'.
  apply wp_bind, wp_addGas; [done|by unfold is_u64, Sha3Gas| |done]. intros g1 -> Hg1.
  apply wp_bind. eapply wp_backUint64; [by rewrite (gs_stack _ _ G)|done| |done]. intros Hxu.
  apply wp_bind, wp_mulGas; [by apply toWordSize_u64|by unfold is_u64, Sha3WordGas| |done].
  intros w -> Hw. apply wp_addGas; [done|done| |done]. intros t -> Ht.
  split_and!; try done. unfold is_u64, Sha3Gas in *. lia.
Qed.
Lemma gas_ok_exp : gas_ok gasExp 2 1 false.
Proof.
  intros ms m W Hp Hms _. unfold gasExp.
  destruct (stack_lookup (stack m) 1 _ Hp) as (x & Hx & Hx0); [lia|apply W|].
  apply wp_bind. eapply wp_vback; [done|]. apply wp_addGas; [apply u64_range|by unfold is_u64, GasSlowStep| |done].
  intros g -> Hg. split_and!; try done.
  pose proof (u64_range ((Big.BitLen x + 7) / 8 * ExpByte gt0)). unfold is_u64, GasSlowStep in *. lia.
Qed.

Lemma gas_ok_sstore : gas_ok_if true (gasSStore env) 2 1 false.
Proof.
  intros ms m W Hp Hms Hw. specialize (Hw eq_refl). unfold gasSStore.
  destruct (stack_lookup (stack m) 1 _ Hp) as (y & Hy & _); [lia|apply W|].
  destruct (stack_lookup (stack m) 0 _ Hp) as (x & Hx & _); [lia|apply W|].
  apply wp_bind. eapply wp_vback; [done|]. apply wp_bind. eapply wp_vback; [done|].
  apply wp_bind, wp_gets, wp_bind, wp_read; [vm_read|]. intros m1 G1 _.
  set (current := (sGetState _ _ _).1).
  assert (Hfin : ∀ m2 c, gstep m m2 → is_u64 c → 1 ≤ c →
    gstep m m2 ∧ is_u64 c ∧ 1 ≤ c ∧ (false = true → ms ≤ 2 ^ 40)) by done.
  assert (Hadd : ∀ g m2 Q F, gstep m m2 → (∀ m3, gstep m m3 → Q tt m3) →
    wp (swrite (sAddRefund g)) Q F m2).
  { intros g m2 Q F G HQ. apply wp_write; [by rewrite (static_keeps _ _ (gs_keeps _ _ G))|by constructor|]. intros m3 G3. apply HQ. by etrans. }
  destruct (negb _).
  { destruct (_ && _); [by apply wp_ret, Hfin|]. destruct (_ && _); [|by apply wp_ret, Hfin].
    apply wp_bind, Hadd; [done|]. intros. by apply wp_ret, Hfin. }
  destruct (current =? _); [by apply wp_ret, Hfin|].
  apply wp_bind, wp_read; [vm_read|]. intros m2 G2 _. set (original := (sGetCommittedState _ _ _).1).
  assert (G12 : gstep m m2) by by etrans.
  destruct (original =? current).
  { destruct (original =? 0); [by apply wp_ret, Hfin|]. apply wp_bind.
    destruct (_ =? 0); [apply Hadd; [done|]; intros|apply wp_ret]; by apply wp_ret, Hfin. }
  apply wp_bind.
  assert (Hrest : ∀ m3, gstep m m3 → wp
    ((if original =? BigToHash y then
        if original =? 0 then swrite (sAddRefund NetSstoreResetClearRefund)
        else swrite (sAddRefund NetSstoreResetRefund)
      else mret tt);; mret NetSstoreDirtyGas)
    (λ c m', gstep m m' ∧ is_u64 c ∧ 1 ≤ c ∧ (false = true → ms ≤ 2 ^ 40)) (λ _ m', gstep m m') m3).
  { intros m3 G3. apply wp_bind. destruct (_ =? _); [|by apply wp_ret, wp_ret, Hfin].
    destruct (_ =? 0); (apply Hadd; [done|]; intros; by apply wp_ret, Hfin). }
  destruct (negb _); [|by apply wp_ret, Hrest].
  destruct (current =? 0).
  - apply wp_partial; [by left|by rewrite (static_keeps _ _ (gs_keeps _ _ G12))|intros; by econstructor|]. intros m3 G3. apply Hrest. by etrans.
  - destruct (BigToHash y =? 0); [by apply Hadd|by apply wp_ret, Hrest].
Qed.

Lemma gas_ok_suicide : gas_ok_if true (gasSuicide env) 1 0 false.
Proof.
  intros ms m W Hp Hms Hw. specialize (Hw eq_refl). unfold gasSuicide. pose proof gt0_ok as [].
  destruct (stack_lookup (stack m) 0 _ Hp) as (x & Hx & _); [lia|apply W|].
  assert (Htail : ∀ g m1, gstep m m1 → is_u64 g → wp
    (c ← gets contract; h ← sread (sHasSuicided (self c));
     (if (h : bool) then mret tt else swrite (sAddRefund SuicideRefundGas));; mret g)
    (λ c m', gstep m m' ∧ is_u64 c ∧ 0 ≤ c ∧ (false = true → ms ≤ 2 ^ 40)) (λ _ m', gstep m m') m1).
  { intros g m1 G Hg. apply wp_bind, wp_gets, wp_bind, wp_read; [vm_read|]. intros m2 G2 _.
    apply wp_bind. destruct (sHasSuicided _ _).1.
    - apply wp_ret, wp_ret. split_and!; [by etrans|done|apply Hg|done].
    - apply wp_write; [by rewrite (static_keeps _ _ (gs_keeps _ _ G2)), (static_keeps _ _ (gs_keeps _ _ G))|by constructor|]. intros m3 G3. apply wp_ret.
      split_and!; [etrans; [done|by etrans]|done|apply Hg|done]. }
  assert (Hs : is_u64 (Suicide gt0)) by (unfold is_u64; lia).
  apply wp_bind. destruct (IsEIP150 _ _); [|by apply wp_ret, Htail].
  apply wp_bind. eapply wp_vback; [done|]. apply wp_bind, wp_gets.
  destruct (IsEIP158 _ _).
  - apply wp_bind, wp_read; [vm_read|]. intros m1 G1 _.
    destruct (sEmpty _ _).1; [|by apply wp_ret, Htail].
    apply wp_bind, wp_read; [vm_read|]. intros m2 G2 _. apply wp_ret, Htail; [by etrans|].
    destruct (negb _); [apply u64_range|done].
  - apply wp_bind, wp_read; [vm_read|]. intros m1 G1 _. apply wp_ret, Htail; [done|].
    destruct (sExist _ _).1; [done|apply u64_range].
Qed.

(** *** Calls *)

Lemma callGas_ok gt avail base cost :
  (∃ t, callGas gt avail base cost = Ok t ∧ is_u64 t) ∨ callGas gt avail base cost = Err errGasUintOverflow.
Proof.
  unfold callGas. pose proof (u64_range (avail - base)) as Hu. set (a := u64 _) in *.
  destruct (_ && _).
  - left. eexists. split; [done|]. unfold is_u64 in *.
    pose proof (Z.div_le_upper_bound a 64 a ltac:(lia) ltac:(lia)).
    pose proof (Z.div_pos a 64). lia.
  - destruct (64 <? _); [by right|left]. eexists. split; [done|]. apply u64_range.
Qed.

Lemma wp_addCallGas gt gas (m : machine S) Q F : wf_machine m → 1 ≤ zlen (stack m) → is_u64 gas →
  (∀ c m', gstep m m' → is_u64 c → callGasTemp (evm m') + gas = c → Q c m') →
  (∀ e m', gstep m m' → F e m') →
  wp (addCallGas gt gas) Q F m.
Proof.
  intros W Hp Hg HQ HF. unfold addCallGas. apply wp_bind, wp_gets.
  destruct (stack_lookup (stack m) 0 _ Hp) as (x & Hx & _); [lia|apply W|].
  apply wp_bind. eapply wp_vback; [done|]. apply wp_bind.
  destruct (callGas_ok gt (Gas (contract m)) gas x) as [(t & -> & Ht)| ->].
  - apply wp_ret, wp_bind, wp_modify, wp_addGas; [done|done| |intros e; apply HF; by split].
    intros c -> Hc. apply HQ; [|done|simpl; lia]. by split.
  - apply wp_bind, wp_modify. apply HF. by split.
Qed.

Lemma is_u64_base (x : Z) : 1 ≤ x ≤ 25000 → is_u64 x.
Proof. unfold is_u64. lia. Qed.

Lemma gas_ok_delegatecall : call_gas_ok gasDelegateCall 1 false.
Proof.
  intros ms m W Hp Hms. unfold gasDelegateCall. pose proof (gt_calls _ gt0_ok) as Hc.
  apply wp_bind, wp_memGas; [done| |done]. intros g m1 G Hg Hms'.
  apply wp_bind, wp_addGas; [done|by apply is_u64_base| |done]. intros g1 -> Hg1.
  apply wp_addCallGas; [by eapply gstep_wf|by rewrite (gs_stack _ _ G)|done| |intros; by etrans].
  intros c m2 G2 Hcu Ht. split_and!; [by etrans|done|done|]. unfold is_u64 in *. lia.
Qed.
Lemma gas_ok_staticcall : call_gas_ok gasStaticCall 1 false.
Proof. exact gas_ok_delegatecall. Qed.

Lemma stipend_cases m v : stack m !! 2%nat = Some v →
  stipend m = if Big.Sign v =? 0 then 0 else CallStipend.
Proof. unfold stipend. by intros ->. Qed.

(** The fee of a call with value covers the stipend. *)
Lemma wp_call_tail gas ms m m0 : gstep m m0 → wf_machine m → 3 ≤ zlen (stack m) → is_u64 ms →
  is_u64 gas → stipend m < gas →
  wp (memoryGas ← memGas ms; g ← addGas gas memoryGas; addCallGas gt0 g)
    (λ c m', gstep m m' ∧ is_u64 c ∧ ms ≤ 2 ^ 40 ∧ callGasTemp (evm m') + stipend m < c)
    (λ _ m', gstep m m') m0.
Proof.
  intros G0 W Hp Hms Hg Hs. apply wp_bind, wp_memGas; [done| |done]. intros g m1 G Hg' Hms'.
  assert (G01 : gstep m m1) by by etrans.
  apply wp_bind, wp_addGas; [done|done| |done]. intros g1 -> Hg1.
  apply wp_addCallGas; [by eapply gstep_wf|rewrite (gs_stack _ _ G01); lia|done| |intros; by etrans].
  intros c m2 G2 Hcu Ht. split_and!; [by etrans|done|done|]. unfold is_u64 in *. lia.
Qed.

Lemma gas_ok_callcode : call_gas_ok gasCallCode 3 true.
Proof.
  intros ms m W Hp Hms. unfold gasCallCode. pose proof (gt_calls _ gt0_ok) as Hc.
  destruct (stack_lookup (stack m) 2 _ Hp) as (v & Hv & _); [lia|apply W|].
  apply wp_bind. eapply wp_vback; [done|]. apply wp_call_tail; try done.
  - destruct (negb _); [apply u64_range|by apply is_u64_base].
  - rewrite (stipend_cases _ _ Hv). destruct (Big.Sign v =? 0); simpl; [lia|].
    rewrite u64_id; unfold CallValueTransferGas, CallStipend, is_u64; lia.
Qed.

Lemma gas_ok_call : call_gas_ok (gasCall env) 3 true.
Proof.
  intros ms m W Hp Hms. unfold gasCall. pose proof (gt_calls _ gt0_ok) as Hc.
  destruct (stack_lookup (stack m) 2 _ Hp) as (v & Hv & _); [lia|apply W|].
  destruct (stack_lookup (stack m) 1 _ Hp) as (a & Hva & _); [lia|apply W|].
  apply wp_bind. eapply wp_vback; [done|]. apply wp_bind. eapply wp_vback; [done|].
  set (gasv := u64 (Calls gt0 + CallNewAccountGas)).
  assert (Hgv : gasv = Calls gt0 + CallNewAccountGas).
  { apply u64_id. unfold is_u64, CallNewAccountGas. lia. }
  assert (Htail : ∀ g m0, gstep m m0 → 1 ≤ g ≤ 50000 → wp
    (let gas := if negb (Big.Sign v =? 0) then u64 (g + CallValueTransferGas) else g in
     memoryGas ← memGas ms; gas ← addGas gas memoryGas; addCallGas gt0 gas)
    (λ c m', gstep m m' ∧ is_u64 c ∧ ms ≤ 2 ^ 40 ∧ callGasTemp (evm m') + stipend m < c)
    (λ _ m', gstep m m') m0).
  { intros g m0 G Hg. apply wp_call_tail; try done.
    - destruct (negb _); [apply u64_range|unfold is_u64; lia].
    - rewrite (stipend_cases _ _ Hv). destruct (Big.Sign v =? 0); simpl; [lia|].
      rewrite u64_id; unfold CallValueTransferGas, CallStipend, is_u64; lia. }
  assert (Hr1 : 1 ≤ Calls gt0 ≤ 50000) by lia.
  assert (Hr2 : 1 ≤ gasv ≤ 50000) by (rewrite Hgv; unfold CallNewAccountGas; lia).
  apply wp_bind. destruct (IsEIP158 _ _).
  - destruct (negb (Big.Sign v =? 0)) eqn:Hvz.
    + apply wp_bind, wp_read; [vm_read|]. intros m1 G1 _.
      destruct (sEmpty _ _).1; by apply wp_ret, Htail.
    + by apply wp_ret, Htail.
  - apply wp_bind, wp_read; [vm_read|]. intros m1 G1 _.
    destruct (sExist _ _).1; by apply wp_ret, Htail.
Qed.

(** ** The memory functions *)

Definition mem_ok (f : Stack → vres Z) (pops : Z) : Prop :=
  ∀ st, pops ≤ zlen st → Forall (λ x, 0 ≤ x) st → ∃ v, f st = Ok v ∧ 0 ≤ v.

Lemma Back_ok st n pops : pops ≤ zlen st → Z.of_nat n < pops → Forall (λ x, 0 ≤ x) st →
  ∃ x, Back st n = Ok x ∧ 0 ≤ x.
Proof.
  intros Hp Hn Hf. destruct (stack_lookup st n pops Hp Hn Hf) as (x & Hx & H0).
  exists x. unfold Back. by rewrite Hx.
Qed.
Lemma calcMemSize_nonneg off l : 0 ≤ off → 0 ≤ l → 0 ≤ calcMemSize off l.
Proof. unfold calcMemSize. intros. destruct (_ =? 0); lia. Qed.
Lemma mem_ok_at i j pops : Z.of_nat i < pops → Z.of_nat j < pops → mem_ok (calcMemSize_at i j) pops.
Proof.
  intros Hi Hj st Hp Hf. unfold calcMemSize_at.
  destruct (Back_ok st i pops Hp Hi Hf) as (x & -> & Hx).
  destruct (Back_ok st j pops Hp Hj Hf) as (y & -> & Hy).
  eexists. split; [done|]. by apply calcMemSize_nonneg.
Qed.
Lemma mem_ok_const l pops : 0 ≤ l → 0 < pops →
  mem_ok (λ st, off ←? Back st 0; Ok (calcMemSize off l)) pops.
Proof.
  intros Hl Hp0 st Hp Hf. destruct (Back_ok st 0 pops Hp ltac:(lia) Hf) as (x & -> & Hx).
  eexists. split; [done|]. by apply calcMemSize_nonneg.
Qed.
Lemma mem_ok_log pops : 1 < pops → mem_ok memoryLog pops.
Proof.
  intros Hp0 st Hp Hf. unfold memoryLog.
  destruct (Back_ok st 1 pops Hp ltac:(lia) Hf) as (x & -> & Hx).
  destruct (Back_ok st 0 pops Hp ltac:(lia) Hf) as (y & -> & Hy).
  eexists. split; [done|]. by apply calcMemSize_nonneg.
Qed.
Lemma mem_ok_max i j k l pops : Z.of_nat i < pops → Z.of_nat j < pops → Z.of_nat k < pops → Z.of_nat l < pops →
  mem_ok (λ st, x ←? calcMemSize_at i j st; y ←? calcMemSize_at k l st; Ok (Math.BigMax x y)) pops.
Proof.
  intros Hi Hj Hk Hl st Hp Hf.
  destruct (mem_ok_at i j pops Hi Hj st Hp Hf) as (x & -> & Hx).
  destruct (mem_ok_at k l pops Hk Hl st Hp Hf) as (y & -> & Hy).
  eexists. split; [done|]. unfold Math.BigMax. by destruct (_ <? _).
Qed.

End Gas.
Abbreviation gas_ok env := (gas_ok_if env false).
