(* ===== verification/VmRules.v ===== *)
(** * Rules for instructions

    What an instruction may change, the rules of the predicate transformer
    for the stack and the memory, and the tactics that apply them. *)

From S2P Require Import Prelude BigMath Params Analysis Memory Rlp Interfaces.
From S2P Require Import Machine Gas Instructions JumpTable Precompiles Evm.
From S2P Require Import VmLaws VmGas.

Section Rules.
Context {S : Type} `{!VMState S} `{!VMStateLaws S} {FK : Forks} {CRY : Crypto}.

(** ** What an instruction may change

    [xstep x m m']: the contract keeps everything but its gas, which grows by
    [x] at most.  [J m0 x k m]: [m] is well-formed, comes from [m0], and has
    [k] operands. *)
Record xstep (x : Z) (m m' : machine S) : Prop := {
  xs_keeps : keeps (evm m) (evm m');
  xs_contract : contract m' = set_Gas (Gas (contract m')) (contract m);
  xs_gas : Gas (contract m') ≤ Gas (contract m) + x;
}.
Record J (m0 : machine S) (x k : Z) (m : machine S) : Prop := {
  J_wf : wf_machine m;
  J_step : xstep x m0 m;
  J_len : k ≤ zlen (stack m);
}.
Lemma set_Gas_id c : set_Gas (Gas c) c = c.
Proof. by destruct c. Qed.
Lemma J_start m k : wf_machine m → k ≤ zlen (stack m) → J m 0 k m.
Proof. intros W Hk. split; try done. split; [done|by rewrite set_Gas_id|lia]. Qed.

(** [m'] keeps the contract and evolves the rest. *)
Lemma J_change m0 x k k' m m' : J m0 x k m → wf_machine m' → keeps (evm m) (evm m') →
  contract m' = contract m → k' ≤ zlen (stack m') → J m0 x k' m'.
Proof.
  intros [W [H1 H2 H3] Hl] W' Hk Hc Hl'. split; try done. split; rewrite ?Hc; try done. by etrans.
Qed.
Lemma J_gstep m0 x k m m' : J m0 x k m → gstep m m' → J m0 x k m'.
Proof.
  intros HJ G. eapply J_change; [done|by eapply gstep_wf; [apply HJ|]|apply G|apply G|].
  rewrite (gs_stack _ _ G). apply HJ.
Qed.

(** ** Rules *)

Lemma wp_pop m0 x k m Q F : J m0 x k m → 1 ≤ k →
  (∀ a m', 0 ≤ a → J m0 x (k - 1) m' → stack m = a :: stack m' → mem m' = mem m →
    evm m' = evm m → contract m' = contract m → Q a m') → wp vpop Q F m.
Proof.
  intros HJ Hk HQ. pose proof (J_len _ _ _ _ HJ) as Hl. unfold wp, vpop.
  destruct (stack m) as [|a r] eqn:Hs; [unfold zlen in Hl; simpl in Hl; lia|].
  pose proof (J_wf _ _ _ _ HJ) as [W1 W2 W3 W4 W5 W6]. rewrite Hs in W3. apply Forall_cons in W3 as [Ha Hr].
  apply HQ; try done. eapply J_change; [done|by split|done|done|]. simpl. rewrite zlen_cons in Hl. lia.
Qed.
Lemma wp_push m0 x k a m Q F : J m0 x k m → 0 ≤ a →
  (∀ m', J m0 x (k + 1) m' → stack m' = a :: stack m → mem m' = mem m → evm m' = evm m →
    contract m' = contract m → Q tt m') → wp (vpush a) Q F m.
Proof.
  intros HJ Ha HQ. apply HQ; try done. pose proof (J_wf _ _ _ _ HJ) as [W1 W2 W3 W4 W5 W6].
  eapply J_change; [done|split; try done; by apply Forall_cons|done|done|].
  simpl. rewrite zlen_cons. pose proof (J_len _ _ _ _ HJ). lia.
Qed.
Lemma wp_peek m0 x k m Q F : J m0 x k m → 1 ≤ k → (∀ a, 0 ≤ a → Q a m) → wp vpeek Q F m.
Proof.
  intros HJ Hk HQ. pose proof (J_len _ _ _ _ HJ) as Hl. unfold wp, vpeek.
  destruct (stack m) as [|a r] eqn:Hs; [unfold zlen in Hl; simpl in Hl; lia|].
  pose proof (J_wf _ _ _ _ HJ) as [W1 W2 W3 W4 W5 W6]. rewrite Hs in W3. apply Forall_cons in W3 as [Ha Hr].
  auto.
Qed.
Lemma wp_set m0 x k a m Q F : J m0 x k m → 1 ≤ k → 0 ≤ a →
  (∀ m', J m0 x k m' → mem m' = mem m → evm m' = evm m → contract m' = contract m → Q tt m') →
  wp (vset a) Q F m.
Proof.
  intros HJ Hk Ha HQ. pose proof (J_len _ _ _ _ HJ) as Hl. unfold wp, vset.
  destruct (stack m) as [|b r] eqn:Hs; [unfold zlen in Hl; simpl in Hl; lia|].
  pose proof (J_wf _ _ _ _ HJ) as [W1 W2 W3 W4 W5 W6]. rewrite Hs in W3. apply Forall_cons in W3 as [Hb Hr].
  apply HQ; try done. eapply J_change; [done|split; try done; by apply Forall_cons|done|done|].
  simpl. rewrite zlen_cons in *. lia.
Qed.
(** The last operation of most instructions. *)
Lemma wp_done m0 x k m F : J m0 x k m →
  wp done_nil (λ res m', J m0 x 0 m' ∧ code_ok res) F m.
Proof.
  intros HJ. apply wp_ret. split; [|apply code_ok_nil]. destruct HJ as [W G Hl].
  split; try done. apply zlen_nonneg.
Qed.
Lemma wp_push_done m0 x k a m F : J m0 x k m → 0 ≤ a →
  wp (vpush a;; done_nil) (λ res m', J m0 x 0 m' ∧ code_ok res) F m.
Proof. intros HJ Ha. apply wp_bind. eapply wp_push; [done..|]. intros. by eapply wp_done. Qed.
Lemma wp_set_done m0 x k a m F : J m0 x k m → 1 ≤ k → 0 ≤ a →
  wp (vset a;; done_nil) (λ res m', J m0 x 0 m' ∧ code_ok res) F m.
Proof. intros HJ Hk Ha. apply wp_bind. eapply wp_set; [done..|]. intros. by eapply wp_done. Qed.

(** ** Memory *)

(** Whether the memory was made large enough for the operands. *)
Definition covers (mm : Memory) (off l : Z) : Prop := calcMemSize off l ≤ zlen (store mm).
Definition mem_wf (mm : Memory) : Prop := is_bytes (store mm) ∧ zlen (store mm) ≤ 2 ^ 40.

Lemma Int64_small a : 0 ≤ a < 2 ^ 63 → Big.Int64 a = a.
Proof. apply Big.Int64_id. Qed.

Lemma covers_cases mm off l : mem_wf mm → 0 ≤ off → 0 ≤ l → covers mm off l →
  l = 0 ∨ (0 < l ∧ off + l ≤ zlen (store mm) ∧ Memory.in_range mm off l ∧
           Big.Int64 off = off ∧ Big.Int64 l = l ∧ Big.Uint64 off = off ∧ Big.Uint64 l = l).
Proof.
  intros [_ Hz] Ho Hl Hc. unfold covers, calcMemSize, Big.Sign in Hc.
  destruct (Z.sgn l =? 0) eqn:Hs; boolp; [left; lia|right].
  assert (0 < l) by lia. split_and!; try done.
  - unfold Memory.in_range. repeat split; try lia.
  - apply Int64_small. lia.
  - apply Int64_small. lia.
  - apply Big.Uint64_id. unfold is_u64. lia.
  - apply Big.Uint64_id. unfold is_u64. lia.
Qed.

Lemma Memory_Get_covers mm off l : mem_wf mm → 0 ≤ off → 0 ≤ l → covers mm off l →
  ∃ d, Memory_Get mm (Big.Int64 off) (Big.Int64 l) = Ok d ∧ is_bytes d ∧ zlen d ≤ 2 ^ 40.
Proof.
  intros Hm Ho Hl Hc. destruct (covers_cases _ _ _ Hm Ho Hl Hc) as [->|(H1&H2&H3&H4&H5&_)].
  - exists []. split; [apply Memory_Get_0|]. split; [apply is_bytes_nil|unfold zlen; simpl; lia].
  - rewrite H4, H5, Memory_Get_ok by done. eexists. split; [done|]. destruct Hm as [Hb Hz].
    split; [auto with geth|]. unfold zlen in *. rewrite length_take, length_drop. lia.
Qed.
Lemma Memory_Set_covers mm off l d : mem_wf mm → 0 ≤ off → 0 ≤ l → covers mm off l → is_bytes d →
  ∃ mm', Memory_Set mm (Big.Uint64 off) (Big.Uint64 l) d = Ok mm' ∧ mem_wf mm'.
Proof.
  intros Hm Ho Hl Hc Hd. destruct (covers_cases _ _ _ Hm Ho Hl Hc) as [->|(H1&H2&H3&_&_&H6&H7)].
  - exists mm. split; [apply Memory_Set_0|done].
  - rewrite H6, H7, Memory_Set_ok by done. eexists. split; [done|]. destruct Hm as [Hb Hz].
    split; simpl; [by apply is_bytes_copy_into|].
    unfold zlen in *. rewrite length_copy_into by (unfold zlen; lia). done.
Qed.

Lemma J_mem_wf m0 x k m : J m0 x k m → mem_wf (mem m).
Proof. intros [[] _ _]. by split. Qed.
Lemma wp_mread {A} (f : Memory → vres A) d Q F (m : machine S) : f (mem m) = Ok d → Q d m → wp (mread f) Q F m.
Proof. intros Hf HQ. unfold wp, mread, mbind, M_bind, gets. by rewrite Hf. Qed.
Lemma wp_mwrite (f : Memory → vres Memory) mm m0 x k m Q F : J m0 x k m → f (mem m) = Ok mm → mem_wf mm →
  (∀ m', J m0 x k m' → mem m' = mm → stack m' = stack m → contract m' = contract m → evm m' = evm m →
    Q tt m') → wp (mwrite f) Q F m.
Proof.
  intros HJ Hf [Hb Hz] HQ. unfold wp, mwrite, mbind, M_bind, gets. rewrite Hf. apply HQ; try done.
  pose proof (J_wf _ _ _ _ HJ) as [W1 W2 W3 W4 W5 W6].
  eapply J_change; [done|by split|done|done|apply HJ].
Qed.

(** ** What every [execute] function satisfies *)

Definition exec_ok (ex : M S bytes) (pops : Z) (req : machine S → Prop) : Prop :=
  ∀ m, wf_machine m → pops ≤ zlen (stack m) → req m →
  wp ex (λ res m', J m 0 0 m' ∧ code_ok res) (λ _ m', J m 0 0 m') m.
Definition any : machine S → Prop := λ _, True.

Definition writable (m : machine S) : Prop := static (evm m) = false.
Lemma J_static m0 x k m : J m0 x k m → static (evm m) = static (evm m0).
Proof. intros HJ. by apply static_keeps, HJ. Qed.
Lemma J_writable m0 x k m : J m0 x k m → writable m0 → writable m.
Proof. unfold writable. intros HJ <-. by eapply J_static. Qed.

Lemma J_self m0 x k m : J m0 x k m → is_addr (self (contract m)).
Proof. intros HJ. by apply wf_self, (J_wf _ _ _ _ HJ). Qed.

(** The operands the memory function looked at. *)
Definition mreq (f : Stack → vres Z) (m : machine S) : Prop :=
  ∃ v, f (stack m) = Ok v ∧ v ≤ zlen (store (mem m)).

End Rules.

Ltac vm_range ::=
  first [done | apply BigToAddress_range | apply BigToHash_range | by apply wf_self | by eapply J_self | by eapply gstep_self].

(** Takes the next operand; reads the top of the stack. *)
Ltac vm_pop :=
  match goal with
  | H : J ?m0 ?x ?k ?m |- wp (vpop ≫= _) _ _ ?m =>
      apply wp_bind, (wp_pop m0 x k m _ _ H); [lia|];
      let a := fresh "a" in let m' := fresh "m" in let Ha := fresh "Ha" in let HJ := fresh "HJ" in
      let Hs := fresh "Hs" in let Hm := fresh "Hm" in let He := fresh "He" in let Hc := fresh "Hc" in
      intros a m' Ha HJ Hs Hm He Hc
  end.
Ltac vm_peek :=
  match goal with
  | H : J ?m0 ?x ?k ?m |- wp (vpeek ≫= _) _ _ ?m =>
      apply wp_bind, (wp_peek m0 x k m _ _ H); [lia|];
      let a := fresh "a" in let Ha := fresh "Ha" in intros a Ha
  end.
Ltac vm_push :=
  match goal with
  | H : J ?m0 ?x ?k ?m |- wp (vpush _ ≫= _) _ _ ?m => apply (wp_push_done m0 x k _ m _ H)
  end.
Ltac vm_set :=
  match goal with
  | H : J ?m0 ?x ?k ?m |- wp (vset _ ≫= _) _ _ ?m => apply (wp_set_done m0 x k _ m _ H); [lia|]
  end.
Ltac head_of x := lazymatch x with ?f _ => head_of f | _ => x end.
Ltac vm_start :=
  intros m W Hp Hreq; pose proof (J_start m _ W Hp) as HJ0;
  lazymatch goal with
  | |- wp (_ ≫= _) _ _ _ => idtac
  | |- wp ?x _ _ _ => let h := head_of x in unfold h
  end.
