(* ===== verification/VmInstr.v ===== *)
(** * The instructions

    Every [execute] function keeps the machine well-formed and does not
    panic, given the operands and the memory that the interpreter has checked
    and made before. *)

From S2P Require Import Prelude BigMath Params Analysis Memory Rlp Interfaces.
From S2P Require Import Machine Gas Instructions JumpTable Precompiles Evm.
From S2P Require Import VmLaws VmGas VmRules.

Section Instr.
Context {S : Type} `{!VMState S} `{!VMStateLaws S} {FK : Forks} {CRY : Crypto}.
Variable env : Env S.
Context `{!EnvLaws env}.

(** ** Instructions that use the stack only *)

Lemma U256_nonneg x : 0 ≤ Math.U256 x.
Proof. apply Math.U256_range. Qed.
Lemma bool_int_nonneg b : 0 ≤ bool_int b.
Proof. by destruct b. Qed.
#[local] Hint Resolve U256_nonneg bool_int_nonneg Z.le_refl : core.

(** Two operands to one result. *)
Lemma exec_ok_binary_set (f : Z → Z → Z) : (∀ x y, 0 ≤ x → 0 ≤ y → 0 ≤ f x y) →
  exec_ok (x ← vpop; y ← vpeek; vset (f x y);; done_nil) 2 any.
Proof. intros Hf. vm_start. vm_pop. vm_peek. vm_set. auto. Qed.
Lemma exec_ok_binary_push (f : Z → Z → Z) : (∀ x y, 0 ≤ x → 0 ≤ y → 0 ≤ f x y) →
  exec_ok (x ← vpop; y ← vpop; vpush (f x y);; done_nil) 2 any.
Proof. intros Hf. vm_start. vm_pop. vm_pop. vm_push. auto. Qed.
Lemma exec_ok_unary (f : Z → Z) : (∀ x, 0 ≤ x → 0 ≤ f x) →
  exec_ok (x ← vpeek; vset (f x);; done_nil) 1 any.
Proof. intros Hf. vm_start. vm_peek. vm_set. auto. Qed.

Lemma Byte_nonneg x l n : 0 ≤ Math.Byte x l n.
Proof.
  unfold Math.Byte. case_decide; [done|]. unfold Math.bigEndianByteAt.
  destruct (_ !! _); [|done]. apply Z.mod_pos_bound. lia.
Qed.
Lemma Exp_nonneg x y : 0 ≤ y → 0 ≤ Math.Exp x y.
Proof. intros. rewrite Math.Exp_spec by done. apply Z.mod_pos_bound. lia. Qed.

Lemma opAdd_ok : exec_ok opAdd 2 any. Proof. by apply exec_ok_binary_set. Qed.
Lemma opSub_ok : exec_ok opSub 2 any. Proof. by apply exec_ok_binary_set. Qed.
Lemma opMul_ok : exec_ok opMul 2 any. Proof. by apply exec_ok_binary_push. Qed.
Lemma opExp_ok : exec_ok opExp 2 any.
Proof. apply exec_ok_binary_push. intros. by apply Exp_nonneg. Qed.
Lemma opNot_ok : exec_ok opNot 1 any. Proof. by apply exec_ok_unary. Qed.
Lemma opLt_ok : exec_ok opLt 2 any. Proof. by apply exec_ok_binary_set. Qed.
Lemma opGt_ok : exec_ok opGt 2 any. Proof. by apply exec_ok_binary_set. Qed.
Lemma opSlt_ok : exec_ok opSlt 2 any.
Proof. apply exec_ok_binary_set. intros. repeat case_match; try lia; auto. Qed.
Lemma opSgt_ok : exec_ok opSgt 2 any.
Proof. apply exec_ok_binary_set. intros. repeat case_match; try lia; auto. Qed.
Lemma opEq_ok : exec_ok opEq 2 any. Proof. by apply exec_ok_binary_set. Qed.
Lemma opIszero_ok : exec_ok opIszero 1 any.
Proof. apply exec_ok_unary. intros. case_match; lia. Qed.
Lemma opAnd_ok : exec_ok opAnd 2 any.
Proof. apply exec_ok_binary_push. intros. apply Z.land_nonneg. auto. Qed.
Lemma opOr_ok : exec_ok opOr 2 any.
Proof. apply exec_ok_binary_set. intros. by apply Z.lor_nonneg. Qed.
Lemma opXor_ok : exec_ok opXor 2 any.
Proof. apply exec_ok_binary_set. intros. by apply Z.lxor_nonneg. Qed.

Lemma opDiv_ok : exec_ok opDiv 2 any.
Proof. vm_start. vm_pop. vm_peek. destruct (negb _); vm_set; auto. Qed.
Lemma opSdiv_ok : exec_ok opSdiv 2 any.
Proof. vm_start. vm_pop. vm_pop. repeat case_match; vm_push; auto. Qed.
Lemma opMod_ok : exec_ok opMod 2 any.
Proof. vm_start. vm_pop. vm_pop. case_match; vm_push; auto. Qed.
Lemma opSmod_ok : exec_ok opSmod 2 any.
Proof. vm_start. vm_pop. vm_pop. repeat case_match; vm_push; auto. Qed.
Lemma opSignExtend_ok : exec_ok opSignExtend 2 any.
Proof.
  vm_start. vm_pop. destruct (a <? 31); [|by apply wp_bind, wp_ret; eapply wp_done].
  apply wp_bind. vm_pop. eapply wp_push; [done|auto|]. intros. by eapply wp_done.
Qed.
Lemma opByte_ok : exec_ok opByte 2 any.
Proof. vm_start. vm_pop. vm_peek. case_match; vm_set; [apply Byte_nonneg|auto]. Qed.
Lemma opAddmod_ok : exec_ok opAddmod 3 any.
Proof. vm_start. vm_pop. vm_pop. vm_pop. case_match; vm_push; auto. Qed.
Lemma opMulmod_ok : exec_ok opMulmod 3 any.
Proof. vm_start. vm_pop. vm_pop. vm_pop. case_match; vm_push; auto. Qed.

(** A shift first normalises the value in place. *)
Lemma shift_ok (f : Z → Z → Z) :
  exec_ok (shift ← vpop; value ← vpeek;
           let shift := Math.U256 shift in let value := Math.U256 value in
           vset value;;
           (if 256 <=? shift then vset 0 else vset (Math.U256 (f value shift)));;
           done_nil) 2 any.
Proof.
  vm_start. vm_pop. vm_peek. apply wp_bind. eapply wp_set; [done|lia|auto|]. intros m1 J1 _ _ _.
  case_match; vm_set; auto.
Qed.
Lemma opSHL_ok : exec_ok opSHL 2 any.
Proof. exact (shift_ok (λ v s, Z.shiftl v (Big.Uint64 s))). Qed.
Lemma opSHR_ok : exec_ok opSHR 2 any.
Proof. exact (shift_ok (λ v s, Z.shiftr v (Big.Uint64 s))). Qed.
Lemma opSAR_ok : exec_ok opSAR 2 any.
Proof. vm_start. vm_pop. vm_pop. case_match; vm_push; auto. Qed.

(** ** Instructions that read the environment *)

Lemma push_env_ok (f : machine S → Z) :
  (∀ m, wf_machine m → 0 ≤ f m) → exec_ok (x ← gets f; vpush x;; done_nil) 0 any.
Proof. intros Hf. vm_start. apply wp_bind, wp_gets. vm_push. auto. Qed.
Lemma push_const_ok a : 0 ≤ a → exec_ok (vpush a;; done_nil) 0 any.
Proof. intros Ha. vm_start. vm_push. done. Qed.

Lemma opAddress_ok : exec_ok opAddress 0 any.
Proof. vm_start. apply wp_bind, wp_gets. vm_push. apply W. Qed.
Lemma opCaller_ok : exec_ok opCaller 0 any.
Proof. vm_start. apply wp_bind, wp_gets. vm_push. apply W. Qed.
Lemma opCallValue_ok : exec_ok opCallValue 0 any.
Proof. vm_start. apply wp_bind, wp_gets. vm_push. apply W. Qed.
Lemma opCallDataSize_ok : exec_ok opCallDataSize 0 any.
Proof. vm_start. apply wp_bind, wp_gets. vm_push. apply zlen_nonneg. Qed.
Lemma opCodeSize_ok : exec_ok opCodeSize 0 any.
Proof. vm_start. apply wp_bind, wp_gets. vm_push. apply zlen_nonneg. Qed.
Lemma opReturnDataSize_ok : exec_ok opReturnDataSize 0 any.
Proof. vm_start. apply wp_bind, wp_gets. vm_push. apply zlen_nonneg. Qed.
Lemma opPc_ok : exec_ok opPc 0 any.
Proof. vm_start. apply wp_bind, wp_gets. vm_push. apply W. Qed.
Lemma opMsize_ok : exec_ok opMsize 0 any.
Proof. vm_start. apply wp_bind, wp_gets. vm_push. apply zlen_nonneg. Qed.
Lemma opGas_ok : exec_ok opGas 0 any.
Proof. vm_start. apply wp_bind, wp_gets. vm_push. apply W. Qed.
Lemma opOrigin_ok : exec_ok (opOrigin env) 0 any.
Proof. apply push_const_ok, is_addr_nonneg, Origin_addr. Qed.
Lemma opGasprice_ok : exec_ok (opGasprice env) 0 any.
Proof. apply push_const_ok, GasPrice_nonneg. Qed.
Lemma opCoinbase_ok : exec_ok (opCoinbase env) 0 any.
Proof. apply push_const_ok, is_addr_nonneg, Coinbase_addr. Qed.
Lemma opTimestamp_ok : exec_ok (opTimestamp env) 0 any.
Proof. by apply push_const_ok. Qed.
Lemma opNumber_ok : exec_ok (opNumber env) 0 any.
Proof. by apply push_const_ok. Qed.
Lemma opDifficulty_ok : exec_ok (opDifficulty env) 0 any.
Proof. by apply push_const_ok. Qed.
Lemma opGasLimit_ok : exec_ok (opGasLimit env) 0 any.
Proof. by apply push_const_ok. Qed.
Lemma opBlockhash_ok : exec_ok (opBlockhash env) 1 any.
Proof. vm_start. vm_pop. case_match; vm_push; [apply GetHash_nonneg|done]. Qed.
Lemma opPop_ok : exec_ok opPop 1 any.
Proof. vm_start. vm_pop. by eapply wp_done. Qed.
Lemma opJumpdest_ok : exec_ok opJumpdest 0 any.
Proof. vm_start. by eapply wp_done. Qed.
Lemma opStop_ok : exec_ok opStop 0 any.
Proof. vm_start. by eapply wp_done. Qed.

(** ** Instructions that read or write the state *)

Lemma J_sinv m0 x k m : J m0 x k m → sinv (statedb (evm m)).
Proof. intros [[[]] _ _]. done. Qed.

(** Replaces the top by what the state gives for it. *)
Lemma read_top_ok (f : Z → machine S → S → Z * S) (g : Z → Z) :
  (∀ a m s, reads s (f a m s).2) → (∀ a m s, sinv s → 0 ≤ g (f a m s).1) →
  ∀ m, wf_machine m → 1 ≤ zlen (stack m) →
  wp (slot ← vpeek; v ← sread (f slot m); vset (g v);; done_nil)
    (λ res m', J m 0 0 m' ∧ code_ok res) (λ _ m', J m 0 0 m') m.
Proof.
  intros Hr Hf m W Hp. pose proof (J_start m _ W Hp) as HJ0. vm_peek.
  apply wp_bind, wp_read; [apply Hr|]. intros m1 G _.
  pose proof (J_gstep _ _ _ _ _ HJ0 G). vm_set. apply Hf. apply W.
Qed.
Lemma opBalance_ok : exec_ok opBalance 1 any.
Proof.
  intros m W Hp _. apply (read_top_ok (λ a _, sGetBalance (BigToAddress a)) (λ x, x)); try done.
  - intros. vm_read.
  - intros. apply bal_nonneg; [done|vm_range].
Qed.
Lemma opExtCodeSize_ok : exec_ok opExtCodeSize 1 any.
Proof.
  intros m W Hp _. apply (read_top_ok (λ a _, sGetCodeSize (BigToAddress a)) u64); try done.
  - intros. vm_read.
  - intros. apply u64_range.
Qed.
Lemma opExtCodeHash_ok : exec_ok opExtCodeHash 1 any.
Proof.
  intros m W Hp _. apply (read_top_ok (λ a _, sGetCodeHash (BigToAddress a)) (λ x, x)); try done.
  - intros. vm_read.
  - intros. by apply codehash_range.
Qed.
Lemma opSload_ok : exec_ok opSload 1 any.
Proof.
  vm_start. vm_peek. apply wp_bind, wp_gets, wp_bind, wp_read; [vm_read|]. intros m1 G _.
  pose proof (J_gstep _ _ _ _ _ HJ0 G). vm_set. apply state_range; [apply W|vm_range].
Qed.
Lemma opSstore_ok : exec_ok opSstore 2 writable.
Proof.
  vm_start. vm_pop. vm_pop. apply wp_bind, wp_gets, wp_bind, wp_write.
  - by eapply J_writable.
  - apply so_setstate; [vm_range..|]. apply BigToHash_range.
  - intros m3 G. pose proof (J_gstep _ _ _ _ _ HJ1 G). by eapply wp_done.
Qed.
Lemma opSuicide_ok : exec_ok opSuicide 1 writable.
Proof.
  vm_start. apply wp_bind, wp_gets, wp_bind, wp_read; [vm_read|]. intros m1 G1 _.
  pose proof (J_gstep _ _ _ _ _ HJ0 G1) as J1. vm_pop.
  apply wp_bind, wp_write; [by eapply J_writable|apply so_add; [vm_range|apply bal_nonneg; [apply W|vm_range]]|]. intros m3 G3.
  pose proof (J_gstep _ _ _ _ _ HJ G3) as J3.
  apply wp_bind, wp_sread.
  destruct (sSuicide _ _) as [b s] eqn:Hsu.
  assert (G4 : gstep m3 (with_evm (with_statedb s (evm m3)) m3)).
  { apply gstep_state, evolves_write; [by eapply J_writable|]. replace s with (sSuicide (self (contract m)) (statedb (evm m3))).2 by (by rewrite Hsu).
    apply so_suicide. vm_range. }
  pose proof (J_gstep _ _ _ _ _ J3 G4). by eapply wp_done.
Qed.

(** ** Instructions that read or write memory *)

Lemma SetBytes_nonneg b : is_bytes b → 0 ≤ Big.SetBytes b.
Proof. intros H. pose proof (be_val_bound b H). unfold Big.SetBytes. lia. Qed.
#[local] Hint Resolve SetBytes_nonneg : core.

Lemma opMload_ok : exec_ok opMload 1 (mreq memoryMLoad).
Proof.
  vm_start. destruct Hreq as (v & Hv & Hle). vm_pop.
  unfold memoryMLoad, Back in Hv. rewrite Hs in Hv. simpl in Hv. injection Hv as <-.
  destruct (Memory_Get_covers (mem m0) a 32) as (d & Hd & Hb & _);
    [by eapply J_mem_wf|done|done|unfold covers; by rewrite Hm|].
  apply wp_bind. eapply wp_mread; [exact Hd|]. vm_push. auto.
Qed.
Lemma opSha3_ok : exec_ok (opSha3 env) 2 (mreq memorySha3).
Proof.
  vm_start. destruct Hreq as (v & Hv & Hle). vm_pop. vm_pop.
  unfold memorySha3, calcMemSize_at, Back in Hv. rewrite Hs, Hs0 in Hv. simpl in Hv. injection Hv as <-.
  destruct (Memory_Get_covers (mem m1) a a0) as (d & Hd & Hb & _);
    [by eapply J_mem_wf|done|done|unfold covers; by rewrite Hm0, Hm|].
  apply wp_bind. eapply wp_mread; [exact Hd|]. apply wp_bind.
  assert (Hend : ∀ m3, J m 0 (2 - 1 - 1) m3 → wp (vpush (Big.SetBytes (Keccak256 d));; done_nil)
    (λ res m', J m 0 0 m' ∧ code_ok res) (λ _ m', J m 0 0 m') m3).
  { intros m3 J3. vm_push. apply SetBytes_nonneg, Keccak256_bytes. }
  destruct (EnablePreimageRecording env).
  - apply wp_write_if; [apply evolves_sop; [apply so_preimage|intros _; apply quiet_preimage]|]. intros m3 G3. apply Hend. by eapply J_gstep.
  - by apply wp_ret, Hend.
Qed.

Lemma getDataBig_ok data start size : code_ok data → 0 ≤ start → 0 ≤ size →
  ∃ d, getDataBig data start size = Ok d ∧ is_bytes d.
Proof.
  intros [Hb Hl] Hs Hz. unfold getDataBig. pose proof (zlen_nonneg data).
  assert (0 ≤ Math.BigMin start (zlen data) ≤ zlen data) as H1.
  { unfold Math.BigMin. case_match; boolp; lia. }
  set (s := Math.BigMin start _) in *.
  assert (s ≤ Math.BigMin (s + size) (zlen data) ≤ zlen data) as H2.
  { unfold Math.BigMin. case_match; boolp; lia. }
  set (e := Math.BigMin (s + size) _) in *.
  rewrite !Big.Uint64_id by (unfold is_u64; lia). rewrite slice_ok by lia. simpl.
  eexists. split; [done|]. auto with geth.
Qed.
Lemma code_ok_input m : wf_machine m → code_ok (Input (contract m)).
Proof. intros W. apply W. Qed.
Lemma code_ok_code m : wf_machine m → code_ok (Code (contract m)).
Proof. intros W. apply W. Qed.

Lemma opCallDataLoad_ok : exec_ok opCallDataLoad 1 any.
Proof.
  vm_start. apply wp_bind, wp_gets. vm_pop.
  destruct (getDataBig_ok (Input (contract m)) a 32) as (d & Hd & Hb); [by apply code_ok_input|done..|].
  apply wp_bind. eapply wp_lift; [exact Hd|]. vm_push. auto.
Qed.
Lemma opMstore_ok : exec_ok opMstore 2 (mreq memoryMStore).
Proof.
  vm_start. destruct Hreq as (v & Hv & Hle). vm_pop. vm_pop.
  unfold memoryMStore, Back in Hv. rewrite Hs in Hv. simpl in Hv. injection Hv as <-.
  pose proof (J_mem_wf _ _ _ _ HJ1) as Hw.
  destruct (covers_cases (mem m1) a 32) as [?|(_&_&Hin&_&_&Hu&_)];
    [done|done|done|unfold covers; by rewrite Hm0, Hm|done|].
  apply wp_bind. eapply wp_mwrite; [done|rewrite Hu; by apply Memory_Set32_ok| |].
  - destruct Hw as [Hb Hz], Hin as (?&?&?&?). split; simpl; [apply is_bytes_copy_into; auto with geth|].
    unfold zlen in *. rewrite length_copy_into by (unfold zlen; lia). done.
  - intros. by eapply wp_done.
Qed.
Lemma opMstore8_ok : exec_ok opMstore8 2 (mreq memoryMStore8).
Proof.
  vm_start. destruct Hreq as (v & Hv & Hle). vm_pop. vm_pop.
  unfold memoryMStore8, Back in Hv. rewrite Hs in Hv. simpl in Hv. injection Hv as <-.
  pose proof (J_mem_wf _ _ _ _ HJ1) as Hw.
  destruct (covers_cases (mem m1) a 1) as [?|(_&Hlt&Hin&Hi&_)];
    [done|done|done|unfold covers; by rewrite Hm0, Hm|done|].
  apply wp_bind. eapply (wp_mwrite _ (mkMemory (<[Z.to_nat a := Z.land (Big.Int64 a0) 255]> (store (mem m1)))
    (lastGasCost (mem m1)))); [done| | |].
  - unfold store_byte. rewrite Hi. destruct (Z.leb_spec 0 a); [|lia].
    destruct (Z.ltb_spec a (zlen (store (mem m1)))); [done|lia].
  - destruct Hw as [Hb Hz]. split; simpl.
    + apply Forall_insert; [done|]. change 255 with (Z.ones 8). rewrite Z.land_ones by lia.
      apply Z.mod_pos_bound. lia.
    + unfold zlen in *. by rewrite length_insert.
  - intros. by eapply wp_done.
Qed.

(** Copying [data] to memory. *)
Lemma wp_copy data m0 k memOffset dataOffset len m :
  J m0 0 k m → code_ok data → 0 ≤ memOffset → 0 ≤ dataOffset → 0 ≤ len → covers (mem m) memOffset len →
  wp (d ← lift (getDataBig data dataOffset len);
      mwrite (λ m, Memory_Set m (Big.Uint64 memOffset) (Big.Uint64 len) d);; done_nil)
    (λ res m', J m0 0 0 m' ∧ code_ok res) (λ _ m', J m0 0 0 m') m.
Proof.
  intros HJ Hd Ho1 Ho2 Hl Hc. destruct (getDataBig_ok data dataOffset len Hd Ho2 Hl) as (d & Hg & Hb).
  apply wp_bind. eapply wp_lift; [exact Hg|].
  destruct (Memory_Set_covers (mem m) memOffset len d) as (mm & Hset & Hw);
    [by eapply J_mem_wf|done..|].
  apply wp_bind. eapply wp_mwrite; [done|exact Hset|done|]. intros. by eapply wp_done.
Qed.
Lemma opCallDataCopy_ok : exec_ok opCallDataCopy 3 (mreq memoryCallDataCopy).
Proof.
  vm_start. destruct Hreq as (v & Hv & Hle). vm_pop. vm_pop. vm_pop.
  unfold memoryCallDataCopy, calcMemSize_at, Back in Hv. rewrite Hs, Hs0, Hs1 in Hv. simpl in Hv.
  injection Hv as <-. apply wp_bind, wp_gets. eapply wp_copy; try done.
  - by eapply code_ok_input, J_wf.
  - unfold covers. by rewrite Hm1, Hm0, Hm.
Qed.
Lemma opCodeCopy_ok : exec_ok opCodeCopy 3 (mreq memoryCodeCopy).
Proof.
  vm_start. destruct Hreq as (v & Hv & Hle). vm_pop. vm_pop. vm_pop.
  unfold memoryCodeCopy, calcMemSize_at, Back in Hv. rewrite Hs, Hs0, Hs1 in Hv. simpl in Hv.
  injection Hv as <-. apply wp_bind, wp_gets. eapply wp_copy; try done.
  - by eapply code_ok_code, J_wf.
  - unfold covers. by rewrite Hm1, Hm0, Hm.
Qed.
Lemma opExtCodeCopy_ok : exec_ok opExtCodeCopy 4 (mreq memoryExtCodeCopy).
Proof.
  vm_start. destruct Hreq as (v & Hv & Hle). vm_pop. vm_pop. vm_pop. vm_pop.
  unfold memoryExtCodeCopy, calcMemSize_at, Back in Hv. rewrite Hs, Hs0, Hs1, Hs2 in Hv. simpl in Hv.
  injection Hv as <-. apply wp_bind, wp_read; [vm_read|]. intros m4 G _.
  eapply wp_copy; try done; [by eapply J_gstep|apply code_range; [by eapply J_sinv|vm_range]|].
  unfold covers. by rewrite (gs_store _ _ G), Hm2, Hm1, Hm0, Hm.
Qed.
Lemma opReturnDataCopy_ok : exec_ok opReturnDataCopy 3 (mreq memoryReturnDataCopy).
Proof.
  vm_start. destruct Hreq as (v & Hv & Hle). vm_pop. vm_pop. vm_pop.
  unfold memoryReturnDataCopy, calcMemSize_at, Back in Hv. rewrite Hs, Hs0, Hs1 in Hv. simpl in Hv.
  injection Hv as <-. apply wp_bind, wp_gets, wp_bind, wp_guard.
  2: { intros _. eapply J_change; [exact HJ2|eapply J_wf; exact HJ2|done|done|apply zlen_nonneg]. }
  intros Hg. boolp.
  assert (Hu : is_u64 (a0 + a1)) by (apply Big.BitLen_gt64; [lia|apply Z.ltb_ge; lia]).
  assert (Hu0 : is_u64 a0) by (unfold is_u64 in *; lia).
  rewrite (Big.Uint64_id (a0 + a1)), (Big.Uint64_id a0) in * by done.
  set (rd := returnData (evm m2)) in *.
  apply wp_bind. eapply wp_lift; [apply slice_ok; lia|].
  destruct (Memory_Set_covers (mem m2) a a1 (take (Z.to_nat (a0 + a1 - a0)) (drop (Z.to_nat a0) rd)))
    as (mm & Hset & Hw); [by eapply J_mem_wf|done|done|unfold covers; by rewrite Hm1, Hm0, Hm| |].
  { apply is_bytes_take, is_bytes_drop. apply (wm_evm _ (J_wf _ _ _ _ HJ2)). }
  apply wp_bind. eapply wp_mwrite; [done|exact Hset|done|]. intros. by eapply wp_done.
Qed.

(** The output of a frame. *)
Lemma wp_output off len m0 x k m : J m0 x k m → 0 ≤ off → 0 ≤ len → covers (mem m) off len →
  wp (mread (λ m, GetPtr m (Big.Int64 off) (Big.Int64 len)))
    (λ res m', J m0 x 0 m' ∧ code_ok res) (λ _ m', J m0 x 0 m') m.
Proof.
  intros HJ Ho Hl Hc. destruct (Memory_Get_covers (mem m) off len) as (d & Hd & Hb & Hz);
    [by eapply J_mem_wf|done..|].
  eapply wp_mread; [exact Hd|]. split; [|split; [done|lia]].
  eapply J_change; [exact HJ|by eapply J_wf|done|done|apply zlen_nonneg].
Qed.
Lemma opReturn_ok : exec_ok opReturn 2 (mreq memoryReturn).
Proof.
  vm_start. destruct Hreq as (v & Hv & Hle). vm_pop. vm_pop.
  unfold memoryReturn, calcMemSize_at, Back in Hv. rewrite Hs, Hs0 in Hv. simpl in Hv. injection Hv as <-.
  eapply wp_output; try done. unfold covers. by rewrite Hm0, Hm.
Qed.
Lemma opRevert_ok : exec_ok opRevert 2 (mreq memoryRevert).
Proof. exact opReturn_ok. Qed.

(** ** Control flow *)

Lemma has_no_fuel d h code pos : has d h code pos ≠ OutOfFuel.
Proof.
  unfold has. destruct (_ || _); [done|].
  destruct (codeBitmap_spec code) as (bits & Hbits & _).
  assert (Hseg : ∀ b p, codeSegment b p ≠ OutOfFuel).
  { intros b p. unfold codeSegment. by destruct (_ !! _). }
  destruct (d !! h) as [m|]; [|rewrite Hbits]; simpl; (destruct (code !! _); [|done]);
    (destruct (_ =? JUMPDEST); [|done]).
  - destruct (codeSegment m _) eqn:E; try done. by apply Hseg in E.
  - destruct (codeSegment bits _) eqn:E; try done. by apply Hseg in E.
Qed.
Lemma wp_jumpdest_has pos m0 k m Q F : J m0 0 k m →
  (∀ b m', J m0 0 k m' → Q b m') → wp (jumpdest_has pos) Q F m.
Proof.
  intros HJ HQ. unfold wp, jumpdest_has.
  pose proof (has_no_fuel (jumpdests (evm m)) (CodeHash (contract m)) (Code (contract m)) pos).
  destruct (has _ _ _ _) as [[b d]|e| |]; [|by right|by right|done].
  apply HQ. pose proof (J_wf _ _ _ _ HJ) as [[W1 W2 W3] W4 W5 W6 W7 W8].
  eapply J_change; [done|split; try done; by split|by split|done|apply HJ].
Qed.
Lemma J_pc m0 x k m p : J m0 x k m → 0 ≤ p → J m0 x k (with_pc p m).
Proof.
  intros HJ Hp. pose proof (J_wf _ _ _ _ HJ) as [W1 W2 W3 W4 W5 W6].
  eapply J_change; [done|by split|done|done|apply HJ].
Qed.
Lemma J_len_0 m0 x k m : J m0 x k m → J m0 x 0 m.
Proof. intros [W G Hl]. split; [done|done|apply zlen_nonneg]. Qed.
Lemma Uint64_nonneg x : 0 ≤ Big.Uint64 x.
Proof. apply u64_range. Qed.
Lemma wp_jump_to pos m0 k m Q : J m0 0 k m →
  (∀ m', J m0 0 k m' → Q tt m') → wp (jump_to pos) Q (λ _ m', J m0 0 0 m') m.
Proof.
  intros HJ HQ. unfold jump_to. apply wp_bind. eapply wp_jumpdest_has; [done|]. intros b m1 J1.
  apply wp_bind, wp_gets, wp_bind, wp_guard.
  - intros _. apply wp_modify, HQ. apply J_pc; [done|apply Uint64_nonneg].
  - intros _. by eapply J_len_0.
Qed.
Lemma opJump_ok : exec_ok opJump 1 any.
Proof. vm_start. vm_pop. apply wp_bind. eapply wp_jump_to; [done|]. intros. by eapply wp_done. Qed.
Lemma opJumpi_ok : exec_ok opJumpi 2 any.
Proof.
  vm_start. vm_pop. vm_pop. apply wp_bind. destruct (negb _).
  - eapply wp_jump_to; [done|]. intros. by eapply wp_done.
  - apply wp_modify. eapply wp_done, J_pc; [done|]. apply u64_range.
Qed.

(** ** Instructions made for a width *)

Definition in_code (m : machine S) : Prop := pc m < zlen (Code (contract m)).
Lemma makePush_ok size n : exec_ok (makePush size n) 0 (λ m, in_code m ∧ 0 ≤ n).
Proof.
  vm_start. destruct Hreq as [Hin Hn]. pose proof (code_ok_code m W) as [Hb Hl].
  pose proof (wm_pc _ W) as Hpc. unfold in_code in Hin.
  apply wp_bind, wp_gets, wp_bind, wp_gets.
  rewrite (u64_id (pc m + 1)) by (unfold is_u64; lia). unfold int_of_u64.
  destruct (Z.ltb_spec (pc m + 1) (2 ^ 63)); [|lia].
  set (L := zlen (Code (contract m))) in *.
  set (startMin := if pc m + 1 <? L then pc m + 1 else L).
  set (endMin := if startMin + n <? L then startMin + n else L).
  assert (H1 : 0 ≤ startMin ≤ endMin ∧ endMin ≤ L).
  { unfold endMin, startMin. repeat case_match; boolp; lia. }
  apply wp_bind. eapply wp_lift; [apply slice_ok; lia|].
  apply wp_bind. eapply wp_push; [done|apply SetBytes_nonneg; auto with geth|].
  intros m1 J1 _ _ _ _. apply wp_bind, wp_modify. eapply wp_done, J_pc; [done|]. apply u64_range.
Qed.
Lemma J_stack m0 x k k' m st : J m0 x k m → Forall (λ x, 0 ≤ x) st → k' ≤ zlen st →
  J m0 x k' (with_stack st m).
Proof.
  intros HJ Hf Hk. pose proof (J_wf _ _ _ _ HJ) as [W1 W2 W3 W4 W5 W6].
  eapply J_change; [done|by split|done|done|done].
Qed.
Lemma makeDup_ok n : (1 ≤ n)%nat → exec_ok (makeDup n) (Z.of_nat n) any.
Proof.
  intros Hn. vm_start. apply wp_bind, wp_gets.
  destruct (stack_lookup (stack m) (n - 1) _ Hp) as (v & Hv & Hv0); [lia|apply W|].
  apply wp_bind. eapply wp_lift; [unfold dup; by rewrite Hv|]. apply wp_bind, wp_modify.
  eapply wp_done, J_stack; [done|apply Forall_cons; split; [done|apply W]|apply zlen_nonneg].
Qed.
Lemma makeSwap_ok n : (1 ≤ n)%nat → exec_ok (makeSwap n) (Z.of_nat n + 1) any.
Proof.
  intros Hn. vm_start. apply wp_bind, wp_gets.
  destruct (stack_lookup (stack m) n _ Hp) as (v & Hv & Hv0); [lia|apply W|].
  destruct (stack_lookup (stack m) 0 _ Hp) as (t & Ht & Ht0); [lia|apply W|].
  apply wp_bind. eapply wp_lift.
  { unfold swap. simpl. by rewrite Nat.sub_0_r, Hv, Ht. }
  apply wp_bind, wp_modify. eapply wp_done, J_stack; [done| |apply zlen_nonneg].
  apply Forall_insert; [|done]. apply Forall_insert; [apply W|done].
Qed.

Lemma wp_pop_topics n m0 k m Q F : J m0 0 k m → Z.of_nat n ≤ k →
  (∀ l m', J m0 0 (k - Z.of_nat n) m' → mem m' = mem m → Q l m') → wp (pop_topics n) Q F m.
Proof.
  revert k m Q. induction n as [|n IH]; intros k m Q HJ Hk HQ; cbn [pop_topics].
  - apply wp_ret, HQ; [|done]. by rewrite Z.sub_0_r.
  - vm_pop. apply wp_bind. eapply IH; [done|lia|]. intros l m2 J2 Hm2. apply wp_ret, HQ; [|congruence].
    by replace (k - Z.of_nat (Datatypes.S n)) with (k - 1 - Z.of_nat n) by lia.
Qed.
Lemma makeLog_ok n : exec_ok (makeLog env n) (Z.of_nat n + 2) (λ m, mreq memoryLog m ∧ writable m).
Proof.
  vm_start. destruct Hreq as [(v & Hv & Hle) Hw]. vm_pop. vm_pop.
  unfold memoryLog, Back in Hv. rewrite Hs, Hs0 in Hv. simpl in Hv. injection Hv as <-.
  apply wp_bind. eapply wp_pop_topics; [exact HJ1|lia|]. intros topics m3 J3 Hm3.
  destruct (Memory_Get_covers (mem m3) a a0) as (d & Hd & _ & _);
    [by eapply J_mem_wf|done|done|unfold covers; by rewrite Hm3, Hm0, Hm|].
  apply wp_bind. eapply wp_mread; [exact Hd|]. apply wp_bind, wp_gets, wp_bind, wp_write; [by eapply J_writable|apply so_log|].
  intros m4 G. by eapply wp_done, J_gstep.
Qed.

End Instr.
