(* ===== verification/VmPrecompiles.v ===== *)
(** * Precompiled contracts return

    Every precompiled contract, given the gas it asks for, returns a byte
    string or a Go error; only the modular exponentiation can panic, and not
    when its fee is at most [2^62]. *)

From S2P Require Import Prelude BigMath Params Analysis Memory Rlp Interfaces.
From S2P Require Import Machine Gas Instructions JumpTable Precompiles Evm.
From S2P Require Import VmLaws.

Section Precompiles.
Context {CRY : Crypto} {PCR : PrecompileCrypto} {PL : PrecompileLaws}.

(** The result of a run. *)
Definition run_ok (r : vres bytes) : Prop :=
  (∃ out, r = Ok out ∧ code_ok out) ∨ ∃ e, r = Err e.

Lemma run_ok_nil : run_ok (Ok []).
Proof. left. exists []. split; [done|apply code_ok_nil]. Qed.
Lemma code_ok_short b : is_bytes b → (length b ≤ 1024)%nat → code_ok b.
Proof. intros Hb Hl. split; [done|]. unfold zlen. lia. Qed.

Lemma getData_ok data start size :
  code_ok data → 0 ≤ start → is_u64 size → Z.min start (zlen data) + size < 2 ^ 64 →
  ∃ d, getData data start size = Ok d ∧ is_bytes d ∧ zlen d ≤ Z.max size (zlen data).
Proof.
  intros [Hb Hl] Hs Hz Hw. unfold getData. pose proof (zlen_nonneg data).
  set (s := if zlen data <? start then zlen data else start).
  assert (Hse : s = Z.min start (zlen data)) by (unfold s; case_match; boolp; lia).
  rewrite (u64_id (s + size)) by (unfold is_u64 in *; lia).
  set (e := if zlen data <? s + size then _ else _).
  assert (He : e = Z.min (s + size) (zlen data)) by (unfold e; case_match; boolp; lia).
  rewrite slice_ok by (unfold is_u64 in *; lia). simpl. eexists. split; [done|].
  split; [auto with geth|]. unfold zlen in *. rewrite length_RightPadBytes, length_take, length_drop.
  unfold int_of_u64, is_u64 in *. case_match; boolp; lia.
Qed.
Lemma code_ok_after_header input : code_ok input → code_ok (after_header input).
Proof.
  intros [Hb Hl]. unfold after_header. split; [auto with geth|].
  unfold zlen in *. rewrite length_drop. lia.
Qed.

Lemma zlen_LeftPadBytes b n : zlen (LeftPadBytes b n) = Z.max (Z.of_nat n) (zlen b).
Proof. unfold zlen. rewrite length_LeftPadBytes. lia. Qed.
Lemma is_bytes_LeftPadBytes b n : is_bytes b → is_bytes (LeftPadBytes b n).
Proof.
  unfold LeftPadBytes. case_decide; [done|]. intros. apply is_bytes_app. split; [|done].
  apply is_bytes_replicate.
Qed.

Lemma ecrecover_run_ok input : run_ok (ecrecover_Run input).
Proof.
  pose proof run_ok_nil.
  unfold ecrecover_Run. destruct (_ || _); [done|]. destruct (Ecrecover _ _) as [k|] eqn:Hk; [|done].
  left. eexists. split; [done|]. split.
  - apply is_bytes_LeftPadBytes, is_bytes_drop, Keccak256_bytes.
  - rewrite zlen_LeftPadBytes. unfold zlen. rewrite length_drop, Keccak256_length. lia.
Qed.

(** ** Modular exponentiation *)

Lemma powmod_range base e m : 0 < m → 0 ≤ powmod_pos base e m < m.
Proof. intros. destruct e; simpl; by apply Z.mod_pos_bound. Qed.
Lemma Big_Exp_range base e m : 0 < m → 0 ≤ Big_Exp base e m < m.
Proof. intros. destruct e; simpl; try by apply Z.mod_pos_bound. by apply powmod_range. Qed.

Lemma complexity_lower x : 0 ≤ x → x * x / 16 ≤ bigModExp_complexity x ∧ x ≤ bigModExp_complexity x.
Proof.
  intros Hx. unfold bigModExp_complexity.
  pose proof (Z.div_mod (x * x) 16 ltac:(lia)). pose proof (Z.mod_pos_bound (x * x) 16 ltac:(lia)).
  pose proof (Z.div_mod (x * x) 4 ltac:(lia)). pose proof (Z.mod_pos_bound (x * x) 4 ltac:(lia)).
  destruct (x <=? 64) eqn:E1; boolp; [nia|]. destruct (x <=? 1024) eqn:E2; boolp; nia.
Qed.

Lemma BigMax_bounds x y : x ≤ Math.BigMax x y ∧ y ≤ Math.BigMax x y ∧ (Math.BigMax x y = x ∨ Math.BigMax x y = y).
Proof. unfold Math.BigMax. destruct (Z.ltb_spec x y); lia. Qed.

(** What a fee of at most [2^62] says of the lengths. *)
Lemma bigModExp_fee x adj g :
  0 ≤ x → g = bigModExp_complexity x * Math.BigMax adj 1 / ModExpQuadCoeffDiv → g ≤ 2 ^ 62 →
  x < 2 ^ 36 ∧ (1 ≤ x → adj ≤ 21 * 2 ^ 62).
Proof.
  intros Hx -> Hg. destruct (complexity_lower x Hx) as [Hc1 Hc2].
  set (c := bigModExp_complexity x) in *. unfold ModExpQuadCoeffDiv in Hg.
  set (a := Math.BigMax adj 1) in *.
  assert (Ha : 1 ≤ a ∧ adj ≤ a) by (pose proof (BigMax_bounds adj 1); unfold a; lia).
  pose proof (Z.div_mod (c * a) 20 ltac:(lia)). pose proof (Z.mod_pos_bound (c * a) 20 ltac:(lia)).
  assert (Hca : c * a < 21 * 2 ^ 62) by lia. split; [|nia].
  destruct (Z.lt_ge_cases x (2 ^ 36)); [done|exfalso].
  pose proof (Z.div_le_mono (2 ^ 72) (x * x) 16 ltac:(lia) ltac:(nia)) as H72.
  change (2 ^ 72 / 16) with (2 ^ 68) in H72. nia.
Qed.

Lemma SetBytes_bound b : is_bytes b → 0 ≤ Big.SetBytes b.
Proof. intros H. pose proof (be_val_bound b H). unfold Big.SetBytes. lia. Qed.

Lemma header_word input n : code_ok input → is_u64 n → n + 32 < 2 ^ 64 →
  ∃ d, getData input n 32 = Ok d ∧ 0 ≤ Big.SetBytes d.
Proof.
  intros Hi Hn Hn2. destruct (getData_ok input n 32) as (d & -> & Hb & _);
    [done|apply Hn|done|unfold is_u64 in *; lia|]. exists d. split; [done|]. by apply SetBytes_bound.
Qed.

Definition adjusted (expLen expHead : Z) : Z :=
  let bitlen := Big.BitLen expHead in
  let msb := if 0 <? bitlen then bitlen - 1 else 0 in
  (if 32 <? expLen then 8 * (expLen - 32) else 0) + msb.
Lemma adjusted_lower expLen expHead : 8 * (expLen - 32) ≤ adjusted expLen expHead.
Proof. unfold adjusted. repeat case_match; boolp; lia. Qed.

(** The fee, with its operands. *)
Lemma bigModExp_RequiredGas_spec input : code_ok input →
  ∃ d0 d1 d2 h, getData input 0 32 = Ok d0 ∧ getData input 32 32 = Ok d1 ∧ getData input 64 32 = Ok d2 ∧
    0 ≤ Big.SetBytes d0 ∧ 0 ≤ Big.SetBytes d1 ∧ 0 ≤ Big.SetBytes d2 ∧
    let gas := bigModExp_complexity (Math.BigMax (Big.SetBytes d2) (Big.SetBytes d0))
               * Math.BigMax (adjusted (Big.SetBytes d1) h) 1 / ModExpQuadCoeffDiv in
    bigModExp_RequiredGas input = Ok (if 64 <? Big.BitLen gas then MaxUint64 else Big.Uint64 gas).
Proof.
  intros Hi. unfold bigModExp_RequiredGas.
  destruct (header_word input 0) as (d0 & E0 & H0); [done..|].
  destruct (header_word input 32) as (d1 & E1 & H1); [done..|].
  destruct (header_word input 64) as (d2 & E2 & H2); [done..|].
  rewrite E0, E1, E2. cbn [res_bind].
  assert (Hh : ∃ h, (if zlen (after_header input) <=? Big.SetBytes d0 then Ok 0
     else d ←? getData (after_header input) (Big.Uint64 (Big.SetBytes d0))
                 (if 32 <? Big.SetBytes d1 then 32 else Big.Uint64 (Big.SetBytes d1));
          Ok (Big.SetBytes d)) = (Ok h : vres Z)).
  { case_match; [by eexists|]. pose proof (code_ok_after_header _ Hi) as Ha.
    set (sz := if _ <? _ then _ else _).
    assert (Hsz : 0 ≤ sz ≤ 32).
    { unfold sz. case_match; boolp; [lia|]. rewrite Big.Uint64_id by (unfold is_u64; lia). lia. }
    destruct (getData_ok (after_header input) (Big.Uint64 (Big.SetBytes d0)) sz) as (d & -> & _);
      [done|apply u64_range|unfold is_u64; lia|destruct Ha; lia|]. simpl. by eexists. }
  destruct Hh as [h Hh]. rewrite Hh. exists d0, d1, d2, h. by split_and!.
Qed.

Lemma bigModExp_run_ok input g : code_ok input →
  bigModExp_RequiredGas input = Ok g → g ≤ 2 ^ 62 → run_ok (bigModExp_Run input).
Proof.
  intros Hi Hr Hg. destruct (bigModExp_RequiredGas_spec input Hi)
    as (d0 & d1 & d2 & h & E0 & E1 & E2 & H0 & H1 & H2 & Hgas).
  rewrite Hgas in Hr. clear Hgas. injection Hr as Hr.
  unfold bigModExp_Run. rewrite E0, E1, E2. cbn [res_bind].
  set (base := Big.SetBytes d0) in *. set (ex := Big.SetBytes d1) in *. set (md := Big.SetBytes d2) in *.
  set (x := Math.BigMax md base) in *. set (gas := _ / _) in *.
  assert (Hx : md ≤ x ∧ base ≤ x ∧ (x = md ∨ x = base)).
  { pose proof (BigMax_bounds md base). unfold x. lia. }
  assert (Hgas : gas ≤ 2 ^ 62).
  { destruct (complexity_lower x) as [_ Hc]; [lia|].
    assert (0 ≤ gas).
    { apply Z.div_pos; [|done]. apply Z.mul_nonneg_nonneg; [lia|].
      pose proof (BigMax_bounds (adjusted ex h) 1). lia. }
    destruct (64 <? Big.BitLen gas) eqn:Hb; [unfold MaxUint64 in Hr; lia|].
    apply Big.BitLen_gt64 in Hb; [|done]. rewrite Big.Uint64_id in Hr by done. lia. }
  destruct (bigModExp_fee x _ gas ltac:(lia) eq_refl Hgas) as [Hx36 Hadj].
  rewrite (Big.Uint64_id base), (Big.Uint64_id md) by (unfold is_u64; lia).
  destruct (_ && _) eqn:Hz; [apply run_ok_nil|].
  assert (Hx1 : 1 ≤ x) by (destruct (base =? 0) eqn:Hb0, (md =? 0) eqn:Hm0; try done; boolp; lia).
  specialize (Hadj Hx1). pose proof (adjusted_lower ex h).
  rewrite (Big.Uint64_id ex) by (unfold is_u64; lia).
  pose proof (code_ok_after_header _ Hi) as Ha. set (inp := after_header input) in *.
  pose proof (proj2 Ha) as Hlen.
  destruct (getData_ok inp 0 base) as (b & -> & _); [done|lia|unfold is_u64; lia|lia|].
  destruct (getData_ok inp base ex) as (e & -> & _); [done|lia|unfold is_u64; lia|lia|].
  destruct (getData_ok inp (u64 (base + ex)) md) as (m & -> & Hmb & Hml);
    [done|apply u64_range|unfold is_u64; lia|lia|]. cbn [res_bind].
  assert (Hpad : int_of_u64 md = md) by (unfold int_of_u64; destruct (Z.ltb_spec md (2 ^ 63)); lia).
  rewrite Hpad. destruct (Big.BitLen _ =? 0) eqn:Hb0.
  - left. eexists. split; [done|]. split; [apply is_bytes_LeftPadBytes, is_bytes_nil|].
    rewrite zlen_LeftPadBytes. unfold zlen. simpl. lia.
  - left. eexists. split; [done|]. split; [apply is_bytes_LeftPadBytes, Big.is_bytes_Bytes|].
    rewrite zlen_LeftPadBytes. pose proof (be_val_bound m Hmb) as Hmv.
    assert (Hm0 : 0 < Big.SetBytes m).
    { unfold Big.SetBytes in *. destruct (Z.eq_dec (be_val m) 0) as [E|]; [|lia].
      by rewrite E in Hb0. }
    pose proof (Big_Exp_range (Big.SetBytes b) (Big.SetBytes e) _ Hm0) as Hr2.
    assert (Hl : (length (Big.Bytes (Big_Exp (Big.SetBytes b) (Big.SetBytes e) (Big.SetBytes m))) ≤ length m)%nat).
    { apply Big.length_Bytes_le. unfold Big.SetBytes, zlen in *. lia. }
    unfold zlen in *. lia.
Qed.

(** ** The bn256 contracts *)

Lemma Marshal_ok p : run_ok (Ok (G1_Marshal p)).
Proof.
  left. eexists. split; [done|]. apply code_ok_short; [apply G1_Marshal_bytes|]. rewrite G1_Marshal_length. lia.
Qed.
Lemma header_data input n size : code_ok input → is_u64 n → 0 ≤ size ≤ 2 ^ 40 →
  ∃ d, getData input n size = Ok d.
Proof.
  intros Hi Hn Hs. destruct (getData_ok input n size) as (d & H & _);
    [done|apply Hn|unfold is_u64; lia|destruct Hi; lia|by exists d].
Qed.
Lemma bn256Add_run_ok input : code_ok input → run_ok (bn256Add_Run input).
Proof.
  intros Hi. unfold bn256Add_Run, newCurvePoint.
  destruct (header_data input 0 64) as [d0 ->]; [done..|]. simpl.
  destruct (G1_Unmarshal d0); simpl; [|right; by eexists].
  destruct (header_data input 64 64) as [d1 ->]; [done..|]. simpl.
  destruct (G1_Unmarshal d1); simpl; [apply Marshal_ok|right; by eexists].
Qed.
Lemma bn256ScalarMul_run_ok input : code_ok input → run_ok (bn256ScalarMul_Run input).
Proof.
  intros Hi. unfold bn256ScalarMul_Run, newCurvePoint.
  destruct (header_data input 0 64) as [d0 ->]; [done..|]. simpl.
  destruct (G1_Unmarshal d0); simpl; [|right; by eexists].
  destruct (header_data input 64 32) as [d1 ->]; [done..|]. apply Marshal_ok.
Qed.
(** The chunks fit because the length is a multiple of 192. *)
Lemma pairing_points_ok fuel i input : 0 ≤ i → zlen input mod 192 = 0 → i mod 192 = 0 →
  zlen input - i ≤ Z.of_nat fuel →
  (∃ r, pairing_points fuel i input = Ok r) ∨ ∃ e, pairing_points fuel i input = Err e.
Proof.
  revert i. induction fuel as [|fuel IH]; intros i Hi Hm Him Hf; simpl.
  { destruct (Z.leb_spec (zlen input) i); [left; by eexists|lia]. }
  destruct (Z.leb_spec (zlen input) i) as [|Hlt]; [left; by eexists|].
  assert (Hle : i + 192 ≤ zlen input).
  { apply Z.mod_divide in Hm as [a Ha], Him as [b Hb]; lia. }
  rewrite (slice_ok input i) by lia. unfold newCurvePoint, newTwistPoint. simpl.
  destruct (G1_Unmarshal _); simpl; [|right; by eexists].
  rewrite slice_ok by lia. simpl. destruct (G2_Unmarshal _); simpl; [|right; by eexists].
  destruct (IH (i + 192)) as [[r ->]|[e ->]]; simpl; try lia; [|left; by eexists|right; by eexists].
  rewrite <- Z.add_mod_idemp_l by lia. by rewrite Him.
Qed.
Lemma bn256Pairing_run_ok input : run_ok (bn256Pairing_Run input).
Proof.
  unfold bn256Pairing_Run. destruct (Z.ltb_spec 0 (zlen input mod 192)); [right; by eexists|].
  pose proof (Z.mod_pos_bound (zlen input) 192 ltac:(lia)).
  destruct (pairing_points_ok (length input) 0 input) as [[r ->]|[e ->]]; try done; try lia.
  { unfold zlen. lia. }
  - left. simpl. eexists. split; [done|]. destruct (PairingCheck _ _); (apply code_ok_short; [|simpl; lia]).
    + unfold true32Byte. apply is_bytes_app. split; [apply is_bytes_replicate|].
      apply is_bytes_cons. split; [by split|apply is_bytes_nil].
    + apply is_bytes_replicate.
  - right. by eexists.
Qed.

(** ** Every precompiled contract *)

Lemma RequiredGas_ok p input : code_ok input → ∃ g, RequiredGas p input = Ok g ∧ is_u64 g.
Proof.
  intros Hi. destruct p; try (eexists; split; [done|apply u64_range || done]).
  destruct (bigModExp_RequiredGas_spec input Hi) as (d0 & d1 & d2 & h & _ & _ & _ & _ & _ & _ & Hg).
  simpl. rewrite Hg. eexists. split; [done|]. destruct (64 <? _); [done|apply u64_range].
Qed.
Lemma Precompiled_Run_ok p input g : code_ok input → RequiredGas p input = Ok g → g ≤ 2 ^ 62 →
  run_ok (Precompiled_Run p input).
Proof.
  intros Hi Hr Hg. destruct p; cbn [Precompiled_Run].
  - apply ecrecover_run_ok.
  - left. eexists. split; [done|]. apply code_ok_short; [apply sha256_bytes|rewrite sha256_length; lia].
  - left. eexists. split; [done|]. apply code_ok_short; [apply is_bytes_LeftPadBytes, ripemd160_bytes|].
    rewrite length_LeftPadBytes, ripemd160_length. lia.
  - left. by eexists.
  - by eapply bigModExp_run_ok.
  - by apply bn256Add_run_ok.
  - by apply bn256ScalarMul_run_ok.
  - apply bn256Pairing_run_ok.
Qed.

End Precompiles.
