(* ===== verification/VmCalls.v ===== *)
(** * The call and create instructions

    Given what the calls promise ([calls_ok]), the six instructions keep the
    machine well-formed, and give back at most the gas they handed over. *)

From S2P Require Import Prelude BigMath Params Analysis Memory Rlp Interfaces.
From S2P Require Import Machine Gas Instructions JumpTable Precompiles Evm.
From S2P Require Import VmLaws VmGas VmRules VmInstr VmPrecompiles.

Section Calls.
Context {S : Type} `{!VMState S} `{!VMStateLaws S} {FK : Forks} {CRY : Crypto}.
Variable env : Env S.

(** ** What a call promises

    Only the [evmst] changes; the gas left is at most the gas given; the
    output is a byte string. *)
Definition call_post (gas : Z) (m : machine S) (r : call_result) (m' : machine S) : Prop :=
  ∃ v', m' = with_evm v' m ∧ keeps (evm m) v' ∧ 0 ≤ r.1.2 ≤ gas ∧ code_ok r.1.1.
Definition create_post (gas : Z) (m : machine S) (r : create_result) (m' : machine S) : Prop :=
  ∃ v', m' = with_evm v' m ∧ keeps (evm m) v' ∧ 0 ≤ r.1.2 ≤ gas ∧ code_ok r.1.1.1 ∧ 0 ≤ r.1.1.2.
Definition no_error : vmerror → machine S → Prop := λ _ _, False.

(** The calls that have less than [n] gas to spend. *)
Record calls_ok (n : Z) (calls : Calls_of S) : Prop := {
  co_call c addr input gas value m : wf_contract c → wf_machine m → code_ok input → is_addr addr →
    0 ≤ gas < n → gas < 2 ^ 62 → 0 ≤ value → writable m ∨ value = 0 →
    wp (evm_Call calls c addr input gas value) (call_post gas m) no_error m;
  co_callcode c addr input gas value m : wf_contract c → wf_machine m → code_ok input → is_addr addr →
    0 ≤ gas < n → gas < 2 ^ 62 → 0 ≤ value →
    wp (evm_CallCode calls c addr input gas value) (call_post gas m) no_error m;
  co_delegatecall c addr input gas m : wf_contract c → wf_machine m → code_ok input → is_addr addr →
    0 ≤ gas < n → gas < 2 ^ 62 →
    wp (evm_DelegateCall calls c addr input gas) (call_post gas m) no_error m;
  co_staticcall c addr input gas m : wf_contract c → wf_machine m → code_ok input → is_addr addr →
    0 ≤ gas < n → gas < 2 ^ 62 →
    wp (evm_StaticCall calls c addr input gas) (call_post gas m) no_error m;
  co_create c code gas value m : wf_contract c → wf_machine m → code_ok code →
    0 ≤ gas < n → gas < 2 ^ 62 → 0 ≤ value → writable m →
    wp (evm_Create calls c code gas value) (create_post gas m) no_error m;
  co_create2 c code gas value salt m : wf_contract c → wf_machine m → code_ok code →
    0 ≤ gas < n → gas < 2 ^ 62 → 0 ≤ value → writable m →
    wp (evm_Create2 calls c code gas value salt) (create_post gas m) no_error m;
}.

(** ** Gas that comes back *)

Lemma J_mono m0 x y k m : x ≤ y → J m0 x k m → J m0 y 0 m.
Proof.
  intros Hxy [W [H1 H2 H3] Hl]. split; [done|split; try done; lia|apply zlen_nonneg].
Qed.
Lemma J_evm m0 x k m v' : J m0 x k m → keeps (evm m) v' → J m0 x k (with_evm v' m).
Proof.
  intros HJ Hk. pose proof (J_wf _ _ _ _ HJ) as [W1 W2 W3 W4 W5 W6].
  eapply J_change; [done|split; try done; by eapply wf_keeps|done|done|apply HJ].
Qed.
Lemma J_set_gas m0 x k m y : J m0 x k m → 0 ≤ Gas (contract m) + y < 2 ^ 62 →
  J m0 (x + y) k (with_contract (set_Gas (Gas (contract m) + y) (contract m)) m).
Proof.
  intros [[W1 W2 W3 W4 W5 []] [H1 H2 H3] Hl] Hy. split; [by split; try by split| |done].
  split; simpl; [done| |lia]. rewrite H2. by destruct (contract m).
Qed.
Lemma wp_returnGas g m0 x k m Q F : J m0 x k m → 0 ≤ g → Gas (contract m) + g < 2 ^ 62 →
  (∀ m', J m0 (x + g) k m' → Q tt m') → wp (returnGas g) Q F m.
Proof.
  intros HJ Hg Hb HQ. pose proof (wc_gas _ (wm_contract _ (J_wf _ _ _ _ HJ))).
  apply wp_modify. rewrite u64_id by (unfold is_u64; lia). apply HQ, J_set_gas; [done|lia].
Qed.
Lemma wp_useGas g m0 x k m Q F : J m0 x k m → 0 ≤ g ≤ Gas (contract m) →
  (∀ m', J m0 (x - g) k m' → mem m' = mem m → evm m' = evm m → Q tt m') → wp (useGas g) Q F m.
Proof.
  intros HJ Hg HQ. pose proof (wc_gas _ (wm_contract _ (J_wf _ _ _ _ HJ))).
  apply wp_modify. unfold UseGas. destruct (Z.ltb_spec (Gas (contract m)) g); [lia|].
  apply HQ; [|done..]. apply (J_set_gas m0 x k m (- g)); [done|lia].
Qed.

(** ** The end of a call instruction *)

Lemma wp_after_call retOffset retSize r m0 k m b :
  J m0 0 k m → 0 ≤ retOffset → 0 ≤ retSize → covers (mem m) retOffset retSize →
  code_ok r.1.1 → 0 ≤ r.1.2 ≤ b → Gas (contract m0) + b < 2 ^ 62 →
  wp (after_call retOffset retSize r) (λ res m', J m0 b 0 m' ∧ code_ok res) (λ _ m', J m0 b 0 m') m.
Proof.
  destruct r as [[o g] err]. simpl. intros HJ Ho Hs Hc Hout Hg Hb.
  apply wp_bind. eapply wp_push; [done|by destruct (bool_decide _)|]. intros m1 J1 _ Hm1 _ _.
  assert (Hend : ∀ m2, J m0 0 (k + 1) m2 → wp (returnGas g;; mret o)
    (λ res m', J m0 b 0 m' ∧ code_ok res) (λ _ m', J m0 b 0 m') m2).
  { intros m2 J2. pose proof (xs_gas _ _ _ (J_step _ _ _ _ J2)). apply wp_bind.
    eapply wp_returnGas; [exact J2|lia|lia|]. intros m3 J3. apply wp_ret.
    split; [|done]. eapply J_mono; [|exact J3]. lia. }
  apply wp_bind. destruct (_ || _); [|by apply wp_ret, Hend].
  destruct (Memory_Set_covers (mem m1) retOffset retSize o) as (mm & Hset & Hw);
    [by eapply J_mem_wf|done|done|unfold covers; by rewrite Hm1|apply Hout|].
  eapply wp_mwrite; [exact J1|exact Hset|done|]. intros m2 J2 _ _ _ _. by apply Hend.
Qed.

(** ** The instructions *)

Definition handed (with_value : bool) (m : machine S) : Z :=
  callGasTemp (evm m) + (if with_value then stipend m else 0).
(** A frame that may write, or a call without value. *)
Definition allowed (m : machine S) : Prop := writable m ∨ ∀ v, stack m !! 2%nat = Some v → v = 0.
Definition call_exec_ok (n : Z) (w : bool) (ex : M S bytes) (pops : Z) (mf : Stack → vres Z) (with_value : bool) : Prop :=
  ∀ m, wf_machine m → pops ≤ zlen (stack m) → mreq mf m → (w = true → allowed m) →
  handed with_value m < n → Gas (contract m) + handed with_value m < 2 ^ 62 →
  wp ex (λ res m', J m (handed with_value m) 0 m' ∧ code_ok res)
        (λ _ m', J m (handed with_value m) 0 m') m.

Variable n : Z.
Variable calls : Calls_of S.
Hypothesis HC : calls_ok n calls.

Lemma max_covers mm x y v : v = Math.BigMax x y → v ≤ zlen (store mm) →
  x ≤ zlen (store mm) ∧ y ≤ zlen (store mm).
Proof. pose proof (BigMax_bounds x y). lia. Qed.

(** The gas of a call with value. *)
Lemma with_stipend t v st : is_u64 t → t + st < 2 ^ 62 → 0 ≤ v →
  st = (if Big.Sign v =? 0 then 0 else CallStipend) →
  let g := if negb (Big.Sign (Math.U256 v) =? 0) then u64 (t + CallStipend) else t in
  0 ≤ g ≤ t + st.
Proof.
  intros Ht Hb Hv ->. simpl. destruct (Big.Sign v =? 0) eqn:E.
  - unfold Big.Sign in *. boolp. assert (v = 0) as -> by lia. simpl. unfold is_u64 in *. lia.
  - unfold CallStipend in *. destruct (negb _); [rewrite u64_id|]; unfold is_u64 in *; lia.
Qed.

(** After the arguments are read: the call, and what follows. *)
Lemma wp_call_then (x : M S call_result) m0 k m gas b ro rs :
  J m0 0 k m → wp x (call_post gas m) no_error m → gas ≤ b →
  0 ≤ ro → 0 ≤ rs → covers (mem m) ro rs → Gas (contract m0) + b < 2 ^ 62 →
  wp (r ← x; after_call ro rs r) (λ res m', J m0 b 0 m' ∧ code_ok res) (λ _ m', J m0 b 0 m') m.
Proof.
  intros HJ Hx Hg Ho Hs Hc Hb. apply wp_bind. eapply wp_mono; [exact Hx| |done].
  intros r m' (v' & -> & Hk & Hr & Ho2). simpl.
  eapply wp_after_call; [by eapply J_evm|done|done|done|done|lia|done].
Qed.

(** The four operands in memory, of calls with and without a value. *)
Lemma call_covers i j k l (m : machine S) io iz ro rs :
  mreq (λ st, x ←? calcMemSize_at i j st; y ←? calcMemSize_at k l st; Ok (Math.BigMax x y)) m →
  stack m !! i = Some ro → stack m !! j = Some rs → stack m !! k = Some io → stack m !! l = Some iz →
  covers (mem m) io iz ∧ covers (mem m) ro rs.
Proof.
  intros (v & Hv & Hle) H1 H2 H3 H4. unfold calcMemSize_at, Back in Hv.
  rewrite H1, H2, H3, H4 in Hv. simpl in Hv. injection Hv as Hv.
  destruct (max_covers (mem m) _ _ v (eq_sym Hv) Hle) as [Hc1 Hc2]. by split.
Qed.

Ltac call_stack :=
  repeat match goal with H : stack ?m = _ :: stack _ |- context [stack ?m] => rewrite H end; reflexivity.
Ltac call_mem := repeat match goal with H : mem ?m = mem _ |- context [mem ?m] => rewrite H end.

Lemma value_call_ok (w : bool) (f : Contract → Z → bytes → Z → Z → M S call_result) :
  (∀ c addr input gas value m, wf_contract c → wf_machine m → code_ok input → is_addr addr →
    0 ≤ gas < n → gas < 2 ^ 62 → 0 ≤ value → (w = true → writable m ∨ value = 0) →
    wp (f c addr input gas value) (call_post gas m) no_error m) →
  call_exec_ok n w
    (vpop;; v ← gets evm;
     let gas := callGasTemp v in
     addr ← vpop; value ← vpop; inOffset ← vpop; inSize ← vpop; retOffset ← vpop; retSize ← vpop;
     let value := Math.U256 value in
     args ← mread (λ m, Memory_Get m (Big.Int64 inOffset) (Big.Int64 inSize));
     let gas := if negb (Big.Sign value =? 0) then u64 (gas + CallStipend) else gas in
     c ← gets contract;
     r ← f c (BigToAddress addr) args gas value;
     after_call retOffset retSize r) 7 memoryCall true.
Proof.
  intros Hf m W Hp Hreq Hw Hn Hb. pose proof (J_start m _ W Hp) as HJ0. unfold handed in *.
  vm_pop. apply wp_bind, wp_gets. vm_pop. vm_pop. vm_pop. vm_pop. vm_pop. vm_pop.
  destruct (call_covers 5 6 3 4 m a2 a3 a4 a5 Hreq) as [Hin Hret]; [call_stack..|].
  destruct (Memory_Get_covers (mem m6) a2 a3) as (d & Hd & Hdb & Hdl);
    [by eapply J_mem_wf|done|done|by call_mem|].
  apply wp_bind. eapply wp_mread; [exact Hd|]. apply wp_bind, wp_gets.
  pose proof (wv_temp _ (wm_evm _ W)) as Ht. rewrite He.
  destruct (with_stipend (callGasTemp (evm m)) a1 (stipend m)) as [G1 G2];
    [done|pose proof (wc_gas _ (wm_contract _ W)); lia|done|apply stipend_cases; call_stack|].
  pose proof (wc_gas _ (wm_contract _ W)).
  eapply wp_call_then; [done| |exact G2|done|done|by call_mem|done].
  apply Hf; try lia; [eapply wm_contract, J_wf; done|by eapply J_wf|split; [done|lia]| | |].
  - apply BigToAddress_range.
  - apply Math.U256_range.
  - intros Hw'. destruct (Hw Hw') as [Hwr|Hz]; [left; by eapply J_writable|right].
    rewrite (Hz a1) by call_stack. done.
Qed.
Lemma opCall_ok : call_exec_ok n true (opCall calls) 7 memoryCall true.
Proof. apply (value_call_ok true (evm_Call calls)). intros. apply HC; auto. Qed.
Lemma opCallCode_ok : call_exec_ok n false (opCallCode calls) 7 memoryCall true.
Proof. apply (value_call_ok false (evm_CallCode calls)). intros. by apply HC. Qed.

Lemma plain_call_ok (f : Contract → Z → bytes → Z → M S call_result) :
  (∀ c addr input gas m, wf_contract c → wf_machine m → code_ok input → is_addr addr →
    0 ≤ gas < n → gas < 2 ^ 62 → wp (f c addr input gas) (call_post gas m) no_error m) →
  call_exec_ok n false
    (vpop;; v ← gets evm;
     let gas := callGasTemp v in
     addr ← vpop; inOffset ← vpop; inSize ← vpop; retOffset ← vpop; retSize ← vpop;
     args ← mread (λ m, Memory_Get m (Big.Int64 inOffset) (Big.Int64 inSize));
     c ← gets contract;
     r ← f c (BigToAddress addr) args gas;
     after_call retOffset retSize r) 6 memoryDelegateCall false.
Proof.
  intros Hf m W Hp Hreq _ Hn Hb. pose proof (J_start m _ W Hp) as HJ0. unfold handed in *.
  vm_pop. apply wp_bind, wp_gets. vm_pop. vm_pop. vm_pop. vm_pop. vm_pop.
  destruct (call_covers 4 5 2 3 m a1 a2 a3 a4 Hreq) as [Hin Hret]; [call_stack..|].
  destruct (Memory_Get_covers (mem m5) a1 a2) as (d & Hd & Hdb & Hdl);
    [by eapply J_mem_wf|done|done|by call_mem|].
  apply wp_bind. eapply wp_mread; [exact Hd|]. apply wp_bind, wp_gets.
  pose proof (wv_temp _ (wm_evm _ W)) as Ht. rewrite He.
  pose proof (wc_gas _ (wm_contract _ W)).
  eapply (wp_call_then _ _ _ _ (callGasTemp (evm m))); [done| |lia|done|done|by call_mem|lia].
  apply Hf; [eapply wm_contract, J_wf; done|by eapply J_wf|split; [done|lia]| |unfold is_u64 in *; lia|lia].
  apply BigToAddress_range.
Qed.
Lemma opDelegateCall_ok : call_exec_ok n false (opDelegateCall calls) 6 memoryDelegateCall false.
Proof. apply (plain_call_ok (evm_DelegateCall calls)). apply HC. Qed.
Lemma opStaticCall_ok : call_exec_ok n false (opStaticCall calls) 6 memoryStaticCall false.
Proof. apply (plain_call_ok (evm_StaticCall calls)). apply HC. Qed.

(** After the gas is taken: the creation, and what follows. *)
Lemma wp_create_then (x : M S create_result) (push : option vmerror → Z → M S unit) m0 k m gas :
  J m0 (- gas) k m → wp x (create_post gas m) no_error m → Gas (contract m0) < 2 ^ 62 →
  (∀ e a, 0 ≤ a → ∃ b, push e a = vpush b ∧ 0 ≤ b) →
  wp ('(res, addr, g, suberr) ← x; push suberr addr;; returnGas g;;
      mret (if bool_decide (suberr = Some errExecutionReverted) then res else []))
    (λ res m', J m0 0 0 m' ∧ code_ok res) (λ _ m', J m0 0 0 m') m.
Proof.
  intros HJ Hx Hb Hf. apply wp_bind. eapply wp_mono; [exact Hx| |done].
  intros [[[o a] g] e] m' (v' & -> & Hk & Hr & Ho & Ha). simpl in *.
  destruct (Hf e a Ha) as (b & -> & Hb0).
  apply wp_bind. eapply wp_push; [by eapply J_evm|done|]. intros m1 J1 _ _ _ Hc.
  pose proof (xs_gas _ _ _ (J_step _ _ _ _ J1)).
  apply wp_bind. eapply wp_returnGas; [exact J1|lia|lia|]. intros m2 J2. apply wp_ret.
  split; [eapply J_mono; [|exact J2]; lia|]. destruct (bool_decide _); [done|apply code_ok_nil].
Qed.
Lemma sixty_fourth g : 0 ≤ g → 0 ≤ g - g / 64 ≤ g.
Proof.
  intros. pose proof (Z.div_pos g 64). pose proof (Z.div_le_upper_bound g 64 g). lia.
Qed.

Definition plain_exec_ok (ex : M S bytes) (pops : Z) (mf : Stack → vres Z) : Prop :=
  ∀ m, wf_machine m → pops ≤ zlen (stack m) → mreq mf m → writable m → Gas (contract m) < n →
  wp ex (λ res m', J m 0 0 m' ∧ code_ok res) (λ _ m', J m 0 0 m') m.

Lemma opCreate_ok : plain_exec_ok (opCreate env calls) 3 memoryCreate.
Proof.
  intros m W Hp (v & Hv & Hle) Hw Hn. pose proof (J_start m _ W Hp) as HJ0.
  unfold opCreate. vm_pop. vm_pop. vm_pop.
  unfold memoryCreate, calcMemSize_at, Back in Hv. rewrite Hs, Hs0, Hs1 in Hv. simpl in Hv. injection Hv as <-.
  destruct (Memory_Get_covers (mem m2) a0 a1) as (d & Hd & Hdb & Hdl);
    [by eapply J_mem_wf|done|done|unfold covers; by call_mem|].
  apply wp_bind. eapply wp_mread; [exact Hd|]. apply wp_bind, wp_gets.
  pose proof (wc_gas _ (wm_contract _ W)) as Hg. assert (Hc' : contract m2 = contract m) by congruence.
  rewrite Hc'. set (gas := if IsEIP150 _ _ then _ else _).
  assert (Hgas : 0 ≤ gas ≤ Gas (contract m)).
  { unfold gas. pose proof (sixty_fourth (Gas (contract m))). destruct (IsEIP150 _ _); lia. }
  apply wp_bind. eapply wp_useGas; [exact HJ2|by rewrite Hc'|]. intros m3 J3 _ _.
  apply wp_bind, wp_gets. eapply (wp_create_then _ (λ suberr addr,
    if IsHomestead (chainConfig env) (BlockNumber env) && bool_decide (suberr = Some ErrCodeStoreOutOfGas)
    then vpush 0
    else if negb (bool_decide (suberr = None)) && negb (bool_decide (suberr = Some ErrCodeStoreOutOfGas))
    then vpush 0 else vpush addr)).
  - exact J3.
  - apply HC; try lia; [by eapply wm_contract, J_wf|by eapply J_wf|split; [done|lia]|by eapply J_writable].
  - apply Hg.
  - intros e b Hb. destruct (_ && _); [by exists 0|]. destruct (_ && _); [by exists 0|by exists b].
Qed.
Lemma opCreate2_ok : plain_exec_ok (opCreate2 calls) 4 memoryCreate2.
Proof.
  intros m W Hp (v & Hv & Hle) Hw Hn. pose proof (J_start m _ W Hp) as HJ0.
  unfold opCreate2. vm_pop. vm_pop. vm_pop. vm_pop.
  unfold memoryCreate2, calcMemSize_at, Back in Hv. rewrite Hs, Hs0, Hs1 in Hv. simpl in Hv. injection Hv as <-.
  destruct (Memory_Get_covers (mem m3) a0 a1) as (d & Hd & Hdb & Hdl);
    [by eapply J_mem_wf|done|done|unfold covers; by call_mem|].
  apply wp_bind. eapply wp_mread; [exact Hd|]. apply wp_bind, wp_gets.
  pose proof (wc_gas _ (wm_contract _ W)) as Hg. assert (Hc' : contract m3 = contract m) by congruence.
  rewrite Hc'. set (gas := _ - _). pose proof (sixty_fourth (Gas (contract m))).
  apply wp_bind. eapply wp_useGas; [exact HJ3|rewrite Hc'; lia|]. intros m4 J4 _ _.
  apply wp_bind, wp_gets. eapply (wp_create_then _ (λ suberr addr, if bool_decide (suberr = None) then vpush addr else vpush 0)).
  - exact J4.
  - apply HC; try lia; [by eapply wm_contract, J_wf|by eapply J_wf|split; [done|lia]|by eapply J_writable].
  - apply Hg.
  - intros e b Hb. destruct (bool_decide _); [by exists b|by exists 0].
Qed.

End Calls.
