(* ===== verification/VmTable.v ===== *)
(** * The instruction tables

    Every entry of every fork's table: the validation accepts only stacks
    with the operands that the other functions use, and one turn of the loop
    charges at least one unit of gas unless the instruction ends the frame. *)

From S2P Require Import Prelude BigMath Params Analysis Memory Rlp Interfaces.
From S2P Require Import Machine Gas Instructions JumpTable Precompiles Evm.
From S2P Require Import VmLaws VmGas VmRules VmInstr VmPrecompiles VmCalls.

Create HintDb vm_ok.

Section Table.
Context {S : Type} `{!VMState S} `{!VMStateLaws S} {FK : Forks} {CRY : Crypto}.
Variable env : Env S.
Context `{!EnvLaws env}.

(** What a turn of the loop leaves: at least [d] gas is gone. *)
Record frame_step (d : Z) (m m' : machine S) : Prop := {
  fs_wf : wf_machine m';
  fs_keeps : keeps (evm m) (evm m');
  fs_contract : contract m' = set_Gas (Gas (contract m')) (contract m);
  fs_gas : Gas (contract m') ≤ Gas (contract m) - d;
}.

Definition runs (o : @operation S) (m : machine S) (ms d : Z) : Prop :=
  wp (cost ← gas_cost env o ms; charge cost;;
      (if 0 <? ms then modify (λ m, with_mem (Resize (mem m) ms) m) else mret tt);;
      execute o)
    (λ res m', frame_step d m m' ∧ code_ok res) (λ _ m', frame_step 0 m m') m.

(** The memory size of a turn. *)
Definition sized (o : @operation S) (m : machine S) (ms : Z) : Prop :=
  is_u64 ms ∧
  match memorySize o with
  | Some f => ∃ v, f (stack m) = Ok v ∧ v ≤ ms
  | None => ms = 0
  end.

(** What the read-only rule leaves: a writing instruction only where the frame
    may write, and there alone a call with value. *)
Definition permitted (o : Z) (op : @operation S) (m : machine S) : Prop :=
  (writes op = true → writable m) ∧ (o = CALL → allowed m).

Record entry_ok (n : Z) (o : Z) (op : @operation S) : Prop := {
  en_validate st : validateStack op st = Ok tt ∨ ∃ e, validateStack op st = Err e;
  en_memory st f : validateStack op st = Ok tt → Forall (λ x, 0 ≤ x) st → memorySize op = Some f →
    ∃ v, f st = Ok v ∧ 0 ≤ v;
  en_runs m ms : wf_machine m → validateStack op (stack m) = Ok tt → sized op m ms →
    GetOp (contract m) (pc m) = o → Gas (contract m) ≤ n → permitted o op m →
    runs op m ms (if halts op || reverts op then 0 else 1);
}.

(** ** One turn, once the gas function has run *)

(** The machine on which [execute] runs. *)
Record charged (c ms : Z) (m m' : machine S) : Prop := {
  ch_wf : wf_machine m';
  ch_keeps : keeps (evm m) (evm m');
  ch_stack : stack m' = stack m;
  ch_pc : pc m' = pc m;
  ch_contract : contract m' = set_Gas (Gas (contract m) - c) (contract m);
  ch_mem : ms ≤ zlen (store (mem m'));
}.
Lemma charged_writable c ms m m1 : charged c ms m m1 → writable m → writable m1.
Proof. intros HC. unfold writable. by rewrite (static_keeps _ _ (ch_keeps _ _ _ _ HC)). Qed.
Lemma J_frame_step c ms m m1 m' x : charged c ms m m1 → 0 ≤ c → x ≤ c → J m1 x 0 m' →
  frame_step (c - x) m m'.
Proof.
  intros [C1 C2 C3 C4 C5 C6] Hc Hx [W [H1 H2 H3] _]. rewrite C5 in H2, H3. simpl in *.
  split; [done|by etrans|by rewrite H2|lia].
Qed.

Lemma frame_step_mono d d' m m' : d' ≤ d → frame_step d m m' → frame_step d' m m'.
Proof. intros Hd [F1 F2 F3 F4]. split; try done. lia. Qed.
Lemma gstep_frame_step m m' : wf_machine m → gstep m m' → frame_step 0 m m'.
Proof.
  intros W G. split; [by eapply gstep_wf|apply G| |].
  - rewrite (gs_contract _ _ G). by rewrite set_Gas_id.
  - rewrite (gs_contract _ _ G). lia.
Qed.

Lemma wp_turn (o : @operation S) m ms d (P : Z → machine S → Prop) :
  wf_machine m → is_u64 ms →
  wp (gasCost o (gt0 env) ms) (λ c m', gstep m m' ∧ is_u64 c ∧ (0 < ms → ms ≤ 2 ^ 40) ∧ P c m')
     (λ _ m', gstep m m') m →
  (∀ c m0 m1, is_u64 c → gstep m m0 → P c m0 → c ≤ Gas (contract m) → charged c ms m m1 → evm m1 = evm m0 →
    wp (execute o) (λ res m', frame_step d m m' ∧ code_ok res) (λ _ m', frame_step 0 m m') m1) →
  runs o m ms d.
Proof.
  intros W Hu Hg Hx. unfold runs. apply wp_bind.
  assert (Hgc : wp (gas_cost env o ms) (λ c m', gstep m m' ∧ is_u64 c ∧ (0 < ms → ms ≤ 2 ^ 40) ∧ P c m')
     (λ _ m', gstep m m') m).
  { unfold wp, gas_cost in *. fold (gt0 env). by destruct (gasCost _ _ _ _). }
  eapply wp_mono; [exact Hgc| |intros; by apply gstep_frame_step].
  intros c m0 (G & Hc & Hms & HP). simpl. pose proof (gstep_wf _ _ W G) as [W1 W2 W3 W4 W5 W6].
  apply wp_bind. unfold charge, UseGas, wp at 1.
  destruct (Z.ltb_spec (Gas (contract m0)) c); [by apply gstep_frame_step|].
  destruct G as [G1 G2 G3 G4 G5]. rewrite G5 in *.
  assert (Wc : wf_contract (set_Gas (Gas (contract m) - c) (contract m))).
  { unfold is_u64 in *. destruct W6. split; try done. simpl. lia. }
  apply wp_bind. destruct (Z.ltb_spec 0 ms) as [Hp|Hp].
  - apply wp_modify. eapply Hx; [done|by split|done|done| |done]. split; try done; simpl.
    + split; simpl; try done.
      * unfold Resize. destruct (_ <? _); simpl; [|done]. apply is_bytes_app. split; [done|apply is_bytes_replicate].
      * rewrite length_Resize by lia. specialize (Hms Hp). lia.
    + rewrite length_Resize by lia. lia.
  - apply wp_ret. eapply Hx; [done|by split|done|done| |done]. split; try done; simpl.
    pose proof (zlen_nonneg (store (mem m0))). lia.
Qed.

(** ** The kinds of entries *)

Lemma makeStackFunc_total pops push st :
  makeStackFunc pops push st = Ok tt ∨ ∃ e, makeStackFunc pops push st = Err e.
Proof.
  unfold makeStackFunc, require. destruct (_ <? _); simpl; [right; by eexists|].
  destruct (_ <? _); [right; by eexists|by left].
Qed.

Section Kinds.
Variables (n o : Z) (op : @operation S) (pops push gp lo : Z).
Hypothesis Hval : validateStack op = makeStackFunc pops push.
Hypothesis Hgp : gp ≤ pops.

Lemma validated st : validateStack op st = Ok tt → pops ≤ zlen st.
Proof. rewrite Hval. intros [H _]%makeStackFunc_ok. done. Qed.

(** From what [execute] guarantees to the entry. *)
Lemma plain_body m ms c m1 : is_u64 c → lo ≤ c → 0 ≤ lo → halts op || reverts op = true ∨ 1 ≤ lo →
  charged c ms m m1 →
  wp (execute op) (λ res m', J m1 0 0 m' ∧ code_ok res) (λ _ m', J m1 0 0 m') m1 →
  wp (execute op) (λ res m', frame_step (if halts op || reverts op then 0 else 1) m m' ∧ code_ok res)
     (λ _ m', frame_step 0 m m') m1.
Proof.
  intros Hc Hlo Hlo0 Hh HC Hx. eapply wp_mono; [exact Hx| |].
  - intros res m' [HJ Hb]. split; [|done]. pose proof (J_frame_step _ _ _ _ _ _ HC (proj1 Hc) (proj1 Hc) HJ).
    eapply frame_step_mono; [|done]. destruct (halts op || reverts op); [|destruct Hh as [?|?]; [done|]]; lia.
  - intros e m' HJ. pose proof (J_frame_step _ _ _ _ _ _ HC (proj1 Hc) (proj1 Hc) HJ).
    eapply frame_step_mono; [|done]. lia.
Qed.

Lemma plain_entry req :
  memorySize op = None → gas_ok_if env (writes op) (gasCost op) gp lo false → exec_ok (execute op) pops req →
  (∀ m, wf_machine m → GetOp (contract m) (pc m) = o → (writes op = true → writable m) → req m) →
  0 ≤ lo → halts op || reverts op = true ∨ 1 ≤ lo → entry_ok n o op.
Proof.
  intros Hmem Hg Hx Hreq Hlo Hh. split.
  - intros st. rewrite Hval. apply makeStackFunc_total.
  - by rewrite Hmem.
  - intros m ms W Hv [Hu Hs] Ho _ [Hw _]. rewrite Hmem in Hs. apply validated in Hv.
    apply (wp_turn op m ms _ (λ c _, lo ≤ c)); [done|done| |].
    + eapply wp_mono; [apply Hg; [done|lia|done|done]| |done]. intros c m' (G & Hc & Hl & _).
      split_and!; try done. lia.
    + intros c m0 m1 Hc G HP _ HC _. eapply plain_body; [done|done|done|done|exact HC|].
      apply Hx; [apply HC|by rewrite (ch_stack _ _ _ _ HC)|]. apply Hreq; [apply HC| |].
      * by rewrite (ch_contract _ _ _ _ HC), (ch_pc _ _ _ _ HC).
      * intros. eapply charged_writable; [exact HC|auto].
Qed.

Lemma sized_mreq f c ms m m1 : memorySize op = Some f → sized op m ms → charged c ms m m1 → mreq f m1.
Proof.
  intros Hmem [_ Hs] HC. rewrite Hmem in Hs. destruct Hs as (v & Hv & Hle). exists v.
  rewrite (ch_stack _ _ _ _ HC). split; [done|]. pose proof (ch_mem _ _ _ _ HC). lia.
Qed.

Lemma memory_entry_ f (Hmem : memorySize op = Some f) :
  mem_ok f pops → gas_ok env (gasCost op) gp lo true →
  (∀ m, wf_machine m → pops ≤ zlen (stack m) → mreq f m → (writes op = true → writable m) →
     Gas (contract m) < n ∨ lo = 0 →
     wp (execute op) (λ res m', J m 0 0 m' ∧ code_ok res) (λ _ m', J m 0 0 m') m) →
  0 ≤ lo → halts op || reverts op = true ∨ 1 ≤ lo → entry_ok n o op.
Proof.
  intros Hf Hg Hx Hlo Hh. split.
  - intros st. rewrite Hval. apply makeStackFunc_total.
  - intros st f' Hv Hst. rewrite Hmem. intros [= <-]. apply Hf; [by apply validated|done].
  - intros m ms W Hv Hs _ Hn [Hw _]. apply validated in Hv. pose proof (proj1 Hs) as Hu.
    apply (wp_turn op m ms _ (λ c _, lo ≤ c)); [done|done| |].
    + eapply wp_mono; [apply Hg; [done|lia|done|done]| |done]. intros c m' (G & Hc & Hl & Hms).
      split_and!; try done. auto.
    + intros c m0 m1 Hc G HP Hgas HC _. eapply plain_body; [done|done|done|done|exact HC|].
      apply Hx; [apply HC|by rewrite (ch_stack _ _ _ _ HC)|by eapply sized_mreq
        |intros; eapply charged_writable; [exact HC|auto]|].
      rewrite (ch_contract _ _ _ _ HC). simpl. lia.
Qed.
Lemma memory_entry f :
  memorySize op = Some f → mem_ok f pops → gas_ok env (gasCost op) gp lo true →
  exec_ok (execute op) pops (mreq f) →
  0 ≤ lo → halts op || reverts op = true ∨ 1 ≤ lo → entry_ok n o op.
Proof. intros Hmem Hf Hg Hx. eapply memory_entry_; [done|done|done|]. intros. by apply Hx. Qed.
Lemma log_entry f :
  memorySize op = Some f → mem_ok f pops → gas_ok env (gasCost op) gp lo true → writes op = true →
  exec_ok (execute op) pops (λ m, mreq f m ∧ writable m) → 1 ≤ lo → entry_ok n o op.
Proof.
  intros Hmem Hf Hg Hw Hx Hlo. eapply memory_entry_; [done|done|done| |lia|by right].
  intros m W Hp Hr Hwr _. apply Hx; auto.
Qed.
Lemma create_entry f :
  memorySize op = Some f → mem_ok f pops → gas_ok env (gasCost op) gp lo true →
  plain_exec_ok n (execute op) pops f → writes op = true → 1 ≤ lo → entry_ok n o op.
Proof.
  intros Hmem Hf Hg Hx Hw Hlo. eapply memory_entry_; [done|done|done| |lia|by right].
  intros m W Hp Hr Hwr [?| ->]; [apply Hx; auto|lia].
Qed.

Lemma call_entry f w wv :
  memorySize op = Some f → mem_ok f pops → call_gas_ok env (gasCost op) gp wv →
  call_exec_ok n w (execute op) pops f wv → (w = true → o = CALL) → halts op || reverts op = false → entry_ok n o op.
Proof.
  intros Hmem Hf Hg Hx Hcall Hh. split.
  - intros st. rewrite Hval. apply makeStackFunc_total.
  - intros st f' Hv Hst. rewrite Hmem. intros [= <-]. apply Hf; [by apply validated|done].
  - intros m ms W Hv Hs _ Hn [_ Hal]. apply validated in Hv. rewrite Hh.
    apply (wp_turn op m ms _ (λ c m', callGasTemp (evm m') + (if wv then stipend m else 0) < c));
      [done|apply Hs| |].
    + eapply wp_mono; [apply Hg; [done|lia|apply Hs]| |done]. intros c m' (G & Hc & Hms & Hl).
      by split_and!.
    + intros c m0 m1 Hc G HP Hgas HC He.
      assert (Hhd : handed wv m1 = callGasTemp (evm m0) + (if wv then stipend m else 0)).
      { unfold handed, stipend. by rewrite He, (ch_stack _ _ _ _ HC). }
      rewrite <- Hhd in HP. assert (Hle : handed wv m1 ≤ c) by lia.
      eapply wp_mono; [apply Hx| |].
      * apply HC.
      * by rewrite (ch_stack _ _ _ _ HC).
      * by eapply sized_mreq.
      * intros Hw. destruct (Hal (Hcall Hw)) as [?|Hz]; [left; by eapply charged_writable|right].
        by rewrite (ch_stack _ _ _ _ HC).
      * lia.
      * rewrite (ch_contract _ _ _ _ HC). simpl. pose proof (wc_gas _ (wm_contract _ W)). lia.
      * intros res m' [HJ Hb]. split; [|done].
        pose proof (J_frame_step _ _ _ _ _ _ HC (proj1 Hc) Hle HJ).
        eapply frame_step_mono; [|done]. lia.
      * intros e m' HJ. pose proof (J_frame_step _ _ _ _ _ _ HC (proj1 Hc) Hle HJ).
        eapply frame_step_mono; [|done]. lia.
Qed.

End Kinds.

(** ** The tables *)

Section Tables.
Variable n : Z.
Variable calls : Calls_of S.
Hypothesis HC : calls_ok n calls.

Definition table_ok (l : list (Z * @operation S)) : Prop := Forall (λ e, entry_ok n e.1 e.2) l.

#[local] Hint Resolve
  opAdd_ok
  opSub_ok
  opMul_ok
  opExp_ok
  opNot_ok
  opLt_ok
  opGt_ok
  opSlt_ok
  opSgt_ok
  opEq_ok
  opIszero_ok
  opAnd_ok
  opOr_ok
  opXor_ok
  opDiv_ok
  opSdiv_ok
  opMod_ok
  opSmod_ok
  opSignExtend_ok
  opByte_ok
  opAddmod_ok
  opMulmod_ok
  opSHL_ok
  opSHR_ok
  opSAR_ok
  opAddress_ok
  opCaller_ok
  opCallValue_ok
  opCallDataSize_ok
  opCodeSize_ok
  opReturnDataSize_ok
  opPc_ok
  opMsize_ok
  opGas_ok
  opCallDataLoad_ok
  opOrigin_ok
  opGasprice_ok
  opCoinbase_ok
  opTimestamp_ok
  opNumber_ok
  opDifficulty_ok
  opGasLimit_ok
  opBlockhash_ok
  opPop_ok
  opJumpdest_ok
  opStop_ok
  opBalance_ok
  opExtCodeSize_ok
  opExtCodeHash_ok
  opSload_ok
  opSstore_ok
  opSuicide_ok
  opMload_ok
  opSha3_ok
  opMstore_ok
  opMstore8_ok
  opCallDataCopy_ok
  opCodeCopy_ok
  opExtCodeCopy_ok
  opReturnDataCopy_ok
  opReturn_ok
  opRevert_ok
  opJump_ok
  opJumpi_ok
  : vm_ok.

Lemma u64_small g : 0 ≤ g ≤ 25000 → is_u64 g.
Proof. unfold is_u64. lia. Qed.
Lemma gas_ok_table (f : GasTable → Z) : 1 ≤ f (gt0 env) ≤ 25000 → gas_ok env (λ gt _, mret (f gt)) 0 1 false.
Proof. intros H. apply gas_ok_value; [apply u64_small|]; lia. Qed.
Lemma gas_ok_table_mem (f : GasTable → Z) i : 1 ≤ f (gt0 env) ≤ 25000 →
  gas_ok env (λ gt, gasCopyWords (f gt) i) (Z.of_nat i + 1) 1 true.
Proof. intros H. apply gas_ok_copyWords; [apply u64_small|]; lia. Qed.

Ltac entry_cbn :=
  cbn [execute gasCost validateStack memorySize halts jumps writes valid reverts returns
       JumpTable.op JumpTable.memory halting jumping writing reverting returning orb].
Ltac plain lo :=
  eapply (plain_entry n _ _ _ _ _ lo); entry_cbn;
  [reflexivity| |reflexivity
  |lazymatch goal with
   | |- gas_ok_if _ _ (constGasFunc _) _ _ _ => apply (gas_ok_const env); by vm_compute
   | |- gas_ok_if _ true _ _ _ _ => first [apply gas_ok_sstore|apply gas_ok_suicide]
   | |- _ => first [apply gas_ok_exp|apply gas_ok_table; apply gt0_ok]
   end
  |eauto with vm_ok|intros; first [exact I|auto]|lia|auto];
  cbn; lia.

Ltac entries :=
  unfold table_ok; cbn [map]; repeat apply Forall_cons_2; try apply Forall_nil_2; cbn [fst snd].
(** With a memory function. *)
Ltac solve_mem :=
  first [apply mem_ok_at; lia|apply mem_ok_const; lia|apply mem_ok_log; lia|apply mem_ok_max; lia].
Ltac solve_mem_gas :=
  first [apply gas_ok_memPlus; by vm_compute
        |apply (gas_ok_copyWords env (λ _, GasFastestStep)); by vm_compute
        |apply gas_ok_table_mem; apply gt0_ok|apply gas_ok_sha3|apply gas_ok_mem
        |apply gas_ok_log; lia].
Ltac with_mem lo :=
  eapply (memory_entry n _ _ _ _ _ lo); entry_cbn;
  [reflexivity| |reflexivity|solve_mem|solve_mem_gas|eauto with vm_ok|lia|auto];
  cbn; lia.

Lemma frontier_arithmetic_ok : table_ok frontier_arithmetic.
Proof. unfold frontier_arithmetic. entries. { plain 0. } all: plain 1. Qed.
Lemma frontier_environment_ok : table_ok (frontier_environment env).
Proof. unfold frontier_environment. entries; first [plain 1|with_mem 1]. Qed.
Lemma frontier_storage_ok : table_ok (frontier_storage env).
Proof. unfold frontier_storage. entries; first [plain 1|with_mem 1]. Qed.
Lemma GetByte_code c p : 0 ≤ p → GetByte c p ≠ 0 → p < zlen (Code c).
Proof. unfold GetByte. destruct (Z.ltb_spec p (zlen (Code c))); done. Qed.
Lemma push_entry_ok k : 1 ≤ k ≤ 32 → entry_ok n (PUSH k) (push_entry k).2.
Proof.
  intros Hk. eapply (plain_entry n _ _ _ _ _ 1); entry_cbn;
    [reflexivity| |reflexivity|by apply (gas_ok_value env (λ _, GasFastestStep) 1 0)|apply makePush_ok| |lia|by right].
  - cbn. lia.
  - intros m W Hop. split; [|lia]. apply GetByte_code; [apply W|]. unfold GetOp in Hop. rewrite Hop.
    unfold PUSH. lia.
Qed.
Lemma frontier_push_ok : table_ok (frontier_push_low ++ frontier_push_high).
Proof.
  unfold table_ok, frontier_push_low, frontier_push_high. rewrite <- map_app. apply Forall_map.
  repeat apply Forall_cons_2; try apply Forall_nil_2; apply push_entry_ok; lia.
Qed.
Lemma frontier_dup_ok : table_ok frontier_dup.
Proof.
  apply Forall_map. repeat apply Forall_cons_2; try apply Forall_nil_2; cbn [fst snd];
  (eapply (plain_entry n _ _ _ _ _ 1); entry_cbn;
    [reflexivity| |reflexivity|by apply (gas_ok_value env (λ _, GasFastestStep) 1 0)
    |apply makeDup_ok; lia|done|lia|auto]; cbn; lia).
Qed.
Lemma frontier_swap_ok : table_ok frontier_swap.
Proof.
  apply Forall_map. repeat apply Forall_cons_2; try apply Forall_nil_2; cbn [fst snd];
  (eapply (plain_entry n _ _ _ _ _ 1); entry_cbn;
    [reflexivity| |reflexivity|by apply (gas_ok_value env (λ _, GasFastestStep) 1 0)
    |apply makeSwap_ok; lia|done|lia|auto]; cbn; lia).
Qed.
Lemma frontier_log_ok : table_ok (frontier_log env).
Proof.
  apply Forall_map. repeat apply Forall_cons_2; try apply Forall_nil_2; cbn [fst snd];
  (eapply (log_entry n _ _ _ _ _ 1); entry_cbn;
    [reflexivity| |reflexivity|apply mem_ok_log; lia|apply gas_ok_log; lia
    |reflexivity|apply makeLog_ok|lia]; cbn; lia).
Qed.

Ltac is_create L :=
  eapply (create_entry n _ _ _ _ _ 1); entry_cbn;
  [reflexivity| |reflexivity|apply mem_ok_at; lia|apply gas_ok_memPlus; by vm_compute|exact L|reflexivity|lia];
  cbn; lia.
Ltac is_call G L :=
  eapply (call_entry n); entry_cbn;
  [reflexivity| |reflexivity|apply mem_ok_max; lia|exact G|exact L|done|reflexivity]; cbn; lia.

Lemma frontier_system_ok : table_ok (frontier_system env calls).
Proof.
  unfold frontier_system. entries.
  - is_create (opCreate_ok env n calls HC).
  - is_call (gas_ok_call env) (opCall_ok n calls HC).
  - is_call (gas_ok_callcode env) (opCallCode_ok n calls HC).
  - with_mem 0.
  - plain 0.
Qed.

(** ** The instruction sets of the forks *)

Lemma newFrontierInstructionSet_ok : table_ok (newFrontierInstructionSet env calls).
Proof.
  unfold newFrontierInstructionSet. pose proof frontier_push_ok as Hp. unfold table_ok in *.
  apply Forall_app in Hp as [Hp1 Hp2].
  repeat (apply Forall_app_2); [apply frontier_arithmetic_ok|apply frontier_environment_ok
    |apply frontier_storage_ok|done|done|apply frontier_dup_ok|apply frontier_swap_ok
    |apply frontier_log_ok|apply frontier_system_ok].
Qed.
Lemma newHomesteadInstructionSet_ok : table_ok (newHomesteadInstructionSet env calls).
Proof.
  unfold newHomesteadInstructionSet. apply Forall_app_2; [|apply newFrontierInstructionSet_ok].
  entries. is_call (gas_ok_delegatecall env) (opDelegateCall_ok n calls HC).
Qed.
Lemma newByzantiumInstructionSet_ok : table_ok (newByzantiumInstructionSet env calls).
Proof.
  unfold newByzantiumInstructionSet. apply Forall_app_2; [|apply newHomesteadInstructionSet_ok].
  entries.
  - is_call (gas_ok_staticcall env) (opStaticCall_ok n calls HC).
  - plain 1.
  - with_mem 1.
  - with_mem 0.
Qed.
(** [EXTCODEHASH] costs nothing in the earlier gas tables. *)
Lemma newConstantinopleInstructionSet_ok :
  IsConstantinople (chainConfig env) (BlockNumber env) = true →
  table_ok (newConstantinopleInstructionSet env calls).
Proof.
  intros Hc. unfold newConstantinopleInstructionSet. apply Forall_app_2; [|apply newByzantiumInstructionSet_ok].
  entries; [plain 1..| |is_create (opCreate2_ok n calls HC)].
  eapply (plain_entry n _ _ _ _ _ 1); entry_cbn;
    [reflexivity| |reflexivity|apply gas_ok_table; unfold gt0, GasTable_of; rewrite Hc
    |eauto with vm_ok|intros; exact I|lia|auto]; cbn; lia.
Qed.
Lemma JumpTable_ok : table_ok (JumpTable env calls).
Proof.
  unfold JumpTable. destruct (IsConstantinople _ _) eqn:Hc; [by apply newConstantinopleInstructionSet_ok|].
  destruct (IsByzantium _ _); [apply newByzantiumInstructionSet_ok|].
  destruct (IsHomestead _ _); [apply newHomesteadInstructionSet_ok|apply newFrontierInstructionSet_ok].
Qed.

Lemma lookup_op_ok o :
  entry_ok n o (lookup_op (JumpTable env calls) o) ∨ lookup_op (JumpTable env calls) o = invalid.
Proof.
  unfold lookup_op. destruct (find _ _) as [e|] eqn:Hf; [left|by right].
  apply find_some in Hf as [Hin He]. boolp. subst o.
  pose proof JumpTable_ok as Ht. unfold table_ok in Ht. rewrite Forall_forall in Ht.
  apply Ht. by apply list_elem_of_In.
Qed.

End Tables.

End Table.
