(* ===== verification/VmLoop.v ===== *)
(** * Calls, creations and the loop

    One turn of the interpreter loop, the entry points of the virtual machine
    given the loop, and the loop itself by induction on the fuel: with more
    fuel than gas it ends. *)

From S2P Require Import Prelude BigMath Params Analysis Memory Rlp Interfaces.
From S2P Require Import Machine Gas Instructions JumpTable Precompiles Evm.
From S2P Require Import VmLaws VmGas VmRules VmInstr VmPrecompiles VmCalls.
From S2P Require Import VmTable.

Section Loop.
Context {S : Type} `{!VMState S} `{!VMStateLaws S} {FK : Forks} {CRY : Crypto} {PCR : PrecompileCrypto} {PL : PrecompileLaws}.
Variable env : Env S.
Context `{!EnvLaws env}.
(** The read-only rule is relied on only where it is in force. *)
Hypothesis Hforks : byzantium = true → r_IsByzantium (chainRules env) = true.

(** ** One turn of the loop *)

Definition step_post (m : machine S) (r : step_result) (m' : machine S) : Prop :=
  match r with
  | Continue => frame_step 1 m m'
  | Halt out | Revert out => frame_step 0 m m' ∧ code_ok out
  end.

Lemma wp_turn_then {B} (o : @operation S) m ms d (k : bytes → M S B) Q :
  runs env o m ms d →
  (∀ res m', frame_step d m m' → code_ok res → wp (k res) Q (λ _ m', frame_step 0 m m') m') →
  wp (cost ← gas_cost env o ms; charge cost;;
      (if 0 <? ms then modify (λ m, with_mem (Resize (mem m) ms) m) else mret tt);;
      res ← execute o; k res) Q (λ _ m', frame_step 0 m m') m.
Proof.
  unfold runs. intros Hr Hk. unfold wp, mbind, M_bind in *.
  destruct (gas_cost env o ms m) as [c m1|e m1|w|]; try done.
  destruct (charge c m1) as [u m2|e m2|w|]; try done.
  match goal with |- context [(if 0 <? ms then ?a else ?b) m2] =>
    destruct ((if 0 <? ms then a else b) m2) as [u' m3|e m3|w|]; try done end.
  destruct (execute o m3) as [res m4|e m4|w|]; try done.
  destruct Hr as [Hf Hb]. by apply Hk.
Qed.

Lemma vback_ok i (m : machine S) Q F : wf_machine m → Z.of_nat i < zlen (stack m) →
  (∀ x, 0 ≤ x → Q x m) → wp (vback i) Q F m.
Proof.
  intros W Hi HQ. destruct (stack_lookup (stack m) i (zlen (stack m))) as (x & Hx & H0); [done..|apply W|].
  eapply wp_vback; [done|]. by apply HQ.
Qed.
Lemma frame_step_refl m : wf_machine m → frame_step 0 m m.
Proof. intros W. split; [done|done|by rewrite set_Gas_id|lia]. Qed.
Lemma frame_step_pc d m m' p : frame_step d m m' → 0 ≤ p → frame_step d m (with_pc p m').
Proof. intros [[] F2 F3 F4] Hp. by split. Qed.
Lemma frame_step_returnData d m m' r : frame_step d m m' → code_ok r →
  frame_step d m (with_evm (with_returnData r (evm m')) m').
Proof.
  intros [[[V1 V2 V3] W2 W3 W4 W5 W6] [K1 K2 K3 K4 K5] F3 F4] Hr.
  split; [split; try done; split; try done; apply Hr|split; try done; intros _; apply Hr|done|done].
Qed.

(** A [CALL] that passed the validation has its value operand. *)
Lemma CALL_operands calls st :
  validateStack (lookup_op (JumpTable env calls) CALL) st = Ok tt → 7 ≤ zlen st.
Proof.
  assert (Hv : validateStack (lookup_op (JumpTable env calls) CALL) = makeStackFunc 7 1).
  { unfold JumpTable. destruct (IsConstantinople _ _); [reflexivity|].
    destruct (IsByzantium _ _); [reflexivity|]. destruct (IsHomestead _ _); reflexivity. }
  rewrite Hv. by intros [H _]%makeStackFunc_ok.
Qed.

Lemma BitLen_zero v : 0 ≤ v → (0 <? Big.BitLen v) = false → v = 0.
Proof.
  intros Hv Hb. boolp. pose proof (Big.BitLen_bound v). pose proof (Big.BitLen_nonneg v).
  assert (Big.BitLen v = 0) as E by lia. rewrite E in *. lia.
Qed.
Lemma enforceRestrictions_ok o op (m : machine S) : wf_machine m → (o = CALL → 7 ≤ zlen (stack m)) →
  wp (enforceRestrictions env o op) (λ _ m', m' = m ∧ permitted o op m) (λ _ m', m' = m) m.
Proof.
  intros W Hc. unfold enforceRestrictions. apply wp_bind, wp_gets.
  assert (Hfree : static (evm m) = false → permitted o op m).
  { intros Hst. split; [done|]. intros _. by left. }
  destruct (_ && _) eqn:Hr.
  2: { apply wp_ret. split; [done|]. apply Hfree. unfold static. destruct byzantium; [|done].
       by rewrite Hforks in Hr by done. }
  destruct (writes op) eqn:Hw; [done|]. destruct (o =? CALL) eqn:Ho; boolp.
  2: { apply wp_ret. split; [done|]. unfold permitted. by rewrite Hw. }
  specialize (Hc Ho). destruct (stack_lookup (stack m) 2 _ Hc) as (x & Hx & Hx0); [lia|apply W|].
  apply wp_bind. eapply wp_vback; [done|]. apply wp_guard; [|done]. intros Hb%negb_true_iff.
  split; [done|]. unfold permitted. rewrite Hw. split; [done|]. intros _. right. intros v.
  rewrite Hx. intros [= ->]. by apply BitLen_zero.
Qed.

Lemma memory_size_ok n o op (m : machine S) : entry_ok env n o op → wf_machine m →
  validateStack op (stack m) = Ok tt →
  wp (memory_size op) (λ ms m', m' = m ∧ sized op m ms) (λ _ m', m' = m) m.
Proof.
  intros He W Hv. unfold memory_size, sized. destruct (memorySize op) as [f|] eqn:Hf.
  2: { apply wp_ret. split; [done|]. split; [done|done]. }
  apply wp_bind, wp_gets, wp_bind.
  destruct (en_memory _ _ _ _ He (stack m) f Hv (wm_stack _ W) Hf) as (v & Hfv & Hv0).
  eapply wp_lift; [done|]. destruct (bigUint64 v) as [s o1] eqn:Hb. apply wp_bind, wp_guard; [|done].
  intros Ho. destruct o1; [done|]. apply bigUint64_ok in Hb as [-> Hu]; [|done].
  pose proof (toWordSize_bounds v Hu) as [Hw1 Hw2].
  rewrite Math.SafeMul_spec by (unfold is_u64; lia). apply wp_bind, wp_guard; [|done].
  rewrite negb_involutive. intros Ho'. apply bool_decide_eq_true in Ho'. apply wp_ret.
  split; [done|]. rewrite u64_id by done. split; [done|]. exists v. split; [done|lia].
Qed.

Lemma step_ok n loop m : calls_ok n (calls_of env loop) → wf_machine m → Gas (contract m) ≤ n →
  wp (step env loop) (step_post m) (λ _ m', frame_step 0 m m') m.
Proof.
  intros HC W Hn. unfold step. apply wp_bind, wp_gets, wp_bind, wp_gets.
  set (o := GetOp _ _). pose proof (frame_step_refl m W) as Hrefl.
  apply wp_bind, wp_guard; [|done]. intros Hvalid.
  destruct (lookup_op_ok env n (calls_of env loop) HC o) as [He|He]; [|by rewrite He in Hvalid].
  pose proof (CALL_operands (calls_of env loop) (stack m)) as Hcall.
  set (op := lookup_op _ o) in *. apply wp_bind, wp_gets, wp_bind.
  destruct (en_validate _ _ _ _ He (stack m)) as [Hv|[e Hv]]; rewrite Hv; simpl; [|done].
  apply wp_ret, wp_bind. eapply wp_mono; [apply enforceRestrictions_ok; [done|]| |by intros e m' ->].
  { intros Ho. apply Hcall. by rewrite <- Ho. }
  intros _ m' [-> Hperm]. apply wp_bind.
  eapply wp_mono; [by eapply memory_size_ok| |by intros e m' ->].
  intros ms m' [-> Hs]. eapply wp_turn_then; [by eapply (en_runs _ _ _ _ He)|].
  intros res m1 F Hres. apply wp_bind.
  assert (Hend : ∀ m2, frame_step (if halts op || reverts op then 0 else 1) m m2 →
    wp (if reverts op then mret (Revert res) else if halts op then mret (Halt res)
        else (if jumps op then mret tt else modify (λ m, with_pc (u64 (pc m + 1)) m));; mret Continue)
      (step_post m) (λ _ m', frame_step 0 m m') m2).
  { intros m2 F2. destruct (reverts op) eqn:Hr; [rewrite orb_true_r in F2; by apply wp_ret|].
    destruct (halts op) eqn:Hh; simpl in F2; [by apply wp_ret|].
    apply wp_bind. destruct (jumps op); [by apply wp_ret, wp_ret|]. apply wp_modify, wp_ret.
    apply frame_step_pc; [done|apply u64_range]. }
  destruct (returns op); [|by apply wp_ret, Hend]. apply wp_modify, Hend. by apply frame_step_returnData.
Qed.

(** ** The entry points, given the loop *)

(** A loop that ends on frames with less than [n] gas. *)
Definition loop_ok (n : Z) (loop : M S frame_result) : Prop :=
  ∀ m, wf_machine m → Gas (contract m) < n →
  wp loop (λ r m', frame_step 0 m m' ∧ code_ok r.1) (λ _ m', frame_step 0 m m') m.

(** What a call leaves: the state comes from the one before, and is as before
    when the call fails; with [ro] the call is a static one. *)
Definition quietly (ro : bool) (v : evmst S) : bool := static v || byzantium && ro.
Record call_res (ro : bool) (gas : Z) (v : evmst S) (r : call_result) (v' : evmst S) : Prop := {
  cr_keeps : keeps v v';
  cr_evolves : evolves (quietly ro v) (statedb v) (statedb v');
  cr_gas : 0 ≤ r.1.2 ≤ gas;
  cr_out : code_ok r.1.1;
  cr_revert : r.2 ≠ None → seq_ (statedb v') (statedb v);
}.
Record create_res (gas : Z) (v : evmst S) (r : create_result) (v' : evmst S) : Prop := {
  xr_keeps : keeps v v';
  xr_gas : 0 ≤ r.1.2 ≤ gas;
  xr_out : code_ok r.1.1.1;
  xr_addr : 0 ≤ r.1.1.2;
}.

Lemma ewp_ret {A} (a : A) Q (v : evmst S) : Q a v → ewp (mret a) Q v.
Proof. done. Qed.
Lemma ewp_eread {A} (f : S → A * S) (Q : A → evmst S → Prop) s v :
  Q (f s).1 (with_statedb (f s).2 v) → ewp (eread f) Q (with_statedb s v).
Proof. unfold ewp, eread. simpl. by destruct (f s). Qed.
Lemma ewp_ewrite (f : S → S) (Q : unit → evmst S → Prop) s v :
  Q tt (with_statedb (f s) v) → ewp (ewrite f) Q (with_statedb s v).
Proof. done. Qed.
Lemma ewp_egets {A} (f : evmst S → A) Q v : Q (f v) v → ewp (egets f) Q v.
Proof. done. Qed.
Lemma with_statedb_id (v : evmst S) : with_statedb (statedb v) v = v.
Proof. by destruct v. Qed.
Lemma wf_with_statedb s v : wf_evm v → sinv s → wf_evm (with_statedb s v).
Proof. intros [W1 W2 W3] Hs. by split. Qed.
Lemma keeps_with_statedb s (v : evmst S) : evolves (static v) (statedb v) s → keeps v (with_statedb s v).
Proof. intros. by split. Qed.

Lemma quietly_false v : quietly false v = static v.
Proof. unfold quietly. by rewrite andb_false_r, orb_false_r. Qed.
Lemma static_quietly ro v : static v = true → quietly ro v = true.
Proof. unfold quietly. by intros ->. Qed.

(** [run]: a precompiled contract or the interpreter. *)
Definition run_post (ro : bool) (c : Contract) (v : evmst S) (r : run_result) (v' : evmst S) : Prop :=
  keeps v v' ∧ evolves (quietly ro v) (statedb v) (statedb v') ∧ code_ok r.1.1 ∧ 0 ≤ Gas r.2 ≤ Gas c.

Lemma RunPrecompiledContract_ok ro p input c v : wf_contract c → code_ok input →
  ewp (RunPrecompiledContract p input c) (run_post ro c v) v.
Proof.
  intros Wc Hi. unfold RunPrecompiledContract.
  destruct (RequiredGas_ok p input Hi) as (g & Hg & Hu). rewrite Hg. pose proof (wc_gas _ Wc) as Hgas.
  unfold UseGas. destruct (Z.ltb_spec (Gas c) g).
  { apply ewp_ret. split_and!; [done|done|apply code_ok_nil|simpl; lia..]. }
  destruct (Precompiled_Run_ok p input g Hi Hg) as [(o & -> & Ho)|[e ->]]; [lia|..];
    (apply ewp_ret; split_and!; simpl; [done|done| |unfold is_u64 in *; lia..]); [done|apply code_ok_nil].
Qed.

Lemma Run_ok n loop c input ro v : loop_ok n loop → wf_evm v → wf_contract c → code_ok input →
  Gas c < n → ewp (Run loop c input ro) (run_post ro c v) v.
Proof.
  intros HL [V1 V2 V3] Wc Hi Hn. unfold Run, ewp.
  set (setRO := ro && negb (readOnly v)). set (v0 := with_depth _ v).
  set (v1 := with_returnData [] (if setRO then with_readOnly true v0 else v0)).
  assert (Hv1 : statedb v1 = statedb v ∧ depth v1 = depth v + 1 ∧ callGasTemp v1 = callGasTemp v ∧
    returnData v1 = [] ∧ readOnly v1 = if setRO then true else readOnly v).
  { unfold v1. by destruct setRO. }
  destruct Hv1 as (S1 & S2 & S3 & S4 & S5).
  assert (W1 : wf_evm v1).
  { split; rewrite ?S1, ?S3, ?S4; [done|done|apply is_bytes_nil]. }
  assert (Sq : static v1 = quietly ro v).
  { unfold quietly, static. rewrite S5. unfold setRO. by destruct byzantium, ro, (readOnly v). }
  set (leave (v : evmst S) := with_depth (depth (if setRO then with_readOnly false v else v) - 1)
                    (if setRO then with_readOnly false v else v)).
  assert (Hleave : ∀ v2, keeps v1 v2 →
    keeps v (leave v2) ∧ evolves (quietly ro v) (statedb v) (statedb (leave v2))).
  { intros v2 [K1 K2 K3 K4 K5]. rewrite S1, Sq in K1. rewrite S2 in K2. rewrite S3 in K4.
    assert (Hb : is_bytes (returnData v2)) by (apply K5; rewrite S4; apply is_bytes_nil).
    pose proof (evolves_mono _ _ _ _ (static_quietly ro v) K1) as K0.
    unfold leave, setRO in *. destruct (ro && negb (readOnly v)) eqn:E; simpl in *.
    - apply andb_prop in E as [_ E]. apply negb_true_iff in E.
      split; [|done]. split; simpl; [done|lia|done|done|by intros _].
    - split; [|done]. split; simpl; [done|lia|congruence|done|by intros _]. }
  destruct (Code c) eqn:Hcode.
  { destruct (Hleave v1) as [L1 L2]; [done|].
    split_and!; [exact L1|exact L2|apply code_ok_nil|simpl; destruct Wc; lia|simpl; lia]. }
  set (m0 := mkMachine v1 0 newstack NewMemory (set_Input input c)).
  assert (W0 : wf_machine m0).
  { destruct Wc as [C1 C2 C3 C4 C5 C6]. split; [exact W1|simpl; lia|apply Forall_nil_2
      |apply is_bytes_nil|unfold zlen; simpl; lia|by split]. }
  specialize (HL m0 W0 Hn). unfold wp in HL.
  match goal with |- context [loop ?x] => change (loop x) with (loop m0) end.
  destruct (loop m0) as [[o e] m|e m|w|]; try done.
  - destruct HL as [[F1 F2 F3 F4] Ho]. simpl in *. destruct (Hleave _ F2) as [L1 L2].
    split_and!; [exact L1|exact L2|done| |simpl; lia]. apply F1.
  - destruct HL as [F1 F2 F3 F4]. simpl in *. destruct (Hleave _ F2) as [L1 L2].
    split_and!; [exact L1|exact L2|apply code_ok_nil| |simpl; lia]. apply F1.
Qed.
Lemma run_frame_ok n loop c input ro v : loop_ok n loop → wf_evm v → wf_contract c → code_ok input →
  Gas c < n → ewp (run env loop c input ro) (run_post ro c v) v.
Proof.
  intros HL W Wc Hi Hn. unfold run. destruct (match CodeAddr c with Some a => _ | None => _ end).
  - by apply RunPrecompiledContract_ok.
  - by eapply Run_ok.
Qed.

(** The end of a call whose snapshot was taken in [s1]. *)
Lemma finish_call_ok st s1 (r : run_result) gas v :
  sinv s1 → evolves st (sSnapshot s1).2 (statedb v) → code_ok r.1.1 → 0 ≤ Gas r.2 ≤ gas →
  ewp (finish_call (sSnapshot s1).1 r)
    (λ r v', ∃ s, v' = with_statedb s v ∧ evolves st s1 s ∧ 0 ≤ r.1.2 ≤ gas ∧ code_ok r.1.1 ∧
       (r.2 ≠ None → seq_ s s1)) v.
Proof.
  destruct r as [[o e] c]. simpl. intros W H Ho Hg. destruct e as [e|].
  - destruct (revert_possible st s1 (statedb v) W H) as (s & Hr & Hseq & Hev).
    unfold ewp, epartial, mbind, E_bind. rewrite Hr. simpl. exists s. split_and!; try done.
    + destruct (bool_decide _); lia.
    + destruct (bool_decide _); lia.
  - apply ewp_ret. exists (statedb v). rewrite with_statedb_id. split_and!; try done; simpl; try lia.
    etrans; [by apply evolves_snapshot|done].
Qed.
(** The code of a callee, run and finished. *)
Lemma run_finish_ok n loop c input ro s1 s2 gas v :
  loop_ok n loop → wf_evm v → sinv s1 → evolves (quietly ro v) (sSnapshot s1).2 s2 →
  evolves (quietly ro v) (statedb v) s1 → seq_ s1 (statedb v) → wf_contract c → code_ok input → Gas c = gas → gas < n →
  ewp (r ← run env loop c input ro; finish_call (sSnapshot s1).1 r) (call_res ro gas v) (with_statedb s2 v).
Proof.
  intros HL W W1 H12 H01 Hseq Wc Hi <- Hn. apply ewp_bind.
  assert (W2 : sinv s2) by (apply H12; by apply sinv_snapshot).
  eapply ewp_mono; [by eapply (run_frame_ok n); try done; apply wf_with_statedb|].
  intros r v' (K & Kq & Ho & Hg). eapply ewp_mono.
  { eapply finish_call_ok; [done| |done|done]. etrans; [exact H12|exact Kq]. }
  intros r' v'' (s & -> & Hs & Hg' & Ho' & Hrev). destruct K as [K1 K2 K3 K4 K5].
  assert (Hq : evolves (quietly ro v) (statedb v) s) by by etrans.
  split; try done.
  - split; try done. simpl. eapply evolves_mono; [apply (static_quietly ro)|exact Hq].
  - intros He. simpl. etrans; [by apply Hrev|done].
Qed.

Definition caller_ok (r : ContractRef) : Prop :=
  match r with AccountRef a => is_addr a | ContractOf c => wf_contract c end.
Lemma Address_range r : caller_ok r → is_addr (Address r).
Proof. destruct r; simpl; [done|]. apply wc_self. Qed.
Lemma callee_ok caller o addr hash code value gas :
  caller_ok caller → is_addr (Address o) → code_ok code → 0 ≤ gas < 2 ^ 62 → 0 ≤ value →
  wf_contract (SetCallCode addr hash code (NewContract caller o value gas)).
Proof.
  intros Hc Ho Hcode Hg Hv.
  split; simpl; [done|apply code_ok_nil|done|done|done|by apply Address_range].
Qed.

Lemma evolves_inv st (s s' : S) : sinv s → evolves st s s' → sinv s'.
Proof. intros W H. by apply H. Qed.
#[local] Hint Constructors reads : core.

Lemma call_early ro gas v s o e : 0 ≤ gas → evolves (quietly ro v) (statedb v) s →
  seq_ s (statedb v) ∨ e = None → code_ok o → call_res ro gas v (o, gas, e) (with_statedb s v).
Proof.
  intros Hg He Hs Ho. split; simpl; [|done|lia|done|by intros He'; destruct Hs].
  apply keeps_with_statedb. eapply evolves_mono; [apply (static_quietly ro)|exact He].
Qed.

(** The callee's code is read, run and finished. *)
Lemma load_run_ok n loop addr (C : Z → bytes → Contract) input ro s1 s2 gas v :
  is_addr addr → loop_ok n loop → wf_evm v → sinv s1 → evolves (quietly ro v) (sSnapshot s1).2 s2 →
  evolves (quietly ro v) (statedb v) s1 → seq_ s1 (statedb v) → code_ok input → 0 ≤ gas < n →
  (∀ hash code, code_ok code → wf_contract (C hash code) ∧ Gas (C hash code) = gas) →
  ewp (hash ← eread (sGetCodeHash addr); code ← eread (sGetCode addr);
       r ← run env loop (C hash code) input ro; finish_call (sSnapshot s1).1 r)
    (call_res ro gas v) (with_statedb s2 v).
Proof.
  intros Ha HL W W1 H12 H01 Hseq Hi Hg HC. pose proof (evolves_inv _ _ _ (sinv_snapshot _ W1) H12) as W2.
  apply ewp_bind, ewp_eread, ewp_bind, ewp_eread.
  assert (E6 : evolves (quietly ro v) s2 (sGetCodeHash addr s2).2) by (apply evolves_reads; auto).
  set (s6 := (sGetCodeHash addr s2).2) in *. pose proof (evolves_inv _ _ _ W2 E6) as W6.
  assert (E7 : evolves (quietly ro v) s6 (sGetCode addr s6).2) by (apply evolves_reads; auto).
  destruct (HC (sGetCodeHash addr s2).1 _ (code_range addr s6 W6 Ha)) as [Wc Hgas].
  eapply run_finish_ok; try done; [|lia]. etrans; [exact H12|]. by etrans.
Qed.

Lemma Call_ok n loop caller addr input gas value v : loop_ok n loop → wf_evm v → caller_ok caller →
  is_addr addr → code_ok input → 0 ≤ gas < n → gas < 2 ^ 62 → 0 ≤ value → static v = false ∨ value = 0 →
  ewp (Call env loop caller addr input gas value) (call_res false gas v) v.
Proof.
  intros HL W Hcaller Haddr Hi Hg Hg2 Hval Hst. pose proof (wv_state _ W) as W0.
  pose proof (Address_range _ Hcaller) as Hself. rewrite <- (with_statedb_id v) at 2.
  unfold Call. apply ewp_bind, ewp_egets. cbn [depth with_statedb].
  destruct (_ && _).
  { apply ewp_ret, call_early; [lia|done|by right|apply code_ok_nil]. }
  destruct (_ <? _).
  { apply ewp_ret, call_early; [lia|done|by left|apply code_ok_nil]. }
  apply ewp_bind, ewp_eread.
  pose proof (CanTransfer_evolves (env:=env) (quietly false v) (statedb v) (Address caller) value W0 Hself) as E1.
  pose proof (CanTransfer_seq (env:=env) (statedb v) (Address caller) value W0 Hself) as Q1.
  pose proof (CanTransfer_bal (env:=env) (statedb v) (Address caller) value W0 Hself) as B1.
  set (s1 := (CanTransfer _ _ _ _).2) in *. pose proof (evolves_inv _ _ _ W0 E1) as W1.
  destruct (negb _) eqn:Hok.
  { apply ewp_ret, call_early; [lia|done|by left|apply code_ok_nil]. }
  apply negb_false_iff in Hok. specialize (B1 Hok).
  apply ewp_bind, ewp_eread. pose proof (sinv_snapshot _ W1) as W2. apply ewp_bind, ewp_eread.
  assert (E3 : evolves (quietly false v) (sSnapshot s1).2 (sExist addr (sSnapshot s1).2).2) by (apply evolves_reads; auto).
  assert (B3 : bal (Address caller) (sExist addr (sSnapshot s1).2).2 = bal (Address caller) s1).
  { rewrite (bal_reads _ (sSnapshot s1).2) by auto. by apply bal_snapshot. }
  set (s3 := (sExist addr _).2) in *. pose proof (evolves_inv _ _ _ W2 E3) as W3.
  destruct (_ && _).
  { apply ewp_ret, call_early; [lia| |by right|apply code_ok_nil].
    etrans; [exact E1|]. etrans; [by apply evolves_snapshot|exact E3]. }
  assert (Hrest : ∀ s4, evolves (quietly false v) s3 s4 → bal (Address caller) s4 = bal (Address caller) s3 →
    ewp (ewrite (λ s, Transfer env s (Address caller) addr value);;
         hash ← eread (sGetCodeHash addr); code ← eread (sGetCode addr);
         let c := SetCallCode (Some addr) hash code (NewContract caller (AccountRef addr) value gas) in
         r ← run env loop c input false; finish_call (sSnapshot s1).1 r)
      (call_res false gas v) (with_statedb s4 v)).
  { intros s4 E4 B4. pose proof (evolves_inv _ _ _ W3 E4) as W4. apply ewp_bind, ewp_ewrite.
    assert (E5 : evolves (quietly false v) s4 (Transfer env s4 (Address caller) addr value)).
    { apply Transfer_evolves; [done..|rewrite B4, B3; by split|]. rewrite quietly_false. by destruct Hst as [->|?]. }
    set (s5 := Transfer _ _ _ _ _) in *. pose proof (evolves_inv _ _ _ W4 E5) as W5.
    eapply (load_run_ok n loop addr
      (λ hash code, SetCallCode (Some addr) hash code (NewContract caller (AccountRef addr) value gas)));
      try done; [|intros; split; [apply callee_ok; try done; lia|done]].
    etrans; [exact E3|]. by etrans. }
  apply ewp_bind. destruct (sExist _ _).1 eqn:Hex.
  - by apply ewp_ret, Hrest.
  - apply ewp_ewrite, Hrest; [|by apply bal_create].
    apply evolves_sop; [by apply so_create|]. intros _ _. apply quiet_create; [done|].
    unfold s3. rewrite <- Hex. apply rq_exist, seq_readers, seq_reads; auto.
Qed.

(** The other calls move no value. *)
Lemma CallCode_ok n loop caller addr input gas value v : loop_ok n loop → wf_evm v → caller_ok caller →
  is_addr addr → code_ok input → 0 ≤ gas < n → gas < 2 ^ 62 → 0 ≤ value →
  ewp (CallCode env loop caller addr input gas value) (call_res false gas v) v.
Proof.
  intros HL W Hcaller Haddr Hi Hg Hg2 Hval. pose proof (wv_state _ W) as W0.
  pose proof (Address_range _ Hcaller) as Hself. rewrite <- (with_statedb_id v) at 2.
  unfold CallCode. apply ewp_bind, ewp_egets. cbn [depth with_statedb].
  destruct (_ && _).
  { apply ewp_ret, call_early; [lia|done|by right|apply code_ok_nil]. }
  destruct (_ <? _).
  { apply ewp_ret, call_early; [lia|done|by left|apply code_ok_nil]. }
  apply ewp_bind, ewp_eread.
  pose proof (CanTransfer_evolves (env:=env) (quietly false v) (statedb v) (Address caller) value W0 Hself) as E1.
  pose proof (CanTransfer_seq (env:=env) (statedb v) (Address caller) value W0 Hself) as Q1.
  set (s1 := (CanTransfer _ _ _ _).2) in *. pose proof (evolves_inv _ _ _ W0 E1) as W1.
  destruct (negb _).
  { apply ewp_ret, call_early; [lia|done|by left|apply code_ok_nil]. }
  apply ewp_bind, ewp_eread.
  eapply (load_run_ok n loop addr (λ hash code, SetCallCode (Some addr) hash code
    (NewContract caller (AccountRef (Address caller)) value gas))); try done.
  intros. split; [|done]. apply callee_ok; [done|simpl; by apply Address_range|done|lia|done].
Qed.
Lemma StaticCall_ok n loop caller addr input gas v : loop_ok n loop → wf_evm v → caller_ok caller →
  is_addr addr → code_ok input → 0 ≤ gas < n → gas < 2 ^ 62 →
  ewp (StaticCall env loop caller addr input gas) (call_res true gas v) v.
Proof.
  intros HL W Hcaller Haddr Hi Hg Hg2. pose proof (wv_state _ W) as W0.
  rewrite <- (with_statedb_id v) at 2.
  unfold StaticCall. apply ewp_bind, ewp_egets. cbn [depth with_statedb].
  destruct (_ && _).
  { apply ewp_ret, call_early; [lia|done|by right|apply code_ok_nil]. }
  destruct (_ <? _).
  { apply ewp_ret, call_early; [lia|done|by left|apply code_ok_nil]. }
  apply ewp_bind, ewp_eread.
  eapply (load_run_ok n loop addr (λ hash code, SetCallCode (Some addr) hash code
    (NewContract caller (AccountRef addr) 0 gas))); try done.
  intros. split; [|done]. apply callee_ok; try done; lia.
Qed.
Lemma DelegateCall_ok n loop c addr input gas v : loop_ok n loop → wf_evm v → wf_contract c →
  is_addr addr → code_ok input → 0 ≤ gas < n → gas < 2 ^ 62 →
  ewp (DelegateCall env loop (ContractOf c) addr input gas) (call_res false gas v) v.
Proof.
  intros HL W Hcaller Haddr Hi Hg Hg2. pose proof (wv_state _ W) as W0.
  rewrite <- (with_statedb_id v) at 2.
  unfold DelegateCall. apply ewp_bind, ewp_egets. cbn [depth with_statedb].
  destruct (_ && _).
  { apply ewp_ret, call_early; [lia|done|by right|apply code_ok_nil]. }
  destruct (_ <? _).
  { apply ewp_ret, call_early; [lia|done|by left|apply code_ok_nil]. }
  apply ewp_bind, ewp_eread. cbn [AsDelegate].
  eapply (load_run_ok n loop addr (λ hash code, SetCallCode (Some addr) hash code (mkContract (CallerAddress c) (self c)
    [] 0 None [] gas (value c) true)));
    try done.
  intros. split; [|done]. destruct Hcaller. split; try done; simpl; [apply code_ok_nil|lia].
Qed.

(** ** Creation *)

Lemma finish_create_ok s1 address (r : run_result) gas v :
  is_addr address → sinv s1 → evolves false (sSnapshot s1).2 (statedb v) → code_ok r.1.1 → 0 ≤ Gas r.2 ≤ gas →
  ewp (finish_create env (sSnapshot s1).1 address r)
    (λ r v', ∃ s, v' = with_statedb s v ∧ evolves false s1 s ∧ 0 ≤ r.1.2 ≤ gas ∧ code_ok r.1.1.1 ∧
       r.1.1.2 = address) v.
Proof.
  destruct r as [[o err] c]. simpl. intros Haddr W H Ho Hg. unfold finish_create.
  set (exceeded := _ && (_ <? _)).
  clearbody exceeded.
  assert (Htail : ∀ err c s, 0 ≤ Gas c ≤ gas → evolves false (sSnapshot s1).2 s → ewp
    (c ← (if exceeded || negb (bool_decide (err = None))
           && (IsHomestead (chainConfig env) (BlockNumber env)
               || negb (bool_decide (err = Some ErrCodeStoreOutOfGas)))
          then epartial PRevert (sRevertToSnapshot (sSnapshot s1).1);;
               mret (if bool_decide (err = Some errExecutionReverted) then c else set_Gas 0 c)
          else mret c : E S Contract);
     let err := if exceeded && bool_decide (err = None) then Some errMaxCodeSizeExceeded else err in
     mret (o, address, Gas c, err))
    (λ r v', ∃ s, v' = with_statedb s v ∧ evolves false s1 s ∧ 0 ≤ r.1.2 ≤ gas ∧ code_ok r.1.1.1 ∧
       r.1.1.2 = address) (with_statedb s v)).
  { intros err' c' s Hc' Hs. apply ewp_bind. destruct (_ || _).
    - destruct (revert_possible false s1 s W Hs) as (s' & Hr & _ & Hev).
      unfold ewp at 1, epartial, mbind, E_bind. simpl. rewrite Hr. simpl.
      exists s'. split_and!; try done; destruct (bool_decide _); simpl; lia.
    - apply ewp_ret, ewp_ret. exists s. split_and!; try done; simpl; try lia.
      etrans; [by apply evolves_snapshot|done]. }
  apply ewp_bind. rewrite <- (with_statedb_id v) at 1.
  destruct (bool_decide (err = None) && negb exceeded).
  - unfold UseGas. pose proof (u64_range (zlen o * CreateDataGas)) as Hu. unfold is_u64 in Hu.
    destruct (Z.ltb_spec (Gas c) (u64 (zlen o * CreateDataGas))).
    + by apply ewp_ret, Htail.
    + apply ewp_bind, ewp_ewrite, ewp_ret, Htail; [simpl; lia|].
      etrans; [done|]. by apply evolves_write, so_code.
  - by apply ewp_ret, Htail.
Qed.

Lemma create_early gas g v s a e : 0 ≤ g ≤ gas → evolves (static v) (statedb v) s → 0 ≤ a →
  create_res gas v ([], a, g, e) (with_statedb s v).
Proof.
  intros Hg He Ha. split; simpl; [by apply keeps_with_statedb|lia|apply code_ok_nil|done].
Qed.

(** Operations that leave every balance alone. *)
Definition same_bal (s s' : S) : Prop := evolves false s s' ∧ ∀ a, bal a s' = bal a s.
Lemma same_bal_trans s1 s2 s3 : same_bal s1 s2 → same_bal s2 s3 → same_bal s1 s3.
Proof. intros [E1 B1] [E2 B2]. split; [by etrans|]. intros. by rewrite B2. Qed.
Lemma same_bal_reads s s' : sinv s → reads s s' → same_bal s s'.
Proof. intros W H. split; [by apply evolves_reads|]. intros. by apply bal_reads. Qed.
Lemma same_bal_nonce a n s : is_addr a → sinv s → is_u64 n → same_bal s (sSetNonce a n s).
Proof. intros Ha W H. split; [by apply evolves_write, so_nonce|]. intros. by apply bal_nonce. Qed.
Lemma same_bal_create a s : is_addr a → sinv s → same_bal s (sCreateAccount a s).
Proof. intros Ha W. split; [apply evolves_write; [done|by apply so_create]|]. intros. by apply bal_create. Qed.

Lemma create_ok n loop caller code gas value address v : loop_ok n loop → wf_evm v → caller_ok caller →
  code_ok code → 0 ≤ gas < n → gas < 2 ^ 62 → 0 ≤ value → is_addr address → static v = false →
  ewp (create env loop caller code gas value address) (create_res gas v) v.
Proof.
  intros HL W Hcaller Hcode Hg Hg2 Hval Haddr Hst. pose proof (wv_state _ W) as W0.
  pose proof (Address_range _ Hcaller) as Hself. rewrite <- (with_statedb_id v) at 2.
  unfold create. apply ewp_bind, ewp_egets. cbn [depth with_statedb].
  destruct (_ <? _); [apply ewp_ret, create_early; [lia|by rewrite Hst|lia]|].
  apply ewp_bind, ewp_eread.
  pose proof (CanTransfer_evolves (env:=env) false (statedb v) (Address caller) value W0 Hself) as E1.
  pose proof (CanTransfer_bal (env:=env) (statedb v) (Address caller) value W0 Hself) as B1.
  set (s1 := (CanTransfer _ _ _ _).2) in *. pose proof (evolves_inv _ _ _ W0 E1) as W1.
  destruct (negb _) eqn:Hok; [apply ewp_ret, create_early; [lia|by rewrite Hst|lia]|].
  apply negb_false_iff in Hok. specialize (B1 Hok).
  apply ewp_bind, ewp_eread, ewp_bind, ewp_ewrite, ewp_bind, ewp_eread, ewp_bind, ewp_eread.
  pose proof (same_bal_reads s1 (sGetNonce (Address caller) s1).2 W1 ltac:(auto)) as T2.
  set (s2 := (sGetNonce (Address caller) s1).2) in *. pose proof (evolves_inv _ _ _ W1 (proj1 T2)) as W2.
  pose proof (same_bal_nonce (Address caller) (u64 ((sGetNonce (Address caller) s1).1 + 1)) s2 Hself W2 (u64_range _)) as T3.
  set (s3 := sSetNonce _ _ s2) in *. pose proof (evolves_inv _ _ _ W2 (proj1 T3)) as W3.
  pose proof (same_bal_reads s3 (sGetCodeHash address s3).2 W3 ltac:(auto)) as T4.
  set (s4 := (sGetCodeHash address s3).2) in *. pose proof (evolves_inv _ _ _ W3 (proj1 T4)) as W4.
  pose proof (same_bal_reads s4 (sGetNonce address s4).2 W4 ltac:(auto)) as T5.
  set (s5 := (sGetNonce address s4).2) in *. pose proof (evolves_inv _ _ _ W4 (proj1 T5)) as W5.
  assert (T : same_bal s1 s5) by (eapply same_bal_trans, same_bal_trans, same_bal_trans; done).
  assert (E5 : evolves false (statedb v) s5) by (etrans; [exact E1|apply T]).
  clear T2 T3 T4 T5 W2 W3 W4.
  destruct (_ || _); [apply ewp_ret, create_early; [lia|by rewrite Hst|lia]|].
  apply ewp_bind, ewp_eread. pose proof (sinv_snapshot _ W5) as W6.
  apply ewp_bind, ewp_ewrite. pose proof (same_bal_create address _ Haddr W6) as T7.
  set (s7 := sCreateAccount _ _) in *. pose proof (evolves_inv _ _ _ W6 (proj1 T7)) as W7.
  apply ewp_bind.
  assert (Hrest : ∀ s8, same_bal s7 s8 → ewp
    (ewrite (λ s, Transfer env s (Address caller) address value);;
     let c := SetCallCode (Some address) (Keccak256Hash code) code
                (NewContract caller (AccountRef address) value gas) in
     if NoRecursion env && (0 <? depth v) then mret ([], address, gas, None)
     else r ← run env loop c [] false; finish_create env (sSnapshot s5).1 address r)
    (create_res gas v) (with_statedb s8 v)).
  { intros s8 T8. pose proof (evolves_inv _ _ _ W7 (proj1 T8)) as W8. apply ewp_bind, ewp_ewrite.
    assert (E9 : evolves false s8 (Transfer env s8 (Address caller) address value)).
    { apply Transfer_evolves; [done..| |done].
      rewrite (proj2 T8), (proj2 T7), bal_snapshot, (proj2 T) by done. by split. }
    set (s9 := Transfer _ _ _ _ _) in *. pose proof (evolves_inv _ _ _ W8 E9) as W9.
    assert (E59 : evolves false (sSnapshot s5).2 s9) by (etrans; [apply T7|]; etrans; [apply T8|exact E9]).
    simpl. destruct (_ && _).
    { apply ewp_ret, create_early; [lia| |apply Haddr]. rewrite Hst. etrans; [exact E5|]. etrans; [by apply evolves_snapshot|done]. }
    apply ewp_bind. eapply ewp_mono.
    { eapply (run_frame_ok n); [done|by apply wf_with_statedb|apply callee_ok; try done; lia|apply code_ok_nil|simpl; lia]. }
    intros r v' ([K1 K2 K3 K4 K5] & _ & Ho & Hr).
    replace (static (with_statedb s9 v)) with false in K1 by (symmetry; exact Hst). eapply ewp_mono.
    { eapply finish_create_ok; [done|done| |done|done]. etrans; [exact E59|exact K1]. }
    intros r' v'' (s & -> & Hs & Hg' & Ho' & Ha). split; try done; [|rewrite Ha; apply Haddr].
    split; try done. rewrite Hst. simpl. by etrans. }
  destruct (IsEIP158 _ _).
  - apply ewp_ewrite, Hrest. by apply same_bal_nonce.
  - apply ewp_ret, Hrest. by split.
Qed.

Lemma BytesToAddress_range b : is_addr (BytesToAddress b).
Proof. apply Z.mod_pos_bound. lia. Qed.
Lemma CreateAddress_range b n : is_addr (CreateAddress b n).
Proof. unfold CreateAddress. destruct (EncodeToBytes _); apply BytesToAddress_range. Qed.
Lemma create_res_from gas v s r v' : evolves (static v) (statedb v) s →
  create_res gas (with_statedb s v) r v' → create_res gas v r v'.
Proof.
  intros He [[K1 K2 K3 K4 K5] H2 H3 H4]. split; try done. split; try done. by etrans.
Qed.
Lemma Create_ok n loop caller code gas value v : loop_ok n loop → wf_evm v → caller_ok caller →
  code_ok code → 0 ≤ gas < n → gas < 2 ^ 62 → 0 ≤ value → static v = false →
  ewp (Create env loop caller code gas value) (create_res gas v) v.
Proof.
  intros HL W Hcaller Hcode Hg Hg2 Hval Hst. pose proof (wv_state _ W) as W0.
  pose proof (Address_range _ Hcaller) as Hself.
  rewrite <- (with_statedb_id v) at 2. apply ewp_bind, ewp_eread.
  assert (E : evolves (static v) (statedb v) (sGetNonce (Address caller) (statedb v)).2) by (apply evolves_reads; auto).
  eapply ewp_mono; [eapply (create_ok n)|intros r v' H; by eapply create_res_from]; try done.
  - apply wf_with_statedb; [done|by eapply evolves_inv].
  - apply CreateAddress_range.
Qed.
Lemma Create2_ok n loop caller code gas value salt v : loop_ok n loop → wf_evm v → caller_ok caller →
  code_ok code → 0 ≤ gas < n → gas < 2 ^ 62 → 0 ≤ value → static v = false →
  ewp (Create2 env loop caller code gas value salt) (create_res gas v) v.
Proof. intros. eapply (create_ok n); try done. apply BytesToAddress_range. Qed.

(** ** The interface the instructions see, and the loop *)

Lemma lift_call ro (x : E S call_result) gas m : ewp x (call_res ro gas (evm m)) (evm m) →
  wp (liftE x) (call_post gas m) no_error m.
Proof.
  intros H. apply wp_liftE. eapply ewp_mono; [exact H|]. intros r v' [K _ Hg Ho _].
  exists v'. split_and!; try done; apply Hg.
Qed.
Lemma lift_create (x : E S create_result) gas m : ewp x (create_res gas (evm m)) (evm m) →
  wp (liftE x) (create_post gas m) no_error m.
Proof.
  intros H. apply wp_liftE. eapply ewp_mono; [exact H|]. intros r v' [K Hg Ho Ha].
  exists v'. split_and!; try done; apply Hg.
Qed.
Lemma calls_of_ok n loop : loop_ok n loop → calls_ok n (calls_of env loop).
Proof.
  intros HL. split; intros.
  - eapply lift_call, (Call_ok n); try done. by apply wm_evm.
  - eapply lift_call, (CallCode_ok n); try done. by apply wm_evm.
  - eapply lift_call, (DelegateCall_ok n); try done. by apply wm_evm.
  - eapply lift_call, (StaticCall_ok n); try done. by apply wm_evm.
  - apply lift_create, (Create_ok n); try done. by apply wm_evm.
  - apply lift_create, (Create2_ok n); try done. by apply wm_evm.
Qed.

Lemma frame_step_trans d m1 m2 m3 : 0 ≤ d → frame_step d m1 m2 → frame_step 0 m2 m3 → frame_step 0 m1 m3.
Proof.
  intros Hd [A1 A2 A3 A4] [B1 B2 B3 B4]. split; [done|by etrans| |lia].
  rewrite B3, A3. by destruct (contract m1).
Qed.

Lemma run_loop_ok fuel : loop_ok (Z.of_nat fuel) (run_loop env fuel).
Proof.
  induction fuel as [|fuel IH]; intros m W Hg.
  { pose proof (wc_gas _ (wm_contract _ W)). lia. }
  unfold wp. cbn [run_loop]. destruct (abort env).
  { split; [by apply frame_step_refl|apply code_ok_nil]. }
  pose proof (step_ok _ _ m (calls_of_ok _ _ IH) W ltac:(lia)) as Hs. unfold wp in Hs.
  destruct (step env (run_loop env fuel) m) as [[|o|o] m1|e m1|w|]; try done.
  - pose proof (fs_gas _ _ _ Hs) as Hg1. specialize (IH m1 (fs_wf _ _ _ Hs) ltac:(lia)). unfold wp in IH.
    assert (H01 : 0 ≤ 1) by lia.
    destruct (run_loop env fuel m1) as [[o e] m2|e m2|w|]; try done.
    + destruct IH as [F Ho]. split; [|done]. exact (frame_step_trans _ _ _ _ H01 Hs F).
    + exact (frame_step_trans _ _ _ _ H01 Hs IH).
  - split; [done|apply code_ok_nil].
Qed.

End Loop.
