(* ===== verification/TransitionLaws.v ===== *)
(** * The transition of a message, step by step

    What each part of [StateTransition.v] leaves: the checks before the
    message runs, the purchase of gas, the run, and the refund. *)

From S2P Require Import Prelude BigMath Params Analysis Memory Rlp Interfaces.
From S2P Require Import Machine Gas Instructions JumpTable Precompiles Evm StateTransition.
From S2P Require Import VmLaws VmGas VmRules VmInstr VmPrecompiles VmCalls.
From S2P Require Import VmTable VmLoop.

(** ** Intrinsic gas *)

(** Its exact value, past any width. *)
Definition intrinsic (data : bytes) (contractCreation homestead : bool) : Z :=
  (if contractCreation && homestead then TxGasContractCreation else TxGas)
  + TxDataNonZeroGas * Z.of_nat (length (filter (λ b, b ≠ 0) data))
  + TxDataZeroGas * Z.of_nat (length (filter (λ b, b = 0) data)).

Lemma filter_zeros (data : bytes) :
  zlen data - Z.of_nat (length (filter (λ b, b ≠ 0) data)) = Z.of_nat (length (filter (λ b, b = 0) data)).
Proof.
  unfold zlen. induction data as [|b data IH]; [done|].
  destruct (decide (b = 0)) as [E|E].
  - rewrite filter_cons_False, filter_cons_True by congruence. simpl. lia.
  - rewrite filter_cons_True, filter_cons_False by congruence. simpl. lia.
Qed.

Lemma div_lt_mul (a b n : Z) : 0 < b → 0 ≤ n → (a / b <? n) = bool_decide (a < n * b).
Proof.
  intros Hb Hn. destruct (Z.ltb_spec (a / b) n) as [H|H]; symmetry.
  - apply bool_decide_eq_true. pose proof (Z.mul_succ_div_gt a b Hb). nia.
  - apply bool_decide_eq_false. pose proof (Z.mul_div_le a b Hb). nia.
Qed.

Lemma IntrinsicGas_spec data cc hs : is_u64 (zlen data) →
  IntrinsicGas data cc hs =
    if bool_decide (is_u64 (intrinsic data cc hs)) then Ok (intrinsic data cc hs) else Err ErrOutOfGas.
Proof.
  intros Hl. unfold IntrinsicGas, intrinsic. set (g := if cc && hs then _ else _).
  assert (Hg : 21000 ≤ g ≤ 53000) by (unfold g, TxGasContractCreation, TxGas; destruct (cc && hs); lia).
  destruct data as [|b data]; [by rewrite bool_decide_true by (simpl; unfold is_u64; lia); f_equal; simpl; lia|].
  pose proof (filter_zeros (b :: data)) as Hz. set (nz := length (filter (λ b, b ≠ 0) _)) in *.
  set (z := length (filter (λ b, b = 0) _)) in *. rewrite Hz. unfold MaxUint64.
  unfold TxDataNonZeroGas, TxDataZeroGas in *. rewrite div_lt_mul by lia.
  unfold is_u64 in Hl. assert (Hnz : 0 ≤ Z.of_nat nz < 2 ^ 64) by lia.
  case_bool_decide as H1; [by rewrite bool_decide_false by (unfold is_u64; lia)|].
  rewrite (u64_id (Z.of_nat nz * 68)) by (unfold is_u64; lia).
  rewrite (u64_id (g + _)) by (unfold is_u64; lia). rewrite (u64_id (Z.of_nat z)) by (unfold is_u64; lia).
  rewrite div_lt_mul by lia.
  case_bool_decide as H2; [by rewrite bool_decide_false by (unfold is_u64; lia)|].
  rewrite (u64_id (Z.of_nat z * 4)) by (unfold is_u64; lia).
  rewrite bool_decide_true by (unfold is_u64; lia). f_equal. rewrite u64_id by (unfold is_u64; lia). lia.
Qed.

Section Laws.
Context {S : Type} `{!VMState S} `{!VMStateLaws S} {CRY : Crypto} {PCR : PrecompileCrypto} {PL : PrecompileLaws}.
Variable env : Env S.
Context `{!EnvLaws env}.
Variable loop : M S frame_result.
Variable msg : Message.

(** A message in range, with gas for the fuel [n]. *)
Record wf_msg (n : Z) : Prop := {
  wm_from : is_addr (msg_From msg);
  wm_to : is_addr (to msg);
  wm_price : 0 ≤ msg_GasPrice msg;
  wm_gas : 0 ≤ msg_Gas msg < n;
  wm_gas62 : msg_Gas msg < 2 ^ 62;
  wm_value : 0 ≤ msg_Value msg;
  wm_nonce : is_u64 (msg_Nonce msg);
  wm_data : code_ok (msg_Data msg);
}.

(** The predicate transformer: only the two panics of the machine occur. *)
Definition twp {A} (x : TM S A) (Q : A → StateTransition S → Prop)
    (F : txerror → StateTransition S → Prop) (st : StateTransition S) : Prop :=
  match x st with
  | TOk a st' => Q a st'
  | TErr e st' => F e st'
  | TPanic (TPVM w) => okc w
  | TPanic TPGasPool => False
  | TNoFuel => False
  end.
Lemma twp_bind {A B} (x : TM S A) (k : A → TM S B) Q F st :
  twp x (λ a, twp (k a) Q F) F st → twp (x ≫= k) Q F st.
Proof. unfold twp, mbind, TM_bind. by destruct (x st) as [| |[]|]. Qed.
Lemma twp_mono {A} (x : TM S A) (Q Q' : A → StateTransition S → Prop) (F F' : txerror → StateTransition S → Prop) st :
  twp x Q F st → (∀ a st', Q a st' → Q' a st') → (∀ e st', F e st' → F' e st') → twp x Q' F' st.
Proof. unfold twp. intros H HQ HF. destruct (x st) as [| |[]|]; auto. Qed.
Lemma twp_ret {A} (a : A) Q F st : Q a st → twp (mret a) Q F st.
Proof. done. Qed.
Lemma twp_gets {A} (f : StateTransition S → A) Q F st : Q (f st) st → twp (tgets f) Q F st.
Proof. done. Qed.
Lemma twp_modify f Q F (st : StateTransition S) : Q tt (f st) → twp (tmodify f) Q F st.
Proof. done. Qed.
Lemma twp_fail {A} e (Q : A → _) F (st : StateTransition S) : F e st → twp (tfail e) Q F st.
Proof. done. Qed.
Lemma twp_lift {A} (x : E S A) Q F st :
  ewp x (λ a v, Q a (with_st_evm v st)) (st_evm st) → twp (tlift x) Q F st.
Proof. unfold twp, tlift, ewp. by destruct (x (st_evm st)). Qed.
Lemma twp_read {A} (f : S → A * S) Q F st : let s := statedb (st_evm st) in
  Q (f s).1 (with_st_evm (with_statedb (f s).2 (st_evm st)) st) → twp (tread f) Q F st.
Proof. intros s H. apply twp_lift. unfold ewp, eread. subst s. by destruct (f _). Qed.
Lemma twp_write (f : S → S) Q F st :
  Q tt (with_st_evm (with_statedb (f (statedb (st_evm st))) (st_evm st)) st) → twp (twrite f) Q F st.
Proof. done. Qed.

(** ** Before the message runs *)

Definition mgval : Z := msg_Gas msg * msg_GasPrice msg.

(** The errors of the checks leave the pool and what readers see. *)
Definition rejected (v : evmst S) (p : GasPool) (e : txerror) (st : StateTransition S) : Prop :=
  gp st = p ∧ seq_ (statedb (st_evm st)) (statedb v) ∧ evolves false (statedb v) (statedb (st_evm st)).
(** The gas is bought. *)
Definition bought (v : evmst S) (p : GasPool) (st : StateTransition S) : Prop :=
  ∃ s, sinv s ∧ seq_ s (statedb v) ∧ evolves false (statedb v) s ∧ mgval ≤ bal (msg_From msg) s ∧ msg_Gas msg ≤ p ∧
    st = mkST (p - msg_Gas msg) (msg_Gas msg) (msg_Gas msg)
           (with_statedb (sSubBalance (msg_From msg) mgval s) v).

Lemma with_statedb_twice (s t : S) v : with_statedb s (with_statedb t v) = with_statedb s v.
Proof. done. Qed.

Lemma reads_inv (s s' : S) : sinv s → reads s s' → sinv s' ∧ seq_ s' s.
Proof. intros W H. split; [by eapply sinv_sop, so_read|by apply seq_reads]. Qed.

Lemma buyGas_ok v p s e : is_addr (msg_From msg) → is_u64 (msg_Gas msg) → sinv s → seq_ s (statedb v) → evolves false (statedb v) s →
  twp (buyGas msg) (λ _, bought v p) (λ e st, rejected v p e st ∧
    (e = errInsufficientBalanceForGas ∨ e = ErrGasLimitReached)) (mkST p 0 e (with_statedb s v)).
Proof.
  intros Hfrom Hg W Hs E. unfold buyGas. fold mgval. apply twp_bind, twp_read. simpl.
  destruct (reads_inv s (sGetBalance (msg_From msg) s).2 W ltac:(by constructor)) as [W1 Q1].
  pose proof (bal_reads (msg_From msg) s (sGetBalance (msg_From msg) s).2 W ltac:(by constructor)) as B1.
  set (s1 := (sGetBalance (msg_From msg) s).2) in *. assert (Hs1 : seq_ s1 (statedb v)) by by etrans.
  assert (E1 : evolves false (statedb v) s1) by (etrans; [exact E|by apply evolves_reads, rd_balance]).
  assert (Hrej : ∀ e', rejected v p e' (mkST p 0 e (with_statedb s1 v))) by (intros; unfold rejected; by split_and!).
  destruct (Z.ltb_spec (sGetBalance (msg_From msg) s).1 mgval) as [Hb|Hb].
  { apply twp_fail. split; [apply Hrej|by left]. }
  apply twp_bind, twp_gets. unfold SubGas. simpl. destruct (Z.ltb_spec p (msg_Gas msg)) as [Hp|Hp].
  { apply twp_fail. split; [apply Hrej|by right]. }
  apply twp_bind, twp_modify, twp_bind, twp_modify, twp_bind, twp_modify, twp_write.
  exists s1. split_and!; [done|done|done|unfold bal in *; lia|done|].
  unfold with_gp, with_gas, with_initialGas, with_st_evm. simpl. by rewrite u64_id.
Qed.

Lemma preCheck_ok v p : is_addr (msg_From msg) → is_u64 (msg_Gas msg) → sinv (statedb v) →
  twp (preCheck msg) (λ _ st, bought v p st ∧
      (msg_CheckNonce msg = true → (sGetNonce (msg_From msg) (statedb v)).1 = msg_Nonce msg))
    (λ e st, rejected v p e st ∧ ∀ e', e ≠ VMError e') (mkST p 0 0 v).
Proof.
  intros Hfrom Hg W. unfold preCheck.
  assert (Hbuy : ∀ s, sinv s → seq_ s (statedb v) → evolves false (statedb v) s →
    (msg_CheckNonce msg = true → (sGetNonce (msg_From msg) (statedb v)).1 = msg_Nonce msg) →
    twp (buyGas msg) (λ _ st, bought v p st ∧
      (msg_CheckNonce msg = true → (sGetNonce (msg_From msg) (statedb v)).1 = msg_Nonce msg))
    (λ e st, rejected v p e st ∧ ∀ e', e ≠ VMError e') (mkST p 0 0 (with_statedb s v))).
  { intros s Ws Hs Es Hn. eapply twp_mono; [by apply buyGas_ok|by auto|].
    intros e st [Hr [-> | ->]]; by split. }
  apply twp_bind. destruct (msg_CheckNonce msg).
  2: { apply twp_ret. replace (mkST p 0 0 v) with (mkST p 0 0 (with_statedb (statedb v) v))
         by (by rewrite with_statedb_id). by apply Hbuy. }
  apply twp_bind, twp_read. simpl.
  destruct (reads_inv (statedb v) (sGetNonce (msg_From msg) (statedb v)).2 W ltac:(by constructor)) as [W1 Q1].
  destruct (Z.ltb_spec (sGetNonce (msg_From msg) (statedb v)).1 (msg_Nonce msg)); [by apply twp_fail; split; [split_and!; [| |by apply evolves_reads, rd_nonce]|]|].
  destruct (Z.ltb_spec (msg_Nonce msg) (sGetNonce (msg_From msg) (statedb v)).1); [by apply twp_fail; split; [split_and!; [| |by apply evolves_reads, rd_nonce]|]|].
  apply twp_ret, Hbuy; [done|done|apply evolves_reads; by constructor|lia].
Qed.

(** ** After the message has run *)

Lemma refundGas_ok p left v : is_u64 p → msg_Gas msg ≤ p → 0 ≤ left ≤ msg_Gas msg → msg_Gas msg < 2 ^ 62 →
  sinv (statedb v) →
  twp (refundGas msg) (λ _ st, ∃ r, 0 ≤ r ≤ (msg_Gas msg - left) / 2 ∧
      st = mkST (p - msg_Gas msg + (left + r)) (left + r) (msg_Gas msg)
             (with_statedb (sAddBalance (msg_From msg) ((left + r) * msg_GasPrice msg) (statedb v)) v))
    (λ _ _, False) (mkST (p - msg_Gas msg) left (msg_Gas msg) v).
Proof.
  intros Hp Hg Hl H62 W. unfold refundGas. pose proof (refund_nonneg _ W) as Hr.
  apply twp_bind, twp_gets, twp_bind, twp_gets. unfold gasUsed. simpl.
  unfold is_u64 in Hp. rewrite (u64_id (msg_Gas msg - left)) by (unfold is_u64; lia).
  set (used := msg_Gas msg - left) in *.
  set (r := if sGetRefund (statedb v) <? used / 2 then _ else _).
  assert (0 ≤ r ≤ used / 2) as Hr2.
  { unfold r. pose proof (Z.div_pos used 2). destruct (Z.ltb_spec (sGetRefund (statedb v)) (used / 2)); lia. }
  assert (used / 2 ≤ used) by (apply Z.div_le_upper_bound; lia). clearbody r.
  apply twp_bind, twp_modify, twp_bind, twp_gets, twp_bind, twp_write.
  unfold with_gas, with_st_evm. simpl. rewrite (u64_id (left + r)) by (unfold is_u64; lia).
  unfold twp, gas_to_pool, AddGas. simpl. unfold MaxUint64.
  destruct (Z.ltb_spec (2 ^ 64 - 1 - (left + r)) (p - msg_Gas msg)); [lia|].
  exists r. split; [done|]. unfold with_gp. simpl. f_equal. apply u64_id. unfold is_u64. lia.
Qed.

(** ** The run *)

Definition creation : bool := match msg_To msg with None => true | Some _ => false end.
Definition intrinsic_of : Z := intrinsic (msg_Data msg) creation (IsHomestead (chainConfig env) (BlockNumber env)).

(** The nonce goes up and the call or creation runs on [g] gas. *)
Definition run_msg (g : Z) : TM S call_result :=
  if creation then
    '(ret, _, remaining, vmerr) ← tlift (Create env loop (AccountRef (msg_From msg)) (msg_Data msg) g (msg_Value msg));
    mret (ret, remaining, vmerr)
  else
    nonce ← tread (sGetNonce (msg_From msg));
    twrite (sSetNonce (msg_From msg) (u64 (nonce + 1)));;
    tlift (Call env loop (AccountRef (msg_From msg)) (to msg) (msg_Data msg) g (msg_Value msg)).

(** What a run on the state [s] leaves; a failed call undoes all but the
    nonce. *)
Record ran (g : Z) (v : evmst S) (r : call_result) (st st' : StateTransition S) : Prop := {
  rn_keeps : keeps (FK:=false) v (st_evm st');
  rn_gas : 0 ≤ r.1.2 ≤ g;
  rn_frame : st' = with_st_evm (st_evm st') st;
  rn_failed : creation = false → r.2 ≠ None → ∃ s,
    sinv s ∧ seq_ s (statedb v) ∧
    seq_ (statedb (st_evm st')) (sSetNonce (msg_From msg) (u64 ((sGetNonce (msg_From msg) (statedb v)).1 + 1)) s);
}.

Lemma keeps_evolves (v : evmst S) s v' : evolves (static (FK:=false) v) (statedb v) s →
  keeps (FK:=false) (with_statedb s v) v' → keeps (FK:=false) v v'.
Proof. intros He [K1 K2 K3 K4 K5]. split; try done. by etrans. Qed.

Lemma run_msg_ok n g st : loop_ok (FK:=false) n loop → wf_msg n → wf_evm (st_evm st) →
  0 ≤ g ≤ msg_Gas msg →
  twp (run_msg g) (λ r st', ran g (st_evm st) r st st') (λ _ _, False) st.
Proof.
  intros HL [M1 M2 M3 M4 M5 M6 M7 M8] W Hg. unfold run_msg. destruct creation eqn:Hc.
  - apply twp_bind, twp_lift. eapply ewp_mono.
    { apply (Create_ok (FK:=false) env ltac:(done) n); try done; simpl; lia. }
    intros [[[ret a] rem] err] v' [K Hgas _ _]. apply twp_ret.
    split; [done|done|done|by rewrite Hc].
  - set (v := st_evm st) in *. pose proof (wv_state _ W) as W0. apply twp_bind, twp_read. fold v.
    destruct (reads_inv _ _ W0 (rd_nonce (msg_From msg) (statedb v) M1)) as [W1 Q1].
    set (s1 := (sGetNonce (msg_From msg) (statedb v)).2) in *.
    set (nonce := (sGetNonce (msg_From msg) (statedb v)).1).
    apply twp_bind, twp_write. cbn [with_st_evm st_evm with_statedb statedb].
    set (s2 := sSetNonce _ _ s1).
    assert (E2 : evolves false (statedb v) s2).
    { etrans; [by apply evolves_reads, (rd_nonce (msg_From msg))|]. apply evolves_write; [done|]. apply so_nonce; [done|apply u64_range]. }
    pose proof (evolves_inv _ _ _ W0 E2) as W2.
    apply twp_lift. cbn [with_st_evm st_evm with_statedb statedb]. eapply ewp_mono.
    { apply (Call_ok (FK:=false) env ltac:(done) n _ _ _ _ g); try done; [|lia..|by left].
      by apply (wf_with_statedb s2 v). }
    intros r v' [K _ Hgas _ Hrev]. split.
    + by eapply keeps_evolves.
    + done.
    + by destruct st.
    + intros _ He. exists s1. split_and!; [done|done|]. exact (Hrev He).
Qed.

(** ** The whole transition *)

Record settled (v : evmst S) (p : GasPool) (r : bytes * Z * bool) (st : StateTransition S) : Prop := {
  sd_wf : wf_evm (st_evm st);
  sd_keeps : keeps (FK:=false) v (st_evm st);
  sd_gas : 0 ≤ r.1.2 ≤ msg_Gas msg;
  sd_intrinsic : intrinsic_of ≤ msg_Gas msg ∧ intrinsic_of ≤ 2 * r.1.2;
  sd_bought : msg_Gas msg ≤ p;
  sd_pool : gp st = p - r.1.2;
  sd_failed : creation = false → r.2 = true → ∀ a,
    bal a (statedb (st_evm st)) =
      bal a (statedb v) - (if decide (a = msg_From msg) then r.1.2 * msg_GasPrice msg else 0)
                        + (if decide (a = Coinbase env) then r.1.2 * msg_GasPrice msg else 0) ∧
    (sGetNonce a (statedb (st_evm st))).1 =
      (if decide (a = msg_From msg) then u64 ((sGetNonce a (statedb v)).1 + 1) else (sGetNonce a (statedb v)).1);
}.
Definition not_settled (v : evmst S) (p : GasPool) (e : txerror) (st : StateTransition S) : Prop :=
  (rejected v p e st ∧ ∀ e', e ≠ VMError e') ∨
  (msg_Gas msg ≤ p ∧ gp st = p - msg_Gas msg ∧ evolves false (statedb v) (statedb (st_evm st)) ∧ ∃ e', e = VMError e').

Lemma seq_bal (s s' : S) a : seq_ s' s → bal a s' = bal a s.
Proof. intros H. apply (rq_accounts _ _ (seq_readers _ _ H)). Qed.
Lemma seq_nonce (s s' : S) a : seq_ s' s → (sGetNonce a s').1 = (sGetNonce a s).1.
Proof. intros H. apply (rq_accounts _ _ (seq_readers _ _ H)). Qed.
Lemma seq_inv_bal_nonce (s t : S) a n c : sinv s → seq_ t (sSetNonce c n s) →
  bal a t = bal a s ∧ (sGetNonce a t).1 = if decide (a = c) then n else (sGetNonce a s).1.
Proof. intros W H. by rewrite (seq_bal _ _ _ H), (seq_nonce _ _ _ H), bal_nonce, nonce_set. Qed.

(** The end of a transition whose run is over. *)
Lemma settle_ok v p r1 s1 st (out : bytes) g rem err :
  wf_msg (msg_Gas msg + 1) → is_u64 p → msg_Gas msg ≤ p → g = msg_Gas msg - intrinsic_of → 0 ≤ intrinsic_of ≤ msg_Gas msg →
  sinv s1 → seq_ s1 (statedb v) → mgval ≤ bal (msg_From msg) s1 → evolves false (statedb v) s1 →
  wf_evm v → r1 = (out, rem, err) →
  ran g (with_statedb (sSubBalance (msg_From msg) mgval s1) v) r1
    (mkST (p - msg_Gas msg) g (msg_Gas msg) (with_statedb (sSubBalance (msg_From msg) mgval s1) v)) st →
  twp (tmodify (with_gas rem);;
       if bool_decide (err = Some ErrInsufficientBalance) then tfail (VMError ErrInsufficientBalance)
       else
         refundGas msg;; used ← tgets gasUsed;
         twrite (sAddBalance (Coinbase env) (used * msg_GasPrice msg));;
         mret (out, used, negb (bool_decide (err = None))))
    (settled v p) (not_settled v p) st.
Proof.
  intros [M1 M2 M3 M4 M5 M6 M7 M8] Hp Hgp -> Hi W1 Q1 Hb E1 Wv -> [K Hgas Hf Hfail]. simpl in Hgas, Hfail.
  rewrite Hf. set (v2 := st_evm st) in *. clearbody v2. clear Hf st.
  apply twp_bind, twp_modify. unfold with_gas, with_st_evm. simpl.
  assert (Hm : 0 ≤ mgval) by (unfold mgval; nia).
  assert (Evb : evolves false (statedb v) (sSubBalance (msg_From msg) mgval s1)).
  { etrans; [exact E1|]. apply evolves_write; [done|]. by apply so_sub. }
  destruct (bool_decide (err = Some ErrInsufficientBalance)).
  { apply twp_fail. right. split_and!; [done|done| |by eexists]. etrans; [exact Evb|]. eapply evolves_mono; [|apply K]. done. }
  set (s2 := sSubBalance (msg_From msg) mgval s1) in *.
  pose proof Evb as E2.
  assert (E3 : evolves false (statedb v) (statedb v2)).
  { etrans; [exact E2|]. eapply evolves_mono; [|apply K]. done. }
  pose proof (evolves_inv _ _ _ (wv_state _ Wv) E3) as W3.
  apply twp_bind. eapply twp_mono; [apply (refundGas_ok p rem v2); try done; lia| |done].
  intros [] st (r & Hr & ->). apply twp_bind, twp_gets, twp_bind, twp_write. unfold gasUsed. simpl.
  set (used := u64 (msg_Gas msg - (rem + r))).
  assert (Hd : (msg_Gas msg - rem) / 2 * 2 ≤ msg_Gas msg - rem) by (pose proof (Z.mul_div_le (msg_Gas msg - rem) 2); lia).
  unfold is_u64 in *. assert (Hu : used = msg_Gas msg - (rem + r)) by (apply u64_id; unfold is_u64; lia).
  apply twp_ret. unfold with_st_evm. simpl.
  set (s3 := sAddBalance (msg_From msg) _ (statedb v2)).
  assert (E4 : evolves false (statedb v2) s3) by (apply evolves_write; [done|]; apply so_add; [done|nia]).
  pose proof (evolves_inv _ _ _ W3 E4) as W4. set (s4 := sAddBalance (Coinbase env) _ s3).
  assert (E5 : evolves false s3 s4) by (apply evolves_write; [done|]; apply so_add; [apply Coinbase_addr|nia]).
  pose proof (evolves_inv _ _ _ W4 E5) as W5. destruct K as [K1 K2 K3 K4 K5].
  assert (Hkeep : keeps (FK:=false) v (with_statedb s4 v2)).
  { split; try done. simpl. etrans; [exact E3|]. etrans; [exact E4|exact E5]. }
  split; simpl; [by eapply wf_keeps|done|lia|lia|done|lia|].
  intros Hc Hbad a. destruct (Hfail Hc) as (s & Ws & Qs & Q).
  { intros ->. by rewrite bool_decide_true in Hbad. }
  destruct (seq_inv_bal_nonce s (statedb v2) a _ _ Ws Q) as [B N]. rewrite (seq_bal s2 s), (seq_nonce s2 s) in * by done.
  pose proof (bal_sub a (msg_From msg) mgval s1 W1) as B2. pose proof (nonce_sub a (msg_From msg) mgval s1 W1) as N2.
  fold s2 in B2, N2. rewrite (seq_bal _ _ _ Q1), (seq_nonce _ _ _ Q1) in *.
  unfold s4. rewrite bal_add, nonce_add by done. unfold s3. rewrite bal_add, nonce_add by done.
  rewrite Hu. split; [|rewrite N; destruct (decide _) as [Ea|]; [by rewrite <- Ea, N2|done]].
  rewrite B, B2. unfold mgval. repeat destruct (decide _); lia.
Qed.

Lemma intrinsic_of_nonneg : 0 ≤ intrinsic_of.
Proof.
  unfold intrinsic_of, intrinsic, TxGasContractCreation, TxGas, TxDataNonZeroGas, TxDataZeroGas.
  destruct (_ && _); lia.
Qed.

(** A message that the pool has not the gas for does not run. *)
Lemma TransitionDb_ok n v p : loop_ok (FK:=false) n loop → is_addr (msg_From msg) → is_u64 (msg_Gas msg) →
  (msg_Gas msg ≤ p → wf_msg n) → wf_evm v → is_u64 p →
  twp (TransitionDb env loop msg) (settled v p) (not_settled v p) (mkST p 0 0 v).
Proof.
  intros HL Hfrom Hg64 HM W Hp. unfold TransitionDb. apply twp_bind. eapply twp_mono; [apply preCheck_ok; [done..|apply W]| |].
  2: { intros e st [Hr Hne]. left. by split. }
  intros [] st [(s1 & W1 & Q1 & E1 & Hb & Hgp & ->) _]. specialize (HM Hgp). pose proof HM as [M1 M2 M3 M4 M5 M6 M7 M8].
  assert (Hbad : ∀ e g, not_settled v p (VMError e)
    (mkST (p - msg_Gas msg) g (msg_Gas msg) (with_statedb (sSubBalance (msg_From msg) mgval s1) v))).
  { intros e g. right. split_and!; [done|done| |by eexists]. simpl. etrans; [exact E1|]. apply evolves_write; [done|].
    apply so_sub; [done|]. unfold mgval in *. nia. }
  fold creation. rewrite IntrinsicGas_spec by (destruct M8; unfold is_u64; pose proof (zlen_nonneg (msg_Data msg)); lia).
  fold intrinsic_of. case_bool_decide as Hi; [|apply twp_fail, Hbad].
  apply twp_bind. unfold twp at 1, st_useGas. simpl.
  destruct (Z.ltb_spec (msg_Gas msg) intrinsic_of); [by apply Hbad|].
  unfold with_gas. simpl. apply twp_bind, twp_gets. simpl.
  assert (W2 : wf_evm (with_statedb (sSubBalance (msg_From msg) mgval s1) v)).
  { apply wf_with_statedb; [done|]. eapply sinv_sop; [done|]. apply so_sub; [done|]. unfold mgval in *. nia. }
  apply twp_bind. eapply twp_mono; [apply (run_msg_ok n (msg_Gas msg - intrinsic_of)
    (mkST (p - msg_Gas msg) (msg_Gas msg - intrinsic_of) (msg_Gas msg)
      (with_statedb (sSubBalance (msg_From msg) mgval s1) v))); try done; pose proof intrinsic_of_nonneg; lia| |done].
  intros [[out rem] err] st HR. simpl. eapply settle_ok; try done.
  - split; try done. lia.
  - pose proof intrinsic_of_nonneg. lia.
Qed.

End Laws.

(** ** Any message, on the loop of the machine *)

Section Apply.
Context {S : Type} `{!VMState S} `{!VMStateLaws S} {CRY : Crypto} {PCR : PrecompileCrypto} {PL : PrecompileLaws}.
Variable env : Env S.
Context `{!EnvLaws env}.
Lemma ApplyMessage_any fuel msg v p : is_addr (msg_From msg) → is_u64 (msg_Gas msg) → (msg_Gas msg ≤ p → wf_msg msg (Z.of_nat fuel)) →
  wf_evm v → is_u64 p →
  match ApplyMessage env (run_loop env fuel) msg v p with
  | TOk r st => settled env msg v p r st
  | TErr e st => not_settled msg v p e st
  | TPanic (TPVM w) => okc w
  | TPanic TPGasPool | TNoFuel => False
  end.
Proof.
  intros Hf Hg HM W Hp. apply (TransitionDb_ok env (run_loop env fuel) msg (Z.of_nat fuel)); try done.
  by apply run_loop_ok.
Qed.
Lemma ApplyMessage_ok fuel msg v p : wf_msg msg (Z.of_nat fuel) → wf_evm v → is_u64 p →
  match ApplyMessage env (run_loop env fuel) msg v p with
  | TOk r st => settled env msg v p r st
  | TErr e st => not_settled msg v p e st
  | TPanic (TPVM w) => okc w
  | TPanic TPGasPool | TNoFuel => False
  end.
Proof. intros HM. apply ApplyMessage_any; [apply HM|destruct HM; unfold is_u64; lia|done]. Qed.
End Apply.
