(* ===== verification/Hashimoto.v ===== *)
(** * The ethash algorithm

    [consensus/ethash/algorithm.go]: the sizes and the generation of the
    verification cache and of the mining dataset, and [hashimoto] over either,
    with the part of [ethash.go] that generates both for an epoch.  Buffers of
    [uint32] are lists of words.  [None]: an index out of range, or a division
    by zero, which panic.  The progress logs, the files and the pools of
    generated buffers have no counterpart. *)

From S2P Require Import Prelude BigMath Interfaces Memory.

(** [sha3.NewKeccak512] *)
Class Crypto512 := {
  Keccak512 : bytes → bytes;
  Keccak512_length : ∀ b, length (Keccak512 b) = 64%nat;
  Keccak512_bytes : ∀ b, is_bytes (Keccak512 b);
}.

Definition u32 (z : Z) : Z := z mod 2 ^ 32.
Definition is_u32 (z : Z) : Prop := 0 ≤ z < 2 ^ 32.
Definition guard_at (b : bool) : option unit := if b then Some tt else None.

(** [binary.LittleEndian] *)
Definition LittleEndian_Uint32 (b : bytes) : Z := le_val (take 4 b).
Definition PutUint32 (v : Z) : bytes := le_bytes 4 v.
(** The words at [0], [4], ... of a buffer, and the other way round. *)
Fixpoint to_words (b : bytes) : list Z :=
  match b with
  | b0 :: b1 :: b2 :: b3 :: r => LittleEndian_Uint32 [b0; b1; b2; b3] :: to_words r
  | _ => []
  end.
Definition of_words (ws : list Z) : bytes := concat (map PutUint32 ws).

(** ** Sizes *)

Definition datasetInitBytes : Z := 2 ^ 30.
Definition datasetGrowthBytes : Z := 2 ^ 23.
Definition cacheInitBytes : Z := 2 ^ 24.
Definition cacheGrowthBytes : Z := 2 ^ 17.
Definition epochLength : Z := 30000.
Definition mixBytes : Z := 128.
Definition hashBytes : Z := 64.
Definition hashWords : Z := 16.
Definition datasetParents : Z := 256.
Definition cacheRounds : Z := 3.
Definition loopAccesses : Z := 64.

(** [ProbablyPrime] of [math/big], which is exact below 2^64: trial division
    by 2 and the odd numbers up to the square root. *)
Fixpoint no_odd_divisor (fuel : nat) (d n : Z) : bool :=
  match fuel with
  | O => true
  | S fuel => if n <? d * d then true
              else if n mod d =? 0 then false else no_odd_divisor fuel (d + 2) n
  end.
Definition ProbablyPrime (n : Z) : bool :=
  if n <? 2 then false else if n =? 2 then true else if n mod 2 =? 0 then false
  else no_odd_divisor (Z.to_nat (Z.sqrt n)) 3 n.

Fixpoint calcSize_loop (fuel : nat) (unit size : Z) : option Z :=
  match fuel with
  | O => None
  | S fuel => if ProbablyPrime (size / unit) then Some size
              else calcSize_loop fuel unit (u64 (size - 2 * unit))
  end.
Definition calcCacheSize (fuel : nat) (epoch : Z) : option Z :=
  calcSize_loop fuel hashBytes (u64 (cacheInitBytes + u64 (cacheGrowthBytes * epoch) - hashBytes)).
Definition calcDatasetSize (fuel : nat) (epoch : Z) : option Z :=
  calcSize_loop fuel mixBytes (u64 (datasetInitBytes + u64 (datasetGrowthBytes * epoch) - mixBytes)).

Section Algorithm.
Context {CRY : Crypto} {C512 : Crypto512}.

(** [seedHash]: the seed is overwritten by its hash once per epoch. *)
Definition seedHash (block : Z) : bytes :=
  let seed := replicate 32 0 in
  if block <? epochLength then seed
  else Nat.iter (Z.to_nat (block / epochLength)) Keccak256 seed.

(** ** The cache *)

(** [dst[o:]] and [dst[s:e]] *)
Definition bslice (data : bytes) (s e : Z) : option bytes :=
  match slice data s e with Ok d => Some d | _ => None end.
(** [keccak512(cache[o:], data)], into the 64 bytes at [o]. *)
Definition keccak512_at (cache : bytes) (o : Z) (data : bytes) : option bytes :=
  guard_at ((0 <=? o) && (o + hashBytes <=? zlen cache));;
  Some (copy_into cache o hashBytes (Keccak512 data)).

(** [for offset := hashBytes; offset < size; offset += hashBytes] *)
Fixpoint fill_loop (fuel : nat) (offset : Z) (cache : bytes) : option bytes :=
  match fuel with
  | O => Some cache
  | S fuel =>
      if offset <? zlen cache then
        src ← bslice cache (offset - hashBytes) offset;
        cache ← keccak512_at cache offset src;
        fill_loop fuel (offset + hashBytes) cache
      else Some cache
  end.

(** [bitutil.XORBytes], of the shorter length. *)
Definition XORBytes (a b : bytes) : bytes := zip_with Z.lxor a b.

(** One row of a round of [randmemohash]. *)
Definition memo_row (rows j : Z) (cache : bytes) : option bytes :=
  guard_at (negb (rows =? 0));;
  let srcOff := ((j - 1 + rows) mod rows) * hashBytes in
  let dstOff := j * hashBytes in
  w ← bslice cache dstOff (dstOff + 4);
  guard_at (negb (u32 rows =? 0));;
  let xorOff := u32 ((LittleEndian_Uint32 w mod u32 rows) * hashBytes) in
  a ← bslice cache srcOff (srcOff + hashBytes);
  b ← bslice cache xorOff (xorOff + hashBytes);
  keccak512_at cache dstOff (XORBytes a b).
Fixpoint memo_rows (rows : Z) (js : list Z) (cache : bytes) : option bytes :=
  match js with
  | [] => Some cache
  | j :: js => cache ← memo_row rows j cache; memo_rows rows js cache
  end.
Fixpoint memo_rounds (n : nat) (rows : Z) (cache : bytes) : option bytes :=
  match n with
  | O => Some cache
  | S n => cache ← memo_rows rows (seqZ 0 rows) cache; memo_rounds n rows cache
  end.

(** [generateCache], of a destination of [size] zero bytes.  The buffer is
    read back as words, which [swap] makes little-endian on every machine. *)
Definition generateCache (size : Z) (seed : bytes) : option (list Z) :=
  let cache := replicate (Z.to_nat size) 0 in
  let rows := size / hashBytes in
  cache ← keccak512_at cache 0 seed;
  cache ← fill_loop (Z.to_nat rows) hashBytes cache;
  cache ← memo_rounds (Z.to_nat cacheRounds) rows cache;
  Some (to_words cache).

(** ** Items of the dataset *)

Definition fnv (a b : Z) : Z := Z.lxor (u32 (a * 0x01000193)) b.
(** [fnvHash]: reads as many words of [data] as [mix] has. *)
Definition fnvHash (mix data : list Z) : option (list Z) :=
  guard_at (zlen mix <=? zlen data);;
  Some (zip_with (λ m d, Z.lxor (u32 (m * 0x01000193)) d) mix data).

(** [cache[i]] *)
Definition word_at (ws : list Z) (i : Z) : option Z := ws !! Z.to_nat i.
(** [cache[o:]] *)
Definition words_from (ws : list Z) (o : Z) : option (list Z) :=
  guard_at (o <=? zlen ws);; Some (drop (Z.to_nat o) ws).

Fixpoint parents_loop (js : list Z) (cache : list Z) (rows index : Z) (intMix : list Z) : option (list Z) :=
  match js with
  | [] => Some intMix
  | i :: js =>
      m ← word_at intMix (i mod 16);
      let parent := fnv (Z.lxor index i) m mod rows in
      data ← words_from cache (u32 (parent * hashWords));
      intMix ← fnvHash intMix data;
      parents_loop js cache rows index intMix
  end.

Definition generateDatasetItem (cache : list Z) (index : Z) : option bytes :=
  let rows := u32 (zlen cache / hashWords) in
  guard_at (negb (rows =? 0));;
  let base := u32 ((index mod rows) * hashWords) in
  w ← word_at cache base;
  ws ← mapM (λ i, word_at cache (u32 (base + i))) (seqZ 1 15);
  let mix := of_words (Z.lxor w index :: ws) in
  let mix := Keccak512 mix in
  intMix ← parents_loop (seqZ 0 datasetParents) cache rows index (to_words mix);
  Some (Keccak512 (of_words intMix)).

(** ** The dataset *)

(** The indices that thread [id] of [threads] generates. *)
Definition thread_items (size threads id : Z) : list Z :=
  let batch := u32 (u64 (u64 (size + hashBytes * threads) - 1) / u64 (hashBytes * threads)) in
  let first := u32 (u32 id * batch) in
  let limit := u32 (first + batch) in
  let limit := if u32 (size / hashBytes) <? limit then u32 (size / hashBytes) else limit in
  seqZ first (limit - first).

(** One turn of a thread: [copy(dataset[index*hashBytes:], item)], and the
    progress, a division by a hundredth of the items. *)
Definition write_item (cache : list Z) (dataset : bytes) (index : Z) : option bytes :=
  item ← generateDatasetItem cache index;
  let o := u32 (index * hashBytes) in
  guard_at (o <=? zlen dataset);;
  guard_at (negb (u32 (zlen dataset / hashBytes / 100) =? 0));;
  Some (copy_into dataset o (zlen dataset - o) item).
Fixpoint write_items (cache : list Z) (schedule : list Z) (dataset : bytes) : option bytes :=
  match schedule with
  | [] => Some dataset
  | i :: schedule => dataset ← write_item cache dataset i; write_items cache schedule dataset
  end.

(** [generateDataset], of a destination of [size] zero bytes, when the threads
    take their turns in the order [schedule], an interleaving of the
    [thread_items]. *)
Definition generateDataset (size : Z) (cache : list Z) (schedule : list Z) : option (list Z) :=
  dataset ← write_items cache schedule (replicate (Z.to_nat size) 0);
  Some (to_words dataset).

(** ** hashimoto *)

Section Hashimoto.
Variable lookup : Z → option (list Z).

(** [copy(temp[j*hashWords:], lookup(2*parent+j))] for [j] below 2. *)
Definition lookup_two (parent : Z) (temp : list Z) : option (list Z) :=
  d0 ← lookup (u32 (2 * parent));
  let temp := copy_into temp 0 (zlen temp) d0 in
  d1 ← lookup (u32 (2 * parent + 1));
  Some (copy_into temp hashWords (zlen temp - hashWords) d1).
Fixpoint access_loop (ks : list Z) (rows seedHead : Z) (temp mix : list Z) : option (list Z) :=
  match ks with
  | [] => Some mix
  | i :: ks =>
      m ← word_at mix (i mod zlen mix);
      let parent := fnv (Z.lxor i seedHead) m mod rows in
      temp ← lookup_two parent temp;
      mix ← fnvHash mix temp;
      access_loop ks rows seedHead temp mix
  end.
(** [mix[i/4] = ...] for [i] in steps of four, in place. *)
Fixpoint compress_loop (ks : list Z) (mix : list Z) : option (list Z) :=
  match ks with
  | [] => Some mix
  | i :: ks =>
      a ← word_at mix i; b ← word_at mix (i + 1); c ← word_at mix (i + 2); d ← word_at mix (i + 3);
      compress_loop ks (<[Z.to_nat (i / 4) := fnv (fnv (fnv a b) c) d]> mix)
  end.

Definition hashimoto (hash : bytes) (nonce size : Z) : option (bytes * bytes) :=
  let rows := u32 (size / mixBytes) in
  let seed := take 32 (hash ++ replicate 40 0) ++ le_bytes 8 nonce in
  let seed := Keccak512 seed in
  let seedHead := LittleEndian_Uint32 seed in
  let mix := to_words seed ++ to_words seed in
  guard_at (negb (rows =? 0));;
  mix ← access_loop (seqZ 0 loopAccesses) rows seedHead (replicate 32 0) mix;
  mix ← compress_loop (map (λ k, 4 * k) (seqZ 0 8)) mix;
  let digest := of_words (take 8 mix) in
  Some (digest, Keccak256 (seed ++ digest)).
End Hashimoto.

Definition hashimotoLight (size : Z) (cache : list Z) (hash : bytes) (nonce : Z) : option (bytes * bytes) :=
  hashimoto (λ index, to_words <$> generateDatasetItem cache index) hash nonce size.
(** [dataset[offset : offset+hashWords]] *)
Definition hashimotoFull (dataset : list Z) (hash : bytes) (nonce : Z) : option (bytes * bytes) :=
  hashimoto (λ index, let offset := u32 (index * hashWords) in bslice dataset offset (u32 (offset + hashWords)))
    hash nonce (u64 (zlen dataset * 4)).

End Algorithm.
