(* ===== verification/HashimotoLaws.v ===== *)
(** * Laws of the ethash algorithm

    Words and bytes; every access of the generation of the cache, of an item
    and of the dataset is in range; the dataset holds its items whatever the
    interleaving of the threads; [hashimoto] depends on the items it looks up
    only. *)

From S2P Require Import Prelude BigMath Interfaces Memory Hashimoto.

(** ** Words *)

Lemma u32_range z : is_u32 (u32 z).
Proof. apply Z.mod_pos_bound. lia. Qed.
Lemma u32_id z : is_u32 z → u32 z = z.
Proof. apply Z.mod_small. Qed.

Lemma length_of_words ws : length (of_words ws) = (4 * length ws)%nat.
Proof.
  induction ws as [|w ws IH]; [done|]. unfold of_words in *. cbn [map concat length].
  rewrite length_app, IH. unfold PutUint32. rewrite length_le_bytes. lia.
Qed.
Lemma is_bytes_of_words ws : is_bytes (of_words ws).
Proof.
  induction ws as [|w ws IH]; [constructor|]. apply is_bytes_app. split; [apply is_bytes_le_bytes|apply IH].
Qed.
Lemma to_words_cons b0 b1 b2 b3 r : to_words ([b0; b1; b2; b3] ++ r) = le_val [b0; b1; b2; b3] :: to_words r.
Proof. done. Qed.
Lemma of_words_cons w ws : of_words (w :: ws) = PutUint32 w ++ of_words ws.
Proof. done. Qed.
Lemma to_words_of_words ws : Forall is_u32 ws → to_words (of_words ws) = ws.
Proof.
  induction 1 as [|w ws Hw Hws IH]; [done|]. rewrite of_words_cons.
  change (PutUint32 w) with [w mod 256; w / 256 mod 256; w / 256 / 256 mod 256; w / 256 / 256 / 256 mod 256].
  rewrite to_words_cons, IH. f_equal.
  change (le_val (le_bytes 4 w) = w). rewrite le_val_le_bytes. by apply Z.mod_small.
Qed.
(** Induction by chunks of a fixed length. *)
Lemma length_ind4 (P : bytes → Prop) : P [] →
  (∀ a b c d r, P r → P (a :: b :: c :: d :: r)) → ∀ n l, length l = (4 * n)%nat → P l.
Proof.
  intros H0 H4. induction n as [|n IH]; intros l Hl.
  - by destruct l.
  - destruct l as [|a [|b [|c [|d r]]]]; cbn [length] in Hl; try lia. apply H4, IH. lia.
Qed.
Lemma to_words_app n a b : length a = (4 * n)%nat → to_words (a ++ b) = to_words a ++ to_words b.
Proof.
  intros Ha. revert n a Ha. apply (length_ind4 (λ a, to_words (a ++ b) = to_words a ++ to_words b)); [done|].
  intros w x y z r IH. simpl. by rewrite IH.
Qed.
Lemma length_to_words n a : length a = (4 * n)%nat → length (to_words a) = n.
Proof.
  revert a. induction n as [|n IH]; intros a Ha; [by destruct a|].
  destruct a as [|x [|y [|z [|w r]]]]; cbn [length] in Ha; try lia. simpl. f_equal. apply IH. lia.
Qed.
Lemma is_u32_to_words n a : length a = (4 * n)%nat → is_bytes a → Forall is_u32 (to_words a).
Proof.
  intros Ha. revert n a Ha. apply (length_ind4 (λ a, is_bytes a → Forall is_u32 (to_words a))); [constructor|].
  intros w x y z r IH H. change (w :: x :: y :: z :: r) with ([w; x; y; z] ++ r) in H.
  apply is_bytes_app in H as [H1 H2]. constructor; [|by apply IH].
  exact (le_val_bound [w; x; y; z] H1).
Qed.

(** ** Slices of buffers *)

Lemma guard_some (b : bool) {A} (x : option A) : b = true → (guard_at b;; x) = x.
Proof. by intros ->. Qed.
Lemma guard_inv (b : bool) {A} (x : option A) (y : A) : (guard_at b;; x) = Some y → b = true ∧ x = Some y.
Proof. by destruct b. Qed.

Lemma bslice_ok d s e : 0 ≤ s ≤ e → e ≤ zlen d →
  bslice d s e = Some (take (Z.to_nat (e - s)) (drop (Z.to_nat s) d)).
Proof. intros. unfold bslice. by rewrite slice_ok. Qed.
Lemma bslice_total d s e : 0 ≤ s ≤ e → e ≤ zlen d → ∃ x, bslice d s e = Some x ∧ zlen x = e - s.
Proof.
  intros Hs He. rewrite bslice_ok by done. eexists. split; [done|]. unfold zlen in *.
  rewrite length_take, length_drop. lia.
Qed.
Lemma zlen_copy_into dst o size src : 0 ≤ o → 0 ≤ size → o + size ≤ zlen dst →
  zlen (copy_into dst o size src) = zlen dst.
Proof. intros Ho _ Hs. unfold zlen at 1. by rewrite length_copy_into. Qed.

Section Laws.
Context {CRY : Crypto} {C512 : Crypto512}.

(** ** Generating the cache *)

Lemma keccak512_at_total c o d : 0 ≤ o → o + 64 ≤ zlen c →
  ∃ c', keccak512_at c o d = Some c' ∧ zlen c' = zlen c.
Proof.
  intros Ho Hc. unfold keccak512_at, hashBytes. rewrite guard_some by lia. eexists. split; [done|].
  apply zlen_copy_into; lia.
Qed.
Lemma fill_loop_total fuel k rows c : 0 < k → zlen c = rows * 64 →
  ∃ c', fill_loop fuel (k * 64) c = Some c' ∧ zlen c' = zlen c.
Proof.
  intros Hk. revert k Hk c. induction fuel as [|fuel IH]; intros k Hk c Hc; [by exists c|].
  simpl. unfold hashBytes. destruct (Z.ltb_spec (k * 64) (zlen c)); [|by exists c].
  destruct (bslice_total c (k * 64 - 64) (k * 64)) as (x & -> & _); [lia..|]. simpl.
  destruct (keccak512_at_total c (k * 64) x) as (c' & -> & Hc'); [lia..|]. simpl.
  replace (k * 64 + 64) with ((k + 1) * 64) by lia.
  destruct (IH (k + 1)) with (c := c') as (c2 & E & Hc2); [lia..|]. exists c2. split; [done|lia].
Qed.
Lemma memo_row_total rows j c : 0 < rows < 2 ^ 26 → 0 ≤ j < rows → zlen c = rows * 64 →
  ∃ c', memo_row rows j c = Some c' ∧ zlen c' = zlen c.
Proof.
  intros Hr Hj Hc. unfold memo_row, hashBytes. rewrite guard_some by lia. 
  destruct (bslice_total c (j * 64) (j * 64 + 4)) as (w & -> & _); [lia..|]. simpl.
  rewrite (u32_id rows) by (unfold is_u32; lia). rewrite guard_some by lia.
  pose proof (Z.mod_pos_bound (j - 1 + rows) rows ltac:(lia)) as Hs.
  pose proof (Z.mod_pos_bound (LittleEndian_Uint32 w) rows ltac:(lia)) as Hx.
  rewrite u32_id by (unfold is_u32; lia).
  edestruct (bslice_total c ((j - 1 + rows) mod rows * 64)) as (a & -> & _); [| |simpl]; [lia..|].
  edestruct (bslice_total c (LittleEndian_Uint32 w mod rows * 64)) as (b & -> & _); [| |simpl]; [lia..|].
  apply keccak512_at_total; lia.
Qed.
Lemma memo_rows_total rows js c : 0 < rows < 2 ^ 26 → Forall (λ j, 0 ≤ j < rows) js → zlen c = rows * 64 →
  ∃ c', memo_rows rows js c = Some c' ∧ zlen c' = zlen c.
Proof.
  intros Hr Hjs. revert c. induction Hjs as [|j js Hj _ IH]; intros c Hc; [by exists c|]. simpl.
  destruct (memo_row_total rows j c) as (c' & -> & Hc'); [done..|]. simpl.
  destruct (IH c') as (c2 & -> & Hc2); [lia|]. exists c2. split; [done|lia].
Qed.
Lemma seqZ_range m n : Forall (λ j, m ≤ j < m + n) (seqZ m n).
Proof. apply Forall_forall. intros j. rewrite elem_of_seqZ. lia. Qed.
Lemma memo_rounds_total n rows c : 0 < rows < 2 ^ 26 → zlen c = rows * 64 →
  ∃ c', memo_rounds n rows c = Some c' ∧ zlen c' = zlen c.
Proof.
  intros Hr. revert c. induction n as [|n IH]; intros c Hc; [by exists c|]. simpl.
  destruct (memo_rows_total rows (seqZ 0 rows) c) as (c' & -> & Hc'); [done|apply (seqZ_range 0)|done|]. simpl.
  destruct (IH c') as (c2 & -> & Hc2); [lia|]. exists c2. split; [done|lia].
Qed.
Lemma generateCache_total rows seed : 0 < rows < 2 ^ 26 →
  ∃ c, generateCache (rows * hashBytes) seed = Some c ∧ zlen c = rows * hashWords.
Proof.
  intros Hr. unfold generateCache, hashBytes. rewrite Z.div_mul by lia.
  set (c0 := replicate _ 0). assert (H0 : zlen c0 = rows * 64) by (subst c0; rewrite zlen_replicate; lia).
  destruct (keccak512_at_total c0 0 seed) as (c1 & -> & H1); [lia..|]. cbn [mbind option_bind].
  destruct (fill_loop_total (Z.to_nat rows) 1 rows c1) as (c2 & E & H2); [lia..|].
  change (1 * 64) with 64 in E. rewrite E. cbn [mbind option_bind].
  destruct (memo_rounds_total (Z.to_nat cacheRounds) rows c2) as (c3 & -> & H3); [lia..|]. cbn [mbind option_bind].
  eexists. split; [done|]. unfold zlen, hashWords in *. rewrite (length_to_words (Z.to_nat (rows * 16))); lia.
Qed.


(** ** Items of the dataset *)

Lemma fnvHash_total mix data : zlen mix ≤ zlen data → ∃ x, fnvHash mix data = Some x ∧ zlen x = zlen mix.
Proof.
  intros H. unfold fnvHash. rewrite guard_some by lia. eexists. split; [done|].
  unfold zlen in *. rewrite length_zip_with_l; lia.
Qed.
Lemma word_at_total ws i : 0 ≤ i < zlen ws → ∃ w, word_at ws i = Some w.
Proof. intros H. apply lookup_lt_is_Some_2. unfold zlen in H. lia. Qed.
Lemma words_from_total ws o n : 0 ≤ o → o + n ≤ zlen ws → 0 ≤ n → ∃ x, words_from ws o = Some x ∧ n ≤ zlen x.
Proof.
  intros Ho Hn Hn0. unfold words_from. rewrite guard_some by lia. eexists. split; [done|].
  unfold zlen in *. rewrite length_drop. lia.
Qed.
Lemma parents_loop_total js cache rows index m :
  0 < rows < 2 ^ 28 → zlen cache = rows * hashWords → Forall (λ j, 0 ≤ j) js → zlen m = 16 →
  ∃ x, parents_loop js cache rows index m = Some x ∧ zlen x = 16.
Proof.
  intros Hr Hc Hjs. unfold hashWords in *. revert m. induction Hjs as [|j js Hj _ IH]; intros m Hm; [by exists m|].
  simpl. pose proof (Z.mod_pos_bound j 16 ltac:(lia)).
  destruct (word_at_total m (j mod 16)) as [w ->]; [lia|]. simpl.
  pose proof (Z.mod_pos_bound (fnv (Z.lxor index j) w) rows ltac:(lia)) as Hp.
  unfold hashWords. rewrite u32_id by (unfold is_u32; lia).
  destruct (words_from_total cache (fnv (Z.lxor index j) w mod rows * 16) 16) as (d & -> & Hd); [lia..|]. simpl.
  destruct (fnvHash_total m d) as (x & -> & Hx); [lia|]. simpl. apply IH. lia.
Qed.
Lemma mapM_total {A B} (f : A → option B) l : (∀ x, x ∈ l → ∃ y, f x = Some y) →
  ∃ ys, mapM f l = Some ys ∧ length ys = length l.
Proof.
  intros H. assert (Hs : is_Some (mapM f l)).
  { apply mapM_is_Some_2, Forall_forall. intros x Hx. by apply H. }
  destruct Hs as [ys Hys]. exists ys. split; [done|]. symmetry. by eapply length_mapM.
Qed.
Lemma generateDatasetItem_total cache rows index :
  0 < rows < 2 ^ 28 → zlen cache = rows * hashWords →
  ∃ item, generateDatasetItem cache index = Some item ∧ length item = 64%nat ∧ is_bytes item.
Proof.
  intros Hr Hc. unfold generateDatasetItem. pose proof Hc as Hl. unfold hashWords in *. rewrite Hl, Z.div_mul by lia.
  rewrite (u32_id rows) by (unfold is_u32; lia). rewrite guard_some by lia.
  pose proof (Z.mod_pos_bound index rows ltac:(lia)) as Hi. rewrite (u32_id (_ * 16)) by (unfold is_u32; lia).
  destruct (word_at_total cache (index mod rows * 16)) as [w ->]; [lia|]. cbn [mbind option_bind].
  destruct (mapM_total (λ i, word_at cache (u32 (index mod rows * 16 + i))) (seqZ 1 15)) as (ws & -> & Hws).
  { intros i [Hi1 Hi2]%elem_of_seqZ. rewrite u32_id by (unfold is_u32; lia). apply word_at_total. lia. }
  cbn [mbind option_bind].
  edestruct (parents_loop_total (seqZ 0 datasetParents) cache rows index) as (x & -> & Hx);
    [exact Hr|exact Hc| | |cbn [mbind option_bind]].
  { eapply Forall_impl; [apply seqZ_range|]. intros j [Hj _]. exact Hj. }
  { unfold zlen. erewrite (length_to_words 16); [done|apply Keccak512_length]. }
  eexists. split; [done|]. split; [apply Keccak512_length|apply Keccak512_bytes].
Qed.

(** ** The dataset, an interleaving of the threads *)

(** The items of a dataset, and its bytes. *)
Definition item_of (cache : list Z) (i : Z) : bytes := default [] (generateDatasetItem cache i).
Definition full_dataset (cache : list Z) (n : Z) : list Z :=
  concat (map (λ i, to_words (item_of cache i)) (seqZ 0 n)).

Definition chunks_ok (cs : list bytes) : Prop := Forall (λ c, length c = 64%nat) cs.
Lemma length_concat_chunks cs : chunks_ok cs → length (concat cs) = (64 * length cs)%nat.
Proof. induction 1 as [|c cs Hc _ IH]; [done|]. cbn [concat]. rewrite length_app, IH, Hc. cbn [length]. lia. Qed.
Lemma take_concat_chunks cs i : chunks_ok cs → take (64 * i) (concat cs) = concat (take i cs).
Proof.
  intros H. revert i. induction H as [|c cs Hc _ IH]; intros i; [rewrite take_nil; apply take_nil|].
  destruct i; [done|]. cbn [concat firstn]. rewrite take_app, Hc.
  rewrite take_ge by lia. replace (64 * S i - 64)%nat with (64 * i)%nat by lia. by rewrite IH.
Qed.
Lemma drop_concat_chunks cs i : chunks_ok cs → drop (64 * i) (concat cs) = concat (drop i cs).
Proof.
  intros H. revert i. induction H as [|c cs Hc _ IH]; intros i; [rewrite drop_nil; apply drop_nil|].
  destruct i; [done|]. cbn [concat skipn]. rewrite drop_app, Hc.
  rewrite drop_ge by lia. replace (64 * S i - 64)%nat with (64 * i)%nat by lia. by rewrite IH.
Qed.
Lemma copy_into_chunk cs i item : chunks_ok cs → (i < length cs)%nat → length item = 64%nat →
  copy_into (concat cs) (64 * Z.of_nat i) (zlen (concat cs) - 64 * Z.of_nat i) item = concat (<[i := item]> cs).
Proof.
  intros H Hi Hl. unfold copy_into, zlen. rewrite length_concat_chunks, Hl by done.
  replace (Z.to_nat (64 * Z.of_nat i)) with (64 * i)%nat by lia.
  rewrite Nat.min_r by lia. rewrite (take_ge item) by lia.
  replace (64 * i + 64)%nat with (64 * S i)%nat by lia. rewrite take_concat_chunks, drop_concat_chunks by done.
  rewrite insert_take_drop by done. by rewrite concat_app.
Qed.

Section Dataset.
Variables (cache : list Z) (rows n : Z).
Hypothesis Hrows : 0 < rows < 2 ^ 28.
Hypothesis Hcache : zlen cache = rows * hashWords.
Hypothesis Hn : 100 ≤ n ≤ 2 ^ 26.

Lemma item_of_ok i : generateDatasetItem cache i = Some (item_of cache i) ∧ length (item_of cache i) = 64%nat
  ∧ is_bytes (item_of cache i).
Proof.
  destruct (generateDatasetItem_total cache rows i) as (x & E & Hx); [done..|].
  unfold item_of. rewrite E. done.
Qed.
Lemma write_item_chunk cs i : chunks_ok cs → Z.of_nat (length cs) = n → 0 ≤ i < n →
  write_item cache (concat cs) i = Some (concat (<[Z.to_nat i := item_of cache i]> cs)).
Proof.
  intros Hcs Hl Hi. destruct (item_of_ok i) as (E & Hil & _). unfold write_item. rewrite E. cbn [mbind option_bind].
  assert (Hz : zlen (concat cs) = 64 * n) by (unfold zlen; rewrite length_concat_chunks by done; lia).
  unfold hashBytes. rewrite u32_id by (unfold is_u32; lia).
  rewrite guard_some by lia. rewrite Hz. rewrite (Z.mul_comm 64 n), Z.div_mul by lia.
  assert (1 ≤ n / 100 ≤ n) by (Z.div_mod_to_equations; lia).
  rewrite (u32_id (n / 100)) by (unfold is_u32; lia).
  rewrite guard_some by lia. f_equal.
  pose proof (copy_into_chunk cs (Z.to_nat i) (item_of cache i) Hcs ltac:(lia) Hil) as Hc.
  rewrite Hz, (Z.mul_comm 64 n) in Hc. rewrite <- Hc. f_equal; lia.
Qed.
Lemma chunks_ok_insert cs i c : chunks_ok cs → length c = 64%nat → chunks_ok (<[i := c]> cs).
Proof. intros. by apply Forall_insert. Qed.
Lemma write_items_chunks s cs : chunks_ok cs → Z.of_nat (length cs) = n → Forall (λ i, 0 ≤ i < n) s →
  ∃ cs', write_items cache s (concat cs) = Some (concat cs') ∧ chunks_ok cs' ∧ length cs' = length cs ∧
    ∀ i, 0 ≤ i < n → cs' !! Z.to_nat i = if decide (i ∈ s) then Some (item_of cache i) else cs !! Z.to_nat i.
Proof.
  intros Hcs Hl Hs. revert cs Hcs Hl. induction Hs as [|j s Hj Hs IH]; intros cs Hcs Hl.
  { exists cs. split_and!; [done..|]. intros i _. by rewrite decide_False by apply not_elem_of_nil. }
  cbn [write_items]. rewrite write_item_chunk by done. cbn [mbind option_bind].
  destruct (item_of_ok j) as (_ & Hjl & _).
  destruct (IH (<[Z.to_nat j := item_of cache j]> cs)) as (cs' & E & Hok & Hl' & Hlk);
    [by apply chunks_ok_insert|by rewrite length_insert|].
  exists cs'. split_and!; [done|done|by rewrite Hl', length_insert|].
  intros i Hi. rewrite Hlk by done. destruct (decide (i ∈ s)) as [Hin|Hin].
  - by rewrite decide_True by (by right).
  - destruct (decide (i = j)) as [->|Hne].
    + rewrite decide_True by left. apply list_lookup_insert_eq. lia.
    + rewrite decide_False by (by rewrite elem_of_cons; intros [?|?]). apply list_lookup_insert_ne. lia.
Qed.

(** A schedule that takes each index of the dataset, in any order and any
    number of times, fills the dataset with its items. *)
Lemma generateDataset_any s : (∀ i, i ∈ s ↔ 0 ≤ i < n) →
  generateDataset (n * hashBytes) cache s = Some (full_dataset cache n).
Proof.
  intros Hs. unfold generateDataset, hashBytes.
  set (cs := replicate (Z.to_nat n) (replicate 64 0)).
  assert (E0 : replicate (Z.to_nat (n * 64)) 0 = concat cs).
  { subst cs. replace (Z.to_nat (n * 64)) with (Z.to_nat n * 64)%nat by lia.
    induction (Z.to_nat n) as [|k IHk]; [done|]. cbn [Nat.mul concat replicate]. by rewrite replicate_add, IHk. }
  destruct (write_items_chunks s cs) as (cs' & E & Hok & Hl & Hlk).
  { apply Forall_replicate. apply length_replicate. }
  { subst cs. rewrite length_replicate. lia. }
  { apply Forall_forall. apply Hs. }
  rewrite E0, E. cbn [mbind option_bind]. f_equal. unfold full_dataset.
  assert (Hcs' : cs' = map (item_of cache) (seqZ 0 n)).
  { apply list_eq. intros k. destruct (decide (Z.of_nat k < n)) as [Hk|Hk].
    - rewrite <- (Nat2Z.id k) at 1. rewrite Hlk by lia. rewrite decide_True by (apply Hs; lia).
      rewrite list_lookup_fmap, lookup_seqZ_lt by lia. done.
    - rewrite !lookup_ge_None_2; [done| |]; [rewrite length_map, length_seqZ; lia|].
      rewrite Hl. subst cs. rewrite length_replicate. lia. }
  rewrite Hcs'. clear Hcs' Hlk. induction (seqZ 0 n) as [|i l IH]; [done|]. cbn [map concat].
  rewrite (to_words_app 16) by apply item_of_ok. by rewrite IH.
Qed.

(** ** The threads *)

Lemma thread_items_range threads id i : 1 ≤ threads ≤ 2 ^ 16 → 0 ≤ id < threads →
  let batch := (n + threads - 1) / threads in
  i ∈ thread_items (n * hashBytes) threads id ↔ id * batch ≤ i < id * batch + batch ∧ i < n.
Proof.
  intros Ht Hid batch. unfold thread_items, hashBytes.
  assert (Hb : u64 (u64 (n * 64 + 64 * threads) - 1) / u64 (64 * threads) = batch).
  { rewrite (u64_id (n * 64 + _)), (u64_id (64 * threads)), (u64_id (_ - 1)) by (unfold is_u64; lia).
    subst batch. Z.div_mod_to_equations. nia. }
  assert (Hbr : 1 ≤ batch ≤ n) by (subst batch; Z.div_mod_to_equations; nia).
  assert (Hbt : threads * batch ≤ n + threads - 1) by (subst batch; Z.div_mod_to_equations; lia).
  rewrite Hb, (u32_id batch) by (unfold is_u32; lia). rewrite (u32_id id) by (unfold is_u32; lia).
  rewrite (u32_id (id * batch)) by (unfold is_u32; nia). rewrite (u32_id (_ + batch)) by (unfold is_u32; nia).
  rewrite Z.div_mul, (u32_id n) by (unfold is_u32; lia).
  destruct (Z.ltb_spec n (id * batch + batch)); rewrite elem_of_seqZ; lia.
Qed.
Lemma threads_cover threads i : 1 ≤ threads ≤ 2 ^ 16 →
  i ∈ concat (map (thread_items (n * hashBytes) threads) (seqZ 0 threads)) ↔ 0 ≤ i < n.
Proof.
  intros Ht. set (batch := (n + threads - 1) / threads).
  assert (Hb : 1 ≤ batch) by (subst batch; Z.div_mod_to_equations; nia).
  assert (Hbt : n ≤ threads * batch) by (subst batch; Z.div_mod_to_equations; lia).
  rewrite list_elem_of_In, in_concat. setoid_rewrite <- list_elem_of_In. split.
  - intros (l & Hl & Hi). apply list_elem_of_fmap in Hl as (id & -> & Hid). apply elem_of_seqZ in Hid.
    apply thread_items_range in Hi; [nia|lia..].
  - intros Hi. exists (thread_items (n * hashBytes) threads (i / batch)).
    assert (Hid : 0 ≤ i / batch < threads).
    { split; [apply Z.div_pos; lia|apply Z.div_lt_upper_bound; lia]. }
    split; [apply list_elem_of_fmap; exists (i / batch); split; [done|apply elem_of_seqZ; lia]|].
    apply thread_items_range; [lia..|]. fold batch. Z.div_mod_to_equations. nia.
Qed.

(** The full dataset read as [hashimotoFull] does is its items. *)
Lemma full_dataset_lookup i : 0 ≤ i < n →
  let offset := u32 (i * hashWords) in
  bslice (full_dataset cache n) offset (u32 (offset + hashWords)) = Some (to_words (item_of cache i)).
Proof.
  intros Hi offset. subst offset. unfold hashWords. rewrite (u32_id (i * 16)) by (unfold is_u32; lia).
  rewrite u32_id by (unfold is_u32; lia).
  assert (Hw : ∀ j, length (to_words (item_of cache j)) = 16%nat).
  { intros j. apply (length_to_words 16). apply item_of_ok. }
  assert (Hl : ∀ l, length (concat (map (λ i, to_words (item_of cache i)) l)) = (16 * length l)%nat).
  { induction l as [|x l IH]; [done|]. cbn [map concat length]. rewrite length_app, IH, Hw. lia. }
  assert (E : seqZ 0 n = seqZ 0 i ++ i :: seqZ (i + 1) (n - i - 1)).
  { replace n with (i + (n - i)) at 1 by lia. rewrite seqZ_app by lia. rewrite (seqZ_cons (0 + i)) by lia.
    repeat (f_equal; try lia). }
  assert (Hz : zlen (full_dataset cache n) = 16 * n).
  { unfold zlen, full_dataset. rewrite Hl, length_seqZ. lia. }
  rewrite bslice_ok by lia. f_equal. unfold full_dataset. rewrite E, map_app, concat_app.
  cbn [map concat]. rewrite drop_app_length'; [|rewrite Hl, length_seqZ; lia].
  apply take_app_length'. rewrite Hw. lia.
Qed.

End Dataset.

(** ** hashimoto *)

Section Hashimoto.
Variables (rows : Z) (L1 L2 : Z → option (list Z)).
Hypothesis Hrows : 0 < rows < 2 ^ 31.
Hypothesis Hsame : ∀ i, 0 ≤ i < 2 * rows → L1 i = L2 i.
Hypothesis Htotal : ∀ i, 0 ≤ i < 2 * rows → ∃ d, L1 i = Some d ∧ zlen d = 16.

Lemma lookup_two_total parent temp : 0 ≤ parent < rows → zlen temp = 32 →
  ∃ t, lookup_two L1 parent temp = Some t ∧ lookup_two L2 parent temp = Some t ∧ zlen t = 32.
Proof.
  intros Hp Ht. unfold lookup_two. rewrite !u32_id by (unfold is_u32; lia).
  rewrite <- !Hsame by lia.
  destruct (Htotal (2 * parent)) as (d0 & -> & H0); [lia|]. destruct (Htotal (2 * parent + 1)) as (d1 & -> & H1); [lia|].
  cbn [mbind option_bind]. eexists. split; [done|]. split; [done|]. unfold hashWords.
  rewrite !zlen_copy_into; rewrite ?zlen_copy_into; lia.
Qed.
Lemma access_loop_total ks h temp mix : Forall (λ k, 0 ≤ k) ks → zlen temp = 32 → zlen mix = 32 →
  ∃ m, access_loop L1 ks rows h temp mix = Some m ∧ access_loop L2 ks rows h temp mix = Some m ∧ zlen m = 32.
Proof.
  intros Hks. revert temp mix. induction Hks as [|k ks Hk _ IH]; intros temp mix Ht Hm; [by exists mix|].
  cbn [access_loop]. rewrite Hm. pose proof (Z.mod_pos_bound k 32 ltac:(lia)).
  destruct (word_at_total mix (k mod 32)) as [w ->]; [lia|]. cbn [mbind option_bind].
  destruct (lookup_two_total (fnv (Z.lxor k h) w mod rows) temp) as (t & -> & -> & Htt);
    [apply Z.mod_pos_bound; lia|done|]. cbn [mbind option_bind].
  destruct (fnvHash_total mix t) as (m & -> & Hm'); [lia|]. cbn [mbind option_bind]. apply IH; lia.
Qed.
Lemma compress_loop_total ks mix : Forall (λ k, 0 ≤ k ∧ k + 3 < 32) ks → zlen mix = 32 →
  ∃ m, compress_loop ks mix = Some m ∧ zlen m = 32.
Proof.
  intros Hks. revert mix. induction Hks as [|k ks Hk _ IH]; intros mix Hm; [by exists mix|]. cbn [compress_loop].
  destruct (word_at_total mix k) as [a ->]; [lia|]. destruct (word_at_total mix (k + 1)) as [b ->]; [lia|].
  destruct (word_at_total mix (k + 2)) as [c ->]; [lia|]. destruct (word_at_total mix (k + 3)) as [d ->]; [lia|].
  cbn [mbind option_bind]. apply IH. unfold zlen in *. by rewrite length_insert.
Qed.
Lemma hashimoto_total hash nonce size : u32 (size / mixBytes) = rows →
  ∃ digest result, hashimoto L1 hash nonce size = Some (digest, result) ∧
    hashimoto L2 hash nonce size = Some (digest, result) ∧ length digest = 32%nat ∧ is_bytes digest ∧
    length result = 32%nat ∧ is_bytes result.
Proof.
  intros Hs. unfold hashimoto. rewrite Hs. rewrite !guard_some by lia.
  set (seed := Keccak512 _). set (mix := to_words seed ++ to_words seed).
  assert (Hm : zlen mix = 32).
  { subst mix. rewrite zlen_app. unfold zlen. erewrite !(length_to_words 16); [done|apply Keccak512_length..]. }
  destruct (access_loop_total (seqZ 0 loopAccesses) (LittleEndian_Uint32 seed) (replicate 32 0) mix) as (m & -> & -> & Hm2);
    [|done..|].
  { eapply Forall_impl; [apply seqZ_range|]. intros k [Hk _]. exact Hk. }
  cbn [mbind option_bind].
  destruct (compress_loop_total (map (λ k, 4 * k) (seqZ 0 8)) m) as (m2 & -> & Hm3); [|done|].
  { apply Forall_fmap. eapply Forall_impl; [apply seqZ_range|]. intros k [Hk1 Hk2]. change (0 ≤ 4 * k ∧ 4 * k + 3 < 32). lia. }
  cbn [mbind option_bind]. eexists _, _. split; [done|]. split; [done|].
  split; [|split; [apply is_bytes_of_words|split; [apply Keccak256_length|apply Keccak256_bytes]]].
  rewrite length_of_words, length_take. unfold zlen in Hm3. lia.
Qed.
End Hashimoto.

Lemma hashimotoLight_total cache crows size hash nonce :
  0 < crows < 2 ^ 28 → zlen cache = crows * hashWords → 1 ≤ u32 (size / mixBytes) < 2 ^ 31 →
  ∃ digest result, hashimotoLight size cache hash nonce = Some (digest, result) ∧ length digest = 32%nat ∧
    is_bytes digest ∧ length result = 32%nat ∧ is_bytes result.
Proof.
  intros Hc Hl Hs. pose (L := λ index, to_words <$> generateDatasetItem cache index).
  destruct (hashimoto_total (u32 (size / mixBytes)) L L) with (hash := hash) (nonce := nonce) (size := size)
    as (d & r & E & _ & H); [lia|done| |done|by exists d, r].
  intros i Hi. subst L. destruct (generateDatasetItem_total cache crows i) as (x & E & Hx & _); [done..|].
  exists (to_words x). simpl. rewrite E. split; [done|]. unfold zlen. by rewrite (length_to_words 16).
Qed.

Lemma hashimotoFull_light cache crows drows hash nonce :
  0 < crows < 2 ^ 28 → zlen cache = crows * hashWords → 50 ≤ drows ≤ 2 ^ 25 →
  hashimotoFull (full_dataset cache (2 * drows)) hash nonce = hashimotoLight (drows * mixBytes) cache hash nonce.
Proof.
  intros Hc Hl Hd. unfold hashimotoFull, hashimotoLight.
  assert (Hn : 100 ≤ 2 * drows ≤ 2 ^ 26) by lia.
  assert (Hz : zlen (full_dataset cache (2 * drows)) = 32 * drows).
  { assert (Hw : ∀ l, length (concat (map (λ i, to_words (item_of cache i)) l)) = (16 * length l)%nat).
    { induction l as [|x l IH]; [done|]. cbn [map concat length].
      rewrite length_app, IH, (length_to_words 16); [lia|]. eapply item_of_ok; done. }
    unfold zlen, full_dataset. rewrite Hw, length_seqZ. lia. }
  rewrite Hz, u64_id by (unfold is_u64; lia). unfold mixBytes.
  replace (32 * drows * 4) with (drows * 128) by lia.
  set (full := λ index : Z, _). set (light := λ index : Z, _).
  destruct (hashimoto_total drows light full) with (hash := hash) (nonce := nonce) (size := drows * 128)
    as (d & r & -> & -> & _); [lia| | | |done].
  - intros i Hi. subst light full. cbv zeta beta. rewrite (full_dataset_lookup cache crows) by (done || lia).
    destruct (item_of_ok cache crows Hc Hl i) as (-> & _). done.
  - intros i Hi. subst light. destruct (item_of_ok cache crows Hc Hl i) as (-> & Hx & _). eexists. split; [done|].
    unfold zlen. by rewrite (length_to_words 16).
  - unfold mixBytes. rewrite Z.div_mul by lia. apply u32_id. unfold is_u32. lia.
Qed.

End Laws.
