(* ===== verification/Ethash.v ===== *)
(** * The proof-of-work engine

    [consensus/ethash/consensus.go], the search of [sealer.go] and the
    generation of [ethash.go]; the header rules of the forks
    ([consensus/misc/dao.go], [forks.go]).  The clock and the state of the
    background generation of the dataset are arguments; memory pools and
    files of generated buffers have no counterpart, nor has the remote sealer. *)

From S2P Require Import Prelude BigMath Params Memory Rlp Interfaces Header Block Machine Hashimoto EthashSizes.

(** ** Blocks and the chain, as the engine reads them *)

(** [consensus.ChainReader]: the headers and blocks by hash and number. *)
Record ChainReader := mkChainReader {
  cr_Config : ChainConfig;
  GetHeader : Z → Z → option Header;
  GetBlock : Z → Z → option Block;
}.

Inductive ethasherror :=
| ErrUnknownAncestor | ErrFutureBlock | ErrInvalidNumber
| errLargeBlockTime | errZeroBlockTime | errTooManyUncles | errDuplicateUncle
| errUncleIsAncestor | errDanglingUncle | errInvalidDifficulty
| errInvalidMixDigest | errInvalidPoW
| ErrBadProDAOExtra | ErrBadNoDAOExtra
| errExtraTooLong (have : Z) | errDifficulty (have want : Z)
| errGasLimitCap (have : Z) | errGasUsed (have limit : Z) | errGasLimit (have want limit : Z)
| errForkHash (have want : Z).
Abbreviation eres := (res ethasherror).
Definition ensure (b : bool) (e : ethasherror) : eres unit := if b then Ok tt else Err e.

(** ** consensus/misc *)

Definition DAOForkBlockExtra : bytes := [0x64; 0x61; 0x6f; 0x2d; 0x68; 0x61; 0x72; 0x64; 0x2d; 0x66; 0x6f; 0x72; 0x6b].
Definition DAOForkExtraRange : Z := 10.

Definition VerifyDAOHeaderExtraData (config : ChainConfig) (header : Header) : eres unit :=
  match DAOForkBlock config with
  | None => Ok tt
  | Some fork =>
      let limit := fork + DAOForkExtraRange in
      if (h_Number header <? fork) || (limit <=? h_Number header) then Ok tt
      else if DAOForkSupport config then
        ensure (bool_decide (h_Extra header = DAOForkBlockExtra)) ErrBadProDAOExtra
      else ensure (negb (bool_decide (h_Extra header = DAOForkBlockExtra))) ErrBadNoDAOExtra
  end.

(** The engine: its mode, the block whose seal fails in a fake mode, and the
    engine shared by others. *)
Inductive Mode := ModeNormal | ModeShared | ModeTest | ModeFake | ModeFullFake.
#[export] Instance Mode_eq_dec : EqDecision Mode.
Proof. solve_decision. Defined.
Inductive Ethash := mkEthash (PowMode : Mode) (fakeFail : Z) (shared : option Ethash).
Definition PowMode '(mkEthash m _ _) := m.

(** ** Difficulty *)

Definition expDiffPeriod : Z := 100000.
Definition bigMinus99 : Z := -99.

Section Engine.
Context {CRY : Crypto} {C512 : Crypto512}.

Definition VerifyForkHashes (config : ChainConfig) (header : Header) (uncle : bool) : eres unit :=
  if uncle then Ok tt
  else if bool_decide (EIP150Block config = Some (h_Number header)) then
    if negb (EIP150Hash config =? 0) && negb (EIP150Hash config =? Header_Hash header)
    then Err (errForkHash (Header_Hash header) (EIP150Hash config)) else Ok tt
  else Ok tt.

Definition makeDifficultyCalculator (bombDelay : Z) (time : Z) (parent : Header) : Z :=
  let bombDelayFromParent := bombDelay - 1 in
  let x := (time - h_Time parent) / 9 in
  let x := if h_UncleHash parent =? EmptyUncleHash then 1 - x else 2 - x in
  let x := if x <? bigMinus99 then bigMinus99 else x in
  let y := h_Difficulty parent / DifficultyBoundDivisor in
  let x := h_Difficulty parent + y * x in
  let x := if x <? MinimumDifficulty then MinimumDifficulty else x in
  let fakeBlockNumber :=
    if bombDelayFromParent <=? h_Number parent then h_Number parent - bombDelayFromParent else 0 in
  let periodCount := fakeBlockNumber / expDiffPeriod in
  if 1 <? periodCount then x + 2 ^ (periodCount - 2) else x.
Definition calcDifficultyConstantinople : Z → Header → Z := makeDifficultyCalculator 5000000.
Definition calcDifficultyByzantium : Z → Header → Z := makeDifficultyCalculator 3000000.

Definition calcDifficultyHomestead (time : Z) (parent : Header) : Z :=
  let x := (time - h_Time parent) / 10 in
  let x := 1 - x in
  let x := if x <? bigMinus99 then bigMinus99 else x in
  let y := h_Difficulty parent / DifficultyBoundDivisor in
  let x := h_Difficulty parent + y * x in
  let x := if x <? MinimumDifficulty then MinimumDifficulty else x in
  let periodCount := (h_Number parent + 1) / expDiffPeriod in
  if 1 <? periodCount then x + 2 ^ (periodCount - 2) else x.

Definition calcDifficultyFrontier (time : Z) (parent : Header) : Z :=
  let adjust := h_Difficulty parent / DifficultyBoundDivisor in
  let diff := if time - h_Time parent <? DurationLimit
              then h_Difficulty parent + adjust else h_Difficulty parent - adjust in
  let diff := if diff <? MinimumDifficulty then MinimumDifficulty else diff in
  let periodCount := (h_Number parent + 1) / expDiffPeriod in
  if 1 <? periodCount then Math.BigMax (diff + 2 ^ (periodCount - 2)) MinimumDifficulty else diff.

(** The package's function, which the tests use. *)
Definition CalcDifficulty (config : ChainConfig) (time : Z) (parent : Header) : Z :=
  let next := h_Number parent + 1 in
  if IsConstantinople config next then calcDifficultyConstantinople time parent
  else if IsByzantium config next then calcDifficultyByzantium time parent
  else if IsHomestead config next then calcDifficultyHomestead time parent
  else calcDifficultyFrontier time parent.
(** The engine's method, which the node uses. *)
Definition engine_CalcDifficulty (chain : ChainReader) (time : Z) (parent : Header) : Z := 1.

(** ** Seals *)

Definition SealHash (header : Header) : Z := rlpHash (VList (take 13 (header_vals header))).

(** [cache.generate] and [dataset.generate], for buffers in memory. *)
Definition cache_generate (fuel : nat) (epoch : Z) (test : bool) : option (list Z) :=
  let block := u64 (epoch * epochLength + 1) in
  size ← (if test then Some 1024 else cacheSize fuel block);
  generateCache (size / 4 * 4) (seedHash block).
Definition dataset_generate (fuel : nat) (epoch : Z) (test : bool) (schedule : list Z) : option (list Z) :=
  let block := u64 (epoch * epochLength + 1) in
  dsize ← (if test then Some (32 * 1024) else datasetSize fuel block);
  cache ← cache_generate fuel epoch test;
  generateDataset (dsize / 4 * 4) cache schedule.

Definition of_option {A} (x : option A) : eres A := match x with Some a => Ok a | None => Panic end.
Definition two256 : Z := 2 ^ 256.

Section Seal.
Variable fuel : nat.
(** The dataset of an epoch when it is asked for without waiting: [None] while
    it is being generated. *)
Variable generated : Z → option (list Z).

Fixpoint verifySeal (e : Ethash) (header : Header) (fulldag : bool) : eres unit :=
  let '(mkEthash mode fakeFail shared) := e in
  if bool_decide (mode = ModeFake) || bool_decide (mode = ModeFullFake) then
    ensure (negb (fakeFail =? Big.Uint64 (h_Number header))) errInvalidPoW
  else
    match shared with
    | Some s => verifySeal s header fulldag
    | None =>
        if Big.Sign (h_Difficulty header) <=? 0 then Err errInvalidDifficulty
        else
          let number := Big.Uint64 (h_Number header) in
          let epoch := number / epochLength in
          let test := bool_decide (mode = ModeTest) in
          let hash := hash_bytes (SealHash header) in
          let nonce := BlockNonce_Uint64 (h_Nonce header) in
          let light :=
            cache ← cache_generate fuel epoch test;
            size ← datasetSize fuel number;
            hashimotoLight (if test then 32 * 1024 else size) cache hash nonce in
          dr ←? of_option
            (if fulldag
             then match generated epoch with
                  | Some dataset => hashimotoFull dataset hash nonce
                  | None => light
                  end
             else light);
          let '(digest, result) := dr in
          if negb (bool_decide (hash_bytes (h_MixDigest header) = digest)) then Err errInvalidMixDigest
          else
            let target := two256 / h_Difficulty header in
            if target <? Big.SetBytes result then Err errInvalidPoW else Ok tt
    end.
Definition VerifySeal (e : Ethash) (header : Header) : eres unit := verifySeal e header false.

(** ** Headers *)

Definition i64 (z : Z) : Z := int_of_u64 (u64 z).
Variable now : Z.  (* seconds *)
Variable e : Ethash.

Definition verifyHeader (chain : ChainReader) (header parent : Header) (uncle seal : bool) : eres unit :=
  _ ←? ensure (zlen (h_Extra header) <=? MaximumExtraDataSize) (errExtraTooLong (zlen (h_Extra header)));
  _ ←? (if uncle then ensure (h_Time header <=? Math.tt256m1) errLargeBlockTime
        else ensure (h_Time header <=? now + 15) ErrFutureBlock);
  _ ←? ensure (negb (h_Time header <=? h_Time parent)) errZeroBlockTime;
  let expected := engine_CalcDifficulty chain (Big.Uint64 (h_Time header)) parent in
  _ ←? ensure (expected =? h_Difficulty header) (errDifficulty (h_Difficulty header) expected);
  _ ←? ensure (h_GasLimit header <=? 0x7fffffffffffffff) (errGasLimitCap (h_GasLimit header));
  _ ←? ensure (h_GasUsed header <=? h_GasLimit header) (errGasUsed (h_GasUsed header) (h_GasLimit header));
  let diff := i64 (int_of_u64 (h_GasLimit parent) - int_of_u64 (h_GasLimit header)) in
  let diff := if diff <? 0 then i64 (diff * -1) else diff in
  let limit := h_GasLimit parent / GasLimitBoundDivisor in
  _ ←? ensure (negb ((limit <=? u64 diff) || (h_GasLimit header <? MinGasLimit)))
         (errGasLimit (h_GasLimit header) (h_GasLimit parent) limit);
  _ ←? ensure (h_Number header - h_Number parent =? 1) ErrInvalidNumber;
  _ ←? (if seal then VerifySeal e header else Ok tt);
  _ ←? VerifyDAOHeaderExtraData (cr_Config chain) header;
  VerifyForkHashes (cr_Config chain) header uncle.

Definition VerifyHeader (chain : ChainReader) (header : Header) (seal : bool) : eres unit :=
  if bool_decide (PowMode e = ModeFullFake) then Ok tt
  else
    let number := Big.Uint64 (h_Number header) in
    match GetHeader chain (Header_Hash header) number with
    | Some _ => Ok tt
    | None =>
        match GetHeader chain (h_ParentHash header) (u64 (number - 1)) with
        | None => Err ErrUnknownAncestor
        | Some parent => verifyHeader chain header parent false seal
        end
    end.

Definition verifyHeaderWorker (chain : ChainReader) (headers : list Header) (seals : list bool) (index : nat) : eres unit :=
  match headers !! index, seals !! index with
  | Some header, Some seal =>
      let parent :=
        match index with
        | O => GetHeader chain (h_ParentHash header) (u64 (Big.Uint64 (h_Number header) - 1))
        | S i => match headers !! i with
                 | Some p => if Header_Hash p =? h_ParentHash header then Some p else None
                 | None => None
                 end
        end in
      match parent with
      | None => Err ErrUnknownAncestor
      | Some parent =>
          match GetHeader chain (Header_Hash header) (Big.Uint64 (h_Number header)) with
          | Some _ => Ok tt
          | None => verifyHeader chain header parent false seal
          end
      end
  | _, _ => Panic
  end.

(** ** Uncles *)

Definition maxUncles : Z := 2.
(** The last ancestors and their uncles. *)
Fixpoint gather (n : nat) (chain : ChainReader) (number parent : Z)
    (uncles : gset Z) (ancestors : gmap Z Header) : gset Z * gmap Z Header :=
  match n with
  | O => (uncles, ancestors)
  | S n =>
      match GetBlock chain parent number with
      | None => (uncles, ancestors)
      | Some ancestor =>
          gather n chain (u64 (number - 1)) (h_ParentHash (b_header ancestor))
            (uncles ∪ list_to_set (map Header_Hash (b_uncles ancestor)))
            (<[Header_Hash (b_header ancestor) := b_header ancestor]> ancestors)
      end
  end.
Fixpoint verify_uncles (chain : ChainReader) (block : Block) (ancestors : gmap Z Header)
    (uncles : gset Z) (l : list Header) : eres unit :=
  match l with
  | [] => Ok tt
  | uncle :: l =>
      let hash := Header_Hash uncle in
      _ ←? ensure (negb (bool_decide (hash ∈ uncles))) errDuplicateUncle;
      let uncles := {[hash]} ∪ uncles in
      _ ←? ensure (bool_decide (ancestors !! hash = None)) errUncleIsAncestor;
      match ancestors !! h_ParentHash uncle with
      | None => Err errDanglingUncle
      | Some parent =>
          _ ←? ensure (negb (h_ParentHash uncle =? h_ParentHash (b_header block))) errDanglingUncle;
          _ ←? verifyHeader chain uncle parent true true;
          verify_uncles chain block ancestors uncles l
      end
  end.
Definition VerifyUncles (chain : ChainReader) (block : Block) : eres unit :=
  if bool_decide (PowMode e = ModeFullFake) then Ok tt
  else if maxUncles <? zlen (b_uncles block) then Err errTooManyUncles
  else
    let header := b_header block in
    let '(uncles, ancestors) :=
      gather 7 chain (u64 (Big.Uint64 (h_Number header) - 1)) (h_ParentHash header) ∅ ∅ in
    let ancestors := <[Header_Hash header := header]> ancestors in
    let uncles := {[Header_Hash header]} ∪ uncles in
    verify_uncles chain block ancestors uncles (b_uncles block).

(** ** Sealing *)

Definition set_Difficulty (d : Z) (h : Header) : Header :=
  mkHeader (h_ParentHash h) (h_UncleHash h) (h_Coinbase h) (h_Root h) (h_TxHash h) (h_ReceiptHash h)
    (h_Bloom h) d (h_Number h) (h_GasLimit h) (h_GasUsed h) (h_Time h) (h_Extra h) (h_MixDigest h) (h_Nonce h).
Definition set_seal (digest : Z) (nonce : bytes) (h : Header) : Header :=
  mkHeader (h_ParentHash h) (h_UncleHash h) (h_Coinbase h) (h_Root h) (h_TxHash h) (h_ReceiptHash h)
    (h_Bloom h) (h_Difficulty h) (h_Number h) (h_GasLimit h) (h_GasUsed h) (h_Time h) (h_Extra h) digest nonce.

Definition Prepare (chain : ChainReader) (header : Header) : eres Header :=
  match GetHeader chain (h_ParentHash header) (u64 (Big.Uint64 (h_Number header) - 1)) with
  | None => Err ErrUnknownAncestor
  | Some parent => Ok (set_Difficulty (engine_CalcDifficulty chain (Big.Uint64 (h_Time header)) parent) header)
  end.

(** [mine]: the search from the nonce [seed], when nothing aborts it; it
    returns the sealed header.  [attempts] bounds the nonces tried. *)
Fixpoint mine_loop (attempts : nat) (dataset : list Z) (hash : bytes) (target : Z)
    (header : Header) (nonce : Z) : eres Header :=
  match attempts with
  | O => OutOfFuel
  | S attempts =>
      dr ←? of_option (hashimotoFull dataset hash nonce);
      let '(digest, result) := dr in
      if Big.SetBytes result <=? target
      then Ok (set_seal (BytesToHash digest) (EncodeNonce nonce) header)
      else mine_loop attempts dataset hash target header (u64 (nonce + 1))
  end.
Definition mine (attempts : nat) (schedule : list Z) (header : Header) (seed : Z) : eres Header :=
  if h_Difficulty header =? 0 then Panic
  else
    let hash := hash_bytes (SealHash header) in
    (* [Div] is Euclidean *)
    let target := Z.sgn (h_Difficulty header) * (two256 / Z.abs (h_Difficulty header)) in
    let number := Big.Uint64 (h_Number header) in
    dataset ←? of_option (dataset_generate fuel (number / epochLength) (bool_decide (PowMode e = ModeTest)) schedule);
    mine_loop attempts dataset hash target header seed.
End Seal.

(** ** Rewards *)

Definition FrontierBlockReward : Z := 5000000000000000000.
Definition ByzantiumBlockReward : Z := 3000000000000000000.
Definition ConstantinopleBlockReward : Z := 2000000000000000000.
Definition blockReward (config : ChainConfig) (header : Header) : Z :=
  let r := FrontierBlockReward in
  let r := if IsByzantium config (h_Number header) then ByzantiumBlockReward else r in
  if IsConstantinople config (h_Number header) then ConstantinopleBlockReward else r.

Fixpoint reward_uncles {S : Type} `{!VMState S} (R : Z) (header : Header) (uncles : list Header)
    (reward : Z) (s : S) : Z * S :=
  match uncles with
  | [] => (reward, s)
  | uncle :: uncles =>
      let r := (h_Number uncle + 8 - h_Number header) * R / 8 in
      let s := sAddBalance (h_Coinbase uncle) r s in
      reward_uncles R header uncles (reward + R / 32) s
  end.
Definition accumulateRewards {S : Type} `{!VMState S} (config : ChainConfig) (header : Header)
    (uncles : list Header) (s : S) : S :=
  let R := blockReward config header in
  let '(reward, s) := reward_uncles R header uncles R s in
  sAddBalance (h_Coinbase header) reward s.

End Engine.

(** ** VerifyHeaders

    The workers finish in any order; the coordinator hands the errors out in
    the order of the headers. *)
Record verifier := mkVerifier { checked : list bool; out : nat; errorsOut : list (eres unit) }.
(** [for checked[index] = true; checked[out]; out++]; it returns at the last. *)
Fixpoint deliver (n : nat) (errors : list (eres unit)) (v : verifier) : verifier :=
  match n with
  | O => v
  | S n =>
      match checked v !! out v, errors !! out v with
      | Some true, Some err => deliver n errors (mkVerifier (checked v) (S (out v)) (errorsOut v ++ [err]))
      | _, _ => v
      end
  end.
Definition on_done (errors : list (eres unit)) (v : verifier) (index : nat) : verifier :=
  deliver (length errors) errors (mkVerifier (<[index := true]> (checked v)) (out v) (errorsOut v)).
Section VerifyHeaders.
Context {CRY : Crypto} {C512 : Crypto512}.
Variable fuel : nat.
Variable generated : Z → option (list Z).
Variable now : Z.
Variable e : Ethash.
(** The errors handed out when the workers report in the order [dones]. *)
Definition VerifyHeaders (chain : ChainReader) (headers : list Header) (seals : list bool) (dones : list nat)
    : list (eres unit) :=
  if bool_decide (PowMode e = ModeFullFake) || (length headers =? 0)%nat
  then replicate (length headers) (Ok tt)
  else
    let errors := map (verifyHeaderWorker fuel generated now e chain headers seals) (seq 0 (length headers)) in
    errorsOut (fold_left (on_done errors) dones (mkVerifier (replicate (length errors) false) 0 [])).
End VerifyHeaders.
