(* ===== verification/EthashLaws.v ===== *)
(** * Laws of the proof-of-work engine

    The buffers the engine generates, the search for a nonce, the checks of a
    header, the ancestry of uncles, and the order of [VerifyHeaders]. *)

From S2P Require Import Prelude BigMath Params Memory Rlp Interfaces Header Block Machine.
From S2P Require Import VmLaws Hashimoto HashimotoLaws EthashSizes Ethash.

Section Laws.
Context {CRY : Crypto} {C512 : Crypto512}.

(** ** Buffers of an epoch *)

(** The dataset is generated by some number of threads, interleaved. *)
Definition interleaving (size : Z) (schedule : list Z) : Prop :=
  ∃ threads, 1 ≤ threads ≤ 2 ^ 16 ∧
    schedule ≡ₚ concat (map (thread_items size threads) (seqZ 0 threads)).

Lemma epoch_block epoch : 0 ≤ epoch < maxEpoch → u64 (epoch * epochLength + 1) / epochLength = epoch.
Proof.
  intros H. unfold maxEpoch, epochLength in *. rewrite u64_id by (unfold is_u64; lia).
  rewrite Z.div_add_l by lia. change (1 / 30000) with 0. lia.
Qed.
Lemma sizes_by_epoch fuel b1 b2 : b1 / epochLength = b2 / epochLength →
  cacheSize fuel b1 = cacheSize fuel b2 ∧ datasetSize fuel b1 = datasetSize fuel b2.
Proof. intros E. unfold cacheSize, datasetSize. by rewrite E. Qed.

(** Rows of the cache and of the dataset of an epoch. *)
Definition epoch_rows (fuel : nat) (epoch : Z) (test : bool) (crows drows : Z) : Prop :=
  (if test then Some 1024 else cacheSize fuel (u64 (epoch * epochLength + 1))) = Some (crows * hashBytes) ∧
  (if test then Some (32 * 1024) else datasetSize fuel (u64 (epoch * epochLength + 1))) = Some (drows * mixBytes) ∧
  0 < crows < 2 ^ 26 ∧ 50 ≤ drows ≤ 2 ^ 25.
Lemma epoch_rows_ok fuel epoch test : 0 ≤ epoch < 383 → ∃ crows drows, epoch_rows fuel epoch test crows drows.
Proof.
  intros He. destruct test; [exists 16, 256; done|].
  assert (Hb : 0 ≤ u64 (epoch * epochLength + 1) < 383 * epochLength).
  { unfold epochLength. rewrite u64_id by (unfold is_u64; lia). lia. }
  destruct (cacheSize_table fuel (u64 (epoch * epochLength + 1))) as (c & Ec & Hc); [unfold maxEpoch, epochLength in *; lia|].
  destruct (datasetSize_table fuel (u64 (epoch * epochLength + 1))) as (d & Ed & Hd & H32);
    [unfold maxEpoch, epochLength in *; lia|].
  exists c, d. split_and!; [done|done|lia|lia|lia|]. apply H32. lia.
Qed.

Lemma cache_generate_ok fuel epoch test crows drows : epoch_rows fuel epoch test crows drows →
  ∃ cache, cache_generate fuel epoch test = Some cache ∧ zlen cache = crows * hashWords.
Proof.
  intros (Ec & _ & Hc & _). unfold cache_generate. cbv zeta. rewrite Ec. cbn [mbind option_bind].
  replace (crows * hashBytes / 4 * 4) with (crows * hashBytes).
  - by apply generateCache_total.
  - unfold hashBytes. replace (crows * 64) with (crows * 16 * 4) by lia. rewrite Z.div_mul; lia.
Qed.
Lemma dataset_generate_ok fuel epoch test crows drows cache schedule :
  epoch_rows fuel epoch test crows drows → cache_generate fuel epoch test = Some cache →
  zlen cache = crows * hashWords → interleaving (drows * mixBytes) schedule →
  dataset_generate fuel epoch test schedule = Some (full_dataset cache (2 * drows)).
Proof.
  intros (_ & Ed & Hc & Hd) Hcg Hl (threads & Ht & Hs). unfold dataset_generate. cbv zeta. rewrite Ed, Hcg.
  cbn [mbind option_bind].
  assert (E : drows * mixBytes = 2 * drows * hashBytes) by (unfold mixBytes, hashBytes; lia).
  replace (drows * mixBytes / 4 * 4) with (2 * drows * hashBytes).
  - eapply (generateDataset_any cache crows); [lia|done|lia|].
    intros i. rewrite Hs, E. apply (threads_cover crows); lia.
  - unfold mixBytes, hashBytes. replace (drows * 128) with (2 * drows * 16 * 4) by lia. rewrite Z.div_mul; lia.
Qed.

(** ** The search for a nonce *)

Lemma take_13_seal d n h : take 13 (header_vals (set_seal d n h)) = take 13 (header_vals h).
Proof. done. Qed.
Lemma SealHash_set_seal d n h : SealHash (set_seal d n h) = SealHash h.
Proof. done. Qed.
Lemma BlockNonce_EncodeNonce n : is_u64 n → BlockNonce_Uint64 (EncodeNonce n) = n.
Proof. intros H. unfold BlockNonce_Uint64, EncodeNonce. rewrite be_val_be_bytes. by apply Z.mod_small. Qed.
Lemma result_below_two256 r : length r = 32%nat → is_bytes r → 0 ≤ Big.SetBytes r < two256.
Proof. intros Hl Hb. pose proof (be_val_bound r Hb) as H. unfold zlen in H. rewrite Hl in H. exact H. Qed.

(** What a successful search returns. *)
Lemma mine_loop_ok attempts dataset hash target header nonce h' : is_u64 nonce →
  mine_loop attempts dataset hash target header nonce = Ok h' →
  ∃ n digest result, is_u64 n ∧ hashimotoFull dataset hash n = Some (digest, result) ∧
    Big.SetBytes result ≤ target ∧ h' = set_seal (BytesToHash digest) (EncodeNonce n) header.
Proof.
  revert nonce. induction attempts as [|a IH]; intros nonce Hn; [done|]. simpl.
  destruct (hashimotoFull dataset hash nonce) as [[digest result]|] eqn:E; [|done]. simpl.
  destruct (Z.leb_spec (Big.SetBytes result) target).
  - intros [= <-]. by exists nonce, digest, result.
  - apply IH. apply u64_range.
Qed.

(** A nonce hits the target, and the search returns the first one that does. *)
Definition hits (dataset : list Z) (hash : bytes) (target nonce : Z) : Prop :=
  ∃ digest result, hashimotoFull dataset hash nonce = Some (digest, result) ∧ Big.SetBytes result ≤ target.
Lemma mine_loop_first attempts dataset hash target header nonce : is_u64 nonce →
  (∀ n, hashimotoFull dataset hash n ≠ None) →
  (∃ k digest result, (k < attempts)%nat ∧ (∀ j, (j < k)%nat → ¬ hits dataset hash target (u64 (nonce + Z.of_nat j))) ∧
     hashimotoFull dataset hash (u64 (nonce + Z.of_nat k)) = Some (digest, result) ∧ Big.SetBytes result ≤ target ∧
     mine_loop attempts dataset hash target header nonce
     = Ok (set_seal (BytesToHash digest) (EncodeNonce (u64 (nonce + Z.of_nat k))) header)) ∨
  ((∀ j, (j < attempts)%nat → ¬ hits dataset hash target (u64 (nonce + Z.of_nat j))) ∧
   mine_loop attempts dataset hash target header nonce = OutOfFuel).
Proof.
  intros Hn Htot. revert nonce Hn. induction attempts as [|a IH]; intros nonce Hn; [right; split; [lia|done]|].
  assert (E0 : u64 (nonce + Z.of_nat 0) = nonce) by (rewrite Z.add_0_r; by apply u64_id).
  assert (ES : ∀ j, u64 (u64 (nonce + 1) + Z.of_nat j) = u64 (nonce + Z.of_nat (S j))).
  { intros j. unfold u64. rewrite Z.add_mod_idemp_l by done. f_equal. lia. }
  cbn [mine_loop]. destruct (hashimotoFull dataset hash nonce) as [[d r]|] eqn:E; [|by destruct (Htot nonce)].
  cbn [of_option res_bind]. destruct (Z.leb_spec (Big.SetBytes r) target) as [Hle|Hgt].
  { left. exists 0%nat, d, r. rewrite E0. split_and!; [lia|intros j Hj; lia|exact E|exact Hle|reflexivity]. }
  assert (H0 : ¬ hits dataset hash target (u64 (nonce + Z.of_nat 0))).
  { rewrite E0. intros (d' & r' & E' & H'). rewrite E in E'. injection E' as -> ->. lia. }
  destruct (IH (u64 (nonce + 1)) (u64_range _)) as [(k & d' & r' & Hk & Hno & Hf & Hl & ->)|[Hno ->]].
  - left. exists (S k), d', r'. rewrite ES in Hf |- *. split_and!; [lia| |exact Hf|exact Hl|reflexivity].
    intros [|j] Hj; [exact H0|]. rewrite <- ES. apply Hno. lia.
  - right. split; [|reflexivity]. intros [|j] Hj; [exact H0|]. rewrite <- ES. apply Hno. lia.
Qed.

(** ** Headers *)

Lemma ensure_ok b e : ensure b e = Ok tt ↔ b = true.
Proof. by destruct b. Qed.
Lemma then_ok {A} (m : eres unit) (k : eres A) x : (_ ←? m; k) = Ok x ↔ m = Ok tt ∧ k = Ok x.
Proof. destruct m as [[]| | |]; simpl; naive_solver. Qed.

(** How far two gas limits are apart, for the check in [int64]: the shorter way
    around the circle of 64-bit numbers.  Below [2 ^ 63] that is the plain
    distance. *)
Definition gas_distance (p l : Z) : Z := Z.min (Z.abs (p - l)) (2 ^ 64 - Z.abs (p - l)).
Lemma gas_distance_small p l : 0 ≤ p < 2 ^ 63 → 0 ≤ l < 2 ^ 63 → gas_distance p l = Z.abs (p - l).
Proof. unfold gas_distance. lia. Qed.
Lemma i64_sub p l : is_u64 p → 0 ≤ l < 2 ^ 63 → i64 (int_of_u64 p - int_of_u64 l) =
  if p - l <? - 2 ^ 63 then p - l + 2 ^ 64 else if p - l <? 2 ^ 63 then p - l else p - l - 2 ^ 64.
Proof.
  unfold is_u64. intros Hp Hl. unfold i64, int_of_u64 at 2 3. destruct (Z.ltb_spec l (2 ^ 63)); [|lia].
  assert (E : u64 ((if p <? 2 ^ 63 then p else p - 2 ^ 64) - l) = if p <? l then p - l + 2 ^ 64 else p - l).
  { unfold u64. destruct (Z.ltb_spec p (2 ^ 63)), (Z.ltb_spec p l); try lia.
    - rewrite <- (Z_mod_plus_full (p - l) 1 (2 ^ 64)), Z.mod_small by lia. lia.
    - by rewrite Z.mod_small by lia.
    - rewrite <- (Z_mod_plus_full (p - 2 ^ 64 - l) 1 (2 ^ 64)), Z.mod_small by lia. lia. }
  rewrite E. unfold int_of_u64. destruct (Z.ltb_spec p l), (Z.ltb_spec (p - l) (- 2 ^ 63)), (Z.ltb_spec (p - l) (2 ^ 63)); try lia;
    first [destruct (Z.ltb_spec (p - l + 2 ^ 64) (2 ^ 63))|destruct (Z.ltb_spec (p - l) (2 ^ 63))]; lia.
Qed.
(** The gas limit may move by less than a 1024th of the parent's. *)
Lemma gas_limit_check p l : is_u64 p → 0 ≤ l < 2 ^ 63 →
  let diff := i64 (int_of_u64 p - int_of_u64 l) in
  let diff := if diff <? 0 then i64 (diff * -1) else diff in
  u64 diff = gas_distance p l.
Proof.
  intros Hp Hl. cbv zeta. rewrite i64_sub by done. unfold is_u64 in Hp. unfold gas_distance.
  destruct (Z.ltb_spec (p - l) (- 2 ^ 63)); [lia|]. destruct (Z.ltb_spec (p - l) (2 ^ 63)).
  - destruct (Z.ltb_spec (p - l) 0); [|rewrite u64_id by (unfold is_u64; lia); lia].
    unfold i64, int_of_u64. rewrite (u64_id (_ * -1)) by (unfold is_u64; lia).
    destruct (Z.ltb_spec ((p - l) * -1) (2 ^ 63)); [|lia]. rewrite u64_id by (unfold is_u64; lia). lia.
  - destruct (Z.ltb_spec (p - l - 2 ^ 64) 0); [|lia].
    unfold i64, int_of_u64. rewrite (u64_id (_ * -1)) by (unfold is_u64; lia).
    destruct (Z.ltb_spec ((p - l - 2 ^ 64) * -1) (2 ^ 63)); [rewrite u64_id by (unfold is_u64; lia); lia|].
    assert (E : p - l = 2 ^ 63) by lia. rewrite E. vm_compute. reflexivity.
Qed.

(** The rules of a header, as the yellow paper states them. *)
Definition dao_extra_ok (config : ChainConfig) (h : Header) : Prop :=
  ∀ fork, DAOForkBlock config = Some fork → fork ≤ h_Number h < fork + 10 →
    (h_Extra h = DAOForkBlockExtra ↔ DAOForkSupport config = true).
Definition fork_hash_ok (config : ChainConfig) (h : Header) (uncle : bool) : Prop :=
  uncle = false → EIP150Block config = Some (h_Number h) → EIP150Hash config ≠ 0 →
    EIP150Hash config = Header_Hash h.
Lemma VerifyDAOHeaderExtraData_ok config h : VerifyDAOHeaderExtraData config h = Ok tt ↔ dao_extra_ok config h.
Proof.
  unfold VerifyDAOHeaderExtraData, dao_extra_ok, DAOForkExtraRange.
  destruct (DAOForkBlock config) as [fork|]; [|by split].
  destruct (Z.ltb_spec (h_Number h) fork); simpl.
  { split; [|done]. intros _ f [= <-]. lia. }
  destruct (Z.leb_spec (fork + 10) (h_Number h)); simpl.
  { split; [|done]. intros _ f [= <-]. lia. }
  destruct (DAOForkSupport config); rewrite ensure_ok, ?negb_true_iff, ?bool_decide_eq_true, ?bool_decide_eq_false; split.
  - intros Hq f [= <-] _. done.
  - intros Hf. by apply (Hf fork).
  - intros Hq f [= <-] _. by split.
  - intros Hf Hx. apply (Hf fork) in Hx; done.
Qed.
Lemma VerifyForkHashes_ok config h uncle : VerifyForkHashes config h uncle = Ok tt ↔ fork_hash_ok config h uncle.
Proof.
  unfold VerifyForkHashes, fork_hash_ok. destruct uncle; [by split|].
  destruct (bool_decide_reflect (EIP150Block config = Some (h_Number h))) as [Hb|Hb]; [|split; [by intros|done]].
  destruct (Z.eqb_spec (EIP150Hash config) 0); simpl; [split; [by intros|done]|].
  destruct (Z.eqb_spec (EIP150Hash config) (Header_Hash h)); simpl; split; try done.
  intros Hf. by destruct n0; apply Hf.
Qed.

Record valid_header (fuel : nat) (generated : Z → option (list Z)) (now : Z) (e : Ethash) (chain : ChainReader)
    (h parent : Header) (uncle seal : bool) : Prop := {
  vh_extra : zlen (h_Extra h) ≤ 32;
  vh_time : if uncle then h_Time h < 2 ^ 256 else h_Time h ≤ now + 15;
  vh_after : h_Time parent < h_Time h;
  vh_difficulty : h_Difficulty h = engine_CalcDifficulty chain (Big.Uint64 (h_Time h)) parent;
  vh_cap : h_GasLimit h < 2 ^ 63;
  vh_used : h_GasUsed h ≤ h_GasLimit h;
  vh_limit : gas_distance (h_GasLimit parent) (h_GasLimit h) < h_GasLimit parent / 1024;
  vh_min : 5000 ≤ h_GasLimit h;
  vh_number : h_Number h = h_Number parent + 1;
  vh_seal : seal = true → VerifySeal fuel generated e h = Ok tt;
  vh_dao : dao_extra_ok (cr_Config chain) h;
  vh_fork : fork_hash_ok (cr_Config chain) h uncle;
}.
Lemma verifyHeader_iff fuel generated now e chain h parent uncle seal :
  is_u64 (h_GasLimit parent) → 0 ≤ h_GasLimit h →
  verifyHeader fuel generated now e chain h parent uncle seal = Ok tt ↔
  valid_header fuel generated now e chain h parent uncle seal.
Proof.
  intros Hp Hh. unfold verifyHeader. cbv zeta. unfold MaximumExtraDataSize.
  rewrite !then_ok, VerifyDAOHeaderExtraData_ok, VerifyForkHashes_ok, !ensure_ok.
  rewrite !negb_true_iff, orb_false_iff, !Z.leb_le, !Z.leb_gt, Z.ltb_ge, !Z.eqb_eq.
  assert (Ht : (if uncle then ensure (h_Time h <=? Math.tt256m1) errLargeBlockTime
               else ensure (h_Time h <=? now + 15) ErrFutureBlock) = Ok tt ↔
               if uncle then h_Time h < 2 ^ 256 else h_Time h ≤ now + 15).
  { destruct uncle; rewrite ensure_ok, Z.leb_le; [|done]. unfold Math.tt256m1, Math.tt256. lia. }
  assert (Hs : (if seal then VerifySeal fuel generated e h else Ok tt) = Ok tt ↔
               (seal = true → VerifySeal fuel generated e h = Ok tt)).
  { destruct seal; split; try done. intros H. by apply H. }
  rewrite Ht, Hs. unfold GasLimitBoundDivisor, MinGasLimit.
  change 0x7fffffffffffffff with (2 ^ 63 - 1).
  assert (Hg : h_GasLimit h ≤ 2 ^ 63 - 1 → u64 (if i64 (int_of_u64 (h_GasLimit parent) - int_of_u64 (h_GasLimit h)) <? 0
    then i64 (i64 (int_of_u64 (h_GasLimit parent) - int_of_u64 (h_GasLimit h)) * -1)
    else i64 (int_of_u64 (h_GasLimit parent) - int_of_u64 (h_GasLimit h))) = gas_distance (h_GasLimit parent) (h_GasLimit h)).
  { intros H. apply gas_limit_check; [done|lia]. }
  split.
  - intros (H1 & H2 & H3 & H4 & H5 & H6 & [H7 H7'] & H8 & H9 & H10 & H11). rewrite Hg in H7 by done.
    split; try done; lia.
  - intros [H1 H2 H3 H4 H5 H6 H7 H7' H8 H9 H10 H11]. rewrite Hg by lia. split_and!; try done; lia.
Qed.

(** ** Uncles *)

(** The block that a header names as its parent, and the [k]-th ancestor. *)
Definition parent_block (chain : ChainReader) (h : Header) : option Block :=
  GetBlock chain (h_ParentHash h) (u64 (Big.Uint64 (h_Number h) - 1)).
Fixpoint ancestor (chain : ChainReader) (k : nat) (h : Header) : option Block :=
  match k with
  | O => None
  | S k =>
      p ← parent_block chain h;
      match k with
      | O => Some p
      | S _ => ancestor chain k (b_header p)
      end
  end.
(** A chain gives the blocks that are asked for. *)
Record chain_ok (chain : ChainReader) : Prop := {
  co_hash h n b : GetBlock chain h n = Some b → Header_Hash (b_header b) = h;
  co_number h n b : GetBlock chain h n = Some b → h_Number (b_header b) = n ∧ 0 ≤ n < 2 ^ 63;
}.

Lemma ancestor_S chain k h p : parent_block chain h = Some p →
  ancestor chain (S (S k)) h = ancestor chain (S k) (b_header p).
Proof. intros E. cbn [ancestor]. by rewrite E. Qed.
Lemma ancestor_number chain k h b : chain_ok chain → 0 ≤ h_Number h < 2 ^ 63 →
  ancestor chain k h = Some b → h_Number (b_header b) = h_Number h - Z.of_nat k.
Proof.
  intros Hc. revert h. induction k as [|k IH]; intros h Hn Hb; [done|].
  cbn [ancestor] in Hb. destruct (parent_block chain h) as [p|] eqn:Ep; [|done]. cbn [mbind option_bind] in Hb.
  unfold parent_block in Ep. destruct (co_number _ Hc _ _ _ Ep) as [Hpn Hr].
  assert (E : h_Number (b_header p) = h_Number h - 1).
  { rewrite Hpn. unfold Big.Uint64 in *. rewrite Z.abs_eq, (u64_id (h_Number h)) in * by (unfold is_u64; lia).
    destruct (decide (1 ≤ h_Number h)); [by rewrite u64_id by (unfold is_u64; lia)|].
    replace (h_Number h) with 0 in Hr by lia. change (u64 (0 - 1)) with (2 ^ 64 - 1) in Hr. lia. }
  destruct k as [|k]; [injection Hb as <-; lia|].
  rewrite (IH (b_header p)); [lia|lia|done].
Qed.
Lemma ancestor_hash_1 chain h b : chain_ok chain → ancestor chain 1 h = Some b →
  Header_Hash (b_header b) = h_ParentHash h.
Proof.
  intros Hc H. cbn [ancestor] in H. destruct (parent_block chain h) as [p|] eqn:E; [|done].
  injection H as <-. by eapply co_hash.
Qed.

Lemma gather_spec chain n h U A : chain_ok chain →
  let '(U', A') := gather n chain (u64 (Big.Uint64 (h_Number h) - 1)) (h_ParentHash h) U A in
  (∀ x, x ∈ U' ↔ x ∈ U ∨ ∃ k b, (1 ≤ k ≤ n)%nat ∧ ancestor chain k h = Some b ∧ x ∈ map Header_Hash (b_uncles b)) ∧
  (∀ x y, A' !! x = Some y → A !! x = Some y ∨
     ∃ k b, (1 ≤ k ≤ n)%nat ∧ ancestor chain k h = Some b ∧ b_header b = y ∧ Header_Hash y = x) ∧
  (∀ x, is_Some (A' !! x) ↔ is_Some (A !! x) ∨
     ∃ k b, (1 ≤ k ≤ n)%nat ∧ ancestor chain k h = Some b ∧ Header_Hash (b_header b) = x).
Proof.
  intros Hc. revert h U A. induction n as [|n IH]; intros h U A.
  { cbn [gather]. split_and!; intros; naive_solver lia. }
  cbn [gather]. fold (parent_block chain h). destruct (parent_block chain h) as [p|] eqn:Ep.
  2: { assert (Hno : ∀ k b, ancestor chain k h = Some b → False).
       { intros [|k] b Hb; [done|]. cbn [ancestor] in Hb. by rewrite Ep in Hb. }
       split_and!; intros; naive_solver. }
  unfold parent_block in Ep. destruct (co_number _ Hc _ _ _ Ep) as [Hpn Hr].
  assert (Eu : u64 (u64 (Big.Uint64 (h_Number h) - 1) - 1) = u64 (Big.Uint64 (h_Number (b_header p)) - 1)).
  { rewrite Hpn. unfold Big.Uint64 at 2. rewrite (Z.abs_eq (u64 _)), (u64_id (u64 _)) by apply u64_range || apply u64_range. done. }
  rewrite Eu. specialize (IH (b_header p) (U ∪ list_to_set (map Header_Hash (b_uncles p)))
    (<[Header_Hash (b_header p) := b_header p]> A)).
  destruct (gather _ _ _ _ _ _) as [U' A'] eqn:E. destruct IH as (H1 & H2 & H3).
  assert (Ha1 : ancestor chain 1 h = Some p) by (cbn [ancestor]; unfold parent_block; by rewrite Ep).
  assert (HaS : ∀ k, (1 ≤ k)%nat → ancestor chain (S k) h = ancestor chain k (b_header p)).
  { intros [|k] Hk; [lia|]. by apply ancestor_S. }
  assert (Hsplit : ∀ P : Block → Prop,
    (∃ k b, (1 ≤ k ≤ S n)%nat ∧ ancestor chain k h = Some b ∧ P b) ↔
    P p ∨ ∃ k b, (1 ≤ k ≤ n)%nat ∧ ancestor chain k (b_header p) = Some b ∧ P b).
  { intros P. split.
    - intros (k & b & Hk & Hb & HP). destruct (decide (k = 1%nat)) as [->|Hne]; [left; by simplify_eq|].
      right. destruct k as [|k]; [lia|]. rewrite HaS in Hb by lia. exists k, b. split_and!; [lia|lia|done..].
    - intros [HP|(k & b & Hk & Hb & HP)]; [exists 1%nat, p; split_and!; [lia|lia|done..]|].
      exists (S k), b. rewrite HaS by lia. split_and!; [lia|lia|done..]. }
  split_and!.
  - intros x. rewrite H1, Hsplit, elem_of_union, elem_of_list_to_set. tauto.
  - intros x y Hx. apply H2 in Hx as [Hx|Hx].
    + apply lookup_insert_Some in Hx as [[<- <-]|[_ Hx]]; [|by left].
      right. exists 1%nat, p. split_and!; [lia|lia|done..].
    + right. apply (Hsplit (λ b, b_header b = y ∧ Header_Hash y = x)). by right.
  - intros x. rewrite H3, Hsplit, lookup_insert_is_Some. 
    destruct (decide (Header_Hash (b_header p) = x)); naive_solver.
Qed.

(** What makes an uncle acceptable. *)
Record uncle_ok (fuel : nat) (generated : Z → option (list Z)) (now : Z) (e : Ethash) (chain : ChainReader)
    (h u : Header) : Prop := {
  uo_parent : ∃ k p, (2 ≤ k ≤ 7)%nat ∧ ancestor chain k h = Some p ∧ h_ParentHash u = Header_Hash (b_header p) ∧
    verifyHeader fuel generated now e chain u (b_header p) true true = Ok tt;
  uo_self : Header_Hash u ≠ Header_Hash h;
  uo_ancestor : ∀ j c, (1 ≤ j ≤ 7)%nat → ancestor chain j h = Some c →
    Header_Hash u ≠ Header_Hash (b_header c) ∧ Header_Hash u ∉ map Header_Hash (b_uncles c);
}.
Lemma verify_uncles_ok fuel generated now e chain h us txs U A l :
  chain_ok chain → (∀ u, u ∈ l → h_ParentHash u ≠ Header_Hash h) →
  let '(U0, A0) := gather 7 chain (u64 (Big.Uint64 (h_Number h) - 1)) (h_ParentHash h) ∅ ∅ in
  A = <[Header_Hash h := h]> A0 → {[Header_Hash h]} ∪ U0 ⊆ U →
  verify_uncles fuel generated now e chain (mkBlock h us txs) A U l = Ok tt →
  NoDup (map Header_Hash l) ∧ Forall (λ u, Header_Hash u ∉ U ∧ uncle_ok fuel generated now e chain h u) l.
Proof.
  intros Hc Hl. pose proof (gather_spec chain 7 h ∅ ∅ Hc) as HG.
  destruct (gather _ _ _ _ _ _) as [U0 A0]. destruct HG as (H1 & H2 & H3). intros -> HU.
  revert U HU Hl. induction l as [|u l IH]; intros U HU Hl Hv; [split; constructor|].
  cbn [verify_uncles] in Hv. cbv zeta in Hv. rewrite !then_ok, !ensure_ok in Hv. destruct Hv as (Hnot & Hanc & Hv).
  apply negb_true_iff, bool_decide_eq_false in Hnot. apply bool_decide_eq_true in Hanc.
  destruct (_ !! h_ParentHash u) as [parent|] eqn:Ep; [|done].
  rewrite !then_ok, !ensure_ok in Hv. destruct Hv as (Hpar & Hver & Hv). cbn [b_header] in Hpar.
  apply negb_true_iff, Z.eqb_neq in Hpar.
  assert (Hne : h_ParentHash u ≠ Header_Hash h) by (apply Hl; left).
  destruct (IH ({[Header_Hash u]} ∪ U)) as [Hnd Hf]; [set_solver|by intros; apply Hl; right|done|].
  split.
  - cbn [map]. constructor; [|done]. intros Hin. apply list_elem_of_fmap in Hin as (w & Hw & Hwl).
    rewrite Forall_forall in Hf. destruct (Hf w Hwl) as [Hn _]. apply Hn. rewrite <- Hw. set_solver.
  - constructor; [|eapply Forall_impl; [exact Hf|]; intros w [Hw1 Hw2]; split; [set_solver|done]].
    split; [done|]. rewrite lookup_insert_ne in Ep by done. apply H2 in Ep as [Ep|(k & p & Hk & Hkp & <- & Hph)]; [done|].
    apply lookup_insert_None in Hanc as [Hanc Hself]. split; [|by apply not_eq_sym|].
    + exists k, p. split_and!; [|lia|done|by symmetry|done].
      destruct (decide (k = 1%nat)) as [->|]; [|lia]. destruct Hpar.
      rewrite <- Hph. by apply ancestor_hash_1 with (chain := chain).
    + intros j c Hj Hjc. split.
      * intros Heq. assert (Hs : is_Some (A0 !! Header_Hash u)) by (apply H3; right; exists j, c; done).
        rewrite Hanc in Hs. by destruct Hs.
      * intros Hin. apply Hnot, HU, elem_of_union_r, H1. right. by exists j, c.
Qed.

(** ** Rewards *)

(** What the uncles give to account [a]. *)
Fixpoint uncle_rewards (R : Z) (h : Header) (uncles : list Header) (a : Z) : Z :=
  match uncles with
  | [] => 0
  | u :: uncles => (if decide (a = h_Coinbase u) then (h_Number u + 8 - h_Number h) * R / 8 else 0)
                   + uncle_rewards R h uncles a
  end.
Lemma reward_uncles_ok {S : Type} `{!VMState S} `{!VMStateLaws S} R h uncles reward (s : S) :
  0 ≤ R → sinv s → Forall (λ u, is_addr (h_Coinbase u) ∧ h_Number h - 8 ≤ h_Number u) uncles →
  let '(r', s') := reward_uncles R h uncles reward s in
  r' = reward + zlen uncles * (R / 32) ∧ sinv s' ∧ ∀ a, bal a s' = bal a s + uncle_rewards R h uncles a.
Proof.
  intros HR W Hu. revert reward s W. induction Hu as [|u uncles [Ha Hu] _ IH]; intros reward s W.
  { split_and!; [unfold zlen; simpl length; lia|done|intros a; symmetry; apply Z.add_0_r]. }
  cbn [reward_uncles]. cbv zeta. set (r := (h_Number u + 8 - h_Number h) * R / 8).
  assert (Hr : 0 ≤ r) by (apply Z.div_pos; nia).
  assert (W' : sinv (sAddBalance (h_Coinbase u) r s)) by (eapply sinv_sop; [exact W|by apply so_add]).
  specialize (IH (reward + R / 32) _ W'). destruct (reward_uncles _ _ _ _ _) as [r' s'].
  destruct IH as (H1 & H2 & H3). split_and!; [rewrite H1, zlen_cons; lia|done|].
  intros a. rewrite H3, bal_add by done. cbn [uncle_rewards]. fold r. destruct (decide _); lia.
Qed.

Lemma blockReward_nonneg config h : 0 ≤ blockReward config h.
Proof. unfold blockReward. cbv zeta. repeat case_match; by compute. Qed.
Lemma accumulateRewards_ok {S : Type} `{!VMState S} `{!VMStateLaws S} config header uncles (s : S) :
  sinv s → is_addr (h_Coinbase header) →
  Forall (λ u, is_addr (h_Coinbase u) ∧ h_Number header - 6 ≤ h_Number u < h_Number header) uncles →
  let R := blockReward config header in
  sinv (accumulateRewards config header uncles s) ∧
  ∀ a, bal a (accumulateRewards config header uncles s) =
    bal a s + (if decide (a = h_Coinbase header) then R + zlen uncles * (R / 32) else 0) + uncle_rewards R header uncles a.
Proof.
  intros W Hc Hu R. pose proof (blockReward_nonneg config header : 0 ≤ R) as HR.
  unfold accumulateRewards. cbv zeta. fold R.
  pose proof (reward_uncles_ok R header uncles R s HR W) as H.
  destruct (reward_uncles _ _ _ _ _) as [r s1]. destruct H as (-> & W1 & Hb).
  { eapply Forall_impl; [exact Hu|]. intros u [Ha Hx]. split; [done|lia]. }
  assert (0 ≤ zlen uncles * (R / 32)).
  { apply Z.mul_nonneg_nonneg; [apply zlen_nonneg|by apply Z.div_pos]. }
  split; [eapply sinv_sop; [exact W1|apply so_add; [done|lia]]|].
  intros a. rewrite bal_add, Hb by done. destruct (decide _); lia.
Qed.

(** ** Difficulty *)

(** The multiple of a 2048th by which the difficulty moves, and the part that
    grows with the number of the block. *)
Definition difficulty_step (config : ChainConfig) (time : Z) (p : Header) : Z :=
  let next := h_Number p + 1 in
  let elapsed := time - h_Time p in
  if IsByzantium config next || IsConstantinople config next
  then Z.max (-99) ((if h_UncleHash p =? EmptyUncleHash then 1 else 2) - elapsed / 9)
  else if IsHomestead config next then Z.max (-99) (1 - elapsed / 10)
  else if elapsed <? 13 then 1 else -1.
Definition bomb (config : ChainConfig) (p : Header) : Z :=
  let next := h_Number p + 1 in
  let delay := if IsConstantinople config next then 5000000
               else if IsByzantium config next then 3000000 else 0 in
  let period := Z.max 0 (next - delay) / 100000 in
  if 2 <=? period then 2 ^ (period - 2) else 0.

Lemma if_max a x : (if x <? a then a else x) = Z.max a x.
Proof. destruct (Z.ltb_spec x a); lia. Qed.
Lemma if_bomb x p : (if 1 <? p then x + 2 ^ (p - 2) else x) = x + (if 2 <=? p then 2 ^ (p - 2) else 0).
Proof. destruct (Z.ltb_spec 1 p), (Z.leb_spec 2 p); lia. Qed.
Lemma bomb_nonneg p : 0 ≤ (if 2 <=? p then 2 ^ (p - 2) else 0).
Proof. destruct (Z.leb_spec 2 p); [apply Z.pow_nonneg|]; lia. Qed.

Lemma makeDifficultyCalculator_spec delay time p : 0 < delay → 0 ≤ h_Number p →
  makeDifficultyCalculator delay time p =
  Z.max 131072 (h_Difficulty p + h_Difficulty p / 2048 *
    Z.max (-99) ((if h_UncleHash p =? EmptyUncleHash then 1 else 2) - (time - h_Time p) / 9)) +
  (let period := Z.max 0 (h_Number p + 1 - delay) / 100000 in if 2 <=? period then 2 ^ (period - 2) else 0).
Proof.
  intros Hd Hn. unfold makeDifficultyCalculator, bigMinus99, DifficultyBoundDivisor, MinimumDifficulty, expDiffPeriod.
  cbv zeta. rewrite !if_max, if_bomb. f_equal.
  - destruct (_ =? EmptyUncleHash); done.
  - assert (E : (if delay - 1 <=? h_Number p then h_Number p - (delay - 1) else 0) = Z.max 0 (h_Number p + 1 - delay)).
    { destruct (Z.leb_spec (delay - 1) (h_Number p)); lia. }
    by rewrite E.
Qed.
Lemma CalcDifficulty_spec config time p : 0 ≤ h_Number p →
  CalcDifficulty config time p =
  Z.max 131072 (h_Difficulty p + h_Difficulty p / 2048 * difficulty_step config time p) + bomb config p.
Proof.
  intros Hn. unfold CalcDifficulty, difficulty_step, bomb. cbv zeta.
  destruct (IsConstantinople config (h_Number p + 1)); [rewrite orb_true_r|rewrite orb_false_r].
  { by apply makeDifficultyCalculator_spec. }
  destruct (IsByzantium config (h_Number p + 1)); [by apply makeDifficultyCalculator_spec|].
  rewrite Z.sub_0_r, (Z.max_r 0) by lia.
  destruct (IsHomestead config (h_Number p + 1)).
  { unfold calcDifficultyHomestead, bigMinus99, DifficultyBoundDivisor, MinimumDifficulty, expDiffPeriod.
    cbv zeta. by rewrite !if_max, if_bomb. }
  unfold calcDifficultyFrontier, DifficultyBoundDivisor, MinimumDifficulty, expDiffPeriod, DurationLimit, Math.BigMax.
  cbv zeta. rewrite !if_max. pose proof (bomb_nonneg ((h_Number p + 1) / 100000)) as Hb. revert Hb.
  destruct (Z.leb_spec 2 ((h_Number p + 1) / 100000)) as [H2|H2];
    destruct (Z.ltb_spec 1 ((h_Number p + 1) / 100000)) as [H1|H1]; try lia; intros Hb.
  - destruct (Z.ltb_spec (time - h_Time p) 13); lia.
  - destruct (Z.ltb_spec (time - h_Time p) 13); lia.
Qed.
Lemma difficulty_step_mono config t t' p : t ≤ t' → difficulty_step config t' p ≤ difficulty_step config t p.
Proof.
  intros Ht. unfold difficulty_step. cbv zeta.
  pose proof (Z.div_le_mono (t - h_Time p) (t' - h_Time p) 9 ltac:(lia) ltac:(lia)).
  pose proof (Z.div_le_mono (t - h_Time p) (t' - h_Time p) 10 ltac:(lia) ltac:(lia)).
  repeat (case_match; boolp); lia.
Qed.
Lemma difficulty_step_range config t p : h_Time p ≤ t → -99 ≤ difficulty_step config t p ≤ 2.
Proof.
  intros Ht. unfold difficulty_step. cbv zeta.
  pose proof (Z.div_pos (t - h_Time p) 9 ltac:(lia) ltac:(lia)).
  pose proof (Z.div_pos (t - h_Time p) 10 ltac:(lia) ltac:(lia)).
  repeat case_match; lia.
Qed.

End Laws.

(** ** The order of VerifyHeaders *)

(** What has been handed out are the first errors; the next one has not been
    reported, unless all have been handed out. *)
Record verifier_inv (errors : list (eres unit)) (dones : list nat) (v : verifier) : Prop := {
  vi_len : length (checked v) = length errors;
  vi_checked : ∀ i, checked v !! i = Some true ↔ (i < length errors)%nat ∧ i ∈ dones;
  vi_out : errorsOut v = take (out v) errors ∧ (out v ≤ length errors)%nat;
  vi_next : (out v < length errors)%nat → out v ∉ dones;
}.
Lemma deliver_inv n errors dones v :
  length (checked v) = length errors → (∀ i, checked v !! i = Some true ↔ (i < length errors)%nat ∧ i ∈ dones) →
  errorsOut v = take (out v) errors → (length errors ≤ out v + n)%nat → (out v ≤ length errors)%nat →
  verifier_inv errors dones (deliver n errors v).
Proof.
  revert v. induction n as [|n IH]; intros v Hl Hc He Hn Ho.
  { cbn [deliver]. split; try done. lia. }
  cbn [deliver]. destruct (checked v !! out v) as [[]|] eqn:Ec.
  - destruct (errors !! out v) as [err|] eqn:Ee.
    + apply IH; cbn; try done; try lia.
      * by rewrite He, (take_S_r _ _ _ Ee).
      * apply lookup_lt_Some in Ee. lia.
    + apply Hc in Ec as [Ec _]. apply lookup_ge_None in Ee. lia.
  - split; try done. intros Hlt Hin. assert (checked v !! out v = Some true) by (by apply Hc). congruence.
  - split; try done. intros Hlt Hin. apply lookup_ge_None in Ec. lia.
Qed.
Lemma on_done_inv errors dones v i : verifier_inv errors dones v →
  verifier_inv errors (i :: dones) (on_done errors v i).
Proof.
  intros [Hl Hc [He Ho] Hn]. unfold on_done. apply deliver_inv; cbn [checked out errorsOut]; try done; try lia.
  - by rewrite length_insert.
  - intros j. rewrite list_lookup_insert_Some, Hc, elem_of_cons, Hl. split; [|].
    + intros [(-> & _ & ?)|(? & ? & ?)]; auto.
    + intros [? [->|?]]; [by left|]. destruct (decide (i = j)) as [->|]; [by left|by right].
Qed.
Lemma dones_inv errors dones dones0 v : verifier_inv errors dones0 v →
  verifier_inv errors (rev dones ++ dones0) (fold_left (on_done errors) dones v).
Proof.
  revert dones0 v. induction dones as [|i dones IH]; intros dones0 v H; [done|].
  cbn [fold_left rev]. rewrite <- app_assoc. cbn [app]. by apply IH, on_done_inv.
Qed.
Lemma start_inv errors : verifier_inv errors [] (mkVerifier (replicate (length errors) false) 0 []).
Proof.
  split; cbn [checked out errorsOut].
  - apply length_replicate.
  - intros i. split; [|intros [_ Hi]; by apply not_elem_of_nil in Hi].
    intros Hi. apply lookup_replicate_1 in Hi as [E _]. discriminate E.
  - split; [done|lia].
  - intros _. apply not_elem_of_nil.
Qed.
