(* ===== verification/TrieTree.v ===== *)
(** * Tries as trees

    The content of a trie without its caches and its unloaded parts: a tree
    with the operations of the trie on it.  The well-formed trees are the
    canonical ones, so that two with the same content are equal. *)

From S2P Require Import Prelude BigMath Rlp TrieEncoding.

Inductive tree :=
| TNil
| TShort (k : bytes) (t : tree)
| TFull (ts : list tree)
| TValue (v : bytes).

Fixpoint tree_ind' (P : tree → Prop) (Hnil : P TNil) (Hshort : ∀ k t, P t → P (TShort k t))
    (Hfull : ∀ ts, Forall P ts → P (TFull ts)) (Hvalue : ∀ v, P (TValue v)) (t : tree) : P t :=
  match t with
  | TNil => Hnil
  | TShort k t => Hshort k t (tree_ind' P Hnil Hshort Hfull Hvalue t)
  | TFull ts =>
      Hfull ts ((fix go ts : Forall P ts :=
                   match ts with
                   | [] => Forall_nil_2 P
                   | t :: ts => Forall_cons_2 P t ts (tree_ind' P Hnil Hshort Hfull Hvalue t) (go ts)
                   end) ts)
  | TValue v => Hvalue v
  end.

(** [f] of the [n]-th element. *)
Definition at_index {A B} (f : A → B) (d : B) : list A → nat → B :=
  fix go l n :=
    match l, n with
    | [], _ => d
    | x :: _, O => f x
    | _ :: l, S n => go l n
    end.
Lemma at_index_lookup {A B} (f : A → B) d l n :
  at_index f d l n = match l !! n with Some x => f x | None => d end.
Proof. revert n. induction l as [|x l IH]; intros [|n]; try done. apply IH. Qed.

Definition t_is_nil (t : tree) : bool := match t with TNil => true | _ => false end.

(** ** Operations *)

Fixpoint tget (t : tree) (key : bytes) : option bytes :=
  match t with
  | TNil => None
  | TValue v => match key with [] => Some v | _ => None end
  | TShort k c => if decide (k = take (length k) key) then tget c (drop (length k) key) else None
  | TFull ts =>
      match key with
      | [] => None
      | x :: r => at_index (λ c, tget c r) None ts (Z.to_nat x)
      end
  end.

(** What is left of a key below a branch. *)
Definition leaf (key : bytes) (t : tree) : tree := match key with [] => t | _ => TShort key t end.
Definition branch (a : Z) (ta : tree) (b : Z) (tb : tree) : tree :=
  TFull (<[Z.to_nat b := tb]> (<[Z.to_nat a := ta]> (replicate 17 TNil))).
Fixpoint tinsert (t : tree) (key : bytes) (v : tree) : tree :=
  match key with
  | [] => v
  | x :: r =>
      match t with
      | TNil => TShort key v
      | TValue _ => t
      | TShort k c =>
          let m := prefixLen key k in
          if (m =? length k)%nat then TShort k (tinsert c (drop m key) v)
          else
            match k !! m, key !! m with
            | Some a, Some b => leaf (take m key) (branch a (leaf (drop (S m) k) c) b (leaf (drop (S m) key) v))
            | _, _ => t
            end
      | TFull ts => TFull (alter (λ c, tinsert c r v) (Z.to_nat x) ts)
      end
  end.

Fixpoint tlive (i : Z) (ts : list tree) : list Z :=
  match ts with
  | [] => []
  | t :: ts => if t_is_nil t then tlive (i + 1) ts else i :: tlive (i + 1) ts
  end.
(** A short node on top of a child; two short nodes in a row are merged. *)
Definition merge (k : bytes) (c : tree) : tree :=
  match c with TShort ck cc => TShort (k ++ ck) cc | _ => TShort k c end.
Definition collapse (ts : list tree) : tree :=
  match tlive 0 ts with
  | [pos] => match ts !! Z.to_nat pos with Some c => merge [pos] c | None => TFull ts end
  | _ => TFull ts
  end.
Fixpoint tdelete (t : tree) (key : bytes) : tree :=
  match t with
  | TNil => TNil
  | TValue _ => TNil
  | TShort k c =>
      let m := prefixLen key k in
      if (m <? length k)%nat then t
      else if (m =? length key)%nat then TNil
      else merge k (tdelete c (drop (length k) key))
  | TFull ts =>
      match key with
      | [] => t
      | x :: r => collapse (alter (λ c, tdelete c r) (Z.to_nat x) ts)
      end
  end.

(** ** Keys *)

(** The rest of a key: nothing below the terminator, otherwise a hex key. *)
Definition key_at (closed : bool) (k : bytes) : Prop := if closed then k = [] else hex_key k.

Lemma hex_key_nonempty k : hex_key k → k ≠ [].
Proof. intros (p & -> & _). by destruct p. Qed.
Lemma hex_key_cons x r : hex_key (x :: r) → (x = 16 ∧ r = []) ∨ (is_nibble x ∧ hex_key r).
Proof.
  intros (p & E & Hp). destruct p as [|y p]; [left; by injection E as -> ->|right].
  injection E as -> ->. apply Forall_cons in Hp as [Hy Hp]. split; [done|by exists p].
Qed.
Lemma hex_key_app p r : nibbles p → hex_key (p ++ r) ↔ hex_key r.
Proof.
  intros Hp. induction Hp as [|x p Hx _ IH]; [done|]. rewrite <- IH. cbn [app]. split.
  - intros [[-> E]|[_ H]]%hex_key_cons; [unfold is_nibble in Hx; lia|done].
  - intros (q & -> & Hq). exists (x :: q). split; [done|by constructor].
Qed.
Lemma hex_key_prefix_free a b : hex_key a → hex_key (a ++ b) → b = [].
Proof.
  intros (p & -> & Hp) H. rewrite <- app_assoc in H. apply hex_key_app in H; [|done].
  cbn in H. apply hex_key_cons in H as [[_ ->]|[H _]]; [done|]. unfold is_nibble in H. lia.
Qed.
Lemma hex_key_not_nibbles a b : hex_key a → nibbles (a ++ b) → False.
Proof.
  intros (p & -> & _) H. rewrite <- app_assoc in H. apply Forall_app in H as [_ H]. apply Forall_cons in H as [H _].
  unfold is_nibble in H. lia.
Qed.
Lemma hex_key_head x r : hex_key (x :: r) → key_at (bool_decide (Z.to_nat x = 16%nat)) r ∧ 0 ≤ x < 17.
Proof.
  intros [[-> ->]|[Hx Hr]]%hex_key_cons; [done|]. unfold is_nibble in Hx.
  rewrite bool_decide_eq_false_2 by lia. split; [done|lia].
Qed.
Lemma key_head_intro x r : 0 ≤ x < 17 → key_at (bool_decide (Z.to_nat x = 16%nat)) r → hex_key (x :: r).
Proof.
  intros Hx H. destruct (bool_decide_reflect (Z.to_nat x = 16%nat)) as [E|E]; cbn in H.
  - subst r. replace x with 16 by lia. by exists [].
  - destruct H as (p & -> & Hp). exists (x :: p). split; [done|]. constructor; [unfold is_nibble; lia|done].
Qed.

(** ** Well-formed trees *)

Definition live_count (ts : list tree) : nat := length (filter (λ t, t_is_nil t = false) ts).

(** [closed]: below a terminator. *)
Inductive wf : bool → tree → Prop :=
| wf_nil b : wf b TNil
| wf_value v : v ≠ [] → wf true (TValue v)
| wf_leaf k v : hex_key k → v ≠ [] → wf false (TShort k (TValue v))
| wf_ext k ts : k ≠ [] → nibbles k → wf false (TFull ts) → wf false (TShort k (TFull ts))
| wf_full ts : length ts = 17%nat → (∀ i c, ts !! i = Some c → wf (bool_decide (i = 16%nat)) c) →
    (2 ≤ live_count ts)%nat → wf false (TFull ts).

Lemma wf_closed_inv t : wf true t → t = TNil ∨ ∃ v, t = TValue v ∧ v ≠ [].
Proof. inversion 1; subst; [by left|right; eauto]. Qed.
Lemma wf_full_inv b ts : wf b (TFull ts) → b = false ∧ length ts = 17%nat ∧
  (∀ i c, ts !! i = Some c → wf (bool_decide (i = 16%nat)) c) ∧ (2 ≤ live_count ts)%nat.
Proof. by inversion 1. Qed.

Lemma wf_short_inv b k c : wf b (TShort k c) → b = false ∧
  ((∃ v, c = TValue v ∧ hex_key k ∧ v ≠ []) ∨ ∃ ts, c = TFull ts ∧ k ≠ [] ∧ nibbles k ∧ wf false (TFull ts)).
Proof. inversion 1; subst; (split; [done|]); [left|right]; by eexists. Qed.

(** ** Lookup lemmas *)

Lemma take_prefix_iff (k key : bytes) : k = take (length k) key ↔ ∃ r, key = k ++ r.
Proof.
  split.
  - intros E. exists (drop (length k) key). rewrite E at 1. by rewrite take_drop.
  - intros [r ->]. by rewrite take_app_length.
Qed.
Lemma tget_short_app k c r : tget (TShort k c) (k ++ r) = tget c r.
Proof. cbn [tget]. rewrite decide_True by (by rewrite take_app_length). by rewrite drop_app_length. Qed.
Lemma tget_short_some k c key v : tget (TShort k c) key = Some v → ∃ r, key = k ++ r ∧ tget c r = Some v.
Proof.
  cbn [tget]. destruct (decide _) as [E|]; [|done]. apply take_prefix_iff in E as [r ->].
  rewrite drop_app_length. by exists r.
Qed.
Lemma tget_short_none (k : bytes) c key : (∀ r, key ≠ k ++ r) → tget (TShort k c) key = None.
Proof.
  intros H. destruct (tget (TShort k c) key) eqn:E; [|done]. apply tget_short_some in E as (r & -> & _). by destruct (H r).
Qed.
Lemma tget_full ts x r : tget (TFull ts) (x :: r) = match ts !! Z.to_nat x with Some c => tget c r | None => None end.
Proof. cbn [tget]. apply at_index_lookup. Qed.
Lemma tget_leaf key t r : tget (leaf key t) (key ++ r) = tget t r.
Proof. destruct key; [done|apply tget_short_app]. Qed.
Lemma tget_leaf_none (key : bytes) t k : (∀ r, k ≠ key ++ r) → tget (leaf key t) k = None.
Proof. destruct key; [intros H; by destruct (H k)|apply tget_short_none]. Qed.
Lemma tget_leaf_value r v w : tget (leaf r (TValue v)) w = if decide (w = r) then Some v else None.
Proof.
  destruct (decide (r = take (length r) w)) as [E|E].
  - apply take_prefix_iff in E as [u ->]. rewrite tget_leaf. destruct u as [|x u]; cbn [tget].
    + by rewrite decide_True by (by rewrite app_nil_r).
    + rewrite decide_False; [done|]. intros E. rewrite <- (app_nil_r r) in E at 2. by apply app_inv_head in E.
  - rewrite tget_leaf_none by (intros u ->; apply E; by rewrite take_app_length).
    rewrite decide_False; [done|]. intros ->. apply E. by rewrite take_ge.
Qed.
Lemma tget_merge k c key : tget (merge k c) key = tget (TShort k c) key.
Proof.
  destruct c as [|ck cc| |]; try done. cbn [merge].
  destruct (decide (k = take (length k) key)) as [E|E].
  - apply take_prefix_iff in E as [r ->]. rewrite tget_short_app.
    destruct (decide (ck = take (length ck) r)) as [E2|E2].
    + apply take_prefix_iff in E2 as [s ->]. by rewrite app_assoc, !tget_short_app.
    + rewrite !tget_short_none; [done| |].
      * intros s ->. apply E2. by rewrite take_app_length.
      * intros s Hs. rewrite <- app_assoc in Hs. apply app_inv_head in Hs. subst r. apply E2. by rewrite take_app_length.
  - rewrite !tget_short_none; [done| |].
    + intros s ->. apply E. by rewrite take_app_length.
    + intros s ->. apply E. rewrite <- app_assoc. by rewrite take_app_length.
Qed.

Lemma drop_past {A} (p : list A) y s : drop (S (length p)) (p ++ y :: s) = s.
Proof. induction p as [|x p IH]; [done|exact IH]. Qed.
(** A key and the key of a short node: they agree, or part at an index. *)
Lemma prefix_split (key k : bytes) : let m := prefixLen key k in
  (m = length k ∧ ∃ r, key = k ++ r) ∨
  (m = length key ∧ ∃ y s, k = key ++ y :: s) ∨
  ∃ p x r y s, key = p ++ x :: r ∧ k = p ++ y :: s ∧ x ≠ y ∧ m = length p.
Proof.
  revert k. induction key as [|x key IH]; intros [|y k]; cbn [prefixLen].
  - left. split; [done|by exists []].
  - right. left. split; [done|by exists y, k].
  - left. split; [done|by exists (x :: key)].
  - destruct (Z.eqb_spec x y) as [->|Hne].
    + destruct (IH k) as [[E [r ->]]|[[E (z & s & ->)]|(p & u & r & w & s & -> & -> & Hn & E)]].
      * left. split; [cbn; by rewrite E|by exists r].
      * right. left. split; [cbn; by rewrite E|by exists z, s].
      * right. right. exists (y :: p), u, r, w, s. split_and!; try done. cbn. by rewrite E.
    + right. right. exists [], x, key, y, k. done.
Qed.

(** ** Insertion *)

Lemma lookup_branch a ta b tb i : (a < 17)%nat → (b < 17)%nat → (i < 17)%nat →
  <[b := tb]> (<[a := ta]> (replicate 17 TNil)) !! i =
  Some (if decide (i = b) then tb else if decide (i = a) then ta else TNil).
Proof.
  intros Ha Hb Hi. destruct (decide (i = b)) as [->|Hnb].
  { apply list_lookup_insert_eq. rewrite length_insert, length_replicate. done. }
  rewrite list_lookup_insert_ne by done. destruct (decide (i = a)) as [->|Hna].
  { apply list_lookup_insert_eq. by rewrite length_replicate. }
  rewrite list_lookup_insert_ne by done. by apply lookup_replicate_2.
Qed.
Lemma live_count_ge2 ts i j ci cj : i ≠ j → ts !! i = Some ci → ts !! j = Some cj →
  ci ≠ TNil → cj ≠ TNil → (2 ≤ live_count ts)%nat.
Proof.
  intros Hij Hi Hj Hci Hcj.
  assert (Hlt : ∀ i j ci cj, (i < j)%nat → ts !! i = Some ci → ts !! j = Some cj → ci ≠ TNil → cj ≠ TNil → (2 ≤ live_count ts)%nat).
  { clear. intros i j ci cj Hij Hi Hj Hci Hcj.
    rewrite <- (take_drop_middle ts i ci Hi). unfold live_count.
    rewrite filter_app, filter_cons_True by (by destruct ci).
    rewrite length_app. cbn [length].
    assert (Hin : cj ∈ filter (λ t, t_is_nil t = false) (drop (S i) ts)).
    { apply list_elem_of_filter. split; [by destruct cj|]. apply list_elem_of_lookup. exists (j - S i)%nat.
      rewrite lookup_drop. by replace (S i + (j - S i))%nat with j by lia. }
    destruct (filter _ (drop (S i) ts)); [by apply not_elem_of_nil in Hin|]. cbn. lia. }
  destruct (decide (i < j)%nat); [by eapply Hlt|]. eapply (Hlt j i); eauto. lia.
Qed.

(** The two subtries of a branch. *)
Lemma wf_branch a ta b tb : 0 ≤ a < 17 → 0 ≤ b < 17 → a ≠ b → ta ≠ TNil → tb ≠ TNil →
  wf (bool_decide (Z.to_nat a = 16%nat)) ta → wf (bool_decide (Z.to_nat b = 16%nat)) tb → wf false (branch a ta b tb).
Proof.
  intros Ha Hb Hab Hta Htb Wa Wb. constructor.
  - by rewrite !length_insert, length_replicate.
  - intros i c Hi. assert (Hlt : (i < 17)%nat).
    { apply lookup_lt_Some in Hi. by rewrite !length_insert, length_replicate in Hi. }
    rewrite lookup_branch in Hi by lia. injection Hi as <-.
    destruct (decide _) as [->|]; [done|]. destruct (decide _) as [->|]; [done|]. constructor.
  - eapply (live_count_ge2 _ (Z.to_nat a) (Z.to_nat b)); [lia| | |exact Hta|exact Htb].
    + rewrite lookup_branch by lia. rewrite decide_False by lia. by rewrite decide_True.
    + rewrite lookup_branch by lia. by rewrite decide_True.
Qed.
Lemma tget_branch a ta b tb x r : 0 ≤ a < 17 → 0 ≤ b < 17 → 0 ≤ x < 17 →
  tget (branch a ta b tb) (x :: r) = if decide (x = b) then tget tb r else if decide (x = a) then tget ta r else None.
Proof.
  intros Ha Hb Hx. unfold branch. rewrite tget_full, lookup_branch by lia.
  destruct (decide (Z.to_nat x = Z.to_nat b)), (decide (x = b)); try lia; try done.
  destruct (decide (Z.to_nat x = Z.to_nat a)), (decide (x = a)); try lia; done.
Qed.

(** A node below the rest of its key, at the position the key starts with. *)
Lemma wf_leaf_value x r v : hex_key (x :: r) → v ≠ [] →
  wf (bool_decide (Z.to_nat x = 16%nat)) (leaf r (TValue v)) ∧ leaf r (TValue v) ≠ TNil.
Proof.
  intros H Hv. apply hex_key_head in H as [H _]. destruct (bool_decide _); cbn in H.
  - subst r. split; [by constructor|done].
  - destruct r; [by apply hex_key_nonempty in H|]. split; [by constructor|done].
Qed.
Lemma wf_leaf_full x r ts : nibbles (x :: r) → wf false (TFull ts) →
  wf (bool_decide (Z.to_nat x = 16%nat)) (leaf r (TFull ts)) ∧ leaf r (TFull ts) ≠ TNil.
Proof.
  intros H W. apply Forall_cons in H as [Hx Hr]. unfold is_nibble in Hx.
  rewrite bool_decide_eq_false_2 by lia. destruct r; [done|]. split; [by constructor|done].
Qed.
Lemma wf_ext_leaf p ts : nibbles p → wf false (TFull ts) → wf false (leaf p (TFull ts)).
Proof. intros Hp W. destruct p; [done|by constructor]. Qed.

(** The spec of an insertion at a position: well-formed, present, and the
    update of the map of keys. *)
Definition inserted (b : bool) (t : tree) (key v : bytes) (t' : tree) : Prop :=
  wf b t' ∧ t' ≠ TNil ∧ ∀ k', key_at b k' → tget t' k' = if decide (k' = key) then Some v else tget t k'.

Lemma inserted_branch p x r y s c key v :
  wf false (TShort (p ++ y :: s) c) → hex_key (p ++ x :: r) → x ≠ y → v ≠ [] → key = p ++ x :: r →
  inserted false (TShort (p ++ y :: s) c) key v (leaf p (branch y (leaf s c) x (leaf r (TValue v)))).
Proof.
  intros W Hk Hxy Hv ->.
  assert (Hp : nibbles p ∧ 0 ≤ y < 17 ∧ (wf (bool_decide (Z.to_nat y = 16%nat)) (leaf s c) ∧ leaf s c ≠ TNil)).
  { apply wf_short_inv in W as [_ [(w & -> & Hyk & Hw)|(ts & -> & Hne & Hnib & Wts)]].
    - assert (Hp : nibbles p).
      { destruct Hyk as (q & E & Hq). destruct (decide (length p ≤ length q)%nat) as [Hle|Hgt].
        - apply (f_equal (take (length p))) in E. rewrite take_app_length, take_app_le in E by done.
          rewrite E. by apply Forall_take.
        - apply (f_equal length) in E. rewrite !length_app in E. cbn in E. lia. }
      assert (Hys : hex_key (y :: s)) by (by apply (hex_key_app p)).
      split; [done|]. split; [by apply hex_key_head in Hys as [_ ?]|]. by apply wf_leaf_value.
    - apply Forall_app in Hnib as [Hp Hys]. split; [done|]. split; [|by apply wf_leaf_full].
      apply Forall_cons in Hys as [Hy _]. unfold is_nibble in Hy. lia. }
  destruct Hp as (Hp & Hy & Ws & Hns).
  assert (Hxr : hex_key (x :: r)) by (by apply (hex_key_app p)).
  pose proof (proj2 (hex_key_head _ _ Hxr)) as Hx. destruct (wf_leaf_value x r v Hxr Hv) as [Wr Hnr].
  assert (WB : wf false (branch y (leaf s c) x (leaf r (TValue v)))) by (by apply wf_branch).
  split; [by apply wf_ext_leaf|]. split; [by destruct p|]. intros k' Hk'. cbn in Hk'.
  destruct (decide (p = take (length p) k')) as [E|E].
  - apply take_prefix_iff in E as [k2 ->]. rewrite tget_leaf. apply hex_key_app in Hk'; [|done].
    destruct k2 as [|z w]; [by apply hex_key_nonempty in Hk'|].
    pose proof (proj2 (hex_key_head _ _ Hk')) as Hz. rewrite tget_branch by done.
    destruct (decide (z = x)) as [->|Hzx].
    + rewrite tget_leaf_value. rewrite (tget_short_none (p ++ y :: s)).
      * destruct (decide (w = r)) as [->|Hwr]; [by rewrite decide_True|].
        rewrite decide_False; [done|]. intros E. apply app_inv_head in E. by injection E.
      * intros u Hu. rewrite <- app_assoc in Hu. apply app_inv_head in Hu. by injection Hu.
    + destruct (decide (p ++ z :: w = p ++ x :: r)) as [E|_]; [apply app_inv_head in E; by injection E|].
      destruct (decide (z = y)) as [->|Hzy].
      * destruct (decide (s = take (length s) w)) as [E|E].
        -- apply take_prefix_iff in E as [u ->]. rewrite tget_leaf.
           replace (p ++ y :: s ++ u) with ((p ++ y :: s) ++ u) by (by rewrite <- app_assoc). by rewrite tget_short_app.
        -- rewrite tget_leaf_none, tget_short_none; [done| |].
           ++ intros u Hu. rewrite <- app_assoc in Hu. apply app_inv_head in Hu. injection Hu as ->. apply E. by rewrite take_app_length.
           ++ intros u ->. apply E. by rewrite take_app_length.
      * rewrite tget_short_none; [done|]. intros u Hu. rewrite <- app_assoc in Hu. apply app_inv_head in Hu. by injection Hu.
  - rewrite tget_leaf_none by (intros u ->; apply E; by rewrite take_app_length).
    rewrite decide_False by (intros ->; apply E; by rewrite take_app_length).
    rewrite tget_short_none; [done|]. intros u ->. apply E. rewrite <- app_assoc. by rewrite take_app_length.
Qed.

Lemma live_count_cons t ts : live_count (t :: ts) = ((if t_is_nil t then 0 else 1) + live_count ts)%nat.
Proof.
  unfold live_count. destruct (t_is_nil t) eqn:E.
  - by rewrite filter_cons_False by (by rewrite E).
  - by rewrite filter_cons_True.
Qed.
Lemma live_count_alter f i ts : (∀ c, ts !! i = Some c → f c ≠ TNil) → (live_count ts ≤ live_count (alter f i ts))%nat.
Proof.
  revert i. induction ts as [|t ts IH]; intros i H; [done|]. destruct i as [|i].
  - change (alter f 0%nat (t :: ts)) with (f t :: ts). rewrite !live_count_cons. specialize (H t eq_refl). assert (t_is_nil (f t) = false) as -> by (by destruct (f t)).
    destruct (t_is_nil t); lia.
  - change (alter f (S i) (t :: ts)) with (t :: alter f i ts). rewrite !live_count_cons. specialize (IH i H). lia.
Qed.
Lemma live_count_alter_1 f i ts : (live_count ts ≤ S (live_count (alter f i ts)))%nat.
Proof.
  revert i. induction ts as [|t ts IH]; intros i; [cbn; lia|]. destruct i as [|i].
  - change (alter f 0%nat (t :: ts)) with (f t :: ts). rewrite !live_count_cons. destruct (t_is_nil t), (t_is_nil (f t)); lia.
  - change (alter f (S i) (t :: ts)) with (t :: alter f i ts). rewrite !live_count_cons. specialize (IH i). lia.
Qed.
Lemma lookup_alter_full (ts : list tree) f (i j : nat) :
  alter f i ts !! j = if decide (j = i) then f <$> ts !! j else ts !! j.
Proof.
  destruct (decide (j = i)) as [->|Hne]; [apply list_lookup_alter_eq|by apply list_lookup_alter_ne].
Qed.

Lemma inserted_short k c r v c' : wf false (TShort k c) → hex_key (k ++ r) →
  (∀ b, wf b c → key_at b r → inserted b c r v c') → (∀ ts, c = TFull ts → ∃ ts', c' = TFull ts') →
  inserted false (TShort k c) (k ++ r) v (TShort k c').
Proof.
  intros W Hk HI Hfull. destruct (wf_short_inv _ _ _ W) as [_ Hc].
  assert (H : ∃ b, wf b c ∧ key_at b r ∧ (∀ u, hex_key (k ++ u) → key_at b u) ∧
                   (wf b c' → c' ≠ TNil → wf false (TShort k c'))).
  { destruct Hc as [(w & -> & Hkk & Hw)|(ts & -> & Hne & Hnib & Wts)].
    - exists true. pose proof (hex_key_prefix_free _ _ Hkk Hk) as ->. split_and!; [by constructor|done| |].
      + intros u Hu. exact (hex_key_prefix_free _ _ Hkk Hu).
      + intros [->|(w' & -> & Hw')]%wf_closed_inv Hn; [done|by constructor].
    - exists false. split_and!; [done|exact (proj1 (hex_key_app k r Hnib) Hk)| |].
      + intros u Hu. exact (proj1 (hex_key_app k u Hnib) Hu).
      + intros Wc' _. destruct (Hfull ts eq_refl) as [ts' ->]. by constructor. }
  destruct H as (b & Wc & Hr & Hu & Hwf). destruct (HI b Wc Hr) as (W' & Hn & Hget).
  split; [by apply Hwf|]. split; [done|]. intros k' Hk'. cbn in Hk'.
  destruct (decide (k = take (length k) k')) as [E|E].
  - apply take_prefix_iff in E as [u ->]. rewrite !tget_short_app, Hget by auto.
    destruct (decide (u = r)) as [->|Hne]; [by rewrite decide_True|].
    rewrite decide_False; [done|]. intros E. by apply app_inv_head in E.
  - rewrite !tget_short_none by (intros u ->; apply E; by rewrite take_app_length).
    rewrite decide_False; [done|]. intros ->. apply E. by rewrite take_app_length.
Qed.
Lemma inserted_full ts x r v : wf false (TFull ts) → hex_key (x :: r) →
  (∀ c b, ts !! Z.to_nat x = Some c → wf b c → key_at b r → inserted b c r v (tinsert c r (TValue v))) →
  inserted false (TFull ts) (x :: r) v (TFull (alter (λ c, tinsert c r (TValue v)) (Z.to_nat x) ts)).
Proof.
  intros W Hk HI. destruct (wf_full_inv _ _ W) as (_ & Hlen & Hch & Hlive).
  destruct (hex_key_head _ _ Hk) as [Hr Hx].
  assert (HI' : ∀ c, ts !! Z.to_nat x = Some c →
    inserted (bool_decide (Z.to_nat x = 16%nat)) c r v (tinsert c r (TValue v))) by eauto.
  split; [|split; [done|]].
  - constructor; [by rewrite length_alter| |].
    + intros i c. rewrite lookup_alter_full. destruct (decide _) as [->|]; [|by apply Hch].
      destruct (ts !! Z.to_nat x) as [c0|] eqn:E; [|done]. intros [= <-]. by apply HI'.
    + etrans; [exact Hlive|]. apply live_count_alter. intros c Hc. by apply HI'.
  - intros [|y u] Hk'; [by apply hex_key_nonempty in Hk'|]. cbn in Hk'.
    destruct (hex_key_head _ _ Hk') as [Hu Hy]. rewrite !tget_full, lookup_alter_full.
    destruct (decide (Z.to_nat y = Z.to_nat x)) as [E|E].
    + assert (y = x) as -> by lia. destruct (ts !! Z.to_nat x) as [c|] eqn:Ec.
      2: { apply lookup_ge_None in Ec. lia. }
      cbn [fmap option_fmap option_map]. destruct (HI' c eq_refl) as (_ & _ & Hget). rewrite Hget by done.
      destruct (decide (u = r)) as [->|Hne]; [by rewrite decide_True|]. rewrite decide_False; [done|congruence].
    + rewrite decide_False; [done|]. intros [= -> _]. done.
Qed.

Lemma tinsert_spec t : ∀ b key v, wf b t → key_at b key → v ≠ [] →
  inserted b t key v (tinsert t key (TValue v)).
Proof.
  induction t as [|k c IH|ts IH|w] using tree_ind'; intros b key v W Hk Hv.
  - destruct b; cbn in Hk; [subst key|].
    + split; [by constructor|]. split; [done|]. intros k' ->. done.
    + destruct key as [|x r] eqn:E; [by apply hex_key_nonempty in Hk|]. rewrite <- E in *.
      replace (tinsert TNil key (TValue v)) with (leaf key (TValue v)) by (by subst).
      split; [subst; by constructor|]. split; [by subst|]. intros k' _. by rewrite tget_leaf_value.
  - destruct (wf_short_inv _ _ _ W) as [-> Hc]. cbn in Hk.
    destruct key as [|x0 r0] eqn:Ekey; [by apply hex_key_nonempty in Hk|]. rewrite <- Ekey in *.
    assert (E : tinsert (TShort k c) key (TValue v) =
      let m := prefixLen key k in
      if (m =? length k)%nat then TShort k (tinsert c (drop m key) (TValue v))
      else match k !! m, key !! m with
           | Some a, Some b => leaf (take m key) (branch a (leaf (drop (S m) k) c) b (leaf (drop (S m) key) (TValue v)))
           | _, _ => TShort k c
           end) by (by subst key).
    rewrite E. clear E. cbv zeta. clear Ekey.
    destruct (prefix_split key k) as [[Em [r ->]]|[[Em (y & s & ->)]|(p & x & r & y & s & -> & -> & Hne & Em)]].
    + rewrite Em, Nat.eqb_refl, drop_app_length. apply inserted_short; [done|done| |].
      * intros b' Wc Hr. by apply IH.
      * intros ts ->. destruct r; [|by eexists]. exfalso.
        destruct Hc as [(w & ? & _)|(ts' & _ & _ & Hn & _)]; [done|].
        rewrite app_nil_r in Hk. apply (hex_key_not_nibbles k []); [done|by rewrite app_nil_r].
    + exfalso. destruct Hc as [(w & _ & Hkk & _)|(ts & _ & _ & Hn & _)].
      * by apply hex_key_prefix_free in Hkk.
      * by eapply hex_key_not_nibbles.
    + rewrite Em. rewrite (proj2 (Nat.eqb_neq _ _)) by (rewrite length_app; cbn; lia).
      rewrite !lookup_app_r, !Nat.sub_diag by lia. cbn [lookup list_lookup].
      rewrite take_app_length, !drop_past.
      by apply inserted_branch.
  - destruct (wf_full_inv _ _ W) as (-> & _). cbn in Hk.
    destruct key as [|x r]; [by apply hex_key_nonempty in Hk|]. cbn [tinsert].
    apply inserted_full; [done|done|]. intros c b' Hc Wc Hr.
    rewrite Forall_forall in IH. apply IH; [by eapply list_elem_of_lookup_2|done..].
  - inversion W; subst. cbn in Hk. subst key. split; [by constructor|]. split; [done|]. by intros k' ->.
Qed.

(** ** Deletion *)

Definition deleted (b : bool) (t : tree) (key : bytes) (t' : tree) : Prop :=
  wf b t' ∧ ∀ k', key_at b k' → tget t' k' = if decide (k' = key) then None else tget t k'.

Lemma wf_merge k c : k ≠ [] → nibbles k → wf false c → c ≠ TNil → wf false (merge k c).
Proof.
  intros Hk Hn W Hc. destruct c as [|ck cc|ts|v]; [done| |by constructor|by inversion W].
  destruct (wf_short_inv _ _ _ W) as [_ [(v & -> & Hkk & Hv)|(ts & -> & Hne & Hnib & Wts)]]; cbn [merge].
  - constructor; [|done]. by apply hex_key_app.
  - constructor; [by destruct k|by apply Forall_app|done].
Qed.
Lemma merge_not_nil k c : merge k c ≠ TNil.
Proof. by destruct c. Qed.

Lemma elem_of_tlive pos i ts : pos ∈ tlive i ts ↔ i ≤ pos ∧ ∃ c, ts !! Z.to_nat (pos - i) = Some c ∧ c ≠ TNil.
Proof.
  revert i. induction ts as [|t ts IH]; intros i; cbn [tlive].
  { split; [by intros ?%not_elem_of_nil|by intros (_ & c & Hc & _)]. }
  assert (Hsplit : i ≤ pos ∧ (∃ c, (t :: ts) !! Z.to_nat (pos - i) = Some c ∧ c ≠ TNil) ↔
    (pos = i ∧ t ≠ TNil) ∨ (i + 1 ≤ pos ∧ ∃ c, ts !! Z.to_nat (pos - (i + 1)) = Some c ∧ c ≠ TNil)).
  { destruct (decide (pos = i)) as [->|Hne].
    - rewrite Z.sub_diag. cbn. split; [intros (_ & c & [= <-] & Hc); by left|].
      intros [[_ Hc]|[? _]]; [|lia]. split; [lia|by exists t].
    - split.
      + intros [Hle H]. right. split; [lia|]. replace (Z.to_nat (pos - i)) with (S (Z.to_nat (pos - (i + 1)))) in H by lia. done.
      + intros [[? _]|[Hle H]]; [done|]. split; [lia|].
        replace (Z.to_nat (pos - i)) with (S (Z.to_nat (pos - (i + 1)))) by lia. done. }
  rewrite Hsplit. destruct t; cbn [t_is_nil]; rewrite ?elem_of_cons, IH; naive_solver.
Qed.
Lemma length_tlive i ts : length (tlive i ts) = live_count ts.
Proof.
  revert i. induction ts as [|t ts IH]; intros i; [done|]. cbn [tlive]. rewrite live_count_cons.
  destruct (t_is_nil t); cbn [length]; by rewrite IH.
Qed.

Lemma collapse_spec ts : length ts = 17%nat → (∀ i c, ts !! i = Some c → wf (bool_decide (i = 16%nat)) c) →
  (1 ≤ live_count ts)%nat →
  wf false (collapse ts) ∧ collapse ts ≠ TNil ∧ ∀ k, hex_key k → tget (collapse ts) k = tget (TFull ts) k.
Proof.
  intros Hlen Hch Hlive. unfold collapse. pose proof (length_tlive 0 ts) as Hl.
  destruct (tlive 0 ts) as [|pos [|pos2 l]] eqn:E; cbn in Hl; [lia| |].
  2: { split; [|done]. constructor; [done|done|lia]. }
  assert (Hpos : ∀ p, p = pos ↔ 0 ≤ p ∧ ∃ c, ts !! Z.to_nat p = Some c ∧ c ≠ TNil).
  { intros p. rewrite <- (list_elem_of_singleton p pos), <- E, elem_of_tlive, Z.sub_0_r. done. }
  destruct (proj1 (Hpos pos) eq_refl) as (Hp0 & c & Hc & Hcn). rewrite Hc.
  assert (Hlt : pos < 17) by (apply lookup_lt_Some in Hc; lia).
  assert (W : wf false (merge [pos] c)).
  { pose proof (Hch _ _ Hc) as Wc. destruct (bool_decide_reflect (Z.to_nat pos = 16%nat)) as [Hp|Hp].
    - apply wf_closed_inv in Wc as [->|(v & -> & Hv)]; [done|]. cbn [merge]. constructor; [|done].
      exists []. split; [cbn; f_equal; lia|constructor].
    - apply wf_merge; [done| |done|done]. constructor; [unfold is_nibble; lia|constructor]. }
  split; [done|]. split; [apply merge_not_nil|]. intros k Hk. rewrite tget_merge.
  destruct k as [|x r]; [by apply hex_key_nonempty in Hk|]. destruct (hex_key_head _ _ Hk) as [_ Hx].
  rewrite tget_full. destruct (decide (x = pos)) as [->|Hne].
  - rewrite Hc. exact (tget_short_app [pos] c r).
  - rewrite tget_short_none by (intros u [= -> ->]; done).
    destruct (ts !! Z.to_nat x) as [cx|] eqn:Ex; [|done]. destruct cx; [done|..]; destruct Hne; apply Hpos; eauto with lia.
Qed.

Lemma deleted_full ts x r : wf false (TFull ts) → hex_key (x :: r) →
  (∀ c b, ts !! Z.to_nat x = Some c → wf b c → key_at b r → deleted b c r (tdelete c r)) →
  deleted false (TFull ts) (x :: r) (tdelete (TFull ts) (x :: r)) ∧ tdelete (TFull ts) (x :: r) ≠ TNil.
Proof.
  intros W Hk HI. destruct (wf_full_inv _ _ W) as (_ & Hlen & Hch & Hlive).
  destruct (hex_key_head _ _ Hk) as [Hr Hx]. cbn [tdelete].
  assert (HI' : ∀ c, ts !! Z.to_nat x = Some c → deleted (bool_decide (Z.to_nat x = 16%nat)) c r (tdelete c r)) by eauto.
  destruct (collapse_spec (alter (λ c, tdelete c r) (Z.to_nat x) ts)) as (W' & Hn & Hget).
  - by rewrite length_alter.
  - intros i c. rewrite lookup_alter_full. destruct (decide _) as [->|]; [|by apply Hch].
    destruct (ts !! Z.to_nat x) as [c0|] eqn:E; [|done]. intros [= <-]. by apply HI'.
  - pose proof (live_count_alter_1 (λ c, tdelete c r) (Z.to_nat x) ts). lia.
  - split; [|done]. split; [done|]. intros k' Hk'. cbn in Hk'. rewrite Hget by done.
    destruct k' as [|y u]; [by apply hex_key_nonempty in Hk'|].
    destruct (hex_key_head _ _ Hk') as [Hu Hy]. rewrite !tget_full, lookup_alter_full.
    destruct (decide (Z.to_nat y = Z.to_nat x)) as [E|E].
    + assert (y = x) as -> by lia. destruct (ts !! Z.to_nat x) as [c|] eqn:Ec.
      2: { apply lookup_ge_None in Ec. lia. }
      cbn [fmap option_fmap option_map]. destruct (HI' c eq_refl) as (_ & Hg). rewrite Hg by done.
      destruct (decide (u = r)) as [->|Hne]; [by rewrite decide_True|]. rewrite decide_False; [done|congruence].
    + rewrite decide_False; [done|]. intros [= -> _]. done.
Qed.

Lemma tdelete_full_not_nil ts key : tdelete (TFull ts) key ≠ TNil.
Proof.
  destruct key; [done|]. cbn [tdelete]. unfold collapse. destruct (tlive _ _) as [|? [|]]; [done| |done].
  destruct (_ !! Z.to_nat _); [apply merge_not_nil|done].
Qed.

Lemma tdelete_spec t : ∀ b key, wf b t → key_at b key → deleted b t key (tdelete t key).
Proof.
  induction t as [|k c IH|ts IH|w] using tree_ind'; intros b key W Hk.
  - split; [constructor|]. intros k' _. by destruct (decide _).
  - destruct (wf_short_inv _ _ _ W) as [-> Hc]. cbn in Hk. cbn [tdelete].
    destruct (prefix_split key k) as [[Em [r ->]]|[[Em (y & s & ->)]|(p & x & r & y & s & -> & -> & Hne & Em)]].
    + rewrite Em, Nat.ltb_irrefl, drop_app_length, length_app.
      destruct r as [|x r].
      * rewrite app_nil_r in *. cbn [length]. rewrite Nat.add_0_r, Nat.eqb_refl. split; [constructor|].
        intros k' Hk'. destruct (decide (k' = k)) as [|Hne]; [done|]. rewrite tget_short_none; [done|].
        intros u ->. cbn in Hk'. apply hex_key_prefix_free in Hk'; [|done]. subst u. by rewrite app_nil_r in Hne.
      * rewrite (proj2 (Nat.eqb_neq _ _)) by (cbn; lia).
        destruct Hc as [(w & -> & Hkk & _)|(ts & -> & Hkn & Hnib & Wts)].
        { by apply hex_key_prefix_free in Hk. }
        pose proof (proj1 (hex_key_app _ _ Hnib) Hk) as Hxr.
        destruct (IH false (x :: r) Wts Hxr) as (W' & Hget).
        pose proof (tdelete_full_not_nil ts (x :: r)) as Hn.
        split; [by apply wf_merge|]. intros k' Hk'. cbn in Hk'. rewrite tget_merge.
        destruct (decide (k = take (length k) k')) as [E|E].
        -- apply take_prefix_iff in E as [u ->]. rewrite !tget_short_app, Hget by (by apply (hex_key_app k)).
           destruct (decide (u = x :: r)) as [->|Hne]; [by rewrite decide_True|].
           rewrite decide_False; [done|]. intros E. by apply app_inv_head in E.
        -- rewrite !tget_short_none by (intros u ->; apply E; by rewrite take_app_length).
           by destruct (decide _).
    + exfalso. destruct Hc as [(w & _ & Hkk & _)|(ts & _ & _ & Hn & _)].
      * by apply hex_key_prefix_free in Hkk.
      * by eapply hex_key_not_nibbles.
    + rewrite Em. rewrite (proj2 (Nat.ltb_lt _ _)) by (rewrite length_app; cbn; lia).
      split; [done|]. intros k' _. destruct (decide (k' = _)) as [->|]; [|done].
      apply tget_short_none. intros u Hu. rewrite <- app_assoc in Hu. apply app_inv_head in Hu. by injection Hu.
  - destruct (wf_full_inv _ _ W) as (-> & _). cbn in Hk.
    destruct key as [|x r]; [by apply hex_key_nonempty in Hk|].
    apply deleted_full; [done|done|]. intros c b' Hc Wc Hr.
    rewrite Forall_forall in IH. apply IH; [by eapply list_elem_of_lookup_2|done..].
  - inversion W; subst. cbn in Hk. subst key. split; [constructor|]. by intros k' ->.
Qed.

(** ** Two well-formed trees with the same content are equal *)

Lemma live_lookup ts : (1 ≤ live_count ts)%nat → ∃ i c, ts !! i = Some c ∧ c ≠ TNil.
Proof.
  induction ts as [|t ts IH]; [cbn; lia|]. rewrite live_count_cons. destruct t; cbn [t_is_nil]; intros H;
    try by eexists 0%nat, _. destruct IH as (i & c & Hc); [lia|]. by exists (S i), c.
Qed.
Lemma live_lookup_2 ts : (2 ≤ live_count ts)%nat → ∃ i j ci cj, i ≠ j ∧
  ts !! i = Some ci ∧ ci ≠ TNil ∧ ts !! j = Some cj ∧ cj ≠ TNil.
Proof.
  induction ts as [|t ts IH]; [cbn; lia|]. rewrite live_count_cons. destruct t eqn:Et; cbn [t_is_nil]; intros H.
  { destruct IH as (i & j & ci & cj & Hij & Hrest); [lia|]. exists (S i), (S j), ci, cj. split; [lia|done]. }
  all: destruct (live_lookup ts) as (i & c & Hc & Hn); [lia|]; exists 0%nat, (S i), t, c; subst t;
    split; [done|]; split; [done|]; split; done.
Qed.

Lemma wf_has_key b t : wf b t → t ≠ TNil → ∃ k v, key_at b k ∧ tget t k = Some v.
Proof.
  revert b. induction t as [|k c IH|ts IH|v] using tree_ind'; intros b W Hn; [done| | |].
  - destruct (wf_short_inv _ _ _ W) as [-> [(v & -> & Hk & Hv)|(ts & -> & Hk & Hnib & Wts)]].
    + exists k, v. split; [done|]. rewrite <- (app_nil_r k) at 2. by rewrite tget_short_app.
    + destruct (IH false Wts) as (r & v & Hr & Hv); [done|]. exists (k ++ r), v.
      split; [by apply hex_key_app|by rewrite tget_short_app].
  - destruct (wf_full_inv _ _ W) as (-> & Hlen & Hch & Hlive).
    destruct (live_lookup ts) as (i & c & Hc & Hcn); [lia|]. rewrite Forall_forall in IH.
    destruct (IH c (list_elem_of_lookup_2 _ _ _ Hc) _ (Hch _ _ Hc) Hcn) as (r & v & Hr & Hv).
    assert (i < 17)%nat by (apply lookup_lt_Some in Hc; lia).
    exists (Z.of_nat i :: r), v. split; [apply key_head_intro; [lia|by rewrite Nat2Z.id]|].
    by rewrite tget_full, Nat2Z.id, Hc.
  - inversion W; subst. by exists [], v.
Qed.
(** A full node holds keys with two different heads. *)
Lemma wf_full_two_keys ts : wf false (TFull ts) → ∃ x r v y s w,
  x ≠ y ∧ hex_key (x :: r) ∧ hex_key (y :: s) ∧ tget (TFull ts) (x :: r) = Some v ∧ tget (TFull ts) (y :: s) = Some w.
Proof.
  intros W. destruct (wf_full_inv _ _ W) as (_ & Hlen & Hch & Hlive).
  destruct (live_lookup_2 ts Hlive) as (i & j & ci & cj & Hij & Hi & Hin & Hj & Hjn).
  destruct (wf_has_key _ _ (Hch _ _ Hi) Hin) as (r & v & Hr & Hv).
  destruct (wf_has_key _ _ (Hch _ _ Hj) Hjn) as (s & w & Hs & Hw).
  assert (i < 17)%nat by (apply lookup_lt_Some in Hi; lia). assert (j < 17)%nat by (apply lookup_lt_Some in Hj; lia).
  exists (Z.of_nat i), r, v, (Z.of_nat j), s, w. rewrite !tget_full, !Nat2Z.id, Hi, Hj.
  split; [lia|]. split; [apply key_head_intro; [lia|by rewrite Nat2Z.id]|].
  split; [apply key_head_intro; [lia|by rewrite Nat2Z.id]|]. done.
Qed.

Definition same (b : bool) (t1 t2 : tree) : Prop := ∀ k, key_at b k → tget t1 k = tget t2 k.
Lemma same_sym b t1 t2 : same b t1 t2 → same b t2 t1.
Proof. intros H k Hk. symmetry. by apply H. Qed.
(** The keys of a full node do not all start alike. *)
Lemma full_not_short ts k c : wf false (TFull ts) → k ≠ [] → same false (TFull ts) (TShort k c) → False.
Proof.
  intros W Hk H. destruct (wf_full_two_keys ts W) as (x & r & v & y & s & w & Hxy & Hx & Hy & Hv & Hw).
  rewrite H in Hv by done. rewrite H in Hw by done.
  apply tget_short_some in Hv as (u & E1 & _). apply tget_short_some in Hw as (u' & E2 & _).
  destruct k as [|z k]; [done|]. injection E1 as -> _. injection E2 as -> _. done.
Qed.
Lemma short_same_key k1 c1 d c2 : wf false (TShort k1 c1) → wf false (TShort (k1 ++ d) c2) →
  same false (TShort k1 c1) (TShort (k1 ++ d) c2) → d = [].
Proof.
  intros W1 W2 H. destruct d as [|z d]; [done|exfalso].
  destruct (wf_short_inv _ _ _ W1) as [_ [(v & -> & Hk1 & _)|(ts & -> & Hk & Hnib & Wts)]].
  - destruct (wf_short_inv _ _ _ W2) as [_ [(w & _ & Hk2 & _)|(ts & _ & _ & Hnib & _)]].
    + by apply hex_key_prefix_free in Hk2.
    + by eapply hex_key_not_nibbles.
  - apply (full_not_short ts (z :: d) c2 Wts); [done|]. intros k Hk'. cbn in Hk'.
    assert (Hkk : hex_key (k1 ++ k)) by (by apply hex_key_app).
    pose proof (H (k1 ++ k) Hkk) as E. rewrite tget_short_app in E. rewrite E.
    destruct (decide (z :: d = take (length (z :: d)) k)) as [Ep|Ep].
    + apply take_prefix_iff in Ep as [u ->]. rewrite tget_short_app, app_assoc. apply tget_short_app.
    + rewrite !tget_short_none; [done| |].
      * intros u ->. apply Ep. by rewrite take_app_length.
      * intros u Hu. rewrite <- app_assoc in Hu. apply app_inv_head in Hu. subst k. apply Ep. by rewrite take_app_length.
Qed.

Lemma tree_unique t1 : ∀ b t2, wf b t1 → wf b t2 → same b t1 t2 → t1 = t2.
Proof.
  assert (Hempty : ∀ b t, wf b t → same b TNil t → t = TNil).
  { intros b t W H. destruct (t_is_nil t) eqn:E; [by destruct t|].
    destruct (wf_has_key b t W) as (k & v & Hk & Hv); [by destruct t|]. by rewrite <- H in Hv. }
  induction t1 as [|k1 c1 IH|ts1 IH|v1] using tree_ind'; intros b t2 W1 W2 H.
  - symmetry. by apply (Hempty b).
  - destruct t2 as [|k2 c2|ts2|v2].
    + apply (Hempty b); [done|by apply same_sym].
    + destruct (wf_short_inv _ _ _ W1) as [-> Hc1]. destruct (wf_short_inv _ _ _ W2) as [_ Hc2].
      assert (Ek : k1 = k2).
      { destruct (wf_has_key false _ W1) as (k & v & Hk & Hv); [done|]. pose proof Hv as Hv2. rewrite H in Hv2 by done.
        apply tget_short_some in Hv as (r1 & E1 & _). apply tget_short_some in Hv2 as (r2 & E2 & _).
        rewrite E1 in E2. apply app_eq_app in E2 as (d & [[-> _]|[-> _]]).
        - pose proof (short_same_key _ _ _ _ W2 W1 (same_sym _ _ _ H)) as ->. by rewrite app_nil_r.
        - pose proof (short_same_key _ _ _ _ W1 W2 H) as ->. by rewrite app_nil_r. }
      subst k2. f_equal. 
      destruct Hc1 as [(v1 & -> & Hk1 & Hv1)|(ts1 & -> & _ & Hn1 & Wt1)], Hc2 as [(v2 & -> & Hk2 & Hv2)|(ts2 & -> & _ & Hn2 & Wt2)].
      * pose proof (H k1 Hk1) as E. rewrite <- (app_nil_r k1) in E at 2 4. rewrite !tget_short_app in E. cbn in E. congruence.
      * exfalso. apply (hex_key_not_nibbles k1 [] Hk1). by rewrite app_nil_r.
      * exfalso. apply (hex_key_not_nibbles k1 [] Hk2). by rewrite app_nil_r.
      * apply (IH false); [done|done|]. intros k Hk.
        assert (Hkk : hex_key (k1 ++ k)) by (by apply hex_key_app). pose proof (H _ Hkk) as E. by rewrite !tget_short_app in E.
    + exfalso. destruct (wf_full_inv _ _ W2) as (-> & _). destruct (wf_short_inv _ _ _ W1) as [_ Hc].
      apply (full_not_short ts2 k1 c1 W2); [|by apply same_sym].
      destruct Hc as [(v & _ & Hk & _)|(ts & _ & Hk & _)]; [by apply hex_key_nonempty|done].
    + inversion W2; subst. inversion W1.
  - destruct (wf_full_inv _ _ W1) as (-> & Hlen1 & Hch1 & Hl1). destruct t2 as [|k2 c2|ts2|v2].
    + apply (Hempty false); [done|by apply same_sym].
    + exfalso. destruct (wf_short_inv _ _ _ W2) as [_ Hc]. apply (full_not_short ts1 k2 c2 W1); [|done].
      destruct Hc as [(v & _ & Hk & _)|(ts & _ & Hk & _)]; [by apply hex_key_nonempty|done].
    + destruct (wf_full_inv _ _ W2) as (_ & Hlen2 & Hch2 & Hl2). f_equal. apply list_eq. intros i.
      destruct (decide (i < 17)%nat) as [Hi|Hi]; [|by rewrite !lookup_ge_None_2 by lia].
      destruct (lookup_lt_is_Some_2 ts1 i) as [a Ha]; [lia|]. destruct (lookup_lt_is_Some_2 ts2 i) as [c Hc]; [lia|].
      rewrite Ha, Hc. f_equal. rewrite Forall_forall in IH.
      apply (IH a (list_elem_of_lookup_2 _ _ _ Ha) (bool_decide (i = 16%nat))); [by apply Hch1|by apply Hch2|].
      intros k Hk. assert (Hkk : hex_key (Z.of_nat i :: k)) by (apply key_head_intro; [lia|by rewrite Nat2Z.id]).
      pose proof (H _ Hkk) as E. by rewrite !tget_full, Nat2Z.id, Ha, Hc in E.
    + inversion W2.
  - inversion W1; subst. apply wf_closed_inv in W2 as [->|(v2 & -> & Hv2)].
    + by specialize (H [] eq_refl).
    + specialize (H [] eq_refl). cbn in H. congruence.
Qed.
