(* ===== verification/TrieHash.v ===== *)
(** * The root hash of a tree

    The reference hash, by recursion on the tree: a node is the RLP of its
    children, each replaced by its hash unless its own RLP is shorter than a
    hash.  A database holds a tree when every node that is hashed is in
    memory or on disk under its hash, and a node of the trie represents a
    tree when its caches and its unloaded parts agree with it. *)

From S2P Require Import Prelude BigMath Rlp Interfaces TrieEncoding Trie TrieTree.

(** ** Nodes without flags *)

Fixpoint node_ind' (P : node → Prop) (Hnil : P NNil) (Hshort : ∀ k n f, P n → P (NShort k n f))
    (Hfull : ∀ ns f, Forall P ns → P (NFull ns f)) (Hhash : ∀ h, P (NHash h)) (Hvalue : ∀ v, P (NValue v))
    (n : node) : P n :=
  match n with
  | NNil => Hnil
  | NShort k n f => Hshort k n f (node_ind' P Hnil Hshort Hfull Hhash Hvalue n)
  | NFull ns f =>
      Hfull ns f ((fix go ns : Forall P ns :=
                     match ns with
                     | [] => Forall_nil_2 P
                     | n :: ns => Forall_cons_2 P n ns (node_ind' P Hnil Hshort Hfull Hhash Hvalue n) (go ns)
                     end) ns)
  | NHash h => Hhash h
  | NValue v => Hvalue v
  end.

Definition in_full (r : rnode) : val := match r with RNil => VBytes [] | _ => rnode_val r end.
Lemma rnode_val_full cs : rnode_val (RFull cs) = VList (map in_full cs).
Proof. done. Qed.

Lemma node_val_simplify n : node_val n = rnode_val (simplifyNode n).
Proof.
  induction n as [|k n f IH|ns f IH|h|v] using node_ind'; cbn [node_val simplifyNode rnode_val];
    [done|by rewrite IH| |done|done].
  f_equal. rewrite map_map. apply map_ext_in. intros n Hn. rewrite Forall_forall in IH.
  specialize (IH n ltac:(by apply list_elem_of_In)). by destruct n.
Qed.

Section Reference.
Context {CRY : Crypto}.

(** ** The reference hash *)

Definition shrink (r : rnode) : rnode :=
  match r with
  | RShort _ _ | RFull _ =>
      if zlen (rlp (rnode_val r)) <? 32 then r else RHash (Keccak256 (rlp (rnode_val r)))
  | _ => r
  end.
Fixpoint cnode (t : tree) : rnode :=
  match t with
  | TNil => RNil
  | TShort k c => RShort (hexToCompact k) (shrink (cnode c))
  | TFull ts => RFull (map (λ c, shrink (cnode c)) ts)
  | TValue v => RValue v
  end.
Definition blob (t : tree) : bytes := rlp (rnode_val (cnode t)).
Definition tree_hash (t : tree) : bytes := Keccak256 (blob t).
Definition root_hash (t : tree) : Z :=
  match t with TNil => emptyRoot | _ => BytesToHash (tree_hash t) end.

Definition is_node (t : tree) : bool := match t with TShort _ _ | TFull _ => true | _ => false end.
Definition big (t : tree) : bool := is_node t && (32 <=? zlen (blob t)).
Lemma shrink_cnode t : shrink (cnode t) = if big t then RHash (tree_hash t) else cnode t.
Proof.
  unfold big, tree_hash. destruct t as [|k c|ts|v]; try done; unfold blob; cbn [is_node andb];
    set (r := cnode _); change (shrink r) with (if zlen (rlp (rnode_val r)) <? 32 then r else RHash (Keccak256 (rlp (rnode_val r))));
    by destruct (Z.ltb_spec (zlen (rlp (rnode_val r))) 32), (Z.leb_spec 32 (zlen (rlp (rnode_val r)))); try lia.
Qed.
Lemma cnode_full ts : cnode (TFull ts) = RFull (map (λ c, shrink (cnode c)) ts).
Proof. done. Qed.

Fixpoint subtrees (t : tree) : list tree :=
  t :: match t with
       | TShort _ c => subtrees c
       | TFull ts => concat (map subtrees ts)
       | _ => []
       end.
Lemma subtrees_self t : t ∈ subtrees t.
Proof. destruct t; apply list_elem_of_here. Qed.
Lemma subtrees_short k c s : s ∈ subtrees c → s ∈ subtrees (TShort k c).
Proof. intros H. cbn [subtrees]. by apply list_elem_of_further. Qed.
Lemma subtrees_full ts i c s : ts !! i = Some c → s ∈ subtrees c → s ∈ subtrees (TFull ts).
Proof.
  intros Hi Hs. cbn [subtrees]. apply list_elem_of_further. apply list_elem_of_In, in_concat.
  exists (subtrees c). split; [|by apply list_elem_of_In]. apply in_map, list_elem_of_In. by eapply list_elem_of_lookup_2.
Qed.

(** ** What a database holds *)

Definition node_key (t : tree) : Z := BytesToHash (tree_hash t).
Lemma hash_bytes_node_key t : hash_bytes (node_key t) = tree_hash t.
Proof. apply hash_bytes_BytesToHash; [apply Keccak256_bytes|apply Keccak256_length]. Qed.
Definition encodable (t : tree) : Prop := val_ok (rnode_val (cnode t)) ∧ is_u64 (zlen (blob t)).

(** An entry that stands for an encoding: a node that has it, or the encoding
    itself. *)
Definition reads (c : cachedNode) (b : bytes) : Prop :=
  match c with
  | CNode r => ∃ s, r = cnode s ∧ wf false s ∧ is_node s = true ∧ encodable s ∧ blob s = b
  | CBlob b' => b' = b
  end.
(** In memory, or on disk in the encoded form. *)
Definition has_node (db : Database) (t : tree) : Prop :=
  encodable t ∧
  match nodes db !! node_key t with
  | Some c => reads c (blob t)
  | None => diskdb db (tree_hash t) = Some (blob t)
  end.
Definition holds (db : Database) (t : tree) : Prop := ∀ s, s ∈ subtrees t → big s = true → has_node db s.
Definition stored (db : Database) (t : tree) : Prop := holds db t ∧ has_node db t.

Lemma holds_short db k c : holds db (TShort k c) → holds db c.
Proof. intros H s Hs. apply H. by apply subtrees_short. Qed.
Lemma holds_full db ts i c : holds db (TFull ts) → ts !! i = Some c → holds db c.
Proof. intros H Hi s Hs. apply H. by eapply subtrees_full. Qed.

(** ** Nodes that represent a tree *)

(** A cached hash is the hash of the tree; a node that is not dirty is in the
    database, if it has a hash, or in its parent.  [top] is the root, hashed
    however short. *)
Definition flag_ok (db : Database) (top : bool) (f : nodeFlag) (t : tree) : Prop :=
  match fl_hash f with
  | None => dirty f = false → top = false ∧ big t = false
  | Some h => h = tree_hash t ∧ (top = false → big t = true) ∧ (dirty f = false → stored db t)
  end.

Inductive rep (db : Database) : bool → node → tree → Prop :=
| rep_nil top : rep db top NNil TNil
| rep_value top v : rep db top (NValue v) (TValue v)
| rep_short top k n f c : rep db false n c → flag_ok db top f (TShort k c) → rep db top (NShort k n f) (TShort k c)
| rep_full top ns f ts : Forall2 (rep db false) ns ts → flag_ok db top f (TFull ts) → rep db top (NFull ns f) (TFull ts)
| rep_hash top h t : h = tree_hash t → is_node t = true → (top = false → big t = true) → stored db t → rep db top (NHash h) t.

(** Not a reference to the database. *)
Definition loaded (n : node) : bool := match n with NHash _ => false | _ => true end.

Lemma rep_nil_iff db top n t : rep db top n t → is_nil n = t_is_nil t.
Proof. inversion 1; subst; try done. by destruct t. Qed.

(** ** A stored tree is read back *)

(** What is stored for a child is read as a node for it. *)
Definition reads_back (db : Database) (t : tree) : Prop :=
  ∀ b top h gen, t ≠ TNil → wf b t → holds db t → flag_ok db top (mkFlag h gen false) t →
  ∃ n, expandNode h (cnode t) gen = Some n ∧ rep db top n t ∧ loaded n = true.
Lemma child_reads_back db t b gen : reads_back db t → t ≠ TNil → wf b t → holds db t →
  ∃ n, expandNode None (shrink (cnode t)) gen = Some n ∧ rep db false n t.
Proof.
  intros H Hn W Hh. rewrite shrink_cnode. destruct (big t) eqn:Hb.
  - exists (NHash (tree_hash t)). split; [done|]. constructor; [done| |done|].
    + unfold big in Hb. by boolp.
    + split; [done|]. apply Hh; [apply subtrees_self|done].
  - destruct (H b false None gen Hn W Hh) as (n & E & R & _); [done|]. eauto.
Qed.
Definition expand_child (gen : Z) (r : rnode) : option node :=
  match r with RNil => Some NNil | _ => expandNode None r gen end.
Lemma expand_child_cnode gen t : t ≠ TNil → expand_child gen (shrink (cnode t)) = expandNode None (shrink (cnode t)) gen.
Proof. intros H. rewrite shrink_cnode. by destruct t; cbn; try done; destruct (_ <=? _). Qed.
Lemma children_read_back db ts gen :
  (∀ i c, ts !! i = Some c → ∃ n, expand_child gen (shrink (cnode c)) = Some n ∧ rep db false n c) →
  ∃ ns, mapM (expand_child gen) (map (λ c, shrink (cnode c)) ts) = Some ns ∧ Forall2 (rep db false) ns ts.
Proof.
  induction ts as [|t ts IH]; intros H; [exists []; by split|].
  destruct (H 0%nat t eq_refl) as (n & E & R). destruct IH as (ns & Es & Rs); [intros i c Hi; by apply (H (S i))|].
  exists (n :: ns). cbn [map]. cbn. rewrite E. cbn. rewrite Es. split; [done|by constructor].
Qed.
Lemma expandNode_full h cs gen : expandNode h (RFull cs) gen = (cs ← mapM (expand_child gen) cs; Some (NFull cs (mkFlag h gen false))).
Proof. done. Qed.
Lemma expand_rep db t : reads_back db t.
Proof.
  induction t as [|k c IH|ts IH|v] using tree_ind'; intros b top h gen Hnn W Hh Hf.
  - done.
  - destruct (child_reads_back db c (hasTerm k) gen IH) as (n & E & R).
    { by apply wf_short_inv in W as [_ [(v & -> & _)|(ts & -> & _)]]. }
    { apply wf_short_inv in W as [_ [(v & -> & (p & -> & _) & Hv)|(ts & -> & _ & Hn & W)]];
        [rewrite hasTerm_app; by constructor|by rewrite hasTerm_nibbles]. }
    { by eapply holds_short. }
    exists (NShort k n (mkFlag h gen false)). cbn [cnode expandNode]. rewrite compactToHex_hexToCompact.
    + rewrite E. split_and!; [done|by constructor|done].
    + apply wf_short_inv in W as [_ [(v & -> & Hk & _)|(ts & -> & _ & Hn & _)]]; [by right|by left].
  - apply wf_full_inv in W as (-> & _ & Wc & _). destruct (children_read_back db ts gen) as (ns & E & R).
    { intros i c Hi. rewrite Forall_lookup in IH. destruct (t_is_nil c) eqn:Hc; [destruct c; try done; exists NNil; split; [done|constructor]|].
      assert (c ≠ TNil) by (by intros ->). rewrite expand_child_cnode by done. eapply child_reads_back; [by eapply IH|done|by eapply Wc|by eapply holds_full]. }
    exists (NFull ns (mkFlag h gen false)). rewrite cnode_full, expandNode_full, E.
    split_and!; [done|by constructor|done].
  - exists (NValue v). split_and!; [done|constructor|done].
Qed.
End Reference.

(** * Decoding stored nodes

    [decodeNode] reads the encoding of a node of a well-formed tree into what
    [expandNode] makes of the form the memory keeps. *)

(** ** Splitting encodings *)

Definition val_kind (v : val) : Kind :=
  match v with
  | VList _ => KList
  | VBytes [x] => if x <? 0x80 then KByte else KString
  | _ => KString
  end.
Definition val_content (v : val) : bytes :=
  match v with VList l => concat (map rlp l) | VBytes b => b | _ => [] end.
Definition bytes_or_list (v : val) : Prop := match v with VBytes _ | VList _ => True | _ => False end.
Lemma rlp_kind v : bytes_or_list v →
  rlp v = kind_head (val_kind v) (zlen (val_content v)) ++ val_content v ∧ kind_content (val_kind v) (val_content v).
Proof.
  destruct v as [| | |b|l]; try done; intros _. cbn [rlp val_content]. unfold rlp_bytes.
  destruct b as [|x [|y r]]; [done| |done]. cbn [val_kind]. destruct (Z.ltb_spec x 128); cbn; [split; [done|by exists x]|].
  split; [done|]. by intros ? [= <-].
Qed.
Lemma Split_rlp v rest : bytes_or_list v → is_bytes (rlp v ++ rest) → is_u64 (zlen (rlp v ++ rest)) →
  Split (rlp v ++ rest) = Ok (val_kind v, val_content v, rest).
Proof.
  intros Hv Hb Hu. destruct (rlp_kind v Hv) as [E Hc]. apply Split_iff; [done|done|].
  split; [|done]. by rewrite E, <- app_assoc.
Qed.

(** [CountValues] counts the items of a concatenation of encodings. *)
Lemma CountValues_loop_rlp l : ∀ fuel i, Forall bytes_or_list l → is_bytes (concat (map rlp l)) →
  is_u64 (zlen (concat (map rlp l))) → (length l ≤ fuel)%nat →
  CountValues_loop fuel (concat (map rlp l)) i = Ok (i + zlen l).
Proof.
  induction l as [|v l IH]; intros fuel i Hl Hb Hu Hf.
  - cbn. destruct fuel; cbn; by rewrite Z.add_0_r.
  - destruct fuel as [|fuel]; [cbn in Hf; lia|]. apply Forall_cons in Hl as [Hv Hl].
    cbn [map concat] in *. pose proof Hb as Hb'. apply is_bytes_app in Hb' as [_ Hr].
    destruct (rlp_kind v Hv) as [E Hc]. pose proof (rlp_nonempty v) as Hne.
    assert (Hk : readKind (rlp v ++ concat (map rlp l)) =
      Ok (val_kind v, zlen (kind_head (val_kind v) (zlen (val_content v))), zlen (val_content v))).
    { rewrite E, <- app_assoc in Hu, Hb |- *. rewrite !is_bytes_app in Hb. apply readKind_complete; [tauto|tauto|done|done]. }
    assert (Hd : drop (Z.to_nat (zlen (kind_head (val_kind v) (zlen (val_content v))) + zlen (val_content v)))
      (rlp v ++ concat (map rlp l)) = concat (map rlp l)).
    { rewrite E, <- zlen_app. unfold zlen at 1. by rewrite Nat2Z.id, drop_app_length. }
    destruct (rlp v ++ concat (map rlp l)) as [|x b] eqn:Ev; [by destruct (rlp v)|].
    cbn [CountValues_loop]. rewrite Hk. cbn [res_bind]. rewrite Hd, IH.
    + rewrite zlen_cons. f_equal. lia.
    + done.
    + done.
    + eapply is_u64_zlen_le, Hu. rewrite <- Ev, zlen_app. pose proof (zlen_nonneg (rlp v)). lia.
    + cbn in Hf. lia.
Qed.
Lemma length_concat_rlp l : (length l ≤ length (concat (map rlp l)))%nat.
Proof.
  induction l as [|v l IH]; [done|]. cbn. rewrite length_app. pose proof (rlp_nonempty v).
  destruct (rlp v); [done|]. cbn. lia.
Qed.
Lemma CountValues_rlp l : Forall bytes_or_list l → is_bytes (concat (map rlp l)) →
  is_u64 (zlen (concat (map rlp l))) → CountValues (concat (map rlp l)) = Ok (zlen l).
Proof. intros. unfold CountValues. rewrite CountValues_loop_rlp by (try done; apply length_concat_rlp). by rewrite Z.add_0_l. Qed.

Lemma rlp_list_shorter l : (length (concat (map rlp l)) < length (rlp (VList l)))%nat.
Proof. cbn [rlp]. unfold rlp_list, rlp_head. rewrite length_app. destruct (_ <? 56); cbn [length]; lia. Qed.
Lemma split_list_parts l rest : val_ok (VList l) → is_bytes rest → is_u64 (zlen (rlp (VList l) ++ rest)) →
  is_bytes (concat (map rlp l)) ∧ is_u64 (zlen (concat (map rlp l))) ∧
  SplitList (rlp (VList l) ++ rest) = Ok (concat (map rlp l), rest).
Proof.
  intros Hok Hr Hu.
  assert (Hu' : is_u64 (zlen (rlp (VList l)))).
  { eapply is_u64_zlen_le, Hu. rewrite zlen_app. pose proof (zlen_nonneg rest). lia. }
  pose proof (is_bytes_rlp_val _ Hok Hu') as Hb. split_and!.
  - cbn [rlp] in Hb. unfold rlp_list in Hb. by apply is_bytes_app in Hb as [_ ?].
  - eapply is_u64_zlen_le, Hu'. pose proof (rlp_list_shorter l). unfold zlen. lia.
  - apply SplitList_iff; [by apply is_bytes_app|done|done].
Qed.

(** ** Decoding a node *)

Section Decode.
Context {CRY : Crypto}.
Variable gen : Z.

Definition cref (t : tree) : val := in_full (shrink (cnode t)).
Definition decodes (t : tree) : Prop := ∀ fuel h rest,
  wf false t → is_node t = true → val_ok (rnode_val (cnode t)) → is_bytes rest → is_u64 (zlen (blob t ++ rest)) →
  (length (blob t) < fuel)%nat →
  ∃ n, expandNode h (cnode t) gen = Some n ∧ decodeNode gen fuel h (blob t ++ rest) = Ok n.

Lemma cref_bytes_or_list t : bytes_or_list (cref t).
Proof. unfold cref. rewrite shrink_cnode. by destruct t; cbn; try done; destruct (_ <=? _). Qed.
Lemma cref_val t : t ≠ TNil → rnode_val (shrink (cnode t)) = cref t.
Proof. intros H. unfold cref. rewrite shrink_cnode. by destruct t; cbn; try done; destruct (_ <=? _). Qed.
Lemma zlen_tree_hash t : zlen (tree_hash t) = 32.
Proof. unfold zlen, tree_hash. by rewrite Keccak256_length. Qed.
Lemma val_kind_32 b : zlen b = 32 → val_kind (VBytes b) = KString.
Proof. by destruct b as [|x [|y r]]. Qed.

Lemma decodeRef_child fuel c rest : decodes c → wf false c → val_ok (cref c) → is_bytes rest →
  is_u64 (zlen (rlp (cref c) ++ rest)) → (length (rlp (cref c)) < fuel)%nat →
  ∃ n, expand_child gen (shrink (cnode c)) = Some n ∧
    decodeRef (decodeNode gen fuel) (rlp (cref c) ++ rest) = Ok (n, rest).
Proof.
  intros IH W Hok Hr Hu Hf. unfold decodeRef.
  assert (Hb : is_bytes (rlp (cref c) ++ rest)).
  { apply is_bytes_app. split; [|done]. apply is_bytes_rlp_val; [done|]. eapply is_u64_zlen_le, Hu.
    rewrite zlen_app. pose proof (zlen_nonneg rest). lia. }
  rewrite Split_rlp by (try done; apply cref_bytes_or_list). cbn [of_rlp res_bind].
  assert (Hc : c = TNil ∨ is_node c = true) by (inversion W; subst; auto).
  destruct Hc as [->|Hn]; [by exists NNil|]. rewrite expand_child_cnode by (by intros ->).
  unfold cref in *. rewrite shrink_cnode in *. destruct (big c) eqn:Ebig; cbn [in_full rnode_val] in *.
  - exists (NHash (tree_hash c)). split; [done|]. rewrite val_kind_32 by apply zlen_tree_hash.
    cbn [val_content]. by rewrite zlen_tree_hash.
  - replace (in_full (cnode c)) with (rnode_val (cnode c)) in * by (by destruct c).
    assert (Ek : val_kind (rnode_val (cnode c)) = KList) by (by destruct c). rewrite Ek.
    assert (Hsmall : zlen (rlp (rnode_val (cnode c))) < 32).
    { unfold big in Ebig. rewrite Hn in Ebig. cbn [andb] in Ebig. boolp. done. }
    rewrite zlen_app. destruct (Z.ltb_spec hashLen (zlen (rlp (rnode_val (cnode c))) + zlen rest - zlen rest));
      [unfold hashLen in *; lia|].
    destruct (IH fuel None rest W Hn Hok Hr Hu Hf) as (n & E & D). exists n. split; [done|].
    change (rlp (rnode_val (cnode c))) with (blob c). by rewrite D.
Qed.

Lemma decodeRefs_children fuel ts rest :
  Forall (λ c, decodes c ∧ wf false c ∧ val_ok (cref c) ∧ (length (rlp (cref c)) < fuel)%nat) ts →
  is_bytes (concat (map rlp (map cref ts)) ++ rest) → is_u64 (zlen (concat (map rlp (map cref ts)) ++ rest)) →
  ∃ ns, mapM (expand_child gen) (map (λ c, shrink (cnode c)) ts) = Some ns ∧
    decodeRefs (decodeNode gen fuel) (length ts) (concat (map rlp (map cref ts)) ++ rest) = Ok (ns, rest).
Proof.
  induction 1 as [|c ts (IHc & W & Hok & Hf) _ IH]; intros Hb Hu; [by exists []|].
  cbn [map concat length decodeRefs] in *. rewrite <- app_assoc in *.
  pose proof Hb as Hb'. apply is_bytes_app in Hb' as [_ Hr].
  destruct (decodeRef_child fuel c _ IHc W Hok Hr Hu Hf) as (n & E & D).
  destruct IH as (ns & Es & Ds); [done| |].
  { eapply is_u64_zlen_le, Hu. rewrite (zlen_app (rlp (cref c))). pose proof (zlen_nonneg (rlp (cref c))). lia. }
  exists (n :: ns). rewrite D. cbn [res_bind]. rewrite Ds. cbn. rewrite E. cbn. by rewrite Es.
Qed.

Lemma decode_short k c : decodes c → decodes (TShort k c).
Proof.
  intros IH [|fuel] h rest W _ Hok Hr Hu Hf; [lia|]. pose proof W as Wk. apply wf_short_inv in Wk as [_ Wk].
  assert (Hkp : key_part k ∧ c ≠ TNil) by (destruct Wk as [(v & -> & ? & _)|(ts & -> & _ & ? & _)]; (split; [first [by right|by left]|done])).
  destruct Hkp as [Hkp Hcn]. unfold blob in *. cbn [cnode rnode_val expandNode] in *. rewrite cref_val in * by done.
  rewrite compactToHex_hexToCompact by done. cbn [decodeNode].
  destruct (split_list_parts _ rest Hok Hr Hu) as (Hb & Hul & HS). rewrite HS. clear HS.
  pose proof (rlp_list_shorter [VBytes (hexToCompact k); cref c]) as Hsh.
  assert (Hnz : zlen (rlp (VList [VBytes (hexToCompact k); cref c]) ++ rest) =? 0 = false).
  { apply Z.eqb_neq. rewrite zlen_app. pose proof (zlen_nonneg rest). unfold zlen. lia. }
  rewrite Hnz. cbn [of_rlp res_bind fst]. rewrite CountValues_rlp; [|by repeat constructor; try apply cref_bytes_or_list|done|done].
  change (zlen [VBytes (hexToCompact k); cref c] =? 2) with true. cbv iota zeta.
  cbn [map concat] in *. rewrite app_nil_r in *. pose proof Hb as Hb'. apply is_bytes_app in Hb' as [_ Hbc].
  rewrite (proj2 (SplitString_iff _ (hexToCompact k) (rlp (cref c)) Hb Hul)) by done. cbn [of_rlp res_bind].
  rewrite compactToHex_hexToCompact by done. cbn [of_opt res_bind].
  apply val_ok_list in Hok. apply Forall_cons in Hok as [_ Hok]. apply Forall_cons in Hok as [Hok _].
  rewrite zlen_app in Hul. pose proof (zlen_nonneg (rlp (VBytes (hexToCompact k)))) as Hz. rewrite length_app in Hsh.
  assert (Hulc : is_u64 (zlen (rlp (cref c)))).
  { unfold is_u64 in *. pose proof (zlen_nonneg (rlp (cref c))). lia. }
  destruct Wk as [(v & -> & (p & -> & Hp) & _)|(ts & -> & _ & Hn & Wts)].
  - rewrite hasTerm_app. rewrite (proj2 (SplitString_iff _ v [] Hbc Hulc)) by (by rewrite app_nil_r). cbn. by eexists.
  - rewrite hasTerm_nibbles by done. destruct (decodeRef_child fuel (TFull ts) [] IH Wts Hok) as (n & E & D).
    + constructor.
    + by rewrite app_nil_r.
    + lia.
    + rewrite app_nil_r in D. rewrite expand_child_cnode in E by done. rewrite D, E. cbn. by eexists.
Qed.
Lemma decode_full ts : Forall decodes ts → decodes (TFull ts).
Proof.
  intros IH [|fuel] h rest W _ Hok Hr Hu Hf; [lia|]. apply wf_full_inv in W as (_ & Hlen & Wc & _).
  assert (Ets : ∃ ts16 c, ts = ts16 ++ [c] ∧ length ts16 = 16%nat).
  { destruct (ts !! 16%nat) as [c|] eqn:E; [|apply lookup_ge_None in E; lia].
    exists (take 16 ts), c. split; [|rewrite length_take; lia]. rewrite <- (take_drop_middle ts 16 c E) at 1.
    do 2 f_equal. apply nil_length_inv. rewrite length_drop. lia. }
  destruct Ets as (ts16 & c & -> & Hl16). unfold blob in *.
  rewrite cnode_full in *. rewrite expandNode_full. rewrite rnode_val_full in *. rewrite map_map in *. fold cref in *.
  change (map (λ x, in_full (shrink (cnode x))) (ts16 ++ [c])) with (map cref (ts16 ++ [c])) in *.
  cbn [decodeNode]. destruct (split_list_parts _ rest Hok Hr Hu) as (Hb & Hul & HS). rewrite HS. clear HS.
  pose proof (rlp_list_shorter (map cref (ts16 ++ [c]))) as Hsh.
  assert (Hnz : zlen (rlp (VList (map cref (ts16 ++ [c]))) ++ rest) =? 0 = false).
  { apply Z.eqb_neq. rewrite zlen_app. pose proof (zlen_nonneg rest). unfold zlen. lia. }
  rewrite Hnz. cbn [of_rlp res_bind fst].
  rewrite CountValues_rlp; [|apply Forall_map, Forall_true; intros; apply cref_bytes_or_list|done|done].
  replace (zlen (map cref (ts16 ++ [c]))) with 17 by (unfold zlen; rewrite length_map, length_app, Hl16; done).
  change (17 =? 2) with false. change (17 =? 17) with true. cbv iota zeta.
  rewrite !map_app, concat_app in *. rewrite <- Hl16. cbn [map concat] in *. rewrite app_nil_r in *.
  apply val_ok_list, Forall_app in Hok as [Hok16 Hokc]. rewrite Forall_map in Hok16.
  destruct (decodeRefs_children fuel ts16 (rlp (cref c))) as (ns & E & D); [|done|done|].
  - apply Forall_lookup. intros i t Hi. rewrite Forall_lookup in IH, Hok16.
    assert (Hi' : (ts16 ++ [c]) !! i = Some t) by (by apply lookup_app_l_Some).
    split_and!; [by eapply IH| |by eapply Hok16|].
    + apply Wc in Hi'. apply lookup_lt_Some in Hi. by rewrite bool_decide_eq_false_2 in Hi' by lia.
    + assert (length (rlp (cref t)) ≤ length (concat (map rlp (map cref ts16))))%nat.
      { apply Nat2Z.inj_le. apply zlen_concat_le. do 2 apply list_elem_of_fmap_2. by eapply list_elem_of_lookup_2. }
      rewrite length_app in Hsh. lia.
  - rewrite D. cbn [res_bind]. assert (Wv := Wc 16%nat c). rewrite lookup_app_r, Hl16 in Wv by lia.
    specialize (Wv eq_refl). cbn in Wv.
    rewrite zlen_app in Hul. pose proof (zlen_nonneg (concat (map rlp (map cref ts16)))). pose proof (zlen_nonneg (rlp (cref c))).
    apply is_bytes_app in Hb as [_ Hbc].
    assert (Ec : ∃ v, cref c = VBytes v ∧ shrink (cnode c) = (if 0 <? zlen v then RValue v else RNil)).
    { apply wf_closed_inv in Wv as [->|(v & -> & Hv)]; [by exists []|]. exists v. split; [done|].
      destruct v; [done|]. rewrite zlen_cons. pose proof (zlen_nonneg v). by destruct (Z.ltb_spec 0 (1 + zlen v)); [|lia]. }
    destruct Ec as (v & Ec & Es). rewrite Ec in *.
    rewrite (proj2 (SplitString_iff _ v [] Hbc ltac:(unfold is_u64 in *; lia))) by (by rewrite app_nil_r).
    cbn [of_rlp res_bind fst]. rewrite (proj2 (mapM_Some _ _ (ns ++ [if 0 <? zlen v then NValue v else NNil]))).
    + cbn. by eexists.
    + apply Forall2_app; [by apply mapM_Some_1|]. rewrite Es. constructor; [by destruct (0 <? zlen v)|constructor].
Qed.
Lemma decode_blob t : decodes t.
Proof.
  induction t as [|k c IH|ts IH|v] using tree_ind'; [by intros ? ? ? ?|by apply decode_short|by apply decode_full|by intros ? ? ? ?].
Qed.
End Decode.
