(* ===== verification/TrieRep.v ===== *)
(** * The trie implements the tree

    A node that represents a well-formed tree: resolving, reading, inserting
    and deleting on it neither fail nor panic, the fuel is enough, and the
    results represent those of the tree. *)

From S2P Require Import Prelude BigMath Rlp Interfaces TrieEncoding Trie TrieTree TrieHash.

Section Operations.
Context {CRY : Crypto}.
Variables (db : Database) (cg : Z).
Abbreviation rep := (rep db).

(** ** Resolving *)

(** Every form of a stored node is read as the same node. *)
Lemma blob_expands t h : wf false t → is_node t = true → encodable t →
  ∃ n, expandNode (Some h) (cnode t) cg = Some n ∧ mustDecodeNode h (blob t) cg = Ok n.
Proof.
  intros W Hn [Hok Hu]. destruct (decode_blob cg t (S (length (blob t))) (Some h) [] W Hn Hok) as (n & E & D);
    [constructor|by rewrite app_nil_r|lia|].
  exists n. rewrite app_nil_r in D. unfold mustDecodeNode. by rewrite D.
Qed.
Lemma stored_node t : wf false t → is_node t = true → stored db t →
  ∃ n, db_node (node_key t) cg db = Ok (Some n) ∧ expandNode (Some (tree_hash t)) (cnode t) cg = Some n.
Proof.
  intros W Hn [_ [He Hs]]. unfold db_node. destruct (blob_expands t (tree_hash t) W Hn He) as (n & E & D).
  exists n. split; [|done]. destruct (nodes db !! node_key t) as [[r|b]|].
  - destruct Hs as (s & -> & Ws & Hns & Hes & Eb). cbn [obj]. rewrite hash_bytes_node_key.
    destruct (blob_expands s (tree_hash t) Ws Hns Hes) as (n' & E' & D'). rewrite Eb, D in D'. injection D' as ->. by rewrite E'.
  - cbn [reads] in Hs. subst b. cbn [obj]. by rewrite hash_bytes_node_key, D.
  - by rewrite hash_bytes_node_key, Hs, D.
Qed.
Lemma resolve_rep b top h t prefix : wf b t → rep top (NHash h) t →
  ∃ n, resolveHash db cg h prefix = Ok n ∧ rep top n t ∧ loaded n = true.
Proof.
  intros W R. inversion R as [| | | |? ? ? -> Hn Htop Hst]; subst.
  assert (W' : wf false t) by (inversion W; subst; done).
  destruct (stored_node t W' Hn Hst) as (n & E & X). exists n. unfold resolveHash. fold (node_key t). rewrite E. split; [done|].
  destruct (expand_rep db t false top (Some (tree_hash t)) cg ltac:(by intros ->) W' (proj1 Hst)) as (n' & X' & R' & L'); [done|].
  rewrite X in X'. injection X' as ->. done.
Qed.

(** ** The parts of a node *)

Lemma rep_short_inv top k n f t : rep top (NShort k n f) t → ∃ c, t = TShort k c ∧ rep false n c ∧ flag_ok db top f t.
Proof. inversion 1; subst. by eexists. Qed.
Lemma rep_full_inv top ns f t : rep top (NFull ns f) t → ∃ ts, t = TFull ts ∧ Forall2 (rep false) ns ts ∧ flag_ok db top f t.
Proof. inversion 1; subst. by eexists. Qed.
(** A key that goes through a short node. *)
Lemma wf_short_key b k c r : wf b (TShort k c) → key_at b (k ++ r) →
  b = false ∧ k ≠ [] ∧ wf (hasTerm k) c ∧ key_at (hasTerm k) r.
Proof.
  intros W Hk. apply wf_short_inv in W as [-> [(v & -> & Hh & Hv)|(ts & -> & Hne & Hn & W)]].
  - pose proof Hh as (p & -> & _). rewrite hasTerm_app. split_and!; [done|by destruct p|by constructor|].
    exact (hex_key_prefix_free _ _ Hh Hk).
  - rewrite hasTerm_nibbles by done. split_and!; [done|done|done|]. cbn in Hk |- *. by apply hex_key_app in Hk.
Qed.
(** The child of a full node that a key goes to. *)
Lemma wf_full_key b ns ts key : wf b (TFull ts) → Forall2 (rep false) ns ts → key_at b key →
  ∃ x r n c, key = x :: r ∧ 0 ≤ x < 17 ∧ ns !! Z.to_nat x = Some n ∧ ts !! Z.to_nat x = Some c ∧ rep false n c ∧
    wf (bool_decide (Z.to_nat x = 16%nat)) c ∧ key_at (bool_decide (Z.to_nat x = 16%nat)) r.
Proof.
  intros W F Hk. apply wf_full_inv in W as (-> & Hlen & Wc & _).
  destruct key as [|x r]; [by apply hex_key_nonempty in Hk|]. destruct (hex_key_head _ _ Hk) as [Hr Hx].
  destruct (ts !! Z.to_nat x) as [c|] eqn:Ec; [|apply lookup_ge_None in Ec; lia].
  destruct (Forall2_lookup_r _ _ _ _ _ F Ec) as (n & En & R). exists x, r, n, c. split_and!; try done; try lia. by apply Wc.
Qed.
Lemma rep_set_child ns ts i n c : Forall2 (rep false) ns ts → rep false n c →
  Forall2 (rep false) (set_child ns i n) (<[Z.to_nat i := c]> ts).
Proof. intros. by apply Forall2_insert. Qed.
Lemma alter_is_insert {A} f (l : list A) i c : l !! i = Some c → alter f i l = <[i := f c]> l.
Proof. revert i. induction l as [|x l IH]; intros [|i]; [done|done|by intros [= ->]|]. intros H. cbn. f_equal. by apply IH. Qed.
Lemma flag_ok_set_gen top f t : flag_ok db top f t → flag_ok db top (set_gen cg f) t.
Proof. done. Qed.

(** ** Reading *)

Definition fuel_for (n : node) (key : bytes) : nat := 2 * length key + (if loaded n then 1 else 2).
Definition get_ok (n : node) (t : tree) : Prop := ∀ b top key pos fuel,
  wf b t → rep top n t → key_at b (drop pos key) → (fuel_for n (drop pos key) ≤ fuel)%nat →
  ∃ n' d, tryGet db cg fuel n key pos = Ok (tget t (drop pos key), n', d) ∧ rep top n' t ∧ (d = false → n' = n).
Lemma get_ok_hash t : (∀ n, loaded n = true → get_ok n t) → ∀ n, get_ok n t.
Proof.
  intros H n. destruct (loaded n) eqn:L; [by apply H|]. destruct n as [| | |h|]; try done.
  intros b top key pos fuel W R Hk Hf. destruct (resolve_rep b top h t (take pos key) W R) as (n & E & R' & L').
  unfold fuel_for in Hf. cbn [loaded] in Hf. destruct fuel as [|fuel]; [lia|].
  destruct (H n L' b top key pos fuel W R' Hk) as (n' & d & Eg & Rg & Hd); [unfold fuel_for; rewrite L'; lia|].
  exists n', true. cbn [tryGet]. rewrite E. cbn [res_bind]. by rewrite Eg.
Qed.
Lemma fuel_for_drop n k r : k ≠ [] → (fuel_for n r ≤ 2 * length (k ++ r))%nat.
Proof. intros H. unfold fuel_for. rewrite length_app. destruct k; [done|]. cbn [length]. destruct (loaded n); lia. Qed.
Lemma tryGet_rep t : ∀ n, get_ok n t.
Proof.
  induction t as [|k c IH|ts IH|v] using tree_ind'; apply get_ok_hash; intros n L b top key pos [|fuel] W R Hk Hf;
    unfold fuel_for in Hf; rewrite L in Hf; try lia.
  - inversion R; subst; try done. exists NNil, false. split_and!; [done|constructor|done].
  - destruct n as [|nk nv fl| | |]; try by inversion R. destruct (rep_short_inv _ _ _ _ _ R) as (c' & [= <- <-] & Rc & Hfl).
    cbn [tryGet]. rewrite <- length_drop. destruct (decide (k = take (length k) (drop pos key))) as [E|E].
    + rewrite bool_decide_eq_true_2 by done. apply take_prefix_iff in E as [r Er]. rewrite Er in *.
      rewrite length_app. destruct (Nat.ltb_spec (length k + length r) (length k)); [lia|]. cbn [orb negb].
      destruct (wf_short_key _ _ _ _ W Hk) as (-> & Hne & Wc & Hr). rewrite tget_short_app.
      assert (Ed : drop (pos + length k) key = r) by (by rewrite <- drop_drop, Er, drop_app_length).
      pose proof (fuel_for_drop nv k r Hne).
      destruct (IH nv (hasTerm k) false key (pos + length k)%nat fuel Wc Rc) as (n' & d & Eg & Rg & Hd); [by rewrite Ed|rewrite Ed; lia|].
      rewrite Ed in Eg. rewrite Eg. cbn [res_bind]. eexists _, d. split; [done|]. destruct d; [|done]. split; [by constructor|done].
    + rewrite bool_decide_eq_false_2 by done. rewrite orb_true_r. eexists _, false. split; [|done].
      cbn [tget]. by rewrite decide_False.
  - destruct n as [| |ns fl| |]; try by inversion R. destruct (rep_full_inv _ _ _ _ R) as (ts' & [= <-] & F & Hfl).
    destruct (wf_full_key b ns ts _ W F Hk) as (x & r & n & c & Er & Hx & En & Ec & Rc & Wc & Hr).
    cbn [tryGet]. assert (Ek : key !! pos = Some x) by (by rewrite <- (Nat.add_0_r pos), <- lookup_drop, Er).
    rewrite Ek. cbn [of_opt res_bind]. unfold child. rewrite En. cbn [of_opt res_bind]. rewrite Er in *. rewrite tget_full, Ec.
    assert (Ed : drop (pos + 1) key = r) by (by rewrite <- drop_drop, Er).
    rewrite Forall_lookup in IH.
    destruct (IH _ c Ec n _ false key (pos + 1)%nat fuel Wc Rc) as (n' & d & Eg & Rg & Hd);
      [by rewrite Ed|rewrite Ed; pose proof (fuel_for_drop n [x] r ltac:(done)); cbn in *; lia|].
    rewrite Ed in Eg. rewrite Eg. cbn [res_bind]. eexists _, d. split; [done|]. destruct d; [|done]. split; [|done].
    constructor; [|done]. rewrite <- (list_insert_id ts _ c Ec). by apply rep_set_child.
  - destruct n as [| | | |w]; try by inversion R. inversion R; subst. inversion W; subst. cbn in Hk. rewrite Hk.
    eexists _, false. split; [done|]. split; [constructor|done].
Qed.

(** ** Inserting *)

Lemma key_part_range k : key_part k → Forall (λ z, 0 ≤ z < 17) k.
Proof.
  assert (Hn : ∀ p, nibbles p → Forall (λ z, 0 ≤ z < 17) p).
  { unfold is_nibble. induction 1; constructor; [lia|done]. }
  intros [H|(p & -> & H)]; [by apply Hn|]. apply Forall_app. split; [by apply Hn|]. constructor; [lia|constructor].
Qed.
Lemma wf_short_part b k c : wf b (TShort k c) → key_part k.
Proof. intros W. apply wf_short_inv in W as [_ [(v & _ & ? & _)|(ts & _ & _ & ? & _)]]; [by right|by left]. Qed.
(** The key of a short node is not a longer key. *)
Lemma wf_short_not_longer b k c key y s : wf b (TShort k c) → hex_key key → k ≠ key ++ y :: s.
Proof.
  intros W Hk ->. apply wf_short_inv in W as [_ [(v & _ & H & _)|(ts & _ & _ & H & _)]].
  - by apply hex_key_prefix_free in H.
  - by eapply hex_key_not_nibbles.
Qed.

Lemma lookup_past {A} (p : list A) x r : (p ++ x :: r) !! length p = Some x.
Proof. by apply list_lookup_middle. Qed.
Definition leaf_node (key : bytes) (n : node) : node := match key with [] => n | _ => NShort key n (newFlag cg) end.
Lemma rep_leaf key n t : rep false n t → rep false (leaf_node key n) (leaf key t).
Proof. intros R. destruct key; [done|]. by constructor. Qed.
Lemma insert_nil (key : bytes) n :
  match key with [] => Ok (E := trieerror) (true, n) | _ :: _ => Ok (true, NShort key n (newFlag cg)) end = Ok (true, leaf_node key n).
Proof. by destruct key. Qed.
Lemma rep_branch x nx tx y ny ty : rep false nx tx → rep false ny ty →
  Forall2 (rep false) (set_child (set_child (replicate 17 NNil) x nx) y ny)
    (<[Z.to_nat y := ty]> (<[Z.to_nat x := tx]> (replicate 17 TNil))).
Proof. intros. do 2 (apply rep_set_child; [|done]). apply Forall2_replicate. constructor. Qed.
Lemma replicate_lookup_child x : 0 ≤ x < 17 → replicate 17 tt !! Z.to_nat x = Some tt.
Proof. intros. apply lookup_replicate_2. lia. Qed.

Definition insert_ok (n : node) (t : tree) : Prop := ∀ b top prefix key v fuel,
  wf b t → rep top n t → key_at b key → (fuel_for n key ≤ fuel)%nat →
  ∃ d n', insert db cg fuel n prefix key (NValue v) = Ok (d, n') ∧ rep top n' (tinsert t key (TValue v)) ∧
    (d = false → tinsert t key (TValue v) = t).
Lemma insert_ok_hash t : (∀ n, loaded n = true → insert_ok n t) → ∀ n, insert_ok n t.
Proof.
  intros H n. destruct (loaded n) eqn:L; [by apply H|]. destruct n as [| | |h|]; try done.
  intros b top prefix key v fuel W R Hk Hf. destruct (resolve_rep b top h t prefix W R) as (n & E & R' & L').
  unfold fuel_for in Hf. cbn [loaded] in Hf. destruct fuel as [|fuel]; [lia|].
  destruct (H n L' b top prefix key v fuel W R' Hk) as (d & n' & Ei & Ri & Hd); [unfold fuel_for; rewrite L'; lia|].
  assert (Hne : key ≠ []).
  { inversion R; subst. destruct b; [|by apply hex_key_nonempty]. apply wf_closed_inv in W as [->|(w & -> & _)]; done. }
  destruct key as [|x r]; [done|]. cbn [insert]. rewrite E. cbn [res_bind]. rewrite Ei. cbn [res_bind].
  destruct d; [by eexists true, n'|]. exists false, n. split_and!; [done|by rewrite Hd|done].
Qed.

(** A new branch below the common prefix. *)
Lemma insert_branch fuel top nv fl c prefix p x r y s v : rep false nv c → 0 ≤ x < 17 → 0 ≤ y < 17 → x ≠ y →
  ∃ n', insert db cg (S (S fuel)) (NShort (p ++ y :: s) nv fl) prefix (p ++ x :: r) (NValue v) = Ok (true, n') ∧
    rep top n' (leaf p (branch y (leaf s c) x (leaf r (TValue v)))).
Proof.
  intros R Hx Hy Hxy.
  assert (Hm : prefixLen (p ++ x :: r) (p ++ y :: s) = length p).
  { destruct (prefix_split (p ++ x :: r) (p ++ y :: s)) as [[_ (u & E)]|[[_ (z & u & E)]|(q & u & w & z & o & E1 & E2 & Hn & E)]].
    - rewrite <- app_assoc in E. apply app_inv_head in E. by injection E as ->.
    - rewrite <- app_assoc in E. apply app_inv_head in E. by injection E as ->.
    - rewrite E. clear E. revert q E1 E2. induction p as [|a p IH]; intros [|b q] E1 E2; cbn in *; simplify_eq; [done..|].
      f_equal. by eapply IH. }
  set (br := NFull (set_child (set_child (replicate 17 NNil) y (leaf_node s nv)) x (leaf_node r (NValue v))) (newFlag cg)).
  assert (Rb : rep top br (branch y (leaf s c) x (leaf r (TValue v)))).
  { constructor; [|done]. apply rep_branch; apply rep_leaf; [done|constructor]. }
  exists (match p with [] => br | _ => NShort p br (newFlag cg) end). split.
  - remember (p ++ x :: r) as key eqn:Ek. destruct key as [|k0 key]; [by destruct p|]. cbn [insert]. rewrite Hm, Ek.
    destruct (Nat.eqb_spec (length p) (length (p ++ y :: s))) as [E|_]; [rewrite length_app in E; cbn in E; lia|].
    rewrite lookup_past. cbn [of_opt res_bind]. rewrite !drop_past.
    rewrite !insert_nil. cbn [res_bind]. rewrite replicate_lookup_child by done. cbn [of_opt res_bind].
    rewrite lookup_past. cbn [of_opt res_bind]. rewrite replicate_lookup_child by done. cbn [of_opt res_bind snd]. fold br.
    rewrite take_app_length. by destruct p.
  - destruct p; [done|]. constructor; [|done]. constructor; [|done]. apply rep_branch; apply rep_leaf; [done|constructor].
Qed.

Lemma insert_short k c : (∀ n, insert_ok n c) → ∀ n, loaded n = true → insert_ok n (TShort k c).
Proof.
  intros IH n L b top prefix key v [|fuel] W R Hk Hf; unfold fuel_for in Hf; rewrite L in Hf; [lia|].
  destruct n as [|nk nv fl| | |]; try by inversion R. destruct (rep_short_inv _ _ _ _ _ R) as (c' & [= <- <-] & Rc & Hfl).
  pose proof W as Wb. apply wf_short_inv in Wb as [-> _]. pose proof (hex_key_nonempty _ Hk) as Hkne.
  destruct (prefix_split key k) as [[E (r & ->)]|[[_ (y & s & ->)]|(p & x & r & y & s & -> & -> & Hxy & E)]].
  - destruct (wf_short_key _ _ _ _ W Hk) as (_ & Hne & Wc & Hr).
    destruct k as [|z k]; [done|]. cbn [insert tinsert app]. cbn [app] in E. rewrite E, Nat.eqb_refl.
    change (z :: k ++ r) with ((z :: k) ++ r). rewrite drop_app_length, take_app_length.
    pose proof (fuel_for_drop nv (z :: k) r Hne).
    destruct (IH nv _ false (prefix ++ z :: k) r v fuel Wc Rc Hr) as (d & n' & Ei & Ri & Hd); [lia|].
    rewrite Ei. cbn [res_bind]. destruct d; eexists _, _; (split; [done|]).
    + split; [|done]. by constructor.
    + split; [|intros _; by rewrite Hd]. by rewrite Hd.
  - by apply (wf_short_not_longer _ _ _ _ y s W) in Hk.
  - assert (Hx : 0 ≤ x < 17).
    { assert (Hp : key_part (p ++ x :: r)) by (by right). apply key_part_range, Forall_app in Hp as [_ Hp]. by apply Forall_cons in Hp as [? _]. }
    assert (Hy : 0 ≤ y < 17).
    { apply wf_short_part, key_part_range, Forall_app in W as [_ Hp]. by apply Forall_cons in Hp as [? _]. }
    destruct fuel as [|fuel]; [rewrite length_app in Hf; cbn in Hf; lia|].
    destruct (insert_branch fuel top nv fl c prefix p x r y s v Rc Hx Hy Hxy) as (n' & Ei & Ri).
    exists true, n'. split; [done|]. split; [|done].
    assert (Et : tinsert (TShort (p ++ y :: s) c) (p ++ x :: r) (TValue v) = leaf p (branch y (leaf s c) x (leaf r (TValue v)))).
    { remember (p ++ x :: r) as key eqn:Ek. destruct key as [|k0 key]; [done|]. cbn [tinsert]. rewrite E.
      destruct (Nat.eqb_spec (length p) (length (p ++ y :: s))) as [E'|_]; [rewrite length_app in E'; cbn in E'; lia|].
      rewrite Ek, !lookup_past, !drop_past, take_app_length. done. }
    by rewrite Et.
Qed.
Lemma insert_full ts : (∀ i c, ts !! i = Some c → ∀ n, insert_ok n c) → ∀ n, loaded n = true → insert_ok n (TFull ts).
Proof.
  intros IH n L b top prefix key v [|fuel] W R Hk Hf; unfold fuel_for in Hf; rewrite L in Hf; [lia|].
  destruct n as [| |ns fl| |]; try by inversion R. destruct (rep_full_inv _ _ _ _ R) as (ts' & [= <-] & F & Hfl).
  destruct (wf_full_key b ns ts _ W F Hk) as (x & r & n & c & -> & Hx & En & Ec & Rc & Wc & Hr).
  cbn [insert tinsert]. unfold child. rewrite En. cbn [of_opt res_bind].
  destruct (IH _ c Ec n _ false (prefix ++ [x]) r v fuel Wc Rc Hr) as (d & n' & Ei & Ri & Hd).
  { pose proof (fuel_for_drop n [x] r ltac:(done)). cbn in *. lia. }
  rewrite Ei. cbn [res_bind]. rewrite (alter_is_insert _ _ _ _ Ec).
  destruct d; eexists _, _; (split; [done|]).
  - split; [|done]. constructor; [|done]. by apply rep_set_child.
  - rewrite Hd by done. by rewrite list_insert_id.
Qed.
Lemma insert_rep t : ∀ n, insert_ok n t.
Proof.
  induction t as [|k c IH|ts IH|w] using tree_ind'; apply insert_ok_hash; intros n L.
  - intros b top prefix key v [|fuel] W R Hk Hf; unfold fuel_for in Hf; rewrite L in Hf; [lia|].
    inversion R; subst; try done. destruct key as [|x r]; cbn.
    + eexists true, _. split; [done|]. split; [constructor|done].
    + eexists true, _. split; [done|]. split; [|done]. constructor; [constructor|done].
  - by apply insert_short.
  - apply insert_full; [|done]. intros i c Hi. rewrite Forall_lookup in IH. by eapply IH.
  - intros b top prefix key v [|fuel] W R Hk Hf; unfold fuel_for in Hf; rewrite L in Hf; [lia|].
    inversion R; subst; try done. inversion W; subst. cbn in Hk. subst key. cbn.
    eexists _, _. split; [done|]. split; [constructor|]. intros Hd. apply negb_false_iff, bool_decide_eq_true in Hd. by subst.
Qed.

(** ** Deleting *)

Lemma rep_loaded_not_short top n t : rep top n t → loaded n = true → (∀ k c f, n ≠ NShort k c f) → ∀ k c, t ≠ TShort k c.
Proof. inversion 1; subst; try done. intros _ Hn. naive_solver. Qed.
(** A short node on top of one that was changed. *)
Lemma rep_merge top k n c : rep false n c → loaded n = true →
  rep top (match n with NShort ck cv _ => NShort (k ++ ck) cv (newFlag cg) | _ => NShort k n (newFlag cg) end) (merge k c).
Proof. intros R L. destruct n; try done; inversion R; subst; cbn [merge]; by repeat constructor. Qed.
Lemma live_rep i ns ts : Forall2 (rep false) ns ts → live i ns = tlive i ts.
Proof.
  intros F. revert i. induction F as [|n t ns ts R F IH]; intros i; [done|]. cbn [live tlive].
  by rewrite (rep_nil_iff _ _ _ _ R), !IH.
Qed.

(** What is left of a full node after one of its children was changed. *)
Lemma collapse_rep top ns ts prefix : Forall2 (rep false) ns ts → length ts = 17%nat →
  (∀ i c, ts !! i = Some c → wf (bool_decide (i = 16%nat)) c) →
  ∃ n', match only_child ns with
        | Some pos =>
            c ←? child ns pos;
            if pos =? 16 then Ok (true, NShort [pos] c (newFlag cg))
            else
              cnode ←? resolve db cg c prefix;
              match cnode with
              | NShort ck cv _ => Ok (true, NShort (pos :: ck) cv (newFlag cg))
              | _ => Ok (true, NShort [pos] c (newFlag cg))
              end
        | None => Ok (true, NFull ns (newFlag cg))
        end = Ok (true, n') ∧ rep top n' (collapse ts) ∧ loaded n' = true.
Proof.
  intros F Hlen Wc. unfold only_child, collapse. rewrite (live_rep 0 ns ts F).
  assert (Hfull : rep top (NFull ns (newFlag cg)) (TFull ts)) by by constructor.
  destruct (tlive 0 ts) as [|pos [|pos2 l]] eqn:E; [by eexists| |by eexists].
  assert (Hpos : pos ∈ tlive 0 ts) by (rewrite E; by apply list_elem_of_singleton).
  apply elem_of_tlive in Hpos as (H0 & c & Ec & Hcn). rewrite Z.sub_0_r in Ec. rewrite Ec.
  destruct (Forall2_lookup_r _ _ _ _ _ F Ec) as (n & En & R). unfold child. rewrite En. cbn [of_opt res_bind].
  pose proof (Wc _ _ Ec) as W. destruct (Z.eqb_spec pos 16) as [->|Hne].
  - apply wf_closed_inv in W as [->|(v & -> & _)]; [done|]. eexists. split; [done|]. split; [by constructor|done].
  - assert (Hres : ∃ n', resolve db cg n prefix = Ok n' ∧ rep false n' c ∧ loaded n' = true).
    { destruct n as [| | |h|]; try by eexists. by eapply resolve_rep. }
    destruct Hres as (n' & En' & R' & L'). rewrite En'. cbn [res_bind].
    assert (Hs : (∃ ck cv f, n' = NShort ck cv f) ∨ ∀ ck cv f, n' ≠ NShort ck cv f) by (destruct n'; eauto).
    destruct Hs as [(ck & cv & f & ->)|Hs].
    + eexists. split; [done|]. split; [|done]. exact (rep_merge top [pos] _ _ R' eq_refl).
    + exists (NShort [pos] n (newFlag cg)). split; [by destruct n'; try done; destruct (Hs Key n' flags)|]. split; [|done].
      assert (Em : merge [pos] c = TShort [pos] c).
      { pose proof (rep_loaded_not_short _ _ _ R' L' Hs) as Hc. destruct c; try done. by destruct (Hc k c). }
      rewrite Em. by constructor.
Qed.

Definition delete_ok (n : node) (t : tree) : Prop := ∀ b top prefix key fuel,
  wf b t → rep top n t → key_at b key → (fuel_for n key ≤ fuel)%nat →
  ∃ d n', delete db cg fuel n prefix key = Ok (d, n') ∧ rep top n' (tdelete t key) ∧
    (d = false → tdelete t key = t) ∧ (d = true → loaded n' = true).
Lemma delete_ok_hash t : (∀ n, loaded n = true → delete_ok n t) → ∀ n, delete_ok n t.
Proof.
  intros H n. destruct (loaded n) eqn:L; [by apply H|]. destruct n as [| | |h|]; try done.
  intros b top prefix key fuel W R Hk Hf. destruct (resolve_rep b top h t prefix W R) as (n & E & R' & L').
  unfold fuel_for in Hf. cbn [loaded] in Hf. destruct fuel as [|fuel]; [lia|].
  destruct (H n L' b top prefix key fuel W R' Hk) as (d & n' & Ei & Ri & Hd & Hl); [unfold fuel_for; rewrite L'; lia|].
  cbn [delete]. rewrite E. cbn [res_bind]. rewrite Ei. cbn [res_bind].
  destruct d; [by eexists true, n'; auto|]. exists false, n. split_and!; [done|by rewrite Hd|done|done].
Qed.
Lemma delete_short k c : (∀ n, delete_ok n c) → ∀ n, loaded n = true → delete_ok n (TShort k c).
Proof.
  intros IH n L b top prefix key [|fuel] W R Hk Hf; unfold fuel_for in Hf; rewrite L in Hf; [lia|].
  destruct n as [|nk nv fl| | |]; try by inversion R. destruct (rep_short_inv _ _ _ _ _ R) as (c' & [= <- <-] & Rc & Hfl).
  pose proof W as Wb. apply wf_short_inv in Wb as [-> Hc]. cbn [delete tdelete].
  destruct (prefix_split key k) as [[E (r & ->)]|[[_ (y & s & ->)]|(p & x & r & y & s & -> & -> & Hxy & E)]].
  - rewrite E, Nat.ltb_irrefl, length_app, drop_app_length.
    destruct (wf_short_key _ _ _ _ W Hk) as (_ & Hne & Wc & Hr). destruct r as [|x r].
    { cbn [length]. rewrite Nat.add_0_r, Nat.eqb_refl. eexists true, _. split; [done|]. split; [constructor|done]. }
    rewrite (proj2 (Nat.eqb_neq _ _)) by (cbn; lia). pose proof (fuel_for_drop nv k (x :: r) Hne).
    destruct Hc as [(v & -> & (p & -> & _) & _)|(ts & -> & _ & Hn & Wts)]; [by rewrite hasTerm_app in Hr|].
    destruct (IH nv _ false (prefix ++ take (length k) (k ++ x :: r)) (x :: r) fuel Wc Rc Hr) as (d & n' & Ei & Ri & Hd & Hl); [lia|].
    rewrite Ei. cbn [res_bind]. destruct d; [|eexists false, _; rewrite Hd by done; by cbn [merge]].
    eexists true, (match n' with NShort ck cv _ => NShort (k ++ ck) cv (newFlag cg) | _ => NShort k n' (newFlag cg) end).
    split; [by destruct n'|]. split; [by apply rep_merge; auto|]. split; [done|by destruct n'].
  - by apply (wf_short_not_longer _ _ _ _ y s W) in Hk.
  - rewrite E, (proj2 (Nat.ltb_lt _ _)) by (rewrite length_app; cbn; lia). by eexists false, _.
Qed.
Lemma delete_full ts : (∀ i c, ts !! i = Some c → ∀ n, delete_ok n c) → ∀ n, loaded n = true → delete_ok n (TFull ts).
Proof.
  intros IH n L b top prefix key [|fuel] W R Hk Hf; unfold fuel_for in Hf; rewrite L in Hf; [lia|].
  destruct n as [| |ns fl| |]; try by inversion R. destruct (rep_full_inv _ _ _ _ R) as (ts' & [= <-] & F & Hfl).
  destruct (wf_full_key b ns ts _ W F Hk) as (x & r & n & c & -> & Hx & En & Ec & Rc & Wc & Hr).
  cbn [delete tdelete]. unfold child at 1. rewrite En. cbn [of_opt res_bind].
  destruct (IH _ c Ec n _ false (prefix ++ [x]) r fuel Wc Rc Hr) as (d & n' & Ei & Ri & Hd & Hl).
  { pose proof (fuel_for_drop n [x] r ltac:(done)). cbn in *. lia. }
  rewrite Ei. cbn [res_bind]. rewrite (alter_is_insert _ _ _ _ Ec).
  destruct (wf_full_inv _ _ W) as (_ & Hlen & Wch & Hlive). destruct d.
  - destruct (collapse_rep top (set_child ns x n') (<[Z.to_nat x := tdelete c r]> ts) prefix) as (m & Em & Rm & Lm).
    + by apply rep_set_child.
    + by rewrite length_insert.
    + intros i t Hi. destruct (decide (i = Z.to_nat x)) as [->|Hne].
      * rewrite list_lookup_insert_eq in Hi by lia. injection Hi as <-. by apply tdelete_spec.
      * rewrite list_lookup_insert_ne in Hi by done. by apply Wch.
    + exists true, m. split; [exact Em|by split_and!].
  - rewrite Hd by done. rewrite list_insert_id by done.
    assert (Ecol : collapse ts = TFull ts).
    { unfold collapse. pose proof (length_tlive 0 ts) as Hl'. destruct (tlive 0 ts) as [|? [|? ?]]; [done|cbn in Hl'; lia|done]. }
    rewrite Ecol. by eexists false, _.
Qed.
Lemma delete_rep t : ∀ n, delete_ok n t.
Proof.
  induction t as [|k c IH|ts IH|w] using tree_ind'; apply delete_ok_hash; intros n L.
  - intros b top prefix key [|fuel] W R Hk Hf; unfold fuel_for in Hf; rewrite L in Hf; [lia|].
    inversion R; subst; try done. eexists false, _. split; [done|]. split; [constructor|done].
  - by apply delete_short.
  - apply delete_full; [|done]. intros i c Hi. rewrite Forall_lookup in IH. by eapply IH.
  - intros b top prefix key [|fuel] W R Hk Hf; unfold fuel_for in Hf; rewrite L in Hf; [lia|].
    inversion R; subst; try done. eexists true, _. split; [done|]. split; [constructor|done].
Qed.
End Operations.
