(* ===== verification/TrieCommit.v ===== *)
(** * Hashing and committing a trie

    [hash] returns the reference hash of the tree a node represents, keeps
    its caches right and, when it is given a database, leaves every hashed
    node in it.  Collisions are excluded only among the trees of a set the
    caller fixes, those that are ever hashed. *)

From S2P Require Import Prelude BigMath Rlp Interfaces TrieEncoding Trie TrieTree TrieHash TrieRep.

Section Commit.
Context {CRY : Crypto}.

(** ** Databases that grow *)

(** The byte strings of a set have hashes of their own, none of them zero. *)
Definition collision_free (world : bytes → Prop) : Prop :=
  (∀ a b, world a → world b → Keccak256Hash a = Keccak256Hash b → a = b) ∧ ∀ a, world a → Keccak256Hash a ≠ 0.
(** The encodings of the nodes of a tree. *)
Definition in_world (world : bytes → Prop) (t : tree) : Prop := ∀ s, s ∈ subtrees t → is_node s = true → world (blob s).
(** The memory holds encodings of the world, under their hashes. *)
Definition db_from (world : bytes → Prop) (db : Database) : Prop :=
  ∀ h c, nodes db !! h = Some c → h = 0 ∨ ∃ b, world b ∧ Keccak256Hash b = h ∧ reads c b.
Definition extends (db db' : Database) : Prop := nodes db ⊆ nodes db' ∧ diskdb db' = diskdb db.
#[global] Instance extends_preorder : PreOrder extends.
Proof.
  split; [by intros db|]. intros a b c [H1 E1] [H2 E2]. split; [by etrans|by rewrite E2].
Qed.

Lemma in_world_child world k c : in_world world (TShort k c) → in_world world c.
Proof. intros W s Hs. apply W. by apply subtrees_short. Qed.
Lemma in_world_children world ts i c : in_world world (TFull ts) → ts !! i = Some c → in_world world c.
Proof. intros W Hi s Hs. apply W. by eapply subtrees_full. Qed.
Lemma in_world_self world t : in_world world t → is_node t = true → world (blob t).
Proof. intros W. apply W, subtrees_self. Qed.
Lemma big_node t : big t = true → is_node t = true.
Proof. unfold big. by intros [? _]%andb_prop. Qed.

Section Growth.
Variable world : bytes → Prop.
Context (Hfree : collision_free world).

(** What is read under the hash of an encoding of the world. *)
Lemma db_from_reads db b c : db_from world db → world b → nodes db !! Keccak256Hash b = Some c → reads c b.
Proof.
  intros F W E. destruct (F _ _ E) as [H|(b' & W' & Eb & R)]; [by apply Hfree in W|].
  apply Hfree in Eb; [by subst|done|done].
Qed.
Lemma has_node_extends db db' t : extends db db' → db_from world db' → world (blob t) → has_node db t → has_node db' t.
Proof.
  intros [Hsub Hd] F W [He H]. split; [done|]. destruct (nodes db' !! node_key t) as [c|] eqn:E.
  - by eapply db_from_reads.
  - destruct (nodes db !! node_key t) as [c|] eqn:E'; [|by rewrite Hd].
    apply (lookup_weaken _ (nodes db')) in E'; [|done]. by rewrite E in E'.
Qed.
Lemma holds_extends db db' t : extends db db' → db_from world db' → in_world world t → holds db t → holds db' t.
Proof. intros X F W H s Hs Hb. eapply has_node_extends; eauto using big_node. Qed.
Lemma stored_extends db db' t : extends db db' → db_from world db' → in_world world t → is_node t = true → stored db t → stored db' t.
Proof. intros X F W Hn [H1 H2]. split; [by eapply holds_extends|by eapply has_node_extends; [..|by apply in_world_self|]]. Qed.
Lemma flag_ok_extends db db' top f t : extends db db' → db_from world db' → in_world world t → is_node t = true →
  flag_ok db top f t → flag_ok db' top f t.
Proof.
  unfold flag_ok. destruct (fl_hash f); [|done]. intros X F W Hn (? & ? & Hs). split_and!; [done|done|].
  intros Hd. eapply stored_extends; eauto.
Qed.
Lemma rep_extends db db' t : extends db db' → db_from world db' → in_world world t → ∀ top n, rep db top n t → rep db' top n t.
Proof.
  intros X F. induction t as [|k c IH|ts IH|v] using tree_ind'; intros W top n R; inversion R; subst; try by constructor.
  - constructor; [|by eapply flag_ok_extends]. apply IH; [|done]. by eapply in_world_child.
  - constructor; [done|done|done|]. by eapply stored_extends.
  - constructor; [|by eapply flag_ok_extends]. rewrite Forall_lookup in IH. apply Forall2_lookup. intros i.
    match goal with H : Forall2 _ _ _ |- _ => apply Forall2_lookup with (i := i) in H; inversion H end; constructor.
    eapply IH; [done| |done]. by eapply in_world_children.
  - constructor; [done|done|done|]. by eapply stored_extends.
Qed.

(** [insert] of the database, for an encoding of the world. *)
Lemma db_insert_ok db c b : db_from world db → world b → reads c b →
  extends db (db_insert (Keccak256Hash b) c db) ∧ db_from world (db_insert (Keccak256Hash b) c db) ∧
  ∃ c', nodes (db_insert (Keccak256Hash b) c db) !! Keccak256Hash b = Some c' ∧ reads c' b.
Proof.
  intros F W R. unfold db_insert. destruct (nodes db !! Keccak256Hash b) as [c'|] eqn:E.
  - split_and!; [done|done|]. exists c'. split; [done|]. by eapply db_from_reads.
  - split_and!; [split; [by apply insert_subseteq|done]| |exists c; split; [by apply lookup_insert_eq|done]].
    intros h c'. cbn [nodes]. rewrite lookup_insert_Some. intros [[<- <-]|[_ H]]; [right; by exists b|by apply F].
Qed.
Lemma db_insert_node db t : db_from world db → world (blob t) → wf false t → is_node t = true → encodable t →
  let db' := db_insert (node_key t) (CNode (cnode t)) db in extends db db' ∧ db_from world db' ∧ has_node db' t.
Proof.
  intros F W Wt Hn He. destruct (db_insert_ok db (CNode (cnode t)) (blob t) F W) as (X & F' & c & E & R); [by exists t|].
  split; [exact X|]. split; [exact F'|]. split; [done|]. change (node_key t) with (Keccak256Hash (blob t)). by rewrite E.
Qed.
End Growth.

(** ** Hashing *)

(** What a node becomes in its parent, or at the root. *)
Definition out (top : bool) (t : tree) : rnode := if top || big t then RHash (tree_hash t) else cnode t.
Lemma out_child t : out false t = shrink (cnode t).
Proof. by rewrite shrink_cnode. Qed.
Definition all_encodable (t : tree) : Prop := ∀ s, s ∈ subtrees t → is_node s = true → encodable s.
Lemma holds_short_intro db k c : holds db c → (big (TShort k c) = true → has_node db (TShort k c)) → holds db (TShort k c).
Proof. intros H Hb s [->|Hs]%elem_of_cons Hbig; [by apply Hb|by apply H]. Qed.
Lemma holds_full_intro db ts : (∀ i c, ts !! i = Some c → holds db c) → (big (TFull ts) = true → has_node db (TFull ts)) → holds db (TFull ts).
Proof.
  intros H Hb s [->|Hs]%elem_of_cons Hbig; [by apply Hb|].
  apply list_elem_of_In, in_concat in Hs as (l & Hl & Hs). apply in_map_iff in Hl as (c & <- & Hc).
  apply list_elem_of_In, list_elem_of_lookup in Hc as [i Hi]. apply list_elem_of_In in Hs. by eapply H.
Qed.

Section Hashing.
(** [real]: hashing into a database; only then do collisions matter. *)
Variables (cg limit : Z) (real : bool) (world : bytes → Prop).
Context (Hfree : real = true → collision_free world).
Definition from (db : Database) : Prop := real = true → db_from world db.
Definition opt (db : Database) : option Database := if real then Some db else None.

(** The database after a step that stores what [P] says. *)
Definition grows (db db' : Database) (P : Database → Prop) : Prop :=
  extends db db' ∧ from db' ∧ (real = true → P db') ∧ (real = false → db' = db).
Lemma grows_refl db (P : Database → Prop) : from db → (real = true → P db) → grows db db P.
Proof. by intros. Qed.
Lemma grows_extends db db' P : grows db db' P → extends db db' ∧ from db'.
Proof. by intros (? & ? & _). Qed.
Lemma grows_rep db db' P top n t : grows db db' P → in_world world t → rep db top n t → rep db' top n t.
Proof.
  intros (X & F & _ & E) W R. unfold from in F. destruct real.
  - by eapply (rep_extends world); auto.
  - by rewrite E.
Qed.
Lemma grows_flag db db' P top f t : grows db db' P → in_world world t → is_node t = true → flag_ok db top f t → flag_ok db' top f t.
Proof.
  intros (X & F & _ & E) W Hn R. unfold from in F. destruct real.
  - by eapply (flag_ok_extends world); auto.
  - by rewrite E.
Qed.
Lemma real_holds db db' t : real = true → extends db db' → from db' → in_world world t → holds db t → holds db' t.
Proof. intros E X F W. eapply (holds_extends world); auto. Qed.
(** Two steps, of which the second keeps what the first stored. *)
Lemma grows_trans db1 db2 db3 (P Q : Database → Prop) : grows db1 db2 P → grows db2 db3 Q →
  (real = true → P db2 → Q db3 → P db3) → grows db1 db3 (λ db, P db ∧ Q db).
Proof.
  intros (X1 & F1 & H1 & E1) (X2 & F2 & H2 & E2) HP. split_and!; [by etrans|done| |].
  - intros E. auto.
  - intros E. rewrite E2, E1; auto.
Qed.
Lemma grows_impl db db' (P Q : Database → Prop) : grows db db' P → (P db' → Q db') → grows db db' Q.
Proof. intros (X & F & H & E) HPQ. split_and!; auto. Qed.

Lemma store_ok top n t db : is_node t = true → simplifyNode n = cnode t → (∀ h, (cache n).1 = Some h → h = tree_hash t) →
  encodable t → world (blob t) → wf false t → from db →
  ∃ db', store n (opt db) top = Ok (if top || big t then NHash (tree_hash t) else n, opt db') ∧
    grows db db' (λ db, top || big t = true → has_node db t).
Proof.
  intros Hn En Hh [Hok Hu] W Wt F.
  assert (Ev : EncodeToBytes (node_val n) = Ok (blob t)).
  { rewrite node_val_simplify, En. by apply EncodeToBytes_rlp. }
  assert (Ebig : (zlen (blob t) <? 32) && negb top = negb (top || big t)).
  { unfold big. rewrite Hn. cbn [andb]. rewrite Z.ltb_antisym, negb_orb. by rewrite andb_comm. }
  assert (Eh : match (cache n).1 with Some h => h | None => Keccak256 (blob t) end = tree_hash t).
  { destruct (cache n).1 eqn:Ef; [by apply Hh|done]. }
  assert (Est : store n (opt db) top = if negb (top || big t) then Ok (n, opt db)
    else Ok (NHash (tree_hash t), option_map (db_insert (node_key t) (CNode (cnode t))) (opt db))).
  { unfold store, node_key. by destruct n; try (by destruct t); rewrite Ev, Ebig, Eh, <- En. }
  rewrite Est. destruct (top || big t) eqn:Eb; cbn [negb]; [|exists db; split; [done|by apply grows_refl]].
  exists (if real then db_insert (node_key t) (CNode (cnode t)) db else db). unfold opt, grows, from in *. destruct real; [|done].
  by destruct (db_insert_node world (Hfree eq_refl) db t (F eq_refl) W Wt Hn) as (X & F' & H).
Qed.

(** The hash is stored and cached, once the children are done. *)
Lemma rep_set_hash db top n t (h : node) (clean : bool) : rep db top n t → loaded n = true →
  (∀ f, flag_ok db top f t → cache n = (fl_hash f, dirty f) →
    flag_ok db top (mkFlag (match h with NHash h => Some h | _ => None end) (gen f) (if clean then false else dirty f)) t) →
  rep db top (set_hash n h clean) t.
Proof. intros R L Hf. destruct R; try done; cbn [set_hash]; constructor; auto. Qed.
Definition finish (top : bool) (nc nn : node) (db : option Database) : tres (node * node * option Database) :=
  s ←? store nc db top;
  let '(hashed, db) := s in
  Ok (hashed, set_hash nn hashed (match db with Some _ => true | None => false end), db).
Definition hashed (top : bool) (t : tree) (db : Database) : Prop := holds db t ∧ (top || big t = true → has_node db t).
Lemma finish_ok top t nc nn db : is_node t = true → encodable t → in_world world t → wf false t → from db →
  simplifyNode nc = cnode t → cache nc = cache nn → loaded nn = true → rep db top nn t →
  ((cache nn).1 = None ∨ real = true) →
  (real = true → ∀ db', extends db db' → from db' → (big t = true → has_node db' t) → holds db' t) →
  ∃ hn cn db', finish top nc nn (opt db) = Ok (hn, cn, opt db') ∧ simplifyNode hn = out top t ∧ rep db' top cn t ∧
    grows db db' (hashed top t).
Proof.
  intros Hn He W Wt F En Ec L R Hwalk Hbelow.
  assert (Hh : ∀ h, (cache nc).1 = Some h → h = tree_hash t).
  { rewrite Ec. intros h. destruct R; try done; unfold flag_ok in *; cbn [cache fst]; destruct (fl_hash f); naive_solver. }
  destruct (store_ok top nc t db Hn En Hh He (in_world_self _ _ W Hn) Wt F) as (db' & Es & G).
  assert (G' : grows db db' (hashed top t)).
  { destruct G as (X & F' & Hr & Hnr). split_and!; [done|done| |done]. intros E. split; [|by auto].
    apply Hbelow; [done|done|done|]. intros Hb. apply Hr; [done|]. by rewrite Hb, orb_true_r. }
  eexists _, _, db'. unfold finish. rewrite Es. cbn [res_bind]. split; [done|]. split; [unfold out; by destruct (top || big t)|].
  split; [|done]. apply rep_set_hash; [by eapply grows_rep|done|]. intros f Hf Ef. rewrite Ef in Hwalk. cbn [fst] in Hwalk.
  unfold flag_ok in *. unfold opt. destruct G' as (_ & _ & Hr & Hnr).
  destruct (top || big t) eqn:Eb; cbn [fl_hash dirty].
  - split_and!; [done|by intros ->|]. destruct real; [intros _; destruct (Hr eq_refl); split; auto|].
    intros Hd. destruct Hwalk as [E|E]; [|done]. rewrite E in Hf. destruct (Hf Hd) as [-> Hb]. by rewrite Hb in Eb.
  - apply orb_false_iff in Eb as [-> Hb]. by destruct nc; try by destruct t.
Qed.

Definition hashes (t : tree) : Prop := ∀ top n db,
  wf false t → is_node t = true → in_world world t → all_encodable t → from db → rep db top n t →
  ∃ hn cn db', hash cg limit n (opt db) top = Ok (hn, cn, opt db') ∧ simplifyNode hn = out top t ∧ rep db' top cn t ∧
    grows db db' (hashed top t).

(** A node in the cache, not walked. *)
Lemma hashed_stored top t db : stored db t → hashed top t db.
Proof. by intros [H1 H2]. Qed.
Lemma out_big top t : (top = false → big t = true) → out top t = RHash (tree_hash t).
Proof. unfold out. intros H. destruct top; [done|]. by rewrite H. Qed.
Lemma hashes_hash_node h t : ∀ top db, is_node t = true → from db → rep db top (NHash h) t →
  ∃ hn cn db', hash cg limit (NHash h) (opt db) top = Ok (hn, cn, opt db') ∧ simplifyNode hn = out top t ∧ rep db' top cn t ∧
    grows db db' (hashed top t).
Proof.
  intros top db Hn F R. inversion R as [| | | |? ? ? -> _ Htop Hst]; subst.
  exists (NHash (tree_hash t)), (NHash (tree_hash t)), db. split; [done|]. split; [by rewrite out_big|]. split; [done|].
  apply grows_refl; [done|]. intros _. by apply hashed_stored.
Qed.
(** A short or full node, whose children are done by [hashChildren]. *)
Definition children_done (top : bool) (n : node) (t : tree) (db : Database) : Prop :=
  ∃ nc nn db1, hashChildren (λ c db, hash cg limit c db false) n (opt db) = Ok (nc, nn, opt db1) ∧
    simplifyNode nc = cnode t ∧ cache nc = cache n ∧ cache nn = cache n ∧ loaded nn = true ∧ rep db1 top nn t ∧
    extends db db1 ∧ from db1 ∧ (real = false → db1 = db) ∧
    (real = true → ∀ db', extends db1 db' → from db' → (big t = true → has_node db' t) → holds db' t).
Lemma hash_walk top n t db f : is_node t = true → encodable t → in_world world t → wf false t → (fl_hash f = None ∨ real = true) →
  cache n = (fl_hash f, dirty f) → children_done top n t db →
  ∃ hn cn db', (ch ←? hashChildren (λ c db, hash cg limit c db false) n (opt db);
                let '(collapsed, cached, db) := ch in finish top collapsed cached db) = Ok (hn, cn, opt db') ∧
    simplifyNode hn = out top t ∧ rep db' top cn t ∧ grows db db' (hashed top t).
Proof.
  intros Hn He W Wt Hf Ec (nc & nn & db1 & Eh & En & Ec1 & Ec2 & L & R & X & F & Hreal & Hbelow).
  rewrite Eh. cbn [res_bind].
  destruct (finish_ok top t nc nn db1 Hn He W Wt F En) as (hn & cn & db' & Ef & Es & Rn & (X' & F' & Hr & Hnr));
    [by rewrite Ec1, Ec2|done|done|by rewrite Ec2, Ec|done|].
  exists hn, cn, db'. split; [done|]. split; [done|]. split; [done|]. split_and!; [by etrans|done|done|].
  intros E. by rewrite Hnr, Hreal.
Qed.
Lemma hash_loaded t n : is_node t = true → loaded n = true →
  (∀ top db, wf false t → in_world world t → all_encodable t → from db → rep db top n t → children_done top n t db) →
  ∀ top db, wf false t → in_world world t → all_encodable t → from db → rep db top n t →
  ∃ hn cn db', hash cg limit n (opt db) top = Ok (hn, cn, opt db') ∧ simplifyNode hn = out top t ∧ rep db' top cn t ∧
    grows db db' (hashed top t).
Proof.
  intros Hn L Hch top db Wt W A F R. pose proof (Hch top db Wt W A F R) as C.
  assert (He : encodable t) by (apply A; [apply subtrees_self|done]).
  assert (Hf : ∃ f, cache n = (fl_hash f, dirty f) ∧ flag_ok db top f t ∧
    hash cg limit n (opt db) top =
      match fl_hash f, opt db with
      | Some h, None => Ok (NHash h, n, opt db)
      | Some h, Some _ =>
          if canUnload n cg limit then Ok (NHash h, NHash h, opt db)
          else if negb (dirty f) then Ok (NHash h, n, opt db)
          else ch ←? hashChildren (λ c db, hash cg limit c db false) n (opt db);
               let '(collapsed, cached, db) := ch in finish top collapsed cached db
      | None, _ => ch ←? hashChildren (λ c db, hash cg limit c db false) n (opt db);
                   let '(collapsed, cached, db) := ch in finish top collapsed cached db
      end ∧ (canUnload n cg limit = true → dirty f = false)).
  { inversion R; subst; try done; exists f; (split; [done|]; split; [done|]; split;
      [cbn [hash cache]; by destruct (fl_hash f), (opt db)|]);
      cbn [canUnload]; unfold flag_canUnload; by destruct (dirty f). }
  destruct Hf as (f & Ec & Hfl & Eh & Hun). rewrite Eh. clear Eh.
  destruct (fl_hash f) as [h|] eqn:Efh; [|by apply (hash_walk top n t db f); auto; rewrite Efh; auto].
  unfold flag_ok in Hfl. rewrite Efh in Hfl. destruct Hfl as (-> & Hbig & Hst).
  assert (Hkeep : ∀ n', (real = true → dirty f = false) → rep db top n' t →
    ∃ hn cn db', Ok (E := trieerror) (NHash (tree_hash t), n', opt db) = Ok (hn, cn, opt db') ∧ simplifyNode hn = out top t ∧ rep db' top cn t ∧
    grows db db' (hashed top t)).
  { intros n' Hd R'. exists (NHash (tree_hash t)), n', db. split; [done|]. split; [by rewrite out_big|]. split; [done|].
    apply grows_refl; [done|]. intros E. apply hashed_stored. auto. }
  destruct (opt db) as [db0|] eqn:Eo; rewrite <- Eo in *; [|by apply Hkeep; [unfold opt in Eo; by destruct real|done]].
  destruct (canUnload n cg limit); [apply Hkeep; [auto|constructor; auto]|].
  destruct (dirty f) eqn:Ed; cbn [negb]; [|by apply Hkeep].
  apply (hash_walk top n t db f); auto; [|by rewrite Efh, Ed]. right. unfold opt in Eo. by destruct real.
Qed.

(** ** Children *)

Lemma encodable_child k c : all_encodable (TShort k c) → all_encodable c.
Proof. intros A s Hs. apply A. by apply subtrees_short. Qed.
Lemma encodable_children ts i c : all_encodable (TFull ts) → ts !! i = Some c → all_encodable c.
Proof. intros A Hi s Hs. apply A. by eapply subtrees_full. Qed.
Lemma holds_leaf db t : is_node t = false → holds db t.
Proof. intros Hn s Hs Hb. destruct t; try done; apply list_elem_of_singleton in Hs as ->; done. Qed.

Lemma children_short k c : (is_node c = true → hashes c) → ∀ n top db, wf false (TShort k c) → in_world world (TShort k c) →
  all_encodable (TShort k c) → from db → loaded n = true → rep db top n (TShort k c) → children_done top n (TShort k c) db.
Proof.
  intros IH n top db Wt W A F L R. destruct n as [|nk nv f| | |]; try by inversion R.
  destruct (rep_short_inv db _ _ _ _ _ R) as (c' & [= <- <-] & Rc & Hfl). pose proof (in_world_child _ _ _ W) as Wc.
  unfold children_done. cbn [hashChildren]. apply wf_short_inv in Wt as [_ [(v & -> & _)|(ts & -> & _ & _ & Wts)]].
  - inversion Rc; subst; [|done]. exists (NShort (hexToCompact k) (NValue v) f), (NShort k (NValue v) f), db.
    split_and!; try done. intros _ db' X F'. apply holds_short_intro. by apply holds_leaf.
  - destruct (IH eq_refl false nv db Wts eq_refl Wc (encodable_child _ _ A) F Rc) as (hn & cn & db1 & Eh & Es & R1 & G).
    pose proof G as (X & F1 & Hr & Hnr).
    exists (NShort (hexToCompact k) hn f), (NShort k cn f), db1.
    split; [destruct nv; try (by inversion Rc); by rewrite Eh|].
    split; [cbn [simplifyNode]; by rewrite Es, out_child|]. split_and!; try done.
    + constructor; [done|]. by eapply grows_flag.
    + intros E db' X' F'. apply holds_short_intro. eapply real_holds; [done|done|done|done|]. by apply Hr.
Qed.

Definition child_result (i : nat) (n : node) (db : option Database) : tres (node * node * option Database) :=
  match n with
  | NNil => Ok (n, n, db)
  | _ => if (i <? 16)%nat then hash cg limit n db false else Ok (n, n, db)
  end.
Lemma child_hash i n c db : (is_node c = true → hashes c) → wf (bool_decide (i = 16%nat)) c → (i < 17)%nat → in_world world c → all_encodable c →
  from db → rep db false n c →
  ∃ hc cc db1, child_result i n (opt db) = Ok (hc, cc, opt db1) ∧ simplifyNode hc = shrink (cnode c) ∧ rep db1 false cc c ∧
    grows db db1 (λ db, holds db c).
Proof.
  intros IH Wc Hi W A F R. assert (Hsame : is_node c = false → ∃ hc cc db1, Ok (E := trieerror) (n, n, opt db) = Ok (hc, cc, opt db1) ∧
    simplifyNode hc = shrink (cnode c) ∧ rep db1 false cc c ∧ grows db db1 (λ db, holds db c)).
  { intros Hn. exists n, n, db. split; [done|]. split; [inversion R; subst; first [done|congruence]|]. split; [done|].
    apply grows_refl; [done|]. intros _. by apply holds_leaf. }
  destruct (is_node c) eqn:Hn.
  - assert (Hi16 : i ≠ 16%nat) by (intros ->; by apply wf_closed_inv in Wc as [->|(v & -> & _)]).
    rewrite bool_decide_eq_false_2 in Wc by done.
    destruct (IH eq_refl false n db Wc Hn W A F R) as (hn & cn & db1 & Eh & Es & R1 & G).
    exists hn, cn, db1. split; [|split; [by rewrite Es, out_child|split; [done|]]].
    + unfold child_result. destruct (Nat.ltb_spec i 16); [|lia]. by destruct n; try by inversion R; subst.
    + eapply grows_impl; [done|]. by intros [? _].
  - specialize (Hsame eq_refl). unfold child_result. inversion R; subst; try congruence; try done.
    inversion Wc as [|w Hw E| | |]; subst. symmetry in E. apply bool_decide_eq_true in E. by subst i.
Qed.
Lemma branch_hash ts : ∀ i ns db, (i + length ts = 17)%nat → Forall (λ c, is_node c = true → hashes c) ts →
  (∀ j c, ts !! j = Some c → wf (bool_decide ((i + j)%nat = 16%nat)) c ∧ in_world world c ∧ all_encodable c) →
  from db → Forall2 (rep db false) ns ts →
  ∃ hcs ccs db1, hashBranch (λ c db, hash cg limit c db false) i ns (opt db) = Ok (hcs, ccs, opt db1) ∧
    map simplifyNode hcs = map (λ c, shrink (cnode c)) ts ∧ Forall2 (rep db1 false) ccs ts ∧
    grows db db1 (λ db, Forall (holds db) ts).
Proof.
  induction ts as [|c ts IHts]; intros i ns db Hlen IH Hts F R; inversion R as [|n ? ns' ? Rn Rns]; subst.
  { exists [], [], db. split; [done|]. split; [done|]. split; [done|]. by apply grows_refl. }
  apply Forall_cons in IH as [IHc IH]. destruct (Hts 0%nat c eq_refl) as (Wc & W & A). rewrite Nat.add_0_r in Wc. cbn in Hlen.
  destruct (child_hash i n c db IHc Wc ltac:(lia) W A F Rn) as (hc & cc & db1 & Ec & Es & Rc & G1).
  destruct (grows_extends _ _ _ G1) as [X1 F1].
  destruct (IHts (S i) ns' db1) as (hcs & ccs & db2 & Ecs & Ess & Rcs & G2); [lia|done| |done| |].
  { intros j t Hj. rewrite Nat.add_succ_l, <- Nat.add_succ_r. by apply (Hts (S j)). }
  { apply Forall2_lookup. intros j. apply Forall2_lookup with (i := j) in Rns.
    destruct (ts !! j) as [t|] eqn:Ej; inversion Rns; subst; constructor. destruct (Hts (S j) t Ej) as (_ & Wt & _). by eapply grows_rep. }
  exists (hc :: hcs), (cc :: ccs), db2. cbn [hashBranch]. fold (child_result i n (opt db)). rewrite Ec. cbn [res_bind]. rewrite Ecs. cbn [res_bind].
  split; [done|]. split; [cbn; by rewrite Es, Ess|]. destruct (grows_extends _ _ _ G2) as [X2 F2].
  split; [constructor; [by eapply grows_rep|done]|].
  eapply grows_impl.
  - eapply grows_trans; [exact G1|exact G2|]. cbn. intros E H _. by eapply real_holds.
  - cbn. intros [? ?]. by constructor.
Qed.
Lemma children_full ts : Forall (λ c, is_node c = true → hashes c) ts → ∀ n top db, wf false (TFull ts) → in_world world (TFull ts) →
  all_encodable (TFull ts) → from db → loaded n = true → rep db top n (TFull ts) → children_done top n (TFull ts) db.
Proof.
  intros IH n top db Wt W A F L R. destruct n as [| |ns f| |]; try by inversion R.
  destruct (rep_full_inv db _ _ _ _ R) as (ts' & [= <-] & Rc & Hfl). apply wf_full_inv in Wt as (_ & Hlen & Wch & _).
  destruct (branch_hash ts 0%nat ns db) as (hcs & ccs & db1 & Eh & Es & R1 & G); [done|done| |done|done|].
  { intros j c Hj. split_and!; [by apply Wch|by eapply in_world_children|by eapply encodable_children]. }
  pose proof G as (X & F1 & Hr & Hnr). unfold children_done. cbn [hashChildren]. rewrite Eh. exists (NFull hcs f), (NFull ccs f), db1.
  split; [done|]. split; [cbn [simplifyNode]; by rewrite Es|]. split_and!; try done.
  - constructor; [done|]. by eapply grows_flag.
  - intros E db' X' F'. apply holds_full_intro. intros i c Hi.
    eapply real_holds; [done|done|done|by eapply in_world_children|]. specialize (Hr E). rewrite Forall_lookup in Hr. by eapply Hr.
Qed.

(** Hashing gives the reference hash and keeps what the node represents. *)
Lemma hash_ok t : is_node t = true → hashes t.
Proof.
  induction t as [|k c IH|ts IH|v] using tree_ind'; try done; intros _ top n db Wt Hn W A F R;
    (destruct (loaded n) eqn:L; [|destruct n as [| | |h|]; try done; by apply hashes_hash_node]).
  - apply hash_loaded; try done. intros ? ? ? ? ? ? ?. by apply children_short.
  - apply hash_loaded; try done. intros ? ? ? ? ? ? ?. by apply children_full.
Qed.
End Hashing.
End Commit.
