(* ===== verification/TrieMap.v ===== *)
(** * Tries as maps

    The tree of a map, the abstract operations on it, and what it means that
    a trie over a database represents a map. *)

From S2P Require Import Prelude BigMath Rlp Interfaces TrieEncoding Trie TrieTree TrieHash TrieRep TrieCommit.

(** ** The content of a tree *)

Definition content (t : tree) (m : bmap) : Prop :=
  wf false t ∧ ∀ hk v, hex_key hk → (tget t hk = Some v ↔ ∃ k, is_bytes k ∧ hk = keybytesToHex k ∧ m !! k = Some v).

Lemma content_get t m k : content t m → is_bytes k → tget t (keybytesToHex k) = m !! k.
Proof.
  intros [_ H] Hk. apply option_eq. intros v. rewrite H by by apply keybytesToHex_hex. split.
  - intros (k' & Hk' & E & Hm). apply keybytesToHex_inj in E; [|done|done]. by subst.
  - intros Hm. by exists k.
Qed.
Lemma content_nil : content TNil ∅.
Proof. split; [constructor|]. intros hk v _. split; [done|]. intros (k & _ & _ & Hk). by rewrite lookup_empty in Hk. Qed.
Lemma content_insert t m (k v : bytes) : content t m → is_bytes k → v ≠ [] →
  content (tinsert t (keybytesToHex k) (TValue v)) (<[k:=v]> m).
Proof.
  intros [W H] Hk Hv. pose proof (keybytesToHex_hex k Hk) as Hh. destruct (tinsert_spec t false _ v W Hh Hv) as (W' & _ & Hg).
  split; [done|]. intros hk w Hhk. rewrite Hg by done. destruct (decide (hk = keybytesToHex k)) as [->|Hne].
  - split.
    + intros [= ->]. exists k. by rewrite lookup_insert_eq.
    + intros (k' & Hk' & E & Hm). apply keybytesToHex_inj in E; [|done|done]. subst k'. by rewrite lookup_insert_eq in Hm.
  - rewrite H by done. split; intros (k' & Hk' & E & Hm); exists k'; (split; [done|]; split; [done|]).
    + rewrite lookup_insert_ne; [done|]. by intros ->.
    + rewrite lookup_insert_ne in Hm; [done|]. by intros ->.
Qed.
Lemma content_delete t m (k : bytes) : content t m → is_bytes k → content (tdelete t (keybytesToHex k)) (base.delete k m).
Proof.
  intros [W H] Hk. pose proof (keybytesToHex_hex k Hk) as Hh. destruct (tdelete_spec t false _ W Hh) as (W' & Hg).
  split; [done|]. intros hk w Hhk. rewrite Hg by done. destruct (decide (hk = keybytesToHex k)) as [->|Hne].
  - split; [done|]. intros (k' & Hk' & E & Hm). apply keybytesToHex_inj in E; [|done|done]. subst k'. by rewrite lookup_delete_eq in Hm.
  - rewrite H by done. split; intros (k' & Hk' & E & Hm); exists k'; (split; [done|]; split; [done|]).
    + rewrite lookup_delete_ne; [done|]. by intros ->.
    + rewrite lookup_delete_ne in Hm; [done|]. by intros ->.
Qed.
(** A map has one tree. *)
Lemma content_unique t1 t2 m : content t1 m → content t2 m → t1 = t2.
Proof.
  intros [W1 H1] [W2 H2]. apply (tree_unique t1 false t2 W1 W2). intros hk Hhk. apply option_eq. intros v. by rewrite H1, H2.
Qed.

(** ** The tree of a map *)

Definition tree_of (m : bmap) : tree := map_fold (λ k v t, tinsert t (keybytesToHex k) (TValue v)) TNil m.
Lemma content_tree_of m : fits m → content (tree_of m) m.
Proof.
  apply (map_fold_weak_ind (λ t m, fits m → content t m)).
  - intros _. apply content_nil.
  - intros k v m' t Hm IH Hf. apply map_Forall_insert in Hf as [(Hk & _ & Hv & _) Hf]; [|done].
    apply content_insert; [by apply IH|done|done].
Qed.

(** ** Sizes *)

Definition bounded (b : bool) (t : tree) : Prop :=
  ∀ k v, key_at b k → tget t k = Some v → zlen k < 2 ^ 34 ∧ is_bytes v ∧ zlen v < 2 ^ 34.
Lemma content_bounded t m : content t m → fits m → bounded false t.
Proof.
  intros [_ H] Hf hk v Hhk Hv. apply H in Hv as (k & Hk & -> & Hm); [|done].
  destruct (Hf k v Hm) as (_ & Hbv & _ & Hlk & Hlv). split; [|split; [done|lia]].
  unfold keybytesToHex, zlen in *. rewrite length_app, length_nibbles_of. cbn. lia.
Qed.
Lemma wf_short_extend b k c r : wf b (TShort k c) → key_at (hasTerm k) r → key_at b (k ++ r).
Proof.
  intros W Hr. apply wf_short_inv in W as [-> [(w & -> & Hk & _)|(ts & -> & _ & Hn & _)]].
  - destruct Hk as (p & -> & Hp). rewrite hasTerm_app in Hr. cbn in Hr. subst r. rewrite app_nil_r. by exists p.
  - rewrite hasTerm_nibbles in Hr by done. by apply hex_key_app.
Qed.
Lemma bounded_short b k c : wf b (TShort k c) → bounded b (TShort k c) → bounded (hasTerm k) c.
Proof.
  intros W H r v Hr Hv. pose proof (wf_short_extend _ _ _ _ W Hr) as Hkr.
  destruct (H (k ++ r) v Hkr) as (Hl & ? & ?); [by rewrite tget_short_app|]. rewrite zlen_app in Hl.
  pose proof (zlen_nonneg k). split_and!; [lia|done|lia].
Qed.
Lemma bounded_short_key b k c : wf b (TShort k c) → c ≠ TNil → wf (hasTerm k) c → bounded b (TShort k c) → zlen k < 2 ^ 34.
Proof.
  intros W Hc Wc H. destruct (wf_has_key _ c Wc Hc) as (r & v & Hr & Hv).
  pose proof (wf_short_extend _ _ _ _ W Hr) as Hkr.
  destruct (H (k ++ r) v Hkr) as (Hl & _); [by rewrite tget_short_app|]. rewrite zlen_app in Hl. pose proof (zlen_nonneg r). lia.
Qed.
Lemma bounded_full ts i c : ts !! i = Some c → length ts = 17%nat → bounded false (TFull ts) → bounded (bool_decide (i = 16%nat)) c.
Proof.
  intros Hi Hlen H r v Hr Hv. pose proof (lookup_lt_Some _ _ _ Hi).
  assert (Hk : hex_key (Z.of_nat i :: r)) by (apply key_head_intro; [lia|by rewrite Nat2Z.id]).
  destruct (H (Z.of_nat i :: r) v Hk) as (Hl & ? & ?); [by rewrite tget_full, Nat2Z.id, Hi|].
  rewrite zlen_cons in Hl. split_and!; [lia|done|lia].
Qed.

Section Sizes.
Context {CRY : Crypto}.
(** What a child is in its parent. *)
Lemma cref_ok b c : wf b c → bounded b c → (is_node c = true → encodable c) →
  val_ok (cref c) ∧ zlen (rlp (cref c)) < 2 ^ 35.
Proof.
  intros W B He. unfold cref. rewrite shrink_cnode. destruct (big c) eqn:Eb.
  - cbn [in_full rnode_val val_ok rlp]. pose proof (zlen_rlp_bytes_le (tree_hash c)) as H. rewrite zlen_tree_hash in H.
    split; [apply Keccak256_bytes|]. specialize (H ltac:(lia)). lia.
  - destruct (is_node c) eqn:Hn.
    + replace (in_full (cnode c)) with (rnode_val (cnode c)) by (by destruct c). unfold big in Eb. rewrite Hn in Eb.
      cbn [andb] in Eb. boolp. destruct (He eq_refl) as [H _]. split; [done|]. fold (blob c). lia.
    + destruct c as [|k c|ts|v]; try done; [split; [constructor|by vm_compute]|].
      inversion W; subst. destruct (B [] v eq_refl eq_refl) as (_ & Hb & Hl). cbn [cnode in_full rnode_val rlp val_ok].
      split; [done|]. pose proof (zlen_rlp_bytes_le v). lia.
Qed.
Lemma zlen_concat_bound (l : list bytes) n : 0 ≤ n → Forall (λ x, zlen x ≤ n) l → zlen (concat l) ≤ n * zlen l.
Proof.
  intros Hn. induction 1 as [|x l Hx _ IH]; [change (0 ≤ n * 0); lia|]. cbn [concat]. rewrite zlen_app, zlen_cons, Z.mul_add_distr_l. lia.
Qed.
Lemma all_encodable_bounded t : ∀ b, wf b t → bounded b t → all_encodable t.
Proof.
  induction t as [|k c IH|ts IH|v] using tree_ind'; intros b W B s Hs Hn.
  - by apply list_elem_of_singleton in Hs as ->.
  - pose proof W as W'. apply wf_short_inv in W' as [-> W'].
    assert (Wc : wf (hasTerm k) c ∧ c ≠ TNil ∧ key_part k).
    { destruct W' as [(w & -> & Hk & Hw)|(ts & -> & _ & Hk & Wts)].
      - destruct Hk as (p & -> & Hp). rewrite hasTerm_app. split_and!; [by constructor|done|right; by exists p].
      - rewrite hasTerm_nibbles by done. split_and!; [done|done|by left]. }
    destruct Wc as (Wc & Hcn & Hk). pose proof (bounded_short _ _ _ W B) as Bc. pose proof (IH _ Wc Bc) as Ac.
    apply elem_of_cons in Hs as [->|Hs]; [|by apply Ac].
    destruct (cref_ok _ _ Wc Bc) as [Hok Hl]; [intros E; apply Ac; [apply subtrees_self|done]|].
    pose proof (bounded_short_key _ _ _ W Hcn Wc B) as Hkl.
    unfold encodable, blob. cbn [cnode rnode_val]. rewrite cref_val by done. split.
    { apply val_ok_list. constructor; [by apply is_bytes_hexToCompact|]. by repeat constructor. }
    assert (Hcl : zlen (hexToCompact k) ≤ zlen k + 1) by apply zlen_hexToCompact.
    pose proof (zlen_rlp_bytes_le (hexToCompact k)). 
    pose proof (zlen_rlp_list_le (rlp (VBytes (hexToCompact k)) ++ rlp (cref c))) as H2. rewrite zlen_app in H2. cbn [rlp map concat] in *.
    rewrite app_nil_r. unfold is_u64. split; [apply zlen_nonneg|]. lia.
  - apply wf_full_inv in W as (-> & Hlen & Wch & _). rewrite Forall_lookup in IH.
    assert (Hch : ∀ i c, ts !! i = Some c → all_encodable c ∧ val_ok (cref c) ∧ zlen (rlp (cref c)) < 2 ^ 35).
    { intros i c Hi. assert (Ac : all_encodable c) by (eapply IH; [done|by apply Wch|by eapply bounded_full]).
      split; [done|]. eapply cref_ok; [by apply Wch|by eapply bounded_full|]. intros E. apply Ac; [apply subtrees_self|done]. }
    apply elem_of_cons in Hs as [->|Hs].
    + unfold encodable, blob. rewrite cnode_full, rnode_val_full, map_map. change (λ x, in_full (shrink (cnode x))) with cref. split.
      { apply val_ok_list, Forall_map, Forall_lookup. intros i c Hi. by apply (Hch i c Hi). }
      cbn [rlp]. pose proof (zlen_concat_bound (map rlp (map cref ts)) (2 ^ 35) ltac:(lia)) as H1.
      assert (Hl17 : zlen (map rlp (map cref ts)) = 17) by (unfold zlen; by rewrite !length_map, Hlen). rewrite Hl17 in H1.
      specialize (H1 ltac:(apply Forall_map, Forall_map, Forall_lookup; intros i c Hi; destruct (Hch i c Hi) as (_ & _ & ?); lia)).
      pose proof (zlen_rlp_list_le (concat (map rlp (map cref ts)))) as H2. unfold is_u64. split; [apply zlen_nonneg|]. lia.
    + apply list_elem_of_In, in_concat in Hs as (l & Hl & Hs). apply in_map_iff in Hl as (c & <- & Hc).
      apply list_elem_of_In, list_elem_of_lookup in Hc as [i Hi]. apply list_elem_of_In in Hs. by apply (Hch i c Hi).
  - by apply list_elem_of_singleton in Hs as ->.
Qed.
End Sizes.
