(* ===== verification/TrieSpec.v ===== *)
(** * The contract of a trie

    A trie is a map with a root: the operations as a machine on a trie and
    its database, the abstract machine on a map, and what relates the two. *)

From S2P Require Import Prelude BigMath Rlp Interfaces TrieEncoding Trie TrieTree TrieHash TrieRep TrieCommit TrieMap.

Section Spec.
Context {CRY : Crypto}.

(** ** The two machines *)

Inductive op := OGet (k : bytes) | OUpdate (k v : bytes) | ODelete (k : bytes) | OHash | OCommit.
Inductive answer := AValue (v : option bytes) | ADone | ARoot (h : Z).

#[export] Instance op_eq_dec : EqDecision op.
Proof. solve_decision. Defined.

(** The trie, over the database it was opened on. *)
Definition state : Type := Database * Trie.
Definition step (o : op) (s : state) : tres (answer * state) :=
  let '(db, T) := s in
  match o with
  | OGet k => r ←? TryGet db k T; Ok (AValue r.1, (db, r.2))
  | OUpdate k v => T ←? TryUpdate db k v T; Ok (ADone, (db, T))
  | ODelete k => T ←? TryDelete db k T; Ok (ADone, (db, T))
  | OHash => r ←? Hash T; Ok (ARoot r.1, (db, r.2))
  | OCommit => r ←? Commit db T; let '(h, T, db) := r in Ok (ARoot h, (db, T))
  end.
Fixpoint run (ops : list op) (s : state) : tres (list answer * state) :=
  match ops with
  | [] => Ok ([], s)
  | o :: ops => r ←? step o s; let '(a, s) := r in
                r ←? run ops s; let '(l, s) := r in Ok (a :: l, s)
  end.

(** The root of a map: the reference hash of its tree. *)
Definition root_of (m : bmap) : Z := root_hash (tree_of m).
Definition update (k v : bytes) (m : bmap) : bmap := match v with [] => base.delete k m | _ => <[k:=v]> m end.
Definition spec_step (o : op) (m : bmap) : answer * bmap :=
  match o with
  | OGet k => (AValue (m !! k), m)
  | OUpdate k v => (ADone, update k v m)
  | ODelete k => (ADone, base.delete k m)
  | OHash | OCommit => (ARoot (root_of m), m)
  end.
Fixpoint spec_run (ops : list op) (m : bmap) : list answer * bmap :=
  match ops with
  | [] => ([], m)
  | o :: ops => let '(a, m) := spec_step o m in let '(l, m) := spec_run ops m in (a :: l, m)
  end.
(** The maps that are committed. *)
Fixpoint committed (ops : list op) (m : bmap) : list bmap :=
  match ops with
  | [] => []
  | o :: ops =>
      match o with OCommit => m :: committed ops m | _ => committed ops (spec_step o m).2 end
  end.

Definition key_ok (k : bytes) : Prop := is_bytes k ∧ zlen k < 2 ^ 32.
Definition op_ok (o : op) : Prop :=
  match o with
  | OGet k | ODelete k => is_bytes k
  | OUpdate k v => key_ok k ∧ key_ok v
  | OHash | OCommit => True
  end.

Definition represents (db : Database) (T : Trie) (m : bmap) : Prop :=
  ∃ t, rep db true (root T) t ∧ content t m.

(** ** Each operation *)

Lemma key_fuel_enough n k : (fuel_for n k ≤ key_fuel k)%nat.
Proof. unfold fuel_for, key_fuel. destruct (loaded n); lia. Qed.
Lemma TryGet_spec db T m k : represents db T m → is_bytes k →
  ∃ T', TryGet db k T = Ok (m !! k, T') ∧ represents db T' m.
Proof.
  intros (t & R & C) Hk. pose proof (keybytesToHex_hex k Hk) as Hh.
  destruct (tryGet_rep db (cachegen T) t (root T) false true (keybytesToHex k) 0%nat (key_fuel (keybytesToHex k)) (proj1 C) R Hh
    (key_fuel_enough _ _)) as (n' & d & E & R' & Hd).
  unfold TryGet. rewrite E, drop_0. cbn [res_bind]. rewrite (content_get t m k C Hk). eexists. split; [done|].
  destruct d; [by exists t|]. by exists t.
Qed.
Lemma TryDelete_spec db T m k : represents db T m → is_bytes k →
  ∃ T', TryDelete db k T = Ok T' ∧ represents db T' (base.delete k m).
Proof.
  intros (t & R & C) Hk. pose proof (keybytesToHex_hex k Hk) as Hh.
  destruct (delete_rep db (cachegen T) t (root T) false true [] (keybytesToHex k) _ (proj1 C) R Hh (key_fuel_enough _ _))
    as (d & n' & E & R' & _).
  unfold TryDelete. rewrite E. eexists. split; [done|]. eexists. split; [exact R'|]. by apply content_delete.
Qed.
Lemma TryUpdate_spec db T m k v : represents db T m → is_bytes k →
  ∃ T', TryUpdate db k v T = Ok T' ∧ represents db T' (update k v m).
Proof.
  intros Hr Hk. destruct (decide (v = [])) as [->|Hv].
  - exact (TryDelete_spec db T m k Hr Hk).
  - destruct Hr as (t & R & C). pose proof (keybytesToHex_hex k Hk) as Hh.
    destruct (insert_rep db (cachegen T) t (root T) false true [] (keybytesToHex k) v _ (proj1 C) R Hh (key_fuel_enough _ _))
      as (d & n' & E & R' & _).
    unfold TryUpdate. assert (Hz : zlen v =? 0 = false) by (destruct v; [done|]; apply Z.eqb_neq; rewrite zlen_cons; pose proof (zlen_nonneg v); lia).
    rewrite Hz, E. eexists. split; [done|]. eexists. split; [exact R'|].
    replace (update k v m) with (<[k:=v]> m) by (by destruct v). by apply content_insert.
Qed.
Lemma fits_step o m : op_ok o → fits m → fits (spec_step o m).2.
Proof.
  destruct o as [k|k v|k| |]; cbn [spec_step snd]; try done; intros Ho Hf.
  - destruct Ho as ((Hk & Hkl) & Hv & Hvl). destruct v as [|x v]; cbn [update]; [by apply map_Forall_delete|].
    by apply map_Forall_insert_2.
  - by apply map_Forall_delete.
Qed.
Lemma content_tree t m : content t m → fits m → t = tree_of m.
Proof. intros C F. eapply content_unique; [done|]. by apply content_tree_of. Qed.

Lemma hashRoot_spec real (world : bytes → Prop) db T m : (real = true → collision_free world) →
  represents db T m → fits m → in_world world (tree_of m) → from real world db →
  ∃ h cn db', hashRoot T (opt real db) = Ok (NHash h, cn, opt real db') ∧ BytesToHash h = root_of m ∧
    rep db' true cn (tree_of m) ∧ grows real world db db' (λ db, is_node (tree_of m) = true → stored db (tree_of m)).
Proof.
  intros Hfree (t & R & C) Hf W F. pose proof (content_tree t m C Hf) as ->. destruct C as [Wt C].
  destruct (is_node (tree_of m)) eqn:Hn.
  - assert (A : all_encodable (tree_of m)).
    { apply (all_encodable_bounded _ false); [done|]. eapply content_bounded; [|done]. by split. }
    destruct (hash_ok (cachegen T) (cachelimit T) real world Hfree _ Hn true (root T) db Wt Hn W A F R)
      as (hn & cn & db' & E & Es & R' & G).
    exists (tree_hash (tree_of m)), cn, db'. split.
    { unfold hashRoot. assert (Hr : root T ≠ NNil) by (intros Er; rewrite Er in R; inversion R as [? E1 E2 E3| | | |]; by rewrite <- E3 in Hn).
      destruct (root T); [done|..]; rewrite E; by destruct hn; try done; injection Es as ->. }
    split; [unfold root_of; by destruct (tree_of m)|]. split; [done|].
    eapply grows_impl; [done|]. intros [H1 H2] _. by split; [|apply H2].
  - assert (Et : tree_of m = TNil) by (destruct (tree_of m); try done; by inversion Wt). rewrite Et in *.
    exists (hash_bytes emptyRoot), NNil, db. unfold hashRoot, root_of. rewrite Et.
    inversion R; subst; [|done]. split; [done|]. split; [by vm_compute|]. split; [constructor|].
    by apply grows_refl.
Qed.
Lemma Hash_spec db T m : represents db T m → fits m → ∃ T', Hash T = Ok (root_of m, T') ∧ represents db T' m.
Proof.
  intros Hr Hf. destruct (hashRoot_spec false (λ _, True) db T m) as (h & cn & db' & E & Eh & R & _ & _ & _ & Hdb); try done.
  rewrite (Hdb eq_refl) in R. unfold Hash. cbn [opt] in E. rewrite E. cbn [res_bind]. rewrite Eh. eexists. split; [done|].
  exists (tree_of m). split; [done|by apply content_tree_of].
Qed.
(** [New] of the root of a map whose nodes are stored. *)
Lemma New_spec db m limit : fits m → (is_node (tree_of m) = true → stored db (tree_of m)) →
  (is_node (tree_of m) = true → root_of m ≠ 0 ∧ root_of m ≠ emptyRoot) →
  ∃ T, New db (root_of m) limit = Ok T ∧ represents db T m.
Proof.
  intros Hf Hs Hr. pose proof (content_tree_of m Hf) as C. pose proof (proj1 C) as Wt. unfold New.
  destruct (is_node (tree_of m)) eqn:Hn.
  - destruct (Hr eq_refl) as [H0 He]. rewrite (proj2 (Z.eqb_neq _ _) H0), (proj2 (Z.eqb_neq _ _) He). cbn [orb].
    assert (Er : root_of m = node_key (tree_of m)) by (unfold root_of; by destruct (tree_of m)).
    rewrite Er, hash_bytes_node_key.
    destruct (resolve_rep db 0 false true (tree_hash (tree_of m)) (tree_of m) [] Wt) as (n & E & R & _).
    { constructor; [done|done|done|by apply Hs]. }
    rewrite E. eexists. split; [done|]. by exists (tree_of m).
  - assert (Et : tree_of m = TNil) by (destruct (tree_of m); try done; by inversion Wt).
    assert (Er : root_of m = emptyRoot) by (unfold root_of; by rewrite Et).
    rewrite Er, orb_true_r. eexists. split; [done|]. exists TNil. split; [constructor|]. by rewrite <- Et.
Qed.

Variable world : bytes → Prop.
Context (Hfree : collision_free world).

Lemma Commit_spec db T m : represents db T m → fits m → in_world world (tree_of m) → db_from world db →
  ∃ T' db', Commit db T = Ok (root_of m, T', db') ∧ represents db' T' m ∧ extends db db' ∧ db_from world db' ∧
    (is_node (tree_of m) = true → stored db' (tree_of m)).
Proof.
  intros Hr Hf W F. destruct (hashRoot_spec true world db T m) as (h & cn & db' & E & Eh & R & X & F' & Hs & _); [done..|by intros _|].
  unfold Commit. cbn [opt] in E. rewrite E. cbn [res_bind]. rewrite Eh. eexists _, db'. split; [done|].
  split; [|split; [done|split; [by apply F'|by apply Hs]]]. exists (tree_of m). split; [done|by apply content_tree_of].
Qed.
(** The other tries over the database are kept. *)
Lemma represents_extends db db' T m : extends db db' → db_from world db' → fits m → in_world world (tree_of m) →
  represents db T m → represents db' T m.
Proof.
  intros X F Hf W (t & R & C). pose proof (content_tree t m C Hf) as ->. exists (tree_of m).
  split; [by eapply (rep_extends world)|done].
Qed.

(** ** The root binds the content *)

Lemma build m : fits m → ∃ T, represents (NewDatabase (λ _, None)) T m.
Proof.
  induction m as [|k v m Hk IH] using map_ind; intros Hf.
  { exists (mkTrie NNil 0 0), TNil. split; [constructor|apply content_nil]. }
  apply map_Forall_insert in Hf as [(? & ? & Hv & ? & ?) Hf]; [|done]. destruct (IH Hf) as [T R].
  destruct (TryUpdate_spec _ T m k v R ltac:(done)) as (T' & _ & R'). exists T'. by destruct v.
Qed.
Lemma db_from_new : db_from world (NewDatabase (λ _, None)).
Proof.
  intros h c. unfold NewDatabase. cbn [nodes]. intros [-> _]%lookup_singleton_Some. by left.
Qed.
Lemma root_of_inj m1 m2 : (∀ b, world b → Keccak256Hash b ≠ emptyRoot) → fits m1 → fits m2 →
  in_world world (tree_of m1) → in_world world (tree_of m2) → root_of m1 = root_of m2 → m1 = m2.
Proof.
  intros He H1 H2 W1 W2 E. destruct (build m1 H1) as [T1 R1], (build m2 H2) as [T2 R2].
  destruct (Commit_spec _ T1 m1 R1 H1 W1 db_from_new) as (T1' & d1 & _ & _ & X1 & F1 & S1).
  pose proof (represents_extends _ d1 T2 m2 X1 F1 H2 W2 R2) as R2'.
  destruct (Commit_spec d1 T2 m2 R2' H2 W2 F1) as (T2' & d2 & _ & _ & X2 & F2 & S2).
  assert (Hroot : ∀ m, in_world world (tree_of m) → is_node (tree_of m) = true → root_of m ≠ 0 ∧ root_of m ≠ emptyRoot).
  { intros m W Hn. pose proof (in_world_self _ _ W Hn) as Hb. unfold root_of. destruct (tree_of m); try done; cbn [root_hash];
      (split; [by apply Hfree|by apply He]). }
  destruct (New_spec d2 m1 0 H1) as (U1 & E1 & Q1); [|by apply Hroot|].
  { intros Hn. eapply stored_extends; eauto. }
  destruct (New_spec d2 m2 0 H2) as (U2 & E2 & Q2); [done|by apply Hroot|].
  rewrite <- E, E1 in E2. injection E2 as <-.
  assert (Hget : ∀ k, is_bytes k → m1 !! k = m2 !! k).
  { intros k Hk. destruct (TryGet_spec d2 U1 m1 k Q1 Hk) as (V1 & G1 & _), (TryGet_spec d2 U1 m2 k Q2 Hk) as (V2 & G2 & _). congruence. }
  apply map_eq. intros k. destruct (m1 !! k) as [v|] eqn:E1'.
  - rewrite <- Hget; [done|]. apply (H1 k v E1').
  - destruct (m2 !! k) as [v|] eqn:E2'; [|done]. rewrite <- E1', <- E2'. apply Hget, (H2 k v E2').
Qed.

Lemma step_spec o db T m : op_ok o → represents db T m → fits m → (o = OCommit → in_world world (tree_of m)) → db_from world db →
  ∃ db' T', step o (db, T) = Ok ((spec_step o m).1, (db', T')) ∧ represents db' T' (spec_step o m).2 ∧
    extends db db' ∧ db_from world db'.
Proof.
  intros Ho Hr Hf W F. destruct o as [k|k v|k| |]; cbn [step spec_step fst snd].
  - destruct (TryGet_spec db T m k Hr Ho) as (T' & E & R). rewrite E. by exists db, T'.
  - destruct (TryUpdate_spec db T m k v Hr (proj1 (proj1 Ho))) as (T' & E & R). rewrite E. by exists db, T'.
  - destruct (TryDelete_spec db T m k Hr Ho) as (T' & E & R). rewrite E. by exists db, T'.
  - destruct (Hash_spec db T m Hr Hf) as (T' & E & R). rewrite E. by exists db, T'.
  - destruct (Commit_spec db T m Hr Hf (W eq_refl) F) as (T' & db' & E & R & X & F' & _). rewrite E. by exists db', T'.
Qed.
Lemma run_spec ops : ∀ db T m, Forall op_ok ops → represents db T m → fits m → Forall (λ m, in_world world (tree_of m)) (committed ops m) →
  db_from world db →
  ∃ db' T', run ops (db, T) = Ok ((spec_run ops m).1, (db', T')) ∧ represents db' T' (spec_run ops m).2 ∧
    fits (spec_run ops m).2 ∧ extends db db' ∧ db_from world db'.
Proof.
  induction ops as [|o ops IH]; intros db T m Ho Hr Hf W F; [by exists db, T|].
  apply Forall_cons in Ho as [Ho Hos].
  assert (Hw : (o = OCommit → in_world world (tree_of m)) ∧ Forall (λ m, in_world world (tree_of m)) (committed ops (spec_step o m).2)).
  { cbn [committed] in W. destruct o; try done. apply Forall_cons in W as [? ?]. by split. }
  destruct Hw as [Wm Ws].
  destruct (step_spec o db T m Ho Hr Hf Wm F) as (db1 & T1 & E1 & R1 & X1 & F1).
  destruct (IH db1 T1 _ Hos R1 (fits_step o m Ho Hf) Ws F1) as (db2 & T2 & E2 & R2 & Hf2 & X2 & F2).
  exists db2, T2. cbn [run spec_run]. rewrite E1. cbn [res_bind]. rewrite E2. cbn [res_bind].
  destruct (spec_step o m) as [a m'] eqn:Es. cbn [fst snd] in *. destruct (spec_run ops m') as [l m2] eqn:Er.
  split; [done|]. split; [done|]. split; [done|]. split; [by etrans|done].
Qed.
End Spec.

(** ** Checking a world *)

Lemma collision_free_list {CRY : Crypto} (L : list bytes) :
  NoDup (map Keccak256Hash L) → 0 ∉ map Keccak256Hash L → collision_free (λ b, b ∈ L).
Proof.
  intros H H0. split.
  - intros a b Ha Hb E. apply list_elem_of_lookup in Ha as [i Hi]. apply list_elem_of_lookup in Hb as [j Hj].
    assert (i = j) as ->; [|by rewrite Hi in Hj; injection Hj].
    apply (NoDup_lookup _ i j (Keccak256Hash a) H).
    + by rewrite list_lookup_fmap, Hi.
    + rewrite list_lookup_fmap, Hj. cbn. by rewrite E.
  - intros a Ha E. apply H0. rewrite <- E. by apply list_elem_of_fmap_2.
Qed.
Lemma in_world_list {CRY : Crypto} (L : list bytes) t :
  Forall (λ s, is_node s = true → blob s ∈ L) (subtrees t) → in_world (λ b, b ∈ L) t.
Proof. intros H s Hs. rewrite Forall_forall in H. by apply H. Qed.
