(* ===== verification/ReceiptLaws.v ===== *)
(** * Laws of receipts, blooms and roots of lists

    A bloom holds every item that was added; [DeriveSha] is the root of the
    map from the encoded positions to the items, and it binds the list. *)

From S2P Require Import Prelude BigMath Rlp RlpStream RlpTyped Interfaces TrieEncoding Trie TrieTree TrieHash TrieCommit TrieMap TrieSpec.
From S2P Require Import Transaction TxLaws Receipt.

(** ** Sets of bits *)

(** The bits of [a] are among those of [b]. *)
Definition bits_in (a b : Z) : Prop := Z.land b a = a.
Lemma bits_in_spec a b : bits_in a b ↔ ∀ i, Z.testbit a i = true → Z.testbit b i = true.
Proof.
  unfold bits_in. split.
  - intros E i Hi. rewrite <- E, Z.land_spec in Hi. by apply andb_true_iff in Hi as [? _].
  - intros H. apply Z.bits_inj'. intros i _. rewrite Z.land_spec. specialize (H i). destruct (Z.testbit a i); [by rewrite H|by rewrite andb_false_r].
Qed.
#[export] Instance bits_in_preorder : PreOrder bits_in.
Proof.
  split; [intros a; apply Z.land_diag|]. intros a b c. rewrite !bits_in_spec. auto.
Qed.
Lemma bits_in_lor_l a b c : bits_in a b → bits_in a (Z.lor b c).
Proof. rewrite !bits_in_spec. intros H i Hi. rewrite Z.lor_spec. by rewrite (H i Hi). Qed.
Lemma bits_in_lor_r a b c : bits_in a c → bits_in a (Z.lor b c).
Proof. rewrite Z.lor_comm. apply bits_in_lor_l. Qed.

(** A fold of [lor] keeps what it has and gains every part. *)
Section Folds.
Context {X : Type} (f : X → Z).
Abbreviation union := (fold_left (λ b x, Z.lor b (f x))).
Lemma union_grows l b : bits_in b (union l b).
Proof. revert b. induction l as [|x l IH]; intros b; [done|]. cbn. etrans; [|apply IH]. by apply bits_in_lor_l. Qed.
Lemma union_elem l b x : x ∈ l → bits_in (f x) (union l b).
Proof.
  revert b. induction l as [|y l IH]; intros b Hx; [by apply not_elem_of_nil in Hx|]. cbn.
  apply elem_of_cons in Hx as [->|Hx]; [|by apply IH]. etrans; [|apply union_grows]. by apply bits_in_lor_r.
Qed.
Lemma lor_range n a b : 0 ≤ n → 0 ≤ a < 2 ^ n → 0 ≤ b < 2 ^ n → 0 ≤ Z.lor a b < 2 ^ n.
Proof.
  intros Hn Ha Hb. split; [apply Z.lor_nonneg; lia|].
  destruct (Z.eq_dec (Z.lor a b) 0) as [->|Hne]; [by apply Z.pow_pos_nonneg|].
  assert (0 < Z.lor a b) by (assert (0 ≤ Z.lor a b) by (apply Z.lor_nonneg; lia); lia).
  apply Z.log2_lt_pow2; [done|]. rewrite Z.log2_lor by lia.
  assert (Hl : ∀ x, 0 ≤ x < 2 ^ n → x ≠ 0 → Z.log2 x < n) by (intros x ? ?; apply Z.log2_lt_pow2; lia).
  destruct (Z.eq_dec a 0) as [->|], (Z.eq_dec b 0) as [->|]; [done|..].
  - rewrite Z.max_r; [by apply Hl|apply Z.log2_nonneg].
  - rewrite Z.max_l; [by apply Hl|apply Z.log2_nonneg].
  - apply Z.max_lub_lt; by apply Hl.
Qed.
Lemma union_range n l b : 0 ≤ n → (∀ x, 0 ≤ f x < 2 ^ n) → 0 ≤ b < 2 ^ n → 0 ≤ union l b < 2 ^ n.
Proof.
  intros Hn Hf. revert b. induction l as [|x l IH]; intros b Hb; [done|]. cbn. apply IH. by apply lor_range.
Qed.
End Folds.

Section Laws.
Context {CRY : Crypto}.

(** ** Blooms *)

Lemma bloom_bit_range h i : is_bytes h → 0 ≤ bloom_bit h i < 2048.
Proof.
  intros Hh. assert (Hn : ∀ j, 0 ≤ nth j h 0).
  { intros j. destruct (decide (j < length h)%nat) as [Hj|Hj]; [|rewrite nth_overflow by lia; done].
    destruct (lookup_lt_is_Some_2 h j Hj) as [x Hx]. rewrite (nth_lookup_Some _ _ _ _ Hx). by apply (Forall_lookup_1 _ _ _ _ Hh Hx). }
  unfold bloom_bit. change 2047 with (Z.ones 11). rewrite Z.land_ones by lia. apply Z.mod_pos_bound. lia.
Qed.
Lemma bloom9_range b : 0 ≤ bloom9 b < 2 ^ 2048.
Proof.
  unfold bloom9. cbv zeta. apply (union_range (λ i, Z.shiftl 1 (bloom_bit (Keccak256 b) i)) 2048); [done| |].
  - intros i. pose proof (bloom_bit_range (Keccak256 b) i (Keccak256_bytes b)) as Hi. rewrite Z.shiftl_mul_pow2, Z.mul_1_l by lia.
    split; [by apply Z.pow_nonneg|]. apply Z.pow_lt_mono_r; lia.
  - split; [done|]. by apply Z.pow_pos_nonneg.
Qed.
(** What one log adds. *)
Definition log_bits (l : Log) : Z :=
  fold_left (λ bin b, Z.lor bin (bloom9 (hash_bytes b))) (l_Topics l) (bloom9 (addr_bytes (l_Address l))).
Lemma union_lor {X} (f : X → Z) l a b : fold_left (λ b x, Z.lor b (f x)) l (Z.lor a b) = Z.lor a (fold_left (λ b x, Z.lor b (f x)) l b).
Proof. revert b. induction l as [|x l IH]; intros b; [done|]. cbn. by rewrite <- Z.lor_assoc, IH. Qed.
Lemma LogsBloom_union logs : LogsBloom logs = fold_left (λ b l, Z.lor b (log_bits l)) logs 0.
Proof.
  unfold LogsBloom. generalize 0. induction logs as [|l logs IH]; intros b; [done|]. cbn [fold_left].
  rewrite (union_lor (λ x, bloom9 (hash_bytes x))). apply IH.
Qed.
Lemma log_bits_range l : 0 ≤ log_bits l < 2 ^ 2048.
Proof. apply (union_range (λ x, bloom9 (hash_bytes x))); [done|intros; apply bloom9_range|apply bloom9_range]. Qed.
Lemma zero_range : 0 ≤ 0 < 2 ^ 2048.
Proof. split; [done|]. by apply Z.pow_pos_nonneg. Qed.
Lemma LogsBloom_range logs : 0 ≤ LogsBloom logs < 2 ^ 2048.
Proof. rewrite LogsBloom_union. apply (union_range log_bits); [done|apply log_bits_range|apply zero_range]. Qed.
(** The bloom of a list of receipts. *)
Definition receipts_bits (rs : list Receipt) : Z := fold_left (λ bin r, Z.lor bin (LogsBloom (Logs r))) rs 0.
Lemma CreateBloom_ok rs : ∃ b, CreateBloom rs = Some b ∧ length b = 256%nat ∧ is_bytes b ∧ Bloom_Big b = receipts_bits rs.
Proof.
  assert (Hr : 0 ≤ receipts_bits rs < 2 ^ 2048).
  { apply (union_range (λ r, LogsBloom (Logs r))); [done|intros; apply LogsBloom_range|apply zero_range]. }
  unfold CreateBloom. fold (receipts_bits rs). set (x := receipts_bits rs) in *.
  pose proof (Big.length_Bytes_le x 256 Hr) as Hl. unfold BytesToBloom, BloomByteLength, zlen.
  destruct (Z.ltb_spec 256 (Z.of_nat (length (Big.Bytes x)))); [lia|]. eexists. split; [done|]. split_and!.
  - rewrite length_app, length_replicate. lia.
  - apply is_bytes_app. split; [apply is_bytes_replicate|apply Big.is_bytes_Bytes].
  - unfold Bloom_Big, Big.SetBytes. rewrite be_val_app_zeros. apply be_val_Bytes. lia.
Qed.
Lemma log_in_bits l logs : l ∈ logs → bits_in (log_bits l) (LogsBloom logs).
Proof. rewrite LogsBloom_union. apply (union_elem log_bits). Qed.
Lemma receipt_in_bits r rs : r ∈ rs → bits_in (LogsBloom (Logs r)) (receipts_bits rs).
Proof. apply (union_elem (λ r, LogsBloom (Logs r))). Qed.
Lemma address_in_log l : bits_in (bloom9 (addr_bytes (l_Address l))) (log_bits l).
Proof. apply (union_grows (λ x, bloom9 (hash_bytes x))). Qed.
Lemma topic_in_log l t : t ∈ l_Topics l → bits_in (bloom9 (hash_bytes t)) (log_bits l).
Proof. apply (union_elem (λ x, bloom9 (hash_bytes x))). Qed.
Lemma BloomLookup_bits b x : bits_in (bloom9 x) (Bloom_Big b) → BloomLookup b x = true.
Proof. unfold BloomLookup. intros H. by apply Z.eqb_eq. Qed.

(** ** Roots of lists *)

Definition idx_key (i : Z) : bytes := rlp (VUint i).
Lemma idx_key_length i : is_u64 i → zlen (idx_key i) < 2 ^ 32 ∧ is_u64 (zlen (idx_key i)).
Proof.
  intros Hi. unfold idx_key. cbn [rlp]. unfold is_u64 in *.
  pose proof (Big.length_Bytes_le i 8 ltac:(lia)) as Hl. assert (Hz : zlen (Big.Bytes i) ≤ 8) by (unfold zlen; lia).
  pose proof (zlen_rlp_bytes_le (Big.Bytes i) ltac:(lia)). pose proof (zlen_nonneg (rlp_bytes (Big.Bytes i))). lia.
Qed.
Lemma idx_key_encode i : is_u64 i → EncodeToBytes (VUint i) = Ok (idx_key i).
Proof. intros Hi. apply EncodeToBytes_rlp; [done|by apply idx_key_length]. Qed.
Lemma idx_key_ok i : is_u64 i → is_bytes (idx_key i) ∧ zlen (idx_key i) < 2 ^ 32.
Proof. intros Hi. split; [|by apply idx_key_length]. apply is_bytes_rlp_val; [done|by apply idx_key_length]. Qed.
Lemma idx_key_inj i j : is_u64 i → is_u64 j → idx_key i = idx_key j → i = j.
Proof.
  intros Hi Hj E.
  destruct (DecodeBytes_end (TUint 64) (GUint i) (idx_key i)) as (s & Ei & _); [cbn; unfold bits_ok; tauto|done|done|by apply idx_key_length|].
  destruct (DecodeBytes_end (TUint 64) (GUint j) (idx_key j)) as (s' & Ej & _); [cbn; unfold bits_ok; tauto|done|done|by apply idx_key_length|].
  rewrite E, Ej in Ei. by injection Ei.
Qed.
(** The items under their positions, from [i] on. *)
Fixpoint derive_map (i : Z) (l : list bytes) (m : bmap) : bmap :=
  match l with [] => m | x :: l => derive_map (i + 1) l (update (idx_key i) x m) end.
Definition items_ok (l : list bytes) : Prop := Forall (λ x, x ≠ []) l ∧ is_u64 (zlen l).
Lemma derive_loop_spec l : ∀ i T m, 0 ≤ i → is_u64 (i + zlen l) → represents no_db T m →
  ∃ T', derive_loop i l T = Ok T' ∧ represents no_db T' (derive_map i l m).
Proof.
  induction l as [|x l IH]; intros i T m Hi Hl R; [by exists T|]. rewrite zlen_cons in Hl. pose proof (zlen_nonneg l).
  assert (Hu : is_u64 i) by (unfold is_u64 in *; lia).
  cbn [derive_loop derive_map]. rewrite idx_key_encode by done. cbn [of_rlp res_bind].
  destruct (TryUpdate_spec no_db T m (idx_key i) x R) as (T' & -> & R'); [by apply idx_key_ok|].
  apply IH; [lia|unfold is_u64 in *; lia|done].
Qed.
Lemma derive_map_lookup l : ∀ i m, Forall (λ x, x ≠ []) l → 0 ≤ i → is_u64 (i + zlen l) →
  (∀ j, i ≤ j → is_u64 j → m !! idx_key j = None) →
  (∀ j x, l !! j = Some x → derive_map i l m !! idx_key (i + Z.of_nat j) = Some x) ∧
  (∀ j, i + zlen l ≤ j → is_u64 j → derive_map i l m !! idx_key j = None) ∧
  (∀ k, (∀ j, i ≤ j < i + zlen l → k ≠ idx_key j) → derive_map i l m !! k = m !! k).
Proof.
  induction l as [|x l IH]; intros i m Hne Hi Hl Hm.
  { split_and!; [done| |done]. intros j Hj. apply Hm. change (zlen (@nil bytes)) with 0 in Hj. lia. }
  apply Forall_cons in Hne as [Hx Hne]. rewrite zlen_cons in *. pose proof (zlen_nonneg l). cbn [derive_map].
  assert (Hu : is_u64 i) by (unfold is_u64 in *; lia).
  replace (update (idx_key i) x m) with (<[idx_key i := x]> m) by (by destruct x).
  destruct (IH (i + 1) (<[idx_key i := x]> m) Hne) as (H1 & H2 & H3).
  - lia.
  - unfold is_u64 in *; lia.
  - intros j Hj Hju. rewrite lookup_insert_ne; [apply Hm; [lia|done]|]. intros E. apply idx_key_inj in E; [lia|done|done].
  - split_and!.
    + intros [|j] y; cbn.
      * intros [= <-]. rewrite Z.add_0_r, H3; [apply lookup_insert_eq|]. intros j Hj E. apply idx_key_inj in E; [lia|done|].
        unfold is_u64 in *. lia.
      * intros Hy. replace (i + Z.of_nat (S j)) with (i + 1 + Z.of_nat j) by lia. by apply H1.
    + intros j Hj. apply H2. lia.
    + intros k Hk. rewrite H3; [|intros j Hj; apply Hk; lia]. rewrite lookup_insert_ne; [done|]. apply not_eq_sym, Hk. lia.
Qed.
Lemma derive_map_inj l1 l2 : items_ok l1 → items_ok l2 → derive_map 0 l1 ∅ = derive_map 0 l2 ∅ → l1 = l2.
Proof.
  intros [N1 U1] [N2 U2] E.
  destruct (derive_map_lookup l1 0 ∅ N1 ltac:(done) U1 ltac:(done)) as (A1 & B1 & _).
  destruct (derive_map_lookup l2 0 ∅ N2 ltac:(done) U2 ltac:(done)) as (A2 & B2 & _).
  assert (Hlt : ∀ (l : list bytes) j x, is_u64 (zlen l) → l !! j = Some x → is_u64 (Z.of_nat j)).
  { intros l j x Hu Hj. apply lookup_lt_Some in Hj. unfold is_u64, zlen in *. lia. }
  apply list_eq. intros j. destruct (l1 !! j) as [x|] eqn:E1, (l2 !! j) as [y|] eqn:E2; [| | |done].
  - specialize (A1 j x E1). specialize (A2 j y E2). rewrite E, A2 in A1. done.
  - exfalso. specialize (A1 j x E1). rewrite E in A1. apply lookup_ge_None in E2. rewrite B2 in A1; [done|unfold zlen; lia|exact (Hlt l1 j x U1 E1)].
  - exfalso. specialize (A2 j y E2). rewrite <- E in A2. apply lookup_ge_None in E1. rewrite B1 in A2; [done|unfold zlen; lia|exact (Hlt l2 j y U2 E2)].
Qed.
Definition items_fit (l : list bytes) : Prop := Forall (λ x, is_bytes x ∧ x ≠ [] ∧ zlen x < 2 ^ 32) l ∧ is_u64 (zlen l).
Lemma items_fit_ok l : items_fit l → items_ok l.
Proof. intros [H ?]. split; [|done]. eapply Forall_impl; [exact H|]. by intros x (_ & ? & _). Qed.
Lemma derive_map_fits l : ∀ i m, Forall (λ x, is_bytes x ∧ x ≠ [] ∧ zlen x < 2 ^ 32) l → 0 ≤ i → is_u64 (i + zlen l) → fits m → fits (derive_map i l m).
Proof.
  induction l as [|x l IH]; intros i m Hl Hi Hu Hf; [done|]. apply Forall_cons in Hl as [(Hb & Hne & Hx) Hl]. rewrite zlen_cons in Hu.
  pose proof (zlen_nonneg l). cbn [derive_map]. apply IH; [done|lia|unfold is_u64 in *; lia|].
  replace (update (idx_key i) x m) with (<[idx_key i := x]> m) by (by destruct x).
  destruct (idx_key_ok i) as [Hk1 Hk2]; [unfold is_u64 in *; lia|]. by apply map_Forall_insert_2.
Qed.
(** The content whose root [DeriveSha] gives. *)
Definition list_content (l : list bytes) : bmap := derive_map 0 l ∅.
Lemma list_content_fits l : items_fit l → fits (list_content l).
Proof. intros [H Hu]. apply derive_map_fits; [done|done|done|apply map_Forall_empty]. Qed.
Lemma DeriveSha_root l : items_fit l → DeriveSha l = Ok (root_of (list_content l)).
Proof.
  intros Hl. destruct (derive_loop_spec l 0 zero_trie ∅ ltac:(done) (proj2 Hl)) as (T & E & R).
  { exists TNil. split; [constructor|apply content_nil]. }
  destruct (Hash_spec no_db T _ R (list_content_fits l Hl)) as (T' & Eh & _).
  unfold DeriveSha. rewrite E. cbn [res_bind]. by rewrite Eh.
Qed.
(** The root binds the list, up to collisions among the nodes hashed. *)
Lemma DeriveSha_inj world l1 l2 r : collision_free world → (∀ b, world b → Keccak256Hash b ≠ emptyRoot) → items_fit l1 → items_fit l2 →
  in_world world (tree_of (list_content l1)) → in_world world (tree_of (list_content l2)) →
  DeriveSha l1 = Ok r → DeriveSha l2 = Ok r → l1 = l2.
Proof.
  intros Hfree He F1 F2 W1 W2. rewrite !DeriveSha_root by done. intros [= <-] [= E].
  apply derive_map_inj; [by apply items_fit_ok..|]. symmetry.
  by apply (root_of_inj world Hfree _ _ He (list_content_fits l2 F2) (list_content_fits l1 F1)).
Qed.
End Laws.
