(* ===== verification/SecureTrie.v ===== *)
(** * Tries with hashed keys

    [trie/secure_trie.go]: a trie whose keys are the hashes of the keys of its
    user, with a cache of the preimages until the next commit. *)

From S2P Require Import Prelude BigMath Rlp Interfaces TrieEncoding Trie.

Section Secure.
Context {CRY : Crypto}.

(** [secKeyCacheOwner] points to the trie itself, or to the one it was copied
    from. *)
Record SecureTrie := mkSecureTrie {
  strie : Trie;
  secKeyCache : gmap (list Z) bytes;
  secKeyCacheOwner : bool;
}.
Definition set_strie (t : Trie) (s : SecureTrie) : SecureTrie := mkSecureTrie t (secKeyCache s) (secKeyCacheOwner s).
Definition set_secKeyCache (c : gmap (list Z) bytes) (s : SecureTrie) : SecureTrie := mkSecureTrie (strie s) c (secKeyCacheOwner s).

Definition NewSecure (db : Database) (r : Z) (limit : Z) : tres SecureTrie :=
  t ←? New db r limit; Ok (mkSecureTrie t ∅ false).
Definition hashKey (key : bytes) : bytes := Keccak256 key.
Definition getSecKeyCache (s : SecureTrie) : gmap (list Z) bytes * SecureTrie :=
  if secKeyCacheOwner s then (secKeyCache s, s) else (∅, mkSecureTrie (strie s) ∅ true).

Definition secure_TryGet (db : Database) (key : bytes) (s : SecureTrie) : tres (option bytes * SecureTrie) :=
  r ←? TryGet db (hashKey key) (strie s); Ok (r.1, set_strie r.2 s).
Definition secure_TryUpdate (db : Database) (key value : bytes) (s : SecureTrie) : tres SecureTrie :=
  let hk := hashKey key in
  t ←? TryUpdate db hk value (strie s);
  let '(c, s) := getSecKeyCache (set_strie t s) in
  Ok (set_secKeyCache (<[hk := key]> c) s).
Definition secure_TryDelete (db : Database) (key : bytes) (s : SecureTrie) : tres SecureTrie :=
  let hk := hashKey key in
  let '(c, s) := getSecKeyCache s in
  let s := set_secKeyCache (base.delete hk c) s in
  t ←? TryDelete db hk (strie s); Ok (set_strie t s).
Definition GetKey (db : Database) (shaKey : bytes) (s : SecureTrie) : option bytes * SecureTrie :=
  let '(c, s) := getSecKeyCache s in
  match c !! shaKey with
  | Some key => (Some key, s)
  | None => (preimage (BytesToHash shaKey) db, s)
  end.
Definition insertPreimages (c : gmap (list Z) bytes) (db : Database) : Database :=
  fold_right (λ kv db, insertPreimage (BytesToHash kv.1) kv.2 db) db (map_to_list c).
Definition secure_Commit (db : Database) (s : SecureTrie) : tres (Z * SecureTrie * Database) :=
  let '(c, s) := getSecKeyCache s in
  let '(s, db) := if (0 <? zlen (map_to_list c)) then (set_secKeyCache ∅ s, insertPreimages c db) else (s, db) in
  r ←? Commit db (strie s);
  let '(h, t, db) := r in Ok (h, set_strie t s, db).
Definition secure_Hash (s : SecureTrie) : tres (Z * SecureTrie) :=
  r ←? Hash (strie s); Ok (r.1, set_strie r.2 s).
(** A copy keeps the owner of the original. *)
Definition Copy (s : SecureTrie) : SecureTrie := mkSecureTrie (strie s) (secKeyCache s) false.
End Secure.
