(* ===== verification/TrieProof.v ===== *)
(** * Merkle proofs

    [trie/proof.go]: the nodes on the path of a key as a proof, and the check
    of a proof against a root hash.  A proof database is what [Get] returns.
    The laws: a proof is checked along the tree that the trie stands for;
    whatever the proof database holds under right hashes, the check ends with
    the value of the map or finds an entry missing, and with the nodes that
    [Prove] puts there it does not miss any. *)

From S2P Require Import Prelude BigMath Rlp Interfaces TrieEncoding Trie TrieTree TrieHash TrieRep TrieCommit TrieMap TrieSpec SecureTrie.

Inductive prooferror := ErrProofMissing (i : nat) (hash : bytes) | ErrProofBad (i : nat) (e : trieerror).
Abbreviation pres := (res prooferror).

(** [get] inside a decoded node: the rest of the key and the node it ends at;
    [None]: the code panics. *)
Fixpoint get (tn : node) (key : bytes) : option (bytes * node) :=
  match tn with
  | NShort nk nv _ =>
      if (length key <? length nk)%nat || negb (bool_decide (nk = take (length nk) key)) then Some ([], NNil)
      else get nv (drop (length nk) key)
  | NFull cs _ =>
      match key with
      | [] => None
      | k :: rest => (fix at_child (cs : list node) (i : nat) : option (bytes * node) :=
                        match cs, i with
                        | c :: _, O => get c rest
                        | _ :: cs, S i => at_child cs i
                        | [], _ => None
                        end) cs (Z.to_nat k)
      end
  | NHash _ => Some (key, tn)
  | NNil => Some (key, NNil)
  | NValue _ => Some ([], tn)
  end.
(** The loop of [VerifyProof] from node [i] on, with the key in nibbles. *)
Fixpoint verify_loop (fuel : nat) (i : nat) (wantHash key : bytes) (proofDb : bytes → option bytes) : pres (option bytes * nat) :=
  match fuel with
  | O => OutOfFuel
  | S fuel =>
      match proofDb wantHash with
      | None => Err (ErrProofMissing i wantHash)
      | Some buf =>
          match decodeNode 0 (S (length buf)) (Some wantHash) buf with
          | Err e => Err (ErrProofBad i e)
          | Panic => Panic
          | OutOfFuel => OutOfFuel
          | Ok n =>
              match get n key with
              | None => Panic
              | Some (keyrest, cld) =>
                  match cld with
                  | NNil => Ok (None, i)
                  | NHash h => verify_loop fuel (S i) (take 32 h ++ drop (length h) wantHash) keyrest proofDb
                  | NValue v => Ok (Some v, S i)
                  | _ => Panic
                  end
              end
          end
      end
  end.
Definition VerifyProof (fuel : nat) (rootHash : Z) (key : bytes) (proofDb : bytes → option bytes) : pres (option bytes * nat) :=
  verify_loop fuel 0 (hash_bytes rootHash) (keybytesToHex key) proofDb.

(** ** Making a proof *)

(** The nodes on the path; nibble and hash node as in [tryGet]. *)
Fixpoint prove_path (fuel : nat) (db : Database) (cg : Z) (tn : node) (key : bytes) : tres (list node) :=
  match fuel with
  | O => OutOfFuel
  | S fuel =>
      match key with
      | [] => Ok []
      | k :: rest =>
          match tn with
          | NNil => Ok []
          | NShort nk nv _ =>
              r ←? (if (length key <? length nk)%nat || negb (bool_decide (nk = take (length nk) key)) then Ok []
                    else prove_path fuel db cg nv (drop (length nk) key));
              Ok (tn :: r)
          | NFull cs _ =>
              c ←? child cs k;
              r ←? prove_path fuel db cg c rest;
              Ok (tn :: r)
          | NHash h =>
              n ←? resolveHash db cg h [];
              prove_path fuel db cg n key
          | NValue _ => Panic
          end
      end
  end.
Section Prove.
Context {CRY : Crypto}.
(** What is put into the proof for the nodes from index [i] on. *)
Fixpoint prove_emit (i fromLevel : nat) (nodes : list node) : tres (list (bytes * bytes)) :=
  match nodes with
  | [] => Ok []
  | n :: nodes =>
      ch ←? hashChildren (λ c db, hash 0 0 c db false) n None;
      let '(n, _, _) := ch in
      s ←? store n None false;
      let enc := match EncodeToBytes (node_val n) with Ok b => b | _ => [] end in
      let put := match s.1 with
                 | NHash h => Some (h, enc)
                 | _ => if (i =? 0)%nat then Some (Keccak256 enc, enc) else None
                 end in
      match put, fromLevel with
      | None, _ => prove_emit (S i) fromLevel nodes
      | Some _, S l => prove_emit (S i) l nodes
      | Some p, O => r ←? prove_emit (S i) 0 nodes; Ok (p :: r)
      end
  end.
(** The puts, in order. *)
Definition Prove (db : Database) (t : Trie) (key : bytes) (fromLevel : nat) : tres (list (bytes * bytes)) :=
  let key := keybytesToHex key in
  nodes ←? prove_path (key_fuel key) db (cachegen t) (root t) key;
  prove_emit 0 fromLevel nodes.
Definition secure_Prove (db : Database) (t : SecureTrie) (key : bytes) (fromLevel : nat) : tres (list (bytes * bytes)) :=
  Prove db (strie t) key fromLevel.
End Prove.

(** ** Laws *)

(** The nodes of a tree that a key goes through. *)
Fixpoint tpath (t : tree) (key : bytes) : list tree :=
  match t with
  | TShort k c => t :: (if decide (k = take (length k) key) then tpath c (drop (length k) key) else [])
  | TFull ts => t :: match key with [] => [] | x :: r => at_index (λ c, tpath c r) [] ts (Z.to_nat x) end
  | _ => []
  end.
Lemma tpath_full ts x r c : ts !! Z.to_nat x = Some c → tpath (TFull ts) (x :: r) = TFull ts :: tpath c r.
Proof. intros H. cbn [tpath]. by rewrite at_index_lookup, H. Qed.
Lemma tpath_subtrees t : ∀ key s, s ∈ tpath t key → s ∈ subtrees t ∧ is_node s = true.
Proof.
  induction t as [|k c IH|ts IH|v] using tree_ind'; intros key s; cbn [tpath]; [by intros ?%elem_of_nil| | |by intros ?%elem_of_nil].
  - intros [->|H]%elem_of_cons; [by split; [apply subtrees_self|]|]. case_decide; [|by apply elem_of_nil in H].
    apply IH in H as [H ?]. split; [by apply subtrees_short|done].
  - intros [->|H]%elem_of_cons; [by split; [apply subtrees_self|]|]. destruct key as [|x r]; [by apply elem_of_nil in H|].
    rewrite at_index_lookup in H. destruct (ts !! Z.to_nat x) as [c|] eqn:E; [|by apply elem_of_nil in H].
    rewrite Forall_lookup in IH. destruct (IH _ _ E _ _ H). split; [by eapply subtrees_full|done].
Qed.

Lemma subtrees_trans t : ∀ s x, s ∈ subtrees t → x ∈ subtrees s → x ∈ subtrees t.
Proof.
  induction t as [|k c IH|ts IH|v] using tree_ind'; intros s x Hs Hx; apply elem_of_cons in Hs as [->|Hs]; try done.
  - by apply elem_of_nil in Hs.
  - apply subtrees_short. by eapply IH.
  - apply list_elem_of_In, in_concat in Hs as (l & Hl & Hs). apply in_map_iff in Hl as (c & <- & Hc). apply list_elem_of_In in Hc, Hs.
    rewrite Forall_forall in IH. apply list_elem_of_lookup in Hc as Hi. destruct Hi as [i Hi]. eapply subtrees_full; [exact Hi|]. by eapply IH.
  - by apply elem_of_nil in Hs.
Qed.

Section Laws.
Context {CRY : Crypto}.
Variable db : Database.

(** ** One node of a proof *)

Definition reaches (t : tree) (key rest : bytes) (c : node) : Prop :=
  match c with
  | NNil => tget t key = None
  | NValue v => tget t key = Some v
  | NHash h => ∃ s, h = tree_hash s ∧ big s = true ∧ stored db s ∧ wf false s ∧ hex_key rest ∧ tget t key = tget s rest ∧
      s ∈ tpath t key ∧ ∀ x, x ∈ tpath s rest → x ∈ tpath t key
  | _ => False
  end.
Lemma get_short_unfold nk nv f key : get (NShort nk nv f) key =
  if decide (nk = take (length nk) key) then get nv (drop (length nk) key) else Some ([], NNil).
Proof.
  cbn [get]. case_decide as E.
  - rewrite bool_decide_eq_true_2 by done. apply (f_equal length) in E. rewrite length_take in E.
    destruct (Nat.ltb_spec (length key) (length nk)); [lia|done].
  - rewrite bool_decide_eq_false_2 by done. by rewrite orb_true_r.
Qed.
Lemma get_full_unfold cs f k rest : get (NFull cs f) (k :: rest) = c ← cs !! Z.to_nat k; get c rest.
Proof.
  cbn [get]. generalize (Z.to_nat k) as i. induction cs as [|c cs IH]; intros [|i]; cbn; try done.
Qed.
Lemma get_hash_node t b key h : wf b t → rep db false (NHash h) t → key_at b key →
  ∃ rest c, get (NHash h) key = Some (rest, c) ∧ reaches t key rest c ∧ (length rest + 0 ≤ length key)%nat.
Proof.
  intros W R Hk. inversion R as [| | | |? ? ? -> Hn Hb Hst]; subst. specialize (Hb eq_refl).
  assert (Hin : b = false ∧ t ∈ tpath t key) by (destruct t; try done; inversion W; subst; by split; [|left]).
  destruct Hin as [-> Hin]. exists key, (NHash (tree_hash t)). split; [done|]. split; [|lia]. by exists t.
Qed.
Lemma get_reaches t : ∀ b top key n, wf b t → rep db top n t → key_at b key → (loaded n = true ∨ top = false) →
  ∃ rest c, get n key = Some (rest, c) ∧ reaches t key rest c ∧ (length rest + (if loaded n && is_node t then 1 else 0) ≤ length key)%nat.
Proof.
  induction t as [|k c IH|ts IH|v] using tree_ind'; intros b top key n W R Hk Hl;
    (destruct (loaded n) eqn:L; [|destruct Hl as [ | ->]; [done|]; destruct n; try done; by eapply get_hash_node]).
  - destruct n; try by inversion R. exists key, NNil. cbn. split_and!; [done|done|lia].
  - destruct n as [|nk nv f| | |]; try by inversion R. apply rep_short_inv in R as (c' & [= <- <-] & Rc & _).
    rewrite get_short_unfold. unfold reaches. cbn [tget tpath is_node]. case_decide as E.
    + apply take_prefix_iff in E as [r ->]. rewrite drop_app_length. destruct (wf_short_key _ _ _ _ W Hk) as (-> & Hne & Wc & Hr).
      destruct (IH _ false r nv Wc Rc Hr ltac:(by right)) as (rest & x & Eg & Hx & Hlen). exists rest, x. split; [done|]. split.
      * destruct x; try done. destruct Hx as (s & ? & ? & ? & ? & ? & ? & ? & Hsub). exists s. split_and!; try done; [by right|]. intros y Hy. right. by apply Hsub.
      * rewrite length_app. destruct k; [done|]. cbn [length andb]. lia.
    + exists [], NNil. split_and!; [done|done|]. destruct key; [by apply wf_short_inv in W as [-> _]; apply hex_key_nonempty in Hk|cbn; lia].
  - destruct n as [| |ns f| |]; try by inversion R. apply rep_full_inv in R as (ts' & [= <-] & F & _).
    destruct (wf_full_key db b ns ts _ W F Hk) as (x & r & n & c & -> & Hx & En & Ec & Rc & Wc & Hr).
    rewrite get_full_unfold, En. cbn [mbind option_bind]. rewrite Forall_lookup in IH.
    destruct (IH _ _ Ec _ false r n Wc Rc Hr ltac:(by right)) as (rest & y & Eg & Hy & Hlen). exists rest, y. split; [done|].
    unfold reaches. rewrite tget_full, Ec, (tpath_full _ _ _ _ Ec). cbn [is_node length]. split.
    * destruct y; try done. destruct Hy as (s & ? & ? & ? & ? & ? & ? & ? & Hsub). exists s. split_and!; try done; [by right|]. intros z Hz. right. by apply Hsub.
    * cbn [andb]. lia.
  - destruct n; try by inversion R. assert (b = true) as -> by (by inversion W). cbn in Hk. subst key. exists [], (NValue v). inversion R; subst. split_and!; [done|done|cbn; lia].
Qed.

(** ** Checking a proof *)

Variable world : bytes → Prop.
Context (Hfree : collision_free world).
Variable proofDb : bytes → option bytes.
(** The proof database files encodings under their hashes. *)
Definition hash_filed : Prop := ∀ h b, proofDb h = Some b → Keccak256 b = h ∧ world b.
Context (Hfiled : hash_filed).
Lemma proof_node t b : is_node t = true → in_world world t → proofDb (tree_hash t) = Some b → b = blob t.
Proof.
  intros Hn W H. destruct (Hfiled _ _ H) as [E Hw]. apply Hfree; [done|by apply in_world_self|].
  unfold Keccak256Hash. by rewrite E.
Qed.
Lemma proof_decodes t : wf false t → is_node t = true → stored db t → ∃ n,
  decodeNode 0 (S (length (blob t))) (Some (tree_hash t)) (blob t) = Ok n ∧ rep db true n t ∧ loaded n = true.
Proof.
  intros W Hn [Hh Hs]. destruct (expand_rep db t false true (Some (tree_hash t)) 0 ltac:(by intros ->) W Hh) as (n & E & R & L); [done|].
  destruct Hs as [[Hok Hu] _]. destruct (decode_blob 0 t (S (length (blob t))) (Some (tree_hash t)) [] W Hn Hok) as (n' & E' & D);
    [constructor|by rewrite app_nil_r|lia|]. rewrite app_nil_r in D. rewrite E in E'. injection E' as <-. by exists n.
Qed.
Lemma verify_loop_ok fuel : ∀ i t key, wf false t → is_node t = true → stored db t → in_world world t → hex_key key → (length key < fuel)%nat →
  match verify_loop fuel i (tree_hash t) key proofDb with
  | Ok (v, _) => v = tget t key
  | Err (ErrProofMissing _ h) => proofDb h = None ∧ ∃ s, s ∈ tpath t key ∧ (s = t ∨ big s = true) ∧ h = tree_hash s
  | _ => False
  end.
Proof.
  induction fuel as [|fuel IH]; intros i t key Wt Hn Hs W Hk Hf; [lia|]. cbn [verify_loop].
  destruct (proofDb (tree_hash t)) as [b|] eqn:Ep.
  2:{ split; [done|]. exists t. split_and!; [|by left|done]. by destruct t; try done; left. }
  apply proof_node in Ep as ->; [|done..]. destruct (proof_decodes t Wt Hn Hs) as (n & -> & R & L).
  destruct (get_reaches t false true key n Wt R Hk ltac:(by left)) as (rest & c & -> & Hc & Hlen). rewrite L, Hn in Hlen. cbn [andb] in Hlen.
  destruct c as [| | |h|v]; try done. destruct Hc as (s & -> & Hb & Hst & Ws & Hr & Hg & Hin & Hsub).
  assert (E : take 32 (tree_hash s) ++ drop (length (tree_hash s)) (tree_hash t) = tree_hash s).
  { unfold tree_hash. rewrite Keccak256_length, take_ge, drop_ge by (by rewrite Keccak256_length). apply app_nil_r. }
  rewrite E. pose proof (proj1 (tpath_subtrees _ _ _ Hin)) as Hsb.
  assert (Wsub : in_world world s) by (intros x Hx; apply W; by eapply subtrees_trans).
  specialize (IH (S i) s rest Ws (big_node _ Hb) Hst Wsub Hr ltac:(lia)).
  destruct (verify_loop _ _ _ _ _) as [[v j]|[j h|]| |]; try done; [by rewrite Hg|].
  destruct IH as (Hnone & x & Hx & Hor & ->). split; [done|]. exists x. split_and!; [by apply Hsub|destruct Hor as [->|]; by right|done].
Qed.
End Laws.

(** ** Making a proof *)

Section Making.
Context {CRY : Crypto}.
Variable db : Database.
Variable cg : Z.

(** The nodes collected stand for the trees on the path. *)
Definition collected (n : node) (s : tree) : Prop := loaded n = true ∧ ∃ top, rep db top n s.
Lemma prove_path_nil fuel n : prove_path (S fuel) db cg n [] = Ok [].
Proof. done. Qed.
Definition path_ok (n : node) (t : tree) : Prop := ∀ b top key fuel, wf b t → rep db top n t → key_at b key → (fuel_for n key ≤ fuel)%nat →
  ∃ ns, prove_path fuel db cg n key = Ok ns ∧ Forall2 collected ns (tpath t key).
Lemma path_ok_hash t : (∀ n, loaded n = true → path_ok n t) → ∀ n, path_ok n t.
Proof.
  intros H n. destruct (loaded n) eqn:L; [by apply H|]. destruct n as [| | |h|]; try done.
  intros b top key fuel W R Hk Hf. destruct (resolve_rep db cg b top h t [] W R) as (n & E & R' & L').
  assert (Hn : is_node t = true) by (by inversion R). unfold fuel_for in Hf. cbn [loaded] in Hf. destruct fuel as [|fuel]; [lia|].
  assert (b = false) as -> by (destruct t; try done; by inversion W).
  destruct key as [|k rest]; [by apply hex_key_nonempty in Hk|].
  destruct (H n L' false top (k :: rest) fuel W R' Hk) as (ns & Ep & Hns); [unfold fuel_for; rewrite L'; cbn [length] in *; lia|].
  exists ns. cbn [prove_path]. rewrite E. cbn [res_bind]. done.
Qed.
Lemma prove_path_ok t : ∀ n, path_ok n t.
Proof.
  induction t as [|k c IH|ts IH|v] using tree_ind'; apply path_ok_hash; intros n L b top key [|fuel] W R Hk Hf;
    unfold fuel_for in Hf; rewrite L in Hf; try lia.
  - destruct n; try by inversion R. exists []. split; [by destruct key|constructor].
  - destruct n as [|nk nv f| | |]; try by inversion R. pose proof R as R0. apply rep_short_inv in R as (c' & [= <- <-] & Rc & _).
    destruct key as [|x key]; [by apply wf_short_inv in W as [-> _]; apply hex_key_nonempty in Hk|].
    cbn [prove_path tpath]. case_decide as E.
    + rewrite bool_decide_eq_true_2 by done. pose proof E as E'. apply take_prefix_iff in E as [r E]. rewrite E in *.
      destruct (wf_short_key _ _ _ _ W Hk) as (-> & Hne & Wc & Hr). rewrite drop_app_length.
      destruct (IH nv _ false r fuel Wc Rc Hr) as (ns & Ep & Hns).
      { pose proof (fuel_for_drop nv k r Hne). lia. }
      rewrite length_app. destruct (Nat.ltb_spec (length k + length r) (length k)); [lia|]. cbn [orb negb]. rewrite Ep. cbn [res_bind].
      eexists. split; [done|]. constructor; [by split; [|eexists]|done].
    + rewrite bool_decide_eq_false_2 by done. rewrite orb_true_r. cbn [res_bind]. eexists. split; [done|].
      constructor; [by split; [|eexists]|constructor].
  - destruct n as [| |ns f| |]; try by inversion R. pose proof R as R0. apply rep_full_inv in R as (ts' & [= <-] & F & _).
    destruct (wf_full_key db b ns ts _ W F Hk) as (x & r & n & c & -> & Hx & En & Ec & Rc & Wc & Hr). rewrite Forall_lookup in IH.
    destruct (IH _ _ Ec n _ false r fuel Wc Rc Hr) as (l & Ep & Hl).
    { unfold fuel_for. cbn [length] in Hf. destruct (loaded n); lia. }
    cbn [prove_path]. unfold child. rewrite En. cbn [of_opt res_bind]. rewrite Ep. cbn [res_bind]. rewrite (tpath_full _ _ _ _ Ec).
    eexists. split; [done|]. constructor; [by split; [|eexists]|done].
  - assert (b = true) as -> by (by inversion W). cbn in Hk. subst key. exists []. split; [done|constructor].
Qed.

(** What the nodes of a path put into a proof. *)
Fixpoint tputs (i : nat) (l : list tree) : list (bytes * bytes) :=
  match l with
  | [] => []
  | s :: l => (if big s || (i =? 0)%nat then [(tree_hash s, blob s)] else []) ++ tputs (S i) l
  end.
Lemma collected_hashes n s : is_node s = true → wf false s → all_encodable s → collected n s →
  ∃ nc nn, hashChildren (λ c db, hash 0 0 c db false) n None = Ok (nc, nn, None) ∧ EncodeToBytes (node_val nc) = Ok (blob s) ∧
    store nc None false = Ok (if big s then NHash (tree_hash s) else nc, None) ∧ (big s = false → ∀ h, nc ≠ NHash h).
Proof.
  intros Hn W A [L [top R]]. assert (W' : in_world (λ _, True) s) by (by intros ?).
  assert (C : children_done 0 0 false (λ _, True) top n s db).
  { destruct s as [|k c|ts|v]; try done.
    - apply children_short; try done. intros Hc. by apply hash_ok.
    - apply children_full; try done. apply Forall_forall. intros c _ Hc. by apply hash_ok. }
  destruct C as (nc & nn & db1 & E & En & Ec1 & _ & _ & _ & _ & _ & Hdb & _). rewrite (Hdb eq_refl) in E. cbn [opt] in E.
  exists nc, nn. split; [exact E|]. pose proof (A s (subtrees_self s) Hn) as He.
  split; [rewrite node_val_simplify, En; apply EncodeToBytes_rlp; apply He|].
  destruct (store_ok false (λ _, True) ltac:(done) false nc s db Hn En) as (db' & Es & _); [|done|done|done|done|].
  { intros h. rewrite Ec1. inversion R; subst; cbn [cache fst]; try done; intros Eh.
    - match goal with H : flag_ok _ _ _ _ |- _ => unfold flag_ok in H; rewrite Eh in H; by destruct H as [-> _] end.
    - match goal with H : flag_ok _ _ _ _ |- _ => unfold flag_ok in H; rewrite Eh in H; by destruct H as [-> _] end. }
  cbn [opt orb] in Es. split; [exact Es|]. intros _ h ->. by destruct s.
Qed.
Lemma prove_emit_ok l : ∀ i from ns, Forall (λ s, is_node s = true ∧ wf false s ∧ all_encodable s) l → Forall2 collected ns l →
  prove_emit i from ns = Ok (drop from (tputs i l)).
Proof.
  induction l as [|s l IH]; intros i from ns Hl F; inversion F as [|n ? ns' ? Hc F']; subst; [by destruct from|].
  apply Forall_cons in Hl as [(Hn & W & A) Hl]. destruct (collected_hashes n s Hn W A Hc) as (nc & nn & E & Ee & Es & Hnh).
  cbn [prove_emit]. rewrite E. cbn [res_bind]. rewrite Es. cbn [res_bind fst]. rewrite Ee. cbn [tputs].
  specialize (IH (S i)). destruct (big s) eqn:Eb; cbn [orb app].
  - destruct from as [|from]; rewrite IH by done; [by cbn [res_bind]; rewrite !drop_0|done].
  - assert (Eput : match nc with NHash h => Some (h, blob s) | _ => if (i =? 0)%nat then Some (Keccak256 (blob s), blob s) else None end =
      if (i =? 0)%nat then Some (tree_hash s, blob s) else None) by (destruct nc; try done; by destruct (Hnh eq_refl h)).
    rewrite Eput. destruct (i =? 0)%nat; cbn [app].
    + destruct from as [|from]; rewrite IH by done; [by cbn [res_bind]; rewrite !drop_0|done].
    + by apply IH.
Qed.
End Making.

(** ** Both ends *)

Lemma keybytesToHex_length k : length (keybytesToHex k) = (2 * length k + 1)%nat.
Proof. unfold keybytesToHex. induction k as [|b k IH]; [done|]. cbn in *. lia. Qed.

Section Proofs.
Context {CRY : Crypto}.
Lemma wf_path t : ∀ key, wf false t → all_encodable t → Forall (λ s, is_node s = true ∧ wf false s ∧ all_encodable s) (tpath t key).
Proof.
  assert (H : ∀ b key, wf b t → all_encodable t → Forall (λ s, is_node s = true ∧ wf false s ∧ all_encodable s) (tpath t key)); [|by apply H].
  induction t as [|k c IH|ts IH|v] using tree_ind'; intros b key W A; cbn [tpath]; try by constructor.
  - pose proof W as W0. apply wf_short_inv in W as [-> Hc]. constructor; [done|]. case_decide; [|done].
    destruct Hc as [(v & -> & _)|(ts & -> & _ & _ & Wc)]; [by constructor|]. eapply IH; [exact Wc|]. by eapply encodable_child.
  - pose proof W as W0. apply wf_full_inv in W as (-> & _ & Wc & _). constructor; [done|]. destruct key as [|x r]; [done|].
    rewrite at_index_lookup. destruct (ts !! Z.to_nat x) as [c|] eqn:E; [|done]. rewrite Forall_lookup in IH.
    eapply IH; [exact E|by apply Wc|by eapply encodable_children].
Qed.
Lemma Prove_spec db T m key from : represents db T m → fits m → is_bytes key →
  Prove db T key from = Ok (drop from (tputs 0 (tpath (tree_of m) (keybytesToHex key)))).
Proof.
  intros (t & R & C) Hf Hk. pose proof (content_tree t m C Hf) as ->. pose proof C as [W _]. unfold Prove.
  assert (A : all_encodable (tree_of m)) by (apply (all_encodable_bounded _ false); [done|by eapply content_bounded]).
  destruct (prove_path_ok db (cachegen T) _ (root T) false true (keybytesToHex key) (key_fuel (keybytesToHex key)) W R) as (ns & -> & F);
    [by apply keybytesToHex_hex|apply key_fuel_enough|]. cbn [res_bind]. eapply prove_emit_ok; [by apply wf_path|done].
Qed.
Lemma tputs_filed i l p : p ∈ tputs i l → Keccak256 p.2 = p.1.
Proof.
  revert i. induction l as [|s l IH]; intros i; cbn [tputs]; [by intros ?%elem_of_nil|].
  intros [H|H]%elem_of_app; [|by apply IH in H]. destruct (_ || _); [|by apply elem_of_nil in H].
  by apply list_elem_of_singleton in H as ->.
Qed.
Lemma tputs_root t l : (tree_hash t, blob t) ∈ tputs 0 (t :: l).
Proof. cbn [tputs]. rewrite orb_true_r. by left. Qed.
Lemma tputs_big i l s : s ∈ l → big s = true → (tree_hash s, blob s) ∈ tputs i l.
Proof.
  revert i. induction l as [|x l IH]; intros i; [by intros ?%elem_of_nil|]. intros [<-|H]%elem_of_cons Hb; cbn [tputs].
  - rewrite Hb. by left.
  - apply elem_of_app. right. by apply IH.
Qed.

Variable world : bytes → Prop.
Context (Hfree : collision_free world).
(** The check ends with what the map holds, or finds an entry of the honest
    proof missing. *)
Lemma VerifyProof_spec m key proofDb fuel : fits m → m ≠ ∅ → in_world world (tree_of m) → is_bytes key →
  hash_filed world proofDb → (2 * length key + 1 < fuel)%nat →
  match VerifyProof fuel (root_of m) key proofDb with
  | Ok (v, _) => v = m !! key
  | Err (ErrProofMissing _ h) => proofDb h = None ∧ h ∈ (tputs 0 (tpath (tree_of m) (keybytesToHex key))).*1
  | _ => False
  end.
Proof.
  intros Hf Hne W Hk Hfiled Hfuel. destruct (build m Hf) as [T R].
  destruct (Commit_spec world Hfree _ T m R Hf W (db_from_new world)) as (T' & db & _ & _ & _ & _ & Hs).
  pose proof (content_tree_of m Hf) as C. pose proof C as [Wt _].
  assert (Hn : is_node (tree_of m) = true).
  { destruct (tree_of m) eqn:E; try done; [|by inversion Wt]. destruct Hne. apply map_empty. intros k.
    destruct (m !! k) as [v|] eqn:Em; [|done]. pose proof (Hf k v Em) as (Hkb & _).
    rewrite <- (content_get _ _ _ C Hkb) in Em. done. }
  assert (Er : hash_bytes (root_of m) = tree_hash (tree_of m)).
  { rewrite <- hash_bytes_node_key. unfold root_of. by destruct (tree_of m). }
  unfold VerifyProof. rewrite Er. pose proof (keybytesToHex_hex key Hk) as Hhex.
  pose proof (verify_loop_ok db world Hfree proofDb Hfiled fuel 0 (tree_of m) (keybytesToHex key) Wt Hn (Hs Hn) W Hhex) as H.
  assert (Hlen : length (keybytesToHex key) = (2 * length key + 1)%nat) by apply keybytesToHex_length. specialize (H ltac:(lia)).
  destruct (verify_loop _ _ _ _ _) as [[v j]|[j h|]| |]; try done; [by rewrite H, (content_get _ _ _ C Hk)|].
  destruct H as (Hnone & s & Hin & Hor & ->). split; [done|].
  assert (Hp : (tree_hash s, blob s) ∈ tputs 0 (tpath (tree_of m) (keybytesToHex key))).
  { destruct Hor as [->|Hb]; [|by apply tputs_big]. destruct (tree_of m); try done; cbn [tpath]; apply tputs_root. }
  by apply (list_elem_of_fmap_2 fst) in Hp.
Qed.
End Proofs.
