(* ===== verification/StateDatabase.v ===== *)
(** * The database of the state

    [core/state/database.go]: opens tries, keeping the last account tries that
    were committed, and reads contract code from the database of the tries. *)

From S2P Require Import Prelude BigMath Rlp Interfaces TrieEncoding Trie SecureTrie.

Section StateDatabase.
Context {CRY : Crypto}.

Definition MaxTrieCacheGen : Z := 120.
Definition maxPastTries : Z := 12.
Definition codeSizeCacheSize : Z := 100000.

(** [codeSizeCache]: least recently used first to go; the front of the list
    is the newest. *)
Record cachingDB := mkCachingDB {
  triedb : Database;
  pastTries : list SecureTrie;
  codeSizeCache : list (Z * Z);
}.
Definition set_triedb (x : Database) (d : cachingDB) : cachingDB := mkCachingDB x (pastTries d) (codeSizeCache d).
Definition set_pastTries (x : list SecureTrie) (d : cachingDB) : cachingDB := mkCachingDB (triedb d) x (codeSizeCache d).
Definition set_codeSizeCache (x : list (Z * Z)) (d : cachingDB) : cachingDB := mkCachingDB (triedb d) (pastTries d) x.
Definition state_NewDatabase (disk : bytes → option bytes) : cachingDB := mkCachingDB (NewDatabase disk) [] [].

(** The newest of the past tries with that root; hashing caches the hashes
    of those it passes. *)
Fixpoint find_past (r : Z) (newest_first : list SecureTrie) : tres (option SecureTrie * list SecureTrie) :=
  match newest_first with
  | [] => Ok (None, [])
  | t :: ts =>
      h ←? secure_Hash t;
      if h.1 =? r then Ok (Some h.2, h.2 :: ts)
      else f ←? find_past r ts; Ok (f.1, h.2 :: f.2)
  end.
Definition OpenTrie (r : Z) (d : cachingDB) : tres (SecureTrie * cachingDB) :=
  f ←? find_past r (reverse (pastTries d));
  let d := set_pastTries (reverse f.2) d in
  match f.1 with
  | Some t => Ok (Copy t, d)
  | None => t ←? NewSecure (triedb d) r MaxTrieCacheGen; Ok (t, d)
  end.
Definition pushTrie (t : SecureTrie) (d : cachingDB) : cachingDB :=
  if maxPastTries <=? zlen (pastTries d) then set_pastTries (tail (pastTries d) ++ [t]) d
  else set_pastTries (pastTries d ++ [t]) d.
Definition db_OpenStorageTrie (r : Z) (d : cachingDB) : tres SecureTrie := NewSecure (triedb d) r 0.

Definition lru_get (k : Z) (c : list (Z * Z)) : option Z * list (Z * Z) :=
  match list_find (λ kv, kv.1 = k) c with
  | Some (i, kv) => (Some kv.2, kv :: base.delete i c)
  | None => (None, c)
  end.
Definition lru_add (k v : Z) (c : list (Z * Z)) : list (Z * Z) :=
  take (Z.to_nat codeSizeCacheSize) ((k, v) :: filter (λ kv, kv.1 ≠ k) c).
Definition db_ContractCode (codeHash : Z) (d : cachingDB) : tres (option bytes * cachingDB) :=
  c ←? Node codeHash (triedb d);
  match c with
  | Some code => Ok (Some code, set_codeSizeCache (lru_add codeHash (zlen code) (codeSizeCache d)) d)
  | None => Ok (None, d)
  end.
Definition db_ContractCodeSize (codeHash : Z) (d : cachingDB) : tres (option Z * cachingDB) :=
  let '(cached, c) := lru_get codeHash (codeSizeCache d) in
  match cached with
  | Some n => Ok (Some n, set_codeSizeCache c d)
  | None => r ←? db_ContractCode codeHash d; Ok (zlen <$> r.1, r.2)
  end.
(** [cachedTrie.Commit] *)
Definition cachedTrie_Commit (t : SecureTrie) (d : cachingDB) : tres (Z * SecureTrie * cachingDB) :=
  r ←? secure_Commit (triedb d) t;
  let '(h, t, db) := r in Ok (h, t, pushTrie t (set_triedb db d)).
End StateDatabase.
