(* ===== verification/StateBackend.v ===== *)
(** * The tries behind the state

    The interface of [Interfaces.v] by the tries of [core/state/database.go]:
    a trie, with the database it was opened on, is a map on hashed keys; a
    root whose nodes are stored opens. *)

From S2P Require Import Prelude BigMath Rlp Interfaces TrieEncoding Trie TrieTree TrieHash TrieRep TrieCommit TrieMap TrieSpec SecureTrie StateDatabase.

Section Backend.
Context {CRY : Crypto}.

(** A trie and the memory it reads; the memory only grows, and what a trie
    reads in it stays. *)
Definition backend_trie : Type := Database * SecureTrie.
(** A node that is missing, and a panic, are errors of the interface. *)
Definition of_tres {A B} (f : A → B) (d : B) (x : tres A) : B * option dberror :=
  match x with Ok a => (f a, None) | Err _ => (d, Some (ErrDB 1)) | _ => (d, Some (ErrDB 2)) end.
#[export] Instance backend_trie_I : TrieI backend_trie := {|
  Interfaces.TryGet k t := of_tres (λ r, default [] r.1) [] (secure_TryGet t.1 k t.2);
  Interfaces.TryUpdate k v t := of_tres (λ s, (t.1, s)) t (secure_TryUpdate t.1 k v t.2);
  Interfaces.TryDelete k t := of_tres (λ s, (t.1, s)) t (secure_TryDelete t.1 k t.2);
  TrieHash t := match secure_Hash t.2 with Ok r => r.1 | _ => 0 end;
|}.
Definition empty_secure : SecureTrie := mkSecureTrie (mkTrie NNil 0 0) ∅ false.
#[export] Instance backend_db_I : DatabaseI cachingDB backend_trie := {|
  OpenStorageTrie d _ r :=
    match db_OpenStorageTrie r d with Ok t => inl (triedb d, t) | Err _ => inr (ErrDB 1) | _ => inr (ErrDB 2) end;
  EmptyStorageTrie d _ := (triedb d, empty_secure);
  ContractCode d _ h := of_tres (λ r, default [] r.1) [] (db_ContractCode h d);
  ContractCodeSize d _ h := of_tres (λ r, default 0 r.1) 0 (db_ContractCodeSize h d);
  OpenStorageTrie_empty d h := eq_refl;
|}.

Definition backend_map (t : backend_trie) (m : bmap) : Prop := represents t.1 (strie t.2) m.

Lemma hashKey_bytes k : is_bytes (hashKey k).
Proof. apply Keccak256_bytes. Qed.
Lemma hashKey_ok k : is_bytes k → zlen k < 2 ^ 32 → is_bytes (hashKey k) ∧ zlen (hashKey k) < 2 ^ 32.
Proof. intros _ _. split; [apply Keccak256_bytes|]. unfold zlen, hashKey. rewrite Keccak256_length. lia. Qed.
Lemma backend_get t m k : backend_map t m → Interfaces.TryGet k t = (default [] (m !! hashKey k), None).
Proof.
  intros R. cbn. unfold secure_TryGet. destruct (TryGet_spec t.1 (strie t.2) m (hashKey k) R (hashKey_bytes k)) as (T' & E & _).
  by rewrite E.
Qed.
Lemma backend_update t m k v : backend_map t m → v ≠ [] →
  ∃ t', Interfaces.TryUpdate k v t = (t', None) ∧ backend_map t' (<[hashKey k := v]> m).
Proof.
  intros R Hv. destruct (TryUpdate_spec t.1 (strie t.2) m (hashKey k) v R (hashKey_bytes k)) as (T' & E & R').
  cbn. unfold secure_TryUpdate. rewrite E. cbn [res_bind]. unfold getSecKeyCache, set_strie. cbn [secKeyCacheOwner].
  replace (update (hashKey k) v m) with (<[hashKey k := v]> m) in R' by (by destruct v).
  destruct (secKeyCacheOwner t.2); (eexists; split; [done|exact R']).
Qed.
Lemma backend_delete t m k : backend_map t m →
  ∃ t', Interfaces.TryDelete k t = (t', None) ∧ backend_map t' (base.delete (hashKey k) m).
Proof.
  intros R. cbn. unfold secure_TryDelete, getSecKeyCache.
  destruct (TryDelete_spec t.1 (strie t.2) m (hashKey k) R (hashKey_bytes k)) as (T' & E & R').
  destruct (secKeyCacheOwner t.2); cbn [strie set_secKeyCache]; rewrite E; (eexists; split; [done|exact R']).
Qed.
Lemma backend_hash t m : backend_map t m → fits m → TrieHash t = root_of m.
Proof. intros R Hf. cbn. unfold secure_Hash. destruct (Hash_spec t.1 (strie t.2) m R Hf) as (T' & E & _). by rewrite E. Qed.
#[export] Instance backend_trie_laws : TrieLaws backend_trie := {|
  trie_key := hashKey;
  trie_map := backend_map;
  trie_root := root_of;
  TryGet_map := backend_get;
  TryUpdate_map := backend_update;
  TryDelete_map := backend_delete;
  TrieHash_map := backend_hash;
  trie_key_ok := hashKey_ok;
|}.

(** The root of a map, with its nodes in the database; the zero root is the
    empty map too. *)
Definition backend_stores (d : cachingDB) (r : Z) (m : bmap) : Prop :=
  r = 0 ∧ m = ∅ ∨
  r = root_of m ∧ fits m ∧ (is_node (tree_of m) = true → stored (triedb d) (tree_of m) ∧ r ≠ 0 ∧ r ≠ emptyRoot).
Lemma new_represents db limit : represents db (mkTrie NNil 0 limit) ∅.
Proof. exists TNil. split; [constructor|apply content_nil]. Qed.
Lemma backend_open d h r m : backend_stores d r m → ∃ t, OpenStorageTrie d h r = inl t ∧ backend_map t m.
Proof.
  intros H. cbn. unfold db_OpenStorageTrie, NewSecure. destruct H as [[-> ->]|(-> & Hf & Hn)].
  - cbn. eexists. split; [done|apply new_represents].
  - destruct (New_spec (triedb d) m 0 Hf) as (T & E & R); [intros H; by apply Hn|intros H; by apply Hn|].
    rewrite E. by eexists.
Qed.
#[export] Instance backend_db_laws : DatabaseLaws cachingDB backend_trie := {|
  db_stores := backend_stores;
  OpenStorageTrie_map := backend_open;
  EmptyStorageTrie_map d h := new_represents (triedb d) 0;
|}.
End Backend.
