(* ===== verification/StateDB.v ===== *)
(** * The state database

    [core/state/statedb.go], [state_object.go] and [journal.go]: accounts
    cached over the account trie, storage cached over the storage tries, and
    the journal that undoes changes back to a snapshot.

    A [*stateObject] lives in exactly one place: the [stateObjects] map, or a
    [resetObjectChange] entry of the journal once another object has replaced
    it there, and is not modified while it is in the journal.  It is therefore
    a value here; a method that changes an object stores the changed object
    back at its address. *)

From S2P Require Import Prelude BigMath Rlp Interfaces.

Inductive staterror :=
| SEDB (e : dberror)
| SERlp (e : rlperror)
| SECantCreateTrie (e : dberror)
| SECantLoadCode (codehash : bytes) (e : dberror).

Record Account := mkAccount {
  Nonce : Z;
  Balance : Z;
  Root : Z;  (* merkle root of the storage trie *)
  CodeHash : bytes;
}.
Definition set_Nonce (x : Z) (s : Account) : Account :=
  mkAccount x (Balance s) (Root s) (CodeHash s).
Definition set_Balance (x : Z) (s : Account) : Account :=
  mkAccount (Nonce s) x (Root s) (CodeHash s).
Definition set_Root (x : Z) (s : Account) : Account :=
  mkAccount (Nonce s) (Balance s) x (CodeHash s).
Definition set_CodeHash (x : bytes) (s : Account) : Account :=
  mkAccount (Nonce s) (Balance s) (Root s) x.

(** The encoding of accounts in the trie ([rlp.EncodeToBytes(stateObject)],
    [rlp.DecodeBytes(enc, &data)]), with what the state needs of it; [rlp_codec]
    in Concrete.v is the list of the four fields in RLP. *)
Class AccountCodec := {
  encode_account : Account → bytes;
  decode_account : bytes → option Account;
  encode_account_nonempty : ∀ a, encode_account a ≠ [];
}.

Record revision := mkRevision { rev_id : Z; journalIndex : nat }.

Section State.
Context {D T : Type} `{!Crypto} `{!TrieI T} `{!DatabaseI D T} `{!AccountCodec}.

(** ** The data *)

Record stateObject := mkStateObject {
  address : Z;
  addrHash : Z;  (* hash of ethereum address of the account *)
  data : Account;
  so_dbErr : option staterror;
  so_trie : option T;  (* storage trie, which becomes non-nil on first access *)
  code : option bytes;  (* contract bytecode, which gets set when code is loaded *)
  originStorage : gmap Z Z;  (* Storage cache of original entries to dedup rewrites *)
  dirtyStorage : gmap Z Z;  (* Storage entries that need to be flushed to disk *)
  dirtyCode : bool;  (* true if the code was updated *)
  suicided : bool;
  deleted : bool;
}.
Definition set_address (x : Z) (s : stateObject) : stateObject :=
  mkStateObject x (addrHash s) (data s) (so_dbErr s) (so_trie s) (code s) (originStorage s) (dirtyStorage s) (dirtyCode s) (suicided s) (deleted s).
Definition set_addrHash (x : Z) (s : stateObject) : stateObject :=
  mkStateObject (address s) x (data s) (so_dbErr s) (so_trie s) (code s) (originStorage s) (dirtyStorage s) (dirtyCode s) (suicided s) (deleted s).
Definition set_data (x : Account) (s : stateObject) : stateObject :=
  mkStateObject (address s) (addrHash s) x (so_dbErr s) (so_trie s) (code s) (originStorage s) (dirtyStorage s) (dirtyCode s) (suicided s) (deleted s).
Definition set_so_dbErr (x : option staterror) (s : stateObject) : stateObject :=
  mkStateObject (address s) (addrHash s) (data s) x (so_trie s) (code s) (originStorage s) (dirtyStorage s) (dirtyCode s) (suicided s) (deleted s).
Definition set_so_trie (x : option T) (s : stateObject) : stateObject :=
  mkStateObject (address s) (addrHash s) (data s) (so_dbErr s) x (code s) (originStorage s) (dirtyStorage s) (dirtyCode s) (suicided s) (deleted s).
Definition set_code (x : option bytes) (s : stateObject) : stateObject :=
  mkStateObject (address s) (addrHash s) (data s) (so_dbErr s) (so_trie s) x (originStorage s) (dirtyStorage s) (dirtyCode s) (suicided s) (deleted s).
Definition set_originStorage (x : gmap Z Z) (s : stateObject) : stateObject :=
  mkStateObject (address s) (addrHash s) (data s) (so_dbErr s) (so_trie s) (code s) x (dirtyStorage s) (dirtyCode s) (suicided s) (deleted s).
Definition set_dirtyStorage (x : gmap Z Z) (s : stateObject) : stateObject :=
  mkStateObject (address s) (addrHash s) (data s) (so_dbErr s) (so_trie s) (code s) (originStorage s) x (dirtyCode s) (suicided s) (deleted s).
Definition set_dirtyCode (x : bool) (s : stateObject) : stateObject :=
  mkStateObject (address s) (addrHash s) (data s) (so_dbErr s) (so_trie s) (code s) (originStorage s) (dirtyStorage s) x (suicided s) (deleted s).
Definition set_suicided (x : bool) (s : stateObject) : stateObject :=
  mkStateObject (address s) (addrHash s) (data s) (so_dbErr s) (so_trie s) (code s) (originStorage s) (dirtyStorage s) (dirtyCode s) x (deleted s).
Definition set_deleted (x : bool) (s : stateObject) : stateObject :=
  mkStateObject (address s) (addrHash s) (data s) (so_dbErr s) (so_trie s) (code s) (originStorage s) (dirtyStorage s) (dirtyCode s) (suicided s) x.

Inductive journalEntry :=
(* Changes to the account trie. *)
| createObjectChange (account : Z)
| resetObjectChange (prev : stateObject)
| suicideChange (account : Z) (prev : bool) (prevbalance : Z)
(* Changes to individual accounts. *)
| balanceChange (account : Z) (prev : Z)
| nonceChange (account : Z) (prev : Z)
| storageChange (account : Z) (key prevalue : Z)
| codeChange (account : Z) (prevcode : option bytes) (prevhash : bytes)
(* Changes to other state values. *)
| refundChange (prev : Z)
| addLogChange (txhash : Z)
| addPreimageChange (hash : Z)
| touchChange (account : Z).

Record StateDB := mkStateDB {
  db : D;
  trie : T;
  stateObjects : gmap Z stateObject;  (* 'live' objects *)
  stateObjectsDirty : gset Z;
  dbErr : option staterror;
  refund : Z;  (* the refund counter, a uint64 *)
  thash : Z;
  bhash : Z;
  txIndex : Z;
  logs : gmap Z (list Log);
  logSize : Z;
  preimages : gmap Z bytes;
  entries : list journalEntry;  (* journal.entries, newest first *)
  dirties : gmap Z Z;  (* journal.dirties *)
  validRevisions : list revision;
  nextRevisionId : Z;
}.
Definition set_db (x : D) (s : StateDB) : StateDB :=
  mkStateDB x (trie s) (stateObjects s) (stateObjectsDirty s) (dbErr s) (refund s) (thash s) (bhash s) (txIndex s) (logs s) (logSize s) (preimages s) (entries s) (dirties s) (validRevisions s) (nextRevisionId s).
Definition set_trie (x : T) (s : StateDB) : StateDB :=
  mkStateDB (db s) x (stateObjects s) (stateObjectsDirty s) (dbErr s) (refund s) (thash s) (bhash s) (txIndex s) (logs s) (logSize s) (preimages s) (entries s) (dirties s) (validRevisions s) (nextRevisionId s).
Definition set_stateObjects (x : gmap Z stateObject) (s : StateDB) : StateDB :=
  mkStateDB (db s) (trie s) x (stateObjectsDirty s) (dbErr s) (refund s) (thash s) (bhash s) (txIndex s) (logs s) (logSize s) (preimages s) (entries s) (dirties s) (validRevisions s) (nextRevisionId s).
Definition set_stateObjectsDirty (x : gset Z) (s : StateDB) : StateDB :=
  mkStateDB (db s) (trie s) (stateObjects s) x (dbErr s) (refund s) (thash s) (bhash s) (txIndex s) (logs s) (logSize s) (preimages s) (entries s) (dirties s) (validRevisions s) (nextRevisionId s).
Definition set_dbErr (x : option staterror) (s : StateDB) : StateDB :=
  mkStateDB (db s) (trie s) (stateObjects s) (stateObjectsDirty s) x (refund s) (thash s) (bhash s) (txIndex s) (logs s) (logSize s) (preimages s) (entries s) (dirties s) (validRevisions s) (nextRevisionId s).
Definition set_refund (x : Z) (s : StateDB) : StateDB :=
  mkStateDB (db s) (trie s) (stateObjects s) (stateObjectsDirty s) (dbErr s) x (thash s) (bhash s) (txIndex s) (logs s) (logSize s) (preimages s) (entries s) (dirties s) (validRevisions s) (nextRevisionId s).
Definition set_thash (x : Z) (s : StateDB) : StateDB :=
  mkStateDB (db s) (trie s) (stateObjects s) (stateObjectsDirty s) (dbErr s) (refund s) x (bhash s) (txIndex s) (logs s) (logSize s) (preimages s) (entries s) (dirties s) (validRevisions s) (nextRevisionId s).
Definition set_bhash (x : Z) (s : StateDB) : StateDB :=
  mkStateDB (db s) (trie s) (stateObjects s) (stateObjectsDirty s) (dbErr s) (refund s) (thash s) x (txIndex s) (logs s) (logSize s) (preimages s) (entries s) (dirties s) (validRevisions s) (nextRevisionId s).
Definition set_txIndex (x : Z) (s : StateDB) : StateDB :=
  mkStateDB (db s) (trie s) (stateObjects s) (stateObjectsDirty s) (dbErr s) (refund s) (thash s) (bhash s) x (logs s) (logSize s) (preimages s) (entries s) (dirties s) (validRevisions s) (nextRevisionId s).
Definition set_logs (x : gmap Z (list Log)) (s : StateDB) : StateDB :=
  mkStateDB (db s) (trie s) (stateObjects s) (stateObjectsDirty s) (dbErr s) (refund s) (thash s) (bhash s) (txIndex s) x (logSize s) (preimages s) (entries s) (dirties s) (validRevisions s) (nextRevisionId s).
Definition set_logSize (x : Z) (s : StateDB) : StateDB :=
  mkStateDB (db s) (trie s) (stateObjects s) (stateObjectsDirty s) (dbErr s) (refund s) (thash s) (bhash s) (txIndex s) (logs s) x (preimages s) (entries s) (dirties s) (validRevisions s) (nextRevisionId s).
Definition set_preimages (x : gmap Z bytes) (s : StateDB) : StateDB :=
  mkStateDB (db s) (trie s) (stateObjects s) (stateObjectsDirty s) (dbErr s) (refund s) (thash s) (bhash s) (txIndex s) (logs s) (logSize s) x (entries s) (dirties s) (validRevisions s) (nextRevisionId s).
Definition set_entries (x : list journalEntry) (s : StateDB) : StateDB :=
  mkStateDB (db s) (trie s) (stateObjects s) (stateObjectsDirty s) (dbErr s) (refund s) (thash s) (bhash s) (txIndex s) (logs s) (logSize s) (preimages s) x (dirties s) (validRevisions s) (nextRevisionId s).
Definition set_dirties (x : gmap Z Z) (s : StateDB) : StateDB :=
  mkStateDB (db s) (trie s) (stateObjects s) (stateObjectsDirty s) (dbErr s) (refund s) (thash s) (bhash s) (txIndex s) (logs s) (logSize s) (preimages s) (entries s) x (validRevisions s) (nextRevisionId s).
Definition set_validRevisions (x : list revision) (s : StateDB) : StateDB :=
  mkStateDB (db s) (trie s) (stateObjects s) (stateObjectsDirty s) (dbErr s) (refund s) (thash s) (bhash s) (txIndex s) (logs s) (logSize s) (preimages s) (entries s) (dirties s) x (nextRevisionId s).
Definition set_nextRevisionId (x : Z) (s : StateDB) : StateDB :=
  mkStateDB (db s) (trie s) (stateObjects s) (stateObjectsDirty s) (dbErr s) (refund s) (thash s) (bhash s) (txIndex s) (logs s) (logSize s) (preimages s) (entries s) (dirties s) (validRevisions s) x.

Definition emptyCodeHash : bytes := Keccak256 [].

(** ** state_object.go *)

(** [Account{}] with the nil balance and code hash replaced as [newObject]
    does. *)
Definition Account_zero : Account := mkAccount 0 0 0 emptyCodeHash.
Definition newObject (addr : Z) (a : Account) : stateObject :=
  mkStateObject addr (Keccak256Hash (addr_bytes addr)) a None None None ∅ ∅ false false false.

Definition empty (o : stateObject) : bool :=
  (Nonce (data o) =? 0) && (Big.Sign (Balance (data o)) =? 0)
  && bool_decide (CodeHash (data o) = emptyCodeHash).
Definition so_setError (e : option staterror) (o : stateObject) : stateObject :=
  match so_dbErr o with
  | None => set_so_dbErr e o
  | Some _ => o
  end.
Definition markSuicided (o : stateObject) : stateObject := set_suicided true o.
Definition so_setBalance (amount : Z) (o : stateObject) : stateObject :=
  set_data (set_Balance amount (data o)) o.
Definition so_setNonce (nonce : Z) (o : stateObject) : stateObject :=
  set_data (set_Nonce nonce (data o)) o.
Definition so_setCode (codeHash : bytes) (c : option bytes) (o : stateObject) : stateObject :=
  set_dirtyCode true (set_data (set_CodeHash codeHash (data o)) (set_code c o)).
Definition so_setState (key value : Z) (o : stateObject) : stateObject :=
  set_dirtyStorage (<[key := value]> (dirtyStorage o)) o.

Definition getTrie (d : D) (o : stateObject) : T * stateObject :=
  match so_trie o with
  | Some t => (t, o)
  | None =>
      match OpenStorageTrie d (addrHash o) (Root (data o)) with
      | inl t => (t, set_so_trie (Some t) o)
      | inr e =>
          let t := EmptyStorageTrie d (addrHash o) in
          (t, so_setError (Some (SECantCreateTrie e)) (set_so_trie (Some t) o))
      end
  end.

Definition so_GetCommittedState (d : D) (key : Z) (o : stateObject) : Z * stateObject :=
  match originStorage o !! key with
  | Some value => (value, o)
  | None =>
      let '(t, o) := getTrie d o in
      match TryGet (hash_bytes key) t with
      | (_, Some err) => (0, so_setError (Some (SEDB err)) o)
      | ([], None) => (0, set_originStorage (<[key := 0]> (originStorage o)) o)
      | (enc, None) =>
          let '(value, o) :=
            match Split enc with
            | Ok (_, content, _) => (BytesToHash content, o)
            | Err e => (0, so_setError (Some (SERlp e)) o)
            | _ => (0, o)
            end in
          (value, set_originStorage (<[key := value]> (originStorage o)) o)
      end
  end.
Definition so_GetState (d : D) (key : Z) (o : stateObject) : Z * stateObject :=
  match dirtyStorage o !! key with
  | Some value => (value, o)
  | None => so_GetCommittedState d key o
  end.

(** [Code]: nil for an account without code, the loaded code otherwise. *)
Definition so_Code (d : D) (o : stateObject) : option bytes * stateObject :=
  match code o with
  | Some c => (Some c, o)
  | None =>
      if bool_decide (CodeHash (data o) = emptyCodeHash) then (None, o)
      else
        let '(c, err) := ContractCode d (addrHash o) (BytesToHash (CodeHash (data o))) in
        match err with
        | Some e => (None, so_setError (Some (SECantLoadCode (CodeHash (data o)) e)) o)
        | None => (Some c, set_code (Some c) o)
        end
  end.

(** [updateTrie]: the storage entries are written to the trie in the order
    of the map iteration (any order gives the same contents). *)
Definition updateTrie_entry (d : D) (kv : Z * Z) (o : stateObject) : stateObject :=
  let '(key, value) := kv in
  let o := set_dirtyStorage (delete key (dirtyStorage o)) o in
  if value =? default 0 (originStorage o !! key) then o
  else
    let o := set_originStorage (<[key := value]> (originStorage o)) o in
    let '(t, o) := getTrie d o in
    let '(t, err) :=
      if value =? 0 then TryDelete (hash_bytes key) t
      else TryUpdate (hash_bytes key) (rlp_bytes (trim_left (hash_bytes value))) t in
    let o := set_so_trie (Some t) o in
    match err with
    | Some e => so_setError (Some (SEDB e)) o
    | None => so_setError None o
    end.
Definition updateTrie (d : D) (o : stateObject) : stateObject :=
  let '(_, o) := getTrie d o in
  fold_right (updateTrie_entry d) o (map_to_list (dirtyStorage o)).
Definition updateRoot (d : D) (o : stateObject) : stateObject :=
  let o := updateTrie d o in
  match so_trie o with
  | Some t => set_data (set_Root (TrieHash t) (data o)) o
  | None => o
  end.

(** ** journal.go *)

Definition ripemd : Z := 3.

Definition dirtied (e : journalEntry) : option Z :=
  match e with
  | createObjectChange a => Some a
  | resetObjectChange _ => None
  | suicideChange a _ _ => Some a
  | balanceChange a _ => Some a
  | nonceChange a _ => Some a
  | storageChange a _ _ => Some a
  | codeChange a _ _ => Some a
  | refundChange _ => None
  | addLogChange _ => None
  | addPreimageChange _ => None
  | touchChange a => Some a
  end.
(** [dirties[addr]++] and [dirties[addr]--, dropped at zero]; a missing key
    reads as 0. *)
Definition dirty (a : Z) (s : StateDB) : StateDB :=
  set_dirties (<[a := default 0 (dirties s !! a) + 1]> (dirties s)) s.
Definition undirty (a : Z) (s : StateDB) : StateDB :=
  let n := default 0 (dirties s !! a) - 1 in
  if n =? 0 then set_dirties (delete a (dirties s)) s
  else set_dirties (<[a := n]> (dirties s)) s.
Definition journal_append (e : journalEntry) (s : StateDB) : StateDB :=
  let s := set_entries (e :: entries s) s in
  match dirtied e with
  | Some a => dirty a s
  | None => s
  end.

(** ** statedb.go: objects *)

Definition setError (e : option staterror) (s : StateDB) : StateDB :=
  match dbErr s with
  | None => set_dbErr e s
  | Some _ => s
  end.
Definition setStateObject (o : stateObject) (s : StateDB) : StateDB :=
  set_stateObjects (<[address o := o]> (stateObjects s)) s.

Definition getStateObject (addr : Z) (s : StateDB) : option stateObject * StateDB :=
  match stateObjects s !! addr with
  | Some obj => if deleted obj then (None, s) else (Some obj, s)
  | None =>
      let '(enc, err) := TryGet (addr_bytes addr) (trie s) in
      match enc with
      | [] => (None, setError (SEDB <$> err) s)
      | _ =>
          match decode_account enc with
          | None => (None, s)
          | Some a =>
              let obj := newObject addr a in
              (Some obj, setStateObject obj s)
          end
      end
  end.

(** [createObject]: the second component is the object it replaces. *)
Definition createObject (addr : Z) (s : StateDB) : stateObject * option stateObject * StateDB :=
  let '(prev, s) := getStateObject addr s in
  let newobj := so_setNonce 0 (newObject addr Account_zero) in
  let s := match prev with
           | None => journal_append (createObjectChange addr) s
           | Some p => journal_append (resetObjectChange p) s
           end in
  (newobj, prev, setStateObject newobj s).
Definition GetOrNewStateObject (addr : Z) (s : StateDB) : stateObject * StateDB :=
  let '(so, s) := getStateObject addr s in
  match so with
  | Some o => if deleted o then let '(n, _, s) := createObject addr s in (n, s) else (o, s)
  | None => let '(n, _, s) := createObject addr s in (n, s)
  end.
Definition CreateAccount (addr : Z) (s : StateDB) : StateDB :=
  let '(new, prev, s) := createObject addr s in
  match prev with
  | Some p => setStateObject (so_setBalance (Balance (data p)) new) s
  | None => s
  end.

(** ** state_object.go: journalled setters *)

Definition touch (o : stateObject) (s : StateDB) : StateDB :=
  let s := journal_append (touchChange (address o)) s in
  if address o =? ripemd then dirty (address o) s else s.
Definition so_SetBalance (amount : Z) (o : stateObject) (s : StateDB) : StateDB :=
  let s := journal_append (balanceChange (address o) (Balance (data o))) s in
  setStateObject (so_setBalance amount o) s.
Definition so_AddBalance (amount : Z) (o : stateObject) (s : StateDB) : StateDB :=
  if Big.Sign amount =? 0 then (if empty o then touch o s else s)
  else so_SetBalance (Balance (data o) + amount) o s.
Definition so_SubBalance (amount : Z) (o : stateObject) (s : StateDB) : StateDB :=
  if Big.Sign amount =? 0 then s
  else so_SetBalance (Balance (data o) - amount) o s.
Definition so_SetNonce (nonce : Z) (o : stateObject) (s : StateDB) : StateDB :=
  let s := journal_append (nonceChange (address o) (Nonce (data o))) s in
  setStateObject (so_setNonce nonce o) s.
Definition so_SetCode (codeHash : bytes) (c : option bytes) (o : stateObject) (s : StateDB) : StateDB :=
  let '(prevcode, o) := so_Code (db s) o in
  let s := journal_append (codeChange (address o) prevcode (CodeHash (data o))) s in
  setStateObject (so_setCode codeHash c o) s.
Definition so_SetState (key value : Z) (o : stateObject) (s : StateDB) : StateDB :=
  let '(prev, o) := so_GetState (db s) key o in
  let s := setStateObject o s in
  if prev =? value then s
  else
    let s := journal_append (storageChange (address o) key prev) s in
    setStateObject (so_setState key value o) s.

(** ** statedb.go: the operations *)

Definition AddBalance (addr amount : Z) (s : StateDB) : StateDB :=
  let '(o, s) := GetOrNewStateObject addr s in so_AddBalance amount o s.
Definition SubBalance (addr amount : Z) (s : StateDB) : StateDB :=
  let '(o, s) := GetOrNewStateObject addr s in so_SubBalance amount o s.
Definition SetBalance (addr amount : Z) (s : StateDB) : StateDB :=
  let '(o, s) := GetOrNewStateObject addr s in so_SetBalance amount o s.
Definition SetNonce (addr nonce : Z) (s : StateDB) : StateDB :=
  let '(o, s) := GetOrNewStateObject addr s in so_SetNonce nonce o s.
(** A nil code is [None]. *)
Definition SetCode (addr : Z) (c : option bytes) (s : StateDB) : StateDB :=
  let '(o, s) := GetOrNewStateObject addr s in
  so_SetCode (hash_bytes (Keccak256Hash (default [] c))) c o s.
Definition SetState (addr key value : Z) (s : StateDB) : StateDB :=
  let '(o, s) := GetOrNewStateObject addr s in so_SetState key value o s.

Definition Suicide (addr : Z) (s : StateDB) : bool * StateDB :=
  let '(so, s) := getStateObject addr s in
  match so with
  | None => (false, s)
  | Some o =>
      let s := journal_append (suicideChange addr (suicided o) (Balance (data o))) s in
      (true, setStateObject (so_setBalance 0 (markSuicided o)) s)
  end.

Definition AddRefund (gas : Z) (s : StateDB) : StateDB :=
  let s := journal_append (refundChange (refund s)) s in
  set_refund (u64 (refund s + gas)) s.
(** Panics when the counter would go below zero: [None]. *)
Definition SubRefund (gas : Z) (s : StateDB) : option StateDB :=
  let s := journal_append (refundChange (refund s)) s in
  if refund s <? gas then None else Some (set_refund (refund s - gas) s).
Definition AddLog (l : Log) (s : StateDB) : StateDB :=
  let s := journal_append (addLogChange (thash s)) s in
  let l := mkLog (l_Address l) (l_Topics l) (l_Data l) (l_BlockNumber l)
                 (thash s) (txIndex s) (bhash s) (logSize s) in
  let s := set_logs (<[thash s := default [] (logs s !! thash s) ++ [l]]> (logs s)) s in
  set_logSize (logSize s + 1) s.
Definition GetLogs (hash : Z) (s : StateDB) : list Log := default [] (logs s !! hash).
Definition AddPreimage (hash : Z) (preimage : bytes) (s : StateDB) : StateDB :=
  match preimages s !! hash with
  | Some _ => s
  | None =>
      let s := journal_append (addPreimageChange hash) s in
      set_preimages (<[hash := preimage]> (preimages s)) s
  end.

(** Readers; each may load an object, a storage entry or the code. *)
Definition Exist (addr : Z) (s : StateDB) : bool * StateDB :=
  let '(so, s) := getStateObject addr s in (bool_decide (is_Some so), s).
Definition Empty (addr : Z) (s : StateDB) : bool * StateDB :=
  let '(so, s) := getStateObject addr s in
  (match so with None => true | Some o => empty o end, s).
Definition GetBalance (addr : Z) (s : StateDB) : Z * StateDB :=
  let '(so, s) := getStateObject addr s in
  (match so with Some o => Balance (data o) | None => 0 end, s).
Definition GetNonce (addr : Z) (s : StateDB) : Z * StateDB :=
  let '(so, s) := getStateObject addr s in
  (match so with Some o => Nonce (data o) | None => 0 end, s).
Definition GetCode (addr : Z) (s : StateDB) : bytes * StateDB :=
  let '(so, s) := getStateObject addr s in
  match so with
  | Some o => let '(c, o) := so_Code (db s) o in (default [] c, setStateObject o s)
  | None => ([], s)
  end.
Definition GetCodeSize (addr : Z) (s : StateDB) : Z * StateDB :=
  let '(so, s) := getStateObject addr s in
  match so with
  | None => (0, s)
  | Some o =>
      match code o with
      | Some c => (zlen c, s)
      | None =>
          let '(size, err) := ContractCodeSize (db s) (addrHash o) (BytesToHash (CodeHash (data o))) in
          (size, match err with Some e => setError (Some (SEDB e)) s | None => s end)
      end
  end.
Definition GetCodeHash (addr : Z) (s : StateDB) : Z * StateDB :=
  let '(so, s) := getStateObject addr s in
  (match so with Some o => BytesToHash (CodeHash (data o)) | None => 0 end, s).
Definition GetState (addr key : Z) (s : StateDB) : Z * StateDB :=
  let '(so, s) := getStateObject addr s in
  match so with
  | Some o => let '(v, o) := so_GetState (db s) key o in (v, setStateObject o s)
  | None => (0, s)
  end.
Definition GetCommittedState (addr key : Z) (s : StateDB) : Z * StateDB :=
  let '(so, s) := getStateObject addr s in
  match so with
  | Some o => let '(v, o) := so_GetCommittedState (db s) key o in (v, setStateObject o s)
  | None => (0, s)
  end.
Definition HasSuicided (addr : Z) (s : StateDB) : bool * StateDB :=
  let '(so, s) := getStateObject addr s in
  (match so with Some o => suicided o | None => false end, s).
Definition GetRefund (s : StateDB) : Z := refund s.

(** ** journal.go: undoing

    [None] is a Go panic (nil dereference or slice bounds). *)

Definition with_object (a : Z) (f : stateObject → stateObject) (s : StateDB) : option StateDB :=
  let '(so, s) := getStateObject a s in
  match so with
  | None => None
  | Some o => Some (setStateObject (f o) s)
  end.
Definition entry_revert (e : journalEntry) (s : StateDB) : option StateDB :=
  match e with
  | createObjectChange a =>
      Some (set_stateObjectsDirty (stateObjectsDirty s ∖ {[a]})
              (set_stateObjects (delete a (stateObjects s)) s))
  | resetObjectChange prev => Some (setStateObject prev s)
  | suicideChange a prev prevbalance =>
      let '(so, s) := getStateObject a s in
      match so with
      | None => Some s
      | Some o => Some (setStateObject (so_setBalance prevbalance (set_suicided prev o)) s)
      end
  | touchChange _ => Some s
  | balanceChange a prev => with_object a (so_setBalance prev) s
  | nonceChange a prev => with_object a (so_setNonce prev) s
  | codeChange a prevcode prevhash =>
      with_object a (so_setCode (hash_bytes (BytesToHash prevhash)) prevcode) s
  | storageChange a key prevalue => with_object a (so_setState key prevalue) s
  | refundChange prev => Some (set_refund prev s)
  | addLogChange txhash =>
      let l := default [] (logs s !! txhash) in
      match l with
      | [] => None
      | [_] => Some (set_logSize (logSize s - 1) (set_logs (delete txhash (logs s)) s))
      | _ => Some (set_logSize (logSize s - 1)
               (set_logs (<[txhash := take (length l - 1) l]> (logs s)) s))
      end
  | addPreimageChange hash => Some (set_preimages (delete hash (preimages s)) s)
  end.
Fixpoint revert_loop (es : list journalEntry) (s : StateDB) : option StateDB :=
  match es with
  | [] => Some s
  | e :: r =>
      match entry_revert e s with
      | None => None
      | Some s => revert_loop r (match dirtied e with Some a => undirty a s | None => s end)
      end
  end.
Definition journal_revert (snapshot : nat) (s : StateDB) : option StateDB :=
  let n := (length (entries s) - snapshot)%nat in
  match revert_loop (take n (entries s)) s with
  | None => None
  | Some s' => Some (set_entries (drop n (entries s)) s')
  end.

Definition Snapshot (s : StateDB) : Z * StateDB :=
  let id := nextRevisionId s in
  let s := set_nextRevisionId (id + 1) s in
  (id, set_validRevisions (validRevisions s ++ [mkRevision id (length (entries s))]) s).
Definition RevertToSnapshot (revid : Z) (s : StateDB) : option StateDB :=
  let idx := sort_Search (length (validRevisions s))
    (λ i, match validRevisions s !! i with Some r => revid <=? rev_id r | None => true end) in
  match validRevisions s !! idx with
  | None => None
  | Some r =>
      if rev_id r =? revid then
        match journal_revert (journalIndex r) s with
        | None => None
        | Some s => Some (set_validRevisions (take idx (validRevisions s)) s)
        end
      else None
  end.

(** ** statedb.go: the end of a transaction *)

(** The panic at an account that cannot be encoded is left out: of the fields
    only a negative balance has no encoding, and the callers of [SubBalance]
    ([CanTransfer], [buyGas]) check the balance first. *)
Definition updateStateObject (o : stateObject) (s : StateDB) : StateDB :=
  let '(t, err) := TryUpdate (addr_bytes (address o)) (encode_account (data o)) (trie s) in
  setError (SEDB <$> err) (set_trie t s).
Definition deleteStateObject (o : stateObject) (s : StateDB) : StateDB :=
  let s := setStateObject (set_deleted true o) s in
  let '(t, err) := TryDelete (addr_bytes (address o)) (trie s) in
  setError (SEDB <$> err) (set_trie t s).
Definition clearJournalAndRefund (s : StateDB) : StateDB :=
  set_refund 0 (set_validRevisions [] (set_dirties ∅ (set_entries [] s))).
Definition Finalise_addr (deleteEmptyObjects : bool) (addr : Z) (s : StateDB) : StateDB :=
  match stateObjects s !! addr with
  | None => s
  | Some o =>
      let s :=
        if suicided o || (deleteEmptyObjects && empty o) then deleteStateObject o s
        else
          let o := updateRoot (db s) o in
          updateStateObject o (setStateObject o s) in
      set_stateObjectsDirty (stateObjectsDirty s ∪ {[addr]}) s
  end.
Definition Finalise (deleteEmptyObjects : bool) (s : StateDB) : StateDB :=
  let s := fold_right (Finalise_addr deleteEmptyObjects) s (map_to_list (dirties s)).*1 in
  clearJournalAndRefund s.
Definition IntermediateRoot (deleteEmptyObjects : bool) (s : StateDB) : Z * StateDB :=
  let s := Finalise deleteEmptyObjects s in (TrieHash (trie s), s).
Definition Prepare (th bh ti : Z) (s : StateDB) : StateDB :=
  set_txIndex ti (set_bhash bh (set_thash th s)).
Definition New (d : D) (t : T) : StateDB :=
  mkStateDB d t ∅ ∅ None 0 0 0 0 ∅ 0 ∅ [] ∅ [] 0.

End State.
