(* ===== verification/CoreEvm.v ===== *)
(** * The state database as the virtual machine's state

    [StateDB.v] implements the interface of [core/vm/interface.go]; the
    transfer functions of [core/evm.go]. *)

From S2P Require Import Prelude BigMath Params Interfaces Machine StateDB.

(** ** core/evm.go *)

Section Transfer.
Context {S : Type} `{!VMState S}.
Definition CanTransfer_ (db : S) (addr amount : Z) : bool * S :=
  let '(b, db) := sGetBalance addr db in (amount <=? b, db).
Definition Transfer_ (db : S) (sender recipient amount : Z) : S :=
  sAddBalance recipient amount (sSubBalance sender amount db).
End Transfer.

Section Instance.
Context {D T : Type} `{!Crypto} `{!TrieI T} `{!DatabaseI D T} `{!AccountCodec}.
#[export] Instance StateDB_VMState : VMState (@StateDB.StateDB D T) := {|
  sCreateAccount := CreateAccount;
  sSubBalance := SubBalance;
  sAddBalance := AddBalance;
  sGetBalance := GetBalance;
  sGetNonce := GetNonce;
  sSetNonce := SetNonce;
  sGetCodeHash := GetCodeHash;
  sGetCode := GetCode;
  sSetCode a c := SetCode a (Some c);
  sGetCodeSize := GetCodeSize;
  sAddRefund := AddRefund;
  sSubRefund := SubRefund;
  sGetRefund := GetRefund;
  sGetCommittedState := GetCommittedState;
  sGetState := GetState;
  sSetState := SetState;
  sSuicide := Suicide;
  sHasSuicided := HasSuicided;
  sExist := Exist;
  sEmpty := Empty;
  sRevertToSnapshot := RevertToSnapshot;
  sSnapshot := Snapshot;
  sAddLog := AddLog;
  sAddPreimage := AddPreimage;
|}.
End Instance.
