(* ===== verification/Clique.v ===== *)
(** * Proof of authority

    [consensus/clique]: the snapshots of [snapshot.go], the engine of
    [clique.go] and its [api.go].  The cache of signatures is a third-party
    LRU: a map from which adding may evict anything.  A snapshot is stored as
    JSON, which the language's library reads back as it was.  The engine is a
    state: the snapshots on disk and in the cache, the cached signers of
    headers, the proposals and the account that signs.  The clock, the
    refusals of the database and the random choices are arguments; the lock
    and the goroutine that waits before it delivers a sealed block have no
    counterpart. *)

From stdpp Require Import sorting.
From S2P Require Import Prelude BigMath Params Rlp Interfaces Precompiles Header Trie Receipt Block Transaction Ethash.
From S2P Require Import StateDB BlockProcessor.

Record CliqueConfig := mkCliqueConfig { Period : Z; Epoch : Z }.  (* uint64 *)

Inductive cliqueerror :=
| errUnknownBlock | errInvalidCheckpointBeneficiary | errInvalidVote | errInvalidCheckpointVote
| errMissingVanity | errMissingSignature | errExtraSigners | errInvalidCheckpointSigners
| errMismatchingCheckpointSigners | errInvalidMixDigest | errInvalidUncleHash | errInvalidDifficulty
| errWrongDifficulty | ErrInvalidTimestamp | errInvalidVotingChain | errUnauthorizedSigner | errRecentlySigned
| errRecover | errFutureBlock | errUnknownAncestor | errUncles | errForkHashes | errPut | errSigning.
Abbreviation cres := (res cliqueerror).

Definition extraVanity : Z := 32.
Definition extraSeal : Z := 65.
Definition nonceAuthVote : bytes := replicate 8 255.
Definition nonceDropVote : bytes := replicate 8 0.

(** An LRU cache: [Add] puts the entry in and may drop others. *)
Class ARC := { evict : ∀ {A}, gmap Z A → gmap Z A; evict_sub {A} (m : gmap Z A) : evict m ⊆ m }.
Definition arc_Add `{!ARC} {A} (k : Z) (x : A) (m : gmap Z A) : gmap Z A := evict (<[k := x]> m).

Definition set_Extra (x : bytes) (h : Header) : Header :=
  mkHeader (h_ParentHash h) (h_UncleHash h) (h_Coinbase h) (h_Root h) (h_TxHash h) (h_ReceiptHash h) (h_Bloom h) (h_Difficulty h)
    (h_Number h) (h_GasLimit h) (h_GasUsed h) (h_Time h) x (h_MixDigest h) (h_Nonce h).

Section Recover.
Context {CRY : Crypto} {PCR : PrecompileCrypto} {LRU : ARC}.

(** [None]: the extra data is too short, and the slicing panics. *)
Definition sigHash (header : Header) : option Z :=
  let n := zlen (h_Extra header) - extraSeal in
  if n <? 0 then None
  else Some (rlpHash (VList (header_vals (set_Extra (take (Z.to_nat n) (h_Extra header)) header)))).
(** The signer, and the cache. *)
Definition ecrecover (header : Header) (sigcache : gmap Z Z) : cres Z * gmap Z Z :=
  let hash := Header_Hash header in
  match sigcache !! hash with
  | Some address => (Ok address, sigcache)
  | None =>
      if zlen (h_Extra header) <? extraSeal then (Err errMissingSignature, sigcache)
      else
        let signature := drop (Z.to_nat (zlen (h_Extra header) - extraSeal)) (h_Extra header) in
        match sigHash header with
        | None => (Panic, sigcache)
        | Some h =>
            match Ecrecover (hash_bytes h) signature with
            | None => (Err errRecover, sigcache)
            | Some pubkey => let signer := pub_address pubkey in (Ok signer, arc_Add hash signer sigcache)
            end
        end
  end.
End Recover.

(** ** Snapshots *)

Record Vote := mkVote { v_Signer : Z; v_Block : Z; v_Address : Z; v_Authorize : bool }.
Record Tally := mkTally { t_Authorize : bool; t_Votes : Z }.
(** The pointer to the cache of signatures is the engine's. *)
Record Snapshot := mkSnapshot {
  sn_config : CliqueConfig;
  sn_Number : Z;  (* uint64 *)
  sn_Hash : Z;
  sn_Signers : gset Z;
  sn_Recents : gmap Z Z;
  sn_Votes : list Vote;
  sn_Tally : gmap Z Tally;
}.
Definition set_Number (n : Z) (s : Snapshot) : Snapshot := mkSnapshot (sn_config s) n (sn_Hash s) (sn_Signers s) (sn_Recents s) (sn_Votes s) (sn_Tally s).
Definition set_config (c : CliqueConfig) (s : Snapshot) : Snapshot := mkSnapshot c (sn_Number s) (sn_Hash s) (sn_Signers s) (sn_Recents s) (sn_Votes s) (sn_Tally s).
Definition set_Hash (h : Z) (s : Snapshot) : Snapshot := mkSnapshot (sn_config s) (sn_Number s) h (sn_Signers s) (sn_Recents s) (sn_Votes s) (sn_Tally s).
Definition set_Signers (x : gset Z) (s : Snapshot) : Snapshot := mkSnapshot (sn_config s) (sn_Number s) (sn_Hash s) x (sn_Recents s) (sn_Votes s) (sn_Tally s).
Definition set_Recents (x : gmap Z Z) (s : Snapshot) : Snapshot := mkSnapshot (sn_config s) (sn_Number s) (sn_Hash s) (sn_Signers s) x (sn_Votes s) (sn_Tally s).
Definition set_Votes (x : list Vote) (s : Snapshot) : Snapshot := mkSnapshot (sn_config s) (sn_Number s) (sn_Hash s) (sn_Signers s) (sn_Recents s) x (sn_Tally s).
Definition set_Tally (x : gmap Z Tally) (s : Snapshot) : Snapshot := mkSnapshot (sn_config s) (sn_Number s) (sn_Hash s) (sn_Signers s) (sn_Recents s) (sn_Votes s) x.

Definition newSnapshot (config : CliqueConfig) (number hash : Z) (signers : list Z) : Snapshot :=
  mkSnapshot config number hash (list_to_set signers) ∅ [] ∅.
Definition validVote (address : Z) (authorize : bool) (s : Snapshot) : bool :=
  let signer := bool_decide (address ∈ sn_Signers s) in
  (signer && negb authorize) || (negb signer && authorize).
Definition cast (address : Z) (authorize : bool) (s : Snapshot) : bool * Snapshot :=
  if negb (validVote address authorize s) then (false, s)
  else
    match sn_Tally s !! address with
    | Some old => (true, set_Tally (<[address := mkTally (t_Authorize old) (t_Votes old + 1)]> (sn_Tally s)) s)
    | None => (true, set_Tally (<[address := mkTally authorize 1]> (sn_Tally s)) s)
    end.
Definition uncast (address : Z) (authorize : bool) (s : Snapshot) : bool * Snapshot :=
  match sn_Tally s !! address with
  | None => (false, s)
  | Some tally =>
      if negb (Bool.eqb (t_Authorize tally) authorize) then (false, s)
      else if 1 <? t_Votes tally then (true, set_Tally (<[address := mkTally (t_Authorize tally) (t_Votes tally - 1)]> (sn_Tally s)) s)
      else (true, set_Tally (base.delete address (sn_Tally s)) s)
  end.
(** The limit of a set of signers: one block in so many for each. *)
Definition recent_limit (s : Snapshot) : Z := Z.of_nat (base.size (sn_Signers s)) / 2 + 1.
Definition drop_recent (number : Z) (s : Snapshot) : Snapshot :=
  let limit := recent_limit s in
  if limit <=? number then set_Recents (base.delete (number - limit) (sn_Recents s)) s else s.

(** The loops over the votes, which take them off the list one by one: the
    first vote of a signer on an address, ... *)
Fixpoint discard_first (signer address : Z) (votes : list Vote) (s : Snapshot) : list Vote * Snapshot :=
  match votes with
  | [] => ([], s)
  | vote :: votes =>
      if (v_Signer vote =? signer) && (v_Address vote =? address) then (votes, (uncast (v_Address vote) (v_Authorize vote) s).2)
      else let '(l, s) := discard_first signer address votes s in (vote :: l, s)
  end.
(** ... all the votes of a signer, ... *)
Fixpoint discard_cast (signer : Z) (votes : list Vote) (s : Snapshot) : list Vote * Snapshot :=
  match votes with
  | [] => ([], s)
  | vote :: votes =>
      if v_Signer vote =? signer then discard_cast signer votes (uncast (v_Address vote) (v_Authorize vote) s).2
      else let '(l, s) := discard_cast signer votes s in (vote :: l, s)
  end.
(** ... and the votes on an address, whose tally goes with them. *)
Definition discard_about (address : Z) (votes : list Vote) : list Vote := filter (λ v, v_Address v ≠ address) votes.

Section Apply.
Context {CRY : Crypto} {PCR : PrecompileCrypto} {LRU : ARC}.

Definition vote_of (nonce : bytes) : cres bool :=
  if bool_decide (nonce = nonceAuthVote) then Ok true
  else if bool_decide (nonce = nonceDropVote) then Ok false
  else Err errInvalidVote.
(** A vote that passed changes the list of signers. *)
Definition pass_vote (address number : Z) (s : Snapshot) : Snapshot :=
  match sn_Tally s !! address with
  | Some tally =>
      if Z.of_nat (base.size (sn_Signers s)) / 2 <? t_Votes tally then
        let s :=
          if t_Authorize tally then set_Signers (sn_Signers s ∪ {[address]}) s
          else
            let s := drop_recent number (set_Signers (sn_Signers s ∖ {[address]}) s) in
            let '(votes, s) := discard_cast address (sn_Votes s) s in set_Votes votes s in
        let s := set_Votes (discard_about address (sn_Votes s)) s in
        set_Tally (base.delete address (sn_Tally s)) s
      else s
  | None => s  (* the zero tally has no votes *)
  end.
(** The turn of the loop of [apply] for a header whose signer is known. *)
Definition apply_signed (header : Header) (signer : Z) (s : Snapshot) : cres Snapshot :=
  let number := Big.Uint64 (h_Number header) in
  if negb (bool_decide (signer ∈ sn_Signers s)) then Err errUnauthorizedSigner
  else if existsb (λ r, r.2 =? signer) (map_to_list (sn_Recents s)) then Err errRecentlySigned
  else
    let s := set_Recents (<[number := signer]> (sn_Recents s)) s in
    let '(votes, s) := discard_first signer (h_Coinbase header) (sn_Votes s) s in
    let s := set_Votes votes s in
    authorize ←? vote_of (h_Nonce header);
    let '(counted, s) := cast (h_Coinbase header) authorize s in
    let s := if counted then set_Votes (sn_Votes s ++ [mkVote signer number (h_Coinbase header) authorize]) s else s in
    Ok (pass_vote (h_Coinbase header) number s).
Definition apply_header (header : Header) (s : Snapshot) (sigcache : gmap Z Z) : cres Snapshot * gmap Z Z :=
  let number := Big.Uint64 (h_Number header) in
  if Epoch (sn_config s) =? 0 then (Panic, sigcache)
  else
    let s := if number mod Epoch (sn_config s) =? 0 then set_Tally ∅ (set_Votes [] s) else s in
    let s := drop_recent number s in
    let '(r, sigcache) := ecrecover header sigcache in
    (signer ←? r; apply_signed header signer s, sigcache).
Fixpoint apply_headers (headers : list Header) (s : Snapshot) (sigcache : gmap Z Z) : cres Snapshot * gmap Z Z :=
  match headers with
  | [] => (Ok s, sigcache)
  | h :: headers =>
      let '(r, sigcache) := apply_header h s sigcache in
      match r with
      | Ok s => apply_headers headers s sigcache
      | r => (r, sigcache)
      end
  end.
Fixpoint contiguous (headers : list Header) : bool :=
  match headers with
  | h1 :: ((h2 :: _) as rest) => (Big.Uint64 (h_Number h2) =? u64 (Big.Uint64 (h_Number h1) + 1)) && contiguous rest
  | _ => true
  end.
Definition apply (headers : list Header) (s : Snapshot) (sigcache : gmap Z Z) : cres Snapshot * gmap Z Z :=
  match headers, last headers with
  | h :: _, Some l =>
      if negb (contiguous headers) then (Err errInvalidVotingChain, sigcache)
      else if negb (Big.Uint64 (h_Number h) =? u64 (sn_Number s + 1)) then (Err errInvalidVotingChain, sigcache)
      else
        let '(r, sigcache) := apply_headers headers s sigcache in
        (s ←? r; Ok (set_Hash (Header_Hash l) (set_Number (u64 (sn_Number s + zlen headers)) s)), sigcache)
  | _, _ => (Ok s, sigcache)
  end.
End Apply.

(** Addresses have one length: their order as bytes is that of the numbers. *)
Definition signers (s : Snapshot) : list Z := merge_sort Z.le (elements (sn_Signers s)).
Definition offset_of (signers : list Z) (signer : Z) : nat :=
  match list_find (λ x, x = signer) signers with Some (i, _) => i | None => length signers end.
(** [None]: without signers the remainder panics. *)
Definition inturn (number signer : Z) (s : Snapshot) : option bool :=
  let l := signers s in
  if zlen l =? 0 then None else Some (number mod zlen l =? Z.of_nat (offset_of l signer)).

(** ** The engine *)

Definition checkpointInterval : Z := 1024.
Definition epochLength : Z := 30000.
Definition wiggleTime : Z := 500000000.  (* nanoseconds *)
Definition diffInTurn : Z := 2.
Definition diffNoTurn : Z := 1.
Definition AddressLength : Z := 20.

(** [consensus.ChainReader] with the canonical chain, which this engine reads. *)
Record Chain := mkChain {
  ch_Config : ChainConfig;
  ch_CurrentHeader : option Header;
  ch_GetHeader : Z → Z → option Header;
  ch_GetHeaderByNumber : Z → option Header;
  ch_GetHeaderByHash : Z → option Header;
}.
Record Clique := mkClique {
  cq_config : CliqueConfig;
  cq_db : gmap Z Snapshot;
  cq_recents : gmap Z Snapshot;
  cq_signatures : gmap Z Z;
  cq_proposals : gmap Z bool;
  cq_signer : Z;
  cq_signFn : Z → bytes → option bytes;
  cq_fakeDiff : bool;
}.
Definition set_db (x : gmap Z Snapshot) (c : Clique) : Clique :=
  mkClique (cq_config c) x (cq_recents c) (cq_signatures c) (cq_proposals c) (cq_signer c) (cq_signFn c) (cq_fakeDiff c).
Definition set_recents (x : gmap Z Snapshot) (c : Clique) : Clique :=
  mkClique (cq_config c) (cq_db c) x (cq_signatures c) (cq_proposals c) (cq_signer c) (cq_signFn c) (cq_fakeDiff c).
Definition set_signatures (x : gmap Z Z) (c : Clique) : Clique :=
  mkClique (cq_config c) (cq_db c) (cq_recents c) x (cq_proposals c) (cq_signer c) (cq_signFn c) (cq_fakeDiff c).
Definition set_proposals (x : gmap Z bool) (c : Clique) : Clique :=
  mkClique (cq_config c) (cq_db c) (cq_recents c) (cq_signatures c) x (cq_signer c) (cq_signFn c) (cq_fakeDiff c).

Definition clique_New (config : CliqueConfig) (db : gmap Z Snapshot) : Clique :=
  let conf := if Epoch config =? 0 then mkCliqueConfig (Period config) epochLength else config in
  mkClique conf db ∅ ∅ ∅ 0 (λ _ _, None) false.
Definition Authorize (signer : Z) (signFn : Z → bytes → option bytes) (c : Clique) : Clique :=
  mkClique (cq_config c) (cq_db c) (cq_recents c) (cq_signatures c) (cq_proposals c) signer signFn (cq_fakeDiff c).

(** Results of the engine, which changes. *)
Definition CM (A : Type) : Type := Clique → cres A * Clique.
#[export] Instance cm_ret : MRet CM := λ A a c, (Ok a, c).
#[export] Instance cm_bind : MBind CM := λ A B f m c,
  let '(r, c) := m c in
  match r with Ok a => f a c | Err e => (Err e, c) | Panic => (Panic, c) | OutOfFuel => (OutOfFuel, c) end.
Definition cm_lift {A} (r : cres A) : CM A := λ c, (r, c).
Definition cm_get {A} (f : Clique → A) : CM A := λ c, (Ok (f c), c).
Definition check (b : bool) (e : cliqueerror) : cres unit := if b then Err e else Ok tt.

Definition copy_tail (n : Z) (src dst : bytes) : bytes :=
  let k := Z.to_nat (zlen dst - n) in
  let src := take (Z.to_nat n) src in
  take k dst ++ src ++ drop (k + length src) dst.
Definition address_bytes (l : list Z) : bytes := concat (map addr_bytes l).
(** The remainder by the length of the epoch. *)
Definition epoch_mod (number : Z) (config : CliqueConfig) : cres Z := if Epoch config =? 0 then Panic else Ok (number mod Epoch config).

Section Engine.
Context {CRY : Crypto} {PCR : PrecompileCrypto} {LRU : ARC}.
Variable now : Z.                    (* seconds *)
Variable store_ok : Snapshot → bool. (* the database takes the write *)
Variable chain : Chain.

Definition clique_ecrecover (header : Header) : CM Z := λ c,
  let '(r, sigcache) := ecrecover header (cq_signatures c) in (r, set_signatures sigcache c).
Definition Author (header : Header) : CM Z := clique_ecrecover header.

(** ** Snapshots *)

Definition loadSnapshot (hash : Z) (c : Clique) : option Snapshot := set_config (cq_config c) <$> cq_db c !! hash.
Definition snapshot_store (s : Snapshot) : CM unit := λ c,
  if store_ok s then (Ok tt, set_db (<[sn_Hash s := s]> (cq_db c)) c) else (Err errPut, c).
(** The signers in the extra data; [None]: the slice of a negative length. *)
Definition checkpoint_signers (extra : bytes) : option (list Z) :=
  let n := Z.quot (zlen extra - extraVanity - extraSeal) AddressLength in
  if n <? 0 then None
  else Some (map (λ i, be_val (take 20 (drop (32 + i * 20) extra))) (seq 0 (Z.to_nat n))).
Definition checkpoint_snapshot (number : Z) : CM (option Snapshot) :=
  config ← cm_get cq_config;
  known ← cm_lift (if number =? 0 then Ok true
                   else m ←? epoch_mod number config;
                        Ok ((m =? 0) && bool_decide (ch_GetHeaderByNumber chain (u64 (number - 1)) = None)));
  match (if known : bool then ch_GetHeaderByNumber chain number else None) with
  | None => mret None
  | Some checkpoint =>
      match checkpoint_signers (h_Extra checkpoint) with
      | None => cm_lift Panic
      | Some signers =>
          let snap := newSnapshot config number (Header_Hash checkpoint) signers in
          _ ← snapshot_store snap; mret (Some snap)
      end
  end.
(** The header to apply before the snapshot of [number] and [hash], and the
    parents that are left. *)
Definition next_header (number hash : Z) (parents : list Header) : cres (Header * list Header) :=
  match last parents with
  | Some header =>
      if negb (Header_Hash header =? hash) || negb (Big.Uint64 (h_Number header) =? number) then Err errUnknownAncestor
      else Ok (header, removelast parents)
  | None =>
      match ch_GetHeader chain hash number with
      | None => Err errUnknownAncestor
      | Some header => Ok (header, parents)
      end
  end.
(** The loop back to a snapshot, and the headers from it on, last first. *)
Fixpoint gather (fuel : nat) (number hash : Z) (parents headers : list Header) : CM (Snapshot * list Header) :=
  match fuel with
  | O => cm_lift OutOfFuel
  | S fuel =>
      recent ← cm_get (λ c, cq_recents c !! hash);
      match recent with
      | Some s => mret (s, headers)
      | None =>
          stored ← cm_get (λ c, if number mod checkpointInterval =? 0 then loadSnapshot hash c else None);
          match stored with
          | Some s => mret (s, headers)
          | None =>
              made ← checkpoint_snapshot number;
              match made with
              | Some s => mret (s, headers)
              | None =>
                  '(header, parents) ← cm_lift (next_header number hash parents);
                  gather fuel (u64 (number - 1)) (h_ParentHash header) parents (headers ++ [header])
              end
          end
      end
  end.
Definition clique_apply (headers : list Header) (s : Snapshot) : CM Snapshot := λ c,
  let '(r, sigcache) := apply headers s (cq_signatures c) in (r, set_signatures sigcache c).
Definition recents_add (s : Snapshot) : CM unit := λ c, (Ok tt, set_recents (evict (<[sn_Hash s := s]> (cq_recents c))) c).
Definition snapshot (fuel : nat) (number hash : Z) (parents : list Header) : CM Snapshot :=
  '(snap, headers) ← gather fuel number hash parents [];
  snap ← clique_apply (reverse headers) snap;
  _ ← recents_add snap;
  _ ← (if (sn_Number snap mod checkpointInterval =? 0) && (0 <? zlen headers) then snapshot_store snap else mret tt);
  mret snap.

(** ** Headers *)

Definition clique_VerifyUncles (block : Block) : cres unit := check (0 <? zlen (b_uncles block)) errUncles.
(** The recent signers that [signer] is among and that the block of [number]
    does not shift out. *)
Definition recent_at (shifted : Z → bool) (signer : Z) (s : Snapshot) : bool :=
  existsb (λ r, (r.2 =? signer) && shifted r.1) (map_to_list (sn_Recents s)).
Definition clique_verifySeal (fuel : nat) (header : Header) (parents : list Header) : CM unit :=
  let number := Big.Uint64 (h_Number header) in
  if number =? 0 then cm_lift (Err errUnknownBlock)
  else
    snap ← snapshot fuel (u64 (number - 1)) (h_ParentHash header) parents;
    signer ← clique_ecrecover header;
    fakeDiff ← cm_get cq_fakeDiff;
    cm_lift (
      _ ←? check (negb (bool_decide (signer ∈ sn_Signers snap))) errUnauthorizedSigner;
      _ ←? check (recent_at (λ seen, u64 (number - recent_limit snap) <? seen) signer snap) errRecentlySigned;
      if fakeDiff : bool then Ok tt
      else
        match inturn number signer snap with
        | None => Panic
        | Some inturn => check (negb (h_Difficulty header =? if inturn : bool then diffInTurn else diffNoTurn)) errWrongDifficulty
        end).
Definition clique_VerifySeal (fuel : nat) (header : Header) : CM unit := clique_verifySeal fuel header [].

Definition verifyCascadingFields (fuel : nat) (header : Header) (parents : list Header) : CM unit :=
  let number := Big.Uint64 (h_Number header) in
  if number =? 0 then mret tt
  else
    config ← cm_get cq_config;
    let parent := match last parents with Some p => Some p | None => ch_GetHeader chain (h_ParentHash header) (u64 (number - 1)) end in
    match parent with
    | None => cm_lift (Err errUnknownAncestor)
    | Some parent =>
        if negb (Big.Uint64 (h_Number parent) =? u64 (number - 1)) || negb (Header_Hash parent =? h_ParentHash header)
        then cm_lift (Err errUnknownAncestor)
        else if Big.Uint64 (h_Time header) <? u64 (Big.Uint64 (h_Time parent) + Period config) then cm_lift (Err ErrInvalidTimestamp)
        else
          snap ← snapshot fuel (u64 (number - 1)) (h_ParentHash header) parents;
          m ← cm_lift (epoch_mod number config);
          _ ← cm_lift (
            if m =? 0 then
              let extraSuffix := zlen (h_Extra header) - extraSeal in
              check (negb (bool_decide (drop 32 (take (Z.to_nat extraSuffix) (h_Extra header)) = address_bytes (signers snap))))
                errMismatchingCheckpointSigners
            else Ok tt);
          clique_verifySeal fuel header parents
    end.
Definition clique_header_checks (config : CliqueConfig) (header : Header) : cres unit :=
  let number := Big.Uint64 (h_Number header) in
  _ ←? check (now <? h_Time header) errFutureBlock;
  m ←? epoch_mod number config;
  let checkpoint := m =? 0 in
  _ ←? check (checkpoint && negb (h_Coinbase header =? 0)) errInvalidCheckpointBeneficiary;
  _ ←? check (negb (bool_decide (h_Nonce header = nonceAuthVote)) && negb (bool_decide (h_Nonce header = nonceDropVote))) errInvalidVote;
  _ ←? check (checkpoint && negb (bool_decide (h_Nonce header = nonceDropVote))) errInvalidCheckpointVote;
  _ ←? check (zlen (h_Extra header) <? extraVanity) errMissingVanity;
  _ ←? check (zlen (h_Extra header) <? extraVanity + extraSeal) errMissingSignature;
  let signersBytes := zlen (h_Extra header) - extraVanity - extraSeal in
  _ ←? check (negb checkpoint && negb (signersBytes =? 0)) errExtraSigners;
  _ ←? check (checkpoint && negb (Z.rem signersBytes AddressLength =? 0)) errInvalidCheckpointSigners;
  _ ←? check (negb (h_MixDigest header =? 0)) errInvalidMixDigest;
  _ ←? check (negb (h_UncleHash header =? EmptyUncleHash)) errInvalidUncleHash;
  _ ←? check ((0 <? number) && negb (h_Difficulty header =? diffInTurn) && negb (h_Difficulty header =? diffNoTurn)) errInvalidDifficulty;
  match VerifyForkHashes (ch_Config chain) header false with
  | Ok _ => Ok tt
  | _ => Err errForkHashes
  end.
Definition clique_verifyHeader (fuel : nat) (header : Header) (parents : list Header) : CM unit :=
  config ← cm_get cq_config;
  _ ← cm_lift (clique_header_checks config header);
  verifyCascadingFields fuel header parents.
Definition clique_VerifyHeader (fuel : nat) (header : Header) (seal : bool) : CM unit := clique_verifyHeader fuel header [].
(** The results in order, each header after those before it in the batch. *)
Fixpoint verify_batch (fuel : nat) (parents headers : list Header) (c : Clique) : list (cres unit) * Clique :=
  match headers with
  | [] => ([], c)
  | header :: headers =>
      let '(r, c) := clique_verifyHeader fuel header parents c in
      let '(rs, c) := verify_batch fuel (parents ++ [header]) headers c in
      (r :: rs, c)
  end.
Definition clique_VerifyHeaders (fuel : nat) (headers : list Header) : Clique → list (cres unit) * Clique := verify_batch fuel [] headers.

(** ** Production *)

Definition snapshot_CalcDifficulty (s : Snapshot) (signer : Z) : cres Z :=
  match inturn (u64 (sn_Number s + 1)) signer s with
  | None => Panic
  | Some inturn => Ok (if inturn : bool then diffInTurn else diffNoTurn)
  end.
(** [None]: no difficulty without a snapshot. *)
Definition clique_CalcDifficulty (fuel : nat) (parent : Header) (c : Clique) : cres (option Z) * Clique :=
  match snapshot fuel (Big.Uint64 (h_Number parent)) (Header_Hash parent) [] c with
  | (Ok snap, c) => (d ←? snapshot_CalcDifficulty snap (cq_signer c); Ok (Some d), c)
  | (Err _, c) => (Ok None, c)
  | (Panic, c) => (Panic, c)
  | (OutOfFuel, c) => (OutOfFuel, c)
  end.
(** The vote that is cast: [pick] chooses among the proposals that make sense. *)
Definition choose_vote (pick : nat) (proposals : gmap Z bool) (s : Snapshot) : Z * bytes :=
  let addresses := filter (λ p, validVote p.1 p.2 s = true) (map_to_list proposals) in
  match addresses !! (pick mod length addresses)%nat with
  | Some (address, authorize) => (address, if authorize : bool then nonceAuthVote else nonceDropVote)
  | None => (0, replicate 8 0)
  end.
Definition clique_Prepare (fuel pick : nat) (header : Header) : CM Header :=
  let number := Big.Uint64 (h_Number header) in
  snap ← snapshot fuel (u64 (number - 1)) (h_ParentHash header) [];
  config ← cm_get cq_config;
  m ← cm_lift (epoch_mod number config);
  proposals ← cm_get cq_proposals;
  let '(coinbase, nonce) := if negb (m =? 0) then choose_vote pick proposals snap else (0, replicate 8 0) in
  signer ← cm_get cq_signer;
  difficulty ← cm_lift (snapshot_CalcDifficulty snap signer);
  let extra := take 32 (h_Extra header ++ replicate (Z.to_nat (extraVanity - zlen (h_Extra header))) 0) in
  let extra := if m =? 0 then extra ++ address_bytes (signers snap) else extra in
  let extra := extra ++ replicate 65 0 in
  match ch_GetHeader chain (h_ParentHash header) (u64 (number - 1)) with
  | None => cm_lift (Err errUnknownAncestor)
  | Some parent =>
      let time := h_Time parent + Period config in
      let time := if i64 time <? now then now else time in
      mret (mkHeader (h_ParentHash header) (h_UncleHash header) coinbase (h_Root header) (h_TxHash header) (h_ReceiptHash header)
              (h_Bloom header) difficulty (h_Number header) (h_GasLimit header) (h_GasUsed header) time extra 0 nonce)
  end.
(** The sealed block and the delay in nanoseconds before it is delivered, if
    there is to be one. *)
Definition Seal (fuel : nat) (nanos random : Z) (block : Block) : CM (option (Z * Block)) :=
  let header := b_header block in
  let number := Big.Uint64 (h_Number header) in
  if number =? 0 then cm_lift (Err errUnknownBlock)
  else
    config ← cm_get cq_config;
    if (Period config =? 0) && (zlen (b_transactions block) =? 0) then mret None
    else
      signer ← cm_get cq_signer;
      signFn ← cm_get cq_signFn;
      snap ← snapshot fuel (u64 (number - 1)) (h_ParentHash header) [];
      if negb (bool_decide (signer ∈ sn_Signers snap)) then cm_lift (Err errUnauthorizedSigner)
      else if recent_at (λ seen, (number <? recent_limit snap) || (u64 (number - recent_limit snap) <? seen)) signer snap then mret None
      else
        let delay := Z.max (- 2 ^ 63) (Z.min (2 ^ 63 - 1) (i64 (h_Time header) * 1000000000 - nanos)) in
        let delay := if h_Difficulty header =? diffNoTurn then i64 (delay + random mod (recent_limit snap * wiggleTime)) else delay in
        match sigHash header with
        | None => cm_lift Panic
        | Some hash =>
            match signFn signer (hash_bytes hash) with
            | None => cm_lift (Err errSigning)
            | Some sighash =>
                mret (Some (delay, WithSeal (set_Extra (copy_tail extraSeal sighash (h_Extra header)) header) block))
            end
        end.
Definition clique_SealHash (header : Header) : option Z := sigHash header.

(** ** The interface to users *)

Definition header_at_block (number : option Z) : option Header :=
  match number with
  | None => ch_CurrentHeader chain
  | Some n => if n =? -1 then ch_CurrentHeader chain else ch_GetHeaderByNumber chain (u64 n)
  end.
Definition snapshot_of (fuel : nat) (header : option Header) : CM Snapshot :=
  match header with
  | None => cm_lift (Err errUnknownBlock)
  | Some header => snapshot fuel (Big.Uint64 (h_Number header)) (Header_Hash header) []
  end.
Definition GetSnapshot (fuel : nat) (number : option Z) : CM Snapshot := snapshot_of fuel (header_at_block number).
Definition GetSnapshotAtHash (fuel : nat) (hash : Z) : CM Snapshot := snapshot_of fuel (ch_GetHeaderByHash chain hash).
Definition GetSigners (fuel : nat) (number : option Z) : CM (list Z) := s ← GetSnapshot fuel number; mret (signers s).
Definition GetSignersAtHash (fuel : nat) (hash : Z) : CM (list Z) := s ← GetSnapshotAtHash fuel hash; mret (signers s).
End Engine.

Definition Proposals (c : Clique) : gmap Z bool := cq_proposals c.
Definition Propose (address : Z) (auth : bool) (c : Clique) : Clique := set_proposals (<[address := auth]> (cq_proposals c)) c.
Definition Discard (address : Z) (c : Clique) : Clique := set_proposals (base.delete address (cq_proposals c)) c.

(** ** The end of a block *)

Section Finalize.
Context {D T : Type} `{!Crypto} `{!TrieI T} `{!DatabaseI D T} `{!AccountCodec}.
Definition clique_Finalize (config : ChainConfig) (header : Header) (s : @StateDB.StateDB D T) (txs : list Transaction) (uncles : list Header)
    (receipts : list Receipt) : @StateDB.StateDB D T * tres (Header * Block) :=
  let '(root, s) := IntermediateRoot (IsEIP158 config (h_Number header)) s in
  let header := set_Root root header in
  let header := mkHeader (h_ParentHash header) (CalcUncleHash []) (h_Coinbase header) (h_Root header) (h_TxHash header) (h_ReceiptHash header)
                  (h_Bloom header) (h_Difficulty header) (h_Number header) (h_GasLimit header) (h_GasUsed header) (h_Time header)
                  (h_Extra header) (h_MixDigest header) (h_Nonce header) in
  (s, b ←? NewBlock header txs [] receipts; Ok (header, b)).
End Finalize.
