(* ===== verification/CliqueLaws.v ===== *)
(** * Laws of the proof of authority

    The specification is a ballot box: the signers, who signed recently, and
    the set of open votes, at most one for each signer and address.  A snapshot,
    with its list of votes and its cached tallies, refines it. *)

From stdpp Require Import sorting.
From S2P Require Import Prelude BigMath Params Memory Rlp Interfaces Precompiles Header Block Transaction Ethash Clique.

(** ** The ballot box *)

Record ballots := mkBallots { bx_signers : gset Z; bx_recents : gmap Z Z; bx_votes : gset (Z * Z) }.
Definition threshold (S : gset Z) : Z := Z.of_nat (base.size S) / 2.
Definition votes_on (a : Z) (B : gset (Z * Z)) : Z := Z.of_nat (base.size (filter (λ p, p.2 = a) B)).
(** Who signed a limit of blocks ago may sign again. *)
Definition window (S : gset Z) (number : Z) (R : gmap Z Z) : gmap Z Z :=
  let limit := threshold S + 1 in if limit <=? number then delete (number - limit) R else R.
Definition recently (x : Z) (R : gmap Z Z) : Prop := map_Exists (λ _ y, y = x) R.
#[export] Instance recently_dec x R : Decision (recently x R).
Proof. unfold recently. apply _. Defined.
(** A checkpoint empties the box; a place in the window is freed. *)
Definition box_open (epoch number : Z) (b : ballots) : ballots :=
  mkBallots (bx_signers b) (window (bx_signers b) number (bx_recents b)) (if number mod epoch =? 0 then ∅ else bx_votes b).
(** [x] signs the block of [number], with a vote on [a]. *)
Definition box_signed (number x a : Z) (vote : cres bool) (b : ballots) : cres ballots :=
  let S := bx_signers b in
  if decide (x ∉ S) then Err errUnauthorizedSigner
  else if decide (recently x (bx_recents b)) then Err errRecentlySigned
  else
    authorize ←? vote;
    let R := <[number := x]> (bx_recents b) in
    let B := bx_votes b ∖ {[(x, a)]} in
    let B := if decide (a ∈ S ↔ authorize = false) then B ∪ {[(x, a)]} else B in
    if threshold S <? votes_on a B then
      let B := filter (λ p, p.2 ≠ a) B in
      if decide (a ∈ S) then
        let S := S ∖ {[a]} in Ok (mkBallots S (window S number R) (filter (λ p, p.1 ≠ a) B))
      else Ok (mkBallots (S ∪ {[a]}) R B)
    else Ok (mkBallots S R B).
Definition box_step (epoch number x a : Z) (vote : cres bool) (b : ballots) : cres ballots :=
  box_signed number x a vote (box_open epoch number b).

(** ** Tallies *)

Definition ballot (v : Vote) : Z * Z := (v_Signer v, v_Address v).
Definition count (a : Z) (l : list Vote) : Z := Z.of_nat (length (filter (λ v, v_Address v = a) l)).
(** The tallies of the votes, all of them for the direction [f]. *)
Record tallied (f : Z → bool) (l : list Vote) (T : gmap Z Tally) : Prop := {
  ty_votes : Forall (λ v, v_Authorize v = f (v_Address v)) l;
  ty_tally : ∀ a, T !! a = if decide (count a l = 0) then None else Some (mkTally (f a) (count a l));
}.
Lemma count_cons a v l : count a (v :: l) = (if decide (v_Address v = a) then 1 else 0) + count a l.
Proof. unfold count. rewrite filter_cons. case_decide; cbn [length]; lia. Qed.
Lemma count_nonneg a l : 0 ≤ count a l.
Proof. unfold count. lia. Qed.
#[export] Instance count_perm a : Proper (Permutation ==> eq) (count a).
Proof. intros l l' H. unfold count. by rewrite (Permutation_length (filter_Permutation _ _ _ H)). Qed.
#[export] Instance tallied_perm f : Proper (Permutation ==> eq ==> iff) (tallied f).
Proof.
  intros l l' H T ? <-. assert (Hc : ∀ a, count a l = count a l') by (intros a; by rewrite H).
  split; intros [H1 H2]; split; [by rewrite <- H|intros a; by rewrite H2, Hc|by rewrite H|intros a; by rewrite H2, Hc].
Qed.
Lemma tallied_nil f : tallied f [] ∅.
Proof. split; [constructor|]. intros a. by rewrite lookup_empty, decide_True. Qed.
Lemma uncast_tallied f v l s : tallied f (v :: l) (sn_Tally s) →
  ∃ T, (uncast (v_Address v) (v_Authorize v) s).2 = set_Tally T s ∧ tallied f l T.
Proof.
  intros [Hv HT]. apply Forall_cons in Hv as [Hv Hl]. pose proof (HT (v_Address v)) as Ha.
  assert (E1 : count (v_Address v) (v :: l) = 1 + count (v_Address v) l) by (rewrite count_cons; by rewrite decide_True). rewrite E1 in Ha.
  pose proof (count_nonneg (v_Address v) l). unfold uncast. rewrite decide_False in Ha by lia. rewrite Ha. cbn [t_Authorize t_Votes].
  rewrite Hv, eqb_reflx. cbn [negb]. assert (Hother : ∀ a, a ≠ v_Address v → count a (v :: l) = count a l).
  { intros a Hne. rewrite count_cons, decide_False by done. lia. }
  destruct (Z.ltb_spec 1 (1 + count (v_Address v) l)); cbn [snd]; (eexists; split; [done|]); (split; [done|]); intros a;
    (destruct (decide (a = v_Address v)) as [->|Hne]; [|rewrite ?lookup_insert_ne, ?lookup_delete_ne by done; rewrite HT; by rewrite Hother]).
  - rewrite lookup_insert_eq, decide_False by lia. do 2 f_equal. lia.
  - rewrite lookup_delete_eq, decide_True by lia. done.
Qed.
Lemma filter_all {A} (P : A → Prop) `{!∀ x, Decision (P x)} l : Forall P l → filter P l = l.
Proof. induction 1 as [|x l Hx _ IH]; [done|]. by rewrite filter_cons_True, IH. Qed.
Lemma discard_first_cases x a l : ∀ s,
  (Forall (λ v, ballot v ≠ (x, a)) l ∧ discard_first x a l s = (l, s)) ∨
  ∃ pre v post, l = pre ++ v :: post ∧ ballot v = (x, a) ∧ discard_first x a l s = (pre ++ post, (uncast (v_Address v) (v_Authorize v) s).2).
Proof.
  induction l as [|v l IH]; intros s; [by left|]. cbn [discard_first].
  destruct (Z.eqb_spec (v_Signer v) x) as [Ex|Hx]; [destruct (Z.eqb_spec (v_Address v) a) as [Ea|Ha]|]; cbn [andb].
  - right. exists [], v, l. split_and!; [done|by unfold ballot; rewrite Ex, Ea|done].
  - destruct (IH s) as [[Hl E]|(pre & w & post & -> & Hw & E)]; rewrite E.
    + left. split; [|done]. constructor; [by intros [= _ ?]|done].
    + right. exists (v :: pre), w, post. by split_and!.
  - destruct (IH s) as [[Hl E]|(pre & w & post & -> & Hw & E)]; rewrite E.
    + left. split; [|done]. constructor; [by intros [= ? _]|done].
    + right. exists (v :: pre), w, post. by split_and!.
Qed.
Lemma discard_first_ok f x a l s : tallied f l (sn_Tally s) → NoDup (ballot <$> l) →
  ∃ T, discard_first x a l s = (filter (λ v, ballot v ≠ (x, a)) l, set_Tally T s) ∧ tallied f (filter (λ v, ballot v ≠ (x, a)) l) T.
Proof.
  intros HT Hnd. destruct (discard_first_cases x a l s) as [[Hl ->]|(pre & v & post & -> & Hv & ->)].
  - rewrite filter_all by done. exists (sn_Tally s). split; [by destruct s|done].
  - rewrite <- Permutation_middle in HT. destruct (uncast_tallied f v (pre ++ post) s HT) as (T & -> & HT').
    assert (E : filter (λ v, ballot v ≠ (x, a)) (pre ++ v :: post) = pre ++ post).
    { rewrite fmap_app, fmap_cons in Hnd. apply NoDup_app in Hnd as (_ & Hpre & Hpost). apply NoDup_cons in Hpost as [Hpost _].
      rewrite filter_app, filter_cons_False by (by intros ?). f_equal; apply filter_all, Forall_forall; intros w Hw Ew.
      - apply (Hpre (ballot w)); [by apply list_elem_of_fmap_2|]. rewrite Ew, <- Hv. by left.
      - apply Hpost. rewrite Hv, <- Ew. by apply list_elem_of_fmap_2. }
    rewrite E. by exists T.
Qed.
Lemma discard_cast_ok f x l : ∀ pre s, tallied f (pre ++ l) (sn_Tally s) →
  ∃ T, discard_cast x l s = (filter (λ v, v_Signer v ≠ x) l, set_Tally T s) ∧ tallied f (pre ++ filter (λ v, v_Signer v ≠ x) l) T.
Proof.
  induction l as [|v l IH]; intros pre s HT; cbn [discard_cast].
  { exists (sn_Tally s). split; [by destruct s|done]. }
  rewrite filter_cons. destruct (Z.eqb_spec (v_Signer v) x) as [E|Hne].
  - rewrite decide_False by (by intros ?). rewrite <- Permutation_middle in HT. destruct (uncast_tallied f v (pre ++ l) s HT) as (T & -> & HT').
    destruct (IH pre (set_Tally T s) HT') as (T' & -> & H'). by exists T'.
  - rewrite decide_True by done. destruct (IH (pre ++ [v]) s) as (T' & -> & H'); [by rewrite <- app_assoc|]. exists T'. rewrite <- app_assoc in H'. by split.
Qed.

(** ** A header *)

Definition dir (S : gset Z) (a : Z) : bool := negb (bool_decide (a ∈ S)).
Definition box_of (l : list Vote) : gset (Z * Z) := list_to_set (ballot <$> l).
Record refines (s : Snapshot) (b : ballots) : Prop := {
  rf_signers : bx_signers b = sn_Signers s;
  rf_recents : bx_recents b = sn_Recents s;
  rf_votes : bx_votes b = box_of (sn_Votes s);
  rf_tally : tallied (dir (sn_Signers s)) (sn_Votes s) (sn_Tally s);
  rf_once : NoDup (ballot <$> sn_Votes s);
}.
Lemma box_filter (P : Z * Z → Prop) (Q : Vote → Prop) `{!∀ p, Decision (P p)} `{!∀ v, Decision (Q v)} l :
  (∀ v, P (ballot v) ↔ Q v) → filter P (box_of l) = box_of (filter Q l).
Proof.
  intros HPQ. apply leibniz_equiv. intros p. unfold box_of. rewrite elem_of_filter, !elem_of_list_to_set, !list_elem_of_fmap. split.
  - intros [Hp (v & -> & Hv)]. exists v. split; [done|]. apply list_elem_of_filter. by rewrite <- HPQ.
  - intros (v & -> & Hv). apply list_elem_of_filter in Hv as [HQ Hv]. split; [by apply HPQ|]. by exists v.
Qed.
Lemma once_filter (Q : Vote → Prop) `{!∀ v, Decision (Q v)} l : NoDup (ballot <$> l) → NoDup (ballot <$> filter Q l).
Proof.
  induction l as [|v l IH]; [done|]. rewrite fmap_cons. intros [Hv Hl]%NoDup_cons. rewrite filter_cons. case_decide; [|by apply IH].
  rewrite fmap_cons. apply NoDup_cons. split; [|by apply IH]. intros Hin. apply Hv. apply list_elem_of_fmap in Hin as (w & -> & Hw).
  apply list_elem_of_filter in Hw as [_ Hw]. by apply list_elem_of_fmap_2.
Qed.
Lemma votes_on_count a l : NoDup (ballot <$> l) → votes_on a (box_of l) = count a l.
Proof.
  intros Hl. unfold votes_on, count. rewrite (box_filter (λ p, p.2 = a) (λ v, v_Address v = a)) by done. unfold box_of.
  rewrite size_list_to_set by by apply once_filter. by rewrite length_fmap.
Qed.
Lemma box_difference x a l : box_of l ∖ {[(x, a)]} = box_of (filter (λ v, ballot v ≠ (x, a)) l).
Proof.
  rewrite <- (box_filter (λ p, p ≠ (x, a)) (λ v, ballot v ≠ (x, a))) by done. apply leibniz_equiv. intros p. rewrite elem_of_difference, elem_of_filter, elem_of_singleton. tauto.
Qed.
Lemma box_app l v : box_of (l ++ [v]) = box_of l ∪ {[ballot v]}.
Proof. unfold box_of. rewrite fmap_app, list_to_set_app_L. cbn. by rewrite union_empty_r_L. Qed.
Lemma validVote_dir a auth s : validVote a auth s = Bool.eqb auth (dir (sn_Signers s) a).
Proof. unfold validVote, dir. by destruct (bool_decide _), auth. Qed.
Lemma dir_iff S a auth : (a ∈ S ↔ auth = false) ↔ auth = dir S a.
Proof. unfold dir. destruct (bool_decide_reflect (a ∈ S)), auth; naive_solver. Qed.
Lemma tallied_cast f v l s : tallied f l (sn_Tally s) → v_Authorize v = f (v_Address v) → f (v_Address v) = dir (sn_Signers s) (v_Address v) →
  ∃ T, cast (v_Address v) (v_Authorize v) s = (true, set_Tally T s) ∧ tallied f (l ++ [v]) T.
Proof.
  intros [Hv HT] Ev Ef. unfold cast. rewrite validVote_dir, Ev, Ef, eqb_reflx. cbn [negb].
  assert (Hl : Forall (λ v, v_Authorize v = f (v_Address v)) (l ++ [v])) by (apply Forall_app; split; [done|by constructor]).
  assert (Hc : ∀ a, count a (l ++ [v]) = (if decide (v_Address v = a) then 1 else 0) + count a l) by (intros a; by rewrite <- Permutation_cons_append, count_cons).
  assert (Hins : ∀ t, t_Authorize t = f (v_Address v) → t_Votes t = 1 + count (v_Address v) l → tallied f (l ++ [v]) (<[v_Address v := t]> (sn_Tally s))).
  { intros [ta tn]. cbn. intros -> ->. split; [done|]. intros a. pose proof (Hc a) as Hca. pose proof (count_nonneg a l).
    destruct (decide (v_Address v = a)) as [<-|Ea].
    - by rewrite lookup_insert_eq, Hca, decide_False by lia.
    - by rewrite lookup_insert_ne, HT, Hca by done. }
  pose proof (HT (v_Address v)) as Ha. case_decide as E0; rewrite Ha; (eexists; split; [done|]); apply Hins; cbn; [by rewrite Ef|lia|done|lia].
Qed.
Lemma tallied_about f g a l T : tallied f l T → (∀ c, c ≠ a → f c = g c) → tallied g (discard_about a l) (delete a T).
Proof.
  intros [Hv HT] Hfg. unfold discard_about. split.
  - apply Forall_forall. intros v Hin. apply list_elem_of_filter in Hin as [Hne Hin]. rewrite Forall_forall in Hv. by rewrite Hv, Hfg.
  - intros c. assert (Hc : count c (filter (λ v, v_Address v ≠ a) l) = if decide (c = a) then 0 else count c l).
    { unfold count. rewrite list_filter_filter. case_decide as E.
      - subst c. rewrite (list_filter_iff _ (λ _, False)) by tauto. clear. by induction l.
      - do 2 f_equal. apply list_filter_iff. intros v. split; [tauto|]. intros ->. done. }
    rewrite Hc. destruct (decide (c = a)) as [->|Hne]; [by rewrite lookup_delete_eq, decide_True|].
    rewrite lookup_delete_ne, HT by done. by rewrite Hfg.
Qed.

Lemma drop_recent_window number s : drop_recent number s = set_Recents (window (sn_Signers s) number (sn_Recents s)) s.
Proof. unfold drop_recent, recent_limit, window, threshold. destruct (_ <=? _); [done|by destruct s]. Qed.
Lemma recently_exists x R : existsb (λ r : Z * Z, r.2 =? x) (map_to_list R) = bool_decide (recently x R).
Proof.
  apply eq_true_iff_eq. rewrite existsb_exists, bool_decide_eq_true. unfold recently. split.
  - intros ([k y] & Hin & E%Z.eqb_eq). apply list_elem_of_In, elem_of_map_to_list in Hin. by exists k, y.
  - intros (k & y & Hin & ->). exists (k, x). split; [by apply list_elem_of_In, elem_of_map_to_list|apply Z.eqb_refl].
Qed.
Lemma vote_of_cases nonce : (∃ b, vote_of nonce = Ok b) ∨ vote_of nonce = Err errInvalidVote.
Proof. unfold vote_of. repeat case_bool_decide; eauto. Qed.

(** A vote that passes. *)
Definition frame (s s' : Snapshot) : Prop := sn_config s' = sn_config s ∧ sn_Number s' = sn_Number s ∧ sn_Hash s' = sn_Hash s.
Lemma pass_vote_ok a number s R B : refines s (mkBallots (sn_Signers s) R B) →
  frame s (pass_vote a number s) ∧ refines (pass_vote a number s)
    (if threshold (sn_Signers s) <? votes_on a B then
       let B := filter (λ p, p.2 ≠ a) B in
       if decide (a ∈ sn_Signers s) then
         let S := sn_Signers s ∖ {[a]} in mkBallots S (window S number R) (filter (λ p, p.1 ≠ a) B)
       else mkBallots (sn_Signers s ∪ {[a]}) R B
     else mkBallots (sn_Signers s) R B).
Proof.
  intros I. pose proof I as [_ HR HB HT Hnd]. cbn [bx_recents bx_votes] in HR, HB. subst R B. rewrite (votes_on_count a _ Hnd).
  pose proof (ty_tally _ _ _ HT a) as Ha. pose proof (count_nonneg a (sn_Votes s)) as Hc. unfold pass_vote. rewrite Ha.
  assert (Ht : 0 ≤ threshold (sn_Signers s)) by (apply Z.div_pos; lia). fold (threshold (sn_Signers s)). case_decide as E0.
  { destruct (Z.ltb_spec (threshold (sn_Signers s)) (count a (sn_Votes s))); [lia|by split]. }
  cbn [t_Votes t_Authorize]. destruct (_ <? _); [|by split]. cbv zeta. case_decide as Ea.
  - assert (Ed : dir (sn_Signers s) a = false) by (unfold dir; by rewrite bool_decide_true). rewrite Ed, drop_recent_window. cbn [sn_Signers sn_Recents sn_Votes set_Signers set_Recents].
    set (s1 := set_Recents _ _).
    destruct (discard_cast_ok _ a (sn_Votes s) [] s1 HT) as (T & -> & HT'). cbn [app] in HT'. split; [done|].
    split; cbn [bx_signers bx_recents bx_votes sn_Signers sn_Recents sn_Votes sn_Tally set_Votes set_Tally set_Signers set_Recents s1]; try done.
    + rewrite (box_filter (λ p, p.2 ≠ a) (λ v, v_Address v ≠ a)), (box_filter (λ p, p.1 ≠ a) (λ v, v_Signer v ≠ a)) by done.
      unfold discard_about. f_equal. rewrite !list_filter_filter. apply list_filter_iff. tauto.
    + eapply tallied_about; [exact HT'|]. intros c Hne. unfold dir. f_equal. apply bool_decide_ext. set_solver.
    + by apply once_filter, once_filter.
  - assert (Ed : dir (sn_Signers s) a = true) by (unfold dir; by rewrite bool_decide_false). rewrite Ed. split; [done|].
    split; cbn [bx_signers bx_recents bx_votes sn_Signers sn_Recents sn_Votes sn_Tally set_Votes set_Tally set_Signers]; try done.
    + by rewrite (box_filter (λ p, p.2 ≠ a) (λ v, v_Address v ≠ a)).
    + eapply tallied_about; [exact HT|]. intros c Hne. unfold dir. f_equal. apply bool_decide_ext. set_solver.
    + by apply once_filter.
Qed.
Definition outcome (s : Snapshot) (r : cres Snapshot) (q : cres ballots) : Prop :=
  match r, q with
  | Ok s', Ok b' => frame s s' ∧ refines s' b'
  | Err e, Err e' => e = e'
  | _, _ => False
  end.
Lemma apply_signed_ok header x s b : refines s b →
  outcome s (apply_signed header x s) (box_signed (Big.Uint64 (h_Number header)) x (h_Coinbase header) (vote_of (h_Nonce header)) b).
Proof.
  intros [HS HR HB HT Hnd]. destruct b as [S R B]. cbn [bx_signers bx_recents bx_votes] in *. subst S R B.
  unfold apply_signed, box_signed. cbn [bx_signers bx_recents bx_votes]. rewrite <- bool_decide_not. set (number := Big.Uint64 _). set (a := h_Coinbase header).
  destruct (decide (x ∉ sn_Signers s)) as [Hx|Hx]; [by rewrite bool_decide_true|]. rewrite bool_decide_false by done. rewrite recently_exists.
  destruct (decide (recently x (sn_Recents s))) as [Hr|Hr]; [by rewrite bool_decide_true|]. rewrite bool_decide_false by done.
  cbn [sn_Votes set_Recents]. set (s1 := set_Recents _ s).
  destruct (discard_first_ok _ x a (sn_Votes s) s1 HT Hnd) as (T & -> & HT1).
  set (l := filter _ (sn_Votes s)) in *. assert (Hl : NoDup (ballot <$> l)) by (by apply once_filter).
  destruct (vote_of_cases (h_Nonce header)) as [[auth ->]| ->]; [|done]. cbn [res_bind]. rewrite box_difference. fold l.
  set (s2 := set_Votes l (set_Tally T s1)).
  destruct (decide (auth = dir (sn_Signers s) a)) as [Eauth|Eauth].
  - destruct (tallied_cast (dir (sn_Signers s)) (mkVote x number a auth) l s2) as (T2 & Ec & HT2); [exact HT1|exact Eauth|done|].
    cbn [v_Address v_Authorize] in Ec. rewrite Ec. rewrite decide_True by by apply dir_iff.
    match goal with |- outcome _ (Ok (pass_vote _ _ ?s3)) _ => pose proof (pass_vote_ok a number s3 (<[number := x]> (sn_Recents s)) (box_of l ∪ {[(x, a)]})) as [Hfr Hp] end.
    { split; cbn [bx_signers bx_recents bx_votes sn_Signers sn_Recents sn_Votes sn_Tally set_Votes set_Tally set_Recents s2 s1]; [done|done|by rewrite box_app|exact HT2|]. rewrite fmap_app. apply NoDup_app. split; [done|]. split; [|by apply NoDup_singleton].
      intros p Hp ->%list_elem_of_singleton. apply list_elem_of_fmap in Hp as (v & Ev & Hv). apply list_elem_of_filter in Hv as [Hv _]. by rewrite <- Ev in Hv. }
    cbn [sn_Signers set_Votes set_Tally set_Recents s2 s1] in Hp. unfold outcome. destruct (_ <? _); [destruct (decide (a ∈ sn_Signers s))|]; by split.
  - assert (Ec : cast a auth s2 = (false, s2)).
    { unfold cast. rewrite validVote_dir. cbn [sn_Signers set_Votes set_Tally set_Recents s2 s1]. destruct (eqb_spec auth (dir (sn_Signers s) a)); [done|done]. }
    rewrite Ec. rewrite decide_False by (by rewrite dir_iff).
    destruct (pass_vote_ok a number s2 (<[number := x]> (sn_Recents s)) (box_of l)) as [Hfr Hp]; [by split|].
    cbn [sn_Signers set_Votes set_Tally set_Recents s2 s1] in Hp. unfold outcome. destruct (_ <? _); [destruct (decide (a ∈ sn_Signers s))|]; by split.
Qed.

(** ** Headers in a row *)

Section Headers.
Context {CRY : Crypto} {PCR : PrecompileCrypto} {LRU : ARC}.
(** The signer of a header, whatever is cached. *)
Definition signer_of (h : Header) : cres Z := (ecrecover h ∅).1.
Fixpoint box_run (epoch : Z) (headers : list Header) (b : ballots) : cres ballots :=
  match headers with
  | [] => Ok b
  | h :: headers =>
      x ←? signer_of h;
      b ←? box_step epoch (Big.Uint64 (h_Number h)) x (h_Coinbase h) (vote_of (h_Nonce h)) b;
      box_run epoch headers b
  end.
(** Headers of one hash have one signer. *)
Variable world : Header → Prop.
Context (HD : ∀ h h', world h → world h' → Header_Hash h = Header_Hash h' → signer_of h = signer_of h').
Definition coherent (cache : gmap Z Z) : Prop := ∀ h a, world h → cache !! Header_Hash h = Some a → signer_of h = Ok a.
Lemma coherent_empty : coherent ∅.
Proof. intros h a _. by rewrite lookup_empty. Qed.
Lemma coherent_sub m m' : m' ⊆ m → coherent m → coherent m'.
Proof. intros Hs H h a Hw Ha. eapply H; [done|]. by eapply lookup_weaken. Qed.
Lemma ecrecover_miss h cache : cache !! Header_Hash h = None →
  (ecrecover h cache).1 = signer_of h ∧ ∀ a, (ecrecover h cache).2 = cache ∨ (signer_of h = Ok a → (ecrecover h cache).2 = arc_Add (Header_Hash h) a cache).
Proof.
  intros E. unfold signer_of, ecrecover. rewrite E, lookup_empty. destruct (_ <? _); [by split; [|left]|].
  destruct (sigHash h); [|by split; [|left]]. destruct (Ecrecover _ _); [|by split; [|left]]. split; [done|]. intros a. right. cbn. by intros [= ->].
Qed.
Lemma ecrecover_ok h cache : world h → coherent cache → (ecrecover h cache).1 = signer_of h ∧ coherent (ecrecover h cache).2.
Proof.
  intros Hw Hc. destruct (cache !! Header_Hash h) as [a|] eqn:E.
  { assert (Ee : ecrecover h cache = (Ok a, cache)) by (unfold ecrecover; by rewrite E). rewrite Ee. split; [|done]. symmetry. by apply Hc. }
  destruct (ecrecover_miss h cache E) as [E1 E2]. split; [done|]. destruct (signer_of h) as [a| | |] eqn:Es.
  2-4: destruct (E2 0) as [->|_]; [done|]; unfold ecrecover in E1 |- *; rewrite E in *; destruct (_ <? _); [done|];
       destruct (sigHash h); [|done]; by destruct (Ecrecover _ _).
  destruct (E2 a) as [->|H]; [done|]. rewrite (H eq_refl). eapply coherent_sub; [apply evict_sub|].
  intros h' a' Hw' Ha. destruct (decide (Header_Hash h' = Header_Hash h)) as [Eh|Hne].
  - rewrite Eh, lookup_insert_eq in Ha. injection Ha as <-. rewrite <- Es. by apply HD.
  - rewrite lookup_insert_ne in Ha by done. by apply Hc.
Qed.
Lemma signer_of_cases h : (∃ a, signer_of h = Ok a) ∨ ∃ e, signer_of h = Err e.
Proof.
  unfold signer_of, ecrecover. rewrite lookup_empty. destruct (Z.ltb_spec (zlen (h_Extra h)) extraSeal); [right; by eexists|].
  unfold sigHash. destruct (Z.ltb_spec (zlen (h_Extra h) - extraSeal) 0); [lia|]. destruct (Ecrecover _ _); [left|right]; by eexists.
Qed.
Lemma box_open_refines number s b : refines s b →
  let s1 := if number mod Epoch (sn_config s) =? 0 then set_Tally ∅ (set_Votes [] s) else s in
  frame s (drop_recent number s1) ∧ refines (drop_recent number s1) (box_open (Epoch (sn_config s)) number b).
Proof.
  intros [HS HR HB HT Hnd]. cbv zeta. rewrite drop_recent_window. unfold box_open. rewrite HS, HR.
  destruct (_ =? 0); (split; [done|]); split; try done; first [apply tallied_nil|constructor].
Qed.
Lemma outcome_frame s s1 r q : frame s s1 → outcome s1 r q → outcome s r q.
Proof. intros (H1 & H2 & H3). destruct r, q; try done. intros [(?&?&?) ?]. split; [split_and!; congruence|done]. Qed.
Lemma apply_header_ok h s b cache : world h → coherent cache → refines s b → Epoch (sn_config s) ≠ 0 →
  outcome s (apply_header h s cache).1
    (x ←? signer_of h; box_step (Epoch (sn_config s)) (Big.Uint64 (h_Number h)) x (h_Coinbase h) (vote_of (h_Nonce h)) b) ∧
  coherent (apply_header h s cache).2.
Proof.
  intros Hw Hc Hr He. unfold apply_header. rewrite (proj2 (Z.eqb_neq _ _) He).
  destruct (box_open_refines (Big.Uint64 (h_Number h)) s b Hr) as [Hf Hr1]. cbv zeta in *. set (s1 := drop_recent _ _) in *.
  destruct (ecrecover_ok h cache Hw Hc) as [E1 E2]. destruct (ecrecover h cache) as [r c]. cbn [fst snd] in *. subst r. split; [|done].
  destruct (signer_of_cases h) as [[x ->]|[e ->]]; [|done]. cbn [res_bind]. eapply outcome_frame; [exact Hf|]. by apply apply_signed_ok.
Qed.
Lemma apply_headers_ok headers : ∀ s b cache, Forall world headers → coherent cache → refines s b → Epoch (sn_config s) ≠ 0 →
  outcome s (apply_headers headers s cache).1 (box_run (Epoch (sn_config s)) headers b) ∧ coherent (apply_headers headers s cache).2.
Proof.
  induction headers as [|h headers IH]; intros s b cache Hw Hc Hr He; cbn [apply_headers box_run]; [done|].
  apply Forall_cons in Hw as [Hw Hws]. destruct (apply_header_ok h s b cache Hw Hc Hr He) as [Ho Hc'].
  destruct (apply_header h s cache) as [r c]. cbn [fst snd] in *. destruct (signer_of_cases h) as [[x E]|[e E]]; rewrite E in Ho |- *; cbn [res_bind] in Ho |- *.
  - destruct (box_step _ _ _ _ _ b) as [b'|e| |]; destruct r as [s'|e'| |]; try done. destruct Ho as [Hf Hr']. cbn [res_bind].
    pose proof Hf as (Ec & _). destruct (IH s' b' c Hws Hc' Hr') as [Ho Hc'']; [by rewrite Ec|]. rewrite Ec in Ho.
    split; [|done]. by eapply outcome_frame.
  - by destruct r.
Qed.
End Headers.

(** ** Who may sign *)

(** After block [n], the recent signers are those of the last blocks, at most
    one less than the limit, and distinct; votes are those of signers. *)
Record spaced (n : Z) (b : ballots) : Prop := {
  sp_window : ∀ k x, bx_recents b !! k = Some x → 0 ≤ k ≤ n ∧ n ≤ k + threshold (bx_signers b);
  sp_distinct : ∀ k k' x, bx_recents b !! k = Some x → bx_recents b !! k' = Some x → k = k';
  sp_members : ∀ p, p ∈ bx_votes b → p.1 ∈ bx_signers b;
}.
Lemma spaced_new n S : spaced n (mkBallots S ∅ ∅).
Proof. split; intros *; cbn; by rewrite ?lookup_empty. Qed.
Lemma window_lookup S number R k x : window S number R !! k = Some x ↔ R !! k = Some x ∧ (threshold S + 1 ≤ number → k ≠ number - (threshold S + 1)).
Proof.
  unfold window. destruct (Z.leb_spec (threshold S + 1) number); [rewrite lookup_delete_Some|]; split; intros; naive_solver lia.
Qed.
Lemma threshold_nonneg S : 0 ≤ threshold S.
Proof. apply Z.div_pos; lia. Qed.
Lemma threshold_lt S : S ≠ ∅ → (Z.to_nat (threshold S) < base.size S)%nat.
Proof.
  intros Hne. assert (base.size S ≠ 0%nat) by (intros E%size_empty_inv; apply Hne; by apply leibniz_equiv).
  apply Nat2Z.inj_lt. rewrite Z2Nat.id by apply threshold_nonneg. apply Z.div_lt; lia.
Qed.
Lemma pigeon (S V : gset Z) : (base.size V < base.size S)%nat → ∃ x, x ∈ S ∧ x ∉ V.
Proof.
  intros Hlt. destruct (decide (S ⊆ V)) as [Hsub|Hsub]; [apply subseteq_size in Hsub; lia|].
  assert (Hex : S ∖ V ≠ ∅) by (intros E; apply Hsub; set_solver). apply set_choose_L in Hex as [x [Hx HxV]%elem_of_difference]. by exists x.
Qed.
Lemma threshold_remove S a : a ∈ S → threshold S - 1 ≤ threshold (S ∖ {[a]}) ≤ threshold S.
Proof.
  intros Ha. unfold threshold. rewrite size_difference by set_solver. rewrite size_singleton.
  assert (base.size S ≠ 0%nat) by (intros E%size_empty_inv; set_solver).
  replace (Z.of_nat (base.size S - 1)) with (Z.of_nat (base.size S) - 1) by lia.
  pose proof (Z.div_le_mono (Z.of_nat (base.size S) - 1) (Z.of_nat (base.size S)) 2 ltac:(done) ltac:(lia)).
  pose proof (Z.div_le_mono (Z.of_nat (base.size S) - 2) (Z.of_nat (base.size S) - 1) 2 ltac:(done) ltac:(lia)).
  replace (Z.of_nat (base.size S) - 2) with (Z.of_nat (base.size S) + (-1) * 2) in * by lia. rewrite Z.div_add in * by lia. lia.
Qed.
Lemma threshold_add S a : threshold S ≤ threshold (S ∪ {[a]}).
Proof. apply Z.div_le_mono; [lia|]. apply Nat2Z.inj_le, subseteq_size. set_solver. Qed.
Lemma box_open_spaced epoch n b : 0 ≤ n → spaced n b → spaced n (box_open epoch (n + 1) b) ∧
  ∀ k x, bx_recents (box_open epoch (n + 1) b) !! k = Some x → n + 1 ≤ k + threshold (bx_signers b).
Proof.
  intros Hn [H1 H2 H3]. unfold box_open. pose proof (threshold_nonneg (bx_signers b)). split; [split|]; cbn [bx_signers bx_recents bx_votes].
  - intros k x [Hk _]%window_lookup. by eapply H1.
  - intros k k' x [Hk _]%window_lookup [Hk' _]%window_lookup. by eapply H2.
  - intros p. destruct (_ =? 0); [by intros ?%elem_of_empty|apply H3].
  - intros k x [Hk Hne]%window_lookup. pose proof (H1 _ _ Hk). destruct (Z.eq_dec n (k + threshold (bx_signers b))); [|lia].
    destruct (Hne ltac:(lia) ltac:(lia)).
Qed.
Lemma box_step_spaced epoch n x a vote b b' : 0 ≤ n → spaced n b → box_step epoch (n + 1) x a vote b = Ok b' → spaced (n + 1) b'.
Proof.
  intros Hn Hs. unfold box_step. destruct (box_open_spaced epoch n b Hn Hs) as [[H1 H2 H3] Hw]. pose proof (threshold_nonneg (bx_signers b)) as Ht.
  set (o := box_open epoch (n + 1) b) in *. change (bx_signers b) with (bx_signers o) in *. clearbody o. clear Hs b.
  unfold box_signed. destruct (decide _) as [|Hx]; [done|]. apply dec_stable in Hx. destruct (decide _) as [|Hr]; [done|].
  destruct vote as [auth|e| |]; try done. cbn [res_bind]. set (R := <[n + 1 := x]> (bx_recents o)).
  set (B := if decide (a ∈ bx_signers o ↔ auth = false) then _ else _).
  assert (HB : ∀ p, p ∈ B → p.1 ∈ bx_signers o).
  { intros p. unfold B. destruct (decide _); [intros [Hp|Hp%elem_of_singleton]%elem_of_union; [|by subst p]|intros Hp]; apply elem_of_difference in Hp as [Hp _]; by apply H3. }
  assert (HR : ∀ k y, R !! k = Some y → 0 ≤ k ≤ n + 1 ∧ n + 1 ≤ k + threshold (bx_signers o)).
  { intros k y. unfold R. intros [[<- <-]|[_ Hk]]%lookup_insert_Some; [lia|]. pose proof (H1 _ _ Hk). pose proof (Hw _ _ Hk). lia. }
  assert (HD : ∀ k k' y, R !! k = Some y → R !! k' = Some y → k = k').
  { intros k k' y. unfold R. intros [[<- <-]|[_ Hk]]%lookup_insert_Some [[<- Ey]|[_ Hk']]%lookup_insert_Some; [done| | |by eapply H2].
    - destruct Hr. by exists k', x.
    - destruct Hr. exists k, y. by split. }
  clearbody B R. destruct (_ <? _); [destruct (decide (a ∈ bx_signers o)) as [Ha|Ha]|]; intros [= <-]; split; cbn [bx_signers bx_recents bx_votes]; try done.
  - intros k y [Hk Hne]%window_lookup. pose proof (HR _ _ Hk). pose proof (threshold_remove _ _ Ha). split; [lia|].
    destruct (Z.eq_dec (n + 1) (k + threshold (bx_signers o ∖ {[a]}) + 1)); [|lia]. destruct (Hne ltac:(lia) ltac:(lia)).
  - intros k k' y [Hk _]%window_lookup [Hk' _]%window_lookup. by eapply HD.
  - intros p (Hpa & Hp)%elem_of_filter. apply elem_of_filter in Hp as [_ Hp]. apply HB in Hp. set_solver.
  - intros k y Hk. pose proof (HR _ _ Hk). pose proof (threshold_add (bx_signers o) a). lia.
  - intros p (_ & Hp)%elem_of_filter. apply HB in Hp. set_solver.
Qed.
Lemma size_list_to_set_le (l : list Z) : (base.size (list_to_set l : gset Z) ≤ length l)%nat.
Proof.
  induction l as [|x l IH]; cbn [list_to_set length]; [by rewrite size_empty|].
  pose proof (size_union_alt ({[x]} : gset Z) (list_to_set l)) as E. pose proof (subseteq_size ((list_to_set l : gset Z) ∖ {[x]}) (list_to_set l) ltac:(set_solver)).
  rewrite size_singleton in E. lia.
Qed.
(** Someone may sign the next block. *)
Lemma box_progress epoch n b : 0 ≤ n → spaced n b → bx_signers b ≠ ∅ →
  ∃ x, x ∈ bx_signers b ∧ ∀ a auth, ∃ b', box_step epoch (n + 1) x a (Ok auth) b = Ok b'.
Proof.
  intros Hn Hs Hne. destruct (box_open_spaced epoch n b Hn Hs) as [[H1 H2 H3] Hw]. pose proof (threshold_nonneg (bx_signers b)) as Ht.
  unfold box_step. set (o := box_open epoch (n + 1) b) in *. change (bx_signers b) with (bx_signers o) in *. clearbody o. clear Hs b.
  set (S := bx_signers o) in *. set (V := list_to_set ((map_to_list (bx_recents o)).*2) : gset Z).
  assert (HV : (base.size V ≤ Z.to_nat (threshold S))%nat).
  { trans (base.size (bx_recents o)).
    - unfold V. etrans; [apply size_list_to_set_le|]. by rewrite length_fmap, length_map_to_list.
    - rewrite <- (size_dom (D:=gset Z)). etrans; [apply (subseteq_size _ (list_to_set (seqZ (n + 1 - threshold S) (threshold S))))|].
      + intros k [y Hy]%elem_of_dom. apply elem_of_list_to_set, elem_of_seqZ. pose proof (H1 _ _ Hy). pose proof (Hw _ _ Hy). lia.
      + etrans; [apply size_list_to_set_le|]. rewrite length_seqZ. done. }
  assert (Hsz : (Z.to_nat (threshold S) < base.size S)%nat).
  { by apply threshold_lt. }
  destruct (pigeon S V) as (x & Hx & HxV); [by eapply Nat.le_lt_trans|].
  exists x. split; [done|]. intros a auth. unfold box_signed. fold S. rewrite decide_False by (by intros ?).
  rewrite decide_False.
  2:{ intros (k & y & Hk & ->). apply HxV. unfold V. apply elem_of_list_to_set, list_elem_of_fmap. exists (k, x). split; [done|]. by apply elem_of_map_to_list. }
  cbn [res_bind]. destruct (_ <? _); [destruct (decide (a ∈ S))|]; by eexists.
Qed.

(** ** Snapshots along a chain *)

Fixpoint numbered_from (n : Z) (headers : list Header) : Prop :=
  match headers with
  | [] => True
  | h :: headers => Big.Uint64 (h_Number h) = n ∧ numbered_from (n + 1) headers
  end.
#[export] Instance numbered_from_dec n headers : Decision (numbered_from n headers).
Proof. revert n. induction headers as [|h headers IH]; intros n; cbn [numbered_from]; apply _. Defined.
Definition snap_ok (s : Snapshot) (b : ballots) : Prop := refines s b ∧ spaced (sn_Number s) b ∧ is_u64 (sn_Number s).
Lemma snap_ok_new config number hash l : is_u64 number → snap_ok (newSnapshot config number hash l) (mkBallots (list_to_set l) ∅ ∅).
Proof. intros Hn. split; [|by split; [apply spaced_new|]]. split; try done; first [apply tallied_nil|constructor]. Qed.
Lemma contiguous_numbered h headers n : Big.Uint64 (h_Number h) = n → n + zlen headers < 2 ^ 64 → contiguous (h :: headers) = true ↔ numbered_from n (h :: headers).
Proof.
  revert h n. induction headers as [|h' headers IH]; intros h n E Hn; cbn [contiguous numbered_from]; [by split|].
  rewrite E. assert (Hr : zlen (h' :: headers) = zlen headers + 1) by (unfold zlen; cbn [length]; lia).
  assert (0 ≤ zlen headers) by (unfold zlen; lia). pose proof (Big.Uint64_range (h_Number h)) as Hu. rewrite E in Hu.
  rewrite (u64_id (n + 1)) by (unfold is_u64 in *; lia). rewrite andb_true_iff, Z.eqb_eq. split.
  - intros [E' Hc]. split; [done|]. apply IH; [done|lia|done].
  - intros (_ & E' & Hc). split; [done|]. apply (IH h' (n + 1)); [done|lia|by split].
Qed.

Section Snapshots.
Context {CRY : Crypto} {PCR : PrecompileCrypto} {LRU : ARC}.
Lemma box_run_spaced epoch headers : ∀ n b b', 0 ≤ n → numbered_from (n + 1) headers → spaced n b → box_run epoch headers b = Ok b' →
  spaced (n + zlen headers) b'.
Proof.
  induction headers as [|h headers IH]; intros n b b' Hn Hh Hs; cbn [box_run].
  { intros [= <-]. by replace (n + zlen (@nil Header)) with n by (unfold zlen; cbn [length]; lia). }
  destruct Hh as [Eh Hh]. rewrite Eh. intros E0. destruct (proj1 (res_bind_ok _ _ _) E0) as (x & _ & E2). destruct (proj1 (res_bind_ok _ _ _) E2) as (b1 & E1 & E).
  replace (n + zlen (h :: headers)) with (n + 1 + zlen headers) by (unfold zlen; cbn [length]; lia).
  eapply IH; [lia|done| |exact E]. by eapply box_step_spaced.
Qed.
Lemma box_run_app epoch l1 l2 b : box_run epoch (l1 ++ l2) b = (b1 ←? box_run epoch l1 b; box_run epoch l2 b1).
Proof.
  revert b. induction l1 as [|h l1 IH]; intros b; cbn [box_run app]; [done|]. destruct (signer_of h); [|done..]. cbn [res_bind].
  destruct (box_step _ _ _ _ _ b); [|done..]. apply IH.
Qed.
Variable world : Header → Prop.
Context (HD : ∀ h h', world h → world h' → Header_Hash h = Header_Hash h' → signer_of h = signer_of h').
(** What [apply] makes of headers. *)
Definition applied_as (headers : list Header) (s : Snapshot) (r : cres Snapshot) (q : cres ballots) : Prop :=
  match r with
  | Ok s' => ∃ b', q = Ok b' ∧ numbered_from (sn_Number s + 1) headers ∧ snap_ok s' b' ∧ sn_config s' = sn_config s ∧
      sn_Number s' = sn_Number s + zlen headers ∧ sn_Hash s' = from_option Header_Hash (sn_Hash s) (last headers)
  | Err e => if decide (numbered_from (sn_Number s + 1) headers) then q = Err e else e = errInvalidVotingChain
  | _ => False
  end.
Lemma apply_ok headers s b cache : Forall world headers → coherent world cache → snap_ok s b → Epoch (sn_config s) ≠ 0 →
  sn_Number s + zlen headers < 2 ^ 64 →
  applied_as headers s (apply headers s cache).1 (box_run (Epoch (sn_config s)) headers b) ∧ coherent world (apply headers s cache).2.
Proof.
  intros Hw Hc (Hr & Hs & Hu) He Hn. unfold apply. destruct headers as [|h headers].
  { split; [|done]. exists b. split_and!; try done. unfold zlen; cbn [length]; lia. }
  destruct (last (h :: headers)) as [l|] eqn:El; [|by apply last_None in El].
  assert (Hlen : zlen (h :: headers) = zlen headers + 1) by (unfold zlen; cbn [length]; lia). assert (0 ≤ zlen headers) by (unfold zlen; lia).
  assert (Hu1 : u64 (sn_Number s + 1) = sn_Number s + 1) by (apply u64_id; unfold is_u64 in *; lia). rewrite Hu1.
  destruct (decide (numbered_from (sn_Number s + 1) (h :: headers))) as [Hnum|Hnum].
  - pose proof Hnum as [Eh _]. rewrite (proj2 (contiguous_numbered h headers (sn_Number s + 1) Eh ltac:(lia)) Hnum), (proj2 (Z.eqb_eq _ _) Eh). cbn [negb].
    destruct (apply_headers_ok world HD (h :: headers) s b cache Hw Hc Hr He) as [Ho Hc']. destruct (apply_headers _ _ _) as [r c]. cbn [fst snd] in *. split; [|done].
    destruct (box_run _ (h :: headers) b) as [b'|e| |] eqn:Eb; destruct r as [s'|e'| |]; try done; cbn [res_bind applied_as].
    + destruct Ho as [(Ec & En & Eh') Hr']. pose proof (box_run_spaced _ _ _ _ _ (proj1 Hu) Hnum Hs Eb) as Hs'.
      assert (Hu' : u64 (sn_Number s' + zlen (h :: headers)) = sn_Number s + zlen (h :: headers)) by (rewrite En; apply u64_id; unfold is_u64 in *; lia).
      exists b'. rewrite El. cbn [from_option sn_config sn_Number sn_Hash set_Hash set_Number]. rewrite Hu'.
      split_and!; [done|done| |done|done|done]. split; [by destruct Hr'|]. split; [done|]. unfold is_u64 in *. cbn. lia.
    + rewrite decide_True by done. by rewrite Ho.
  - destruct (contiguous (h :: headers)) eqn:Ec; cbn [negb]; [|split; [|done]; cbn; by rewrite decide_False].
    destruct (Z.eqb_spec (Big.Uint64 (h_Number h)) (sn_Number s + 1)) as [E|E]; cbn [negb]; [|split; [|done]; cbn; by rewrite decide_False].
    destruct Hnum. by apply contiguous_numbered; [|lia|].
Qed.
(** After a snapshot someone may sign. *)
Lemma snap_progress s b cache : coherent world cache → snap_ok s b → sn_Signers s ≠ ∅ → Epoch (sn_config s) ≠ 0 → sn_Number s + 1 < 2 ^ 64 →
  ∃ x, x ∈ sn_Signers s ∧ ∀ h, world h → signer_of h = Ok x → h_Nonce h ∈ [nonceAuthVote; nonceDropVote] →
    Big.Uint64 (h_Number h) = sn_Number s + 1 → ∃ s', (apply [h] s cache).1 = Ok s'.
Proof.
  intros Hc Hok Hne He Hn. pose proof Hok as (Hr & Hs & Hu). destruct (box_progress (Epoch (sn_config s)) (sn_Number s) b) as (x & Hx & Hp); [apply Hu|done|by rewrite (rf_signers _ _ Hr)|].
  exists x. split; [by rewrite <- (rf_signers _ _ Hr)|]. intros h Hw Eh Hnonce Enum.
  destruct (apply_ok [h] s b cache) as [Ha _]; [by constructor|done..|unfold zlen; cbn [length]; lia|].
  assert (Hv : ∃ auth, vote_of (h_Nonce h) = Ok auth).
  { unfold vote_of. destruct (bool_decide_reflect (h_Nonce h = nonceAuthVote)); [by eexists|]. destruct (bool_decide_reflect (h_Nonce h = nonceDropVote)); [by eexists|]. set_solver. }
  destruct Hv as [auth Ev]. destruct (Hp (h_Coinbase h) auth) as [b' Eb].
  cbn [box_run] in Ha. rewrite Eh in Ha. cbn [res_bind] in Ha. rewrite Enum, Ev, Eb in Ha. cbn [res_bind] in Ha.
  destruct (apply [h] s cache).1 as [s'|e| |]; [by eexists| |done..]. cbn [applied_as] in Ha. by rewrite decide_True in Ha.
Qed.
End Snapshots.

(** ** Turns, and the extra data *)

(** Whose turn it is: the signers in order, round and round. *)
Definition turn (S : gset Z) (n : Z) : option Z := merge_sort Z.le (elements S) !! Z.to_nat (n mod Z.of_nat (base.size S)).
Lemma sorted_signers (S : gset Z) : merge_sort Z.le (elements S) ≡ₚ elements S.
Proof. apply merge_sort_Permutation. Qed.
Lemma turn_member (S : gset Z) n : S ≠ ∅ → ∃ x, turn S n = Some x ∧ x ∈ S.
Proof.
  intros Hne. assert (base.size S ≠ 0%nat) by (intros E%size_empty_inv; apply Hne; by apply leibniz_equiv).
  destruct (lookup_lt_is_Some_2 (merge_sort Z.le (elements S)) (Z.to_nat (n mod Z.of_nat (base.size S)))) as [x Hx].
  - rewrite sorted_signers. change (length (elements S)) with (base.size S). assert (0 < Z.of_nat (base.size S)) as Hp by lia. pose proof (Z.mod_pos_bound n _ Hp). lia.
  - exists x. split; [done|]. apply list_elem_of_lookup_2 in Hx. rewrite sorted_signers in Hx. by apply elem_of_elements.
Qed.
Lemma offset_of_lookup l x : x ∈ l → NoDup l → ∀ i, Z.of_nat (offset_of l x) = Z.of_nat i ↔ l !! i = Some x.
Proof.
  intros Hx Hl i. unfold offset_of. destruct (list_find (λ y, y = x) l) as [[j y]|] eqn:E.
  - apply list_find_Some in E as (E & -> & _). split; [by intros ->%Nat2Z.inj|]. intros Hi. by rewrite (NoDup_lookup l i j x).
  - apply list_find_None in E. rewrite Forall_forall in E. by destruct (E x Hx).
Qed.
Lemma inturn_ok s x n : x ∈ sn_Signers s → inturn n x s = Some (bool_decide (turn (sn_Signers s) n = Some x)).
Proof.
  intros Hx. unfold inturn, signers, turn. set (l := merge_sort Z.le (elements (sn_Signers s))).
  assert (Hl : l ≡ₚ elements (sn_Signers s)) by apply sorted_signers.
  assert (Hlen : zlen l = Z.of_nat (base.size (sn_Signers s))) by (unfold zlen; by rewrite Hl). rewrite Hlen.
  assert (Hxl : x ∈ l) by (by rewrite Hl, elem_of_elements). assert (Hpos : base.size (sn_Signers s) ≠ 0%nat) by (intros E%size_empty_inv; set_solver).
  destruct (Z.eqb_spec (Z.of_nat (base.size (sn_Signers s))) 0); [lia|]. f_equal.
  assert (0 < Z.of_nat (base.size (sn_Signers s))) as Hp by lia. pose proof (Z.mod_pos_bound n _ Hp).
  apply eq_true_iff_eq. rewrite Z.eqb_eq, bool_decide_eq_true, <- offset_of_lookup; [|done|by rewrite Hl; apply NoDup_elements].
  rewrite Z2Nat.id by lia. done.
Qed.
Lemma extra_form (E mid : bytes) : (97 ≤ zlen E ∧ drop 32 (take (Z.to_nat (zlen E - extraSeal)) E) = mid) ↔
  ∃ vanity seal, E = vanity ++ mid ++ seal ∧ length vanity = 32%nat ∧ length seal = 65%nat.
Proof.
  unfold zlen, extraSeal. split.
  - intros [Hlen Hm]. exists (take 32 E), (drop (length E - 65) E). rewrite length_take, length_drop. split; [|lia].
    replace (Z.to_nat (Z.of_nat (length E) - 65)) with (length E - 65)%nat in Hm by lia. rewrite <- Hm.
    assert (Et : take 32 E = take 32 (take (length E - 65) E)) by (rewrite take_take; f_equal; lia). by rewrite Et, app_assoc, !take_drop.
  - intros (v & s & -> & Hv & Hs). rewrite !length_app, Hv, Hs. split; [lia|].
    replace (Z.to_nat _) with (length v + length mid)%nat by lia. rewrite app_assoc, <- length_app, take_app_length, <- Hv, drop_app_length. done.
Qed.
Lemma address_bytes_length l : zlen (address_bytes l) = 20 * zlen l.
Proof.
  unfold address_bytes, zlen. induction l as [|a l IH]; [done|]. cbn [map concat]. unfold addr_bytes at 1. rewrite length_app, length_be_bytes. cbn [length]. lia.
Qed.

(** ** The engine *)

Section Engine.
Context {CRY : Crypto} {PCR : PrecompileCrypto} {LRU : ARC}.
Variable world : Header → Prop.
Variable store_ok : Snapshot → bool.
Variable chain : Chain.
Variable config : CliqueConfig.
Variable g : Header.
Variable l0 : list Z.

(** The headers considered have hashes of their own; the chain knows headers
    by their hashes, and is canonical from the genesis block on. *)
Record chain_world : Prop := {
  ce_names : ∀ h h', world h → world h' → Header_Hash h = Header_Hash h' → h = h';
  ce_known : ∀ hash n h, ch_GetHeader chain hash n = Some h → world h ∧ Header_Hash h = hash ∧ Big.Uint64 (h_Number h) = n;
  ce_genesis : ch_GetHeaderByNumber chain 0 = Some g;
  ce_down : ∀ n, 0 < n → ch_GetHeaderByNumber chain (n - 1) = None → ch_GetHeaderByNumber chain n = None;
  ce_world : world g;
  ce_zero : Big.Uint64 (h_Number g) = 0;
  ce_header : ch_GetHeader chain (Header_Hash g) 0 = Some g;
  ce_signers : checkpoint_signers (h_Extra g) = Some l0;
  ce_epoch : Epoch config ≠ 0;
}.
Context (W : chain_world).

(** Headers from the genesis block on. *)
Definition parent_in (hs : list Header) : Header := default g (last hs).
Definition tip (hs : list Header) : Z := Header_Hash (parent_in hs).
Inductive lineage : list Header → Prop :=
| ln_nil : lineage []
| ln_snoc hs h : lineage hs → world h → Big.Uint64 (h_Number h) = zlen hs + 1 → h_ParentHash h = tip hs → lineage (hs ++ [h]).
Lemma zlen_snoc {A} (l : list A) x : zlen (l ++ [x]) = zlen l + 1.
Proof. unfold zlen. rewrite length_app. cbn. lia. Qed.
Lemma parent_snoc hs h : parent_in (hs ++ [h]) = h.
Proof. unfold parent_in. by rewrite last_snoc. Qed.
Lemma parent_world hs : lineage hs → world (parent_in hs) ∧ Big.Uint64 (h_Number (parent_in hs)) = zlen hs.
Proof. intros [|l h _ Hw Hn _]; [split; [apply (ce_world W)|apply (ce_zero W)]|]. by rewrite parent_snoc, zlen_snoc. Qed.
Lemma lineage_unique hs : lineage hs → ∀ hs', lineage hs' → tip hs = tip hs' → hs = hs'.
Proof.
  induction 1 as [|l h Hl IH Hw Hn Hp]; intros hs' Hs' Ht.
  - destruct (parent_world [] ln_nil) as [Hw0 Hn0], (parent_world hs' Hs') as [Hw' Hn'].
    apply (ce_names W) in Ht; [|done..]. rewrite Ht, Hn' in Hn0. destruct Hs'; [done|]. unfold zlen in Hn0. rewrite length_app in Hn0. cbn in Hn0. lia.
  - destruct (parent_world hs' Hs') as [Hw' Hn']. unfold tip in Ht. rewrite parent_snoc in Ht. apply (ce_names W) in Ht; [|done..].
    rewrite <- Ht, Hn in Hn'. destruct Hs' as [|l' h' Hl' _ _ Hp']; [unfold zlen in Hn'; cbn in Hn'; lia|].
    rewrite parent_snoc in Ht. subst h'. rewrite (IH l' Hl'); [done|]. by rewrite <- Hp, <- Hp'.
Qed.
Lemma lineage_world hs : lineage hs → Forall world hs.
Proof. induction 1; [done|]. apply Forall_app. split; [done|]. by constructor. Qed.
Lemma numbered_snoc n hs h : numbered_from n (hs ++ [h]) ↔ numbered_from n hs ∧ Big.Uint64 (h_Number h) = n + zlen hs.
Proof.
  revert n. induction hs as [|h' hs IH]; intros n; cbn [numbered_from app].
  - unfold zlen. cbn [length]. rewrite Z.add_0_r. tauto.
  - rewrite IH. unfold zlen. cbn [length]. replace (n + 1 + Z.of_nat (length hs)) with (n + Z.of_nat (S (length hs))) by lia. tauto.
Qed.
Lemma numbered_app n hs hs' : numbered_from n (hs ++ hs') ↔ numbered_from n hs ∧ numbered_from (n + zlen hs) hs'.
Proof.
  revert n. induction hs as [|h hs IH]; intros n; cbn [numbered_from app].
  - unfold zlen. cbn [length]. rewrite Z.add_0_r. tauto.
  - rewrite IH. unfold zlen. cbn [length]. replace (n + 1 + Z.of_nat (length hs)) with (n + Z.of_nat (S (length hs))) by lia. tauto.
Qed.
Lemma lineage_numbered hs : lineage hs → numbered_from 1 hs.
Proof. induction 1 as [|l h _ IH _ Hn _]; [done|]. apply numbered_snoc. split; [done|lia]. Qed.
Lemma lineage_prefix hs hs' : lineage (hs ++ hs') → lineage hs.
Proof.
  induction hs' as [|h hs' IH] using rev_ind; [by rewrite app_nil_r|]. rewrite app_assoc. intros Hl. inversion Hl as [E|l h' Hl' _ _ _ E].
  - by destruct (hs ++ hs').
  - apply app_inj_tail in E as [-> ->]. by apply IH.
Qed.

Definition start : ballots := mkBallots (list_to_set l0) ∅ ∅.
(** A snapshot of the state after headers. *)
Record snap_for (s : Snapshot) (hs : list Header) (b : ballots) : Prop := {
  sf_lineage : lineage hs;
  sf_run : box_run (Epoch config) hs start = Ok b;
  sf_ok : snap_ok s b;
  sf_number : sn_Number s = zlen hs;
  sf_hash : sn_Hash s = tip hs;
  sf_config : sn_config s = config;
}.
Record engine_ok (c : Clique) : Prop := {
  eo_config : cq_config c = config;
  eo_signatures : coherent world (cq_signatures c);
  eo_recents : ∀ k s, cq_recents c !! k = Some s → sn_Hash s = k ∧ ∃ hs b, snap_for s hs b;
  eo_db : ∀ k s, cq_db c !! k = Some s → sn_Hash s = k ∧ ∃ hs b, snap_for (set_config config s) hs b;
}.
(** The headers of a batch come from it, those before from the chain. *)
Definition available (hs parents : list Header) : Prop :=
  ∃ old, hs = old ++ parents ∧ Forall (λ h, ch_GetHeader chain (Header_Hash h) (Big.Uint64 (h_Number h)) = Some h) old.
Lemma available_next hs h parents : available (hs ++ [h]) parents →
  ∃ parents', next_header chain (Big.Uint64 (h_Number h)) (Header_Hash h) parents = Ok (h, parents') ∧ available hs parents'.
Proof.
  intros (old & E & Ho). unfold next_header. destruct parents as [|p parents _] using rev_ind.
  - rewrite app_nil_r in E. subst old. apply Forall_app in Ho as [Ho Hh]. apply Forall_cons in Hh as [Hh _]. cbn [last]. rewrite Hh.
    exists []. split; [done|]. exists hs. by rewrite app_nil_r.
  - rewrite app_assoc in E. apply app_inj_tail in E as [-> <-]. rewrite last_snoc, !Z.eqb_refl. cbn. exists parents.
    split; [by rewrite removelast_last|]. by exists old.
Qed.

(** ** Snapshots of the engine *)

Lemma snap_for_genesis : snap_for (newSnapshot config 0 (Header_Hash g) l0) [] start.
Proof. split; try done; [apply ln_nil|]. by apply snap_ok_new. Qed.
Lemma set_config_same s : sn_config s = config → set_config config s = s.
Proof. intros <-. by destruct s. Qed.
(** The only reason for a refusal by the database. *)
Definition refusing : Prop := ∃ s, store_ok s = false.
Lemma store_ok_state s c hs b : engine_ok c → snap_for s hs b →
  let '(r, c') := snapshot_store store_ok s c in engine_ok c' ∧ match r with Ok _ => True | Err e => e = errPut ∧ refusing | _ => False end.
Proof.
  intros [H1 H2 H3 H4] Hs. unfold snapshot_store. destruct (store_ok s) eqn:E; [|split; [done|split; [done|by exists s]]].
  split; [|done]. split; try done. intros k s'. cbn [cq_db set_db]. intros [[<- <-]|[_ Hk]]%lookup_insert_Some; [|by apply H4].
  split; [done|]. exists hs, b. by rewrite set_config_same by apply (sf_config _ _ _ Hs).
Qed.
Lemma checkpoint_ok number c : engine_ok c → is_u64 number →
  let '(r, c') := checkpoint_snapshot store_ok chain number c in engine_ok c' ∧
  match r with
  | Ok (Some s) => number = 0 ∧ snap_for s [] start
  | Ok None => number ≠ 0
  | Err e => e = errPut ∧ refusing
  | _ => False
  end.
Proof.
  intros Hok Hu. pose proof (eo_config _ Hok) as Ec. unfold checkpoint_snapshot, mbind, mret, cm_bind, cm_ret, cm_get, cm_lift. rewrite Ec. unfold epoch_mod.
  rewrite (proj2 (Z.eqb_neq _ _) (ce_epoch W)). destruct (Z.eqb_spec number 0) as [->|Hn].
  - rewrite (ce_genesis W), (ce_signers W). pose proof (store_ok_state _ c [] start Hok snap_for_genesis) as H.
    destruct (snapshot_store _ _ c) as [[| | |] c']; destruct H as [H1 H2]; (split; [done|]); try done. split; [done|apply snap_for_genesis].
  - cbn [res_bind]. assert (Hu1 : u64 (number - 1) = number - 1) by (apply u64_id; unfold is_u64 in *; lia). rewrite Hu1.
    destruct (_ =? 0); cbn [andb]; [|by split]. case_bool_decide as E; [|by split]. rewrite (ce_down W) by (unfold is_u64 in *; (lia || done)). by split.
Qed.
Lemma snap_found s hs hs' b : snap_for s hs' b → lineage hs → sn_Hash s = tip hs → hs' = hs.
Proof. intros Hs Hl E. rewrite (sf_hash _ _ _ Hs) in E. apply lineage_unique; [apply (sf_lineage _ _ _ Hs)|done|done]. Qed.
(** The loop finds a snapshot of some of the headers, and gathers the others. *)
Definition gathered (hs acc : list Header) (r : cres (Snapshot * list Header)) : Prop :=
  match r with
  | Ok (s, headers) => ∃ hs1 hs2 b, hs = hs1 ++ hs2 ∧ headers = acc ++ reverse hs2 ∧ snap_for s hs1 b
  | Err e => e = errPut ∧ refusing
  | _ => False
  end.
Lemma gather_ok hs : lineage hs → zlen hs < 2 ^ 64 → ∀ fuel parents acc c, engine_ok c → available hs parents → (length hs < fuel)%nat →
  let '(r, c') := gather store_ok chain fuel (zlen hs) (tip hs) parents acc c in engine_ok c' ∧ gathered hs acc r.
Proof.
  assert (Hfound : ∀ s hs acc, lineage hs → sn_Hash s = tip hs → (∃ hs' b, snap_for s hs' b) → gathered hs acc (Ok (s, acc))).
  { intros s hs1 acc Hl E (hs' & b & Hs). rewrite (snap_found _ _ _ _ Hs Hl E) in Hs. exists hs1, [], b. rewrite !app_nil_r. by split. }
  intros Hl. induction Hl as [|l h Hl IH Hw Hn Hp]; intros Hlen fuel parents acc c Hok Ha Hf; (destruct fuel as [|fuel]; [lia|]); cbn [gather].
  all: unfold mbind, mret, cm_bind, cm_ret, cm_get, cm_lift in *.
  all: destruct (cq_recents c !! tip _) as [s|] eqn:Er;
    [destruct (eo_recents _ Hok _ _ Er) as [E1 E2]; (split; [done|]); apply Hfound; [|done|done]; by constructor|].
  all: destruct (if _ =? 0 then loadSnapshot _ c else None) as [s|] eqn:Ed;
    [destruct (_ =? 0); [|done]; unfold loadSnapshot in Ed; apply fmap_Some in Ed as (s0 & Ed & ->); destruct (eo_db _ Hok _ _ Ed) as [E1 E2];
     rewrite (eo_config _ Hok); (split; [done|]); apply Hfound; [by constructor|done|done]|].
  all: assert (Hu : is_u64 (zlen (l ++ [h]))) || assert (Hu : is_u64 (zlen (@nil Header))); [unfold is_u64, zlen in *; lia|].
  all: pose proof (checkpoint_ok _ c Hok Hu) as Hc; destruct (checkpoint_snapshot _ _ _ c) as [[[s|]|e| |] c1]; destruct Hc as [Hok1 Hc]; (split; [done|]) || idtac; try done.
  - cbn [gathered]. exists [], [], start. split; [done|]. split; [by rewrite reverse_nil, app_nil_r|apply Hc].
  - rewrite zlen_snoc in Hc. unfold zlen in Hc. lia.
  - destruct (available_next _ _ _ Ha) as (parents' & En & Ha'). rewrite zlen_snoc, <- Hn. unfold tip at 1. rewrite parent_snoc, En. rewrite Hp, Hn.
    rewrite zlen_snoc in Hlen, Hu. replace (u64 (zlen l + 1 - 1)) with (zlen l) by (rewrite u64_id; unfold is_u64, zlen in *; lia).
    rewrite length_app in Hf. cbn [length] in Hf. pose proof (IH ltac:(lia) fuel parents' (acc ++ [h]) c1 Hok1 Ha' ltac:(lia)) as Hg.
    destruct (gather _ _ fuel _ _ parents' _ c1) as [r c2]. destruct Hg as [Hok2 Hg]. split; [done|]. destruct r as [[s headers]|e| |]; try done.
    destruct Hg as (hs1 & hs2 & b & -> & -> & Hs). exists hs1, (hs2 ++ [h]), b. rewrite reverse_app, <- !app_assoc. by cbn.
Qed.
Lemma world_signers h h' : world h → world h' → Header_Hash h = Header_Hash h' → signer_of h = signer_of h'.
Proof. intros Hw Hw' E. by rewrite (ce_names W h h'). Qed.
Lemma last_tip hs1 hs2 : from_option Header_Hash (tip hs1) (last hs2) = tip (hs1 ++ hs2).
Proof. unfold tip, parent_in. rewrite last_app. by destruct (last hs2). Qed.
Lemma eo_set_signatures cache c : engine_ok c → coherent world cache → engine_ok (set_signatures cache c).
Proof. intros [H1 H2 H3 H4] Hc. by split. Qed.
Lemma clique_apply_ok hs1 hs2 s b c : engine_ok c → snap_for s hs1 b → lineage (hs1 ++ hs2) → zlen (hs1 ++ hs2) < 2 ^ 64 →
  let '(r, c') := clique_apply hs2 s c in engine_ok c' ∧
  match r with
  | Ok s' => ∃ b', snap_for s' (hs1 ++ hs2) b'
  | Err e => box_run (Epoch config) (hs1 ++ hs2) start = Err e
  | _ => False
  end.
Proof.
  intros Hok Hs Hl Hlen. pose proof Hs as [_ Er Hsn En Eh Ec]. unfold clique_apply.
  assert (Hadd : zlen (hs1 ++ hs2) = zlen hs1 + zlen hs2) by (unfold zlen; rewrite length_app; lia).
  destruct (apply_ok world world_signers hs2 s b (cq_signatures c)) as [Ha Hc]; [|apply (eo_signatures _ Hok)|done|rewrite Ec; apply (ce_epoch W)|lia|].
  { apply lineage_world in Hl. by apply Forall_app in Hl as [_ Hl]. }
  destruct (apply hs2 s (cq_signatures c)) as [r cache]. cbn [fst snd] in *. split; [by apply eo_set_signatures|].
  rewrite box_run_app, Er. cbn [res_bind]. rewrite <- Ec. destruct r as [s'|e| |]; try done; cbn [applied_as] in Ha.
  - destruct Ha as (b' & Eb & _ & Hs' & Ec' & En' & Eh'). exists b'. split; [done| |done| | |by rewrite Ec'].
    + by rewrite box_run_app, Er, <- Ec.
    + rewrite En'. lia.
    + by rewrite Eh', Eh, last_tip.
  - rewrite decide_True in Ha; [done|]. rewrite En. apply lineage_numbered in Hl. apply numbered_app in Hl as [_ Hl]. by replace (zlen hs1 + 1) with (1 + zlen hs1) by lia.
Qed.
Lemma recents_add_ok s c hs b : engine_ok c → snap_for s hs b → engine_ok (set_recents (evict (<[sn_Hash s := s]> (cq_recents c))) c).
Proof.
  intros [H1 H2 H3 H4] Hs. split; try done. intros k s' Hk. cbn [cq_recents set_recents] in Hk. eapply lookup_weaken in Hk; [|apply evict_sub].
  apply lookup_insert_Some in Hk as [[<- <-]|[_ Hk]]; [|by apply H3]. split; [done|]. by exists hs, b.
Qed.
Lemma snapshot_ok hs fuel parents c : engine_ok c → lineage hs → zlen hs < 2 ^ 64 → available hs parents → (length hs < fuel)%nat →
  let '(r, c') := snapshot store_ok chain fuel (zlen hs) (tip hs) parents c in engine_ok c' ∧
  match r with
  | Ok s => ∃ b, snap_for s hs b
  | Err e => (e = errPut ∧ refusing) ∨ box_run (Epoch config) hs start = Err e
  | _ => False
  end.
Proof.
  intros Hok Hl Hlen Ha Hf. unfold snapshot, mbind, mret, cm_bind, cm_ret.
  pose proof (gather_ok hs Hl Hlen fuel parents [] c Hok Ha Hf) as Hg. destruct (gather _ _ _ _ _ _ _ c) as [[[s headers]|e| |] c1]; destruct Hg as [Hok1 Hg]; try done; [|by split; [|left]].
  destruct Hg as (hs1 & hs2 & b & -> & -> & Hs). cbn [app]. rewrite reverse_involutive.
  pose proof (clique_apply_ok hs1 hs2 s b c1 Hok1 Hs Hl Hlen) as Hap. destruct (clique_apply hs2 s c1) as [[s'|e| |] c2]; destruct Hap as [Hok2 Hap]; try done; [|by split; [|right]].
  destruct Hap as [b' Hs']. cbn. pose proof (recents_add_ok _ _ _ _ Hok2 Hs') as Hok3.
  destruct (_ && _); [|split; [done|by exists b']].
  pose proof (store_ok_state s' _ _ _ Hok3 Hs') as Hst. destruct (snapshot_store _ _ _) as [[| | |] c4]; destruct Hst as [Hok4 Hst]; try done; (split; [done|]); [by exists b'|by left].
Qed.

(** What verification leaves alone. *)
Definition kept (c c' : Clique) : Prop :=
  cq_config c' = cq_config c ∧ cq_proposals c' = cq_proposals c ∧ cq_signer c' = cq_signer c ∧ cq_signFn c' = cq_signFn c ∧ cq_fakeDiff c' = cq_fakeDiff c.
#[export] Instance kept_preorder : PreOrder kept.
Proof. split; [by intros c|]. intros c1 c2 c3 (?&?&?&?&?) (?&?&?&?&?). unfold kept. split_and!; congruence. Qed.
Definition keeps {A} (m : CM A) : Prop := ∀ c, kept c (m c).2.
Lemma keeps_bind {A B} (m : CM A) (f : A → CM B) : keeps m → (∀ a, keeps (f a)) → keeps (m ≫= f).
Proof.
  intros Hm Hf c. unfold mbind, cm_bind. specialize (Hm c). destruct (m c) as [[a|e| |] c']; cbn in *; try done. etrans; [done|]. apply Hf.
Qed.
Lemma keeps_store s : keeps (snapshot_store store_ok s).
Proof. intros c. unfold snapshot_store. by destruct (store_ok s). Qed.
Lemma keeps_checkpoint number : keeps (checkpoint_snapshot store_ok chain number).
Proof.
  unfold checkpoint_snapshot. apply keeps_bind; [done|intros cf]. apply keeps_bind; [done|intros known].
  destruct (if _ : bool then _ else _); [|done]. destruct (checkpoint_signers _); [|done]. apply keeps_bind; [apply keeps_store|done].
Qed.
Lemma keeps_gather fuel : ∀ number hash parents acc, keeps (gather store_ok chain fuel number hash parents acc).
Proof.
  induction fuel as [|fuel IH]; intros number hash parents acc; cbn [gather]; [done|]. apply keeps_bind; [done|intros [s|]; [done|]].
  apply keeps_bind; [done|intros [s|]; [done|]]. apply keeps_bind; [apply keeps_checkpoint|intros [s|]; [done|]]. apply keeps_bind; [done|intros [h ps]; apply IH].
Qed.
Lemma keeps_snapshot fuel number hash parents : keeps (snapshot store_ok chain fuel number hash parents).
Proof.
  unfold snapshot. apply keeps_bind; [apply keeps_gather|intros [s hs]].
  apply keeps_bind; [intros c; unfold clique_apply; by destruct (apply _ _ _)|intros s']. apply keeps_bind; [done|intros _].
  apply keeps_bind; [destruct (_ && _); [apply keeps_store|done]|done].
Qed.

(** ** The rules of headers *)

Lemma check_ok b e {A} (k : cres A) a : (_ ←? check b e; k) = Ok a ↔ b = false ∧ k = Ok a.
Proof. destruct b; cbn; naive_solver. Qed.
Lemma check_last b e : check b e = Ok tt ↔ b = false.
Proof. by destruct b. Qed.
Definition settled {A} (r : cres A) : Prop := match r with Ok _ | Err _ => True | _ => False end.
Lemma settled_check b e {A} (k : cres A) : settled k → settled (_ ←? check b e; k).
Proof. by destruct b. Qed.
Definition checkpoint_at (n : Z) : Prop := n mod Epoch config = 0.
#[export] Instance checkpoint_dec n : Decision (checkpoint_at n).
Proof. unfold checkpoint_at. apply _. Defined.
(** [x] has signed one of the last blocks before [n] that keep a signer out. *)
Definition signed_within (b : ballots) (n x : Z) : Prop := ∃ k, bx_recents b !! k = Some x ∧ n ≤ k + threshold (bx_signers b).
(** The check of the engine: its difference wraps around in the first blocks,
    which then pass whoever signed before. *)
Lemma wrapped_recents b n x : spaced (n - 1) b → n < 2 ^ 64 → Z.of_nat (base.size (bx_signers b)) < 2 ^ 64 →
  (∀ k, bx_recents b !! k = Some x → k ≤ u64 (n - (threshold (bx_signers b) + 1))) ↔ (threshold (bx_signers b) < n → ¬ signed_within b n x).
Proof.
  intros Hs Hn Hz. pose proof (threshold_nonneg (bx_signers b)) as Ht0. assert (Ht : threshold (bx_signers b) < 2 ^ 64).
  { unfold threshold. apply Z.div_lt_upper_bound; lia. }
  destruct (Z.ltb_spec (threshold (bx_signers b)) n) as [Hlt|Hge].
  - rewrite u64_id by (unfold is_u64; lia). split.
    + intros H _ (k & Hk & Hle). specialize (H k Hk). lia.
    + intros H k Hk. destruct (Z.leb_spec k (n - (threshold (bx_signers b) + 1))); [done|]. destruct (H Hlt). exists k. split; [done|lia].
  - split; [lia|]. intros _ k Hk. pose proof (sp_window _ _ Hs _ _ Hk) as [? _]. assert (Hu : u64 (n - (threshold (bx_signers b) + 1)) = 2 ^ 64 + n - (threshold (bx_signers b) + 1)).
    { unfold u64. replace (n - (threshold (bx_signers b) + 1)) with (2 ^ 64 + n - (threshold (bx_signers b) + 1) + -1 * 2 ^ 64) by lia. rewrite Z.mod_add by lia. apply Z.mod_small. lia. }
    lia.
Qed.
(** The signer may sign, and the difficulty says whether it is its turn.  That
    it has not signed recently is asked for only from the block on whose number
    is the limit. *)
Definition seal_rules (b : ballots) (h : Header) : Prop :=
  let n := Big.Uint64 (h_Number h) in
  ∃ x, signer_of h = Ok x ∧ x ∈ bx_signers b ∧
    (threshold (bx_signers b) < n → ¬ signed_within b n x) ∧
    h_Difficulty h = if decide (turn (bx_signers b) n = Some x) then diffInTurn else diffNoTurn.
Lemma seal_difficulty b h : seal_rules b h → h_Difficulty h = diffInTurn ∨ h_Difficulty h = diffNoTurn.
Proof. intros (x & _ & _ & _ & ->). case_decide; [by left|by right]. Qed.
Record header_rules (now : Z) (b : ballots) (parent h : Header) : Prop := {
  hr_time : h_Time h ≤ now;
  hr_period : u64 (Big.Uint64 (h_Time parent) + Period config) ≤ Big.Uint64 (h_Time h);
  hr_vote : h_Nonce h = nonceAuthVote ∨ h_Nonce h = nonceDropVote;
  hr_checkpoint : checkpoint_at (Big.Uint64 (h_Number h)) → h_Coinbase h = 0 ∧ h_Nonce h = nonceDropVote;
  hr_extra : ∃ vanity seal, length vanity = 32%nat ∧ length seal = 65%nat ∧
    h_Extra h = vanity ++ (if decide (checkpoint_at (Big.Uint64 (h_Number h))) then address_bytes (merge_sort Z.le (elements (bx_signers b))) else []) ++ seal;
  hr_mix : h_MixDigest h = 0;
  hr_uncles : h_UncleHash h = EmptyUncleHash;
  hr_fork : VerifyForkHashes (ch_Config chain) h false = Ok tt;
  hr_seal : seal_rules b h;
}.
Lemma recent_at_iff f x s : recent_at f x s = false ↔ ∀ k, sn_Recents s !! k = Some x → f k = false.
Proof.
  unfold recent_at. rewrite <- not_true_iff_false, existsb_exists. split.
  - intros H k Hk. apply not_true_iff_false. intros Hf. apply H. exists (k, x). cbn. rewrite Z.eqb_refl. split; [by apply list_elem_of_In, elem_of_map_to_list|done].
  - intros H ([k y] & Hin & Hf). cbn in Hf. apply andb_true_iff in Hf as [->%Z.eqb_eq Hf]. apply list_elem_of_In, elem_of_map_to_list in Hin. by rewrite (H k Hin) in Hf.
Qed.
Lemma snap_for_fun s s' hs b b' : snap_for s hs b → snap_for s' hs b' → b = b'.
Proof. intros H H'. pose proof (sf_run _ _ _ H) as E. rewrite (sf_run _ _ _ H') in E. by injection E. Qed.

Section Verify.
Variable now : Z.
Lemma header_checks_settled h : settled (clique_header_checks now chain config h).
Proof.
  unfold clique_header_checks, epoch_mod. rewrite (proj2 (Z.eqb_neq _ _) (ce_epoch W)). apply settled_check. cbn [res_bind]. repeat apply settled_check.
  by destruct (VerifyForkHashes _ _ _).
Qed.
(** The checks of the fields, with those of the signers a checkpoint lists. *)
Lemma header_checks_ok h S : Big.Uint64 (h_Number h) ≠ 0 →
  let cp := checkpoint_at (Big.Uint64 (h_Number h)) in
  clique_header_checks now chain config h = Ok tt ∧
    (cp → drop 32 (take (Z.to_nat (zlen (h_Extra h) - extraSeal)) (h_Extra h)) = address_bytes S) ↔
  h_Time h ≤ now ∧ (h_Nonce h = nonceAuthVote ∨ h_Nonce h = nonceDropVote) ∧ (cp → h_Coinbase h = 0 ∧ h_Nonce h = nonceDropVote) ∧
  (∃ vanity seal, length vanity = 32%nat ∧ length seal = 65%nat ∧ h_Extra h = vanity ++ (if decide cp then address_bytes S else []) ++ seal) ∧
  h_MixDigest h = 0 ∧ h_UncleHash h = EmptyUncleHash ∧ VerifyForkHashes (ch_Config chain) h false = Ok tt ∧
  (h_Difficulty h = diffInTurn ∨ h_Difficulty h = diffNoTurn).
Proof.
  intros Hn cp. assert (H0 : 0 <? Big.Uint64 (h_Number h) = true) by (apply Z.ltb_lt; pose proof (Big.Uint64_range (h_Number h)); unfold is_u64 in *; lia).
  unfold clique_header_checks, epoch_mod. rewrite (proj2 (Z.eqb_neq _ _) (ce_epoch W)), H0. cbn [res_bind andb]. rewrite !check_ok.
  assert (Hcp : (Big.Uint64 (h_Number h) mod Epoch config =? 0) = bool_decide cp) by (apply eq_true_iff_eq; by rewrite Z.eqb_eq, bool_decide_eq_true). rewrite Hcp.
  assert (Hex : ∀ mid, (∃ vanity seal, length vanity = 32%nat ∧ length seal = 65%nat ∧ h_Extra h = vanity ++ mid ++ seal) ↔
    97 ≤ zlen (h_Extra h) ∧ drop 32 (take (Z.to_nat (zlen (h_Extra h) - extraSeal)) (h_Extra h)) = mid).
  { intros mid. rewrite extra_form. split; intros (v & s & H); exists v, s; tauto. }
  rewrite Hex. set (E := h_Extra h) in *.
  assert (Hlen : 97 ≤ zlen E → zlen (drop 32 (take (Z.to_nat (zlen E - extraSeal)) E)) = zlen E - 97).
  { unfold zlen, extraSeal. rewrite length_drop, length_take. lia. }
  set (mid := drop 32 _) in *. unfold extraVanity, extraSeal.
  assert (Hf : match VerifyForkHashes (ch_Config chain) h false with Ok _ => Ok tt | _ => Err errForkHashes end = Ok tt ↔ VerifyForkHashes (ch_Config chain) h false = Ok tt).
  { by destruct (VerifyForkHashes _ _ _) as [[]| | |]. }
  rewrite Hf. rewrite !andb_false_iff, !negb_false_iff, !bool_decide_eq_true, !Z.eqb_eq, !Z.ltb_ge.
  assert (Hm : mid = [] ↔ zlen mid = 0) by (unfold zlen; destruct mid; cbn; split; done || lia).
  assert (Hr : mid = address_bytes S → Z.rem (zlen mid) AddressLength = 0).
  { intros ->. rewrite address_bytes_length, Z.mul_comm. by apply Z.rem_mul. }
  destruct (decide cp) as [Hc|Hc]; [rewrite bool_decide_true by done|rewrite bool_decide_false by done]; cbn [negb].
  - split.
    + intros [(H1 & H2 & H3 & H4 & H5 & H6 & H7 & H8 & H9 & H10 & H11 & H12) H13]. split_and!; try tauto; try lia. naive_solver.
    + intros (H1 & H2 & H3 & [H4 H5] & H6 & H7 & H8 & H9). destruct (H3 Hc) as [H10 H11]. rewrite (Hlen H4) in Hr. specialize (Hr H5).
      split; [|done]. split_and!; try tauto; try lia. right. by replace (zlen E - 32 - 65) with (zlen E - 97) by lia.
  - split.
    + intros [(H1 & H2 & H3 & H4 & H5 & H6 & H7 & H8 & H9 & H10 & H11 & H12) H13]. split_and!; try tauto; try lia.
      apply Hm. destruct H7 as [?|?]; [done|]. rewrite Hlen by lia. lia.
    + intros (H1 & H2 & H3 & [H4 H5] & H6 & H7 & H8 & H9). apply Hm in H5. rewrite (Hlen H4) in H5.
      split; [|done]. split_and!; try tauto; try lia. all: right; lia.
Qed.

Lemma clique_ecrecover_ok h c : engine_ok c → world h →
  let '(r, c') := clique_ecrecover h c in engine_ok c' ∧ kept c c' ∧ r = signer_of h.
Proof.
  intros Hok Hw. unfold clique_ecrecover. destruct (ecrecover_ok world world_signers h (cq_signatures c) Hw (eo_signatures _ Hok)) as [E Hc].
  destruct (ecrecover h _) as [r cache]. split; [by apply eo_set_signatures|by split].
Qed.
(** An answer of the engine, which is [Ok] just when [P] holds. *)
Definition answers (P : Prop) (c : Clique) (o : cres unit * Clique) : Prop :=
  engine_ok o.2 ∧ kept c o.2 ∧ settled o.1 ∧ (o.1 = Ok tt ↔ P).
(** A snapshot, when the database takes what it is given. *)
Lemma snapshot_known hs fuel parents c b : ¬ refusing → engine_ok c → lineage hs → zlen hs < 2 ^ 64 → available hs parents → (length hs < fuel)%nat →
  box_run (Epoch config) hs start = Ok b →
  ∃ s c', snapshot store_ok chain fuel (zlen hs) (tip hs) parents c = (Ok s, c') ∧ engine_ok c' ∧ kept c c' ∧ snap_for s hs b.
Proof.
  intros Hst Hok Hl Hlen Ha Hf Eb. pose proof (snapshot_ok hs fuel parents c Hok Hl Hlen Ha Hf) as H. pose proof (keeps_snapshot fuel (zlen hs) (tip hs) parents c) as Hk.
  destruct (snapshot _ _ _ _ _ _ c) as [[s|e| |] c']; destruct H as [Hok' H]; cbn [snd] in Hk; try done.
  - exists s, c'. destruct H as [b' H]. pose proof (sf_run _ _ _ H) as E. rewrite Eb in E. injection E as <-. done.
  - destruct H as [[_ H]|H]; [done|]. by rewrite Eb in H.
Qed.
Lemma run_spaced hs b : lineage hs → box_run (Epoch config) hs start = Ok b → spaced (zlen hs) b.
Proof.
  intros Hl Eb. replace (zlen hs) with (0 + zlen hs) by lia. eapply box_run_spaced; [lia| |apply spaced_new|exact Eb]. by apply lineage_numbered.
Qed.
Section Next.
Variable hs parents : list Header.
Variable b : ballots.
Variable fuel : nat.
Variable h : Header.
Context (Hst : ¬ refusing) (Hl : lineage hs) (Hlen : zlen hs + 1 < 2 ^ 64) (Ha : available hs parents) (Hf : (length hs < fuel)%nat).
Context (Eb : box_run (Epoch config) hs start = Ok b) (Hw : world h) (Hn : Big.Uint64 (h_Number h) = zlen hs + 1) (Hp : h_ParentHash h = tip hs).
Lemma pred_number : u64 (Big.Uint64 (h_Number h) - 1) = zlen hs.
Proof. rewrite Hn, u64_id; unfold is_u64, zlen in *; lia. Qed.
Lemma number_pos : Big.Uint64 (h_Number h) =? 0 = false.
Proof. apply Z.eqb_neq. rewrite Hn. unfold zlen. lia. Qed.
Lemma next_snapshot c : engine_ok c → ∃ s c', snapshot store_ok chain fuel (u64 (Big.Uint64 (h_Number h) - 1)) (h_ParentHash h) parents c = (Ok s, c') ∧
  engine_ok c' ∧ kept c c' ∧ snap_for s hs b.
Proof. intros Hok. rewrite pred_number, Hp. apply snapshot_known; try done. lia. Qed.
Lemma clique_verifySeal_ok c : Z.of_nat (base.size (bx_signers b)) < 2 ^ 64 → engine_ok c → cq_fakeDiff c = false →
  answers (seal_rules b h) c (clique_verifySeal store_ok chain fuel h parents c).
Proof.
  intros Hsz Hok Hfd. unfold clique_verifySeal, mbind, cm_bind, cm_get, cm_lift. rewrite number_pos.
  destruct (next_snapshot c Hok) as (s & c1 & -> & Hok1 & Hk1 & Hs). pose proof (clique_ecrecover_ok h c1 Hok1 Hw) as He.
  destruct (clique_ecrecover h c1) as [r c2]. destruct He as (Hok2 & Hk2 & ->). assert (Hk : kept c c2) by (by etrans).
  assert (Efd : cq_fakeDiff c2 = false) by (destruct Hk as (_&_&_&_&->); done). rewrite Efd. unfold seal_rules.
  destruct (signer_of_cases h) as [[x ->]|[e ->]]; [|split_and!; try done; split; [done|]; by intros (? & ? & _)].
  assert (ES : bx_signers b = sn_Signers s) by apply (rf_signers _ _ (proj1 (sf_ok _ _ _ Hs))).
  assert (ER : bx_recents b = sn_Recents s) by apply (rf_recents _ _ (proj1 (sf_ok _ _ _ Hs))). rewrite ES.
  unfold answers. cbn [fst snd]. split; [done|]. split; [done|].
  destruct (bool_decide_reflect (x ∈ sn_Signers s)) as [Hx|Hx]; cbn [negb check res_bind].
  2: { split; [done|]. split; [done|]. intros (x' & [= <-] & Hx' & _). done. }
  rewrite (inturn_ok s x _ Hx). split.
  { unfold check. destruct (recent_at _ x s); [done|]. cbn [res_bind]. by destruct (negb _). }
  rewrite check_ok, recent_at_iff, check_last, negb_false_iff, Z.eqb_eq. unfold recent_limit. fold (threshold (sn_Signers s)).
  assert (HW : (∀ k, sn_Recents s !! k = Some x → (u64 (Big.Uint64 (h_Number h) - (threshold (sn_Signers s) + 1)) <? k) = false) ↔
    (threshold (sn_Signers s) < Big.Uint64 (h_Number h) → ¬ signed_within b (Big.Uint64 (h_Number h)) x)).
  { rewrite <- ES, <- ER. rewrite <- wrapped_recents; [|rewrite Hn; replace (zlen hs + 1 - 1) with (zlen hs) by lia; by apply run_spaced|lia|done].
    split; intros H k Hk'; apply Z.ltb_ge; by apply H. }
  rewrite HW. split.
  - intros [H1 H2]. exists x. split_and!; try done. rewrite H2. by destruct (decide _), (bool_decide_reflect (turn (sn_Signers s) (Big.Uint64 (h_Number h)) = Some x)).
  - intros (x' & [= <-] & _ & H1 & H2). split; [done|]. rewrite H2. by destruct (decide _), (bool_decide_reflect (turn (sn_Signers s) (Big.Uint64 (h_Number h)) = Some x)).
Qed.
Lemma parent_found : match last parents with Some p => Some p | None => ch_GetHeader chain (h_ParentHash h) (u64 (Big.Uint64 (h_Number h) - 1)) end = Some (parent_in hs).
Proof.
  destruct Ha as (old & E & Ho). unfold parent_in. destruct (last parents) as [p|] eqn:Ep; [by rewrite E, last_app, Ep|].
  apply last_None in Ep as ->. rewrite app_nil_r in E. subst old. rewrite pred_number, Hp. unfold tip, parent_in. destruct (last hs) as [p|] eqn:El; cbn [default].
  - apply last_Some in El as [l E]. rewrite E in Ho, Hl |- *. apply Forall_app in Ho as [_ Ho]. apply Forall_cons in Ho as [Ho _].
    destruct (parent_world _ Hl) as [_ En]. rewrite parent_snoc in En. by rewrite <- En.
  - apply last_None in El as ->. apply (ce_header W).
Qed.
Lemma clique_verifyHeader_ok c : Z.of_nat (base.size (bx_signers b)) < 2 ^ 64 → engine_ok c → cq_fakeDiff c = false →
  answers (header_rules now b (parent_in hs) h) c (clique_verifyHeader now store_ok chain fuel h parents c).
Proof.
  intros Hsz Hok Hfd. unfold clique_verifyHeader, verifyCascadingFields, mbind, mret, cm_bind, cm_ret, cm_get, cm_lift. rewrite number_pos, (eo_config _ Hok).
  pose proof (header_checks_settled h) as Hset.
  assert (Hnz : Big.Uint64 (h_Number h) ≠ 0) by (apply Z.eqb_neq, number_pos).
  pose proof (header_checks_ok h (merge_sort Z.le (elements (bx_signers b))) Hnz) as Hck. cbv zeta in Hck.
  destruct (clique_header_checks now chain config h) as [[]|e| |]; try done.
  2: { split_and!; try done. split; [done|]. intros [H1 H2 H3 H4 H5 H6 H7 H8 H9]. exfalso. pose proof (seal_difficulty b h H9) as Hd.
       destruct (proj2 Hck) as [Hbad _]; [|done]. split_and!; tauto. }
  rewrite parent_found. destruct (parent_world hs Hl) as [_ En]. rewrite En, pred_number, Z.eqb_refl, Hp. unfold tip at 1. rewrite Z.eqb_refl. cbn [negb orb].
  destruct (Z.ltb_spec (Big.Uint64 (h_Time h)) (u64 (Big.Uint64 (h_Time (parent_in hs)) + Period config))) as [Ht|Ht].
  { split_and!; try done. split; [done|]. intros []. lia. }
  rewrite <- Hp. rewrite <- pred_number. destruct (next_snapshot c Hok) as (s & c1 & -> & Hok1 & Hk1 & Hs). unfold epoch_mod. rewrite (proj2 (Z.eqb_neq _ _) (ce_epoch W)).
  assert (ES : signers s = merge_sort Z.le (elements (bx_signers b))) by (unfold signers; by rewrite (rf_signers _ _ (proj1 (sf_ok _ _ _ Hs)))). rewrite ES.
  set (exp := address_bytes _) in *. set (mid := drop 32 _) in *.
  assert (Hcheck : (if Big.Uint64 (h_Number h) mod Epoch config =? 0 then check (negb (bool_decide (mid = exp))) errMismatchingCheckpointSigners else Ok tt) = Ok tt ↔
    (checkpoint_at (Big.Uint64 (h_Number h)) → mid = exp)).
  { unfold checkpoint_at. destruct (Z.eqb_spec (Big.Uint64 (h_Number h) mod Epoch config) 0) as [E|E]; [|tauto].
    rewrite check_last, negb_false_iff, bool_decide_eq_true. tauto. }
  assert (Hset2 : settled (if Big.Uint64 (h_Number h) mod Epoch config =? 0 then check (negb (bool_decide (mid = exp))) errMismatchingCheckpointSigners else Ok tt)).
  { destruct (_ =? 0); [|done]. by destruct (negb _). }
  destruct (if Big.Uint64 (h_Number h) mod Epoch config =? 0 then _ else _) as [[]|e| |]; try done.
  - assert (Hfd1 : cq_fakeDiff c1 = false) by (destruct Hk1 as (_&_&_&_&->); done). destruct (clique_verifySeal_ok c1 Hsz Hok1 Hfd1) as (Hok2 & Hk2 & Hset3 & Hv).
    split_and!; [done|by etrans|done|]. rewrite Hv. destruct (proj1 Hck) as (H1 & H2 & H3 & H4 & H5 & H6 & H7 & _); [split; [done|by apply Hcheck]|].
    split; [|by intros []]. intros Hseal. by split.
  - split_and!; try done. split; [done|]. intros [H1 H2 H3 H4 H5 H6 H7 H8 H9]. exfalso. pose proof (seal_difficulty b h H9) as Hd.
    destruct (proj2 Hck) as [_ Hbad]; [split_and!; tauto|]. by apply Hcheck in Hbad.
Qed.
End Next.
End Verify.

(** ** Making blocks *)

(** The fields that are the engine's, as they are between [Prepare] and [Seal]. *)
Definition same_consensus (h h' : Header) : Prop :=
  h_ParentHash h' = h_ParentHash h ∧ h_Coinbase h' = h_Coinbase h ∧ h_Difficulty h' = h_Difficulty h ∧ h_Number h' = h_Number h ∧
  h_Time h' = h_Time h ∧ h_Extra h' = h_Extra h ∧ h_MixDigest h' = h_MixDigest h ∧ h_Nonce h' = h_Nonce h.
Lemma choose_vote_nonce pick proposals s : (choose_vote pick proposals s).2 = nonceAuthVote ∨ (choose_vote pick proposals s).2 = nonceDropVote.
Proof. unfold choose_vote. destruct (_ !! _) as [[a []]|]; [by left|by right..]. Qed.
(** A vote cast is one of the proposals, and makes sense. *)
Lemma choose_vote_valid pick proposals s address nonce : choose_vote pick proposals s = (address, nonce) →
  (address, nonce) = (0, replicate 8 0) ∨ ∃ auth, proposals !! address = Some auth ∧ validVote address auth s = true ∧ vote_of nonce = Ok auth.
Proof.
  unfold choose_vote. destruct (_ !! _) as [[a auth]|] eqn:E; [|intros [= <- <-]; by left]. apply list_elem_of_lookup_2, list_elem_of_filter in E as [Hv Hin].
  apply elem_of_map_to_list in Hin. intros [= <- <-]. right. exists auth. split; [done|]. split; [done|]. by destruct auth.
Qed.
Lemma copy_tail_65 sig E : length sig = 65%nat → 65 ≤ zlen E →
  copy_tail extraSeal sig E = take (Z.to_nat (zlen E - 65)) E ++ sig.
Proof.
  intros Hs HE. unfold copy_tail, extraSeal. rewrite (take_ge sig) by (rewrite Hs; done). rewrite Hs, (drop_ge E), app_nil_r; [done|]. unfold zlen in *. lia.
Qed.
Lemma seal_signed h sig hash pub : 65 ≤ zlen (h_Extra h) → sigHash h = Some hash → length sig = 65%nat → Ecrecover (hash_bytes hash) sig = Some pub →
  signer_of (set_Extra (copy_tail extraSeal sig (h_Extra h)) h) = Ok (pub_address pub).
Proof.
  intros HE Hh Hs Hr. rewrite copy_tail_65 by done. set (E := h_Extra h) in *. set (pre := take _ E).
  assert (Hpre : length pre = Z.to_nat (zlen E - 65)) by (unfold pre, zlen in *; rewrite length_take; lia).
  assert (HE' : zlen (pre ++ sig) = zlen E) by (unfold zlen in *; rewrite length_app, Hpre, Hs; lia).
  unfold signer_of, ecrecover. rewrite lookup_empty. cbn [h_Extra set_Extra]. rewrite HE'. unfold extraSeal in *. destruct (Z.ltb_spec (zlen E) 65); [lia|].
  rewrite <- Hpre, drop_app_length.
  assert (Hsig : sigHash (set_Extra (pre ++ sig) h) = sigHash h).
  { unfold sigHash. cbn [h_Extra set_Extra]. rewrite HE'. fold E. unfold extraSeal. destruct (_ <? 0); [done|].
    assert (Et : take (Z.to_nat (zlen E - 65)) (pre ++ sig) = take (Z.to_nat (zlen E - 65)) E) by (by rewrite <- Hpre at 1; rewrite take_app_length). by rewrite Et. }
  by rewrite Hsig, Hh, Hr.
Qed.
Lemma prepared_vanity (E : bytes) : length (take 32 (E ++ replicate (Z.to_nat (extraVanity - zlen E)) 0)) = 32%nat.
Proof. rewrite length_take, length_app, length_replicate. unfold extraVanity, zlen. lia. Qed.
Lemma CalcDifficulty_ok s hs b x : snap_for s hs b → zlen hs + 1 < 2 ^ 64 → x ∈ bx_signers b →
  snapshot_CalcDifficulty s x = Ok (if decide (turn (bx_signers b) (zlen hs + 1) = Some x) then diffInTurn else diffNoTurn).
Proof.
  intros Hs Hlen Hx. assert (ES : bx_signers b = sn_Signers s) by apply (rf_signers _ _ (proj1 (sf_ok _ _ _ Hs))). rewrite ES in *.
  unfold snapshot_CalcDifficulty. rewrite (sf_number _ _ _ Hs), u64_id by (unfold is_u64, zlen in *; lia). rewrite inturn_ok by done.
  by destruct (bool_decide_reflect (turn (sn_Signers s) (zlen hs + 1) = Some x)); [rewrite decide_True|rewrite decide_False].
Qed.
Section Mining.
Variable hs : list Header.
Variable b : ballots.
Variable fuel : nat.
Context (Hst : ¬ refusing) (Hl : lineage hs) (Hlen : zlen hs + 1 < 2 ^ 64) (Ha : available hs []) (Hf : (length hs < fuel)%nat).
Context (Eb : box_run (Epoch config) hs start = Ok b).
(** What [Prepare] leaves for the seal. *)
Record prepared (now x : Z) (h : Header) : Prop := {
  pp_time : h_Time h = Z.max now (h_Time (parent_in hs) + Period config);
  pp_vote : h_Nonce h = nonceAuthVote ∨ h_Nonce h = nonceDropVote;
  pp_checkpoint : checkpoint_at (zlen hs + 1) → h_Coinbase h = 0 ∧ h_Nonce h = nonceDropVote;
  pp_extra : ∃ vanity, length vanity = 32%nat ∧
    h_Extra h = vanity ++ (if decide (checkpoint_at (zlen hs + 1)) then address_bytes (merge_sort Z.le (elements (bx_signers b))) else []) ++ replicate 65 0;
  pp_mix : h_MixDigest h = 0;
  pp_difficulty : h_Difficulty h = if decide (turn (bx_signers b) (zlen hs + 1) = Some x) then diffInTurn else diffNoTurn;
}.
Lemma i64_small z : 0 ≤ z < 2 ^ 63 → i64 z = z.
Proof. intros H. unfold i64. rewrite u64_id by (unfold is_u64; lia). unfold int_of_u64. destruct (Z.ltb_spec z (2 ^ 63)); lia. Qed.
Lemma clique_Prepare_ok now pick h c : engine_ok c → cq_signer c ∈ bx_signers b →
  Big.Uint64 (h_Number h) = zlen hs + 1 → h_ParentHash h = tip hs → 0 ≤ h_Time (parent_in hs) + Period config < 2 ^ 63 →
  ∃ h' c', clique_Prepare now store_ok chain fuel pick h c = (Ok h', c') ∧ engine_ok c' ∧ kept c c' ∧
    prepared now (cq_signer c) h' ∧ h_ParentHash h' = h_ParentHash h ∧ h_Number h' = h_Number h.
Proof.
  intros Hok Hx Hn Hp Ht. unfold clique_Prepare, mbind, mret, cm_bind, cm_ret, cm_get, cm_lift.
  destruct (next_snapshot hs [] b fuel h Hst Hl Hlen Ha Hf Eb Hn Hp c Hok) as (s & c1 & -> & Hok1 & Hk1 & Hs).
  unfold epoch_mod. rewrite (eo_config _ Hok1), (proj2 (Z.eqb_neq _ _) (ce_epoch W)), Hn.
  destruct (if negb _ then _ else _) as [coinbase nonce] eqn:Ev. assert (Esg : cq_signer c1 = cq_signer c) by (by destruct Hk1 as (_&_&->&_&_)).
  rewrite Esg, (CalcDifficulty_ok s hs b) by done. pose proof (parent_found hs [] b fuel h) as Hpf. cbn [last] in Hpf. rewrite Hn in Hpf. rewrite Hpf by done.
  assert (ES : signers s = merge_sort Z.le (elements (bx_signers b))) by (unfold signers; by rewrite (rf_signers _ _ (proj1 (sf_ok _ _ _ Hs)))). rewrite ES.
  eexists _, c1. split; [done|]. split; [done|]. split; [done|]. split; [|done].
  split; cbn [h_Time h_Nonce h_Coinbase h_Extra h_MixDigest h_Difficulty]; try done.
  - rewrite i64_small by done. destruct (Z.ltb_spec (h_Time (parent_in hs) + Period config) now); lia.
  - destruct (negb _); [|injection Ev as <- <-; by right]. pose proof (choose_vote_nonce pick (cq_proposals c1) s) as H. by rewrite Ev in H.
  - unfold checkpoint_at. intros E. rewrite E in Ev. cbn in Ev. by injection Ev as <- <-.
  - eexists. split; [apply prepared_vanity|]. unfold checkpoint_at. destruct (Z.eqb_spec ((zlen hs + 1) mod Epoch config) 0) as [E|E].
    + by rewrite decide_True, <- app_assoc.
    + by rewrite decide_False.
Qed.
Lemma prepared_same now x h h' : prepared now x h → same_consensus h h' → prepared now x h'.
Proof. intros [H1 H2 H3 H4 H5 H6] (E1 & E2 & E3 & E4 & E5 & E6 & E7 & E8). by split; rewrite ?E2, ?E3, ?E4, ?E5, ?E6, ?E7, ?E8. Qed.
(** The signer has a turn left in the window, and its account signs. *)
Definition may_sign (x : Z) : Prop := x ∈ bx_signers b ∧
  ∀ k, bx_recents b !! k = Some x → threshold (bx_signers b) + 1 ≤ zlen hs + 1 ∧ k ≤ zlen hs + 1 - (threshold (bx_signers b) + 1).
Definition signs (x : Z) (signFn : Z → bytes → option bytes) : Prop := ∀ hash, ∃ sig pub,
  signFn x (hash_bytes hash) = Some sig ∧ length sig = 65%nat ∧ Ecrecover (hash_bytes hash) sig = Some pub ∧ pub_address pub = x.
(** The header of a block with its seal. *)
Definition sealed_by (x : Z) (h h' : Header) : Prop := ∃ seal, length seal = 65%nat ∧ signer_of h' = Ok x ∧
  h' = set_Extra (take (Z.to_nat (zlen (h_Extra h) - 65)) (h_Extra h) ++ seal) h.
Lemma prepared_extra now x h : prepared now x h → 65 ≤ zlen (h_Extra h).
Proof. intros [_ _ _ (v & Hv & ->) _ _]. unfold zlen. rewrite !length_app, length_replicate, Hv. lia. Qed.
Lemma Seal_ok now nanos random block c : engine_ok c → prepared now (cq_signer c) (b_header block) → may_sign (cq_signer c) → signs (cq_signer c) (cq_signFn c) →
  Big.Uint64 (h_Number (b_header block)) = zlen hs + 1 → h_ParentHash (b_header block) = tip hs → Period config ≠ 0 ∨ b_transactions block ≠ [] →
  ∃ delay h' c', Seal store_ok chain fuel nanos random block c = (Ok (Some (delay, WithSeal h' block)), c') ∧ engine_ok c' ∧ kept c c' ∧
    sealed_by (cq_signer c) (b_header block) h'.
Proof.
  intros Hok Hpp [Hx Hr] Hsg Hn Hp Htx. unfold Seal, mbind, mret, cm_bind, cm_ret, cm_get, cm_lift. set (h := b_header block) in *.
  assert (Enz : Big.Uint64 (h_Number h) =? 0 = false) by (apply Z.eqb_neq; rewrite Hn; unfold zlen; lia). rewrite Enz, (eo_config _ Hok). assert (E0 : (Period config =? 0) && (zlen (b_transactions block) =? 0) = false).
  { apply andb_false_iff. destruct Htx as [Ht|Ht]; [left; by apply Z.eqb_neq|right]. apply Z.eqb_neq. unfold zlen. destruct (b_transactions block); [done|cbn; lia]. }
  rewrite E0. destruct (next_snapshot hs [] b fuel h Hst Hl Hlen Ha Hf Eb Hn Hp c Hok) as (s & c1 & -> & Hok1 & Hk1 & Hs).
  assert (ES : bx_signers b = sn_Signers s) by apply (rf_signers _ _ (proj1 (sf_ok _ _ _ Hs))).
  assert (ER : bx_recents b = sn_Recents s) by apply (rf_recents _ _ (proj1 (sf_ok _ _ _ Hs))). rewrite ES in Hx. rewrite bool_decide_true by done. cbn [negb].
  assert (Hre : recent_at (λ seen, (Big.Uint64 (h_Number h) <? recent_limit s) || (u64 (Big.Uint64 (h_Number h) - recent_limit s) <? seen)) (cq_signer c) s = false).
  { apply recent_at_iff. intros k Hk. rewrite <- ER in Hk. destruct (Hr k Hk) as [H1 H2]. rewrite ES in H1, H2. unfold recent_limit. fold (threshold (sn_Signers s)).
    pose proof (threshold_nonneg (sn_Signers s)). rewrite Hn, u64_id by (unfold is_u64, zlen in *; lia). apply orb_false_iff. rewrite !Z.ltb_ge. lia. }
  rewrite Hre. pose proof (prepared_extra _ _ _ Hpp) as HE.
  assert (Hsh : ∃ hash, sigHash h = Some hash) by (unfold sigHash, extraSeal; destruct (Z.ltb_spec (zlen (h_Extra h) - 65) 0); [lia|by eexists]). destruct Hsh as [hash Hsh].
  destruct (Hsg hash) as (sig & pub & Es & Hls & Erec & Epub). rewrite Hsh, Es. eexists _, _, c1. split; [done|]. split; [done|]. split; [done|].
  exists sig. split; [done|]. split; [rewrite <- Epub; by eapply seal_signed|]. by rewrite copy_tail_65.
Qed.
(** A sealed block obeys the rules. *)
Lemma sealed_rules now now' x h h' : prepared now x h → may_sign x → sealed_by x h h' → Big.Uint64 (h_Number h) = zlen hs + 1 →
  h_UncleHash h = EmptyUncleHash → VerifyForkHashes (ch_Config chain) h' false = Ok tt → 0 ≤ h_Time (parent_in hs) → 0 ≤ Period config →
  h_Time h < 2 ^ 63 → h_Time h ≤ now' → header_rules now' b (parent_in hs) h'.
Proof.
  intros Hpp [Hx Hr] (seal & Hls & Esg & ->) Hn Hu Hfk Ht0 Hp0 Ht1 Ht2. pose proof (prepared_extra _ _ _ Hpp) as HE. destruct Hpp as [H1 H2 H3 (v & Hv & H4) H5 H6].
  split; cbn [h_Time h_Nonce h_Coinbase h_Extra h_MixDigest h_UncleHash h_Number set_Extra]; try done.
  - assert (Hu1 : ∀ t, 0 ≤ t < 2 ^ 63 → Big.Uint64 t = t) by (intros t Ht; apply Big.Uint64_id; unfold is_u64; lia).
    rewrite !Hu1, u64_id by (unfold is_u64; lia). lia.
  - by rewrite Hn.
  - exists v, seal. split; [done|]. split; [done|]. rewrite Hn. set (mid := if decide (checkpoint_at (zlen hs + 1)) then _ else _) in *.
    rewrite H4 at 2. rewrite app_assoc. assert (El : Z.to_nat (zlen (h_Extra h) - 65) = length (v ++ mid)).
    { rewrite H4. unfold zlen. rewrite !length_app, length_replicate. lia. }
    by rewrite El, take_app_length, <- app_assoc.
  - unfold seal_rules. cbn [h_Number h_Difficulty set_Extra]. exists x. rewrite Hn. split_and!; try done.
    intros _ (k & Hk & Hle). destruct (Hr k Hk). lia.
Qed.
End Mining.
(** A header that obeys the rules, from the first block that shifts a recent
    signer out, can be applied. *)
Lemma accepted_applies now hs b h : lineage hs → box_run (Epoch config) hs start = Ok b → Big.Uint64 (h_Number h) = zlen hs + 1 →
  header_rules now b (parent_in hs) h → threshold (bx_signers b) ≤ zlen hs → ∃ b', box_run (Epoch config) (hs ++ [h]) start = Ok b'.
Proof.
  intros Hl Eb Hn [_ _ Hv _ _ _ _ _ (x & Ex & Hx & Hr & _)] Hlim. rewrite box_run_app, Eb. cbn [res_bind box_run]. rewrite Ex. cbn [res_bind].
  pose proof (run_spaced _ _ Hl Eb) as Hsp. pose proof (threshold_nonneg (bx_signers b)). assert (0 ≤ zlen hs) by (unfold zlen; lia).
  rewrite Hn in *. unfold box_step, box_signed. cbn [bx_signers bx_recents box_open]. rewrite decide_False by (by intros ?).
  assert (Hnr : ¬ recently x (bx_recents (box_open (Epoch config) (zlen hs + 1) b))).
  { intros (k & y & Hk & ->). cbn in Hk. apply window_lookup in Hk as [Hk Hne]. pose proof (sp_window _ _ Hsp _ _ Hk) as [H1 H2]. specialize (Hne ltac:(lia)).
    apply Hr; [lia|]. exists k. split; [done|lia]. }
  cbn in Hnr. rewrite decide_False by done. assert (Hvote : ∃ auth, vote_of (h_Nonce h) = Ok auth).
  { unfold vote_of. destruct (bool_decide_reflect (h_Nonce h = nonceAuthVote)); [by eexists|]. rewrite bool_decide_true by tauto. by eexists. }
  destruct Hvote as [auth ->]. cbn [res_bind]. destruct (_ <? _); [destruct (decide (h_Coinbase h ∈ bx_signers b))|]; by eexists.
Qed.
End Engine.

(** The end of a block changes no field of the engine's. *)
Lemma clique_Finalize_ok {D T : Type} `{!Crypto} `{!Interfaces.TrieI T} `{!Interfaces.DatabaseI D T} `{!StateDB.AccountCodec} config h s txs uncles rs s' h' block :
  clique_Finalize (D:=D) (T:=T) config h s txs uncles rs = (s', Ok (h', block)) →
  same_consensus h (b_header block) ∧ h_UncleHash (b_header block) = EmptyUncleHash ∧ b_transactions block = txs ∧ b_uncles block = [].
Proof.
  unfold clique_Finalize. destruct (StateDB.IntermediateRoot _ s) as [root s1]. set (hd := mkHeader _ _ _ _ _ _ _ _ _ _ _ _ _ _ _).
  intros [= _ E]. apply res_bind_ok in E as (bl & E & E1). injection E1 as _ <-. unfold NewBlock in E.
  apply res_bind_ok in E as (txHash & _ & E). apply res_bind_ok in E as ([receiptHash bloom] & _ & E). by injection E as <-.
Qed.
