(* ===== verification/StateEq.v ===== *)
(** * Observational equality of states

    Two states are equal when no reader of [StateDB.v] tells them apart: the
    caches of an object may differ, what is read through them may not.
    Every undo step of the journal respects this equality. *)

From S2P Require Import Prelude BigMath Rlp Interfaces StateDB.

Section Equality.
Context {D T : Type} {CR : Crypto} {TI : TrieI T} {DI : DatabaseI D T} {AC : AccountCodec}.

Implicit Types (s : @StateDB D T) (o : @stateObject T) (e : @journalEntry T).

(** ** Observational equality *)

(** What the readers of one account see. *)
Definition committed_of (d : D) (k : Z) o : Z := (so_GetCommittedState d k o).1.
Definition state_of (d : D) (k : Z) o : Z := (so_GetState d k o).1.
Definition code_of (d : D) o : bytes := default [] (so_Code d o).1.
Definition lookup_obj s (a : Z) : option (@stateObject T) := (getStateObject a s).1.

Record so_eq (d : D) o1 o2 : Prop := {
  soe_address : address o1 = address o2;
  soe_addrHash : addrHash o1 = addrHash o2;
  soe_data : data o1 = data o2;
  soe_suicided : suicided o1 = suicided o2;
  soe_deleted : deleted o1 = deleted o2;
  soe_committed : ∀ k, committed_of d k o1 = committed_of d k o2;
  soe_state : ∀ k, state_of d k o1 = state_of d k o2;
  soe_code : code_of d o1 = code_of d o2;
}.

#[global] Instance so_eq_equiv d : Equivalence (so_eq d).
Proof.
  split.
  - by intros o.
  - intros o1 o2 []. split; intros; symmetry; auto.
  - intros o1 o2 o3 [] []. split; intros; etrans; eauto.
Qed.

Record st_eq s1 s2 : Prop := {
  ste_db : db s1 = db s2;
  ste_trie : trie s1 = trie s2;
  ste_objects : ∀ a, option_Forall2 (so_eq (db s1)) (lookup_obj s1 a) (lookup_obj s2 a);
  ste_refund : refund s1 = refund s2;
  ste_thash : thash s1 = thash s2;
  ste_bhash : bhash s1 = bhash s2;
  ste_txIndex : txIndex s1 = txIndex s2;
  ste_logs : ∀ h, default [] (logs s1 !! h) = default [] (logs s2 !! h);
  ste_logSize : logSize s1 = logSize s2;
  ste_preimages : preimages s1 = preimages s2;
}.

#[global] Instance st_eq_equiv : Equivalence st_eq.
Proof.
  split.
  - intros s. split; [done|done| |done..]. intros a.
    destruct (lookup_obj s a); constructor. reflexivity.
  - intros s1 s2 Heq. destruct Heq as [H1 H2 H3 H4 H5 H6 H7 H8 H9 H10].
    split; try (intros; symmetry; done).
    intros a. rewrite <- H1. specialize (H3 a). inversion H3; constructor. by symmetry.
  - intros s1 s2 s3 [E1 E2 E3 E4 E5 E6 E7 E8 E9 E10] [F1 F2 F3 F4 F5 F6 F7 F8 F9 F10].
    split; try (intros; congruence).
    + intros a. specialize (E3 a). specialize (F3 a). rewrite <- E1 in F3.
      inversion E3 as [x y Hxy Hx Hy|Hx Hy]; inversion F3 as [y' z Hyz Hy' Hz|Hy' Hz];
        simplify_eq; try congruence; constructor.
      etrans; [done|]. congruence.
Qed.

(** The reader of the account map. *)
Definition trie_obj s (a : Z) : option (@stateObject T) :=
  let '(enc, _) := TryGet (addr_bytes a) (trie s) in
  match enc with
  | [] => None
  | _ => newObject a <$> decode_account enc
  end.

Lemma lookup_obj_unfold s a :
  lookup_obj s a = match stateObjects s !! a with
                   | Some o => if deleted o then None else Some o
                   | None => trie_obj s a
                   end.
Proof.
  unfold lookup_obj, getStateObject, trie_obj.
  destruct (stateObjects s !! a) as [o|]; [by destruct (deleted o)|].
  destruct (TryGet _ _) as [enc err]. destruct enc; [done|].
  by destruct (decode_account _).
Qed.

Lemma lookup_obj_set o s a :
  lookup_obj (setStateObject o s) a =
    if decide (a = address o) then (if deleted o then None else Some o) else lookup_obj s a.
Proof.
  rewrite !lookup_obj_unfold. unfold setStateObject. simpl.
  case_decide as Ha; [subst; by rewrite lookup_insert_eq|by rewrite lookup_insert_ne].
Qed.

Lemma lookup_obj_ext s1 s2 :
  stateObjects s1 = stateObjects s2 → trie s1 = trie s2 → ∀ a, lookup_obj s1 a = lookup_obj s2 a.
Proof. intros H1 H2 a. rewrite !lookup_obj_unfold. unfold trie_obj. by rewrite H1, H2. Qed.

(** ** Loading caches nothing visible *)

Lemma getTrie_spec d o t o' : getTrie d o = (t, o') →
  getTrie d o' = (t, o') ∧ address o' = address o ∧ addrHash o' = addrHash o ∧
  data o' = data o ∧ suicided o' = suicided o ∧ deleted o' = deleted o ∧ code o' = code o ∧
  originStorage o' = originStorage o ∧ dirtyStorage o' = dirtyStorage o ∧ so_trie o' = Some t.
Proof.
  unfold getTrie. destruct (so_trie o) as [t0|] eqn:Ht.
  { intros [= <- <-]. by rewrite Ht. }
  destruct (OpenStorageTrie _ _ _); intros [= <- <-]; [done|].
  unfold so_setError. simpl. by destruct (so_dbErr o).
Qed.

Lemma so_setError_fields x o :
  address (so_setError x o) = address o ∧ addrHash (so_setError x o) = addrHash o ∧
  data (so_setError x o) = data o ∧ suicided (so_setError x o) = suicided o ∧
  deleted (so_setError x o) = deleted o ∧ code (so_setError x o) = code o ∧
  originStorage (so_setError x o) = originStorage o ∧
  dirtyStorage (so_setError x o) = dirtyStorage o ∧ so_trie (so_setError x o) = so_trie o.
Proof. unfold so_setError. by destruct (so_dbErr o). Qed.

(** The committed value depends only on the cache, the trie and what opens it. *)
Lemma committed_of_ext d k o1 o2 :
  addrHash o1 = addrHash o2 → Root (data o1) = Root (data o2) →
  originStorage o1 = originStorage o2 → (getTrie d o1).1 = (getTrie d o2).1 →
  committed_of d k o1 = committed_of d k o2.
Proof.
  intros H1 H2 H3 H4. unfold committed_of, so_GetCommittedState. rewrite H3.
  destruct (originStorage o2 !! k); [done|].
  destruct (getTrie d o1) as [t1 o1'], (getTrie d o2) as [t2 o2']. simpl in H4. subst t2.
  destruct (TryGet _ _) as [enc [err|]]; [by destruct enc|].
  destruct enc; [done|]. by destruct (Split _) as [[[? ?] ?]|?| |].
Qed.

(** After a read the object is the same up to caches. *)
Lemma so_GetCommittedState_eq d k o : so_eq d (so_GetCommittedState d k o).2 o.
Proof.
  unfold so_GetCommittedState. destruct (originStorage o !! k) as [v|] eqn:Ho; [reflexivity|].
  destruct (getTrie d o) as [t o1] eqn:Ht.
  pose proof (getTrie_spec _ _ _ _ Ht) as (Hg & Ha & Hh & Hd & Hs & Hdel & Hc & Hor & Hdi & Htr).
  assert (Hbase : ∀ o2, address o2 = address o1 → addrHash o2 = addrHash o1 → data o2 = data o1 →
    suicided o2 = suicided o1 → deleted o2 = deleted o1 → code o2 = code o1 →
    dirtyStorage o2 = dirtyStorage o1 → so_trie o2 = so_trie o1 →
    (∀ k', committed_of d k' o2 = committed_of d k' o) → so_eq d o2 o).
  { intros o2 E1 E2 E3 E4 E5 E6 E7 E8 Hcom. split; try congruence.
    - intros k'. unfold state_of, so_GetState. rewrite E7, Hdi.
      destruct (dirtyStorage o !! k'); [done|]. apply Hcom.
    - unfold code_of, so_Code. rewrite E6, Hc, E3, Hd, E2, Hh.
      destruct (code o); [done|]. destruct (bool_decide _); [done|].
      by destruct (ContractCode _ _ _) as [? [?|]]. }
  assert (Hload : ∀ o2 v, addrHash o2 = addrHash o1 → data o2 = data o1 → so_trie o2 = so_trie o1 →
    originStorage o2 = <[k:=v]> (originStorage o1) → v = committed_of d k o →
    ∀ k', committed_of d k' o2 = committed_of d k' o).
  { intros o2 v E2 E3 E8 Eo Hv k'. destruct (decide (k' = k)) as [->|Hk].
    - unfold committed_of at 1, so_GetCommittedState. by rewrite Eo, lookup_insert_eq.
    - assert (committed_of d k' o = committed_of d k' (set_so_trie (Some t) o)) as ->.
      { apply committed_of_ext; try done. unfold getTrie at 2. simpl. by rewrite Ht. }
      unfold committed_of, so_GetCommittedState. rewrite Eo, lookup_insert_ne by done.
      simpl originStorage. rewrite Hor. destruct (originStorage o !! k'); [done|].
      unfold getTrie. rewrite E8, Htr. simpl.
      destruct (TryGet _ _) as [enc [err|]]; [by destruct enc|].
      destruct enc; [done|]. by destruct (Split _) as [[[? ?] ?]|?| |]. }
  assert (Hcv : committed_of d k o =
    match TryGet (hash_bytes k) t with
    | (_, Some _) => 0
    | ([], None) => 0
    | (enc, None) => match Split enc with Ok (_, content, _) => BytesToHash content | _ => 0 end
    end).
  { unfold committed_of, so_GetCommittedState. rewrite Ho, Ht.
    destruct (TryGet _ _) as [enc [err|]]; [by destruct enc|].
    destruct enc; [done|]. by destruct (Split _) as [[[? ?] ?]|?| |]. }
  destruct (TryGet (hash_bytes k) t) as [enc [err|]].
  { pose proof (so_setError_fields (Some (SEDB err)) o1) as (F1&F2&F3&F4&F5&F6&F7&F8&F9).
    assert (Hcom : ∀ k', committed_of d k' (so_setError (Some (SEDB err)) o1) = committed_of d k' o).
    { intros k'. apply committed_of_ext; try congruence.
      unfold getTrie at 1. rewrite F9, Htr. simpl. by rewrite Ht. }
    destruct enc; simpl; apply Hbase; done. }
  destruct enc as [|b enc].
  { simpl. apply Hbase; try done. eapply Hload; try done. }
  destruct (Split (b :: enc)) as [[[? content] ?]|err| |] eqn:Hsp; simpl.
  - apply Hbase; try done. eapply Hload; try done.
  - pose proof (so_setError_fields (Some (SERlp err)) o1) as (F1&F2&F3&F4&F5&F6&F7&F8&F9).
    apply Hbase; try done. eapply Hload; try done. simpl. by rewrite F7.
  - apply Hbase; try done. eapply Hload; try done.
  - apply Hbase; try done. eapply Hload; try done.
Qed.

Lemma so_GetState_eq d k o : so_eq d (so_GetState d k o).2 o.
Proof.
  unfold so_GetState. destruct (dirtyStorage o !! k); [reflexivity|].
  apply so_GetCommittedState_eq.
Qed.

Lemma so_Code_eq d o : so_eq d (so_Code d o).2 o.
Proof.
  unfold so_Code. destruct (code o) as [c|] eqn:Hc; [reflexivity|].
  destruct (bool_decide _) eqn:Hb; [reflexivity|].
  destruct (ContractCode _ _ _) as [c err] eqn:Hcc.
  set (o1 := (match err with Some e => (None, so_setError _ o) | None => (Some c, set_code (Some c) o) end).2).
  assert (E : address o1 = address o ∧ addrHash o1 = addrHash o ∧ data o1 = data o ∧
    suicided o1 = suicided o ∧ deleted o1 = deleted o ∧ code o1 = (match err with Some _ => None | None => Some c end) ∧
    originStorage o1 = originStorage o ∧ dirtyStorage o1 = dirtyStorage o ∧ so_trie o1 = so_trie o).
  { unfold o1. destruct err as [e|]; cbn [snd]; [|done].
    destruct (so_setError_fields (Some (SECantLoadCode (CodeHash (data o)) e)) o) as (?&?&?&?&?&->&?&?&?). by split_and!. }
  destruct E as (E1&E2&E3&E4&E5&E6&Ho&Hd&Ht).
  assert (Hcom : ∀ k, committed_of d k o1 = committed_of d k o).
  { intros k. apply committed_of_ext; try congruence.
    unfold getTrie. rewrite Ht. destruct (so_trie o); [done|].
    rewrite E2, E3. by destruct (OpenStorageTrie _ _ _). }
  split; try done.
  - intros k. unfold state_of, so_GetState. rewrite Hd.
    destruct (dirtyStorage o !! k); [done|]. apply Hcom.
  - unfold code_of, so_Code. rewrite E6, Hc, E3, E2, Hb, Hcc. by destruct err.
Qed.

(** ** Changing an object respects observational equality *)

Definition so_mod (f : stateObject → stateObject) : Prop :=
  (∀ d o1 o2, so_eq d o1 o2 → so_eq d (f o1) (f o2)) ∧
  (∀ o, address (f o) = address o) ∧ (∀ o, deleted (f o) = deleted o).

(** Changes of the account data that keep the storage root. *)
Lemma committed_of_data d k o x :
  Root x = Root (data o) → committed_of d k (set_data x o) = committed_of d k o.
Proof.
  intros Hr. apply committed_of_ext; simpl; try done.
  unfold getTrie. simpl. destruct (so_trie o); [done|]. rewrite Hr.
  by destruct (OpenStorageTrie _ _ _).
Qed.
Lemma state_of_data d k o x :
  Root x = Root (data o) → state_of d k (set_data x o) = state_of d k o.
Proof.
  intros Hr. unfold state_of, so_GetState. simpl. destruct (dirtyStorage o !! k); [done|].
  by apply committed_of_data.
Qed.
Lemma code_of_data d o x :
  CodeHash x = CodeHash (data o) → code_of d (set_data x o) = code_of d o.
Proof.
  intros Hc. unfold code_of, so_Code. simpl. rewrite Hc. destruct (code o); [done|].
  destruct (bool_decide _); [done|]. by destruct (ContractCode _ _ _) as [? [|]].
Qed.

Lemma so_eq_data d o1 o2 g :
  (∀ x, Root (g x) = Root x) → (∀ x, CodeHash (g x) = CodeHash x) →
  so_eq d o1 o2 → so_eq d (set_data (g (data o1)) o1) (set_data (g (data o2)) o2).
Proof.
  intros HR HC E. destruct E as [E1 E2 E3 E4 E5 E6 E7 E8]. split; simpl; try congruence.
  - intros k. by rewrite !committed_of_data.
  - intros k. by rewrite !state_of_data.
  - by rewrite !code_of_data.
Qed.

Lemma so_mod_setBalance x : so_mod (so_setBalance x).
Proof. split_and!; [|done|done]. intros. by apply (so_eq_data _ _ _ (set_Balance x)). Qed.
Lemma so_mod_setNonce x : so_mod (so_setNonce x).
Proof. split_and!; [|done|done]. intros. by apply (so_eq_data _ _ _ (set_Nonce x)). Qed.

Lemma committed_of_frame d k o o' :
  addrHash o' = addrHash o → Root (data o') = Root (data o) →
  originStorage o' = originStorage o → so_trie o' = so_trie o →
  committed_of d k o' = committed_of d k o.
Proof.
  intros H1 H2 H3 H4. apply committed_of_ext; try done. unfold getTrie. rewrite H4, H1, H2.
  destruct (so_trie o); [done|]. by destruct (OpenStorageTrie _ _ _).
Qed.
Lemma state_of_frame d k o o' :
  addrHash o' = addrHash o → Root (data o') = Root (data o) →
  originStorage o' = originStorage o → so_trie o' = so_trie o →
  dirtyStorage o' = dirtyStorage o → state_of d k o' = state_of d k o.
Proof.
  intros H1 H2 H3 H4 H5. unfold state_of, so_GetState. rewrite H5.
  destruct (dirtyStorage o !! k); [done|]. by apply committed_of_frame.
Qed.
Lemma code_of_frame d o o' :
  addrHash o' = addrHash o → CodeHash (data o') = CodeHash (data o) → code o' = code o →
  code_of d o' = code_of d o.
Proof.
  intros H1 H2 H3. unfold code_of, so_Code. rewrite H1, H2, H3. destruct (code o); [done|].
  destruct (bool_decide _); [done|]. by destruct (ContractCode _ _ _) as [? [|]].
Qed.

(** Both sides differ from [o1], [o2] in fields the reader does not use. *)
Ltac frame_by L1 L2 :=
  etrans; [by apply L1|]; etrans; [|symmetry; by apply L2]; auto.

Lemma so_mod_set_suicided x : so_mod (set_suicided x).
Proof.
  split_and!; [|done|done]. intros d o1 o2 [E1 E2 E3 E4 E5 E6 E7 E8].
  split; simpl; try done.
  - intros k. by frame_by (committed_of_frame d k o1) (committed_of_frame d k o2).
  - intros k. by frame_by (state_of_frame d k o1) (state_of_frame d k o2).
  - by frame_by (code_of_frame d o1) (code_of_frame d o2).
Qed.
Lemma state_of_setState d k o key v :
  state_of d k (so_setState key v o) = if decide (k = key) then v else state_of d k o.
Proof.
  unfold state_of at 1, so_GetState, so_setState. simpl. case_decide as Hk.
  - subst. by rewrite lookup_insert_eq.
  - rewrite lookup_insert_ne by done. unfold state_of, so_GetState.
    destruct (dirtyStorage o !! k); [done|]. by apply committed_of_frame.
Qed.
Lemma so_mod_setState key v : so_mod (so_setState key v).
Proof.
  split_and!; [|done|done]. intros d o1 o2 [E1 E2 E3 E4 E5 E6 E7 E8].
  split; try done.
  - intros k. by frame_by (committed_of_frame d k o1) (committed_of_frame d k o2).
  - intros k. rewrite !state_of_setState. by case_decide.
  - by frame_by (code_of_frame d o1) (code_of_frame d o2).
Qed.
(** The code of an object whose code field was just set. *)
Lemma code_of_setCode d o h c :
  (c = None → h = emptyCodeHash) → code_of d (so_setCode h c o) = default [] c.
Proof.
  intros Hc. unfold code_of, so_Code, so_setCode. simpl. destruct c; [done|].
  by rewrite bool_decide_eq_true_2 by auto.
Qed.
(** Its old code and hash put back: a code that could not be loaded still
    cannot. *)
Lemma code_of_restored d o o2 h : addrHash o2 = addrHash o → h = CodeHash (data o) → code_of d (so_setCode h (so_Code d o).1 o2) = code_of d o.
Proof.
  intros Ha ->. unfold code_of. destruct (so_Code d o).1 as [c|] eqn:E; [done|]. unfold so_Code in E |- *. unfold so_setCode. simpl. rewrite Ha.
  destruct (code o); [done|]. destruct (bool_decide _) eqn:Hb; [done|]. by destruct (ContractCode _ _ _) as [c [|]].
Qed.
Lemma so_mod_setCode h c : so_mod (so_setCode h c).
Proof.
  split_and!; [|done|done]. intros d o1 o2 [E1 E2 E3 E4 E5 E6 E7 E8].
  split; try done; simpl.
  - by rewrite E3.
  - intros k. by frame_by (committed_of_frame d k o1) (committed_of_frame d k o2).
  - intros k. by frame_by (state_of_frame d k o1) (state_of_frame d k o2).
  - unfold code_of, so_Code, so_setCode. simpl. destruct c; [done|].
    rewrite E2. destruct (bool_decide _); [done|].
    by destruct (ContractCode _ _ _) as [? [|]].
Qed.
Lemma so_mod_comp f g : so_mod f → so_mod g → so_mod (λ o, f (g o)).
Proof.
  intros (F1 & F2 & F3) (G1 & G2 & G3). split_and!; [auto|..]; intros; congruence.
Qed.

(** ** Changing a state respects observational equality *)

(** The states differ only in what no reader sees, or not at all. *)
Lemma st_eq_frame s1 s2 :
  db s1 = db s2 → trie s1 = trie s2 → (∀ a, option_Forall2 (so_eq (db s1)) (lookup_obj s1 a) (lookup_obj s2 a)) →
  refund s1 = refund s2 → thash s1 = thash s2 → bhash s1 = bhash s2 → txIndex s1 = txIndex s2 →
  logs s1 = logs s2 → logSize s1 = logSize s2 → preimages s1 = preimages s2 → st_eq s1 s2.
Proof. intros. split; try done. intros h. by f_equal; f_equal. Qed.

Lemma lookup_refl d (x : option (@stateObject T)) : option_Forall2 (so_eq d) x x.
Proof. destruct x; constructor. reflexivity. Qed.

Lemma getStateObject_2 a s :
  (getStateObject a s).2 = s ∨
  (∃ er, (getStateObject a s).2 = setError er s ∧ (getStateObject a s).1 = None) ∨
  (∃ x, stateObjects s !! a = None ∧ trie_obj s a = Some (newObject a x) ∧
        getStateObject a s = (Some (newObject a x), setStateObject (newObject a x) s)).
Proof.
  unfold getStateObject, trie_obj. destruct (stateObjects s !! a) as [o|] eqn:Ho.
  { left. by destruct (deleted o). }
  destruct (TryGet _ _) as [enc err]. destruct enc; [right; left; by eexists|].
  destruct (decode_account _); [|by left]. right; right. by eexists.
Qed.

Lemma setError_fields x s :
  db (setError x s) = db s ∧ trie (setError x s) = trie s ∧
  stateObjects (setError x s) = stateObjects s ∧ refund (setError x s) = refund s ∧
  thash (setError x s) = thash s ∧ bhash (setError x s) = bhash s ∧
  txIndex (setError x s) = txIndex s ∧ logs (setError x s) = logs s ∧
  logSize (setError x s) = logSize s ∧ preimages (setError x s) = preimages s ∧
  entries (setError x s) = entries s ∧ dirties (setError x s) = dirties s ∧
  validRevisions (setError x s) = validRevisions s ∧
  nextRevisionId (setError x s) = nextRevisionId s ∧
  stateObjectsDirty (setError x s) = stateObjectsDirty s.
Proof. unfold setError. destruct (dbErr s); simpl; by split_and!. Qed.

Lemma setError_eq x s : st_eq (setError x s) s.
Proof.
  destruct (setError_fields x s) as (?&?&Ho&?&?&?&?&?&?&?&?). apply st_eq_frame; try done.
  intros a. rewrite (lookup_obj_ext _ s) by done. apply lookup_refl.
Qed.

Lemma setStateObject_eq s o o' :
  lookup_obj s (address o) = Some o' → deleted o = false → so_eq (db s) o o' →
  st_eq (setStateObject o s) s.
Proof.
  intros Ho Hd E. apply st_eq_frame; try done. intros a. rewrite lookup_obj_set, Hd.
  case_decide; [|apply lookup_refl]. subst. rewrite Ho. by constructor.
Qed.

Lemma lookup_obj_get a s : (getStateObject a s).1 = lookup_obj s a.
Proof. done. Qed.

Lemma getStateObject_eq a s : st_eq (getStateObject a s).2 s.
Proof.
  destruct (getStateObject_2 a s) as [->|[(er & -> & _)|(x & Hm & Hx & Hg)]].
  - reflexivity.
  - apply setError_eq.
  - rewrite Hg. simpl. apply (setStateObject_eq _ _ (newObject a x)); [|done|reflexivity].
    simpl. by rewrite lookup_obj_unfold, Hm.
Qed.

Lemma st_eq_setStateObject s1 s2 o1 o2 :
  st_eq s1 s2 → so_eq (db s1) o1 o2 → st_eq (setStateObject o1 s1) (setStateObject o2 s2).
Proof.
  intros E Eo. destruct E. split; simpl; try done. intros a. rewrite !lookup_obj_set.
  rewrite (soe_address _ _ _ Eo), (soe_deleted _ _ _ Eo).
  case_decide; [destruct (deleted o2); by constructor|done].
Qed.

Lemma st_eq_lookup s1 s2 a o1 : st_eq s1 s2 → lookup_obj s1 a = Some o1 →
  ∃ o2, lookup_obj s2 a = Some o2 ∧ so_eq (db s1) o1 o2.
Proof.
  intros E H1. pose proof (ste_objects _ _ E a) as Ha. rewrite H1 in Ha.
  inversion Ha; subst. by eexists.
Qed.

Lemma with_object_proper a f s1 s2 :
  so_mod f → st_eq s1 s2 → option_Forall2 st_eq (with_object a f s1) (with_object a f s2).
Proof.
  intros (Hf & _) E. unfold with_object.
  pose proof (getStateObject_eq a s1) as E1. pose proof (getStateObject_eq a s2) as E2.
  pose proof (ste_objects _ _ E a) as Ho. unfold lookup_obj in Ho.
  destruct (getStateObject a s1) as [x1 t1], (getStateObject a s2) as [x2 t2]. simpl in *.
  inversion Ho as [o1 o2 Hoo|]; subst; constructor.
  apply st_eq_setStateObject; [by rewrite E1, E2|].
  rewrite (ste_db _ _ E1). by apply Hf.
Qed.

Lemma trie_obj_address s a o : trie_obj s a = Some o → address o = a.
Proof.
  unfold trie_obj. destruct (TryGet _ _) as [[|] ?]; [done|].
  destruct (decode_account _); simpl; intros; by simplify_eq.
Qed.
Lemma trie_obj_ext s1 s2 a : trie s1 = trie s2 → trie_obj s1 a = trie_obj s2 a.
Proof. unfold trie_obj. by intros ->. Qed.

Lemma lookup_obj_delete s a b :
  lookup_obj (set_stateObjects (delete a (stateObjects s)) s) b =
    if decide (b = a) then trie_obj s a else lookup_obj s b.
Proof.
  rewrite !lookup_obj_unfold. simpl. case_decide; subst.
  - by rewrite lookup_delete_eq.
  - by rewrite lookup_delete_ne.
Qed.

(** The objects and the trie are left alone. *)
Lemma st_eq_other s1 s2 s1' s2' : st_eq s1 s2 →
  stateObjects s1' = stateObjects s1 → stateObjects s2' = stateObjects s2 →
  trie s1' = trie s1 → trie s2' = trie s2 → db s1' = db s1 → db s2' = db s2 →
  refund s1' = refund s2' → thash s1' = thash s2' → bhash s1' = bhash s2' →
  txIndex s1' = txIndex s2' →
  (∀ h, default [] (logs s1' !! h) = default [] (logs s2' !! h)) →
  logSize s1' = logSize s2' → preimages s1' = preimages s2' → st_eq s1' s2'.
Proof.
  intros [] ? ? ? ? ? ? ? ? ? ? ? ? ?. split; try done; try congruence. intros a.
  rewrite (lookup_obj_ext s1' s1), (lookup_obj_ext s2' s2) by done.
  by replace (db s1') with (db s1) by done.
Qed.

Lemma entry_revert_proper e s1 s2 :
  st_eq s1 s2 → option_Forall2 st_eq (entry_revert e s1) (entry_revert e s2).
Proof.
  intros E. destruct e; simpl; try (apply with_object_proper; auto using so_mod_setBalance, so_mod_setNonce, so_mod_setState, so_mod_setCode; done).
  - constructor. destruct E as [E1 E2 E3 E4 E5 E6 E7 E8 E9 E10]. split; simpl; try done. intros b.
    rewrite (lookup_obj_ext (set_stateObjectsDirty _ _) (set_stateObjects (delete account (stateObjects s1)) s1)) by done.
    rewrite (lookup_obj_ext (set_stateObjectsDirty _ _) (set_stateObjects (delete account (stateObjects s2)) s2)) by done.
    rewrite !lookup_obj_delete, (trie_obj_ext s1 s2) by done.
    case_decide; [apply lookup_refl|done].
  - constructor. by apply st_eq_setStateObject.
  - pose proof (getStateObject_eq account s1) as E1. pose proof (getStateObject_eq account s2) as E2.
    pose proof (ste_objects _ _ E account) as Ho. unfold lookup_obj in Ho.
    destruct (getStateObject account s1) as [x1 t1], (getStateObject account s2) as [x2 t2].
    simpl in *. inversion Ho as [o1 o2 Hoo|]; subst; constructor; [|by rewrite E1, E2].
    apply st_eq_setStateObject; [by rewrite E1, E2|]. rewrite (ste_db _ _ E1).
    apply (so_mod_comp (so_setBalance prevbalance)); auto using so_mod_setBalance, so_mod_set_suicided.
  - constructor. apply (st_eq_other s1 s2); try done; apply E.
  - rewrite (ste_logs _ _ E), (ste_logSize _ _ E).
    destruct (default [] (logs s2 !! txhash)) as [|l [|l' r]]; constructor;
      apply (st_eq_other s1 s2); try done; try apply E; simpl; intros h;
      pose proof (ste_logs _ _ E h); destruct (decide (h = txhash)) as [->|].
    + by rewrite !lookup_delete_eq.
    + by rewrite !lookup_delete_ne.
    + by rewrite !lookup_insert_eq.
    + by rewrite !lookup_insert_ne.
  - constructor. apply (st_eq_other s1 s2); try done; try apply E. simpl. by rewrite (ste_preimages _ _ E).
  - by constructor.
Qed.

Lemma st_eq_dirties s1 s2 x y : st_eq s1 s2 → st_eq (set_dirties x s1) (set_dirties y s2).
Proof. intros E. apply (st_eq_other s1 s2); try done; apply E. Qed.
Lemma undirty_st_eq e s1 s2 : st_eq s1 s2 →
  st_eq (match dirtied e with Some a => undirty a s1 | None => s1 end)
        (match dirtied e with Some a => undirty a s2 | None => s2 end).
Proof.
  intros E. destruct (dirtied e); [|done]. unfold undirty.
  destruct (_ =? 0), (_ =? 0); by apply st_eq_dirties.
Qed.

Lemma revert_loop_proper es s1 s2 :
  st_eq s1 s2 → option_Forall2 st_eq (revert_loop es s1) (revert_loop es s2).
Proof.
  revert s1 s2. induction es as [|e es IH]; intros s1 s2 E; simpl; [by constructor|].
  pose proof (entry_revert_proper e _ _ E) as He.
  inversion He as [x y Hxy|]; subst; [|constructor].
  apply IH. by apply undirty_st_eq.
Qed.

Lemma revert_loop_app es1 es2 s :
  revert_loop (es1 ++ es2) s = match revert_loop es1 s with
                               | None => None
                               | Some s' => revert_loop es2 s'
                               end.
Proof. revert s. induction es1; intros s; simpl; [done|]. by destruct (entry_revert _ _). Qed.

End Equality.

#[export] Hint Resolve so_mod_setBalance so_mod_setNonce so_mod_set_suicided
  so_mod_setState so_mod_setCode : geth.
