(* ===== verification/StateRevert.v ===== *)
(** * Snapshots and reverts: the undo log

    The invariant of a state between operations, and the relation [extends]:
    replaying the journal entries an operation added gives a state that no
    reader can tell from the one before it.  Every operation of [StateDB.v]
    extends the state. *)

From S2P Require Import Prelude BigMath Rlp Interfaces StateDB StateEq.

Section Revert.
Context {D T : Type} {CR : Crypto} {TI : TrieI T} {DI : DatabaseI D T} {AC : AccountCodec}.

Implicit Types (s : @StateDB D T) (o : @stateObject T) (e : @journalEntry T).

(** ** The invariant *)

Definition codehash_ok (x : Account) : Prop := is_bytes (CodeHash x) ∧ length (CodeHash x) = 32%nat.
Definition obj_ok o : Prop := deleted o = false ∧ codehash_ok (data o).
Definition entry_ok e : Prop :=
  match e with resetObjectChange p => obj_ok p | _ => True end.

(** [journal.dirties] counts the entries that dirty an address, with no zero
    entry; [ripemd] may have been touched explicitly besides. *)
Definition cnt s (a : Z) : Z := default 0 (dirties s !! a).
Fixpoint ndirt (a : Z) (es : list journalEntry) : Z :=
  match es with
  | [] => 0
  | e :: r => (if decide (dirtied (T:=T) e = Some a) then 1 else 0) + ndirt a r
  end.
Record dirt_ok s : Prop := {
  do_nz : map_Forall (λ _ n, n ≠ 0) (dirties s);
  do_cnt : ∀ a, a ≠ ripemd → cnt s a = ndirt a (entries s);
  do_ripemd : ndirt ripemd (entries s) ≤ cnt s ripemd;
}.

Record wfo s : Prop := {
  wf_trie : ∀ a o, trie_obj s a = Some o → codehash_ok (data o);
  wf_objs : map_Forall (λ a o, if deleted o then trie_obj s a = None
                               else address o = a ∧ codehash_ok (data o)) (stateObjects s);
}.
Record wf s : Prop := {
  wf_wfo : wfo s;
  wf_entries : Forall entry_ok (entries s);
  wf_dirt : dirt_ok s;
}.

Lemma ndirt_nonneg a es : 0 ≤ ndirt a es.
Proof. induction es; simpl; [done|]. case_decide; lia. Qed.
Lemma ndirt_app a es1 es2 : ndirt a (es1 ++ es2) = ndirt a es1 + ndirt a es2.
Proof. induction es1; simpl; [done|]. rewrite IHes1. lia. Qed.

Lemma dirt_ok_append e s : dirt_ok s → dirt_ok (journal_append e s).
Proof.
  intros [H1 H2 H3]. unfold journal_append.
  destruct (dirtied e) as [b|] eqn:He; split; simpl; rewrite ?He; unfold cnt in *; simpl; auto.
  - apply map_Forall_insert_2; [|done]. destruct (decide (b = ripemd)) as [->|Hb].
    + pose proof (ndirt_nonneg ripemd (entries s)). lia.
    + rewrite H2 by done. pose proof (ndirt_nonneg b (entries s)). lia.
  - intros a Ha. destruct (decide (a = b)) as [->|Hab].
    + rewrite lookup_insert_eq, decide_True by done. simpl. rewrite H2 by done. lia.
    + rewrite lookup_insert_ne, decide_False by congruence. simpl. by apply H2.
  - destruct (decide (ripemd = b)) as [<-|Hab].
    + rewrite lookup_insert_eq, decide_True by done. simpl. lia.
    + rewrite lookup_insert_ne, decide_False by congruence. simpl. lia.
Qed.
Lemma dirt_ok_ripemd s : dirt_ok s → dirt_ok (dirty ripemd s).
Proof.
  intros [H1 H2 H3]. split; simpl; unfold cnt in *; simpl.
  - apply map_Forall_insert_2; [|done]. pose proof (ndirt_nonneg ripemd (entries s)). lia.
  - intros a Ha. rewrite lookup_insert_ne by congruence. by apply H2.
  - rewrite lookup_insert_eq. simpl. lia.
Qed.

Lemma cnt_undirty a b s : cnt (undirty b s) a = cnt s a - (if decide (Some b = Some a) then 1 else 0).
Proof.
  unfold cnt, undirty. case_decide; simplify_eq; destruct (_ =? 0) eqn:E; boolp; simpl.
  - rewrite lookup_delete_eq. simpl. lia.
  - rewrite lookup_insert_eq. done.
  - rewrite lookup_delete_ne by congruence. lia.
  - rewrite lookup_insert_ne by congruence. lia.
Qed.
Lemma nz_undirty b s : map_Forall (λ _ n, n ≠ 0) (dirties s) →
  map_Forall (λ _ n, n ≠ 0) (dirties (undirty b s)).
Proof.
  intros H. unfold undirty. destruct (_ =? 0) eqn:E; boolp; simpl.
  - by apply map_Forall_delete.
  - by apply map_Forall_insert_2.
Qed.

(** What undoing leaves alone. *)
Record frame s s' : Prop := {
  fr_db : db s' = db s;
  fr_trie : trie s' = trie s;
  fr_entries : entries s' = entries s;
  fr_revs : validRevisions s' = validRevisions s;
  fr_next : nextRevisionId s' = nextRevisionId s;
}.
#[local] Instance frame_preorder : PreOrder frame.
Proof. split; [by split|]. intros s1 s2 s3 [] []. split; congruence. Qed.

Lemma frame_set o s : frame s (setStateObject o s).
Proof. by split. Qed.
Lemma getStateObject_frame a s :
  frame s (getStateObject a s).2 ∧ dirties (getStateObject a s).2 = dirties s.
Proof.
  destruct (getStateObject_2 a s) as [->|[(er & -> & _)|(x & _ & _ & ->)]].
  - done.
  - unfold setError. by destruct (dbErr s).
  - done.
Qed.
Lemma with_object_frame a f s s' : with_object a f s = Some s' → frame s s' ∧ dirties s' = dirties s.
Proof.
  unfold with_object. pose proof (getStateObject_frame a s) as [H1 H2].
  destruct (getStateObject a s) as [[o|] t]; simpl in *; intros; simplify_eq.
  split; [|done]. etrans; [done|]. apply frame_set.
Qed.
Lemma entry_revert_frame e s s' : entry_revert e s = Some s' → frame s s' ∧ dirties s' = dirties s.
Proof.
  destruct e; simpl; intros He;
    try (by apply with_object_frame in He); try (simplify_eq; by repeat split).
  - pose proof (getStateObject_frame account s) as [H1 H2].
    destruct (getStateObject account s) as [[o|] t]; simpl in *; simplify_eq; [|done].
    split; [|done]. etrans; [done|]. apply frame_set.
  - destruct (default [] _) as [|? [|? ?]]; simplify_eq; by repeat split.
Qed.
Lemma undirty_frame e s :
  frame s (match dirtied (T:=T) e with Some a => undirty a s | None => s end).
Proof. destruct (dirtied e); [|done]. unfold undirty. by destruct (_ =? 0); repeat split. Qed.

Lemma revert_loop_frame es s s' : revert_loop es s = Some s' →
  frame s s' ∧ (∀ a, cnt s' a = cnt s a - ndirt a es) ∧
  (map_Forall (λ _ n, n ≠ 0) (dirties s) → map_Forall (λ _ n, n ≠ 0) (dirties s')).
Proof.
  revert s. induction es as [|e es IH]; simpl; intros s Hr.
  - simplify_eq. split_and!; try done. intros. lia.
  - destruct (entry_revert e s) as [t|] eqn:He; [|done].
    destruct (entry_revert_frame _ _ _ He) as [Hf Hd].
    apply IH in Hr as (Hf' & Hc & Hn). pose proof (undirty_frame e t) as Hu. split_and!.
    + etrans; [done|]. by etrans.
    + intros a. rewrite Hc. destruct (dirtied e) as [b|].
      * rewrite cnt_undirty. unfold cnt. rewrite Hd. lia.
      * rewrite decide_False by done. unfold cnt. rewrite Hd. lia.
    + intros Hz. apply Hn. destruct (dirtied e); [apply nz_undirty|]; by rewrite Hd.
Qed.

(** ** Preserving the invariant *)

Lemma wfo_other s s' : wfo s → trie s' = trie s → stateObjects s' = stateObjects s → wfo s'.
Proof.
  intros [W1 W2] Ht Ho. split.
  - intros a o. rewrite (trie_obj_ext s' s) by done. apply W1.
  - rewrite Ho. intros a o Ha. rewrite (trie_obj_ext s' s) by done. by apply W2.
Qed.
Lemma wfo_set s o : wfo s → obj_ok o → wfo (setStateObject o s).
Proof.
  intros [W1 W2] [Hd Hc]. split; [done|].
  apply map_Forall_insert_2; [|done]. by rewrite Hd.
Qed.
Lemma wfo_lookup s a o : wfo s → lookup_obj s a = Some o → address o = a ∧ obj_ok o.
Proof.
  intros [W1 W2]. rewrite lookup_obj_unfold. destruct (stateObjects s !! a) as [o'|] eqn:Ho.
  - apply W2 in Ho. destruct (deleted o') eqn:Hd; intros; simplify_eq. by destruct Ho.
  - intros Ht. split; [by apply (trie_obj_address s)|]. split; [|by eapply W1].
    revert Ht. unfold trie_obj. destruct (TryGet _ _) as [[|] ?]; [done|].
    destruct (decode_account _); simpl; intros; by simplify_eq.
Qed.
Lemma wfo_get s a : wfo s → wfo (getStateObject a s).2.
Proof.
  intros W. destruct (getStateObject_2 a s) as [->|[(er & -> & _)|(x & _ & Hx & ->)]]; [done| |].
  - unfold setError. destruct (dbErr s); [done|]. by apply (wfo_other s).
  - apply wfo_set; [done|]. split; [done|]. apply (wf_trie _ W _ _ Hx).
Qed.
Lemma with_object_wfo a f s s' :
  wfo s → with_object a f s = Some s' → (∀ o, obj_ok o → obj_ok (f o)) → wfo s'.
Proof.
  intros W. unfold with_object. pose proof (wfo_get s a W) as W'.
  pose proof (lookup_obj_get a s) as Hl.
  destruct (getStateObject a s) as [[o|] t]; simpl in *; intros; simplify_eq.
  apply wfo_set; [done|]. symmetry in Hl. apply (wfo_lookup _ _ _ W) in Hl as [_ Hl]. auto.
Qed.
Lemma codehash_ok_hash h c o : obj_ok o → obj_ok (so_setCode (hash_bytes h) c o).
Proof. intros [Hd _]. split; [done|]. split; [apply is_bytes_be_bytes|apply length_be_bytes]. Qed.

Lemma entry_revert_wfo e s s' : wfo s → entry_ok e → entry_revert e s = Some s' → wfo s'.
Proof.
  intros W Ho He. destruct e; simpl in *.
  - simplify_eq. destruct W as [W1 W2]. split; [done|]. by apply map_Forall_delete.
  - simplify_eq. by apply wfo_set.
  - pose proof (wfo_get s account W) as W'. pose proof (lookup_obj_get account s) as Hl.
    destruct (getStateObject account s) as [[o|] t]; simpl in *; simplify_eq; [|done].
    apply wfo_set; [done|]. symmetry in Hl. apply (wfo_lookup _ _ _ W) in Hl. by destruct Hl as [_ []].
  - eapply with_object_wfo; [done..|]. by intros o [].
  - eapply with_object_wfo; [done..|]. by intros o [].
  - eapply with_object_wfo; [done..|]. by intros o [].
  - eapply with_object_wfo; [done..|]. intros o. apply codehash_ok_hash.
  - simplify_eq. by apply (wfo_other s).
  - destruct (default [] _) as [|? [|? ?]]; simplify_eq; by apply (wfo_other s).
  - simplify_eq. by apply (wfo_other s).
  - by simplify_eq.
Qed.
Lemma revert_loop_wfo es s s' :
  wfo s → Forall entry_ok es → revert_loop es s = Some s' → wfo s'.
Proof.
  revert s. induction es as [|e es IH]; simpl; intros s W He Hr; [by simplify_eq|].
  apply Forall_cons in He as [He1 He2]. destruct (entry_revert e s) as [t|] eqn:Ht; [|done].
  apply (IH _) in Hr; try done. apply (entry_revert_wfo _ _ _ W He1) in Ht.
  destruct (dirtied e); [|done]. unfold undirty. by destruct (_ =? 0); apply (wfo_other t).
Qed.

Lemma wf_other s s' : wf s → trie s' = trie s → stateObjects s' = stateObjects s →
  entries s' = entries s → dirties s' = dirties s → wf s'.
Proof.
  intros [W1 W3 [W4 W5 W6]] Ht Ho He Hd. split.
  - by apply (wfo_other s).
  - by rewrite He.
  - split; unfold cnt in *; rewrite Hd, ?He; done.
Qed.
Lemma wf_set s o : wf s → obj_ok o → wf (setStateObject o s).
Proof. intros [W1 W3 []] Ho. split; [by apply wfo_set|done|by split]. Qed.
Lemma wf_append s e : wf s → entry_ok e → wf (journal_append e s).
Proof.
  intros [W1 W3 W4] He. pose proof (dirt_ok_append e s W4). unfold journal_append in *.
  destruct (dirtied e); split; try done; try (by apply (wfo_other s)); by apply Forall_cons.
Qed.
Lemma wf_lookup s a o : wf s → lookup_obj s a = Some o → address o = a ∧ obj_ok o.
Proof. intros [W _ _]. by apply wfo_lookup. Qed.
Lemma wf_get s a : wf s → wf (getStateObject a s).2.
Proof.
  intros [W1 W2 W3]. pose proof (getStateObject_frame a s) as [[] Hd]. split.
  - by apply wfo_get.
  - congruence.
  - destruct W3. split; unfold cnt in *; rewrite Hd, ?fr_entries0; done.
Qed.

(** ** Undoing gives the state back *)

(** [s'] is reached from [s]: undoing the entries added since gives back [s]. *)
Record extends s s' : Prop := {
  ex_wf : wf s';
  ex_undo : ∃ es, entries s' = es ++ entries s ∧
            ∃ s'', revert_loop es s' = Some s'' ∧ st_eq s'' s;
  ex_revs : validRevisions s' = validRevisions s;
  ex_next : nextRevisionId s' = nextRevisionId s;
}.

Lemma extends_refl s : wf s → extends s s.
Proof. intros W. split; try done. exists []. split; [done|]. by exists s. Qed.

Lemma undo_trans s1 s2 s3 es1 es2 s2' s3' :
  revert_loop es1 s2 = Some s2' → st_eq s2' s1 → revert_loop es2 s3 = Some s3' → st_eq s3' s2 →
  ∃ s, revert_loop (es2 ++ es1) s3 = Some s ∧ st_eq s s1.
Proof.
  intros H1 E1 H2 E2. rewrite revert_loop_app, H2.
  pose proof (revert_loop_proper es1 _ _ E2) as Hp. rewrite H1 in Hp.
  inversion Hp as [x y Hxy|]; subst. exists x. split; [done|]. by etrans.
Qed.
Lemma extends_trans s1 s2 s3 : extends s1 s2 → extends s2 s3 → extends s1 s3.
Proof.
  intros [W1 (es1 & He1 & x1 & Hx1 & E1) R1 N1] [W2 (es2 & He2 & x2 & Hx2 & E2) R2 N2].
  split; try congruence. exists (es2 ++ es1). split.
  - by rewrite He2, He1, app_assoc.
  - by eapply undo_trans.
Qed.

Lemma extends_silent s s' :
  wf s' → st_eq s' s → entries s' = entries s → validRevisions s' = validRevisions s →
  nextRevisionId s' = nextRevisionId s → extends s s'.
Proof. intros. split; try done. exists []. split; [done|]. by exists s'. Qed.
Lemma extends_entry e s s' s'' :
  wf s' → entries s' = e :: entries s → validRevisions s' = validRevisions s →
  nextRevisionId s' = nextRevisionId s → entry_revert e s' = Some s'' → st_eq s'' s →
  extends s s'.
Proof.
  intros W He Hv Hn Hr E. split; try done. exists [e]. split; [done|]. simpl. rewrite Hr.
  eexists. split; [done|]. rewrite <- E.
  pose proof (undirty_st_eq e s'' s'' ltac:(reflexivity)) as Hu.
  destruct (dirtied e); [|done]. unfold undirty. destruct (_ =? 0); by apply (st_eq_other s'' s'').
Qed.

Lemma journal_append_fields e s :
  stateObjects (journal_append e s) = stateObjects s ∧ trie (journal_append e s) = trie s ∧
  db (journal_append e s) = db s ∧ entries (journal_append e s) = e :: entries s ∧
  validRevisions (journal_append e s) = validRevisions s ∧
  nextRevisionId (journal_append e s) = nextRevisionId s ∧
  refund (journal_append e s) = refund s ∧ thash (journal_append e s) = thash s ∧
  logs (journal_append e s) = logs s ∧ logSize (journal_append e s) = logSize s ∧
  preimages (journal_append e s) = preimages s.
Proof. unfold journal_append. by destruct (dirtied e). Qed.
Lemma journal_append_eq e s : st_eq (journal_append e s) s.
Proof. unfold journal_append. destruct (dirtied e); by apply (st_eq_other s s). Qed.

Lemma extends_get a s : wf s → extends s (getStateObject a s).2.
Proof.
  intros W. pose proof (getStateObject_frame a s) as [[] _].
  apply extends_silent; try done; [by apply wf_get|apply getStateObject_eq].
Qed.
(** An object that differs from the live one in its caches only. *)
Lemma extends_load s o o' :
  wf s → lookup_obj s (address o) = Some o' → so_eq (db s) o o' → extends s (setStateObject o s).
Proof.
  intros W Hl E. destruct (wf_lookup _ _ _ W Hl) as [_ [Hd Hc]].
  apply extends_silent; try done.
  - apply wf_set; [done|]. split; [by rewrite (soe_deleted _ _ _ E)|by rewrite (soe_data _ _ _ E)].
  - apply (setStateObject_eq _ _ o'); try done. by rewrite (soe_deleted _ _ _ E).
Qed.

Lemma setStateObject_twice o o' s : address o = address o' →
  setStateObject o (setStateObject o' s) = setStateObject o s.
Proof. intros Ha. unfold setStateObject. simpl. by rewrite Ha, insert_insert_eq. Qed.
Lemma getStateObject_set o s : deleted o = false →
  getStateObject (address o) (setStateObject o s) = (Some o, setStateObject o s).
Proof. intros Hd. unfold getStateObject. simpl. by rewrite lookup_insert_eq, Hd. Qed.

(** A journalled change of a live object. *)
Lemma extends_modify e f o o' s :
  wf s → lookup_obj s (address o') = Some o → obj_ok o' → entry_ok e → so_mod f →
  (∀ t : @StateDB D T, entry_revert e t = with_object (address o') f t) → so_eq (db s) (f o') o →
  extends s (setStateObject o' (journal_append e s)).
Proof.
  intros W Hl Ho He (Hf1 & Hf2 & Hf3) Hr E.
  destruct (journal_append_fields e s) as (F1&F2&F3&F4&F5&F6&_).
  apply (extends_entry e _ _ (setStateObject (f o') (setStateObject o' (journal_append e s)))); try done.
  - apply wf_set; [|done]. by apply wf_append.
  - rewrite Hr. unfold with_object. rewrite getStateObject_set by apply Ho. reflexivity.
  - rewrite setStateObject_twice by done. etrans; [|apply (journal_append_eq e)].
    apply (setStateObject_eq _ _ o).
    + rewrite (lookup_obj_ext _ s) by done. by rewrite Hf2.
    + rewrite Hf3. apply Ho.
    + by rewrite F3.
Qed.

(** ** The operations extend the journal *)

Lemma lookup_none_trie s a : wf s → lookup_obj s a = None → trie_obj s a = None.
Proof.
  intros [[_ W] _ _]. rewrite lookup_obj_unfold. destruct (stateObjects s !! a) as [o|] eqn:Ho; [|done].
  apply W in Ho. by destruct (deleted o).
Qed.
Lemma codehash_ok_zero : codehash_ok Account_zero.
Proof. split; [apply Keccak256_bytes|apply Keccak256_length]. Qed.

Lemma delete_eq s s' a :
  stateObjects s' = <[a := default (newObject a Account_zero) (stateObjects s' !! a)]> (stateObjects s) →
  trie_obj s a = None → lookup_obj s a = None → trie s' = trie s →
  ∀ b, lookup_obj (set_stateObjects (delete a (stateObjects s')) s') b = lookup_obj s b.
Proof.
  intros Hs Ht Hl Htr b. rewrite lookup_obj_delete, (trie_obj_ext s' s) by done.
  case_decide as Hb; [by subst; rewrite Ht|]. rewrite !lookup_obj_unfold, Hs.
  rewrite lookup_insert_ne by done. by rewrite (trie_obj_ext s' s).
Qed.

(** A new object replaces what was at its address, by one journal entry. *)
Lemma extends_create n s :
  wf s → obj_ok n →
  extends s (setStateObject n
    (journal_append (match lookup_obj s (address n) with
                     | None => createObjectChange (address n)
                     | Some p => resetObjectChange p
                     end) s)).
Proof.
  intros W Hn. destruct (lookup_obj s (address n)) as [p|] eqn:Hl.
  - destruct (wf_lookup _ _ _ W Hl) as [Hp Hok].
    destruct (journal_append_fields (resetObjectChange p) s) as (F1&F2&F3&F4&F5&F6&_).
    eapply (extends_entry (resetObjectChange p)); try done.
    { apply wf_set; [|done]. by apply wf_append. }
    rewrite setStateObject_twice by done. etrans; [|apply (journal_append_eq (resetObjectChange p))].
    apply (setStateObject_eq _ _ p); [|apply Hok|reflexivity].
    rewrite (lookup_obj_ext _ s) by done. by rewrite Hp.
  - destruct (journal_append_fields (createObjectChange (address n)) s)
      as (F1&F2&F3&F4&F5&F6&F7&F8&F9&F10&F11).
    eapply (extends_entry (createObjectChange (address n))); try done.
    { apply wf_set; [|done]. by apply wf_append. }
    apply st_eq_frame; try done. intros b.
    set (s' := setStateObject _ _). rewrite <- (delete_eq s s' (address n)).
    + rewrite (lookup_obj_ext _ (set_stateObjects (delete (address n) (stateObjects s')) s')) by done.
      apply lookup_refl.
    + unfold s'. simpl. by rewrite lookup_insert_eq.
    + by apply lookup_none_trie.
    + done.
    + done.
Qed.

Lemma createObject_ok a s n p s' : wf s → createObject a s = (n, p, s') →
  extends s s' ∧ stateObjects s' !! a = Some n ∧ address n = a ∧ obj_ok n ∧
  p = lookup_obj s a ∧
  ∀ m, address m = a → obj_ok m → extends s (setStateObject m s').
Proof.
  intros W. unfold createObject. pose proof (extends_get a s W) as Hg.
  pose proof (getStateObject_eq a s) as Heq.
  assert (Hl : (getStateObject a s).1 = lookup_obj (getStateObject a s).2 a).
  { destruct (getStateObject_2 a s) as [->|[(er & -> & Hn)|(x & _ & Hx & ->)]]; [done| |].
    - rewrite Hn. rewrite (lookup_obj_ext _ s) by apply setError_fields. by rewrite <- Hn.
    - simpl. rewrite lookup_obj_set. by rewrite decide_True. }
  unfold lookup_obj at 1. destruct (getStateObject a s) as [x t]. simpl in *. intros [= <- <- <-].
  assert (Hall : ∀ m, address m = a → obj_ok m → extends s
    (setStateObject m (match x with
                       | Some p => journal_append (resetObjectChange p) t
                       | None => journal_append (createObjectChange a) t end))).
  { intros m Hm Ho. apply (extends_trans _ _ _ Hg). pose proof (extends_create m t (ex_wf _ _ Hg) Ho) as Hc.
    rewrite Hm, <- Hl in Hc. by destruct x. }
  split_and!.
  - apply Hall; [done|]. split; [done|apply codehash_ok_zero].
  - simpl. by rewrite lookup_insert_eq.
  - done.
  - split; [done|apply codehash_ok_zero].
  - done.
  - intros m Hm Ho. rewrite setStateObject_twice by done. auto.
Qed.

Lemma lookup_obj_live s a o : stateObjects s !! a = Some o → deleted o = false → lookup_obj s a = Some o.
Proof. intros Ho Hd. by rewrite lookup_obj_unfold, Ho, Hd. Qed.

(** What [getStateObject] returns is live, and is in the map afterwards. *)
Lemma get_live a s o s' : wf s → getStateObject a s = (Some o, s') →
  extends s s' ∧ stateObjects s' !! a = Some o ∧ address o = a ∧ obj_ok o.
Proof.
  intros W Hg. pose proof (extends_get a s W) as He. rewrite Hg in He. split; [done|].
  assert (lookup_obj s a = Some o) as Hl by (unfold lookup_obj; by rewrite Hg).
  destruct (wf_lookup _ _ _ W Hl). split; [|done].
  destruct (getStateObject_2 a s) as [Hs|[(er & _ & Hn)|(x & _ & _ & Hx)]].
  - rewrite Hg in Hs. simpl in Hs. subst s'. unfold getStateObject in Hg.
    destruct (stateObjects s !! a) as [o'|] eqn:Ho.
    + destruct (deleted o'); by simplify_eq.
    + exfalso. destruct (TryGet _ _) as [[|] ?]; [done|]. destruct (decode_account _); [|done].
      injection Hg as <- Hs. apply (f_equal (λ s, stateObjects s !! a)) in Hs. simpl in Hs.
      by rewrite lookup_insert_eq, Ho in Hs.
  - rewrite Hg in Hn. done.
  - rewrite Hg in Hx. injection Hx as -> ->. simpl. by rewrite lookup_insert_eq.
Qed.

Lemma GetOrNew_ok a s o s' : wf s → GetOrNewStateObject a s = (o, s') →
  extends s s' ∧ stateObjects s' !! a = Some o ∧ address o = a ∧ obj_ok o ∧ lookup_obj s' a = Some o.
Proof.
  intros W. unfold GetOrNewStateObject. destruct (getStateObject a s) as [[x|] t] eqn:Hg.
  - destruct (get_live _ _ _ _ W Hg) as (He & Hm & Ha & Ho). rewrite (proj1 Ho).
    intros [= <- <-]. split_and!; try done. apply lookup_obj_live; [done|apply Ho].
  - pose proof (extends_get a s W) as He. rewrite Hg in He. simpl in He.
    destruct (createObject a t) as [[n p] u] eqn:Hc. intros [= <- <-].
    destruct (createObject_ok _ _ _ _ _ (ex_wf _ _ He) Hc) as (He' & Hm & Ha & Ho & _).
    split_and!; try done.
    + by apply (extends_trans _ t).
    + apply lookup_obj_live; [done|apply Ho].
Qed.

Lemma extends_SetBalance x a s o : wf s → lookup_obj s a = Some o →
  extends s (so_SetBalance x o s).
Proof.
  intros W Hl. destruct (wf_lookup _ _ _ W Hl) as [Ha Ho]. unfold so_SetBalance.
  apply (extends_modify _ (so_setBalance (Balance (data o))) o); auto with geth; simpl.
  - by rewrite Ha.
  - destruct Ho. by split.
  - destruct o as [? ? [] ? ? ? ? ? ? ? ?]. reflexivity.
Qed.

Lemma CreateAccount_ok a s : wf s → extends s (CreateAccount a s).
Proof.
  intros W. unfold CreateAccount. destruct (createObject a s) as [[n p] t] eqn:Hc.
  destruct (createObject_ok _ _ _ _ _ W Hc) as (He & Hm & Ha & Ho & _ & Hall).
  destruct p as [p|]; [|done]. apply Hall; [done|]. destruct Ho. by split.
Qed.

Ltac get_or_new :=
  match goal with
  | W : wf ?s |- context [GetOrNewStateObject ?a ?s] =>
      let o := fresh "o" in let t := fresh "t" in let E := fresh "E" in
      destruct (GetOrNewStateObject a s) as [o t] eqn:E;
      destruct (GetOrNew_ok _ _ _ _ W E) as (He & Hm & Ha & Ho & Hl);
      apply (extends_trans _ _ _ He); pose proof (ex_wf _ _ He) as Wt
  end.

Lemma extends_touch a s o : wf s → lookup_obj s a = Some o → extends s (touch o s).
Proof.
  intros W Hl. unfold touch.
  assert (E : ∀ t, wf t → entries t = entries (journal_append (touchChange (address o)) s) →
    validRevisions t = validRevisions s → nextRevisionId t = nextRevisionId s → st_eq t s →
    extends s t).
  { intros t Wt He Hv Hn Ht. by apply (extends_entry (touchChange (address o)) _ _ t). }
  destruct (_ =? _) eqn:Hr.
  - apply E; try done.
    + boolp. rewrite Hr. pose proof (wf_append s (touchChange ripemd) W I) as [W1 W2 W3].
      split; [by apply (wfo_other (journal_append (touchChange ripemd) s))|done|]. by apply dirt_ok_ripemd.
    + etrans; [|apply (journal_append_eq (touchChange (address o)))].
      by apply (st_eq_other s s).
  - apply E; try done; [by apply wf_append|by apply journal_append_eq].
Qed.

Lemma AddBalance_ok a x s : wf s → extends s (AddBalance a x s).
Proof.
  intros W. unfold AddBalance. get_or_new. unfold so_AddBalance.
  destruct (_ =? 0); [|by apply (extends_SetBalance _ a)].
  destruct (empty o); [by apply (extends_touch a)|by apply extends_refl].
Qed.
Lemma SubBalance_ok a x s : wf s → extends s (SubBalance a x s).
Proof.
  intros W. unfold SubBalance. get_or_new. unfold so_SubBalance.
  destruct (_ =? 0); [by apply extends_refl|by apply (extends_SetBalance _ a)].
Qed.
Lemma SetBalance_ok a x s : wf s → extends s (SetBalance a x s).
Proof. intros W. unfold SetBalance. get_or_new. by apply (extends_SetBalance _ a). Qed.
Lemma SetNonce_ok a x s : wf s → extends s (SetNonce a x s).
Proof.
  intros W. unfold SetNonce. get_or_new. unfold so_SetNonce.
  apply (extends_modify _ (so_setNonce (Nonce (data o))) o); auto with geth; simpl.
  - by rewrite Ha.
  - destruct Ho. by split.
  - destruct o as [? ? [] ? ? ? ? ? ? ? ?]. reflexivity.
Qed.
Lemma SetCode_ok a c s : wf s → extends s (SetCode a c s).
Proof.
  intros W. unfold SetCode. get_or_new. unfold so_SetCode.
  pose proof (so_Code_eq (db t) o) as Hc.
  pose proof (code_of_restored (db t) o) as Hrest.
  destruct (so_Code (db t) o) as [pc o2]. simpl in *.
  assert (Hh : hash_bytes (BytesToHash (CodeHash (data o2))) = CodeHash (data o)).
  { rewrite (soe_data _ _ _ Hc). destruct Ho as [_ []]. by apply hash_bytes_BytesToHash. }
  apply (extends_modify _ (so_setCode (hash_bytes (BytesToHash (CodeHash (data o2)))) pc) o); auto with geth.
  - simpl. by rewrite (soe_address _ _ _ Hc), Ha.
  - apply codehash_ok_hash. destruct Ho. split; [by rewrite (soe_deleted _ _ _ Hc)|by rewrite (soe_data _ _ _ Hc)].
  - done.
  - destruct Hc as [E1 E2 E3 E4 E5 E6 E7 E8]. split; simpl; try done.
    + rewrite Hh, E3. by destruct o as [? ? [] ? ? ? ? ? ? ? ?].
    + intros k. rewrite <- E6. by apply committed_of_frame.
    + intros k. rewrite <- E7. by apply state_of_frame.
    + by apply Hrest.
Qed.
Lemma SetState_ok a k v s : wf s → extends s (SetState a k v s).
Proof.
  intros W. unfold SetState. get_or_new. unfold so_SetState.
  pose proof (so_GetState_eq (db t) k o) as Hc. pose proof (eq_refl (state_of (db t) k o)) as Hst.
  unfold state_of at 1 in Hst. destruct (so_GetState (db t) k o) as [pv o2]. simpl in *.
  assert (Hload : extends t (setStateObject o2 t)).
  { apply (extends_load _ _ o); try done. by rewrite (soe_address _ _ _ Hc), Ha. }
  destruct (pv =? v); [done|]. apply (extends_trans _ _ _ Hload).
  assert (Hok2 : obj_ok o2).
  { destruct Ho. split; [by rewrite (soe_deleted _ _ _ Hc)|by rewrite (soe_data _ _ _ Hc)]. }
  apply (extends_modify _ (so_setState k pv) o2); auto with geth.
  - apply Hload.
  - simpl. rewrite lookup_obj_set, decide_True by done. by rewrite (proj1 Hok2).
  - done.
  - split; try done.
    + intros k'. by apply committed_of_frame.
    + intros k'. rewrite !state_of_setState. case_decide; [|done]. subst.
      by rewrite (soe_state _ _ _ Hc).
    + by apply code_of_frame.
Qed.
Lemma Suicide_ok a s : wf s → extends s (Suicide a s).2.
Proof.
  intros W. unfold Suicide. destruct (getStateObject a s) as [[o|] t] eqn:Hg.
  - destruct (get_live _ _ _ _ W Hg) as (He & Hm & Ha & Ho). apply (extends_trans _ _ _ He).
    pose proof (ex_wf _ _ He) as Wt. simpl.
    set (e := suicideChange a (suicided o) (Balance (data o))).
    destruct (journal_append_fields e t) as (F1&F2&F3&F4&F5&F6&_).
    set (o' := so_setBalance 0 (markSuicided o)).
    apply (extends_entry e _ _ (setStateObject (so_setBalance (Balance (data o)) (set_suicided (suicided o) o'))
             (setStateObject o' (journal_append e t)))); try done.
    + apply wf_set; [by apply wf_append|]. destruct Ho. by split.
    + unfold e, entry_revert. rewrite <- Ha at 1. change (address o) with (address o').
      rewrite getStateObject_set by apply Ho. done.
    + rewrite setStateObject_twice by done. etrans; [|apply (journal_append_eq e)].
      apply (setStateObject_eq _ _ o); [|apply Ho|].
      * rewrite (lookup_obj_ext _ t) by done. simpl. rewrite Ha.
        apply lookup_obj_live; [done|apply Ho].
      * destruct o as [? ? [] ? ? ? ? ? ? ? ?]. reflexivity.
  - simpl. pose proof (extends_get a s W) as He. by rewrite Hg in He.
Qed.

Lemma extends_refundChange x s : wf s →
  extends s (set_refund x (journal_append (refundChange (refund s)) s)).
Proof.
  intros W. eapply (extends_entry (refundChange (refund s))); try done.
  - by apply (wf_other (journal_append (refundChange (refund s)) s)); [apply wf_append|..].
  - by apply (st_eq_other s s).
Qed.
Lemma AddRefund_ok g s : wf s → extends s (AddRefund g s).
Proof. apply extends_refundChange. Qed.
Lemma SubRefund_ok g s s' : wf s → SubRefund g s = Some s' → extends s s'.
Proof.
  intros W. unfold SubRefund. destruct (_ <? _); [done|]. intros [= <-].
  by apply extends_refundChange.
Qed.
Lemma AddLog_ok l s : wf s → extends s (AddLog l s).
Proof.
  intros W. unfold AddLog. simpl. set (l' := mkLog _ _ _ _ _ _ _ _).
  set (e := addLogChange (thash s)). set (old := default [] (logs s !! thash s)).
  set (s' := set_logSize _ _).
  assert (Hold : default [] (logs s' !! thash s) = old ++ [l']).
  { unfold s'. simpl. by rewrite lookup_insert_eq. }
  assert (Wt : wf s') by (apply (wf_other (journal_append e s)); [by apply wf_append|done..]).
  set (lg := match old with [] => delete (thash s) (logs s') | _ => <[thash s := old]> (logs s') end).
  apply (extends_entry e _ _ (set_logSize (logSize s' - 1) (set_logs lg s'))); try done.
  - unfold e, entry_revert. rewrite Hold. unfold lg. destruct old as [|l0 [|l1 r]]; [done..|].
    rewrite length_app, Nat.add_sub, take_app_length. done.
  - apply (st_eq_other s s); try done; [|simpl; lia]. intros h. simpl. unfold lg.
    destruct (decide (h = thash s)) as [->|].
    + fold old. destruct old; [by rewrite lookup_delete_eq|by rewrite lookup_insert_eq].
    + destruct old; unfold s'; simpl.
      * by rewrite lookup_delete_ne, lookup_insert_ne by done.
      * by rewrite !lookup_insert_ne by done.
Qed.
Lemma AddPreimage_ok h x s : wf s → extends s (AddPreimage h x s).
Proof.
  intros W. unfold AddPreimage. destruct (preimages s !! h) as [|] eqn:Hp; [by apply extends_refl|].
  eapply (extends_entry (addPreimageChange h)); try done.
  - by apply (wf_other (journal_append (addPreimageChange h) s)); [apply wf_append|..].
  - apply (st_eq_other s s); try done. simpl. by rewrite delete_insert_id.
Qed.

(** The readers. *)
Lemma GetCode_ok a s : wf s → extends s (GetCode a s).2.
Proof.
  intros W. unfold GetCode. destruct (getStateObject a s) as [[o|] t] eqn:Hg.
  - destruct (get_live _ _ _ _ W Hg) as (He & Hm & Ha & Ho).
    pose proof (so_Code_eq (db t) o) as Hc. destruct (so_Code (db t) o) as [c o2]. simpl in *.
    apply (extends_trans _ _ _ He), (extends_load _ _ o); [apply He| |done].
    rewrite (soe_address _ _ _ Hc), Ha. apply lookup_obj_live; [done|apply Ho].
  - pose proof (extends_get a s W) as He. by rewrite Hg in He.
Qed.
Lemma GetState_ok a k s : wf s → extends s (GetState a k s).2.
Proof.
  intros W. unfold GetState. destruct (getStateObject a s) as [[o|] t] eqn:Hg.
  - destruct (get_live _ _ _ _ W Hg) as (He & Hm & Ha & Ho).
    pose proof (so_GetState_eq (db t) k o) as Hc. destruct (so_GetState (db t) k o) as [c o2]. simpl in *.
    apply (extends_trans _ _ _ He), (extends_load _ _ o); [apply He| |done].
    rewrite (soe_address _ _ _ Hc), Ha. apply lookup_obj_live; [done|apply Ho].
  - pose proof (extends_get a s W) as He. by rewrite Hg in He.
Qed.
Lemma GetCommittedState_ok a k s : wf s → extends s (GetCommittedState a k s).2.
Proof.
  intros W. unfold GetCommittedState. destruct (getStateObject a s) as [[o|] t] eqn:Hg.
  - destruct (get_live _ _ _ _ W Hg) as (He & Hm & Ha & Ho).
    pose proof (so_GetCommittedState_eq (db t) k o) as Hc.
    destruct (so_GetCommittedState (db t) k o) as [c o2]. simpl in *.
    apply (extends_trans _ _ _ He), (extends_load _ _ o); [apply He| |done].
    rewrite (soe_address _ _ _ Hc), Ha. apply lookup_obj_live; [done|apply Ho].
  - pose proof (extends_get a s W) as He. by rewrite Hg in He.
Qed.
Lemma extends_setError x s : wf s → extends s (setError x s).
Proof.
  intros W. pose proof (setError_fields x s) as (?&?&?&?&?&?&?&?&?&?&?&?&?&?&?).
  apply extends_silent; try done; [|apply setError_eq]. by apply (wf_other s).
Qed.
Lemma GetCodeSize_ok a s : wf s → extends s (GetCodeSize a s).2.
Proof.
  intros W. unfold GetCodeSize. pose proof (extends_get a s W) as He.
  destruct (getStateObject a s) as [[o|] t]; [|done]. simpl in He. destruct (code o); [done|].
  destruct (ContractCodeSize _ _ _) as [n [er|]]; [|done].
  apply (extends_trans _ _ _ He), extends_setError, He.
Qed.

(** ** Histories of operations *)

Inductive op :=
| OpCreateAccount (a : Z)
| OpAddBalance (a x : Z) | OpSubBalance (a x : Z) | OpSetBalance (a x : Z)
| OpSetNonce (a n : Z) | OpSetCode (a : Z) (c : option bytes) | OpSetState (a k v : Z)
| OpSuicide (a : Z)
| OpAddRefund (g : Z) | OpSubRefund (g : Z) | OpAddLog (l : Log) | OpAddPreimage (h : Z) (x : bytes)
| OpGetCode (a : Z) | OpGetCodeSize (a : Z) | OpGetState (a k : Z) | OpGetCommittedState (a k : Z)
| OpGetObject (a : Z)  (* the other readers load the account only *)
| OpSnapshot | OpRevertToSnapshot (id : Z).

(** [None]: the operation panics. *)
Definition exec (x : op) s : option StateDB :=
  match x with
  | OpCreateAccount a => Some (CreateAccount a s)
  | OpAddBalance a x => Some (AddBalance a x s)
  | OpSubBalance a x => Some (SubBalance a x s)
  | OpSetBalance a x => Some (SetBalance a x s)
  | OpSetNonce a n => Some (SetNonce a n s)
  | OpSetCode a c => Some (SetCode a c s)
  | OpSetState a k v => Some (SetState a k v s)
  | OpSuicide a => Some (Suicide a s).2
  | OpAddRefund g => Some (AddRefund g s)
  | OpSubRefund g => SubRefund g s
  | OpAddLog l => Some (AddLog l s)
  | OpAddPreimage h x => Some (AddPreimage h x s)
  | OpGetCode a => Some (GetCode a s).2
  | OpGetCodeSize a => Some (GetCodeSize a s).2
  | OpGetState a k => Some (GetState a k s).2
  | OpGetCommittedState a k => Some (GetCommittedState a k s).2
  | OpGetObject a => Some (getStateObject a s).2
  | OpSnapshot => Some (Snapshot s).2
  | OpRevertToSnapshot id => RevertToSnapshot id s
  end.
Fixpoint run (xs : list op) s : option StateDB :=
  match xs with
  | [] => Some s
  | x :: r => match exec x s with None => None | Some s' => run r s' end
  end.

Definition is_revision_op (x : op) : bool :=
  match x with OpSnapshot | OpRevertToSnapshot _ => true | _ => false end.

Lemma exec_extends x s s' : is_revision_op x = false → wf s → exec x s = Some s' → extends s s'.
Proof.
  intros Hx W He. destruct x; try discriminate; simpl in He; try (injection He as <-);
    eauto using CreateAccount_ok, AddBalance_ok, SubBalance_ok, SetBalance_ok, SetNonce_ok,
      SetCode_ok, SetState_ok, Suicide_ok, AddRefund_ok, SubRefund_ok, AddLog_ok, AddPreimage_ok,
      GetCode_ok, GetCodeSize_ok, GetState_ok, GetCommittedState_ok, extends_get.
Qed.

End Revert.
