(* ===== verification/StateHistory.v ===== *)
(** * Snapshots and reverts: histories

    The revision stack, and the theorem the journal exists for: whatever
    operations follow a snapshot, reverting to it succeeds and gives back the
    state, as far as any reader can tell. *)

From S2P Require Import Prelude BigMath Rlp Interfaces StateDB StateEq StateRevert.

Section History.
Context {D T : Type} {CR : Crypto} {TI : TrieI T} {DI : DatabaseI D T} {AC : AccountCodec}.

Implicit Types (s : @StateDB D T).

(** The revision stack: increasing ids below the next one, and journal
    positions that increase up to the length of the journal. *)
Record revs_ok s : Prop := {
  ro_ids : ∀ i j r r', (i < j)%nat → validRevisions s !! i = Some r →
           validRevisions s !! j = Some r' → rev_id r < rev_id r';
  ro_next : ∀ i r, validRevisions s !! i = Some r → rev_id r < nextRevisionId s;
  ro_idx : ∀ i j r r', (i ≤ j)%nat → validRevisions s !! i = Some r →
           validRevisions s !! j = Some r' → (journalIndex r ≤ journalIndex r')%nat;
  ro_len : ∀ i r, validRevisions s !! i = Some r → (journalIndex r ≤ length (entries s))%nat;
}.
Definition inv s : Prop := wf s ∧ revs_ok s.

Lemma revs_ok_extends s s' : revs_ok s → extends s s' → revs_ok s'.
Proof.
  intros [R1 R2 R3 R4] [_ (es & He & _) Hr Hn]. split; rewrite ?Hr, ?Hn, ?He; try done.
  intros i r Hi. rewrite length_app. apply R4 in Hi. lia.
Qed.

Lemma search_mono s id : revs_ok s → ∀ a b, (a ≤ b)%nat →
  (match validRevisions s !! a with Some r => id <=? rev_id r | None => true end) = true →
  (match validRevisions s !! b with Some r => id <=? rev_id r | None => true end) = true.
Proof.
  intros R a b Hab Ha. destruct (validRevisions s !! b) as [r'|] eqn:Hb; [|done].
  destruct (decide (a = b)) as [->|]; [by rewrite Hb in Ha|].
  destruct (lookup_lt_is_Some_2 (validRevisions s) a) as [r Hr].
  { apply lookup_lt_Some in Hb. lia. }
  rewrite Hr in Ha. pose proof (ro_ids _ R a b r r' ltac:(lia) Hr Hb). boolp. apply Z.leb_le. lia.
Qed.

(** The binary search finds the revision with the given id. *)
Lemma RevertToSnapshot_found s k r : revs_ok s → validRevisions s !! k = Some r →
  RevertToSnapshot (rev_id r) s =
    match journal_revert (journalIndex r) s with
    | None => None
    | Some t => Some (set_validRevisions (take k (validRevisions t)) t)
    end.
Proof.
  intros R Hk. unfold RevertToSnapshot.
  pose proof (sort_Search_spec (length (validRevisions s)) _ (search_mono s (rev_id r) R)) as (Hle & Hlo & Hhi).
  set (idx := sort_Search _ _) in *. assert (idx = k) as ->.
  { pose proof (lookup_lt_Some _ _ _ Hk). destruct (decide (idx < k)%nat) as [Hlt|].
    - specialize (Hhi ltac:(lia)). destruct (lookup_lt_is_Some_2 (validRevisions s) idx) as [r' Hr']; [lia|].
      rewrite Hr' in Hhi. pose proof (ro_ids _ R idx k r' r Hlt Hr' Hk). boolp. lia.
    - destruct (decide (k < idx)%nat) as [Hlt|]; [|lia]. specialize (Hlo k Hlt).
      rewrite Hk in Hlo. boolp. lia. }
  by rewrite Hk, Z.eqb_refl.
Qed.
Lemma RevertToSnapshot_inv s id s' : RevertToSnapshot id s = Some s' →
  ∃ k r t, validRevisions s !! k = Some r ∧ rev_id r = id ∧
    journal_revert (journalIndex r) s = Some t ∧
    s' = set_validRevisions (take k (validRevisions t)) t.
Proof.
  unfold RevertToSnapshot. set (k := sort_Search _ _). destruct (validRevisions s !! k) as [r|] eqn:Hk; [|done].
  destruct (_ =? _) eqn:Hid; [|done]. destruct (journal_revert _ _) as [t|] eqn:Ht; [|done].
  intros [= <-]. exists k, r, t. boolp. done.
Qed.

(** Undoing a suffix of the journal. *)
Lemma journal_revert_ok n s t es rest : wf s → entries s = es ++ rest → n = length rest →
  journal_revert n s = Some t →
  ∃ u, revert_loop es s = Some u ∧ t = set_entries rest u ∧ wf t ∧
       validRevisions t = validRevisions s ∧ nextRevisionId t = nextRevisionId s.
Proof.
  intros W He -> . unfold journal_revert. rewrite He, length_app, Nat.add_sub.
  rewrite take_app_length, drop_app_length. destruct (revert_loop es s) as [u|] eqn:Hu; [|done].
  intros [= <-]. exists u. pose proof (revert_loop_frame _ _ _ Hu) as ([] & Hc & Hn).
  destruct W as [W1 W2 [W3 W4 W5]]. rewrite He in W2. apply Forall_app in W2 as [W2 W2'].
  split_and!; try done. split; simpl; [|done|].
  - apply (wfo_other u); [|done..]. exact (revert_loop_wfo _ _ _ W1 W2 Hu).
  - rewrite He in *. split; unfold cnt in *; simpl.
    + by apply Hn.
    + intros a Ha. rewrite Hc, W4, ndirt_app by done. lia.
    + rewrite Hc. rewrite ndirt_app in W5. lia.
Qed.
Lemma revs_ok_take k r s t : revs_ok s → validRevisions s !! k = Some r →
  validRevisions t = take k (validRevisions s) → nextRevisionId t = nextRevisionId s →
  length (entries t) = journalIndex r → revs_ok t.
Proof.
  intros [R1 R2 R3 R4] Hk Hv Hn Hl. split; rewrite ?Hv, ?Hn, ?Hl.
  - intros i j ri rj Hij Hi Hj. apply lookup_take_Some in Hi as [Hi _], Hj as [Hj _]. eauto.
  - intros i ri Hi. apply lookup_take_Some in Hi as [Hi _]. eauto.
  - intros i j ri rj Hij Hi Hj. apply lookup_take_Some in Hi as [Hi _], Hj as [Hj _]. eauto.
  - intros i ri Hi. apply lookup_take_Some in Hi as [Hi Hlt].
    apply (R3 i k); [lia|done|done].
Qed.
Lemma entries_split {A} n (l : list A) : (n ≤ length l)%nat →
  l = take (length l - n) l ++ drop (length l - n) l ∧ length (drop (length l - n) l) = n.
Proof. intros. rewrite take_drop, length_drop. split; [done|lia]. Qed.

Lemma RevertToSnapshot_inv_ok s id s' : inv s → RevertToSnapshot id s = Some s' → inv s'.
Proof.
  intros [W R] Hr. apply RevertToSnapshot_inv in Hr as (k & r & t & Hk & Hid & Ht & ->).
  destruct (entries_split _ _ (ro_len _ R _ _ Hk)) as [He Hl].
  destruct (journal_revert_ok _ _ _ _ _ W He (eq_sym Hl) Ht) as (u & Hu & Htu & Wt & Hv & Hn).
  split; [by apply (wf_other t)|]. eapply (revs_ok_take k); [done|done|simpl; by rewrite Hv|done|].
  simpl. by rewrite Htu.
Qed.
Lemma Snapshot_ok s : inv s → inv (Snapshot s).2.
Proof.
  intros [W R]. split; [by apply (wf_other s)|]. destruct R as [R1 R2 R3 R4].
  split; simpl.
  - intros i j r r' Hij Hi Hj. apply lookup_snoc_Some in Hi, Hj.
    destruct Hi as [[? Hi]|[-> <-]], Hj as [[? Hj]|[-> <-]]; simpl; try lia; eauto.
  - intros i r Hi. apply lookup_snoc_Some in Hi as [[? Hi]|[-> <-]]; simpl; [|lia].
    apply R2 in Hi. lia.
  - intros i j r r' Hij Hi Hj. apply lookup_snoc_Some in Hi, Hj.
    destruct Hi as [[? Hi]|[-> <-]], Hj as [[? Hj]|[-> <-]]; simpl; try lia; eauto.
  - intros i r Hi. apply lookup_snoc_Some in Hi as [[? Hi]|[-> <-]]; simpl; eauto.
Qed.

Lemma exec_inv x s s' : inv s → exec x s = Some s' → inv s'.
Proof.
  intros I He. destruct (is_revision_op x) eqn:Hx.
  - destruct x; try discriminate; simpl in He.
    + injection He as <-. by apply Snapshot_ok.
    + by eapply RevertToSnapshot_inv_ok.
  - destruct I as [W R]. pose proof (exec_extends _ _ _ Hx W He) as Hext.
    split; [apply Hext|by eapply revs_ok_extends].
Qed.
Lemma run_inv xs s s' : inv s → run xs s = Some s' → inv s'.
Proof.
  revert s. induction xs as [|x xs IH]; simpl; intros s I Hr; [by simplify_eq|].
  destruct (exec x s) as [t|] eqn:Ht; [|done]. eauto using exec_inv.
Qed.

(** A state just opened on a trie whose accounts decode properly. *)
Lemma inv_New (d : D) (t : T) :
  (∀ a o, trie_obj (New d t) a = Some o → codehash_ok (data o)) → inv (New d t).
Proof.
  intros Ht. split.
  - split; [split; [done|apply map_Forall_empty]|constructor|].
    split; [apply map_Forall_empty|done|done].
  - split; simpl; intros; done.
Qed.

(** ** After a snapshot *)

(** [s] comes after the snapshot [id] of [s0], which is still valid. *)
Record since (s0 : StateDB) (id : Z) s : Prop := {
  si_inv : inv s;
  si_undo : ∃ es, entries s = es ++ entries s0 ∧
            ∃ s'', revert_loop es s = Some s'' ∧ st_eq s'' s0;
  si_revs : take (S (length (validRevisions s0))) (validRevisions s) =
            validRevisions s0 ++ [mkRevision id (length (entries s0))];
}.
Definition keeps (id : Z) (x : op) : Prop :=
  match x with OpRevertToSnapshot j => id < j | _ => True end.

Lemma since_lookup s0 id s : since s0 id s →
  validRevisions s !! length (validRevisions s0) = Some (mkRevision id (length (entries s0))).
Proof.
  intros [_ _ H]. apply (f_equal (.!! length (validRevisions s0))) in H.
  rewrite lookup_take_lt, lookup_app_r, Nat.sub_diag in H by lia. done.
Qed.

Lemma since_Snapshot s0 id s1 : inv s0 → Snapshot s0 = (id, s1) → since s0 id s1.
Proof.
  intros I [= <- <-]. split.
  - by apply (Snapshot_ok s0).
  - exists []. split; [done|]. eexists. split; [done|]. by apply (st_eq_other s0 s0).
  - simpl. apply take_ge. rewrite length_app. simpl. lia.
Qed.

Lemma since_extends s0 id s s' : since s0 id s → extends s s' → since s0 id s'.
Proof.
  intros [[W R] (es1 & He1 & x1 & Hx1 & E1) Hv] Hext.
  pose proof (revs_ok_extends _ _ R Hext) as R'.
  destruct Hext as [W' (es2 & He2 & x2 & Hx2 & E2) Hr _]. split; [done| |by rewrite Hr].
  exists (es2 ++ es1). split; [by rewrite He2, He1, app_assoc|]. by eapply undo_trans.
Qed.

Lemma since_revert s0 id s j s' : since s0 id s → id < j → RevertToSnapshot j s = Some s' →
  since s0 id s'.
Proof.
  intros S Hj Hr. pose proof (RevertToSnapshot_inv_ok _ _ _ (si_inv _ _ _ S) Hr) as I'.
  pose proof (since_lookup _ _ _ S) as Hl0. destruct S as [[W R] (es & He & x & Hx & E) Hv].
  apply RevertToSnapshot_inv in Hr as (k & r & t & Hk & Hid & Ht & ->).
  assert (Hlk : (length (validRevisions s0) < k)%nat).
  { destruct (decide (length (validRevisions s0) < k)%nat); [done|].
    destruct (decide (k = length (validRevisions s0))) as [->|].
    - rewrite Hk in Hl0. injection Hl0 as ->. simpl in Hid. lia.
    - pose proof (ro_ids _ R k (length (validRevisions s0)) _ _ ltac:(lia) Hk Hl0). simpl in *. lia. }
  pose proof (ro_idx _ R _ k _ _ (Nat.lt_le_incl _ _ Hlk) Hl0 Hk) as Hji. simpl in Hji.
  pose proof (ro_len _ R _ _ Hk) as Hlen.
  destruct (entries_split _ _ Hlen) as [Hsp Hl].
  destruct (journal_revert_ok _ _ _ _ _ W Hsp (eq_sym Hl) Ht) as (u & Hu & Htu & Wt & Hvt & Hn).
  set (n := (length (entries s) - journalIndex r)%nat) in *.
  assert (Hnes : (n ≤ length es)%nat) by (pose proof (f_equal length He) as HL; rewrite length_app in HL; lia).
  split; [done| |].
  - exists (drop n es). simpl. rewrite Htu. simpl. split; [by rewrite He, drop_app_le by done|].
    rewrite He, take_app_le in Hu by done.
    rewrite <- (take_drop n es), revert_loop_app, Hu in Hx.
    pose proof (revert_loop_proper (drop n es) u
      (set_validRevisions (take k (validRevisions (set_entries (drop n (entries s)) u)))
         (set_entries (drop n (entries s)) u))) as Hp.
    specialize (Hp ltac:(by apply (st_eq_other u u))).
    rewrite Hx in Hp. inversion Hp as [y z Hyz|]; subst. eexists. split; [done|]. etrans; [|done]. by symmetry.
  - simpl. rewrite Hvt, take_take, Nat.min_l by lia. done.
Qed.

Lemma since_exec s0 id x s s' : since s0 id s → keeps id x → exec x s = Some s' → since s0 id s'.
Proof.
  intros S Hk He. destruct (is_revision_op x) eqn:Hx.
  - destruct x; try discriminate; simpl in He; [|by eapply since_revert].
    pose proof (since_lookup _ _ _ S) as Hl0. injection He as <-.
    pose proof (Snapshot_ok s (si_inv _ _ _ S)) as I.
    destruct S as [_ (es & He & u & Hu & E) Hv]. split; [done| |].
    + exists es. split; [done|].
      pose proof (revert_loop_proper es s (Snapshot s).2) as Hp.
      specialize (Hp ltac:(by apply (st_eq_other s s))). rewrite Hu in Hp.
      inversion Hp as [y z Hyz|]; subst.
      eexists. split; [done|]. etrans; [|done]. by symmetry.
    + simpl. apply lookup_lt_Some in Hl0. rewrite take_app_le by lia. done.
  - apply (since_extends _ _ s); [done|]. apply (exec_extends x); [done|apply S|done].
Qed.
Lemma since_run s0 id xs s s' : since s0 id s → Forall (keeps id) xs → run xs s = Some s' → since s0 id s'.
Proof.
  revert s. induction xs as [|x xs IH]; simpl; intros s S Hf Hr; [by simplify_eq|].
  apply Forall_cons in Hf as [Hx Hf]. destruct (exec x s) as [t|] eqn:Ht; [|done].
  eauto using since_exec.
Qed.

Lemma dirties_of_cnt s s' a : dirt_ok s → dirt_ok s' → cnt s a = cnt s' a → dirties s !! a = dirties s' !! a.
Proof.
  intros [H1 _ _] [H2 _ _]. unfold cnt.
  destruct (dirties s !! a) as [x|] eqn:E1, (dirties s' !! a) as [y|] eqn:E2; simpl; intros H;
    subst; try done; [apply H1 in E1|apply H2 in E2]; done.
Qed.

(** Reverting to the snapshot from any later state. *)
Lemma since_revert_to s0 id s : wf s0 → since s0 id s →
  ∃ s3, RevertToSnapshot id s = Some s3 ∧ st_eq s3 s0 ∧ entries s3 = entries s0 ∧
        validRevisions s3 = validRevisions s0 ∧
        ∀ a, a ≠ ripemd → dirties s3 !! a = dirties s0 !! a.
Proof.
  intros W0 S. pose proof (since_lookup _ _ _ S) as Hl0.
  destruct S as [[W R] (es & He & x & Hx & E) Hv].
  pose proof (RevertToSnapshot_found _ _ _ R Hl0) as Hr. simpl in Hr. rewrite Hr. clear Hr.
  assert (Hj : journal_revert (length (entries s0)) s = Some (set_entries (entries s0) x)).
  { unfold journal_revert. by rewrite He, length_app, Nat.add_sub, take_app_length, drop_app_length, Hx. }
  destruct (journal_revert_ok _ _ _ _ _ W He eq_refl Hj) as (u & Hu & _ & Wt & Hvt & _).
  rewrite Hj. eexists. split; [done|]. split_and!.
  - etrans; [|done]. by apply (st_eq_other x x).
  - done.
  - simpl in *. rewrite Hvt. apply (f_equal (take (length (validRevisions s0)))) in Hv.
    by rewrite take_take, Nat.min_l, take_app_length in Hv by lia.
  - intros a Ha. simpl. destruct W0 as [_ _ D0], Wt as [_ _ Dt].
    change (dirties x) with (dirties (set_entries (entries s0) x)).
    apply dirties_of_cnt; [done|done|]. rewrite (do_cnt _ Dt), (do_cnt _ D0) by done. done.
Qed.

(** Every reader of the virtual machine sees equal states alike. *)
Lemma st_eq_readers (s1 s2 : @StateDB D T) :
  st_eq s1 s2 → ∀ a k,
    (Exist a s1).1 = (Exist a s2).1 ∧ (Empty a s1).1 = (Empty a s2).1 ∧
    (GetBalance a s1).1 = (GetBalance a s2).1 ∧ (GetNonce a s1).1 = (GetNonce a s2).1 ∧
    (GetCode a s1).1 = (GetCode a s2).1 ∧ (GetCodeHash a s1).1 = (GetCodeHash a s2).1 ∧
    (GetState a k s1).1 = (GetState a k s2).1 ∧
    (GetCommittedState a k s1).1 = (GetCommittedState a k s2).1 ∧
    (HasSuicided a s1).1 = (HasSuicided a s2).1 ∧ GetRefund s1 = GetRefund s2.
Proof.
  intros E a k. pose proof (ste_objects _ _ E a) as Ho. unfold lookup_obj in Ho.
  pose proof (getStateObject_frame a s1) as [F1 _]. pose proof (getStateObject_frame a s2) as [F2 _].
  apply fr_db in F1, F2. rewrite <- (ste_db _ _ E) in F2.
  unfold Exist, Empty, GetBalance, GetNonce, GetCode, GetCodeHash, GetState, GetCommittedState,
    HasSuicided, GetRefund.
  destruct (getStateObject a s1) as [x1 t1], (getStateObject a s2) as [x2 t2]. simpl in *.
  inversion Ho as [o1 o2 Hoo|]; subst; [|split_and!; try done; apply E].
  rewrite F1, F2. destruct Hoo as [E1 E2 E3 E4 E5 E6 E7 E8].
  specialize (E6 k). specialize (E7 k). unfold committed_of, state_of, code_of in *.
  unfold empty. rewrite E3. repeat split; try done; try apply E.
  - by destruct (so_Code _ o1), (so_Code _ o2).
  - by destruct (so_GetState _ _ o1), (so_GetState _ _ o2).
  - by destruct (so_GetCommittedState _ _ o1), (so_GetCommittedState _ _ o2).
Qed.

End History.
