(* ===== verification/StateStorage.v ===== *)
(** * The storage behind the objects

    Every object, cached or kept in the journal, has a storage trie that is a
    map; its cache of committed entries agrees with the map, and an entry is
    dirty only when its committed value is cached, so that the comparison of
    [updateTrie] compares with what the trie holds.  The invariant is kept by
    every operation and every revert. *)

From S2P Require Import Prelude BigMath Rlp Interfaces StateDB StateEq StateRevert StateHistory.

Section Storage.
Context {D T : Type} {CR : Crypto} {TI : TrieI T} {DI : DatabaseI D T} {AC : AccountCodec}.
Context {TL : TrieLaws T} {DL : DatabaseLaws D T}.
(** The addresses and the slots in use. *)
Context {A K : Z → Prop}.

Implicit Types (s : @StateDB D T) (o : @stateObject T) (e : @journalEntry T).

(** ** Objects *)

(** The value of a slot in a storage map. *)
Definition slot_value (sm : bmap) (k : Z) : Z :=
  match default [] (sm !! trie_key (hash_bytes k)) with
  | [] => 0
  | enc => match Split enc with Ok (_, content, _) => BytesToHash content | _ => 0 end
  end.
Record so_sound (d : D) (sm : bmap) o : Prop := {
  sd_trie : trie_map (getTrie d o).1 sm;
  sd_fits : fits sm;
  sd_origin : map_Forall (λ k v, K k ∧ v = slot_value sm k) (originStorage o);
  sd_dirty : map_Forall (λ k v, K k ∧ is_hash v ∧ is_Some (originStorage o !! k)) (dirtyStorage o);
}.
Definition sound (d : D) o : Prop := ∃ sm, so_sound d sm o.

Lemma slot_value_hash sm k : is_hash (slot_value sm k).
Proof.
  unfold slot_value. destruct (default _ _); [done|]. destruct (Split _) as [[[? ?] ?]| | |]; try done. apply BytesToHash_range.
Qed.

Lemma getTrie_ext d o1 o2 : addrHash o1 = addrHash o2 → Root (data o1) = Root (data o2) → so_trie o1 = so_trie o2 →
  (getTrie d o1).1 = (getTrie d o2).1.
Proof. intros H1 H2 H3. unfold getTrie. rewrite H1, H2, H3. destruct (so_trie o2); [done|]. by destruct (OpenStorageTrie _ _ _). Qed.
(** A change that leaves the storage alone. *)
Lemma so_sound_ext d sm o1 o2 : so_sound d sm o1 → addrHash o2 = addrHash o1 → Root (data o2) = Root (data o1) →
  so_trie o2 = so_trie o1 → originStorage o2 = originStorage o1 → dirtyStorage o2 = dirtyStorage o1 → so_sound d sm o2.
Proof.
  intros [H1 Hf H2 H3] E1 E2 E3 E4 E5. split; [|done|by rewrite E4|by rewrite E5, E4]. by rewrite (getTrie_ext d o2 o1).
Qed.
Lemma so_sound_getTrie d sm o : so_sound d sm o → so_sound d sm (getTrie d o).2.
Proof.
  destruct (getTrie d o) as [t o'] eqn:E. intros [H1 Hf H2 H3]. rewrite E in H1.
  destruct (getTrie_spec _ _ _ _ E) as (Eg & _ & _ & _ & _ & _ & _ & Eo & Ed & _).
  cbn [snd]. split; [by rewrite Eg|done|by rewrite Eo|by rewrite Ed, Eo].
Qed.
Lemma so_sound_cache d sm o k : so_sound d sm o → K k →
  so_sound d sm (set_originStorage (<[k := slot_value sm k]> (originStorage o)) o).
Proof.
  intros [H1 Hf H2 H3] Hk. split.
  - by rewrite (getTrie_ext d _ o).
  - done.
  - by apply map_Forall_insert_2.
  - cbn [dirtyStorage originStorage set_originStorage]. intros k' v Hv. destruct (H3 k' v Hv) as (? & ? & Hs). split_and!; [done|done|].
    destruct (decide (k' = k)) as [->|Hne]; [by rewrite lookup_insert_eq|by rewrite lookup_insert_ne].
Qed.

(** Reading a committed entry gives the value of the map, and caches it. *)
Lemma committed_sound d sm k o : so_sound d sm o → K k →
  let r := so_GetCommittedState d k o in
  r.1 = slot_value sm k ∧ so_sound d sm r.2 ∧ originStorage r.2 !! k = Some (slot_value sm k) ∧
  dom (originStorage o) ⊆ dom (originStorage r.2) ∧ dirtyStorage r.2 = dirtyStorage o.
Proof.
  intros S Hk. unfold so_GetCommittedState. destruct (originStorage o !! k) as [v|] eqn:Ho.
  { destruct (sd_origin _ _ _ S _ _ Ho) as [_ ->]. by split_and!. }
  pose proof (so_sound_getTrie d sm o S) as S'. pose proof (sd_trie _ _ _ S) as Ht.
  destruct (getTrie d o) as [t o'] eqn:E. cbn [fst snd] in *.
  destruct (getTrie_spec _ _ _ _ E) as (_ & _ & _ & _ & _ & _ & _ & Eo & Ed & _).
  rewrite (TryGet_map _ _ _ Ht). pose proof (so_sound_cache d sm o' k S' Hk) as Sc.
  assert (Hdom : dom (originStorage o) ⊆ dom (<[k := slot_value sm k]> (originStorage o'))) by (rewrite dom_insert, Eo; set_solver).
  unfold slot_value in Sc, Hdom |- *. destruct (default [] _) as [|b enc].
  - split_and!; [done|done|by apply lookup_insert_eq|done|done].
  - destruct (Split (b :: enc)) as [[[? content] ?]|er| |]; cbn [fst snd] in *.
    + split_and!; [done|done|by apply lookup_insert_eq|done|done].
    + pose proof (so_setError_fields (Some (SERlp er)) o') as (F1&F2&F3&F4&F5&F6&F7&F8&F9). split_and!.
      * done.
      * apply (so_sound_ext d sm _ _ Sc); cbn; congruence.
      * by apply lookup_insert_eq.
      * cbn. by rewrite F7.
      * cbn. by rewrite F8.
    + split_and!; [done|done|by apply lookup_insert_eq|done|done].
    + split_and!; [done|done|by apply lookup_insert_eq|done|done].
Qed.
Lemma state_sound d sm k o : so_sound d sm o → K k →
  let r := so_GetState d k o in
  r.1 = default (slot_value sm k) (dirtyStorage o !! k) ∧ is_hash r.1 ∧ so_sound d sm r.2 ∧
  is_Some (originStorage r.2 !! k) ∧ dom (originStorage o) ⊆ dom (originStorage r.2).
Proof.
  intros S Hk. unfold so_GetState. destruct (dirtyStorage o !! k) as [v|] eqn:Hd.
  - destruct (sd_dirty _ _ _ S _ _ Hd) as (_ & ? & ?). by split_and!.
  - destruct (committed_sound d sm k o S Hk) as (E & S' & Ho & Hdom & _). cbn [default].
    split_and!; [done|rewrite E; apply slot_value_hash|done|by rewrite Ho|done].
Qed.
Lemma sound_setState d o k v : sound d o → K k → is_hash v → is_Some (originStorage o !! k) → sound d (so_setState k v o).
Proof.
  intros [sm [H1 Hf H2 H3]] Hk Hv Ho. exists sm. split; [by rewrite (getTrie_ext d _ o)|done|done|].
  by apply map_Forall_insert_2.
Qed.
Lemma sound_ext d o1 o2 : sound d o1 → addrHash o2 = addrHash o1 → Root (data o2) = Root (data o1) →
  so_trie o2 = so_trie o1 → originStorage o2 = originStorage o1 → dirtyStorage o2 = dirtyStorage o1 → sound d o2.
Proof. intros [sm S] E1 E2 E3 E4 E5. exists sm. by eapply so_sound_ext. Qed.
Lemma sound_Code d o : sound d o → sound d (so_Code d o).2.
Proof.
  intros S. unfold so_Code. destruct (code o); [done|]. destruct (bool_decide _); [done|].
  destruct (ContractCode _ _ _) as [c [er|]]; cbn [snd]; [|by apply (sound_ext d o)].
  pose proof (so_setError_fields (Some (SECantLoadCode (CodeHash (data o)) er)) o) as (F1&F2&F3&F4&F5&F6&F7&F8&F9).
  apply (sound_ext d o); cbn; congruence.
Qed.
Lemma sound_open d a x sm : trie_map (getTrie d (newObject (T:=T) a x)).1 sm → fits sm → sound d (newObject a x).
Proof. intros H Hf. exists sm. by split. Qed.
Lemma sound_new d a : sound d (newObject a Account_zero).
Proof.
  apply (sound_open d a _ ∅); [|apply map_Forall_empty]. unfold getTrie. cbn. rewrite OpenStorageTrie_empty. apply EmptyStorageTrie_map.
Qed.

(** ** States *)

(** The objects that a reverted change belongs to have the slot cached; an
    account that was created is not in the trie ([absent]). *)
Fixpoint jok (d : D) (absent : Z → Prop) (es : list (@journalEntry T)) (objs : gmap Z (@stateObject T)) : Prop :=
  match es with
  | [] => True
  | storageChange a k v :: r =>
      A a ∧ (∃ o, objs !! a = Some o ∧ deleted o = false ∧ is_Some (originStorage o !! k)) ∧ K k ∧ is_hash v ∧ jok d absent r objs
  | resetObjectChange p :: r => (deleted p = false ∧ A (address p) ∧ sound d p) ∧ jok d absent r (<[address p := p]> objs)
  | createObjectChange a :: r => (absent a ∧ A a) ∧ jok d absent r (delete a objs)
  | e :: r => (∀ a, dirtied e = Some a → A a) ∧ jok d absent r objs
  end.
(** A deleted object is neither in the trie nor dirty. *)
Record sinv s : Prop := {
  si_trie : ∀ a o, A a → stateObjects s !! a = None → trie_obj s a = Some o → sound (db s) o;
  si_objs : map_Forall (λ a o, address o = a ∧ A a ∧ sound (db s) o) (stateObjects s);
  si_dead : map_Forall (λ a o, deleted o = true → trie_obj s a = None ∧ dirties s !! a = None ∧ ndirt a (entries s) = 0) (stateObjects s);
  si_entries : jok (db s) (λ a, trie_obj s a = None) (entries s) (stateObjects s);
}.

(** As many live objects, with as much cached. *)
Definition covers (objs objs' : gmap Z (@stateObject T)) : Prop :=
  ∀ a o, objs !! a = Some o → deleted o = false →
  ∃ o', objs' !! a = Some o' ∧ deleted o' = false ∧ dom (originStorage o) ⊆ dom (originStorage o').
Lemma covers_refl objs : covers objs objs.
Proof. intros a o Ho Hd. by exists o. Qed.
Lemma covers_insert objs objs' p : covers objs objs' → covers (<[address p := p]> objs) (<[address p := p]> objs').
Proof.
  intros H a o. destruct (decide (a = address p)) as [->|Hne].
  - rewrite !lookup_insert_eq. intros [= <-] Hd. by exists p.
  - rewrite !lookup_insert_ne by done. apply H.
Qed.
Lemma covers_delete objs objs' b : covers objs objs' → covers (delete b objs) (delete b objs').
Proof. intros H a o [Hne Ho]%lookup_delete_Some Hd. destruct (H a o Ho Hd) as (o' & E & ?). exists o'. by rewrite lookup_delete_ne. Qed.
Lemma jok_covers d (ab ab' : Z → Prop) es : (∀ a, ab a → ab' a) → ∀ objs objs', covers objs objs' → jok d ab es objs → jok d ab' es objs'.
Proof.
  intros Hab. induction es as [|e es IH]; intros objs objs' H; [done|].
  destruct e; cbn [jok]; try (intros [? J]; split; [done|by eapply IH]).
  - intros [[Ha ?] J]. split; [split; [by apply Hab|done]|]. eapply IH; [|done]. by apply covers_delete.
  - intros [? J]. split; [done|]. eapply IH; [|done]. by apply covers_insert.
  - intros (? & (o & Ho & Hd & Hk) & ? & ? & J). split_and!; [done| |done|done|by eapply IH].
    destruct (H _ _ Ho Hd) as (o' & Ho' & Hd' & Hdom). exists o'. split_and!; [done|done|].
    apply elem_of_dom, Hdom. by apply elem_of_dom.
Qed.

Lemma sinv_ext s s' : sinv s → db s' = db s → trie s' = trie s → stateObjects s' = stateObjects s → entries s' = entries s →
  dirties s' = dirties s → sinv s'.
Proof.
  intros [H1 H2 H3 H4] Ed Et Eo Ee Edi. assert (Ht : ∀ a, trie_obj s' a = trie_obj s a) by (intros a; by apply trie_obj_ext).
  split; rewrite ?Ed, ?Eo, ?Ee, ?Edi.
  - intros a o. rewrite Ht. apply H1.
  - done.
  - intros a o Ho Hd. rewrite Ht. by apply (H3 a o).
  - eapply jok_covers, H4; [intros a; by rewrite Ht|apply covers_refl].
Qed.
Lemma sinv_set s o : sinv s → A (address o) → sound (db s) o → deleted o = false →
  (∀ o0, stateObjects s !! address o = Some o0 → deleted o0 = false → dom (originStorage o0) ⊆ dom (originStorage o)) →
  sinv (setStateObject o s).
Proof.
  intros [H1 H2 H3 H4] HA S Hd Hc. split.
  - intros a x Aa. cbn. intros [Ha _]%lookup_insert_None. by apply H1.
  - by apply map_Forall_insert_2.
  - apply map_Forall_insert_2; [by rewrite Hd|done].
  - eapply jok_covers, H4; [done|]. intros a o0 Ho Hd0. cbn. destruct (decide (a = address o)) as [->|Hne].
    + exists o. by rewrite lookup_insert_eq; eauto.
    + exists o0. by rewrite lookup_insert_ne.
Qed.
(** A live object that is changed in its place. *)
Lemma sinv_set_live s o o' : sinv s → stateObjects s !! address o = Some o → sound (db s) o' → deleted o' = false → address o' = address o →
  dom (originStorage o) ⊆ dom (originStorage o') → sinv (setStateObject o' s).
Proof.
  intros I Ho S Hd Ha Hdom. apply sinv_set; [done|by rewrite Ha; eapply (si_objs _ I)|done|done|].
  rewrite Ha, Ho. by intros o0 [= <-].
Qed.
Definition neutral e : Prop :=
  match e with createObjectChange _ | resetObjectChange _ | storageChange _ _ _ => False | _ => True end.
(** The address that an entry dirties has no deleted object. *)
Definition alive s (a : Z) : Prop := A a ∧ ∀ o, stateObjects s !! a = Some o → deleted o = false.
Definition dirties_alive s e : Prop := ∀ a, dirtied (T:=T) e = Some a → alive s a.
Lemma journal_append_dirties e s a : dirtied (T:=T) e ≠ Some a → dirties (journal_append e s) !! a = dirties s !! a.
Proof.
  unfold journal_append. intros H. destruct (dirtied e) as [b|]; [|done]. cbn. apply lookup_insert_ne. by intros ->.
Qed.
Lemma dead_append s e a o : sinv s → dirties_alive s e → stateObjects s !! a = Some o → deleted o = true →
  trie_obj s a = None ∧ dirties (journal_append e s) !! a = None ∧ ndirt a (e :: entries s) = 0.
Proof.
  intros I Hal Ho Hd. destruct (si_dead _ I a o Ho Hd) as (Ht & Hdi & Hn).
  assert (Hne : dirtied (T:=T) e ≠ Some a) by (intros E; by rewrite (proj2 (Hal _ E) o Ho) in Hd).
  split_and!; [done|by rewrite journal_append_dirties|]. cbn [ndirt]. by rewrite decide_False.
Qed.
Lemma sinv_append s e : sinv s → neutral e → dirties_alive s e → sinv (journal_append e s).
Proof.
  intros I Hn Hal. pose proof I as [H1 H2 H3 H4]. destruct (journal_append_fields e s) as (F1&F2&F3&F4&_).
  assert (Ht : ∀ a, trie_obj (journal_append e s) a = trie_obj s a) by (intros a; by apply trie_obj_ext).
  split; rewrite ?F3, ?F1, ?F4.
  - intros a o. rewrite Ht. apply H1.
  - done.
  - intros a o Ho Hd. rewrite Ht. by eapply dead_append.
  - assert (J : jok (db s) (λ a, trie_obj (journal_append e s) a = None) (entries s) (stateObjects s)).
    { eapply jok_covers, H4; [intros a; by rewrite Ht|apply covers_refl]. }
    assert (HA : ∀ a, dirtied (T:=T) e = Some a → A a) by (intros a Ha; apply (Hal _ Ha)).
    by destruct e.
Qed.
Lemma get_sound a s : A a → sinv s → let r := getStateObject a s in
  sinv r.2 ∧ db r.2 = db s ∧
  match r.1 with
  | Some o => stateObjects r.2 !! a = Some o ∧ address o = a ∧ deleted o = false ∧ sound (db s) o
  | None => trie_obj r.2 a = None ∧ ∀ o, stateObjects r.2 !! a = Some o → deleted o = true
  end.
Proof.
  intros Aa I. unfold getStateObject. destruct (stateObjects s !! a) as [o|] eqn:Ho.
  - destruct (deleted o) eqn:Hd; cbn [fst snd].
    + split_and!; [done|done|by apply (si_dead _ I a o)|]. rewrite Ho. by intros ? [= <-].
    + destruct (si_objs _ I _ _ Ho) as (? & ? & ?). by split_and!.
  - pose proof (λ o, si_trie _ I a o Aa Ho) as Ht. unfold trie_obj in Ht |- *. destruct (TryGet _ _) as [enc er] eqn:Eg.
    assert (Herr : sinv (setError (SEDB <$> er) s) ∧ db (setError (SEDB <$> er) s) = db s ∧
      stateObjects (setError (SEDB <$> er) s) = stateObjects s ∧ trie (setError (SEDB <$> er) s) = trie s).
    { unfold setError. destruct (dbErr s); [done|]. split; [by apply (sinv_ext s)|done]. }
    destruct enc as [|b enc]; cbn [fst snd].
    { destruct Herr as (? & ? & E & E'). split_and!; [done|done|by rewrite E', Eg|]. by rewrite E, Ho. }
    destruct (decode_account _) as [x|] eqn:Edec; cbn [fst snd]; [|split_and!; [done|done|by rewrite Eg, Edec|]; by rewrite Ho].
    specialize (Ht _ eq_refl). split_and!; [|done|by apply lookup_insert_eq|done|done|done].
    apply sinv_set; [done|done|done|done|]. cbn. by rewrite Ho.
Qed.

(** ** Operations *)

Lemma create_sound a s : A a → sinv s → let r := createObject a s in
  sinv r.2 ∧ db r.2 = db s ∧ stateObjects r.2 !! a = Some r.1.1 ∧ address r.1.1 = a ∧ deleted r.1.1 = false ∧
  sound (db s) r.1.1 ∧ originStorage r.1.1 = ∅.
Proof.
  intros Aa I. unfold createObject. destruct (get_sound a s Aa I) as (I' & Ed & Hg).
  destruct (getStateObject a s) as [prev t]. cbn [fst snd] in *. set (n := so_setNonce 0 (newObject a Account_zero)).
  assert (Sn : sound (db s) n) by (apply (sound_ext (db s) (newObject a Account_zero)); [apply sound_new|done..]).
  set (e := match prev with None => createObjectChange a | Some p => resetObjectChange p end).
  assert (Et : match prev with None => journal_append (createObjectChange a) t | Some p => journal_append (resetObjectChange p) t end = journal_append e t) by (by destruct prev).
  rewrite Et. destruct (journal_append_fields e t) as (F1&F2&F3&F4&_).
  split; [|split_and!; [by cbn; rewrite F3|by apply lookup_insert_eq|done|done|done|done]].
  assert (Hto : ∀ b, trie_obj (setStateObject n (journal_append e t)) b = trie_obj t b) by (intros b; by apply trie_obj_ext).
  pose proof I' as [H1 H2 H3 H4]. split; cbn [db trie stateObjects entries dirties setStateObject set_stateObjects]; rewrite ?F3, ?F4, ?F1.
  - intros b o Ab. rewrite Hto. intros [Hb _]%lookup_insert_None. by apply H1.
  - apply map_Forall_insert_2; [|done]. split_and!; [done|done|by rewrite Ed].
  - intros b o. destruct (decide (b = a)) as [->|Hne]; [by rewrite lookup_insert_eq; intros [= <-]|].
    rewrite lookup_insert_ne by done. intros Ho Hd. rewrite Hto. destruct (H3 b o Ho Hd) as (? & ? & ?).
    assert (Hdb : dirtied (T:=T) e ≠ Some b).
    { unfold e. destruct prev; cbn; [done|]. by intros [= ->]. }
    split_and!; [done|by rewrite journal_append_dirties|]. cbn [ndirt]. by rewrite decide_False.
  - assert (J : ∀ objs, covers (stateObjects t) objs → jok (db t) (λ b, trie_obj (setStateObject n (journal_append e t)) b = None) (entries t) objs).
    { intros objs Hc. eapply jok_covers, H4; [intros b; by rewrite Hto|done]. }
    unfold e in *. destruct prev as [p|]; cbn [jok].
    + destruct Hg as (Ho & Ha & Hd & Sp). split; [split_and!; [done|by rewrite Ha|by rewrite Ed]|]. rewrite Ha, insert_insert_eq.
      rewrite insert_id by done. apply J, covers_refl.
    + destruct Hg as [Hnone Hg]. split; [split; [by rewrite Hto|done]|]. rewrite delete_insert_eq. apply J. intros b o Ho Hd.
      destruct (decide (b = a)) as [->|Hne].
      * by rewrite (Hg _ Ho) in Hd.
      * exists o. by rewrite lookup_delete_ne.
Qed.
Lemma getOrNew_sound a s : A a → sinv s → let r := GetOrNewStateObject a s in
  sinv r.2 ∧ db r.2 = db s ∧ stateObjects r.2 !! a = Some r.1 ∧ address r.1 = a ∧ deleted r.1 = false ∧ sound (db s) r.1.
Proof.
  intros Aa I. unfold GetOrNewStateObject. destruct (get_sound a s Aa I) as (I' & Ed & Hg).
  destruct (getStateObject a s) as [[o|] t]; cbn [fst snd] in *.
  - destruct Hg as (Ho & Ha & Hd & S). rewrite Hd. by split_and!.
  - destruct (create_sound a t Aa I') as (I2 & Ed2 & Ho & Ha & Hd & S & _).
    destruct (createObject a t) as [[n p] u]. cbn [fst snd] in *. rewrite Ed in *. by split_and!.
Qed.

(** A journalled change of a live object. *)
Lemma alive_entry s e o : sinv s → stateObjects s !! address o = Some o → deleted o = false → (∀ a, dirtied (T:=T) e = Some a → a = address o) →
  dirties_alive s e.
Proof. intros I Ho Hd He a Ha. rewrite (He a Ha). split; [eapply (si_objs _ I), Ho|]. intros o'. rewrite Ho. by intros [= <-]. Qed.
Lemma sinv_change s e o o' : sinv s → neutral e → (∀ a, dirtied (T:=T) e = Some a → a = address o) → stateObjects s !! address o = Some o → deleted o = false → sound (db s) o →
  address o' = address o → addrHash o' = addrHash o → deleted o' = false → Root (data o') = Root (data o) → so_trie o' = so_trie o →
  originStorage o' = originStorage o → dirtyStorage o' = dirtyStorage o → sinv (setStateObject o' (journal_append e s)).
Proof.
  intros I Hn He Ho Hd S Ea Eh Hd' Er Et Eo Edi. destruct (journal_append_fields e s) as (F1&_&F3&_).
  eapply (sinv_set_live _ o); [apply sinv_append; [done|done|by eapply alive_entry]|by rewrite F1| |done|done|by rewrite Eo].
  rewrite F3. by apply (sound_ext (db s) o).
Qed.
Lemma SetBalance_sound x o s : sinv s → stateObjects s !! address o = Some o → deleted o = false → sound (db s) o →
  sinv (so_SetBalance x o s).
Proof. intros. apply (sinv_change _ _ o); try done. by intros ? [= <-]. Qed.
Lemma SetState_sound k v o s : sinv s → stateObjects s !! address o = Some o → deleted o = false → sound (db s) o →
  K k → is_hash v → sinv (so_SetState k v o s).
Proof.
  intros I Ho Hd [sm S] Hk Hv. unfold so_SetState. pose proof (so_GetState_eq (db s) k o) as E.
  destruct (state_sound (db s) sm k o S Hk) as (_ & Hp & S' & Hc & Hdom).
  destruct (so_GetState (db s) k o) as [prev o']. cbn [fst snd] in *.
  assert (Ea : address o' = address o) by apply E. assert (Ed : deleted o' = false) by (rewrite (soe_deleted _ _ _ E); done).
  assert (I' : sinv (setStateObject o' s)) by (eapply (sinv_set_live _ o); [done|done|by exists sm|done|done|done]).
  destruct (prev =? v); [done|]. set (t := setStateObject o' s) in *.
  assert (Ht : stateObjects t !! address o' = Some o') by apply lookup_insert_eq.
  destruct (journal_append_fields (storageChange (address o') k prev) t) as (F1&F2&F3&F4&_).
  assert (I2 : sinv (journal_append (storageChange (address o') k prev) t)).
  { pose proof I' as [H1 H2 H3 H4].
    assert (Hto : ∀ b, trie_obj (journal_append (storageChange (address o') k prev) t) b = trie_obj t b) by (intros b; by apply trie_obj_ext).
    split; rewrite ?F3, ?F1, ?F4; [intros b x; rewrite Hto; apply H1|done| |].
    - intros b x Hx Hdx. rewrite Hto. eapply dead_append; [done| |done|done]. eapply alive_entry; [done|done|done|by intros ? [= <-]].
    - split_and!; [by eapply H2|by exists o'|done|done|]. eapply jok_covers, H4; [intros b; by rewrite Hto|apply covers_refl]. }
  eapply (sinv_set_live _ o'); [done|by rewrite F1| |done|done|done].
  rewrite F3. apply sound_setState; [by exists sm|done|done|done].
Qed.

(** The operation stays among the addresses and the slots in use. *)
Definition op_in_use (x : @op) : Prop :=
  match x with
  | OpCreateAccount a | OpAddBalance a _ | OpSubBalance a _ | OpSetBalance a _ | OpSetNonce a _ | OpSetCode a _ | OpSuicide a
  | OpGetCode a | OpGetCodeSize a | OpGetObject a => A a
  | OpSetState a k v => A a ∧ K k ∧ is_hash v
  | OpGetState a k | OpGetCommittedState a k => A a ∧ K k
  | _ => True
  end.
Ltac get_or_new_sound Aa I a :=
  let o := fresh "o" in let t := fresh "t" in let I' := fresh "I" in
  let Ed := fresh "Ed" in let Ho := fresh "Ho" in let Ha := fresh "Ha" in let Hd := fresh "Hd" in let S := fresh "S" in
  pose proof (getOrNew_sound a _ Aa I) as (I' & Ed & Ho & Ha & Hd & S);
  destruct (GetOrNewStateObject a _) as [o t]; cbn [fst snd] in *; rewrite <- Ed in S; rewrite <- Ha in Ho.
Ltac get_sound Aa I a :=
  let o := fresh "o" in let t := fresh "t" in let I' := fresh "I" in let Ed := fresh "Ed" in let Hg := fresh "Hg" in
  pose proof (get_sound a _ Aa I) as (I' & Ed & Hg);
  destruct (getStateObject a _) as [[o|] t]; cbn [fst snd] in *.

Lemma so_Code_storage d o : let o' := (so_Code d o).2 in
  address o' = address o ∧ addrHash o' = addrHash o ∧ data o' = data o ∧ deleted o' = deleted o ∧ so_trie o' = so_trie o ∧
  originStorage o' = originStorage o ∧ dirtyStorage o' = dirtyStorage o.
Proof.
  unfold so_Code. destruct (code o); [done|]. destruct (bool_decide _); [done|].
  destruct (ContractCode _ _ _) as [c [er|]]; cbn [snd]; [|done].
  pose proof (so_setError_fields (Some (SECantLoadCode (CodeHash (data o)) er)) o) as (F1&F2&F3&F4&F5&F6&F7&F8&F9).
  cbn. by split_and!.
Qed.
Lemma SetCode_sound h c o s : sinv s → stateObjects s !! address o = Some o → deleted o = false → sound (db s) o →
  sinv (so_SetCode h c o s).
Proof.
  intros I Ho Hd S. unfold so_SetCode. destruct (so_Code_storage (db s) o) as (E1&E2&E3&E4&E5&E6&E7).
  destruct (so_Code (db s) o) as [pc o']. cbn [snd] in *.
  apply (sinv_change s (codeChange (address o') pc (CodeHash (data o'))) o (so_setCode h c o')); try done; cbn; try congruence.
Qed.
(** A live object, loaded or with more cached, is put back. *)
Lemma put_sound s o o' : sinv s → stateObjects s !! address o = Some o → sound (db s) o' → address o' = address o →
  deleted o = false → deleted o' = deleted o → dom (originStorage o) ⊆ dom (originStorage o') → sinv (setStateObject o' s).
Proof. intros I Ho S Ha Hd Hd' Hdom. eapply sinv_set_live; [done|done|done|by rewrite Hd'|done|done]. Qed.

(** The explicit dirtying of a live object. *)
Lemma dirty_sound a s : sinv s → alive s a → sinv (dirty a s).
Proof.
  intros I Hal. pose proof I as [H1 H2 H3 H4]. split; [done|done| |done].
  intros b o Ho Hd. destruct (H3 b o Ho Hd) as (? & ? & ?). split_and!; [done| |done].
  cbn. rewrite lookup_insert_ne; [done|]. intros ->. by rewrite (proj2 Hal _ Ho) in Hd.
Qed.
Lemma exec_sound x s s' : is_revision_op x = false → op_in_use x → sinv s → exec x s = Some s' → sinv s'.
Proof.
  intros Hx Hh I. destruct x as [a|a x|a x|a x|a n|a c|a k v|a|g|g|l|h x|a|a|a k|a k|a| |id]; try discriminate Hx; cbn [exec];
    intros He; try (injection He as <-).
  - unfold CreateAccount. destruct (create_sound a s Hh I) as (I' & Ed & Ho & Ha & Hd & S & Eo).
    destruct (createObject a s) as [[n p] t]. cbn [fst snd] in *. rewrite <- Ed in S. rewrite <- Ha in Ho. destruct p as [p|]; [|done].
    eapply (sinv_set_live _ n); [done|done|by apply (sound_ext (db t) n)|done|done|done].
  - unfold AddBalance. get_or_new_sound Hh I a. unfold so_AddBalance, touch.
    destruct (Big.Sign x =? 0); [|by apply SetBalance_sound]. destruct (empty o); [|done].
    assert (I2 : sinv (journal_append (touchChange (address o)) t)).
    { apply sinv_append; [done|done|]. eapply alive_entry; [done|done|done|by intros ? [= <-]]. }
    destruct (address o =? ripemd); [|done]. apply dirty_sound; [done|]. split; [eapply (si_objs _ I0), Ho|]. intros o'.
    destruct (journal_append_fields (touchChange (address o)) t) as (F1&_). rewrite F1, Ho. by intros [= <-].
  - unfold SubBalance. get_or_new_sound Hh I a. unfold so_SubBalance. destruct (Big.Sign x =? 0); [done|by apply SetBalance_sound].
  - unfold SetBalance. get_or_new_sound Hh I a. by apply SetBalance_sound.
  - unfold SetNonce. get_or_new_sound Hh I a. apply (sinv_change _ _ o); try done. by intros ? [= <-].
  - unfold SetCode. get_or_new_sound Hh I a. by apply SetCode_sound.
  - unfold SetState. destruct Hh as (Aa & ? & ?). get_or_new_sound Aa I a. by apply SetState_sound.
  - unfold Suicide. get_sound Hh I a; [|done]. destruct Hg as (Ho & <- & Hd & S). apply (sinv_change _ _ o); try done; [by intros ? [= <-]|by rewrite Ed].
  - apply (sinv_ext (journal_append (refundChange (refund s)) s)); [apply sinv_append; [done|done|by intros ?]|done..].
  - unfold SubRefund in He. destruct (_ <? g); [done|]. injection He as <-.
    apply (sinv_ext (journal_append (refundChange (refund s)) s)); [apply sinv_append; [done|done|by intros ?]|done..].
  - apply (sinv_ext (journal_append (addLogChange (thash s)) s)); [apply sinv_append; [done|done|by intros ?]|done..].
  - unfold AddPreimage. destruct (preimages s !! h); [done|].
    apply (sinv_ext (journal_append (addPreimageChange h) s)); [apply sinv_append; [done|done|by intros ?]|done..].
  - unfold GetCode. get_sound Hh I a; [|done]. destruct Hg as (Ho & <- & Hd & S). rewrite <- Ed in S.
    destruct (so_Code_storage (db t) o) as (E1&E2&E3&E4&E5&E6&E7). pose proof (sound_Code _ _ S) as Sc.
    destruct (so_Code (db t) o) as [c o']. cbn [snd] in *. eapply put_sound; try done. by rewrite E6.
  - unfold GetCodeSize. get_sound Hh I a; [|done]. destruct (code o); [done|].
    destruct (ContractCodeSize _ _ _) as [n [er|]]; cbn [snd]; [|done]. unfold setError. destruct (dbErr t); [done|by apply (sinv_ext t)].
  - unfold GetState. destruct Hh as [Aa Hk]. get_sound Aa I a; [|done]. destruct Hg as (Ho & <- & Hd & [sm S]). rewrite <- Ed in S.
    pose proof (so_GetState_eq (db t) k o) as E. destruct (state_sound _ _ k o S Hk) as (_ & _ & S' & _ & Hdom).
    destruct (so_GetState (db t) k o) as [v o']. cbn [fst snd] in *.
    eapply put_sound; [done|done|by exists sm|apply E|done|apply E|done].
  - unfold GetCommittedState. destruct Hh as [Aa Hk]. get_sound Aa I a; [|done]. destruct Hg as (Ho & <- & Hd & [sm S]). rewrite <- Ed in S.
    pose proof (so_GetCommittedState_eq (db t) k o) as E. destruct (committed_sound _ _ k o S Hk) as (_ & S' & _ & Hdom & _).
    destruct (so_GetCommittedState (db t) k o) as [v o']. cbn [fst snd] in *.
    eapply put_sound; [done|done|by exists sm|apply E|done|apply E|done].
  - by apply get_sound.
Qed.

(** ** Reverts *)

Lemma undirty_lookup_ne a b s : a ≠ b → dirties (undirty a s) !! b = dirties s !! b.
Proof. intros H. unfold undirty. destruct (_ =? 0); cbn; [by apply lookup_delete_ne|by apply lookup_insert_ne]. Qed.
Lemma undirty_keeps a s : db (undirty a s) = db s ∧ trie (undirty a s) = trie s ∧ stateObjects (undirty a s) = stateObjects s ∧
  entries (undirty a s) = entries s.
Proof. unfold undirty. by destruct (_ =? 0). Qed.
Lemma undirty_sound a s : sinv s → alive s a → sinv (undirty a s).
Proof.
  intros [H1 H2 H3 H4] Hal. destruct (undirty_keeps a s) as (E1 & E2 & E3 & E4).
  assert (Ht : ∀ b, trie_obj (undirty a s) b = trie_obj s b) by (intros b; by apply trie_obj_ext).
  split; rewrite ?E1, ?E3, ?E4.
  - intros b o. rewrite Ht. apply H1.
  - done.
  - intros b o Ho Hd. rewrite Ht, undirty_lookup_ne; [by apply (H3 b o)|]. intros <-. by rewrite (proj2 Hal _ Ho) in Hd.
  - eapply jok_covers, H4; [intros b; by rewrite Ht|apply covers_refl].
Qed.
Lemma getStateObject_entries a s es : getStateObject a (set_entries es s) = ((getStateObject a s).1, set_entries es (getStateObject a s).2).
Proof.
  unfold getStateObject. cbn [stateObjects set_entries trie]. destruct (stateObjects s !! a) as [o|]; [by destruct (deleted o)|].
  destruct (TryGet _ _) as [enc er]. destruct enc.
  - unfold setError. cbn [dbErr set_entries]. by destruct (dbErr s).
  - by destruct (decode_account _).
Qed.
Lemma with_object_sound a f s s' : A a → sinv s → with_object a f s = Some s' →
  (∀ o, stateObjects (getStateObject a s).2 !! a = Some o → deleted o = false → sound (db s) o →
     sound (db s) (f o) ∧ address (f o) = address o ∧ deleted (f o) = deleted o ∧ originStorage (f o) = originStorage o) →
  sinv s' ∧ alive s' a.
Proof.
  intros Aa I. unfold with_object. destruct (get_sound a s Aa I) as (I' & Ed & Hg). destruct (getStateObject a s) as [[o|] t]; [|done].
  cbn [fst snd] in *. intros [= <-] Hf. destruct Hg as (Ho & Ha & Hd & S). destruct (Hf o Ho Hd S) as (Sf & Ea & Edel & Eo).
  subst a. split; [eapply put_sound; [done|done|by rewrite Ed|done|done|done|by rewrite Eo]|].
  split; [done|]. intros o'. cbn. rewrite Ea, lookup_insert_eq. intros [= <-]. congruence.
Qed.
Lemma entry_revert_entries e s es : entry_revert e (set_entries es s) = set_entries es <$> entry_revert e s.
Proof.
  destruct e; try done; cbn [entry_revert]; unfold with_object; rewrite ?getStateObject_entries.
  all: try (destruct (getStateObject _ s) as [[o|] t]; done).
  cbn [logs set_entries]. by destruct (default [] _) as [|? [|? ?]].
Qed.
Lemma undirty_entries e s es : match dirtied (T:=T) e with Some a => undirty a (set_entries es s) | None => set_entries es s end =
  set_entries es (match dirtied (T:=T) e with Some a => undirty a s | None => s end).
Proof. destruct (dirtied e); [|done]. unfold undirty. cbn [dirties set_entries]. by destruct (_ =? 0). Qed.

(** The entry on top of the journal is taken off; the address it dirtied is
    not a deleted object's. *)
Lemma dead_pop e r s a o : sinv (set_entries (e :: r) s) → stateObjects s !! a = Some o → deleted o = true →
  trie_obj s a = None ∧ dirties s !! a = None ∧ ndirt a r = 0 ∧ dirtied (T:=T) e ≠ Some a.
Proof.
  intros I Ho Hd. destruct (si_dead _ I a o Ho Hd) as (Ht & Hdi & Hn). cbn in Hdi, Hn.
  rewrite (trie_obj_ext _ s a) in Ht by done.
  pose proof (ndirt_nonneg a r). destruct (decide _); [lia|]. split_and!; [done|done|lia|done].
Qed.
Lemma used_pop e r s a : sinv (set_entries (e :: r) s) → dirtied (T:=T) e = Some a → A a.
Proof. intros I E. pose proof (si_entries _ I) as J. destruct e; simplify_eq/=; try (by apply J); by apply (proj1 J). Qed.
Lemma alive_pop e r s a : sinv (set_entries (e :: r) s) → dirtied (T:=T) e = Some a → alive s a.
Proof. intros I E. split; [by eapply used_pop|]. intros o Ho. destruct (deleted o) eqn:Hd; [|done]. by destruct (dead_pop _ _ _ _ _ I Ho Hd) as (_ & _ & _ & ?). Qed.
Lemma neutral_pop e r s : sinv (set_entries (e :: r) s) → (∀ objs d ab, jok d ab (e :: r) objs → jok d ab r objs) → sinv (set_entries r s).
Proof.
  intros I Hj. split; [apply I|apply I| |].
  - intros a o Ho Hd. destruct (dead_pop _ _ _ _ _ I Ho Hd) as (? & ? & ? & _). split_and!; [by rewrite (trie_obj_ext _ s a)|done|done].
  - eapply jok_covers; [|apply covers_refl|apply Hj, (si_entries _ I)]. intros a Ha. by rewrite (trie_obj_ext _ (set_entries (e :: r) s) a).
Qed.
Lemma neutral_jok e r : neutral e → ∀ objs d ab, jok d ab (e :: r) objs → jok d ab r objs.
Proof. destruct e; cbn; intros Hn objs d ab J; try done; apply J. Qed.

Lemma entry_revert_sound e r s s' : sinv (set_entries (e :: r) s) → entry_revert e (set_entries r s) = Some s' →
  sinv s' ∧ ∀ a, dirtied (T:=T) e = Some a → alive s' a.
Proof.
  intros I He.
  assert (Hneutral : neutral e → sinv (set_entries r s)) by (intros; by eapply neutral_pop, neutral_jok).
  assert (Hwith : ∀ a f, dirtied (T:=T) e = Some a → sinv (set_entries r s) → entry_revert e (set_entries r s) = with_object a f (set_entries r s) →
    (∀ o, stateObjects (getStateObject a (set_entries r s)).2 !! a = Some o → deleted o = false → sound (db s) o →
      sound (db s) (f o) ∧ address (f o) = address o ∧ deleted (f o) = deleted o ∧ originStorage (f o) = originStorage o) →
    sinv s' ∧ ∀ b, dirtied (T:=T) e = Some b → alive s' b).
  { intros a f Hdi I' Hw Hf. rewrite Hw in He. destruct (with_object_sound a f _ _ (used_pop _ _ _ _ I Hdi) I' He Hf) as [? ?].
    split; [done|]. rewrite Hdi. by intros b [= <-]. }
  destruct e as [a|p|a pv pb|a pb|a n|a k v|a pc ph|g|h|h|a].
  - cbn in He. injection He as <-. split; [|intros b [= <-]; split; [by eapply used_pop|]; intros o; cbn; by rewrite lookup_delete_eq].
    pose proof I as [H1 H2 H3 H4]. destruct H4 as [[Hab _] J]. cbn in Hab, J. split; [| |intros b o|done].
    + intros b o Ab. cbn. intros [->|Hb]%lookup_delete_None; [|by apply H1].
      rewrite (trie_obj_ext _ s b) by done. rewrite (trie_obj_ext _ s) in Hab by done. by rewrite Hab.
    + by apply map_Forall_delete.
    + cbn. intros [Hne Ho]%lookup_delete_Some Hd. destruct (dead_pop _ _ _ _ _ I Ho Hd) as (? & ? & ? & _).
      split_and!; [by rewrite (trie_obj_ext _ s b)|done|done].
  - cbn in He. injection He as <-. split; [|done].
    pose proof I as [H1 H2 H3 ((Hd & Ap & S) & J)]. cbn in J. split; [| |intros b o|done].
    + intros a o Aa. cbn. intros [Ha _]%lookup_insert_None. by apply H1.
    + by apply map_Forall_insert_2.
    + cbn. destruct (decide (b = address p)) as [->|Hne]; [rewrite lookup_insert_eq; intros [= <-]; by rewrite Hd|].
      rewrite lookup_insert_ne by done. intros Ho Hd'. destruct (dead_pop _ _ _ _ _ I Ho Hd') as (? & ? & ? & _).
      split_and!; [by rewrite (trie_obj_ext _ s b)|done|done].
  - cbn [entry_revert] in He. pose proof (alive_pop _ _ _ a I eq_refl) as Hal.
    destruct (get_sound a _ (used_pop _ _ _ _ I eq_refl) (Hneutral Logic.I)) as (I' & Ed & Hg).
    destruct (getStateObject a (set_entries r s)) as [[o|] t] eqn:Eg; cbn [fst snd] in *; injection He as <-.
    + destruct Hg as (Ho & <- & Hd & S). rewrite <- Ed in S. split; [by eapply put_sound; [..|apply (sound_ext (db t) o)| | | |]|].
      intros b [= <-]. split; [apply Hal|]. intros o'. cbn. rewrite lookup_insert_eq. by intros [= <-].
    + split; [done|]. intros b [= <-]. split; [apply Hal|]. intros o Ho. apply Hal. destruct Hg as [_ Hg]. specialize (Hg o Ho).
      unfold getStateObject in Eg. cbn in Eg. destruct (stateObjects s !! a) as [o0|] eqn:E0.
      * destruct (deleted o0); [|done]. injection Eg as <-. cbn in Ho. by rewrite E0 in Ho.
      * exfalso. destruct (TryGet _ _) as [enc er]. destruct enc as [|b enc]; [|destruct (decode_account _); [done|]]; injection Eg as <-;
          revert Ho; unfold setError; cbn; destruct (dbErr s); cbn; by rewrite E0.
  - apply (Hwith a (so_setBalance pb)); [done|by apply Hneutral|done|]. intros o _ _ S. split_and!; [by apply (sound_ext (db s) o)|done..].
  - apply (Hwith a (so_setNonce n)); [done|by apply Hneutral|done|]. intros o _ _ S. split_and!; [by apply (sound_ext (db s) o)|done..].
  - destruct (si_entries _ I) as (_ & (o & Ho & Hd & Hk) & Hhk & Hhv & J).
    assert (I' : sinv (set_entries r s)) by (eapply neutral_pop; [done|by intros ? ? ? (?&?&?&?&?)]).
    apply (Hwith a (so_setState k v)); [done|done|done|]. intros o' Ho' Hd' S'.
    assert (o' = o) as ->.
    { unfold getStateObject in Ho'. cbn in Ho, Ho'. rewrite Ho, Hd in Ho'. cbn in Ho'. rewrite Ho in Ho'. by injection Ho'. }
    split_and!; [by apply sound_setState|done..].
  - apply (Hwith a (so_setCode (hash_bytes (BytesToHash ph)) pc)); [done|by apply Hneutral|done|].
    intros o _ _ S. split_and!; [by apply (sound_ext (db s) o)|done..].
  - cbn in He. injection He as <-. split; [by apply (sinv_ext _ _ (Hneutral Logic.I))|done].
  - cbn in He. split; [|done]. destruct (default [] _) as [|? [|? ?]]; simplify_eq; by apply (sinv_ext _ _ (Hneutral Logic.I)).
  - cbn in He. injection He as <-. split; [by apply (sinv_ext _ _ (Hneutral Logic.I))|done].
  - cbn in He. injection He as <-. split; [exact (Hneutral Logic.I)|]. intros b [= <-]. exact (alive_pop _ _ _ a I eq_refl).
Qed.
Lemma revert_loop_sound es : ∀ rest s s', sinv (set_entries (es ++ rest) s) → revert_loop es s = Some s' → sinv (set_entries rest s').
Proof.
  induction es as [|e es IH]; intros rest s s' I; cbn [revert_loop app]; [by intros [= <-]|].
  destruct (entry_revert e s) as [t|] eqn:He; [|done]. apply IH. rewrite <- undirty_entries.
  destruct (entry_revert_sound e (es ++ rest) s (set_entries (es ++ rest) t) I) as [I' Hal]; [by rewrite entry_revert_entries, He|].
  destruct (dirtied e) as [a|]; [|done]. by apply undirty_sound; [|apply Hal].
Qed.
Lemma journal_revert_sound n s s' : sinv s → journal_revert n s = Some s' → sinv s'.
Proof.
  intros I. unfold journal_revert. destruct (revert_loop _ s) as [t|] eqn:Hr; [|done]. intros [= <-].
  eapply revert_loop_sound, Hr. rewrite take_drop. by apply (sinv_ext s).
Qed.
Lemma run_sound xs : ∀ s s', Forall op_in_use xs → sinv s → run xs s = Some s' → sinv s'.
Proof.
  induction xs as [|x xs IH]; intros s s' Hh I; cbn [run]; [by intros [= <-]|].
  apply Forall_cons in Hh as [Hx Hh]. destruct (exec x s) as [t|] eqn:He; [|done]. apply IH; [done|].
  destruct (is_revision_op x) eqn:Er; [|by eapply exec_sound].
  destruct x; try discriminate Er; cbn [exec] in He.
  - injection He as <-. by apply (sinv_ext s).
  - unfold RevertToSnapshot in He. destruct (_ !! _) as [r|]; [|done]. destruct (_ =? _); [|done].
    destruct (journal_revert _ _) as [u|] eqn:Hu; [|done]. injection He as <-.
    apply (sinv_ext u); [by eapply journal_revert_sound|done..].
Qed.
End Storage.
