(* ===== verification/StateFinalise.v ===== *)
(** * The end of a transaction

    [updateTrie] writes the dirty slots of an object to its storage trie,
    [updateRoot] keeps the root in the account, [Finalise] writes the dirty
    accounts to the account trie or deletes them: what the tries then hold,
    whatever was cached or loaded on the way. *)

From S2P Require Import Prelude BigMath Rlp Interfaces StateDB StateEq StateRevert StateHistory StateStorage.

Lemma BytesToHash_trim_left b : BytesToHash (trim_left b) = BytesToHash b.
Proof. unfold BytesToHash. by rewrite be_val_trim_left. Qed.
(** A word without its leading zeroes, in RLP. *)
Definition slot_enc (v : Z) : bytes := rlp_bytes (trim_left (hash_bytes v)).

Lemma trim_left_hash v : zlen (trim_left (hash_bytes v)) ≤ 32.
Proof.
  assert (H : ∀ b, (length (trim_left b) ≤ length b)%nat).
  { induction b as [|x b IH]; [done|]. cbn [trim_left]. destruct x; cbn [length]; lia. }
  specialize (H (hash_bytes v)). unfold zlen, hash_bytes in *. rewrite length_be_bytes in H. lia.
Qed.
Lemma rlp_bytes_short b : is_bytes b → zlen b ≤ 32 → is_bytes (rlp_bytes b) ∧ rlp_bytes b ≠ [] ∧ zlen (rlp_bytes b) ≤ 33.
Proof.
  intros Hb Hl. pose proof (zlen_nonneg b). assert (is_u64 (zlen b)) by (unfold is_u64; lia).
  split; [by apply is_bytes_rlp_bytes|]. unfold rlp_bytes, rlp_head.
  destruct (Z.ltb_spec (zlen b) 56); [|lia].
  destruct b as [|x [|y r]]; [done|by destruct (x <? 128)|]. split; [done|].
  cbn [app]. rewrite zlen_cons. lia.
Qed.
Lemma slot_enc_ok v : is_bytes (slot_enc v) ∧ slot_enc v ≠ [] ∧ zlen (slot_enc v) < 2 ^ 32.
Proof.
  destruct (rlp_bytes_short (trim_left (hash_bytes v))) as (? & ? & ?).
  - apply is_bytes_trim_left, is_bytes_be_bytes.
  - apply trim_left_hash.
  - unfold slot_enc. split_and!; [done|done|lia].
Qed.
Lemma Split_of_SplitString b c r : SplitString b = Ok (c, r) → ∃ k, Split b = Ok (k, c, r).
Proof.
  unfold SplitString. intros H. apply res_bind_ok in H as ([[k c'] r'] & E & H). destruct (decide _); [done|].
  injection H as -> ->. by exists k.
Qed.
Lemma Split_slot_enc v : ∃ k, Split (slot_enc v) = Ok (k, trim_left (hash_bytes v), []).
Proof.
  pose proof (slot_enc_ok v) as (? & _ & ?). pose proof (zlen_nonneg (slot_enc v)).
  apply Split_of_SplitString, SplitString_iff; [done|unfold is_u64; lia|by rewrite app_nil_r].
Qed.

Section Finalise.
Context {D T : Type} {CR : Crypto} {TI : TrieI T} {DI : DatabaseI D T} {AC : AccountCodec}.
Context {TL : TrieLaws T} {DL : DatabaseLaws D T}.
Implicit Types (s : @StateDB D T) (o : @stateObject T).
Context {A K : Z → Prop}.
(** The keys of the addresses and of the slots in use do not collide. *)
Definition keys_distinct : Prop :=
  (∀ a b, A a → A b → trie_key (addr_bytes a) = trie_key (addr_bytes b) → a = b) ∧
  (∀ k l, K k → K l → trie_key (hash_bytes k) = trie_key (hash_bytes l) → k = l).
Context (KD : keys_distinct).
Local Abbreviation so_sound := (so_sound (K:=K)).
Local Abbreviation sound := (sound (K:=K)).
Local Abbreviation sinv := (sinv (A:=A) (K:=K)).

(** ** Storage *)

Lemma slot_value_insert sm k v l : is_hash v → K k → K l →
  slot_value (<[trie_key (hash_bytes k) := slot_enc v]> sm) l = if decide (l = k) then v else slot_value sm l.
Proof.
  intros Hv Hk Hl. unfold slot_value. destruct (decide (l = k)) as [->|Hne].
  - rewrite lookup_insert_eq. cbn [from_option id]. destruct (slot_enc_ok v) as (_ & Hne & _). destruct (Split_slot_enc v) as [k' E].
    destruct (slot_enc v); [done|]. rewrite E, BytesToHash_trim_left. by apply BytesToHash_hash_bytes.
  - rewrite lookup_insert_ne; [done|]. intros E. by apply Hne, (proj2 KD).
Qed.
Lemma slot_value_delete sm k l : K k → K l →
  slot_value (delete (trie_key (hash_bytes k)) sm) l = if decide (l = k) then 0 else slot_value sm l.
Proof.
  intros Hk Hl. unfold slot_value. destruct (decide (l = k)) as [->|Hne]; [by rewrite lookup_delete_eq|].
  rewrite lookup_delete_ne; [done|]. intros E. by apply Hne, (proj2 KD).
Qed.
Definition slot_write (k v : Z) (sm : bmap) : bmap :=
  if v =? 0 then delete (trie_key (hash_bytes k)) sm else <[trie_key (hash_bytes k) := slot_enc v]> sm.
Lemma slot_value_write sm k v l : is_hash v → K k → K l →
  slot_value (slot_write k v sm) l = if decide (l = k) then v else slot_value sm l.
Proof.
  intros Hv Hk Hl. unfold slot_write. destruct (Z.eqb_spec v 0) as [->|]; [by apply slot_value_delete|by apply slot_value_insert].
Qed.
Lemma slot_key_fits k : is_bytes (trie_key (hash_bytes k)) ∧ zlen (trie_key (hash_bytes k)) < 2 ^ 32.
Proof. apply trie_key_ok; [apply is_bytes_be_bytes|]. unfold zlen, hash_bytes. rewrite length_be_bytes. lia. Qed.
Lemma slot_write_fits k v sm : fits sm → fits (slot_write k v sm).
Proof.
  intros Hf. unfold slot_write. destruct (v =? 0); [by apply map_Forall_delete|].
  destruct (slot_key_fits k), (slot_enc_ok v) as (? & ? & ?). by apply map_Forall_insert_2.
Qed.

(** What a write of the storage keeps of an object. *)
Record same_account o o' : Prop := {
  sa_address : address o' = address o; sa_addrHash : addrHash o' = addrHash o;
  sa_code : code o' = code o; sa_suicided : suicided o' = suicided o; sa_deleted : deleted o' = deleted o;
}.
#[local] Instance same_account_preorder : PreOrder same_account.
Proof. split; [by split|]. intros x y z [] []. split; congruence. Qed.
Lemma same_account_getTrie d o : same_account o (getTrie d o).2 ∧ data (getTrie d o).2 = data o.
Proof.
  destruct (getTrie d o) as [t o'] eqn:E. unfold getTrie in E. destruct (so_trie o); simplify_eq/=; [done|].
  destruct (OpenStorageTrie _ _ _); simplify_eq/=; [by split|].
  pose proof (so_setError_fields (Some (SECantCreateTrie d0)) (set_so_trie (Some (EmptyStorageTrie d (addrHash o))) o)) as (F1&F2&F3&F4&F5&F6&F7&F8&F9).
  split; [split|]; cbn in *; congruence.
Qed.
Lemma getTrie_opened d o : is_Some (so_trie (getTrie d o).2).
Proof.
  unfold getTrie. destruct (so_trie o) eqn:E; [cbn; rewrite E; by eexists|]. destruct (OpenStorageTrie _ _ _); [by eexists|]. cbn [snd].
  unfold so_setError. cbn. by destruct (so_dbErr o); eexists.
Qed.
Lemma getTrie_trie d o t : so_trie o = Some t → getTrie d o = (t, o).
Proof. unfold getTrie. by intros ->. Qed.

(** One dirty slot. *)
Lemma updateTrie_entry_sound d sm o k v : so_sound d sm o → is_Some (so_trie o) → dirtyStorage o !! k = Some v →
  let o' := updateTrie_entry d (k, v) o in
  ∃ sm', so_sound d sm' o' ∧ is_Some (so_trie o') ∧ (∀ l, K l → slot_value sm' l = if decide (l = k) then v else slot_value sm l) ∧
    same_account o o' ∧ data o' = data o ∧ dirtyStorage o' = delete k (dirtyStorage o) ∧ dom (originStorage o) ⊆ dom (originStorage o').
Proof.
  intros S [t Et] Hd. destruct (sd_dirty _ _ _ S _ _ Hd) as (Hk & Hv & [w Hw]).
  destruct (sd_origin _ _ _ S _ _ Hw) as [_ ->]. pose proof (sd_trie _ _ _ S) as Ht. rewrite (getTrie_trie _ _ _ Et) in Ht. cbn [fst] in Ht.
  assert (Hdirty : map_Forall (λ l u, K l ∧ is_hash u ∧ is_Some (originStorage o !! l)) (delete k (dirtyStorage o)))
    by apply map_Forall_delete, S.
  unfold updateTrie_entry. cbn [originStorage set_dirtyStorage]. rewrite Hw. cbn [from_option id].
  destruct (Z.eqb_spec v (slot_value sm k)) as [->|Hne].
  { exists sm. split_and!; try done.
    - destruct S as [H1 H2 H3 H4]. split; [|done|done|done]. by rewrite (getTrie_ext d _ o).
    - intros l Hl. by case_decide; subst. }
  erewrite getTrie_trie by exact Et.
  assert (Hw' : ∃ t', (if v =? 0 then TryDelete (hash_bytes k) t else TryUpdate (hash_bytes k) (rlp_bytes (trim_left (hash_bytes v))) t) = (t', None) ∧
    trie_map t' (slot_write k v sm)).
  { unfold slot_write. destruct (v =? 0); [by apply TryDelete_map|]. apply TryUpdate_map; [done|]. apply slot_enc_ok. }
  destruct Hw' as (t' & -> & Ht'). set (o1 := set_so_trie (Some t') _).
  assert (Ho1 : so_setError None o1 = o1 ∨ so_setError None o1 = set_so_dbErr None o1) by (unfold so_setError; destruct (so_dbErr o1); auto).
  assert (Eo : originStorage (so_setError None o1) = <[k := v]> (originStorage o) ∧ dirtyStorage (so_setError None o1) = delete k (dirtyStorage o) ∧
    so_trie (so_setError None o1) = Some t' ∧ same_account o (so_setError None o1) ∧ data (so_setError None o1) = data o).
  { destruct Ho1 as [-> | ->]; unfold o1; cbn; split_and!; by try split. }
  destruct Eo as (E1 & E2 & E3 & E4 & E5). exists (slot_write k v sm). split_and!; try done.
  - split.
    + erewrite getTrie_trie by exact E3. done.
    + by apply slot_write_fits, S.
    + rewrite E1. intros l u. destruct (decide (l = k)) as [->|Hlk].
      * rewrite lookup_insert_eq. intros [= <-]. split; [done|]. by rewrite slot_value_write, decide_True.
      * rewrite lookup_insert_ne by done. intros Hu. destruct (sd_origin _ _ _ S _ _ Hu) as [Hl ->].
        split; [done|]. by rewrite slot_value_write, decide_False.
    + rewrite E1, E2. intros l u Hu. destruct (Hdirty l u Hu) as (? & ? & ?). split_and!; [done|done|].
      destruct (decide (l = k)) as [->|]; [by rewrite lookup_insert_eq|by rewrite lookup_insert_ne].
  - intros l Hl. by apply slot_value_write.
  - rewrite E1, dom_insert. set_solver.
Qed.

(** All of them, in any order. *)
Lemma updateTrie_loop_sound d sm o l : so_sound d sm o → is_Some (so_trie o) → NoDup l.*1 →
  (∀ kv, kv ∈ l → dirtyStorage o !! kv.1 = Some kv.2) →
  let o' := fold_right (updateTrie_entry d) o l in
  ∃ sm', so_sound d sm' o' ∧ is_Some (so_trie o') ∧
    (∀ k, K k → slot_value sm' k = default (slot_value sm k) ((list_to_map l : gmap Z Z) !! k)) ∧
    same_account o o' ∧ data o' = data o ∧ (∀ k, dirtyStorage o' !! k = if decide (k ∈ l.*1) then None else dirtyStorage o !! k) ∧
    dom (originStorage o) ⊆ dom (originStorage o').
Proof.
  intros S Ht. induction l as [|[k v] l IH]; intros Hnd Hin; cbn [fold_right].
  - exists sm. by split_and!.
  - cbn [fmap list_fmap] in Hnd. apply NoDup_cons in Hnd as [Hk Hnd].
    destruct IH as (sm1 & S1 & T1 & V1 & A1 & D1 & E1 & O1); [done|intros kv Hkv; apply Hin; by right|].
    set (o1 := fold_right _ o l) in *.
    destruct (updateTrie_entry_sound d sm1 o1 k v S1 T1) as (sm2 & S2 & T2 & V2 & A2 & D2 & E2 & O2).
    { rewrite E1, decide_False by done. apply (Hin (k, v)). by left. }
    exists sm2. split_and!; [done|done| |by etransitivity|by rewrite D2| |by etransitivity].
    + intros k' Hk'. rewrite V2, V1 by done. cbn [list_to_map foldr]. destruct (decide (k' = k)) as [->|Hne].
      * by rewrite lookup_insert_eq.
      * by rewrite lookup_insert_ne.
    + intros k'. rewrite E2. cbn [fmap list_fmap]. destruct (decide (k' = k)) as [->|Hne].
      * rewrite lookup_delete_eq, decide_True; [done|]. by left.
      * rewrite lookup_delete_ne, E1 by done. destruct (decide (k' ∈ l.*1)); [rewrite decide_True by (by right)|rewrite decide_False by (by intros [|]%elem_of_cons)]; done.
Qed.

(** [updateRoot]: the storage map holds what readers of the object see, and
    the account its root. *)
Record flushed (d : D) o o' (sm : bmap) : Prop := {
  fl_sound : so_sound d sm o';
  fl_slots : ∀ k, K k → slot_value sm k = (so_GetState d k o).1;
  fl_clean : dirtyStorage o' = ∅;
  fl_data : data o' = set_Root (trie_root sm) (data o);
  fl_account : same_account o o';
  fl_cached : dom (originStorage o) ⊆ dom (originStorage o');
}.
Lemma updateRoot_flushes d o : sound d o → ∃ sm, flushed d o (updateRoot d o) sm.
Proof.
  intros [sm S]. unfold updateRoot, updateTrie.
  pose proof (so_sound_getTrie d sm o S) as S0. pose proof (getTrie_opened d o) as T0.
  destruct (same_account_getTrie d o) as [A0 D0].
  destruct (getTrie d o) as [t0 o0] eqn:Eg. cbn [snd] in *. destruct (getTrie_spec _ _ _ _ Eg) as (_ & _ & _ & _ & _ & _ & _ & Eo & Ed & _).
  destruct (updateTrie_loop_sound d sm o0 (map_to_list (dirtyStorage o0)) S0 T0) as (sm' & S' & [t Et] & V & A1 & D1 & E1 & O1).
  { apply NoDup_fst_map_to_list. }
  { intros [k v]. apply elem_of_map_to_list. }
  set (o1 := fold_right _ o0 _) in *. rewrite Et. pose proof (sd_trie _ _ _ S') as Hm. rewrite (getTrie_trie _ _ _ Et) in Hm. cbn [fst] in Hm.
  rewrite (TrieHash_map _ _ Hm (sd_fits _ _ _ S')). exists sm'. split.
  - destruct S' as [H1 H2 H3 H4]. split; [|done|done|done]. by rewrite (getTrie_trie d _ t).
  - intros k Hk. rewrite V, list_to_map_to_list by done. destruct (state_sound (A:=A) d sm k o S Hk) as (-> & _). by rewrite Ed.
  - apply map_eq. intros k. cbn [dirtyStorage set_data]. rewrite E1, lookup_empty. case_decide as Hk; [done|].
    destruct (dirtyStorage o0 !! k) as [v|] eqn:Ek; [|done]. exfalso. apply Hk, list_elem_of_fmap. exists (k, v).
    split; [done|]. by apply elem_of_map_to_list.
  - cbn. by rewrite D1, D0.
  - transitivity o0; [done|]. transitivity o1; [done|]. by split.
  - cbn. by rewrite <- Eo.
Qed.

(** ** Accounts *)

Definition addr_key (a : Z) : bytes := trie_key (addr_bytes a).
Lemma addr_key_fits a : is_bytes (addr_key a) ∧ zlen (addr_key a) < 2 ^ 32.
Proof. apply trie_key_ok; [apply is_bytes_be_bytes|]. unfold zlen, addr_bytes. rewrite length_be_bytes. lia. Qed.
(** An account that [Finalise] removes. *)
Definition gone (deleteEmptyObjects : bool) o : bool := suicided o || (deleteEmptyObjects && empty o).
(** What [Finalise] leaves of a dirty account: in the cache, and under its
    key in the trie. *)
Definition settled (d : D) (de : bool) o o' (entry : option bytes) : Prop :=
  if gone de o then o' = set_deleted true o ∧ entry = None
  else ∃ sm, flushed d o o' sm ∧ entry = Some (encode_account (set_Root (trie_root sm) (data o))).
(** The accounts have encodings of a sane size. *)
Definition encodable_accounts s : Prop :=
  ∀ a o r, stateObjects s !! a = Some o →
    is_bytes (encode_account (set_Root r (data o))) ∧ zlen (encode_account (set_Root r (data o))) < 2 ^ 32.

Record finalised (de : bool) s (addrs : list Z) (m : bmap) s' (m' : bmap) : Prop := {
  fi_trie : trie_map (trie s') m';
  fi_fits : fits m → encodable_accounts s → fits m';
  fi_db : db s' = db s;
  fi_dirty : ∀ a o, a ∈ addrs → stateObjects s !! a = Some o →
    ∃ o', stateObjects s' !! a = Some o' ∧ settled (db s) de o o' (m' !! addr_key a);
  fi_other : ∀ a, a ∉ addrs → stateObjects s' !! a = stateObjects s !! a;
  fi_none : ∀ a, stateObjects s !! a = None → stateObjects s' !! a = None;
  fi_keys : ∀ k, (∀ a, a ∈ addrs → is_Some (stateObjects s !! a) → k ≠ addr_key a) → m' !! k = m !! k;
}.
Lemma setError_keeps (e : option staterror) s : trie (setError e s) = trie s ∧ stateObjects (setError e s) = stateObjects s ∧
  db (setError e s) = db s.
Proof. unfold setError. by destruct (dbErr s). Qed.
Lemma updateStateObject_map o s m : trie_map (trie s) m →
  let s' := updateStateObject o s in
  trie_map (trie s') (<[addr_key (address o) := encode_account (data o)]> m) ∧ stateObjects s' = stateObjects s ∧ db s' = db s.
Proof.
  intros Hm. unfold updateStateObject.
  destruct (TryUpdate_map (trie s) m (addr_bytes (address o)) (encode_account (data o)) Hm) as (t' & -> & Ht); [apply encode_account_nonempty|].
  destruct (setError_keeps (SEDB <$> None) (set_trie t' s)) as (E1 & E2 & E3). cbv zeta. by rewrite E1, E2, E3.
Qed.
Lemma deleteStateObject_map o s m : trie_map (trie s) m →
  let s' := deleteStateObject o s in
  trie_map (trie s') (delete (addr_key (address o)) m) ∧ stateObjects s' = <[address o := set_deleted true o]> (stateObjects s) ∧ db s' = db s.
Proof.
  intros Hm. unfold deleteStateObject.
  destruct (TryDelete_map (trie s) m (addr_bytes (address o)) Hm) as (t' & E & Ht).
  cbn [trie setStateObject set_stateObjects]. rewrite E.
  destruct (setError_keeps (SEDB <$> None) (set_trie t' (setStateObject (set_deleted true o) s))) as (E1 & E2 & E3).
  cbv zeta. by rewrite E1, E2, E3.
Qed.
(** One address. *)
Lemma Finalise_addr_map de a o s m : stateObjects s !! a = Some o → address o = a → sound (db s) o → trie_map (trie s) m →
  let s' := Finalise_addr de a s in
  ∃ o' e, trie_map (trie s') (partial_alter (λ _, e) (addr_key a) m) ∧
    (fits m → (∀ r, is_bytes (encode_account (set_Root r (data o))) ∧ zlen (encode_account (set_Root r (data o))) < 2 ^ 32) →
      fits (partial_alter (λ _, e) (addr_key a) m)) ∧
    settled (db s) de o o' e ∧ stateObjects s' = <[a := o']> (stateObjects s) ∧ db s' = db s.
Proof.
  intros Ho Ea S Hm. unfold Finalise_addr. rewrite Ho. unfold settled. fold (gone de o).
  destruct (gone de o) eqn:Hg; cbv zeta.
  - destruct (deleteStateObject_map o s m Hm) as (E1 & E2 & E3). rewrite Ea in *.
    exists (set_deleted true o), None. cbn. split_and!; [done|intros Hf _; exact (map_Forall_delete _ _ _ Hf)|done|done|done|done].
  - destruct (updateRoot_flushes (db s) o S) as [sm F]. set (o' := updateRoot (db s) o) in *.
    assert (Ea' : address o' = a) by (rewrite (sa_address _ _ (fl_account _ _ _ _ F)); done).
    destruct (updateStateObject_map o' (setStateObject o' s) m Hm) as (E1 & E2 & E3). rewrite Ea', (fl_data _ _ _ _ F) in E1.
    exists o', (Some (encode_account (set_Root (trie_root sm) (data o)))). cbn. split_and!.
    + exact E1.
    + intros Hf Henc. destruct (addr_key_fits a), (Henc (trie_root sm)).
      change (fits (<[addr_key a := encode_account (set_Root (trie_root sm) (data o))]> m)).
      apply map_Forall_insert_2; [split_and!; try done; apply encode_account_nonempty|done].
    + eexists; split; [exact F|done].
    + rewrite E2. cbn. by rewrite Ea'.
    + exact E3.
Qed.
Lemma Finalise_loop de s m addrs : sinv s → trie_map (trie s) m → NoDup addrs →
  ∃ m', finalised de s addrs m (fold_right (Finalise_addr de) s addrs) m'.
Proof.
  intros I Hm. induction addrs as [|a addrs IH]; intros Hnd; cbn [fold_right].
  { exists m. split; try done. intros a o []%not_elem_of_nil. }
  apply NoDup_cons in Hnd as [Ha Hnd]. destruct (IH Hnd) as [m1 F1]. set (s1 := fold_right _ s addrs) in *.
  destruct (stateObjects s !! a) as [o|] eqn:Ho.
  2:{ assert (Hs1 : Finalise_addr de a s1 = s1) by (unfold Finalise_addr; by rewrite (fi_none _ _ _ _ _ _ F1 a Ho)).
      rewrite Hs1. exists m1. destruct F1 as [G1 G2 G3 G4 G5 G6 G7]. split; [done|done|done| | |done|].
      - intros b x [->|Hb]%elem_of_cons; [by rewrite Ho|by apply G4].
      - intros b Hb. apply G5. intros Hb'. apply Hb. by right.
      - intros k Hk. apply G7. intros b Hb. apply Hk. by right. }
  assert (Ho1 : stateObjects s1 !! a = Some o) by (rewrite (fi_other _ _ _ _ _ _ F1); done).
  destruct (si_objs _ I a o Ho) as (Ea & Aa & S). rewrite <- (fi_db _ _ _ _ _ _ F1) in S.
  destruct (Finalise_addr_map de a o s1 m1 Ho1 Ea S (fi_trie _ _ _ _ _ _ F1))
    as (o' & e & E1 & E2 & E3 & E4 & E5).
  destruct F1 as [G1 G2 G3 G4 G5 G6 G7]. rewrite G3 in E3. exists (partial_alter (λ _, e) (addr_key a) m1). split.
  - done.
  - intros Hf Henc. apply E2; [by apply G2|]. intros r. by apply (Henc a o).
  - by rewrite E5.
  - intros b x [->|Hb]%elem_of_cons Hx.
    + rewrite Ho in Hx. injection Hx as <-. exists o'. rewrite E4, lookup_insert_eq, lookup_partial_alter_eq. done.
    + destruct (G4 b x Hb Hx) as (x' & Hx' & Hs). exists x'. rewrite E4.
      assert (Hne : a ≠ b) by (by intros ->). rewrite lookup_insert_ne by done. split; [done|].
      rewrite lookup_partial_alter_ne; [done|]. intros Ek. apply Hne, (proj1 KD); [done|by eapply (si_objs _ I)|exact Ek].
  - intros b Hb. rewrite E4. apply not_elem_of_cons in Hb as [Hne Hb]. rewrite lookup_insert_ne by done. by apply G5.
  - intros b Hb. rewrite E4, lookup_insert_ne; [by apply G6|]. intros ->. by rewrite Ho in Hb.
  - intros k Hk. rewrite lookup_partial_alter_ne; [|apply not_eq_sym, Hk; [by left|by rewrite Ho]].
    apply G7. intros b Hb. apply Hk. by right.
Qed.

(** Between transactions the account trie stays as it is. *)
Lemma getStateObject_trie a s : trie (getStateObject a s).2 = trie s.
Proof. apply getStateObject_frame. Qed.
Lemma journal_append_trie e s : trie (journal_append e s) = trie s.
Proof. apply journal_append_fields. Qed.
Lemma createObject_trie a s : trie (createObject a s).2 = trie s.
Proof.
  unfold createObject. pose proof (getStateObject_trie a s) as Ht. destruct (getStateObject a s) as [[p|] t]; cbn in *;
    by rewrite ?journal_append_trie.
Qed.
Lemma GetOrNew_trie a s : trie (GetOrNewStateObject a s).2 = trie s.
Proof.
  unfold GetOrNewStateObject. pose proof (getStateObject_trie a s) as Ht.
  destruct (getStateObject a s) as [[o|] t]; cbn [snd] in Ht; [destruct (deleted o); [|done]|].
  all: pose proof (createObject_trie a t); destruct (createObject a t) as [[? ?] ?]; cbn in *; congruence.
Qed.
Lemma exec_trie x s s' : exec x s = Some s' → trie s' = trie s.
Proof.
  intros He.
  assert (Hg : ∀ a, trie (getStateObject a s).2 = trie s) by (intros; apply getStateObject_trie).
  assert (Hn : ∀ a, trie (GetOrNewStateObject a s).2 = trie s) by (intros; apply GetOrNew_trie).
  destruct x as [a|a x|a x|a x|a n|a c|a k v|a|g|g|l|h x|a|a|a k|a k|a| |id]; cbn [exec] in He; try injection He as <-;
    try (specialize (Hg a)); try (specialize (Hn a)).
  - unfold CreateAccount. pose proof (createObject_trie a s). destruct (createObject a s) as [[n [p|]] t]; done.
  - unfold AddBalance. destruct (GetOrNewStateObject a s) as [o t]. unfold so_AddBalance, so_SetBalance, touch. cbn in *.
    destruct (Big.Sign x =? 0); [destruct (empty o); [destruct (address o =? ripemd)|]|]; cbn; by rewrite ?journal_append_trie.
  - unfold SubBalance. destruct (GetOrNewStateObject a s) as [o t]. unfold so_SubBalance, so_SetBalance. cbn in *.
    destruct (Big.Sign x =? 0); cbn; by rewrite ?journal_append_trie.
  - unfold SetBalance. destruct (GetOrNewStateObject a s) as [o t]. unfold so_SetBalance. cbn in *. by rewrite ?journal_append_trie.
  - unfold SetNonce. destruct (GetOrNewStateObject a s) as [o t]. unfold so_SetNonce. cbn in *. by rewrite ?journal_append_trie.
  - unfold SetCode. destruct (GetOrNewStateObject a s) as [o t]. unfold so_SetCode. cbn in *.
    destruct (so_Code (db t) o) as [pc o']. cbn. by rewrite ?journal_append_trie.
  - unfold SetState. destruct (GetOrNewStateObject a s) as [o t]. unfold so_SetState. cbn in *.
    destruct (so_GetState (db t) k o) as [pv o']. destruct (pv =? v); cbn; by rewrite ?journal_append_trie.
  - unfold Suicide. destruct (getStateObject a s) as [[o|] t]; cbn in *; by rewrite ?journal_append_trie.
  - unfold AddRefund. cbn. by rewrite ?journal_append_trie.
  - unfold SubRefund in He. destruct (_ <? g); [done|]. injection He as <-. cbn. by rewrite ?journal_append_trie.
  - unfold AddLog. cbn. by rewrite ?journal_append_trie.
  - unfold AddPreimage. destruct (preimages s !! h); [done|]. cbn. by rewrite ?journal_append_trie.
  - unfold GetCode. destruct (getStateObject a s) as [[o|] t]; [|done]. cbn in *. by destruct (so_Code (db t) o).
  - unfold GetCodeSize. destruct (getStateObject a s) as [[o|] t]; [|done]. cbn in *. destruct (code o); [done|].
    destruct (ContractCodeSize _ _ _) as [? [?|]]; cbn; [|done]. by rewrite (proj1 (setError_keeps _ _)).
  - unfold GetState. destruct (getStateObject a s) as [[o|] t]; [|done]. cbn in *. by destruct (so_GetState (db t) k o).
  - unfold GetCommittedState. destruct (getStateObject a s) as [[o|] t]; [|done]. cbn in *. by destruct (so_GetCommittedState (db t) k o).
  - done.
  - done.
  - unfold RevertToSnapshot in He. destruct (_ !! _) as [r|]; [|done]. destruct (_ =? _); [|done].
    unfold journal_revert in He. destruct (revert_loop _ _) as [u|] eqn:Hu; [|done]. injection He as <-.
    apply revert_loop_frame in Hu as ([] & _). done.
Qed.
Lemma run_trie xs : ∀ s s', run xs s = Some s' → trie s' = trie s.
Proof.
  induction xs as [|x xs IH]; intros s s'; cbn [run]; [by intros [= <-]|].
  destruct (exec x s) as [t|] eqn:He; [|done]. intros Hr. rewrite (IH _ _ Hr). by eapply exec_trie.
Qed.

Definition dirty_addrs s : list Z := (map_to_list (dirties s)).*1.
Lemma elem_of_dirty_addrs s a : a ∈ dirty_addrs s ↔ is_Some (dirties s !! a).
Proof.
  unfold dirty_addrs. rewrite list_elem_of_fmap. split.
  - intros ([b n] & -> & H%elem_of_map_to_list). by exists n.
  - intros [n H]. exists (a, n). split; [done|]. by apply elem_of_map_to_list.
Qed.
Lemma trie_obj_map s m a : trie_map (trie s) m →
  trie_obj s a = match default [] (m !! addr_key a) with [] => None | enc => newObject a <$> decode_account enc end.
Proof. intros Hm. unfold trie_obj, addr_key. rewrite (TryGet_map _ _ _ Hm). by destruct (default [] _). Qed.
Lemma trie_obj_unchanged s s' m m' a : trie_map (trie s) m → trie_map (trie s') m' → m' !! addr_key a = m !! addr_key a →
  trie_obj s' a = trie_obj s a.
Proof. intros Hm Hm' E. by rewrite (trie_obj_map s m), (trie_obj_map s' m'), E. Qed.
Lemma clearJournalAndRefund_finalised de s addrs m s' m' : finalised de s addrs m s' m' → finalised de s addrs m (clearJournalAndRefund s') m'.
Proof. intros [H1 H2 H3 H4 H5 H6 H7]. by split. Qed.
Lemma settled_sound d de o o' e : settled d de o o' e → sound d o → sound d o' ∧ address o' = address o.
Proof.
  unfold settled. destruct (gone de o).
  - intros [-> _] S. split; [by apply (sound_ext d o)|done].
  - intros (sm & F & _) _. split; [exists sm; apply F|apply F].
Qed.
(** Where an object comes from. *)
Lemma finalised_cases de s s' m m' a o' : finalised de s (dirty_addrs s) m s' m' → stateObjects s' !! a = Some o' →
  ∃ o, stateObjects s !! a = Some o ∧
    (a ∉ dirty_addrs s ∧ o' = o ∨ a ∈ dirty_addrs s ∧ settled (db s) de o o' (m' !! addr_key a)).
Proof.
  intros [_ _ _ G4 G5 G6 _] Ho'. destruct (stateObjects s !! a) as [o|] eqn:Ho; [|by rewrite G6 in Ho'].
  exists o. split; [done|]. destruct (decide (a ∈ dirty_addrs s)) as [Ha|Ha].
  - destruct (G4 a o Ha Ho) as (x & Hx & Hs). rewrite Ho' in Hx. injection Hx as <-. by right.
  - rewrite G5, Ho in Ho' by done. injection Ho' as <-. by left.
Qed.
Lemma finalised_same de s s' m m' a : sinv s → finalised de s (dirty_addrs s) m s' m' → A a →
  a ∉ dirty_addrs s ∨ stateObjects s !! a = None → m' !! addr_key a = m !! addr_key a.
Proof.
  intros I F Aa Ha. apply F. intros b Hb [o Ho] Ek. destruct (si_objs _ I b o Ho) as (_ & Ab & _).
  apply (proj1 KD) in Ek as ->; [|done|done]. destruct Ha as [Ha|Ha]; [done|by rewrite Ho in Ha].
Qed.
Lemma Finalise_spec de s m : sinv s → trie_map (trie s) m →
  ∃ m', finalised de s (dirty_addrs s) m (Finalise de s) m' ∧ sinv (Finalise de s).
Proof.
  intros I Hm.
  destruct (Finalise_loop de s m (dirty_addrs s) I Hm) as [m' F]; [apply NoDup_fst_map_to_list|].
  exists m'. unfold Finalise. fold (dirty_addrs s). apply clearJournalAndRefund_finalised in F. split; [done|].
  set (s' := clearJournalAndRefund _) in *. pose proof F as [G1 G2 G3 G4 G5 G6 G7].
  pose proof (λ a, finalised_same de s s' m m' a I F) as Hsame.
  pose proof (λ a o', finalised_cases de s s' m m' a o' F) as Hcases.
  split.
  - intros a o Aa Ho Ht. rewrite G3. destruct (stateObjects s !! a) as [x|] eqn:Hx.
    { destruct (decide (a ∈ dirty_addrs s)) as [Ha|Ha]; [|by rewrite G5, Hx in Ho].
      destruct (G4 a x Ha Hx) as (y & Hy & _). by rewrite Ho in Hy. }
    rewrite (trie_obj_unchanged s s' m m') in Ht; [|done|done|by apply Hsame; [|right]]. by apply (si_trie _ I a).
  - intros a o' Ho'. destruct (Hcases a o' Ho') as (o & Ho & H). destruct (si_objs _ I a o Ho) as (Ea & Aa & S). rewrite G3.
    destruct H as [[_ ->]|[_ H]]; [done|]. destruct (settled_sound _ _ _ _ _ H S) as [S' Ea']. split_and!; [congruence|done|done].
  - intros a o' Ho' Hd. destruct (Hcases a o' Ho') as (o & Ho & H). destruct (si_objs _ I a o Ho) as (_ & Aa & _).
    split; [|done]. destruct H as [[Ha ->]|[Ha H]].
    + rewrite (trie_obj_unchanged s s' m m'); [|done|done|by apply Hsame; [|left]]. by apply (si_dead _ I a o).
    + unfold settled in H. destruct (gone de o).
      * destruct H as [_ H]. rewrite (trie_obj_map s' m') by done. by rewrite H.
      * destruct H as (sm & F' & _). rewrite (sa_deleted _ _ (fl_account _ _ _ _ F')) in Hd.
        destruct (si_dead _ I a o Ho Hd) as (_ & Hdi & _). apply elem_of_dirty_addrs in Ha as [n Ha]. by rewrite Ha in Hdi.
  - done.
Qed.

(** ** Transactions *)

(** Operations of a transaction, and its end. *)
Inductive tx_step s : @StateDB D T → Prop :=
| tx_run xs s' : Forall (op_in_use (A:=A) (K:=K)) xs → run xs s = Some s' → tx_step s s'
| tx_finalise de : encodable_accounts s → tx_step s (Finalise de s).
Definition synced s : Prop := sinv s ∧ ∃ m, trie_map (trie s) m ∧ fits m.
Lemma tx_step_synced s s' : tx_step s s' → synced s → synced s'.
Proof.
  intros [xs t Hu Hr|de Henc] [I (m & Hm & Hf)].
  - split; [by eapply run_sound|]. exists m. by rewrite (run_trie _ _ _ Hr).
  - destruct (Finalise_spec de s m I Hm) as (m' & F & I'). split; [done|].
    exists m'. split; [by eapply fi_trie|by eapply (fi_fits _ _ _ _ _ _ F)].
Qed.
Lemma tx_steps_synced s s' : rtc tx_step s s' → synced s → synced s'.
Proof. induction 1; [done|]. intros. by eauto using tx_step_synced. Qed.
(** The storage tries of the accounts in the trie are in the database. *)
Definition storage_stored (d : D) (m : bmap) : Prop :=
  ∀ a enc x, A a → m !! addr_key a = Some enc → decode_account enc = Some x →
    ∃ sm, fits sm ∧ (Root x = 0 ∧ sm = ∅ ∨ db_stores d (Root x) sm).
Lemma New_synced d t m : trie_map t m → fits m → storage_stored d m → synced (New d t).
Proof.
  intros Hm Hf Hs. split; [|by exists m]. split.
  - intros a o Aa _ Ht. rewrite (trie_obj_map _ m) in Ht by done. destruct (m !! addr_key a) as [enc|] eqn:Ek; [|done].
    cbn [from_option id] in Ht. destruct enc as [|b enc]; [done|]. destruct (decode_account _) as [x|] eqn:Ed; [|done].
    injection Ht as <-. destruct (Hs a _ x Aa Ek Ed) as (sm & Hfs & H). apply (sound_open _ _ _ sm); [|done].
    change (db (New d t)) with d. unfold getTrie. cbn [so_trie newObject data addrHash]. destruct H as [[-> ->]|H].
    + rewrite OpenStorageTrie_empty. apply EmptyStorageTrie_map.
    + by destruct (OpenStorageTrie_map _ (Keccak256Hash (addr_bytes a)) _ _ H) as (t' & -> & ?).
  - apply map_Forall_empty.
  - apply map_Forall_empty.
  - done.
Qed.
End Finalise.
