(* ===== verification/StateSpec.v ===== *)
(** * The state as a map of accounts

    The abstract specification of [StateDB.v]: a map from addresses to
    accounts with a nonce, a balance, code and a total storage.  Every
    operation refines its abstract counterpart, whatever is cached, loaded or
    journalled underneath. *)

From S2P Require Import Prelude BigMath Rlp Interfaces StateDB StateEq StateRevert StateHistory.

Record aaccount := mkAAccount {
  a_nonce : Z;
  a_balance : Z;
  a_codehash : bytes;
  a_code : bytes;
  a_storage : Z → Z;
  a_suicided : bool;
}.
Record aaccount_eq (x y : aaccount) : Prop := {
  ae_nonce : a_nonce x = a_nonce y;
  ae_balance : a_balance x = a_balance y;
  ae_codehash : a_codehash x = a_codehash y;
  ae_code : a_code x = a_code y;
  ae_storage : ∀ k, a_storage x k = a_storage y k;
  ae_suicided : a_suicided x = a_suicided y;
}.
#[global] Instance aaccount_eq_equiv : Equivalence aaccount_eq.
Proof.
  split.
  - by intros x.
  - intros x y []. by split.
  - intros x y z [] []. split; intros; etrans; eauto.
Qed.

(** The accounts, and the three values kept beside them. *)
Record astate := mkAState {
  as_account : Z → option aaccount;
  as_refund : Z;
  as_logs : Z → list Log;
  as_preimages : gmap Z bytes;
}.
Record astate_eq (x y : astate) : Prop := {
  ase_account : ∀ a, option_Forall2 aaccount_eq (as_account x a) (as_account y a);
  ase_refund : as_refund x = as_refund y;
  ase_logs : ∀ h, as_logs x h = as_logs y h;
  ase_preimages : as_preimages x = as_preimages y;
}.

Definition a_upd (a : Z) (x : aaccount) (st : astate) : astate :=
  mkAState (λ b, if decide (b = a) then Some x else as_account st b)
    (as_refund st) (as_logs st) (as_preimages st).

Section Spec.
Context {D T : Type} {CR : Crypto} {TI : TrieI T} {DI : DatabaseI D T} {AC : AccountCodec}.
(** The empty storage trie has no entry. *)
Context (EmptyStorageTrie_get : ∀ d h k, TryGet k (EmptyStorageTrie (T:=T) d h) = ([], None)).

Implicit Types (s : @StateDB D T) (o : @stateObject T).

Definition a_fresh : aaccount := mkAAccount 0 0 emptyCodeHash [] (λ _, 0) false.

Definition a_get (a : Z) (st : astate) : aaccount := default a_fresh (as_account st a).

Definition abs_obj (d : D) o : aaccount :=
  mkAAccount (Nonce (data o)) (Balance (data o)) (CodeHash (data o)) (code_of d o)
    (λ k, state_of d k o) (suicided o).
Definition abs s : astate :=
  mkAState (λ a, abs_obj (db s) <$> lookup_obj s a) (refund s)
    (λ h, default [] (logs s !! h)) (preimages s).

Definition a_setBalance x (c : aaccount) : aaccount :=
  mkAAccount (a_nonce c) x (a_codehash c) (a_code c) (a_storage c) (a_suicided c).
Definition a_setNonce x (c : aaccount) : aaccount :=
  mkAAccount x (a_balance c) (a_codehash c) (a_code c) (a_storage c) (a_suicided c).
Definition a_setCode h x (c : aaccount) : aaccount :=
  mkAAccount (a_nonce c) (a_balance c) h x (a_storage c) (a_suicided c).
Definition a_setStorage (k v : Z) (c : aaccount) : aaccount :=
  mkAAccount (a_nonce c) (a_balance c) (a_codehash c) (a_code c)
    (λ k', if decide (k' = k) then v else a_storage c k') (a_suicided c).
Definition a_suicide (c : aaccount) : aaccount :=
  mkAAccount (a_nonce c) 0 (a_codehash c) (a_code c) (a_storage c) true.

(** The abstract operations.  [th], [ti], [bh], [n] are the transaction, its
    index, the block and the number of logs so far, which a log records. *)
Definition aexec (th ti bh n : Z) (x : op) (st : astate) : astate :=
  let upd a f := a_upd a (f (a_get a st)) st in
  match x with
  | OpCreateAccount a => upd a (λ c, a_setBalance (a_balance c) a_fresh)
  | OpAddBalance a v => upd a (λ c, a_setBalance (a_balance c + v) c)
  | OpSubBalance a v => upd a (λ c, a_setBalance (a_balance c - v) c)
  | OpSetBalance a v => upd a (a_setBalance v)
  | OpSetNonce a v => upd a (a_setNonce v)
  | OpSetCode a c => upd a (a_setCode (Keccak256 (default [] c)) (default [] c))
  | OpSetState a k v => upd a (a_setStorage k v)
  | OpSuicide a => match as_account st a with
                   | Some c => a_upd a (a_suicide c) st
                   | None => st
                   end
  | OpAddRefund g => mkAState (as_account st) (u64 (as_refund st + g)) (as_logs st) (as_preimages st)
  | OpSubRefund g => mkAState (as_account st) (as_refund st - g) (as_logs st) (as_preimages st)
  | OpAddLog l =>
      mkAState (as_account st) (as_refund st)
        (λ h, if decide (h = th) then
                as_logs st h ++ [mkLog (l_Address l) (l_Topics l) (l_Data l) (l_BlockNumber l) th ti bh n]
              else as_logs st h) (as_preimages st)
  | OpAddPreimage h p =>
      mkAState (as_account st) (as_refund st) (as_logs st)
        (match as_preimages st !! h with Some _ => as_preimages st | None => <[h := p]> (as_preimages st) end)
  | _ => st
  end.

(** ** From objects to accounts *)

Lemma abs_obj_eq d o1 o2 : so_eq d o1 o2 → aaccount_eq (abs_obj d o1) (abs_obj d o2).
Proof. intros []. split; simpl; congruence. Qed.
Lemma abs_eq s1 s2 : st_eq s1 s2 → astate_eq (abs s1) (abs s2).
Proof.
  intros E. destruct E as [E1 E2 E3 E4 E5 E6 E7 E8 E9 E10]. split; simpl; try done. intros a.
  rewrite <- E1. specialize (E3 a). inversion E3; constructor. by apply abs_obj_eq.
Qed.

#[global] Instance astate_eq_equiv : Equivalence astate_eq.
Proof.
  split.
  - intros x. by split.
  - intros x y [E1 E2 E3 E4]. by split.
  - intros x y z [E1 E2 E3 E4] [F1 F2 F3 F4].
    split; [|congruence|intros h; by rewrite E3|congruence].
    intros a. specialize (E1 a). specialize (F1 a). inversion E1; inversion F1; simplify_eq; try congruence.
    + constructor. etrans; [done|]. congruence.
Qed.

(** A new object is the fresh account. *)
Lemma abs_obj_new d a : aaccount_eq (abs_obj d (newObject a Account_zero)) a_fresh.
Proof.
  split; try done; simpl.
  - unfold code_of, so_Code. simpl. by rewrite bool_decide_eq_true_2.
  - intros k. unfold state_of, so_GetState, so_GetCommittedState, newObject. simpl.
    unfold getTrie. simpl. rewrite OpenStorageTrie_empty. simpl. by rewrite EmptyStorageTrie_get.
Qed.

Lemma a_upd_proper a x y st st' :
  aaccount_eq x y → astate_eq st st' → astate_eq (a_upd a x st) (a_upd a y st').
Proof.
  intros Hx [E1 E2 E3 E4]. split; simpl; try done. intros b. case_decide; [by constructor|done].
Qed.
Lemma a_get_proper a st st' : astate_eq st st' → aaccount_eq (a_get a st) (a_get a st').
Proof. intros [E _ _ _]. unfold a_get. specialize (E a). by inversion E. Qed.

(** Storing an object updates its account. *)
Lemma abs_set s o : deleted o = false →
  astate_eq (abs (setStateObject o s)) (a_upd (address o) (abs_obj (db s) o) (abs s)).
Proof.
  intros Hd. split; try done. intros b. simpl. rewrite lookup_obj_set, Hd.
  case_decide; simpl; [by constructor|]. destruct (lookup_obj s b); by constructor.
Qed.
Lemma abs_set_as s s0 o a x :
  deleted o = false → address o = a → st_eq s s0 → aaccount_eq (abs_obj (db s) o) x →
  astate_eq (abs (setStateObject o s)) (a_upd a x (abs s0)).
Proof.
  intros Hd <- E Hx. etrans; [by apply abs_set|]. apply a_upd_proper; [done|by apply abs_eq].
Qed.

Lemma a_upd_same a st x : as_account st a = Some x → astate_eq st (a_upd a x st).
Proof.
  intros Hx. split; simpl; try done. intros b. case_decide; [subst; rewrite Hx; by constructor|].
  destruct (as_account st b); by constructor.
Qed.
Lemma a_upd_twice a x y st : astate_eq (a_upd a x (a_upd a y st)) (a_upd a x st).
Proof.
  split; simpl; try done. intros b. case_decide; [by constructor|].
  destruct (as_account st b); by constructor.
Qed.

(** [GetOrNewStateObject] makes the account exist, and returns it. *)
Lemma GetOrNew_abs a s o t : wf s → GetOrNewStateObject a s = (o, t) →
  db t = db s ∧ deleted o = false ∧ address o = a ∧
  aaccount_eq (abs_obj (db t) o) (a_get a (abs s)) ∧
  astate_eq (abs t) (a_upd a (a_get a (abs s)) (abs s)).
Proof.
  intros W Hg. destruct (GetOrNew_ok _ _ _ _ W Hg) as (He & Hm & Ha & Ho & Hl).
  unfold GetOrNewStateObject in Hg. pose proof (getStateObject_frame a s) as [F _].
  pose proof (getStateObject_eq a s) as E. pose proof (lookup_obj_get a s) as Hla.
  unfold a_get. simpl. destruct (getStateObject a s) as [[x|] u]; simpl in *.
  - rewrite <- Hla. simpl. destruct (deleted x) eqn:Hdx.
    { symmetry in Hla. apply (wf_lookup _ _ _ W) in Hla as [_ [Hd _]]. congruence. }
    injection Hg as <- <-. rewrite (fr_db _ _ F). split_and!; try done.
    etrans; [by apply abs_eq|]. apply a_upd_same. simpl. by rewrite <- Hla.
  - rewrite <- Hla. simpl. unfold createObject in Hg.
    destruct (getStateObject a u) as [p v] eqn:Hp. simpl in Hg.
    pose proof (getStateObject_frame a u) as [F' _]. pose proof (getStateObject_eq a u) as E'.
    rewrite Hp in F', E'. simpl in *.
    set (w := match p with Some _ => _ | None => _ end) in Hg.
    assert (Hw : db w = db s ∧ st_eq w s).
    { assert (st_eq v s) by (by etrans). rewrite <- (fr_db _ _ F), <- (fr_db _ _ F').
      unfold w; destruct p as [p|];
      [pose proof (journal_append_fields (resetObjectChange p) v) as (?&?&?&_);
       pose proof (journal_append_eq (resetObjectChange p) v)
      |pose proof (journal_append_fields (createObjectChange a) v) as (?&?&?&_);
       pose proof (journal_append_eq (createObjectChange a) v)]; (split; [done|by etrans]). }
    destruct Hw as [Hdb Hw]. injection Hg as <- <-. simpl. rewrite Hdb. split_and!; try done.
    + apply abs_obj_new.
    + apply abs_set_as; try done. apply abs_obj_new.
Qed.

Definition a_proper (f : aaccount → aaccount) : Prop :=
  ∀ x y, aaccount_eq x y → aaccount_eq (f x) (f y).
Lemma a_proper_setBalance x : a_proper (a_setBalance x).
Proof. intros ? ? []. by split. Qed.
Lemma a_proper_balance_by g : a_proper (λ c, a_setBalance (g (a_balance c)) c).
Proof. intros ? ? []. split; simpl; congruence. Qed.
Lemma a_proper_setNonce x : a_proper (a_setNonce x).
Proof. intros ? ? []. by split. Qed.
Lemma a_proper_setCode h x : a_proper (a_setCode h x).
Proof. intros ? ? []. by split. Qed.
Lemma a_proper_setStorage k v : a_proper (a_setStorage k v).
Proof. intros ? ? []. split; try done. simpl. intros k'. by case_decide. Qed.
Lemma a_proper_suicide : a_proper a_suicide.
Proof. intros ? ? []. by split. Qed.

(** Get or create the object, then store a changed one. *)
Lemma upd_refines a f s o t o' t' : wf s → GetOrNewStateObject a s = (o, t) → a_proper f →
  st_eq t' t → deleted o' = false → address o' = address o →
  aaccount_eq (abs_obj (db t) o') (f (abs_obj (db t) o)) →
  astate_eq (abs (setStateObject o' t')) (a_upd a (f (a_get a (abs s))) (abs s)).
Proof.
  intros W Hg Hf Et Hd Ha Ho. destruct (GetOrNew_abs _ _ _ _ W Hg) as (Hdb & Hdo & Hao & Hoo & Habs).
  etrans; [apply (abs_set_as _ t _ a (f (a_get a (abs s)))); try done|].
  - congruence.
  - rewrite (ste_db _ _ Et). etrans; [done|]. by apply Hf.
  - etrans; [apply a_upd_proper; [reflexivity|done]|]. apply a_upd_twice.
Qed.

Lemma SetBalance_refines a g s o t : wf s → GetOrNewStateObject a s = (o, t) →
  astate_eq (abs (so_SetBalance (g (Balance (data o))) o t))
    (a_upd a (a_setBalance (g (a_balance (a_get a (abs s)))) (a_get a (abs s))) (abs s)).
Proof.
  intros W Hg. destruct (GetOrNew_abs _ _ _ _ W Hg) as (_ & Hd & _).
  apply (upd_refines _ (λ c, a_setBalance (g (a_balance c)) c) _ o t); try done.
  - apply a_proper_balance_by.
  - apply journal_append_eq.
  - split; try done; simpl; [by apply code_of_data|]. intros k. by apply state_of_data.
Qed.
Lemma get_refines a s o t t' : wf s → GetOrNewStateObject a s = (o, t) → st_eq t' t →
  astate_eq (abs t') (a_upd a (a_get a (abs s)) (abs s)).
Proof.
  intros W Hg E. destruct (GetOrNew_abs _ _ _ _ W Hg) as (_ & _ & _ & _ & Habs).
  etrans; [by apply abs_eq|done].
Qed.
Lemma a_setBalance_id c v : v = 0 → a_setBalance (a_balance c + v) c = c.
Proof. intros ->. destruct c. unfold a_setBalance. simpl. by rewrite Z.add_0_r. Qed.

Lemma AddBalance_refines a v s : wf s →
  astate_eq (abs (AddBalance a v s))
    (a_upd a (a_setBalance (a_balance (a_get a (abs s)) + v) (a_get a (abs s))) (abs s)).
Proof.
  intros W. unfold AddBalance. destruct (GetOrNewStateObject a s) as [o t] eqn:Hg.
  unfold so_AddBalance, Big.Sign. destruct (Z.sgn v =? 0) eqn:Hv; boolp.
  - rewrite a_setBalance_id by lia. destruct (empty o); [|by eapply get_refines].
    eapply get_refines; [done..|]. unfold touch. destruct (_ =? _); [|apply journal_append_eq].
    etrans; [|apply (journal_append_eq (touchChange (address o)))]. by apply (st_eq_other t t).
  - by apply (SetBalance_refines a (λ b, b + v)).
Qed.
Lemma SubBalance_refines a v s : wf s →
  astate_eq (abs (SubBalance a v s))
    (a_upd a (a_setBalance (a_balance (a_get a (abs s)) - v) (a_get a (abs s))) (abs s)).
Proof.
  intros W. unfold SubBalance. destruct (GetOrNewStateObject a s) as [o t] eqn:Hg.
  unfold so_SubBalance, Big.Sign. destruct (Z.sgn v =? 0) eqn:Hv; boolp.
  - rewrite <- Z.add_opp_r, a_setBalance_id by lia. by eapply get_refines.
  - by apply (SetBalance_refines a (λ b, b - v)).
Qed.
Lemma SetNonce_refines a n s : wf s →
  astate_eq (abs (SetNonce a n s)) (a_upd a (a_setNonce n (a_get a (abs s))) (abs s)).
Proof.
  intros W. unfold SetNonce. destruct (GetOrNewStateObject a s) as [o t] eqn:Hg.
  destruct (GetOrNew_abs _ _ _ _ W Hg) as (_ & Hd & _).
  apply (upd_refines _ (a_setNonce n) _ o t); try done.
  - apply a_proper_setNonce.
  - apply journal_append_eq.
  - split; try done; simpl; [by apply code_of_data|]. intros k. by apply state_of_data.
Qed.
Lemma Keccak_code c : hash_bytes (Keccak256Hash c) = Keccak256 c.
Proof. apply hash_bytes_BytesToHash; [apply Keccak256_bytes|apply Keccak256_length]. Qed.
Lemma SetCode_refines a c s : wf s →
  astate_eq (abs (SetCode a c s))
    (a_upd a (a_setCode (Keccak256 (default [] c)) (default [] c) (a_get a (abs s))) (abs s)).
Proof.
  intros W. unfold SetCode. destruct (GetOrNewStateObject a s) as [o t] eqn:Hg.
  destruct (GetOrNew_abs _ _ _ _ W Hg) as (_ & Hd & _).
  unfold so_SetCode. pose proof (so_Code_eq (db t) o) as Hc.
  destruct (so_Code (db t) o) as [pc o2]. simpl in Hc. rewrite Keccak_code.
  destruct Hc as [E1 E2 E3 E4 E5 E6 E7 E8].
  apply (upd_refines _ (a_setCode (Keccak256 (default [] c)) (default [] c)) _ o t); try done.
  - apply a_proper_setCode.
  - apply journal_append_eq.
  - simpl. congruence.
  - split; try done; simpl; try congruence.
    + apply code_of_setCode. by intros ->.
    + intros k. rewrite <- E7. by apply state_of_frame.
Qed.
Lemma SetState_refines a k v s : wf s →
  astate_eq (abs (SetState a k v s)) (a_upd a (a_setStorage k v (a_get a (abs s))) (abs s)).
Proof.
  intros W. unfold SetState. destruct (GetOrNewStateObject a s) as [o t] eqn:Hg.
  destruct (GetOrNew_abs _ _ _ _ W Hg) as (_ & Hd & Ha & _).
  destruct (GetOrNew_ok _ _ _ _ W Hg) as (_ & _ & _ & _ & Hl).
  unfold so_SetState. pose proof (so_GetState_eq (db t) k o) as Hc.
  assert (Hpv : (so_GetState (db t) k o).1 = state_of (db t) k o) by done.
  destruct (so_GetState (db t) k o) as [pv o2]. simpl in Hc, Hpv.
  assert (El : st_eq (setStateObject o2 t) t).
  { apply (setStateObject_eq _ _ o); [|by rewrite (soe_deleted _ _ _ Hc)|done].
    by rewrite (soe_address _ _ _ Hc), Ha. }
  destruct Hc as [E1 E2 E3 E4 E5 E6 E7 E8].
  assert (Hv : aaccount_eq (abs_obj (db t) (so_setState k v o2)) (a_setStorage k v (abs_obj (db t) o))).
  { split; simpl; try congruence.
    - rewrite <- E8. by apply code_of_frame.
    - intros k'. rewrite state_of_setState. case_decide; [done|]. apply E7. }
  destruct (pv =? v) eqn:Hpv'; boolp.
  - apply (upd_refines _ (a_setStorage k v) _ o t); try done; [apply a_proper_setStorage|congruence|].
    etrans; [|done]. split; try done; simpl.
    + symmetry. by apply code_of_frame.
    + intros k'. rewrite state_of_setState. case_decide; [|done]. subst. by rewrite E7.
  - apply (upd_refines _ (a_setStorage k v) _ o t); try done; [apply a_proper_setStorage| |simpl; congruence].
    etrans; [apply journal_append_eq|done].
Qed.

Lemma CreateAccount_refines a s : wf s →
  astate_eq (abs (CreateAccount a s))
    (a_upd a (a_setBalance (a_balance (a_get a (abs s))) a_fresh) (abs s)).
Proof.
  intros W. unfold CreateAccount, createObject.
  pose proof (getStateObject_frame a s) as [F _]. pose proof (getStateObject_eq a s) as E.
  pose proof (lookup_obj_get a s) as Hla. unfold a_get. simpl.
  destruct (getStateObject a s) as [p t]. simpl in *. rewrite <- Hla.
  set (u := match p with Some q => journal_append (resetObjectChange q) t
                    | None => journal_append (createObjectChange a) t end).
  assert (Hu : db u = db t ∧ st_eq u s).
  { unfold u. destruct p as [p|];
    [pose proof (journal_append_fields (resetObjectChange p) t) as (?&?&?&_);
     pose proof (journal_append_eq (resetObjectChange p) t)
    |pose proof (journal_append_fields (createObjectChange a) t) as (?&?&?&_);
     pose proof (journal_append_eq (createObjectChange a) t)]; (split; [done|etrans; [eassumption|done]]). }
  destruct Hu as [Hdb Hu]. clearbody u.
  assert (Hn : ∀ b, aaccount_eq (abs_obj (db u) (so_setBalance b (so_setNonce 0 (newObject a Account_zero))))
                      (a_setBalance b a_fresh)).
  { intros b. pose proof (abs_obj_new (db u) a) as Hx. apply (a_proper_setBalance b) in Hx.
    etrans; [|exact Hx]. split; try done; simpl; [by apply code_of_frame|].
    intros k. by apply state_of_frame. }
  destruct p as [p|]; simpl.
  - rewrite setStateObject_twice by done. by apply abs_set_as.
  - apply abs_set_as; try done. apply (Hn 0).
Qed.
Lemma Suicide_refines a s : wf s →
  astate_eq (abs (Suicide a s).2)
    (match as_account (abs s) a with Some c => a_upd a (a_suicide c) (abs s) | None => abs s end).
Proof.
  intros W. unfold Suicide. pose proof (getStateObject_frame a s) as [F _].
  pose proof (getStateObject_eq a s) as E. pose proof (lookup_obj_get a s) as Hla. simpl.
  destruct (getStateObject a s) as [[o|] t] eqn:Hg; simpl in *; rewrite <- Hla; simpl; [|by apply abs_eq].
  symmetry in Hla. destruct (wf_lookup _ _ _ W Hla) as [Ha [Hd _]].
  set (e := suicideChange _ _ _). destruct (journal_append_fields e t) as (_ & _ & Hdb & _).
  apply abs_set_as; try done.
  - etrans; [apply journal_append_eq|done].
  - rewrite Hdb, (fr_db _ _ F). split; try done; simpl.
    + by apply code_of_frame.
    + intros k. by apply state_of_frame.
Qed.

(** The other values are updated beside the accounts. *)
Lemma abs_beside s s' rf lg pr :
  stateObjects s' = stateObjects s → trie s' = trie s → db s' = db s →
  refund s' = rf → (∀ h, default [] (logs s' !! h) = lg h) → preimages s' = pr →
  astate_eq (abs s') (mkAState (as_account (abs s)) rf lg pr).
Proof.
  intros H1 H2 H3 H4 H5 H6. split; simpl; try done. intros a.
  rewrite H3, (lookup_obj_ext s' s) by done. destruct (lookup_obj s a); by constructor.
Qed.
Lemma AddLog_refines l s :
  astate_eq (abs (AddLog l s)) (aexec (thash s) (txIndex s) (bhash s) (logSize s) (OpAddLog l) (abs s)).
Proof.
  apply abs_beside; try done. intros h. simpl. case_decide as Hh.
  - subst. by rewrite lookup_insert_eq.
  - by rewrite lookup_insert_ne.
Qed.
Lemma AddPreimage_refines h x s :
  astate_eq (abs (AddPreimage h x s)) (aexec (thash s) (txIndex s) (bhash s) (logSize s) (OpAddPreimage h x) (abs s)).
Proof.
  unfold AddPreimage. simpl. destruct (preimages s !! h); by apply abs_beside.
Qed.

(** The readers leave the state as it is. *)
Lemma extends_same s s' : extends s s' → entries s' = entries s → astate_eq (abs s') (abs s).
Proof.
  intros [_ (es & He & t & Ht & E) _ _] Hs. rewrite Hs in He.
  apply (f_equal length) in He. rewrite length_app in He. destruct es; [|simpl in He; lia].
  simpl in Ht. injection Ht as <-. by apply abs_eq.
Qed.
Lemma reader_entries x s s' : exec x s = Some s' →
  match x with
  | OpGetCode _ | OpGetCodeSize _ | OpGetState _ _ | OpGetCommittedState _ _ | OpGetObject _ => True
  | _ => False
  end → entries s' = entries s.
Proof.
  intros He Hx. destruct x; try done; simpl in He; injection He as <-;
    unfold GetCode, GetCodeSize, GetState, GetCommittedState;
    pose proof (getStateObject_frame a s) as [F _]; apply fr_entries in F;
    destruct (getStateObject a s) as [[o|] u]; try exact F.
  - by destruct (so_Code _ _).
  - destruct (code o); [exact F|]. destruct (ContractCodeSize _ _ _) as [? [er|]]; [|exact F].
    simpl. pose proof (setError_fields (Some (SEDB er)) u). simpl in F. destruct_and!. congruence.
  - by destruct (so_GetState _ _ _).
  - by destruct (so_GetCommittedState _ _ _).
Qed.

(** Every operation refines its abstract counterpart. *)
Lemma exec_refines_aux x s s' : is_revision_op x = false → wf s → exec x s = Some s' →
  astate_eq (abs s') (aexec (thash s) (txIndex s) (bhash s) (logSize s) x (abs s)).
Proof.
  intros Hx W He. pose proof (exec_extends _ _ _ Hx W He) as Hext.
  pose proof (reader_entries x s s' He) as Hrd.
  destruct x; try discriminate; simpl in He; try (injection He as <-);
    try (by apply extends_same; [|apply Hrd]).
  - by apply CreateAccount_refines.
  - by apply AddBalance_refines.
  - by apply SubBalance_refines.
  - unfold SetBalance. destruct (GetOrNewStateObject a s) as [o t] eqn:Hg.
    by apply (SetBalance_refines a (λ _, x)).
  - by apply SetNonce_refines.
  - by apply SetCode_refines.
  - by apply SetState_refines.
  - by apply Suicide_refines.
  - by apply abs_beside.
  - unfold SubRefund in He. destruct (_ <? _); [done|]. injection He as <-. by apply abs_beside.
  - apply AddLog_refines.
  - apply AddPreimage_refines.
Qed.

End Spec.
