(* ===== verification/StateVm.v ===== *)
(** * The state database keeps the virtual machine's contract

    [StateDB.v] satisfies [VMStateLaws]: the invariant is that of the
    journalled state, with balances, nonces, code and storage in range, every
    storage trie a map that the caches agree with, for objects at addresses
    of 20 bytes and slots of 32; what
    a snapshot gives back is equal to every reader.  The transfer functions
    of [core/evm.go] satisfy [EnvLaws]. *)

From S2P Require Import Prelude BigMath Params Rlp Interfaces Machine VmLaws.
From S2P Require Import StateDB CoreEvm StateEq StateRevert StateHistory StateSpec StateStorage StateFinalise.

(** ** Accounts in range *)

Record aacc_ok (c : aaccount) : Prop := {
  ao_balance : 0 ≤ a_balance c;
  ao_nonce : is_u64 (a_nonce c);
  ao_code : code_ok (a_code c);
  ao_storage : ∀ k, 0 ≤ a_storage c k;
}.
Record ast_ok (st : astate) : Prop := {
  as_accounts_ok : ∀ a c, is_addr a → as_account st a = Some c → aacc_ok c;
  as_refund_ok : 0 ≤ as_refund st;
}.

Lemma aacc_ok_eq c c' : aaccount_eq c c' → aacc_ok c → aacc_ok c'.
Proof.
  intros [E1 E2 E3 E4 E5 E6] [H1 H2 H3 H4]. split; [by rewrite <- E2|by rewrite <- E1|by rewrite <- E4|].
  intros. by rewrite <- E5.
Qed.
Lemma ast_ok_eq st st' : astate_eq st st' → ast_ok st → ast_ok st'.
Proof.
  intros [E Er _ _] [H Hr]. split; [|by rewrite <- Er].
  intros a c Ha Hc. specialize (E a). rewrite Hc in E. inversion E as [x y Hxy Hx|]; subst.
  eapply aacc_ok_eq; [done|]. by apply (H a).
Qed.
Lemma ast_ok_upd a c st : aacc_ok c → ast_ok st → ast_ok (a_upd a c st).
Proof. intros Hc [H Hr]. split; [|done]. intros b c' Hb. simpl. case_decide; [by intros [= <-]|by apply H]. Qed.

Section StateVm.
Context {D T : Type} {CR : Crypto} {TI : TrieI T} {DI : DatabaseI D T} {AC : AccountCodec}.
Context {TL : TrieLaws T} {DL : DatabaseLaws D T}.

Implicit Types (s : @StateDB D T).

Lemma aacc_ok_fresh : aacc_ok a_fresh.
Proof. split; simpl; [done|done|apply code_ok_nil|done]. Qed.
Lemma aacc_ok_get a st : is_addr a → ast_ok st → aacc_ok (a_get a st).
Proof. intros Ha [H _]. unfold a_get. destruct (as_account st a) eqn:E; simpl; [by eapply H|apply aacc_ok_fresh]. Qed.

Lemma EmptyStorageTrie_get (d : D) h k : TryGet k (EmptyStorageTrie (T:=T) d h) = ([], None).
Proof. by rewrite (TryGet_map _ _ _ (EmptyStorageTrie_map d h)). Qed.

Record state_inv s : Prop := {
  sv_inv : inv s;
  sv_range : ast_ok (abs s);
  sv_storage : StateStorage.sinv (A:=is_addr) (K:=is_hash) s;
  sv_trie : ∃ m, trie_map (trie s) m;
}.
Abbreviation in_use := (op_in_use (A:=is_addr) (K:=is_hash)).
Lemma storage_exec x s s' : state_inv s → in_use x → exec x s = Some s' →
  StateStorage.sinv (A:=is_addr) (K:=is_hash) s' ∧ ∃ m, trie_map (trie s') m.
Proof.
  intros [_ _ I Hm] Hx He. split; [|by rewrite (exec_trie _ _ _ He)].
  apply (run_sound [x] s); [by constructor|done|]. cbn [run]. by rewrite He.
Qed.

(** ** The operations of the virtual machine, as operations of histories *)

Lemma reads_exec s s' : reads s s' → ∃ x, exec x s = Some s' ∧ in_use x ∧
  match x with
  | OpGetCode _ | OpGetCodeSize _ | OpGetState _ _ | OpGetCommittedState _ _ | OpGetObject _ => True
  | _ => False
  end.
Proof.
  intros [a t ?|a t ?|a t ?|a t ?|a t ?|a k t ? ?|a k t ? ?|a t ?|a t ?|a t ?]; simpl;
    unfold GetBalance, GetNonce, GetCodeHash, HasSuicided, Exist, Empty;
    first [by exists (OpGetCode a)|by exists (OpGetCodeSize a)|by exists (OpGetState a k)
          |by exists (OpGetCommittedState a k)
          |exists (OpGetObject a); simpl; split_and!; [by destruct (getStateObject a t)|done..]].
Qed.
Lemma reads_eq s s' : inv s → reads s s' → st_eq s' s.
Proof.
  intros [W _] H. destruct (reads_exec _ _ H) as (x & He & _ & Hx).
  pose proof (reader_entries x s s' He Hx) as Hs.
  assert (Hext : extends s s') by (apply (exec_extends x); [by destruct x|done|done]).
  destruct Hext as [_ (es & Hes & t & Ht & E) _ _]. rewrite Hs in Hes.
  apply (f_equal length) in Hes. rewrite length_app in Hes. destruct es; [|simpl in Hes; lia].
  simpl in Ht. by injection Ht as <-.
Qed.

(** What the readers see is the account. *)
Lemma bal_abs a s : bal a s = a_balance (a_get a (abs s)).
Proof.
  unfold bal. simpl. unfold GetBalance, a_get. simpl. unfold lookup_obj.
  by destruct (getStateObject a s) as [[o|] t].
Qed.
Lemma nonce_abs a s : (GetNonce a s).1 = a_nonce (a_get a (abs s)).
Proof.
  unfold GetNonce, a_get. simpl. unfold lookup_obj. by destruct (getStateObject a s) as [[o|] t].
Qed.
Lemma suicided_abs a s : (HasSuicided a s).1 = a_suicided (a_get a (abs s)).
Proof.
  unfold HasSuicided, a_get. simpl. unfold lookup_obj. by destruct (getStateObject a s) as [[o|] t].
Qed.
Lemma code_abs a s : (GetCode a s).1 = a_code (a_get a (abs s)).
Proof.
  pose proof (fr_db _ _ (proj1 (getStateObject_frame a s))) as Hd.
  unfold GetCode, a_get. simpl. unfold lookup_obj. destruct (getStateObject a s) as [[o|] t]; [|done].
  simpl in *. rewrite Hd. unfold code_of. by destruct (so_Code (db s) o).
Qed.
Lemma state_abs a k s : (GetState a k s).1 = a_storage (a_get a (abs s)) k.
Proof.
  pose proof (fr_db _ _ (proj1 (getStateObject_frame a s))) as Hd.
  unfold GetState, a_get. simpl. unfold lookup_obj. destruct (getStateObject a s) as [[o|] t]; [|done].
  simpl in *. rewrite Hd. unfold state_of. by destruct (so_GetState (db s) k o).
Qed.
Lemma bal_eq a s s' : astate_eq (abs s) (abs s') → bal a s = bal a s'.
Proof. intros E. rewrite !bal_abs. apply a_get_proper with (a := a) in E. apply E. Qed.

(** The amounts, nonces and codes an operation takes. *)
Definition args_ok s (x : @op) : Prop :=
  match x with
  | OpSubBalance a v => v ≤ bal a s
  | OpAddBalance a v | OpSetBalance a v => 0 ≤ v
  | OpSetNonce a n => is_u64 n
  | OpSetCode a c => code_ok (default [] c)
  | OpSetState a k v => 0 ≤ v
  | _ => True
  end.
Lemma aexec_ok th ti bh n s s' x : in_use x → exec x s = Some s' → ast_ok (abs s) → args_ok s x →
  ast_ok (aexec th ti bh n x (abs s)).
Proof.
  intros Hu He H Hx.
  destruct x; try done; cbn [aexec args_ok] in *;
    try (apply ast_ok_upd; [|done]; assert (is_addr a) as Ha by (first [exact Hu|apply Hu]);
      destruct (aacc_ok_get a _ Ha H) as [G1 G2 G3 G4]; split; simpl; try done; try lia).
  - apply code_ok_nil.
  - rewrite bal_abs in Hx. lia.
  - intros k'. case_decide; auto.
  - destruct (as_account (abs s) a) as [c|] eqn:Hc; [|done]. apply ast_ok_upd; [|done].
    destruct (as_accounts_ok _ H a c Hu Hc). by split.
  - split; [apply H|apply u64_range].
  - split; [apply H|]. simpl in *. unfold SubRefund in He.
    destruct (journal_append_fields (refundChange (refund s)) s) as (_&_&_&_&_&_&E&_).
    rewrite E in He. destruct (Z.ltb_spec (refund s) g); [done|lia].
  - split; apply H.
  - split; apply H.
Qed.

(** Every operation is one of a history, with its arguments in range. *)
Lemma sop_exec s s' : sop s s' → ∃ x, exec x s = Some s' ∧ is_revision_op x = false ∧ in_use x ∧ args_ok s x.
Proof.
  intros H.
  destruct H as [t t' Hr|a t Ha|a v t Ha [_ Hv]|a v t Ha Hv|a n t Ha Hn|a c t Ha Hc|g t|g t t' Hs|a k v t Ha Hk Hv|a t Ha|l t|h p t].
  - destruct (reads_exec _ _ Hr) as (x & He & Hu & Hx). exists x. split_and!; [done|by destruct x|done|by destruct x].
  - by exists (OpCreateAccount a).
  - by exists (OpSubBalance a v).
  - by exists (OpAddBalance a v).
  - by exists (OpSetNonce a n).
  - by exists (OpSetCode a (Some c)).
  - by exists (OpAddRefund g).
  - by exists (OpSubRefund g).
  - exists (OpSetState a k v). split_and!; [done|done|by split_and!|apply Hv].
  - by exists (OpSuicide a).
  - by exists (OpAddLog l).
  - by exists (OpAddPreimage h p).
Qed.
Lemma state_inv_exec x s s' : state_inv s → is_revision_op x = false → in_use x → args_ok s x → exec x s = Some s' → state_inv s'.
Proof.
  intros SI Hr Hu Ha He. destruct (storage_exec x s s' SI Hu He).
  destruct SI as [I Hok _ _]. split; [by eapply exec_inv| |done|done].
  eapply ast_ok_eq; [|by apply (aexec_ok (thash s) (txIndex s) (bhash s) (logSize s) s s' x)]. symmetry.
  apply exec_refines_aux; [exact EmptyStorageTrie_get|done..|apply I|done].
Qed.
Lemma state_inv_sop s s' : state_inv s → sop s s' → state_inv s'.
Proof. intros SI Hs. destruct (sop_exec _ _ Hs) as (x & ? & ? & ? & ?). by apply (state_inv_exec x s). Qed.

(** ** Snapshots *)

Lemma lookup_obj_Snapshot s a : lookup_obj (StateDB.Snapshot s).2 a = lookup_obj s a.
Proof. by apply lookup_obj_ext. Qed.
Lemma abs_Snapshot s : astate_eq (abs (StateDB.Snapshot s).2) (abs s).
Proof. apply abs_eq. by apply (st_eq_other s s). Qed.
Lemma state_inv_Snapshot s : state_inv s → state_inv (StateDB.Snapshot s).2.
Proof.
  intros SI. destruct (storage_exec OpSnapshot s _ SI Logic.I eq_refl). destruct SI as [I Hok _ _].
  split; [by apply Snapshot_ok| |done|done]. eapply ast_ok_eq; [|exact Hok]. symmetry. apply abs_Snapshot.
Qed.
Lemma state_inv_revert id s0 s s' : state_inv s0 → state_inv s → RevertToSnapshot id s = Some s' → st_eq s' s0 → state_inv s'.
Proof.
  intros I0 SI Hr E. destruct (storage_exec (OpRevertToSnapshot id) s s' SI Logic.I Hr).
  split; [by eapply RevertToSnapshot_inv_ok; [apply SI|]| |done|done].
  eapply ast_ok_eq; [|apply I0]. symmetry. by apply abs_eq.
Qed.

(** A snapshot within a snapshot, taken back. *)
Lemma since_nested s0 id s i s' s'' : StateHistory.since s0 id s → StateHistory.since s i s' →
  RevertToSnapshot i s' = Some s'' → StateHistory.since s0 id s''.
Proof.
  intros H1 H2 Hr. pose proof (si_inv _ _ _ H1) as I. pose proof (si_inv _ _ _ H2) as I'.
  destruct (since_revert_to s i s' (proj1 I) H2) as (t & Ht & E & Hes & Hrv & _).
  rewrite Hr in Ht. injection Ht as <-.
  destruct H1 as [_ (es & He & u & Hu & Eu) Hv]. split.
  - by eapply RevertToSnapshot_inv_ok.
  - exists es. rewrite Hes. split; [done|].
    pose proof (revert_loop_proper es s s'' ltac:(by symmetry)) as Hp. rewrite Hu in Hp.
    inversion Hp as [y z Hyz|]; subst. eexists. split; [done|]. etrans; [|done]. by symmetry.
  - by rewrite Hrv.
Qed.

(** ** What a static call leaves

    Every account as it was, a missing one being like a fresh one; the refund
    and the logs too. *)
Record unchanged s s' : Prop := {
  un_account : ∀ a, aaccount_eq (a_get a (abs s)) (a_get a (abs s'));
  un_refund : as_refund (abs s) = as_refund (abs s');
  un_logs : ∀ h, as_logs (abs s) h = as_logs (abs s') h;
}.
#[export] Instance unchanged_preorder : PreOrder unchanged.
Proof.
  split; [by split|]. intros s1 s2 s3 [A1 R1 L1] [A2 R2 L2].
  split; intros; [by etrans; [apply A1|apply A2]|congruence|by rewrite L1].
Qed.
Lemma unchanged_eq s s' : astate_eq (abs s') (abs s) → unchanged s s'.
Proof.
  intros E. split; [intros a; symmetry; by apply a_get_proper|symmetry; apply E|intros; symmetry; apply E].
Qed.
Lemma unchanged_exec x s s' : inv s → exec x s = Some s' → is_revision_op x = false →
  (∀ th ti bh n, let st := aexec th ti bh n x (abs s) in
     (∀ a, aaccount_eq (a_get a (abs s)) (a_get a st)) ∧ as_refund (abs s) = as_refund st ∧
     ∀ h, as_logs (abs s) h = as_logs st h) → unchanged s s'.
Proof.
  intros [W _] He Hx Ha. destruct (Ha (thash s) (txIndex s) (bhash s) (logSize s)) as (A & R & L).
  pose proof (exec_refines_aux EmptyStorageTrie_get x s s' Hx W He) as E. split.
  - intros a. etrans; [apply A|]. symmetry. by apply a_get_proper.
  - rewrite R. symmetry. apply E.
  - intros h. rewrite L. symmetry. apply E.
Qed.
Lemma unchanged_accounts s s' : unchanged s s' → accounts_eq s' s.
Proof.
  intros [A R L]. split; intros; cbn [sGetBalance sGetNonce sGetCode sGetState sHasSuicided StateDB_VMState];
    [change (bal a s' = bal a s); rewrite !bal_abs|rewrite !nonce_abs|rewrite !code_abs
    |rewrite !state_abs|rewrite !suicided_abs|symmetry; apply R]; symmetry; apply A.
Qed.
(** Storing at [a] what [a] has already. *)
Lemma a_get_upd_id a x st b : aaccount_eq x (a_get a st) → aaccount_eq (a_get b st) (a_get b (a_upd a x st)).
Proof.
  intros E. unfold a_get at 2. simpl. case_decide; [subst; simpl; by symmetry|done].
Qed.
Lemma Exist_abs a s : (Exist a s).1 = false → as_account (abs s) a = None.
Proof.
  unfold Exist. simpl. unfold lookup_obj. by destruct (getStateObject a s) as [[o|] t].
Qed.
Lemma st_eq_readers_eq s s' : st_eq s' s → readers_eq s' s.
Proof.
  intros E. split; [split; intros|intros..];
    first [apply (st_eq_readers _ _ E a k)|apply (st_eq_readers _ _ E a 0)|apply (st_eq_readers _ _ E 0 0)].
Qed.

(** The account at [a] after an operation that refines an update. *)
Ltac account_of E a :=
  let H := fresh in pose proof E as H; apply a_get_proper with (a := a) in H;
  rewrite ?(ae_balance _ _ H), ?(ae_nonce _ _ H); unfold a_get; simpl; case_decide; by subst.

(** The laws of [VMStateLaws]. *)
Definition StateDB_laws : VMStateLaws (@StateDB D T).
Proof.
  refine {| VmLaws.sinv := state_inv; VmLaws.since := StateHistory.since; seq_ := st_eq; quiet := unchanged |}.
  - exact state_inv_sop.
  - exact state_inv_Snapshot.
  - intros s [I _ _ _]. by apply (since_Snapshot s).
  - intros s0 id s s' _ H Hs. destruct (sop_exec _ _ Hs) as (x & He & Hr & _).
    apply (since_exec _ _ x s); [done|by destruct x|done].
  - intros s0 id s H. by apply (since_exec _ _ OpSnapshot s).
  - exact since_nested.
  - intros s0 id s I0 I H. destruct (since_revert_to s0 id s (proj1 (sv_inv _ I0)) H) as (t & Ht & E & _).
    exists t. split_and!; [done|done|]. exact (state_inv_revert _ _ _ _ I0 I Ht E).
  - intros s s' [I _ _ _] H. by apply reads_eq.
  - exact st_eq_readers_eq.
  - exact unchanged_accounts.
  - intros s s' E. by apply unchanged_eq, abs_eq.
  - intros s _. apply unchanged_eq, abs_Snapshot.
  - intros h p s [I _ _ _]. by apply (unchanged_exec (OpAddPreimage h p)).
  - intros a s [I _ _ _] Hex%Exist_abs. apply (unchanged_exec (OpCreateAccount a)); [done|done|done|].
    intros. split_and!; try done. intros b. apply a_get_upd_id. unfold a_get. by rewrite Hex.
  - intros a s [I _ _ _]. apply (unchanged_exec (OpSubBalance a 0)); [done|done|done|].
    intros. split_and!; try done. intros b. apply a_get_upd_id. by split; simpl; try lia.
  - intros a s [I _ _ _]. apply (unchanged_exec (OpAddBalance a 0)); [done|done|done|].
    intros. split_and!; try done. intros b. apply a_get_upd_id. by split; simpl; try lia.
  - intros a s [_ H _ _] ?. rewrite bal_abs. by apply ao_balance, aacc_ok_get.
  - intros a s [_ H _ _] ?. simpl. rewrite nonce_abs. by apply ao_nonce, aacc_ok_get.
  - intros a s _. simpl. unfold GetCodeHash. destruct (getStateObject a s) as [[o|] t]; [|done].
    apply Z.mod_pos_bound. lia.
  - intros a s [_ H _ _] ?. simpl. rewrite code_abs. by apply ao_code, aacc_ok_get.
  - intros a k s [_ H _ _] ?. simpl. rewrite state_abs. by apply ao_storage, aacc_ok_get.
  - intros a s s' [I _ _ _] H. apply bal_eq, abs_eq. by apply reads_eq.
  - intros s [_ H _ _]. apply H.
  - intros a b s [[W R] _ _ _]. rewrite !bal_abs. cbn [sCreateAccount StateDB_VMState].
    account_of (CreateAccount_refines EmptyStorageTrie_get b s W) a.
  - intros a b n s [[W R] _ _ _]. rewrite !bal_abs. cbn [sSetNonce StateDB_VMState].
    account_of (SetNonce_refines EmptyStorageTrie_get b n s W) a.
  - intros a b v s [[W R] _ _ _]. rewrite !bal_abs. cbn [sSubBalance StateDB_VMState].
    account_of (SubBalance_refines EmptyStorageTrie_get b v s W) a.
  - intros a b v s [[W R] _ _ _]. rewrite !bal_abs. cbn [sAddBalance StateDB_VMState].
    account_of (AddBalance_refines EmptyStorageTrie_get b v s W) a.
  - intros a b v s [[W R] _ _ _]. cbn [sGetNonce sSubBalance StateDB_VMState]. rewrite !nonce_abs.
    account_of (SubBalance_refines EmptyStorageTrie_get b v s W) a.
  - intros a b v s [[W R] _ _ _]. cbn [sGetNonce sAddBalance StateDB_VMState]. rewrite !nonce_abs.
    account_of (AddBalance_refines EmptyStorageTrie_get b v s W) a.
  - intros a b n s [[W R] _ _ _]. cbn [sGetNonce sSetNonce StateDB_VMState]. rewrite !nonce_abs.
    account_of (SetNonce_refines EmptyStorageTrie_get b n s W) a.
  - intros a s _. apply bal_eq, abs_Snapshot.
Defined.

End StateVm.

(** ** The environment of a block

    [core/evm.go]'s transfer functions over any state with the laws. *)
Lemma core_env_laws {S} `{!VMState S} `{!VMStateLaws S} (env : Env S) :
  CanTransfer env = CanTransfer_ → Transfer env = Transfer_ →
  is_addr (Origin env) → 0 ≤ GasPrice env → is_addr (Coinbase env) → (∀ n, 0 ≤ GetHash env n) → EnvLaws env.
Proof.
  intros Hc Ht Ho Hp Hb Hh. split; try done; rewrite ?Hc, ?Ht; unfold CanTransfer_, Transfer_.
  - intros st s a v W Ha. destruct (sGetBalance a s) as [b s'] eqn:E. simpl.
    apply evolves_reads. replace s' with (sGetBalance a s).2 by by rewrite E. by constructor.
  - intros s a v W Ha. destruct (sGetBalance a s) as [b s'] eqn:E. simpl.
    apply seq_reads; [done|]. replace s' with (sGetBalance a s).2 by by rewrite E. by constructor.
  - intros s a v W Ha. destruct (sGetBalance a s) as [b s'] eqn:E. simpl. intros Hle%Z.leb_le.
    assert (Hr : reads s s') by (replace s' with (sGetBalance a s).2 by (by rewrite E); by constructor).
    rewrite (bal_reads _ _ _ W Hr). unfold bal. by rewrite E.
  - intros st s a b v W Ha Hb' Hv Hst.
    assert (Hsub : sop s (sSubBalance a v s)) by by apply so_sub.
    etrans; (apply evolves_sop; [first [exact Hsub|apply so_add; [done|lia]]|]);
      intros ->%Hst W'; [by apply quiet_sub|by apply quiet_add].
Qed.
