(* ===== verification/StateBlock.v ===== *)
(** * The state between transactions

    What readers see after [Finalise], and that the invariant the virtual
    machine relies on survives the end of a transaction and the operations of
    a block. *)

From S2P Require Import Prelude BigMath Rlp Interfaces Machine VmLaws.
From S2P Require Import StateDB StateEq StateRevert StateHistory StateSpec StateStorage StateFinalise StateVm.

(** The code hash of an account survives its encoding. *)
Class AccountCodecLaws `{!AccountCodec} : Prop :=
  decode_encode_codehash x y : codehash_ok x → decode_account (encode_account x) = Some y → codehash_ok y.

(** Accounts that read the same, on the slots in use. *)
Record same_reads (K : Z → Prop) (c c' : aaccount) : Prop := {
  sr_nonce : a_nonce c' = a_nonce c;
  sr_balance : a_balance c' = a_balance c;
  sr_codehash : a_codehash c' = a_codehash c;
  sr_code : a_code c' = a_code c;
  sr_storage : ∀ k, K k → a_storage c' k = a_storage c k;
  sr_suicided : a_suicided c' = a_suicided c;
}.
#[export] Instance same_reads_refl K : Reflexive (same_reads K).
Proof. by intros c. Qed.

Section Reads.
Context {D T : Type} {CR : Crypto} {TI : TrieI T} {DI : DatabaseI D T} {AC : AccountCodec}.
Context {TL : TrieLaws T} {DL : DatabaseLaws D T}.
Implicit Types (s : @StateDB D T) (o : @stateObject T).
(** The addresses and the slots in use. *)
Context {A K : Z → Prop}.

(** ** Storage in range *)

Lemma committed_value (d : D) (sm : bmap) o k : so_sound (K:=K) d sm o → (so_GetCommittedState d k o).1 = slot_value sm k.
Proof.
  intros S. unfold so_GetCommittedState. destruct (originStorage o !! k) as [v|] eqn:Ho.
  { by destruct (sd_origin _ _ _ S _ _ Ho) as [_ ->]. }
  pose proof (sd_trie _ _ _ S) as Ht. destruct (getTrie d o) as [t o'] eqn:E. cbn [fst] in Ht.
  rewrite (TryGet_map _ _ _ Ht). unfold slot_value. destruct (default [] _) as [|b enc]; [done|].
  by destruct (Split (b :: enc)) as [[[? content] ?]|er| |].
Qed.
Lemma GetState_value (d : D) (sm : bmap) o k : so_sound (K:=K) d sm o → (so_GetState d k o).1 = default (slot_value sm k) (dirtyStorage o !! k).
Proof. intros S. unfold so_GetState. destruct (dirtyStorage o !! k); [done|]. by apply committed_value. Qed.
Lemma state_of_range (d : D) o k : sound (K:=K) d o → is_hash (state_of d k o).
Proof.
  intros [sm S]. unfold state_of. rewrite (GetState_value _ _ _ _ S).
  destruct (dirtyStorage o !! k) as [v|] eqn:E; [by apply (sd_dirty _ _ _ S _ _ E)|apply slot_value_hash].
Qed.

(** ** The end of a transaction *)

(** The account that [Finalise] removes. *)
Definition removed (de : bool) s (a : Z) : bool :=
  match dirties s !! a, stateObjects s !! a with
  | Some _, Some o => gone de o
  | _, _ => false
  end.
Lemma flushed_reads (d : D) o o' sm : flushed (K:=K) d o o' sm → same_reads K (abs_obj d o) (abs_obj d o').
Proof.
  intros [S Hs Hc Hd [E1 E2 E3 E4 E5] _]. split; cbn [abs_obj a_nonce a_balance a_codehash a_code a_storage a_suicided];
    [by rewrite Hd..| | |done].
  - unfold code_of, so_Code. rewrite E3, E2, Hd. cbn [CodeHash set_Root].
    destruct (code o); [done|]. destruct (bool_decide _); [done|]. by destruct (ContractCode _ _ _) as [c [e|]].
  - intros k Hk. unfold state_of. rewrite (GetState_value _ _ _ _ S), Hc, lookup_empty. cbn [default]. by rewrite <- Hs.
Qed.
Lemma Finalise_object (KD : keys_distinct (T:=T) (A:=A) (K:=K)) de s m m' a : StateStorage.sinv (A:=A) (K:=K) s → trie_map (trie s) m →
  finalised (K:=K) de s (dirty_addrs s) m (Finalise de s) m' → A a →
  match lookup_obj s a with
  | None => lookup_obj (Finalise de s) a = None
  | Some o => if removed de s a then lookup_obj (Finalise de s) a = None
              else ∃ o', lookup_obj (Finalise de s) a = Some o' ∧ same_reads K (abs_obj (db s) o) (abs_obj (db s) o')
  end.
Proof.
  intros I Hm F Ha. set (s' := Finalise de s) in *. pose proof F as [G1 _ G3 G4 G5 G6 G7]. unfold removed.
  rewrite !lookup_obj_unfold. destruct (stateObjects s !! a) as [o|] eqn:Ho.
  2:{ rewrite (G6 a Ho), (trie_obj_unchanged s s' m m'); [|done|done|].
      - destruct (trie_obj s a) as [o|]; [|done]. destruct (dirties s !! a); by eexists.
      - apply (finalised_same KD de s s'); auto. }
  destruct (decide (a ∈ dirty_addrs s)) as [Hd|Hd].
  - destruct (G4 a o Hd Ho) as (o' & Ho' & Hs). rewrite Ho'. apply elem_of_dirty_addrs in Hd as [n Hn]. rewrite Hn.
    destruct (deleted o) eqn:Hdel.
    { destruct (si_dead _ I a o Ho Hdel) as (_ & Hx & _). congruence. }
    unfold settled in Hs. destruct (gone de o); [by destruct Hs as [-> _]|]. destruct Hs as (sm & Hf & _).
    rewrite (sa_deleted _ _ (fl_account _ _ _ _ Hf)), Hdel. exists o'. split; [done|]. by eapply flushed_reads.
  - rewrite (G5 a Hd), Ho. destruct (deleted o); [done|]. destruct (dirties s !! a) as [n|] eqn:Hn; [|by exists o].
    exfalso. apply Hd, elem_of_dirty_addrs. by exists n.
Qed.
(** What [Finalise] keeps besides the accounts. *)
Definition same_logs s s' : Prop :=
  logs s' = logs s ∧ preimages s' = preimages s ∧ thash s' = thash s ∧ bhash s' = bhash s ∧ txIndex s' = txIndex s ∧ logSize s' = logSize s.
#[local] Instance same_logs_preorder : PreOrder same_logs.
Proof.
  split; [by intros s|]. intros s1 s2 s3 (?&?&?&?&?&?) (?&?&?&?&?&?). split_and!; congruence.
Qed.
Lemma setError_logs (e : option staterror) s : same_logs s (setError e s).
Proof. unfold setError. by destruct (dbErr s). Qed.
Lemma updateStateObject_logs o s : same_logs s (updateStateObject o s).
Proof.
  unfold updateStateObject. destruct (TryUpdate _ _ _) as [t e].
  destruct (setError_logs (SEDB <$> e) (set_trie t s)) as (?&?&?&?&?&?). by split_and!.
Qed.
Lemma deleteStateObject_logs o s : same_logs s (deleteStateObject o s).
Proof.
  unfold deleteStateObject. destruct (TryDelete _ _) as [t e].
  edestruct (setError_logs (SEDB <$> e) (set_trie t (setStateObject (set_deleted true o) s))) as (?&?&?&?&?&?). by split_and!.
Qed.
Lemma Finalise_logs de s : same_logs s (Finalise de s).
Proof.
  unfold Finalise. set (l := fold_right _ s _). enough (H : same_logs s l) by exact H. subst l.
  induction (map_to_list (dirties s)).*1 as [|a l IH]; [done|]. cbn [fold_right]. set (t := fold_right _ s l) in *.
  unfold Finalise_addr. destruct (stateObjects t !! a) as [o|]; [|done].
  assert (H : ∀ u, same_logs t u → same_logs s (set_stateObjectsDirty (stateObjectsDirty u ∪ {[a]}) u)).
  { intros u Hu. etrans; [exact IH|]. by etrans; [exact Hu|]. }
  apply H. destruct (_ || _); [apply deleteStateObject_logs|].
  etrans; [|apply updateStateObject_logs]. done.
Qed.


Lemma as_account_abs s a : as_account (abs s) a = abs_obj (db s) <$> lookup_obj s a.
Proof. done. Qed.
(** What [Finalise] does to the accounts that readers see. *)
Record finalises (de : bool) s s' : Prop := {
  fs_account : ∀ a, A a →
    match as_account (abs s) a with
    | None => as_account (abs s') a = None
    | Some c => if removed de s a then as_account (abs s') a = None
                else ∃ c', as_account (abs s') a = Some c' ∧ same_reads K c c'
    end;
  fs_refund : as_refund (abs s') = 0;
  fs_logs : same_logs s s';
}.
Lemma Finalise_reads (KD : keys_distinct (T:=T) (A:=A) (K:=K)) de s m : StateStorage.sinv (A:=A) (K:=K) s → trie_map (trie s) m →
  StateStorage.sinv (A:=A) (K:=K) (Finalise de s) ∧ (∃ m', trie_map (trie (Finalise de s)) m' ∧ finalised (K:=K) de s (dirty_addrs s) m (Finalise de s) m') ∧
  finalises de s (Finalise de s).
Proof.
  intros I Hm. destruct (Finalise_spec KD de s m I Hm) as (m' & F & I'). split; [done|]. split; [by exists m'; split; [apply F|]|].
  split; [|done|apply Finalise_logs]. intros a Ha. rewrite !as_account_abs. pose proof (Finalise_object KD de s m m' a I Hm F Ha) as Ho.
  rewrite (fi_db _ _ _ _ _ _ F). destruct (lookup_obj s a) as [o|]; cbn [fmap option_fmap option_map]; [|by rewrite Ho].
  destruct (removed de s a); [by rewrite Ho|]. destruct Ho as (o' & -> & Hr). by eexists.
Qed.
End Reads.

Section StateBlock.
Context {D T : Type} {CR : Crypto} {TI : TrieI T} {DI : DatabaseI D T} {AC : AccountCodec}.
Context {TL : TrieLaws T} {DL : DatabaseLaws D T} {AL : AccountCodecLaws}.
Context (KD : keys_distinct (T:=T) (A:=is_addr) (K:=is_hash)).
Implicit Types (s : @StateDB D T) (o : @stateObject T).

(** ** The invariant *)

Lemma addr_bytes_mod a : addr_bytes (a mod 2 ^ 160) = addr_bytes a.
Proof.
  unfold addr_bytes. change (2 ^ 160) with (256 ^ Z.of_nat 20). by rewrite be_bytes_mod.
Qed.
Lemma addr_key_mod a : is_addr (a mod 2 ^ 160) ∧ addr_key (T:=T) (a mod 2 ^ 160) = addr_key a.
Proof. split; [by apply Z.mod_pos_bound|]. unfold addr_key. by rewrite addr_bytes_mod. Qed.
Lemma Finalise_codehash de s m m' a o : inv s → StateStorage.sinv (A:=is_addr) (K:=is_hash) s → trie_map (trie s) m →
  finalised (K:=is_hash) de s (dirty_addrs s) m (Finalise de s) m' → trie_obj (Finalise de s) a = Some o → codehash_ok (data o).
Proof.
  intros [[[W1 W2] _ _] _] I Hm F. destruct (addr_key_mod a) as [Ab Ek]. set (b := a mod 2 ^ 160) in *.
  assert (Hsame : b ∉ dirty_addrs s ∨ stateObjects s !! b = None → trie_obj (Finalise de s) a = Some o → codehash_ok (data o)).
  { intros Hb. rewrite (trie_obj_unchanged s _ m m'); [apply W1|done|apply F|]. rewrite <- Ek. by apply (finalised_same KD de s (Finalise de s)). }
  destruct (stateObjects s !! b) as [x|] eqn:Hx; [|auto]. destruct (decide (b ∈ dirty_addrs s)) as [Hd|Hd]; [|auto].
  clear Hsame. destruct (fi_dirty _ _ _ _ _ _ F b x Hd Hx) as (x' & _ & Hs).
  rewrite (trie_obj_map _ m') by apply F. rewrite <- Ek. unfold settled in Hs. destruct (gone de x); [by destruct Hs as [_ ->]|].
  destruct Hs as (sm & Hf & ->). cbn [from_option id]. destruct (encode_account _) as [|y enc] eqn:E; [done|].
  destruct (decode_account (y :: enc)) as [z|] eqn:Edec; cbn [fmap option_fmap option_map]; [intros [= <-]|done]. cbn [data newObject].
  rewrite <- E in Edec. eapply decode_encode_codehash, Edec.
  specialize (W2 b x Hx). cbv beta in W2. destruct (deleted x) eqn:Hdel; [|by destruct W2].
  destruct (si_dead _ I b x Hx Hdel) as (_ & Hn & _). apply elem_of_dirty_addrs in Hd as [n Hd]. congruence.
Qed.
Lemma Finalise_wf de s m m' : inv s → StateStorage.sinv (A:=is_addr) (K:=is_hash) s → StateStorage.sinv (A:=is_addr) (K:=is_hash) (Finalise de s) →
  trie_map (trie s) m → finalised (K:=is_hash) de s (dirty_addrs s) m (Finalise de s) m' → inv (Finalise de s).
Proof.
  intros W I I' Hm F. split; [|by split].
  split; [|by constructor|by split].
  split; [intros a o; by apply (Finalise_codehash de s m m')|].
  intros a o' Ho'. destruct (deleted o') eqn:Hdel; [by apply (si_dead _ I' a o' Ho')|].
  destruct (finalised_cases _ _ _ _ _ _ _ F Ho') as (o & Ho & Hc). pose proof W as [[[_ W2] _ _] _]. specialize (W2 a o Ho). cbv beta in W2.
  destruct Hc as [[_ ->]|[_ Hs]]; [by rewrite Hdel in W2|].
  unfold settled in Hs. destruct (gone de o); [by destruct Hs as [-> _]|]. destruct Hs as (sm & Hf & _).
  rewrite <- (sa_deleted _ _ (fl_account _ _ _ _ Hf)), Hdel in W2.
  rewrite (sa_address _ _ (fl_account _ _ _ _ Hf)), (fl_data _ _ _ _ Hf). exact W2.
Qed.
Lemma aacc_ok_reads (d : D) c o : sound (K:=is_hash) d o → aacc_ok c → same_reads is_hash c (abs_obj d o) → aacc_ok (abs_obj d o).
Proof.
  intros S [H1 H2 H3 H4] [E1 E2 E3 E4 E5 E6]. split; [by rewrite E2|by rewrite E1|by rewrite E4|].
  intros k. apply (state_of_range d o k S).
Qed.
Lemma lookup_sound s a o : StateStorage.sinv (A:=is_addr) (K:=is_hash) s → is_addr a → lookup_obj s a = Some o → sound (K:=is_hash) (db s) o.
Proof.
  intros I Ha. unfold lookup_obj. destruct (get_sound a s Ha I) as (_ & _ & H). destruct (getStateObject a s) as [[x|] t]; [|done].
  cbn in *. intros [= <-]. apply H.
Qed.

Lemma Finalise_ok de s : state_inv s → state_inv (Finalise de s) ∧ finalises (A:=is_addr) (K:=is_hash) de s (Finalise de s).
Proof.
  intros [W Hok I [m Hm]]. destruct (Finalise_reads KD de s m I Hm) as (I' & (m' & Hm' & F) & HF).
  split; [|done]. split; [by eapply Finalise_wf| |done|by exists m'; apply F].
  split; [|cbn; lia]. intros a c Ha Hc. pose proof (fs_account _ _ _ HF a Ha) as Hacc.
  destruct (as_account (abs s) a) as [c0|] eqn:E0; [|congruence]. destruct (removed de s a); [congruence|].
  destruct Hacc as (c' & Ec & Hr). rewrite Hc in Ec. injection Ec as <-.
  rewrite as_account_abs in Hc. destruct (lookup_obj (Finalise de s) a) as [o|] eqn:El; [|done]. injection Hc as <-.
  apply (aacc_ok_reads _ c0); [by apply (lookup_sound (Finalise de s) a)|by apply (as_accounts_ok _ Hok a)|done].
Qed.
Lemma IntermediateRoot_ok de s : state_inv s → state_inv (IntermediateRoot de s).2.
Proof. intros H. by apply Finalise_ok. Qed.
(** A second call finds nothing dirty. *)
Lemma IntermediateRoot_again de s : (IntermediateRoot de (IntermediateRoot de s).2).1 = (IntermediateRoot de s).1.
Proof.
  unfold IntermediateRoot. cbn [fst snd]. unfold Finalise at 1.
  assert (E : dirties (Finalise de s) = ∅) by done. rewrite E, map_to_list_empty. done.
Qed.
Lemma Prepare_ok th bh ti s : state_inv s → state_inv (Prepare th bh ti s).
Proof.
  intros [W Hok I Hm]. split; [| | |done].
  - destruct W as [[[W1 W1b] W2 [W3 W4 W5]] [R1 R2 R3 R4]]. split; [split; [by split|done|by split]|by split].
  - split; [|apply Hok]. intros a c Ha. rewrite as_account_abs, (lookup_obj_ext _ s) by done. by apply Hok.
  - by apply (sinv_ext s).
Qed.
End StateBlock.
