(* ===== verification/BlockLaws.v ===== *)
(** * Laws of block processing

    A transaction of a block ends, accounts for its gas and keeps the state's
    invariant; so do a block of them, the rewards, and the assembly of a block
    by the worker. *)

From S2P Require Import Prelude BigMath Params Analysis Memory Rlp RlpStream RlpTyped Interfaces Heap Machine Gas Instructions JumpTable Precompiles Evm.
From S2P Require Import Trie TrieSpec Header StateTransition Transaction TxLaws Receipt ReceiptLaws Block BlockCodec Ethash EthashLaws.
From S2P Require Import VmLaws VmLoop TransitionLaws.
From S2P Require Import StateDB CoreEvm StateEq StateRevert StateHistory StateSpec StateStorage StateFinalise StateVm StateBlock.
From S2P Require Import BlockProcessor.

(** ** Senders *)

Section Senders.
Context {CRY : Crypto} {PCR : PrecompileCrypto}.

Lemma recoverPlain_cases h R S V hs :
  match recoverPlain h R S V hs with Ok a => is_addr a | Err _ => True | Panic | OutOfFuel => False end.
Proof.
  unfold recoverPlain. destruct (_ <? _); [done|]. destruct (negb _); [done|]. destruct (Ecrecover _ _) as [pub|]; [|done].
  destruct (match pub with [] => _ | _ => _ end); [done|]. apply BytesToAddress_range.
Qed.
Lemma Signer_Sender_cases s tx :
  match Signer_Sender s tx with Ok a => is_addr a | Err _ => True | Panic | OutOfFuel => False end.
Proof.
  destruct s as [| |c cm]; cbn [Signer_Sender]; try apply recoverPlain_cases.
  destruct (negb _); [apply recoverPlain_cases|]. destruct (negb _); [done|]. apply recoverPlain_cases.
Qed.
Definition config_ok (config : ChainConfig) : Prop := 0 ≤ default 0 (ChainID config).
Lemma MakeSigner_ok config n : config_ok config → signer_ok (MakeSigner config n).
Proof. intros H. unfold MakeSigner. destruct (IsEIP155 _ _); [done|]. by destruct (IsHomestead _ _). Qed.

(** A transaction in range, whose cached sender is right. *)
Record tx_ok (tx : Transaction) : Prop := {
  xk_data : txdata_ok (tx_data tx);
  xk_payload : code_ok (Payload (tx_data tx));
  xk_cache : cache_ok tx;
}.
Lemma AsMessage_ok s tx : tx_ok tx → signer_ok s →
  match AsMessage s tx with
  | Ok msg => is_addr (msg_From msg) ∧ Signer_Sender s tx = Ok (msg_From msg) ∧
      let d := tx_data tx in msg = mkMessage (msg_From msg) (Recipient d) (Price d) (TxGasLimit d) (Amount d) (AccountNonce d) true (Payload d)
  | Err _ => True
  | Panic | OutOfFuel => False
  end.
Proof.
  intros [_ _ Hc] Hs. unfold AsMessage. destruct (Sender_ok s tx Hc Hs) as (E & _ & _). rewrite E.
  pose proof (Signer_Sender_cases s tx) as H. by destruct (Signer_Sender s tx).
Qed.
Lemma tx_message_wf tx n f : tx_ok tx → is_addr f → TxGasLimit (tx_data tx) < n → TxGasLimit (tx_data tx) < 2 ^ 62 →
  let d := tx_data tx in wf_msg (mkMessage f (Recipient d) (Price d) (TxGasLimit d) (Amount d) (AccountNonce d) true (Payload d)) n.
Proof.
  intros [[K1 K2 K3 K4 K5 K6 K7 K8 K9] Hp _] Hf Hn Hg. split; unfold to; cbn [msg_From msg_To msg_GasPrice msg_Gas msg_Value msg_Nonce msg_Data]; try done.
  - destruct (Recipient (tx_data tx)); [done|]. by split.
  - unfold is_u64 in K3. lia.
Qed.
End Senders.

(** ** The hashes of ancestors *)

Section Ancestors.
Variable chain : ChainContext.
Variable ref : Header.
(** The ancestor of [ref], some generations up. *)
Fixpoint forebear (k : nat) : option Header :=
  match k with
  | O => Some ref
  | S k => h ← forebear k; cc_GetHeader chain (h_ParentHash h) (h_Number h - 1)
  end.
(** Headers are found under their numbers. *)
Definition numbered : Prop := is_u64 (h_Number ref) ∧ ∀ h n hd, cc_GetHeader chain h n = Some hd → h_Number hd = n.
Lemma forebear_number k h : numbered → forebear k = Some h → h_Number h = h_Number ref - Z.of_nat k.
Proof.
  intros [_ Hn]. revert h. induction k as [|k IH]; intros h; cbn [forebear]; [intros [= <-]; lia|].
  destruct (forebear k) as [x|] eqn:E; [|done]. cbn. intros ->%Hn. rewrite (IH x eq_refl). lia.
Qed.
Lemma forebear_down k h : forebear (S k) = Some h → is_Some (forebear k).
Proof. cbn [forebear]. destruct (forebear k); [by eexists|done]. Qed.
Lemma forebear_le j k h : (j ≤ k)%nat → forebear k = Some h → is_Some (forebear j).
Proof.
  intros Hle. revert h. induction Hle as [|k _ IH]; intros h Hk; [by eexists|].
  apply forebear_down in Hk as [x Hx]. by eapply IH.
Qed.
(** A cache that holds hashes of ancestors under their numbers, that of the
    parent among them. *)
Definition cache_valid (cache : gmap Z Z) : Prop :=
  is_Some (cache !! (h_Number ref - 1)) ∧
  map_Forall (λ n hash, ∃ k h, forebear k = Some h ∧ n = h_Number ref - 1 - Z.of_nat k ∧ hash = h_ParentHash h) cache.
Lemma hash_walk_ok fuel : ∀ j k h hj cache, numbered → forebear k = Some h → forebear j = Some hj → (j < k)%nat → (k - j ≤ fuel)%nat →
  Z.of_nat k < h_Number ref → cache_valid cache →
  ∃ cache', hash_walk fuel chain (h_ParentHash hj) (h_Number hj - 1) (h_Number ref - 1 - Z.of_nat k) cache = Some (h_ParentHash h, cache') ∧
    cache_valid cache'.
Proof.
  induction fuel as [|fuel IH]; intros j k h hj cache Hn Hk Hj Hjk Hf Hk0 Hc; [lia|]. cbn [hash_walk].
  destruct (forebear_le (S j) k h ltac:(lia) Hk) as [hd Hd]. pose proof (forebear_number _ _ Hn Hd) as En. pose proof (proj1 Hn) as Hu. unfold is_u64 in Hu.
  pose proof Hd as Hget. cbn [forebear] in Hget. rewrite Hj in Hget. cbn in Hget. rewrite Hget.
  rewrite Big.Uint64_id by (unfold is_u64; lia). rewrite u64_id by (unfold is_u64; lia).
  assert (Hc' : cache_valid (<[h_Number hd - 1 := h_ParentHash hd]> cache)).
  { destruct Hc as [Hp Hc]. split; [by apply lookup_insert_is_Some'; right|].
    apply map_Forall_insert_2; [|done]. exists (S j), hd. split_and!; [done|lia|done]. }
  destruct (Z.eqb_spec (h_Number ref - 1 - Z.of_nat k) (h_Number hd - 1)) as [E|Hne].
  - assert (k = S j) as -> by lia. rewrite Hk in Hd. injection Hd as <-. by eexists.
  - apply (IH (S j)); try done; lia.
Qed.
Lemma GetHashFn_ok fuel k h cache : numbered → forebear k = Some h → Z.of_nat k < h_Number ref → (k ≤ fuel)%nat →
  (∀ c, cache = Some c → cache_valid c) →
  ∃ cache', GetHashFn fuel ref chain cache (h_Number ref - 1 - Z.of_nat k) = Some (h_ParentHash h, cache') ∧ cache_valid cache'.
Proof.
  intros Hn Hk Hlt Hf Hc. unfold GetHashFn. pose proof (proj1 Hn) as Hu. unfold is_u64 in Hu.
  rewrite Big.Uint64_id by (unfold is_u64; lia). rewrite u64_id by (unfold is_u64; lia).
  set (c := default _ cache). assert (Hv : cache_valid c).
  { unfold c. destruct cache; [by apply Hc|]. split; [cbn; by rewrite lookup_singleton_eq|].
    apply map_Forall_singleton. exists 0%nat, ref. split_and!; [done|cbn; lia|done]. }
  destruct (c !! _) as [hash|] eqn:E.
  - destruct (proj2 Hv _ _ E) as (k' & h' & Hk' & En & ->). assert (k' = k) as -> by lia. rewrite Hk in Hk'. injection Hk' as <-. by eexists.
  - destruct k as [|k].
    + destruct Hv as [[x Hx] _]. rewrite Z.sub_0_r in E. by rewrite Hx in E.
    + apply (hash_walk_ok fuel 0 (S k) h ref); [done|done|done|lia|lia|done|done].
Qed.
End Ancestors.

Section Laws.
Context {D T : Type} {CRY : Crypto} {PCR : PrecompileCrypto} {PL : PrecompileLaws} {TI : TrieI T} {DI : DatabaseI D T} {AC : AccountCodec}.
Context {TL : TrieLaws T} {DL : DatabaseLaws D T} {AL : AccountCodecLaws}.
Context (KD : keys_distinct (T:=T) (A:=is_addr) (K:=is_hash)).
Implicit Types (s : @StateDB D T).
#[local] Existing Instance StateDB_laws.

(** ** The context of a block *)

Record context_ok (bc : ChainContext) (header : Header) (author : option Z) : Prop := {
  ct_author : is_addr (match author with None => Author bc header | Some a => a end);
  ct_parent : is_hash (h_ParentHash header);
  ct_chain : ∀ h n hd, cc_GetHeader bc h n = Some hd → is_hash (h_ParentHash hd);
}.
Lemma hash_walk_range bc : (∀ h n hd, cc_GetHeader bc h n = Some hd → is_hash (h_ParentHash hd)) →
  ∀ fuel hash number n cache r, hash_walk fuel bc hash number n cache = Some r → is_hash r.1.
Proof.
  intros H. induction fuel as [|fuel IH]; intros hash number n cache r; [done|]. cbn [hash_walk].
  destruct (cc_GetHeader bc hash number) as [hd|] eqn:E; [|by intros [= <-]].
  destruct (_ =? _); [intros [= <-]; by eapply H|apply IH].
Qed.
Lemma GetHash_of_range bc header author n : context_ok bc header author → is_hash (GetHash_of header bc n).
Proof.
  intros [_ Hp Hc]. unfold GetHash_of, GetHashFn. cbn [default]. destruct (_ !! n) as [h|] eqn:E.
  { by apply lookup_singleton_Some in E as [_ <-]. }
  destruct (hash_walk _ _ _ _ _ _) as [[h c]|] eqn:Ew; [|done]. by apply (hash_walk_range _ Hc _ _ _ _ _ _ Ew).
Qed.
Lemma NewEVMContext_laws config msg header bc author : context_ok bc header author → is_addr (msg_From msg) → 0 ≤ msg_GasPrice msg →
  EnvLaws (S:=@StateDB D T) (NewEVMContext config msg header bc author).
Proof.
  intros Hc Hf Hp. apply core_env_laws; [done|done|done|done|apply Hc|]. intros n.
  destruct (GetHash_of_range bc header author n Hc) as [? _]. done.
Qed.

(** ** A transaction *)

(** The outcome of a transaction that is part of the block. *)
Record applied (p : GasPool) (tx : Transaction) (usedGas : Z) (r : Receipt) (gas : Z) (p' : GasPool) (used' : Z) s' : Prop := {
  ap_inv : state_inv s';
  ap_gas : 0 < gas ≤ TxGasLimit (tx_data tx);
  ap_pool : p' = p - gas;
  ap_left : 0 ≤ p';
  ap_used : used' = u64 (usedGas + gas);
  ap_receipt : rc_TxHash r = Transaction_Hash tx ∧ GasUsed r = gas ∧ CumulativeGasUsed r = used' ∧
    Logs r = GetLogs (Transaction_Hash tx) s' ∧ CreateBloom [r] = Some (Bloom r);
  ap_clean : entries s' = [] ∧ dirties s' = ∅ ∧ validRevisions s' = [] ∧ refund s' = 0;
}.
(** One that is not leaves the state as it was for the checks that precede the
    purchase of gas, and can be taken back otherwise. *)
Definition refused (p : GasPool) s (tx : Transaction) (e : blockerror) (p' : GasPool) s' : Prop :=
  evolves false s s' ∧
  (p' = p ∧ st_eq s' s ∨ (∃ x, e = BTx (VMError x)) ∧ p' = p - TxGasLimit (tx_data tx) ∧ 0 ≤ p').
Lemma intrinsic_pos data c h : 0 < intrinsic data c h.
Proof. unfold intrinsic, TxGasContractCreation, TxGas, TxDataNonZeroGas, TxDataZeroGas. destruct (c && h); lia. Qed.
Lemma end_of_tx (b : bool) e s root s' : state_inv s →
  (if b then ([], Finalise true s) else let '(r, s) := IntermediateRoot e s in (hash_bytes r, s)) = (root, s') →
  state_inv s' ∧ entries s' = [] ∧ dirties s' = ∅ ∧ validRevisions s' = [] ∧ refund s' = 0.
Proof.
  intros I. destruct b; cbn; intros [= _ <-]; (split; [by apply (Finalise_ok KD)|done]).
Qed.
Lemma ApplyTransaction_ok fuel config bc author p s header tx usedGas :
  context_ok bc header author → config_ok config → tx_ok tx → state_inv s → 0 ≤ p < Z.of_nat fuel → p < 2 ^ 62 →
  match ApplyTransaction fuel config bc author p s header tx usedGas with
  | BOk (r, gas, p', used', s') => applied p tx usedGas r gas p' used' s'
  | BErr e p' s' => refused p s tx e p' s'
  | BPanic (BPTx (TPVM w)) => okc w
  | BPanic BPEwasm => IsEWASM config (h_Number header) = true
  | BPanic _ | BNoFuel => False
  end.
Proof.
  intros Hc Hcf Htx I Hp H62. unfold ApplyTransaction.
  pose proof (AsMessage_ok (MakeSigner config (h_Number header)) tx Htx (MakeSigner_ok _ _ Hcf)) as Hm.
  destruct (AsMessage _ tx) as [msg|e| |]; [|split; [done|by left]|done|done].
  destruct Hm as (Hf & _ & Emsg). cbv zeta in Emsg. pose proof (xk_data _ Htx) as Hd.
  assert (Hprice : 0 ≤ msg_GasPrice msg) by (rewrite Emsg; apply Hd).
  assert (Hgas : msg_Gas msg = TxGasLimit (tx_data tx)) by (by rewrite Emsg).
  set (env := NewEVMContext config msg header bc author). pose proof (NewEVMContext_laws config msg header bc author Hc Hf Hprice) as EL. fold env in EL.
  unfold NewEVM. change (IsEWASM (chainConfig env) (BlockNumber env)) with (IsEWASM config (h_Number header)).
  destruct (IsEWASM config (h_Number header)) eqn:Ew; [done|].
  assert (W : wf_evm (mkEvmst s 0 0 false [] ∅)) by (split; [exact I|by split|apply is_bytes_nil]).
  pose proof (ApplyMessage_any env fuel msg (mkEvmst s 0 0 false [] ∅) p Hf) as HA. rewrite Hgas in HA.
  specialize (HA (tk_gas _ Hd)). specialize (HA ltac:(intros Hle; rewrite Emsg; apply tx_message_wf; [done|done|lia|lia]) W ltac:(unfold is_u64; lia)).
  destruct (ApplyMessage _ _ _ _ _) as [[[out gas] failed] st|e st|[w|]|]; [|by destruct HA as [[(H1 & H2 & H3) _]|(Hle & H1 & H2 & e' & ->)]; (split; [done|]); [left|right; rewrite <- Hgas; split_and!; [by eexists|done|lia]]|done|done|done].
  destruct HA as [H1 H2 H3 [H4 H5] H6 H7 _]. cbn [fst snd] in *.
  pose proof (intrinsic_pos (msg_Data msg) (creation msg) (IsHomestead (chainConfig env) (BlockNumber env))) as Hpos. fold (intrinsic_of env msg) in Hpos.
  destruct (if IsByzantium config (h_Number header) then _ else _) as [root s'] eqn:Eend.
  destruct (end_of_tx _ _ _ _ _ (wv_state _ H1) Eend) as (I' & Hclean).
  match goal with |- context [CreateBloom [?r]] => destruct (CreateBloom_ok [r]) as (bloom & Eb & _ & _ & _) end. rewrite Eb.
  split; [done|lia|done|lia|done| |done]. split_and!; done.
Qed.

(** ** The transactions of a block *)

(** The receipts of the transactions, from the gas [used] before them on. *)
Fixpoint accounted (used : Z) (txs : list Transaction) (rs : list Receipt) : Prop :=
  match txs, rs with
  | [], [] => True
  | tx :: txs, r :: rs =>
      rc_TxHash r = Transaction_Hash tx ∧ 0 < GasUsed r ≤ TxGasLimit (tx_data tx) ∧ CumulativeGasUsed r = used + GasUsed r ∧
      CreateBloom [r] = Some (Bloom r) ∧ accounted (used + GasUsed r) txs rs
  | _, _ => False
  end.
Definition gas_of (rs : list Receipt) : Z := foldr (λ r n, GasUsed r + n) 0 rs.
Lemma accounted_app used txs rs tx r : accounted used txs rs → rc_TxHash r = Transaction_Hash tx → 0 < GasUsed r ≤ TxGasLimit (tx_data tx) →
  CumulativeGasUsed r = used + gas_of rs + GasUsed r → CreateBloom [r] = Some (Bloom r) → accounted used (txs ++ [tx]) (rs ++ [r]).
Proof.
  revert used rs. induction txs as [|t txs IH]; intros used [|x rs]; cbn [accounted app gas_of foldr]; [|done|done|].
  - intros _ ? ? Hc ?. rewrite Z.add_0_r in Hc. split_and!; try done; lia.
  - intros (?&?&?&?&Ha) ? ? Hc ?. split_and!; try done; try lia. apply IH; try done. unfold gas_of in *. lia.
Qed.
Lemma gas_of_app rs r : gas_of (rs ++ [r]) = gas_of rs + GasUsed r.
Proof. induction rs as [|x rs IH]; cbn [app gas_of foldr] in *; [lia|]. unfold gas_of in *. lia. Qed.
Lemma accounted_gas used txs rs : accounted used txs rs → 0 ≤ gas_of rs.
Proof.
  revert used rs. induction txs as [|t txs IH]; intros used [|r rs]; cbn [accounted gas_of foldr]; try done.
  intros (_&Hg&_&_&Ha). apply IH in Ha. unfold gas_of in Ha. lia.
Qed.

(** Panics that processing does not rule out. *)
Definition block_panic (config : ChainConfig) (header : Header) (w : blockpanic) : Prop :=
  match w with
  | BPTx (TPVM w) => okc w
  | BPEwasm => IsEWASM config (h_Number header) = true
  | _ => False
  end.
Lemma process_txs_ok fuel config bc header hash : context_ok bc header None → config_ok config →
  ∀ txs i p used s rs logs, Forall tx_ok txs → state_inv s → 0 ≤ p → 0 ≤ used → p + used < Z.of_nat fuel → p + used < 2 ^ 62 →
  match process_txs fuel config bc header hash i txs p used s rs logs with
  | BOk (rs', logs', used', p', s') => ∃ new, rs' = rs ++ new ∧ logs' = logs ++ concat (map Logs new) ∧ accounted used txs new ∧
      used' = used + gas_of new ∧ p' = p - gas_of new ∧ 0 ≤ p' ∧ state_inv s'
  | BErr _ _ _ => True
  | BPanic w => block_panic config header w
  | BNoFuel => False
  end.
Proof.
  intros Hc Hcf. induction txs as [|tx txs IH]; intros i p used s rs logs Htx I Hp Hu Hf H62; cbn [process_txs].
  { exists []. rewrite !app_nil_r. cbn. split_and!; try done; lia. }
  apply Forall_cons in Htx as [Ht Htx].
  pose proof (ApplyTransaction_ok fuel config bc None p (Prepare (Transaction_Hash tx) hash i s) header tx used Hc Hcf Ht
    (Prepare_ok _ _ _ _ I) ltac:(lia) ltac:(lia)) as H.
  destruct (ApplyTransaction _ _ _ _ _ _ _ _ _) as [[[[[r gas] p1] used1] s1]|e p1 s1|[[w|]| | | | |]|]; try done.
  destruct H as [A1 A2 A3 A4 A5 (R1 & R2 & R3 & R4 & R5) A7]. rewrite u64_id in A5 by (unfold is_u64; lia).
  specialize (IH (i + 1) p1 used1 s1 (rs ++ [r]) (logs ++ Logs r) Htx A1 A4 ltac:(lia) ltac:(lia) ltac:(lia)).
  destruct (process_txs _ _ _ _ _ _ _ _ _ _ _ _) as [[[[[rs' logs'] used'] p'] s']| | |]; try done.
  destruct IH as (new & -> & -> & Ha & -> & -> & Hl & I'). exists (r :: new). cbn [accounted gas_of foldr map concat].
  rewrite <- !app_assoc. unfold gas_of in *. rewrite R2, R3, <- A5. split_and!; try done; lia.
Qed.

(** ** The DAO fork *)

Lemma DAODrainList_addr : Forall is_addr DAODrainList.
Proof. apply (bool_decide_unpack _). vm_compute. exact Logic.I. Qed.
Lemma drain_account_ok a s : is_addr a → state_inv s → state_inv (drain_account a s).
Proof.
  intros Ha I. unfold drain_account. destruct (GetBalance a s) as [b s1] eqn:E.
  assert (Hb : b = bal a s) by (unfold bal; cbn; by rewrite E).
  assert (I1 : state_inv s1).
  { apply (state_inv_sop s); [exact I|]. apply so_read. replace s1 with (sGetBalance a s).2 by (cbn; by rewrite E). by constructor. }
  assert (I2 : state_inv (AddBalance DAORefundContract b s1)).
  { apply (state_inv_sop s1); [exact I1|]. refine (so_add (S:=@StateDB D T) _ _ _ _ _); [by split|rewrite Hb; exact (bal_nonneg a s I Ha)]. }
  by apply (state_inv_exec (OpSetBalance a 0) (AddBalance DAORefundContract b s1)).
Qed.
Lemma ApplyDAOHardFork_ok s : state_inv s → state_inv (ApplyDAOHardFork s).
Proof.
  intros I. unfold ApplyDAOHardFork. destruct (Exist DAORefundContract s) as [ex s1] eqn:E.
  assert (I1 : state_inv s1).
  { apply (state_inv_sop s); [exact I|]. apply so_read. replace s1 with (sExist DAORefundContract s).2 by (cbn; by rewrite E). by constructor. }
  set (s2 := if ex then s1 else _). assert (I2 : state_inv s2).
  { unfold s2. destruct ex; [done|]. apply (state_inv_sop s1); [exact I1|]. refine (so_create (S:=@StateDB D T) _ _ _). by split. }
  clearbody s2. clear I1. pose proof DAODrainList_addr as Hl. revert s2 I2. induction Hl as [|a l Ha _ IH]; intros s2 I2; [done|].
  cbn [fold_left]. by apply IH, drain_account_ok.
Qed.
Lemma dao_fork_ok config n s : state_inv s → state_inv (dao_fork config n s).
Proof.
  intros I. unfold dao_fork. destruct (DAOForkBlock config) as [m|]; [|done].
  destruct (_ && _); [by apply ApplyDAOHardFork_ok|done].
Qed.

(** ** The end of a block *)

(** Lists whose encodings are of a sane size. *)
Definition txs_fit (txs : list Transaction) : Prop := items_fit (map GetRlp_tx txs).
Lemma txs_items txs : Forall encodable_tx txs → is_u64 (zlen txs) → txs_fit txs.
Proof.
  intros H Hl. split; [|by unfold zlen; rewrite length_map]. apply Forall_map. eapply Forall_impl; [exact H|]. intros tx (Ht & Hz & Hu).
  assert (E : GetRlp_tx tx = rlp (val_of txdata_typ (txdata_gval (tx_data tx)))).
  { unfold GetRlp_tx, Transaction_EncodeRLP. rewrite EncodeValue_rlp; [done|apply txdata_typ_ok|by apply txdata_typed|done]. }
  rewrite E in Hz |- *. split_and!; [apply is_bytes_rlp_val; [apply val_of_ok; [apply txdata_typ_ok|by apply txdata_typed]|done]|apply rlp_nonempty|done].
Qed.
Definition receipts_fit (rs : list Receipt) : Prop := ∃ bs, receipt_rlps rs = Ok bs ∧ items_fit bs.
(** What [NewBlock] puts together. *)
Record assembled (h : Header) (txs : list Transaction) (uncles : list Header) (rs : list Receipt) (b : Block) : Prop := {
  ab_body : b_uncles b = uncles ∧ b_transactions b = txs;
  ab_txs : TransactionsSha txs = Ok (h_TxHash (b_header b));
  ab_receipts : ReceiptsSha rs = Ok (h_ReceiptHash (b_header b));
  ab_bloom : match rs with [] => h_Bloom (b_header b) = h_Bloom h | _ => CreateBloom rs = Some (h_Bloom (b_header b)) end;
  ab_header : b_header b = set_roots (h_TxHash (b_header b)) (h_ReceiptHash (b_header b)) (CalcUncleHash uncles) (h_Bloom (b_header b)) h;
}.
Lemma NewBlock_assembled h txs uncles rs b : NewBlock h txs uncles rs = Ok b → assembled h txs uncles rs b.
Proof.
  unfold NewBlock. intros H. apply res_bind_ok in H as (th & Et & H). apply res_bind_ok in H as ([rh bl] & Er & H). injection H as <-.
  assert (Eu : match uncles with [] => EmptyUncleHash | _ => CalcUncleHash uncles end = CalcUncleHash uncles) by (by destruct uncles).
  rewrite Eu. split; cbn [b_header b_uncles b_transactions set_roots h_TxHash h_ReceiptHash h_UncleHash h_Bloom]; [done| | | |done].
  - by destruct txs.
  - destruct rs as [|r rs]; [apply res_bind_ok in Er as (e & Ee & Er); by injection Er as -> <-|].
    apply res_bind_ok in Er as (e & Ee & Er). destruct (CreateBloom (r :: rs)); [|done]. by injection Er as -> <-.
  - destruct rs as [|r rs]; [apply res_bind_ok in Er as (e & Ee & Er); by injection Er as _ <-|].
    apply res_bind_ok in Er as (e & Ee & Er). destruct (CreateBloom (r :: rs)); [|done]. by injection Er as _ <-.
Qed.
Lemma NewBlock_ok h txs uncles rs : txs_fit txs → receipts_fit rs → ∃ b, NewBlock h txs uncles rs = Ok b.
Proof.
  intros Ht (bs & Er & Hr). unfold NewBlock.
  assert (E1 : match txs with [] => EmptyRootHash | _ => TransactionsSha txs end = Ok (root_of (list_content (map GetRlp_tx txs)))).
  { destruct txs; by apply DeriveSha_root. }
  rewrite E1. cbn [res_bind]. assert (E2 : ReceiptsSha rs = Ok (root_of (list_content bs))).
  { unfold ReceiptsSha. rewrite Er. by apply DeriveSha_root. }
  destruct rs as [|r rs].
  - injection Er as <-. unfold EmptyRootHash. rewrite DeriveSha_root by done. by eexists.
  - rewrite E2. cbn [res_bind]. destruct (CreateBloom_ok (r :: rs)) as (bl & -> & _). by eexists.
Qed.
Definition uncles_ok (header : Header) (uncles : list Header) : Prop :=
  Forall (λ u, is_addr (h_Coinbase u) ∧ h_Number header - 6 ≤ h_Number u < h_Number header) uncles.
Lemma Finalize_state config header s uncles : state_inv s → is_addr (h_Coinbase header) → uncles_ok header uncles →
  state_inv (IntermediateRoot (IsEIP158 config (h_Number header)) (accumulateRewards config header uncles s)).2.
Proof.
  intros I Hc Hu. apply (IntermediateRoot_ok KD).
  exact (proj1 (accumulateRewards_ok config header uncles s I Hc Hu)).
Qed.

Lemma ValidateState_ok config (b : Block) s receipts : let header := b_header b in
  CreateBloom receipts = Some (h_Bloom header) → ReceiptsSha receipts = Ok (h_ReceiptHash header) →
  (IntermediateRoot (IsEIP158 config (h_Number header)) s).1 = h_Root header →
  ValidateState config b s receipts (h_GasUsed header) = BOk (Finalise (IsEIP158 config (h_Number header)) s).
Proof.
  intros header Hb Hr Hroot. unfold ValidateState. fold header. rewrite Z.eqb_refl, Hb, bool_decide_true, Hr, Z.eqb_refl by done. cbn [negb].
  unfold IntermediateRoot in *. cbn [fst] in Hroot. by rewrite Hroot, Z.eqb_refl.
Qed.

(** The transactions were executed, but one of the receipts they gave has no
    encoding of a sane size. *)
Definition too_large (fuel : nat) (config : ChainConfig) (bc : ChainContext) (block : Block) s : Prop :=
  let header := b_header block in
  ∃ rs logs used p s', process_txs fuel config bc header (Block_Hash block) 0 (b_transactions block) (h_GasLimit header) 0
      (dao_fork config (h_Number header) s) [] [] = BOk (rs, logs, used, p, s') ∧
    accounted 0 (b_transactions block) rs ∧ ¬ receipts_fit rs.
Lemma receipts_fit_dec rs : receipts_fit rs ∨ ¬ receipts_fit rs.
Proof.
  unfold receipts_fit. destruct (receipt_rlps rs) as [bs| | |] eqn:E; try (right; by intros (? & ? & _)).
  assert (Hd : items_fit bs ∨ ¬ items_fit bs).
  { unfold items_fit, is_u64, is_bytes. destruct (decide (Forall (λ x : bytes, Forall (λ b, 0 ≤ b < 256) x ∧ x ≠ [] ∧ zlen x < 2 ^ 32) bs ∧ 0 ≤ zlen bs < 2 ^ 64)); auto. }
  destruct Hd as [Hd|Hd]; [left; by exists bs|right]. intros (bs' & [= <-] & ?). done.
Qed.
Lemma Process_ok fuel config get verify block s : let bc := ethash_context get in let header := b_header block in
  context_ok bc header None → config_ok config → uncles_ok header (b_uncles block) → Forall tx_ok (b_transactions block) →
  txs_fit (b_transactions block) → state_inv s →
  0 ≤ h_GasLimit header < Z.of_nat fuel → h_GasLimit header < 2 ^ 62 →
  match Process fuel config bc (ethash_engine verify) block s with
  | BOk (rs, logs, used, s') => accounted 0 (b_transactions block) rs ∧ logs = concat (map Logs rs) ∧ used = gas_of rs ∧
      used ≤ h_GasLimit header ∧ state_inv s' ∧ entries s' = []
  | BErr _ _ _ => True
  | BPanic BPTrie | BNoFuel => too_large fuel config bc block s
  | BPanic w => block_panic config header w
  end.
Proof.
  intros bc header Hc Hcf Hu Htx Hfit I Hg H62. unfold Process. fold header. unfold AddGas.
  destruct (Z.ltb_spec (MaxUint64 - h_GasLimit header) 0) as [Hx|_]; [unfold MaxUint64 in Hx; lia|].
  rewrite Z.add_0_l, (u64_id (h_GasLimit header)) by (unfold is_u64; lia).
  pose proof (process_txs_ok fuel config bc header (Block_Hash block) Hc Hcf (b_transactions block) 0 (h_GasLimit header) 0
    (dao_fork config (h_Number header) s) [] [] Htx (dao_fork_ok _ _ _ I) ltac:(lia) ltac:(lia) ltac:(lia) ltac:(lia)) as H.
  destruct (process_txs _ _ _ _ _ _ _ _ _ _ _ _) as [[[[[rs logs] used] p] s1]| |[[w|]| | | | |]|] eqn:Ep; try done.
  destruct H as (new & E1 & E2 & Ha & E3 & E4 & Hp & I1). cbn [app] in E1, E2. subst rs logs.
  assert (Hcb : is_addr (h_Coinbase header)) by apply (ct_author _ _ _ Hc).
  pose proof (Finalize_state config header s1 (b_uncles block) I1 Hcb Hu) as I2.
  cbn [Finalize ethash_engine]. unfold ethash_Finalize. destruct (IntermediateRoot _ _) as [root s2] eqn:Ei. cbn [snd] in I2.
  assert (Hent : entries s2 = []) by (unfold IntermediateRoot in Ei; injection Ei as _ <-; done).
  destruct (receipts_fit_dec new) as [Hr|Hr].
  - destruct (NewBlock_ok (set_Root root header) (b_transactions block) (b_uncles block) new Hfit Hr) as (b & ->). cbn [res_bind].
    split_and!; try done; lia.
  - destruct (NewBlock _ _ _ _); cbn [res_bind]; try (split_and!; try done; lia); by exists new, (concat (map Logs new)), used, p, s1.
Qed.
End Laws.

(** * The loop of the miner

    The worker fills a block from a set of transactions: it ends, keeps the
    gas of the block within its limit, takes back what a refused transaction
    changed, and records a receipt for each transaction it takes. *)

(** ** The transactions left in a set *)

Definition qsize (q : gmap Z (list Transaction)) : nat := sum_list (length <$> (map_to_list q).*2).
#[export] Instance sum_list_Permutation : Proper (Permutation ==> eq) sum_list.
Proof. induction 1; cbn; lia. Qed.
Lemma qsize_insert q a l : q !! a = None → qsize (<[a := l]> q) = (length l + qsize q)%nat.
Proof. intros H. unfold qsize. by rewrite map_to_list_insert. Qed.
Lemma qsize_delete q a l : q !! a = Some l → qsize q = (length l + qsize (base.delete a q))%nat.
Proof. intros H. rewrite <- (insert_delete_id q a l H) at 1. apply qsize_insert, lookup_delete_eq. Qed.
Lemma qsize_picked op q a tx rest : q !! a = Some (tx :: rest) → (qsize (picked op a rest q) < qsize q)%nat.
Proof.
  intros H. rewrite (qsize_delete q a _ H). destruct op, rest as [|x rest]; cbn [picked length]; try lia.
  rewrite <- insert_delete_eq, qsize_insert by apply lookup_delete_eq. cbn [length]. lia.
Qed.
Definition queued (q : gmap Z (list Transaction)) (tx : Transaction) : Prop := ∃ a l, q !! a = Some l ∧ tx ∈ l.
Lemma queued_singleton a tx0 tx : queued {[a := [tx0]]} tx → tx = tx0.
Proof. intros (b & l & Hb & Hin). apply lookup_singleton_Some in Hb as [_ <-]. by apply list_elem_of_singleton in Hin. Qed.
Lemma qsize_singleton a tx : qsize {[a := [tx]]} = 1%nat.
Proof. unfold qsize. by rewrite map_to_list_singleton. Qed.
Lemma queues_singleton {CRY : Crypto} {PCR : PrecompileCrypto} signer a tx : sender_or_zero signer tx = a → queues_ok signer {[a := [tx]]}.
Proof. intros H. apply map_Forall_singleton. split; [done|]. by repeat constructor. Qed.
Lemma order_singleton a (tx : Transaction) : [a] ≡ₚ (map_to_list {[a := [tx]]} : list (Z * list Transaction)).*1.
Proof. by rewrite map_to_list_singleton. Qed.
Lemma queued_picked op q a tx rest : q !! a = Some (tx :: rest) → ∀ tx', queued (picked op a rest q) tx' → queued q tx'.
Proof.
  intros H tx' (b & l & Hb & Hin).
  assert (Hdel : base.delete a q !! b = Some l → queued q tx') by (intros [_ ?]%lookup_delete_Some; by exists b, l).
  destruct op, rest as [|x rest]; cbn [picked] in Hb; auto.
  apply lookup_insert_Some in Hb as [[<- <-]|[_ Hb]]; [exists a, (tx :: x :: rest); split; [done|by right]|by exists b, l].
Qed.

Section Laws.
Context {D T : Type} {CRY : Crypto} {PCR : PrecompileCrypto} {PL : PrecompileLaws} {TI : TrieI T} {DI : DatabaseI D T} {AC : AccountCodec}.
Context {TL : TrieLaws T} {DL : DatabaseLaws D T} {AL : AccountCodecLaws}.
Context (KD : keys_distinct (T:=T) (A:=is_addr) (K:=is_hash)).
Implicit Types (s : @StateDB D T) (e : @environment D T).
#[local] Existing Instance StateDB_laws.
Variable config : ChainConfig.
Variable bc : ChainContext.
Variable coinbase : Z.
Variable header : Header.
Variable limit : Z.
Variable fuel : nat.
Hypothesis Hctx : context_ok bc header (Some coinbase).
Hypothesis Hcf : config_ok config.
Hypothesis Hlimit : limit < Z.of_nat fuel ∧ limit < 2 ^ 62.

(** The block under construction, of the given header. *)
Record env_ok e : Prop := {
  ev_state : state_inv (e_state e);
  ev_header : ∃ g, e_header e = set_GasUsed g header;
  ev_gas : 0 ≤ e_gasPool e ∧ e_gasPool e + h_GasUsed (e_header e) ≤ limit;
  ev_accounted : accounted 0 (e_txs e) (e_receipts e);
  ev_used : h_GasUsed (e_header e) = gas_of (e_receipts e);
}.
Lemma ev_context e : env_ok e → context_ok bc (e_header e) (Some coinbase) ∧ h_Number (e_header e) = h_Number header.
Proof. intros [_ [g ->] _ _ _]. destruct Hctx as [H1 H2 H3]. by split. Qed.
Lemma with_state_ok s e : env_ok e → state_inv s → env_ok (with_state s e).
Proof. by intros [H1 H2 H3 H4 H5] I. Qed.
Definition counted (n : Z) e : environment :=
  mkEnvironment (e_signer e) (e_state e) n (e_gasPool e) (e_header e) (e_txs e) (e_receipts e).
Lemma counted_ok n e : env_ok e → env_ok (counted n e).
Proof. by intros [H1 H2 H3 H4 H5]. Qed.

(** What a refused transaction leaves: the block as it was, the pool of gas
    with no more than before, and the state the same to every reader. *)
Record leaves e e' : Prop := {
  lv_block : e_txs e' = e_txs e ∧ e_receipts e' = e_receipts e ∧ e_header e' = e_header e ∧ e_tcount e' = e_tcount e;
  lv_pool : e_gasPool e' ≤ e_gasPool e;
  lv_state : astate_eq (abs (e_state e')) (abs (e_state e));
}.
#[local] Instance leaves_preorder : PreOrder leaves.
Proof.
  split; [intros e; by split; [|lia|]|]. intros e1 e2 e3 [(?&?&?&?) ? E1] [(?&?&?&?) ? E2]. split; [split_and!; congruence|lia|by etrans].
Qed.
Definition marked (tx : Transaction) e : environment := with_state (Prepare (Transaction_Hash tx) 0 (e_tcount e) (e_state e)) e.
Lemma marked_leaves tx e : leaves e (marked tx e).
Proof.
  split; [done|cbn; lia|]. split; cbn; try done. intros a. rewrite (lookup_obj_ext _ (e_state e)) by done. destruct (lookup_obj (e_state e) a); constructor. reflexivity.
Qed.
(** The transactions [new] went into the block one after the other; those tried
    in between left nothing behind. *)
Inductive builds e : list Transaction → environment → Prop :=
| builds_end e' : leaves e e' → builds e [] e'
| builds_tx e1 tx logs e2 new e' : leaves e e1 → commitTransaction fuel config bc coinbase tx (marked tx e1) = BOk (inl logs, e2) →
    builds (counted (e_tcount e2 + 1) e2) new e' → builds e (tx :: new) e'.
Lemma leaves_builds e e1 new e' : leaves e e1 → builds e1 new e' → builds e new e'.
Proof. intros H [e2 H2|e2 tx logs e3 new' e4 H2 Hc Hb]; [apply builds_end|eapply builds_tx; [|exact Hc|exact Hb]]; by etrans. Qed.

Lemma commitTransaction_ok tx e : env_ok e → tx_ok tx →
  match commitTransaction fuel config bc coinbase tx e with
  | BOk (inl logs, e') => env_ok e' ∧ e_txs e' = e_txs e ++ [tx] ∧ e_tcount e' = e_tcount e ∧
      ∃ r, e_receipts e' = e_receipts e ++ [r] ∧ logs = Logs r
  | BOk (inr _, e') => env_ok e' ∧ leaves e e'
  | BErr _ _ _ | BNoFuel => False
  | BPanic w => block_panic config header w
  end.
Proof.
  intros E Htx. destruct (ev_context e E) as [Hc En]. destruct E as [I [g Eh] [Hg1 Hg2] Ha Hu].
  pose proof (accounted_gas _ _ _ Ha) as Hgas. unfold commitTransaction.
  pose proof (sinv_snapshot _ I) as I1. pose proof (since_snapshot _ I) as Hs. change (sSnapshot (e_state e)) with (Snapshot (e_state e)) in I1, Hs.
  destruct (Snapshot (e_state e)) as [snap s1]. cbn [fst snd] in I1, Hs.
  pose proof (ApplyTransaction_ok KD fuel config bc (Some coinbase) (e_gasPool e) s1 (e_header e) tx (h_GasUsed (e_header e)) Hc Hcf Htx I1
    ltac:(lia) ltac:(lia)) as H.
  destruct (ApplyTransaction _ _ _ _ _ _ _ _ _) as [[[[[r gas] p1] used1] s2]|err p1 s2|w|]; [| | |done].
  - destruct H as [A1 A2 A3 A4 A5 (R1 & R2 & R3 & R4 & R5) A7]. rewrite u64_id in A5 by (unfold is_u64; lia).
    split; [|split_and!; [done|done|by exists r]]. split; cbn [e_state e_header e_gasPool e_txs e_receipts].
    + done.
    + exists used1. by rewrite Eh.
    + cbn [h_GasUsed set_GasUsed]. lia.
    + apply accounted_app; try done; [by rewrite R2|]. rewrite R2, R3, <- Hu. lia.
    + cbn [h_GasUsed set_GasUsed]. rewrite gas_of_app, <- Hu, R2. lia.
  - destruct H as [Hev Hp]. destruct (Hev I1) as (I2 & Hsince & _).
    destruct (@revert_since _ _ StateDB_laws (e_state e) snap s2 I I2 (Hsince _ _ Hs)) as (s3 & Hr & Hq & I3). change (sRevertToSnapshot snap s2) with (RevertToSnapshot snap s2) in Hr.
    rewrite Hr. split; [|split; [done|cbn; destruct Hp as [[-> _]|(_ & -> & _)]; [lia|]; pose proof (tk_gas _ (xk_data _ Htx)) as [? _]; lia|by apply abs_eq]]. pose proof (xk_data _ Htx) as Hd. pose proof (tk_gas _ Hd) as Hu64. unfold is_u64 in Hu64.
    split; cbn [e_state e_header e_gasPool e_txs e_receipts]; [done|by exists g|destruct Hp as [[-> _]|(_ & -> & ?)]; lia|done|done].
  - destruct w as [[w|]| | | | |]; try done. by rewrite En in H.
Qed.

(** What the loop adds to the block. *)
Definition commits (q : gmap Z (list Transaction)) e (logs : list Log) (r : @bout D T (TransactionsByPriceAndNonce * @environment D T * list Log)) : Prop :=
  match r with
  | BOk (t', e', logs') => env_ok e' ∧ ∃ new rs, builds e new e' ∧
      e_txs e' = e_txs e ++ new ∧ e_receipts e' = e_receipts e ++ rs ∧ logs' = logs ++ concat (map Logs rs) ∧
      e_tcount e' = e_tcount e + zlen new ∧ (∀ tx, tx ∈ new → queued q tx)
  | BErr _ _ _ | BNoFuel => False
  | BPanic w => block_panic config header w
  end.
Lemma commits_from (q q1 : gmap Z (list Transaction)) e e1 logs r : leaves e e1 →
  (∀ tx, queued q1 tx → queued q tx) → commits q1 e1 logs r → commits q e logs r.
Proof.
  intros Hl Hsub. pose proof (lv_block _ _ Hl) as (X1 & X2 & _ & X3). destruct r as [[[t' e'] logs']| | |]; try done. cbn. rewrite X1, X2, X3.
  intros (E & new & rs & Hb & ? & ? & ? & ? & Hin). split; [done|]. exists new, rs. split_and!; auto. by eapply leaves_builds.
Qed.
Lemma commits_more tx x l (q q1 : gmap Z (list Transaction)) e e2 logs r : commitTransaction fuel config bc coinbase tx (marked tx e) = BOk (inl l, e2) →
  let e1 := counted (e_tcount e2 + 1) e2 in e_txs e1 = e_txs e ++ [tx] → e_receipts e1 = e_receipts e ++ [x] →
  e_tcount e1 = e_tcount e + 1 → queued q tx → (∀ tx, queued q1 tx → queued q tx) → commits q1 e1 (logs ++ Logs x) r → commits q e logs r.
Proof.
  intros Hc e1 X1 X2 X3 Hq Hsub. destruct r as [[[t' e'] logs']| | |]; try done. cbn [commits]. rewrite X1, X2, X3.
  intros (E & new & rs & Hb & Y1 & Y2 & Y3 & Y4 & Hin). split; [done|]. exists (tx :: new), (x :: rs). cbn [map concat].
  rewrite Y1, Y2, Y3, Y4, <- !app_assoc, zlen_cons. split_and!; [by eapply builds_tx|done..|lia|].
  intros tx' [->|Ht]%elem_of_cons; [done|auto].
Qed.

(** Every turn of the loop takes a transaction off the set. *)
Lemma commitTransactions_ok signer turns : ∀ t q e logs, holds signer t q → (∀ tx, queued q tx → tx_ok tx) → (qsize q < turns)%nat → env_ok e →
  commits q e logs (commitTransactions fuel config bc coinbase turns t e logs).
Proof.
  induction turns as [|turns IH]; intros t q e logs Ht Hq Hn E; [lia|]. cbn [commitTransactions].
  assert (Hstop : commits q e logs (BOk (t, e, logs))).
  { split; [done|]. exists [], []. rewrite !app_nil_r. split_and!; [by apply builds_end|done..|rewrite Z.add_0_r; done|]. intros tx Hin. by apply not_elem_of_nil in Hin. }
  destruct (_ <? _); [done|]. unfold Peek. destruct (pn_heads t) as [|tx l] eqn:Eh; [done|]. cbn [head].
  destruct (next_holds signer PPop t q tx l Ht Eh) as (_ & rest & _ & [Hqa _] & _).
  assert (Hin : queued q tx) by (eexists _, _; split; [exact Hqa|by left]).
  (* the loop goes on with what is left *)
  assert (Hnext : ∀ op e1 l1, env_ok e1 → ∃ t1 q1, next_of op t = Some t1 ∧ (∀ tx, queued q1 tx → queued q tx) ∧
    commits q1 e1 l1 (commitTransactions fuel config bc coinbase turns t1 e1 l1)).
  { intros op e1 l1 E1. destruct (next_holds signer op t q tx l Ht Eh) as (t1 & rest1 & Et & [Hq1 _] & H1).
    pose proof (queued_picked op q _ tx rest1 Hq1) as Hsub. pose proof (qsize_picked op q _ tx rest1 Hq1).
    eexists t1, _. split_and!; [done|exact Hsub|]. apply (IH t1); [done|by auto|lia|done]. }
  assert (Hskip : ∀ op e1, env_ok e1 → leaves e e1 →
    commits q e logs (match next_of op t with None => BPanic BPSig | Some t => commitTransactions fuel config bc coinbase turns t e1 logs end)).
  { intros op e1 E1 X. destruct (Hnext op e1 logs E1) as (t1 & q1 & -> & Hsub & H). by eapply commits_from. }
  destruct (_ && _).
  { by apply (Hskip PPop). }
  change (with_state _ e) with (marked tx e). set (e0 := marked tx e). assert (E0 : env_ok e0) by (apply with_state_ok; [done|]; apply Prepare_ok, E).
  pose proof (commitTransaction_ok tx e0 E0 (Hq tx Hin)) as H.
  destruct (commitTransaction _ _ _ _ _ _) as [[[new|err] e1]| |w|] eqn:Ec; [| |done..].
  - destruct H as (E1 & X1 & X2 & r & X3 & ->). set (e2 := mkEnvironment _ _ _ _ _ _ _).
    destruct (Hnext PShift e2 (logs ++ Logs r) (counted_ok (e_tcount e1 + 1) e1 E1)) as (t1 & q1 & Et & Hsub & H).
    change (Shift t) with (next_of PShift t). rewrite Et. apply (commits_more tx r (Logs r) q q1 e e1); [exact Ec|exact X1|exact X3|cbn; rewrite X2; done|done|done|exact H].
  - destruct H as (E1 & X). assert (X' : leaves e e1) by (etrans; [apply (marked_leaves tx)|exact X]).
    destruct err as [|[]| | | | | | | | | |]; first [by apply (Hskip PShift)|by apply (Hskip PPop)].
Qed.
End Laws.
