(* ===== verification/Concrete.v ===== *)
(** * Concrete instances of the interfaces

    Maps for tries, a database that holds no code, the account encoding in
    RLP, and a stand-in for the hash function (not Keccak).  They show that
    the laws of the interfaces can hold, and let examples be evaluated. *)

From S2P Require Import Prelude BigMath Rlp Interfaces StateDB StateEq StateRevert StateHistory StateStorage StateFinalise.

(** A checksum in place of Keccak-256: 32 bytes of a polynomial hash. *)
Definition mix (b : bytes) : bytes :=
  be_bytes 32 (fold_left (λ h x, Z.land (h * 257 + x + 1) (Z.ones 256)) b 7).
#[export] Instance mix_crypto : Crypto := {|
  Keccak256 := mix;
  Keccak256_length := λ b, length_be_bytes 32 _;
  Keccak256_bytes := λ b, is_bytes_be_bytes 32 _;
|}.

(** A trie is a map of byte strings. *)
Abbreviation mtrie := (gmap (list Z) (list Z)).
#[export] Instance map_trie : TrieI mtrie := {|
  TryGet k t := (default [] (t !! k), None);
  TryUpdate k v t := (<[k := v]> t, None);
  TryDelete k t := (delete k t, None);
  TrieHash t := be_val (mix (concat ((λ kv, kv.1 ++ kv.2) <$> map_to_list t)));
|}.
(** The storage tries start empty, and no code is stored. *)
#[export] Instance unit_db : DatabaseI unit mtrie := {|
  OpenStorageTrie _ _ _ := inl ∅;
  EmptyStorageTrie _ _ := ∅;
  ContractCode _ _ _ := ([], Some (ErrDB 1));
  ContractCodeSize _ _ _ := (0, Some (ErrDB 1));
  OpenStorageTrie_empty _ _ := eq_refl;
|}.

(** The hash of a map that stands for the hash of its entries. *)
#[export] Instance map_trie_laws : TrieLaws mtrie := {|
  trie_key k := k;
  trie_map t m := t = m;
  trie_root m := be_val (mix (concat ((λ kv, kv.1 ++ kv.2) <$> map_to_list m)));
  TryGet_map t m k E := eq_ind t (λ m, (default [] (t !! k), None) = (default [] (m !! k), None)) eq_refl m E;
  TryUpdate_map t m k v E _ := ex_intro _ (<[k:=v]> t) (conj eq_refl (f_equal _ E));
  TryDelete_map t m k E := ex_intro _ (delete k t) (conj eq_refl (f_equal _ E));
  TrieHash_map t m E _ := f_equal (λ m, be_val (mix (concat ((λ kv, kv.1 ++ kv.2) <$> map_to_list m)))) E;
  trie_key_ok k Hk Hl := conj Hk Hl;
|}.
Lemma unit_open (d : unit) (h r : Z) (m : bmap) : m = ∅ → ∃ t : mtrie, OpenStorageTrie d h r = inl t ∧ t = m.
Proof. intros ->. by exists ∅. Qed.
#[export] Instance unit_db_laws : DatabaseLaws unit mtrie := {|
  db_stores _ _ m := m = ∅;
  OpenStorageTrie_map := unit_open;
  EmptyStorageTrie_map d h := eq_refl;
|}.

(** Accounts as [rlp.EncodeToBytes] writes the struct. *)
Definition account_val (a : Account) : val :=
  VList [VUint (Nonce a); VBig (Balance a); VBytes (hash_bytes (Root a)); VBytes (CodeHash a)].
Definition decode_account_raw (b : bytes) : option Account :=
  match SplitList b with
  | Ok (l, []) =>
      match SplitString l with
      | Ok (n, l) =>
          match SplitString l with
          | Ok (bal, l) =>
              match SplitString l with
              | Ok (r, l) =>
                  match SplitString l with
                  | Ok (ch, []) => if decide (length ch = 32%nat ∧ Forall is_byte ch)
                                   then Some (mkAccount (be_val n) (be_val bal) (be_val r) ch) else None
                  | _ => None
                  end
              | _ => None
              end
          | _ => None
          end
      | _ => None
      end
  | _ => None
  end.
#[export] Instance rlp_codec : AccountCodec := {|
  encode_account a := rlp (account_val a);
  decode_account := decode_account_raw;
  encode_account_nonempty a := rlp_nonempty _;
|}.

(** An account within its widths has a short encoding. *)
Lemma encode_account_fits x : is_u64 (Nonce x) → is_u256 (Balance x) → is_bytes (CodeHash x) → zlen (CodeHash x) = 32 →
  is_bytes (rlp (account_val x)) ∧ zlen (rlp (account_val x)) < 2 ^ 32.
Proof.
  intros Hn Hb Hc Hl. unfold is_u256, is_u64 in *.
  assert (Hok : val_ok (account_val x)).
  { unfold account_val. cbn [val_ok]. split_and!; [done|lia|apply is_bytes_be_bytes|done|done]. }
  assert (Hsize : ∀ b, zlen b ≤ 32 → zlen (rlp_bytes b) ≤ 41).
  { intros b H. pose proof (zlen_rlp_bytes_le b ltac:(lia)). lia. }
  assert (Hnl : zlen (Big.Bytes (Nonce x)) ≤ 32) by (unfold zlen; pose proof (Big.length_Bytes_le (Nonce x) 32 ltac:(lia)); lia).
  assert (Hbl : zlen (Big.Bytes (Balance x)) ≤ 32) by (unfold zlen; pose proof (Big.length_Bytes_le (Balance x) 32 ltac:(lia)); lia).
  assert (Hr : zlen (hash_bytes (Root x)) ≤ 32) by (unfold zlen, hash_bytes; rewrite length_be_bytes; lia).
  apply Hsize in Hnl, Hbl, Hr. assert (Hcl : zlen (CodeHash x) ≤ 32) by lia. apply Hsize in Hcl.
  assert (Hz : zlen (rlp (account_val x)) < 2 ^ 32).
  { unfold account_val. cbn [rlp map concat]. set (c := _ ++ _). assert (zlen c ≤ 164).
    { unfold c. rewrite !zlen_app. change (zlen (@nil Z)) with 0. lia. }
    pose proof (zlen_rlp_list_le c ltac:(lia)). lia. }
  split; [|done]. apply is_bytes_rlp_val; [done|]. pose proof (zlen_nonneg (rlp (account_val x))). unfold is_u64. lia.
Qed.

(** The keys of the trie are the addresses and slots themselves. *)
Lemma map_keys_distinct : keys_distinct (T:=mtrie) (A:=is_addr) (K:=is_hash).
Proof.
  split; [exact addr_bytes_inj|]. intros k l Hk Hl E.
  change (hash_bytes k = hash_bytes l) in E. rewrite <- (BytesToHash_hash_bytes k Hk), <- (BytesToHash_hash_bytes l Hl). by rewrite E.
Qed.

Abbreviation cstate := (@StateDB unit mtrie).
(** The empty state. *)
Definition empty_state : cstate := New tt ∅.

Example decode_encode_account :
  decode_account (encode_account (mkAccount 5 1000 77 (mix []))) =
  Some (mkAccount 5 1000 77 (mix [])).
Proof. vm_compute. reflexivity. Qed.

Lemma inv_empty_state : inv empty_state.
Proof. apply inv_New. intros a o H. done. Qed.
(** Any history from the empty state leaves the invariant true. *)
Lemma inv_history xs s : run xs empty_state = Some s → inv s.
Proof. apply run_inv, inv_empty_state. Qed.

(** A contract account [1] and an empty state around it. *)
Definition setup : list (@op) :=
  [OpSetCode 1 (Some [0x60; 0x01]); OpSetNonce 1 1; OpAddBalance 1 50; OpSetState 1 7 8;
   OpAddBalance 2 5; OpAddRefund 10].
Definition started : cstate := default empty_state (run setup empty_state).
Lemma started_run : run setup empty_state = Some started.
Proof. vm_compute. reflexivity. Qed.
Lemma inv_started : inv started.
Proof. exact (inv_history _ _ started_run). Qed.

(** A transaction with an inner snapshot that is reverted, a suicide, a
    created account and a log. *)
Definition transaction : list (@op) :=
  [OpSetState 1 7 9; OpCreateAccount 2; OpSubBalance 1 20; OpAddBalance 2 20; OpSnapshot;
   OpSuicide 1; OpSetCode 4 (Some [1; 2; 3]); OpRevertToSnapshot 1; OpAddLog (mkLog 1 [] [9] 0 0 0 0 0);
   OpSuicide 2; OpAddBalance 3 0; OpSubRefund 10; OpAddPreimage 5 [1]; OpGetState 1 99].
