(* ===== verification/StateTheorems.v ===== *)
(** * Theorems on the state database

    The properties of the state and its journal, each with an instance at a
    concrete history. *)

From S2P Require Import Prelude BigMath Rlp Interfaces StateDB StateEq.
From S2P Require Import StateRevert StateHistory StateSpec StateStorage StateFinalise Concrete.

Section Theorems.
Context {D T : Type} {CR : Crypto} {TI : TrieI T} {DI : DatabaseI D T} {AC : AccountCodec}.

(** C30: After any history of operations that keeps a snapshot valid, RevertToSnapshot succeeds
    and gives back the state of the snapshot to every reader, its journal and revisions, and its
    dirty counts save for the RIPEMD address. *)
Theorem revert_restores (s0 s1 s2 : @StateDB D T) (id : Z) (xs : list (@op)) :
  inv s0 → Snapshot s0 = (id, s1) → Forall (keeps id) xs → run xs s1 = Some s2 →
  ∃ s3, RevertToSnapshot id s2 = Some s3 ∧ st_eq s3 s0 ∧ entries s3 = entries s0 ∧
        validRevisions s3 = validRevisions s0 ∧
        ∀ a, a ≠ ripemd → dirties s3 !! a = dirties s0 !! a.
Proof.
  intros I Hs Hf Hr. apply since_revert_to; [apply I|].
  exact (since_run _ _ _ _ _ (since_Snapshot _ _ _ I Hs) Hf Hr).
Qed.

(** C32: Every history from a freshly opened state keeps the invariant of the cached objects, the
    journal, the dirty counts and the revision stack. *)
Theorem histories_keep_invariant (d : D) (t : T) (xs : list op) (s : @StateDB D T) :
  (∀ a o, trie_obj (New d t) a = Some o → codehash_ok (data o)) →
  run xs (New d t) = Some s → inv s.
Proof.
  intros Ht. by apply run_inv, inv_New.
Qed.

(** C31: Every operation of the state database refines its counterpart on a map of accounts with a
    total storage, whatever is cached, loaded from the tries or journalled underneath. *)
Theorem operations_refine_accounts (x : op) (s s' : @StateDB D T) :
  (∀ d h k, TryGet k (EmptyStorageTrie (T:=T) d h) = ([], None)) →
  is_revision_op x = false → wf s → exec x s = Some s' →
  astate_eq (abs s') (aexec (thash s) (txIndex s) (bhash s) (logSize s) x (abs s)).
Proof. intros He. by apply exec_refines_aux. Qed.

(** States that are equal as far as their objects resolve give the same answer to every
    reader of the virtual machine: existence, emptiness, balance, nonce, code, code hash, storage,
    committed storage, suicide and refund. *)
Theorem readers_agree (s1 s2 : @StateDB D T) :
  st_eq s1 s2 → ∀ a k,
    (Exist a s1).1 = (Exist a s2).1 ∧ (Empty a s1).1 = (Empty a s2).1 ∧
    (GetBalance a s1).1 = (GetBalance a s2).1 ∧ (GetNonce a s1).1 = (GetNonce a s2).1 ∧
    (GetCode a s1).1 = (GetCode a s2).1 ∧ (GetCodeHash a s1).1 = (GetCodeHash a s2).1 ∧
    (GetState a k s1).1 = (GetState a k s2).1 ∧
    (GetCommittedState a k s1).1 = (GetCommittedState a k s2).1 ∧
    (HasSuicided a s1).1 = (HasSuicided a s2).1 ∧ GetRefund s1 = GetRefund s2.
Proof. exact (st_eq_readers s1 s2). Qed.

(** Whatever transactions came before, IntermediateRoot. *)
(** C18: After any sequence of transactions on a freshly opened state, IntermediateRoot returns
    the root of a trie that holds, for every dirty account, the encoding of its nonce, balance and
    code hash with the root of a storage trie whose slots are what readers of the account see, or
    no entry if the account destroyed itself or is empty; every other entry is untouched. Assumed:
    the hashed keys of the addresses and slots in use do not collide. *)
Theorem intermediate_root_commits {TL : TrieLaws T} {DL : DatabaseLaws D T} (A K : Z → Prop)
    (d : D) (t : T) (m0 : bmap) (s s' : @StateDB D T) (root : Z) (deleteEmptyObjects : bool) :
  keys_distinct (A:=A) (K:=K) → trie_map t m0 → fits m0 → storage_stored (A:=A) d m0 →
  rtc (tx_step (A:=A) (K:=K)) (New d t) s → encodable_accounts s → IntermediateRoot deleteEmptyObjects s = (root, s') →
  ∃ m m', trie_map (trie s) m ∧ trie_map (trie s') m' ∧ root = trie_root m' ∧
    (∀ a o, is_Some (dirties s !! a) → stateObjects s !! a = Some o →
      ∃ o', stateObjects s' !! a = Some o' ∧ settled (K:=K) (db s) deleteEmptyObjects o o' (m' !! addr_key a)) ∧
    (∀ k, (∀ a, is_Some (dirties s !! a) → is_Some (stateObjects s !! a) → k ≠ addr_key a) → m' !! k = m !! k).
Proof.
  intros KD Hm Hf Hs Hr Henc Hi. destruct (tx_steps_synced KD _ _ Hr (New_synced d t m0 Hm Hf Hs)) as [I (m & Hm' & Hf')].
  destruct (Finalise_spec KD deleteEmptyObjects s m I Hm') as (m' & [G1 G2 G3 G4 G5 G6 G7] & _).
  injection Hi as <- <-. exists m, m'. split_and!; [done|done|by apply TrieHash_map; [|apply G2]| |].
  - intros a o Ha. apply G4. by apply elem_of_dirty_addrs.
  - intros k Hk. apply G7. intros a Ha. apply Hk. by apply elem_of_dirty_addrs.
Qed.

End Theorems.

Definition after_transaction : cstate := default started (run transaction (Snapshot started).2).
Lemma transaction_runs : run transaction (Snapshot started).2 = Some after_transaction.
Proof. vm_compute. reflexivity. Qed.
Lemma transaction_keeps : Forall (keeps 0) transaction.
Proof. repeat constructor. Qed.

Lemma revert_restores_witness :
  (GetState 1 7 after_transaction).1 = 9 ∧ (GetBalance 2 after_transaction).1 = 0 ∧
  ∃ s3, RevertToSnapshot 0 after_transaction = Some s3 ∧ st_eq s3 started ∧
        (GetState 1 7 s3).1 = 8 ∧ (GetBalance 2 s3).1 = 5.
Proof.
  split; [vm_compute; reflexivity|]. split; [vm_compute; reflexivity|].
  destruct (revert_restores started _ _ 0 transaction inv_started eq_refl
    transaction_keeps transaction_runs) as (s3 & Hr & E & _).
  exists s3. split; [exact Hr|]. split; [exact E|].
  vm_compute in Hr. injection Hr as <-. split; vm_compute; reflexivity.
Defined.

Lemma histories_keep_invariant_witness : inv started.
Proof.
  apply (histories_keep_invariant tt ∅ setup); [intros a o H; discriminate H|exact started_run].
Defined.

Lemma operations_refine_accounts_witness :
  exec (OpSetState 1 7 9) started = Some (SetState 1 7 9 started) ∧
  astate_eq (abs (SetState 1 7 9 started)) (aexec 0 0 0 0 (OpSetState 1 7 9) (abs started)).
Proof.
  split; [reflexivity|].
  apply (operations_refine_accounts (OpSetState 1 7 9) started); [reflexivity..|apply inv_started|reflexivity].
Defined.

Lemma readers_agree_witness :
  (GetBalance 1 (getStateObject 1 started).2).1 = (GetBalance 1 started).1 ∧
  (GetBalance 1 started).1 = 50.
Proof.
  split; [|vm_compute; reflexivity].
  exact (proj1 (proj2 (proj2 (readers_agree _ _ (getStateObject_eq 1 started) 1 0)))).
Defined.

(** The history of [started], as transactions from the empty state, and its
    state root. *)
Lemma setup_in_use : Forall (op_in_use (A:=is_addr) (K:=is_hash)) setup.
Proof. repeat constructor; vm_compute; congruence. Qed.
Lemma started_encodable : encodable_accounts started.
Proof.
  intros a o r Ho.
  assert (H : map_Forall (λ _ o, is_u64 (Nonce (data o)) ∧ is_u256 (Balance (data o)) ∧ is_bytes (CodeHash (data o)) ∧
    zlen (CodeHash (data o)) = 32) (stateObjects started)) by (apply (bool_decide_unpack _); vm_compute; exact I).
  destruct (H a o Ho) as (? & ? & ? & ?). by apply (encode_account_fits (set_Root r (data o))).
Qed.
Lemma intermediate_root_commits_witness : ∃ m' o o',
  (IntermediateRoot true started).1 = trie_root (T:=mtrie) m' ∧
  stateObjects started !! 1 = Some o ∧ stateObjects (IntermediateRoot true started).2 !! 1 = Some o' ∧
  settled (K:=is_hash) tt true o o' (m' !! addr_key (T:=mtrie) 1).
Proof.
  destruct (IntermediateRoot true started) as [root s'] eqn:E.
  destruct (intermediate_root_commits is_addr is_hash tt ∅ ∅ started s' root true) as (m & m' & _ & _ & Hr & Hd & _).
  - exact map_keys_distinct.
  - reflexivity.
  - apply map_Forall_empty.
  - intros a enc x _ H. discriminate H.
  - eapply rtc_l; [|apply rtc_refl]. exact (tx_run _ setup _ setup_in_use started_run).
  - exact started_encodable.
  - exact E.
  - destruct (Hd 1 (default (newObject 1 Account_zero) (stateObjects started !! 1))) as (o' & Ho' & Hs).
    + vm_compute. eexists. reflexivity.
    + vm_compute. reflexivity.
    + exists m', (default (newObject 1 Account_zero) (stateObjects started !! 1)), o'.
      split; [exact Hr|]. split; [vm_compute; reflexivity|]. split; [exact Ho'|exact Hs].
Defined.
