(* ===== verification/ConcreteVm.v ===== *)
(** * Concrete machines, transactions and blocks

    The state of [Concrete.v] under the virtual machine, with stand-ins for
    the hash functions and curves of the precompiled contracts, signatures
    that the recovery accepts, and a block of one payment: the laws the
    theorems assume hold for them, and examples can be evaluated. *)

From S2P Require Import Prelude BigMath Params Analysis Memory Rlp RlpStream RlpTyped Interfaces Heap Machine Gas Instructions JumpTable Precompiles Evm.
From S2P Require Import TrieEncoding Trie TrieSpec Header StateTransition Transaction TxLaws Receipt ReceiptLaws Block BlockCodec Ethash EthashLaws.
From S2P Require Import VmLaws VmLoop TransitionLaws.
From S2P Require Import StateDB CoreEvm StateEq StateRevert StateHistory StateSpec StateStorage StateFinalise StateVm StateBlock.
From S2P Require Import BlockProcessor BlockLaws Concrete.

(** Signatures that carry the key: a key is a number, and its signature of
    anything the number, one, and zero. *)
Definition open_recover (h sig : bytes) : option bytes :=
  if decide (length sig = 65%nat) then Some (4 :: take 64 sig) else None.
Lemma open_recover_length h sig k : open_recover h sig = Some k → length k = 65%nat.
Proof. unfold open_recover. case_decide as H; [|done]. intros [= <-]. cbn. rewrite length_take. lia. Qed.
#[export] Instance toy_precompiles : PrecompileCrypto := {|
  sha256_Sum256 := mix;
  ripemd160_Sum b := drop 12 (mix b);
  Ecrecover := open_recover;
  G1 := Z;
  G2 := Z;
  G1_Unmarshal b := Some (be_val b);
  G2_Unmarshal b := Some (be_val b);
  G1_Add := Z.add;
  G1_ScalarMult := Z.mul;
  G1_Marshal := be_bytes 64;
  PairingCheck l r := true;
  Ecrecover_length := open_recover_length;
|}.
#[export] Instance toy_precompile_laws : PrecompileLaws.
Proof.
  split; intros.
  - apply is_bytes_be_bytes.
  - apply (length_be_bytes 32).
  - apply is_bytes_drop, is_bytes_be_bytes.
  - cbn [ripemd160_Sum toy_precompiles]. unfold mix. by rewrite length_drop, length_be_bytes.
  - apply (is_bytes_be_bytes 64).
  - apply (length_be_bytes 64).
Qed.

#[export] Instance cstate_laws : VMStateLaws cstate := StateDB_laws.

(** All forks up to Byzantium. *)
Definition test_config : ChainConfig :=
  mkChainConfig (Some 1) (Some 0) None false (Some 0) 0 (Some 0) (Some 0) (Some 0) None None.
Definition test_env : Env cstate :=
  mkEnv cstate CanTransfer_ Transfer_ (λ n, 0) 77 1 99 8000000 10 1000 2000 test_config false false false.
#[export] Instance test_env_laws : EnvLaws test_env.
Proof. by apply core_env_laws. Qed.

(** A frame with the given code, stack and gas. *)
Definition frame (s : cstate) (c : bytes) (st : Stack) (gas : Z) : machine cstate :=
  mkMachine (mkEvmst s 0 0 false [] ∅) 0 st NewMemory
    (mkContract 77 100 c 5 (Some 100) [] gas 0 false).

Lemma ast_ok_no_account (st : astate) : (∀ a, as_account st a = None) → as_refund st = 0 → ast_ok st.
Proof. intros H Hr. split; [|by rewrite Hr]. intros a c _ Hc. by rewrite H in Hc. Qed.
Lemma empty_state_inv : VmLaws.sinv empty_state.
Proof.
  split; [apply inv_empty_state|by apply ast_ok_no_account| |by exists ∅].
  apply (New_synced tt ∅ ∅); [done|apply map_Forall_empty|by intros ???].
Qed.

(** Contract 100 adds, stores to memory and storage and returns a word;
    contract 200 stores and then hits an invalid instruction; contract 300
    calls 200 and returns whether it succeeded. *)
Definition code_100 : bytes :=
  [0x60; 3; 0x60; 4; 0x01; 0x60; 0; 0x52; 0x60; 5; 0x60; 1; 0x55; 0x60; 32; 0x60; 0; 0xf3].
Definition code_200 : bytes := [0x60; 5; 0x60; 1; 0x55; 0xfe].
Definition code_300 : bytes :=
  [0x60; 0; 0x60; 0; 0x60; 0; 0x60; 0; 0x60; 0; 0x60; 200; 0x61; 0x75; 0x30; 0xf1;
   0x60; 0; 0x52; 0x60; 32; 0x60; 0; 0xf3].
Definition world : cstate :=
  sSetCode 300 code_300 (sSetCode 200 code_200 (sSetCode 100 code_100 (sAddBalance 77 1000 empty_state))).
Lemma is_bytes_list (c : bytes) : forallb (λ x, (0 <=? x) && (x <? 256)) c = true → is_bytes c.
Proof.
  intros Hf. apply Forall_forall. intros x Hx.
  rewrite forallb_forall in Hf. apply list_elem_of_In, Hf in Hx. boolp. by split.
Qed.
Lemma code_ok_list (c : bytes) :
  forallb (λ x, (0 <=? x) && (x <? 256)) c = true → (length c ≤ 1024)%nat → code_ok c.
Proof. intros Hf Hl. split; [by apply is_bytes_list|unfold zlen; lia]. Qed.
Lemma world_inv : VmLaws.sinv world.
Proof.
  unfold world. eapply sinv_sop; [|apply so_code; [done|apply code_ok_list; [reflexivity|vm_compute; lia]]].
  eapply sinv_sop; [|apply so_code; [done|apply code_ok_list; [reflexivity|vm_compute; lia]]].
  eapply sinv_sop; [|apply so_code; [done|apply code_ok_list; [reflexivity|vm_compute; lia]]].
  eapply sinv_sop; [exact empty_state_inv|by apply so_add].
Qed.
Definition start_evm : evmst cstate := mkEvmst world 0 0 false [] ∅.
Lemma NewEVM_start : NewEVM test_env world = Some start_evm.
Proof. reflexivity. Qed.
Lemma start_evm_wf : wf_evm start_evm.
Proof. split; [exact world_inv|split; [apply Z.le_refl|reflexivity]|apply is_bytes_nil]. Qed.

(** A frame about to run [code_100]. *)
Definition start_frame (gas : Z) : machine cstate := frame world code_100 [] gas.
Lemma start_frame_wf gas : 0 ≤ gas < 2 ^ 62 → wf_machine (start_frame gas).
Proof.
  intros Hg. split.
  - exact start_evm_wf.
  - apply Z.le_refl.
  - apply Forall_nil_2.
  - apply is_bytes_nil.
  - vm_compute. discriminate.
  - split; [|apply code_ok_nil|exact Hg|apply Z.le_refl|by split..].
    apply code_ok_list; [reflexivity|vm_compute; lia].
Qed.
Lemma start_30000_wf : wf_machine (start_frame 30000).
Proof. by apply start_frame_wf. Qed.

(** ** Transactions and blocks *)

(** A key is a number, and its signature of anything the number, one, and
    zero, from which [open_recover] gets the key. *)
Definition open_sign (h : bytes) (k : Z) : option bytes :=
  if decide (1 ≤ k < secp256k1N) then Some (be_bytes 32 k ++ be_bytes 32 1 ++ [0]) else None.
#[export] Instance open_signing : Signing := {| PrivateKey := Z; Sign := open_sign |}.
(** The parts of such a signature. *)
Lemma open_parts (a b : bytes) : length a = 32%nat → length b = 32%nat → is_bytes a → is_bytes b →
  let sig := a ++ b ++ [0] in
  is_bytes sig ∧ length sig = 65%nat ∧ (nth 64 sig 0 = 0 ∨ nth 64 sig 0 = 1) ∧ take 32 sig = a ∧ take 32 (drop 32 sig) = b ∧ take 64 sig = a ++ b.
Proof.
  intros Ha Hb Ba Bb sig. subst sig. split_and!.
  - apply is_bytes_app. split; [done|]. apply is_bytes_app. split; [done|by repeat constructor].
  - by rewrite !length_app, Ha, Hb.
  - left. rewrite !app_nth2 by (rewrite ?Ha; lia). by rewrite Ha, Hb.
  - by rewrite take_app_length'.
  - by rewrite drop_app_length', take_app_length'.
  - rewrite app_assoc, take_app_length'; [done|]. by rewrite length_app, Ha, Hb.
Qed.
Definition open_key (k : Z) : bytes := 4 :: be_bytes 32 k ++ be_bytes 32 1.
Lemma open_sign_ok h k sig : open_sign h k = Some sig →
  is_bytes sig ∧ length sig = 65%nat ∧ (nth 64 sig 0 = 0 ∨ nth 64 sig 0 = 1) ∧
  1 ≤ be_val (take 32 sig) < secp256k1N ∧ 1 ≤ be_val (take 32 (drop 32 sig)) ≤ secp256k1halfN ∧
  Ecrecover h sig = Some (open_key k).
Proof.
  unfold open_sign. case_decide as Hk; [|done]. intros <-%(inj Some).
  destruct (open_parts (be_bytes 32 k) (be_bytes 32 1)) as (H1 & H2 & H3 & H4 & H5 & H6);
    [apply length_be_bytes..|apply is_bytes_be_bytes|apply is_bytes_be_bytes|].
  assert (Hn : secp256k1N < 256 ^ Z.of_nat 32) by done.
  split; [exact H1|]. split; [exact H2|]. split; [exact H3|]. rewrite H4, H5, !be_val_be_bytes.
  split; [rewrite Z.mod_small; lia|]. split; [by vm_compute|].
  cbn [Ecrecover toy_precompiles]. unfold open_recover. by rewrite decide_True, H6 by exact H2.
Qed.
#[export] Instance open_signing_laws : SigningLaws :=
  @Build_SigningLaws _ _ open_signing open_key (λ _, eq_refl) open_sign_ok.

(** The encoding of accounts of [Concrete.v] checks the code hash. *)
Lemma decode_codehash (b : bytes) y : decode_account_raw b = Some y → codehash_ok y.
Proof.
  unfold decode_account_raw. destruct (SplitList b) as [[l [|? ?]]| | |]; try done.
  destruct (SplitString l) as [[n l1]| | |]; try done. destruct (SplitString l1) as [[bl l2]| | |]; try done.
  destruct (SplitString l2) as [[rt l3]| | |]; try done. destruct (SplitString l3) as [[ch [|? ?]]| | |]; try done.
  case_decide as H; [|done]. intros [= <-]. by destruct H.
Qed.
#[export] Instance rlp_codec_laws : AccountCodecLaws := λ x y _ E, decode_codehash _ y E.
(** ** A block of one payment *)

Definition payer : Z := pub_address (open_key 5).
Lemma payer_addr : is_addr payer.
Proof. apply BytesToAddress_range. Qed.
Definition paid_state : cstate := sAddBalance payer (10 ^ 9) world.
Lemma paid_state_inv : state_inv paid_state.
Proof. apply (state_inv_sop world); [exact world_inv|]. apply (so_add (S:=cstate)); [exact payer_addr|done]. Qed.
Definition block_tx : Transaction :=
  match SignTx (NewTransaction 0 99 3 21000 10 []) (EIP155Signer 1 2) 5 with Ok tx => tx | _ => NewTransaction 0 0 0 0 0 [] end.
Lemma block_tx_ok : tx_ok block_tx.
Proof.
  split; [|by apply code_ok_nil|done].
  split; try done; try (split; by vm_compute); by vm_compute.
Qed.
Definition header_10 : Header :=
  mkHeader 7 0 1 0 0 0 zero_bloom 1 10 100000 21000 1000 [] 0 (replicate 8 0).
Definition block_10 : Block := mkBlock header_10 [] [block_tx].
Definition no_chain : Z → Z → option Header := λ _ _, None.
Lemma context_10 author : is_addr (match author with None => 1 | Some a => a end) → context_ok (ethash_context no_chain) header_10 author.
Proof. intros H. split; [by destruct author|by vm_compute|done]. Qed.
