(* ===== verification/WordOps.v ===== *)
(** * What the arithmetic instructions compute

    The instructions of [core/vm/instructions.go] that work on words, against
    the arithmetic of two's complement numbers: signed division and
    remainder, signed comparison, sign extension, bytes, shifts and powers. *)

From S2P Require Import Prelude BigMath Params Memory Interfaces Machine Instructions.
From S2P Require Import StateDB CoreEvm Concrete ConcreteVm.

(** Runs the stack operations of an instruction. *)
Ltac steps :=
  cbv beta iota zeta delta
    [mbind M_bind mret M_ret vpop vpush vpeek vset modify with_stack stack evm pc mem contract done_nil].

Section WordOps.
Context {S : Type}.
Implicit Types (m : machine S) (r : Stack).

(** The signed value of the low [b] bits. *)
Definition signed (b x : Z) : Z := (x + 2 ^ (b - 1)) mod 2 ^ b - 2 ^ (b - 1).

Lemma S256_signed x : is_u256 x → Math.S256 x = signed 256 x.
Proof.
  unfold is_u256, Math.S256, signed, Math.tt255, Math.tt256. intros H.
  change (256 - 1) with 255. destruct (Z.ltb_spec x (2 ^ 255)).
  - rewrite Z.mod_small by lia. lia.
  - rewrite <- (Z.mod_unique (x + 2 ^ 255) (2 ^ 256) 1 (x + 2 ^ 255 - 2 ^ 256)); lia.
Qed.

Lemma Sign_0 x : (Big.Sign x =? 0) = (x =? 0).
Proof. unfold Big.Sign. destruct (Z.eqb_spec x 0); [by subst|]. apply Z.eqb_neq. lia. Qed.

Lemma quot_cases x y : y ≠ 0 → x ≠ 0 →
  Z.quot x y = if Big.Sign x =? Big.Sign y then Z.abs x / Z.abs y else - (Z.abs x / Z.abs y).
Proof.
  intros Hy Hx. rewrite Z.quot_div by done. unfold Big.Sign.
  destruct (Z.lt_trichotomy x 0) as [?|[?|?]], (Z.lt_trichotomy y 0) as [?|[?|?]]; try lia;
    rewrite ?(Z.sgn_neg x), ?(Z.sgn_neg y), ?(Z.sgn_pos x), ?(Z.sgn_pos y) by done;
    cbn [Z.eqb Pos.eqb]; lia.
Qed.
Lemma rem_cases x y : y ≠ 0 →
  Z.rem x y = if Big.Sign x <? 0 then - (Z.abs x mod Z.abs y) else Z.abs x mod Z.abs y.
Proof.
  intros Hy. rewrite Z.rem_mod by done. unfold Big.Sign.
  destruct (Z.lt_trichotomy x 0) as [?|[?|?]].
  - rewrite Z.sgn_neg by done. simpl. lia.
  - subst. simpl. by rewrite Zmod_0_l.
  - rewrite Z.sgn_pos by done. simpl. lia.
Qed.

(** SDIV replaces its operands by the truncated quotient of the signed words modulo 2^256,
    and by zero when the divisor is zero. *)
Theorem opSdiv_spec m x y r : stack m = x :: y :: r → is_u256 x → is_u256 y →
  opSdiv m = Done [] (with_stack (Math.U256 (Z.quot (Math.S256 x) (Math.S256 y)) :: r) m).
Proof.
  destruct m as [v p st mm c]. simpl. intros -> Hx Hy. unfold opSdiv. steps.
  rewrite !Sign_0. set (a := Math.S256 x). set (b := Math.S256 y).
  destruct (Z.eqb_spec b 0) as [->|Hb]; [by replace (Z.quot a 0) with 0 by (by destruct a)|].
  destruct (Z.eqb_spec a 0) as [->|Ha]; [by rewrite Z.quot_0_l|].
  rewrite quot_cases by done. cbn [orb]. by destruct (Big.Sign a =? Big.Sign b).
Qed.

(** SMOD replaces its operands by the remainder with the sign of the dividend, and by zero
    when the divisor is zero. *)
Theorem opSmod_spec m x y r : stack m = x :: y :: r → is_u256 x → is_u256 y →
  opSmod m = Done [] (with_stack
    ((if y =? 0 then 0 else Math.U256 (Z.rem (Math.S256 x) (Math.S256 y))) :: r) m).
Proof.
  destruct m as [v p st mm c]. simpl. intros -> Hx Hy. unfold opSmod. steps. rewrite !Sign_0.
  assert (Hz : (Math.S256 y =? 0) = (y =? 0)).
  { unfold Math.S256, Math.tt255, Math.tt256, is_u256 in *. destruct (Z.ltb_spec y (2 ^ 255)); [done|].
    destruct (Z.eqb_spec y 0), (Z.eqb_spec (y - 2 ^ 256) 0); lia. }
  rewrite Hz. destruct (Z.eqb_spec y 0) as [|Hy0]; [done|].
  rewrite rem_cases by (by apply Z.eqb_neq). by destruct (Big.Sign (Math.S256 x) <? 0).
Qed.

(** SLT and SGT, which compare through the sign bit, compare the two words as signed numbers.
    *)
Theorem signed_comparisons_spec m x y r : stack m = x :: y :: r → is_u256 x → is_u256 y →
  opSlt m = Done [] (with_stack (bool_int (Math.S256 x <? Math.S256 y) :: r) m) ∧
  opSgt m = Done [] (with_stack (bool_int (Math.S256 y <? Math.S256 x) :: r) m).
Proof.
  destruct m as [v p st mm c]. simpl. intros -> Hx Hy. unfold opSlt, opSgt. steps.
  unfold Math.S256, tt255, Math.tt255, Math.tt256, is_u256 in *.
  destruct (Z.leb_spec (2 ^ 255) x), (Z.ltb_spec x (2 ^ 255)); try lia;
  destruct (Z.leb_spec (2 ^ 255) y), (Z.ltb_spec y (2 ^ 255)); try lia; cbn [andb]; split; do 3 f_equal;
    repeat match goal with |- context [?a <? ?b] => destruct (Z.ltb_spec a b) end; try lia; done.
Qed.

(** [num] and the bits above [k] replaced by bit [k]. *)
Lemma signed_bits num k : 0 ≤ num → 0 ≤ k →
  (if 0 <? Big.Bit num k then Z.lor num (Z.lnot (Z.shiftl 1 k - 1)) else Z.land num (Z.shiftl 1 k - 1))
  = signed (k + 1) num.
Proof.
  intros Hn Hk. unfold Big.Bit, signed. rewrite Z.add_simpl_r, Z.shiftl_1_l.
  replace (2 ^ k - 1) with (Z.ones k) by (rewrite Z.ones_equiv; lia).
  assert (H2 : 2 ^ (k + 1) = 2 * 2 ^ k) by (rewrite Z.pow_add_r by lia; lia).
  pose proof (Z.pow_pos_nonneg 2 k ltac:(lia) Hk) as Hp.
  pose proof (Z.mod_pos_bound num (2 ^ k) Hp) as Hm.
  assert (Hdec : num = 2 ^ (k + 1) * (num / 2 ^ (k + 1)) + (Z.b2z (Z.testbit num k) * 2 ^ k + num mod 2 ^ k)).
  { rewrite (Z.div_mod num (2 ^ k)) at 1 by lia. rewrite (Z.div_mod (num / 2 ^ k) 2) at 1 by lia.
    rewrite Z.div_div by lia. rewrite (Z.testbit_spec' num k) by done.
    rewrite H2, (Z.mul_comm (2 ^ k) 2). ring. }
  destruct (Z.testbit num k) eqn:Hb; cbn [Z.ltb Z.compare Z.b2z] in *.
  - assert (Hlor : Z.lor num (Z.lnot (Z.ones k)) = num mod 2 ^ k - 2 ^ k).
    { rewrite <- (Z.lnot_involutive (Z.lor _ _)), Z.lnot_lor, Z.lnot_involutive, Z.land_ones by done.
      unfold Z.lnot. rewrite <- (Z.mod_unique (Z.pred (- num)) (2 ^ k) (- (num / 2 ^ k) - 1) (2 ^ k - 1 - num mod 2 ^ k)).
      - lia.
      - left. lia.
      - pose proof (Z.div_mod num (2 ^ k)). lia. }
    rewrite Hlor. rewrite <- (Z.mod_unique (num + 2 ^ k) (2 ^ (k + 1)) (num / 2 ^ (k + 1) + 1) (num mod 2 ^ k)).
    + done.
    + left. lia.
    + rewrite Hdec at 1. lia.
  - rewrite Z.land_ones by done.
    rewrite <- (Z.mod_unique (num + 2 ^ k) (2 ^ (k + 1)) (num / 2 ^ (k + 1)) (num mod 2 ^ k + 2 ^ k)).
    + lia.
    + left. lia.
    + rewrite Hdec at 1. lia.
Qed.

(** SIGNEXTEND with an index below 31 gives the two's complement value of the low bytes of
    the word, and keeps the word otherwise. *)
Theorem opSignExtend_spec m back num r : stack m = back :: num :: r → is_u256 back → is_u256 num →
  opSignExtend m = Done [] (with_stack
    ((if back <? 31 then Math.U256 (signed (8 * (back + 1)) num) else num) :: r) m).
Proof.
  destruct m as [v p st mm c]. simpl. intros -> Hb Hn. unfold opSignExtend. steps.
  destruct (Z.ltb_spec back 31); [|done]. steps. unfold is_u256 in *.
  rewrite Big.Uint64_id by (unfold is_u64; lia).
  do 3 f_equal. rewrite signed_bits by lia. do 2 f_equal. lia.
Qed.

(** BYTE gives the byte of the word counted from the most significant, read through the
    machine words of the big integer, and zero past the last. *)
Theorem opByte_spec m th val r : stack m = th :: val :: r → is_u256 th → is_u256 val →
  opByte m = Done [] (with_stack
    ((if th <? 32 then val / 256 ^ (31 - th) mod 256 else 0) :: r) m).
Proof.
  destruct m as [v p st mm c]. simpl. intros -> Ht Hv. unfold opByte. steps.
  destruct (Z.ltb_spec th 32); [|done]. unfold is_u256 in *.
  rewrite Big.Int64_id by lia. rewrite Math.Byte_spec by (done || lia).
  rewrite Z2Nat.id by lia. done.
Qed.

(** EXP, which squares and multiplies word by word, gives the power modulo 2^256. *)
Theorem opExp_spec m base exponent r : stack m = base :: exponent :: r → 0 ≤ exponent →
  opExp m = Done [] (with_stack (base ^ exponent mod 2 ^ 256 :: r) m).
Proof.
  destruct m as [v p st mm c]. simpl. intros -> He. unfold opExp. steps. by rewrite Math.Exp_spec.
Qed.

(** C36: SDIV, SMOD, SLT, SGT, SIGNEXTEND and BYTE compute on words what their names say of two's
    complement numbers: truncated quotient, remainder with the sign of the dividend, signed order,
    extension of the low bytes, byte counted from the most significant. *)
Theorem signed_words_spec m x y r : stack m = x :: y :: r → is_u256 x → is_u256 y →
  opSdiv m = Done [] (with_stack (Math.U256 (Z.quot (Math.S256 x) (Math.S256 y)) :: r) m) ∧
  opSmod m = Done [] (with_stack
    ((if y =? 0 then 0 else Math.U256 (Z.rem (Math.S256 x) (Math.S256 y))) :: r) m) ∧
  opSlt m = Done [] (with_stack (bool_int (Math.S256 x <? Math.S256 y) :: r) m) ∧
  opSgt m = Done [] (with_stack (bool_int (Math.S256 y <? Math.S256 x) :: r) m) ∧
  opSignExtend m = Done [] (with_stack
    ((if x <? 31 then Math.U256 (signed (8 * (x + 1)) y) else y) :: r) m) ∧
  opByte m = Done [] (with_stack ((if x <? 32 then y / 256 ^ (31 - x) mod 256 else 0) :: r) m).
Proof.
  intros Hm Hx Hy. split; [by apply opSdiv_spec|]. split; [by apply opSmod_spec|].
  destruct (signed_comparisons_spec m x y r Hm Hx Hy) as [-> ->]. split; [done|]. split; [done|].
  split; [by apply opSignExtend_spec|by apply opByte_spec].
Qed.

(** Shifting by 256 or more. *)
Lemma pow_split s : 256 ≤ s → 2 ^ s = 2 ^ (s - 256) * 2 ^ 256.
Proof. intros. rewrite <- Z.pow_add_r by lia. f_equal. lia. Qed.
Lemma div_pow_small x s : 256 ≤ s → 0 ≤ x < 2 ^ 256 → x / 2 ^ s = 0.
Proof.
  intros Hs Hx. apply Z.div_small. pose proof (Z.pow_le_mono_r 2 256 s ltac:(lia) Hs). lia.
Qed.
Lemma div_pow_neg x s : 256 ≤ s → - 2 ^ 256 ≤ x < 0 → x / 2 ^ s = -1.
Proof.
  intros Hs Hx. pose proof (Z.pow_le_mono_r 2 256 s ltac:(lia) Hs).
  symmetry. apply (Z.div_unique _ _ (-1) (x + 2 ^ s)); lia.
Qed.

(** SHL, SHR and SAR multiply and divide by the power of two modulo 2^256, rounding down, for
    every shift including 256 and more. *)
Theorem shifts_spec m shift val r : stack m = shift :: val :: r → is_u256 shift → is_u256 val →
  opSHL m = Done [] (with_stack (Math.U256 (val * 2 ^ shift) :: r) m) ∧
  opSHR m = Done [] (with_stack (val / 2 ^ shift :: r) m) ∧
  opSAR m = Done [] (with_stack (Math.U256 (Math.S256 val / 2 ^ shift) :: r) m).
Proof.
  destruct m as [v p st mm c]. simpl. intros -> Hs Hv. unfold opSHL, opSHR, opSAR. steps.
  rewrite (Math.U256_id shift), (Math.U256_id val) by done.
  pose proof (Math.S256_range val Hv) as HS. unfold is_u256 in *.
  destruct (Z.leb_spec 256 shift) as [Hbig|Hsmall].
  - split_and!.
    + do 3 f_equal. rewrite Math.U256_mod, pow_split, Z.mul_assoc by done. by rewrite Z_mod_mult.
    + by rewrite div_pow_small.
    + do 3 f_equal. f_equal. unfold Big.Sign. destruct (Z.leb_spec 0 (Z.sgn (Math.S256 val))).
      * rewrite div_pow_small by lia. done.
      * rewrite div_pow_neg by lia. done.
  - rewrite Big.Uint64_id by (unfold is_u64; lia). split_and!.
    + by rewrite Z.shiftl_mul_pow2 by lia.
    + rewrite Z.shiftr_div_pow2 by lia. rewrite Math.U256_id; [done|].
      assert (1 ≤ 2 ^ shift) by (apply (Z.pow_le_mono_r 2 0); lia).
      unfold is_u256. split; [apply Z.div_pos; lia|]. apply Z.div_lt_upper_bound; nia.
    + by rewrite Z.shiftr_div_pow2 by lia.
Qed.

End WordOps.

(** ** Instances *)

Definition minus (x : Z) : Z := 2 ^ 256 - x.
Abbreviation on st := (frame empty_state [] st 100).

Lemma opSdiv_spec_witness : opSdiv (on [minus 7; 2]) = Done [] (on [minus 3]).
Proof. rewrite (opSdiv_spec _ (minus 7) 2 []) by (done || (vm_compute; done)). vm_compute. reflexivity. Defined.
Lemma opSmod_spec_witness : opSmod (on [minus 7; 2]) = Done [] (on [minus 1]).
Proof. rewrite (opSmod_spec _ (minus 7) 2 []) by (done || (vm_compute; done)). vm_compute. reflexivity. Defined.
Lemma signed_comparisons_spec_witness :
  opSlt (on [minus 7; 2]) = Done [] (on [1]) ∧ opSgt (on [minus 7; 2]) = Done [] (on [0]).
Proof.
  destruct (signed_comparisons_spec (on [minus 7; 2]) (minus 7) 2 [] eq_refl) as [H1 H2];
    [vm_compute; done..|]. rewrite H1, H2. split; vm_compute; reflexivity.
Defined.
Lemma opSignExtend_spec_witness : opSignExtend (on [0; 0xff; 5]) = Done [] (on [minus 1; 5]).
Proof. rewrite (opSignExtend_spec _ 0 0xff [5]) by (vm_compute; done). vm_compute. reflexivity. Defined.
Lemma opByte_spec_witness : opByte (on [30; 0x1234]) = Done [] (on [0x12]).
Proof. rewrite (opByte_spec _ 30 0x1234 []) by (vm_compute; done). vm_compute. reflexivity. Defined.
Lemma opExp_spec_witness : opExp (on [3; 200]) = Done [] (on [3 ^ 200 mod 2 ^ 256]).
Proof. rewrite (opExp_spec _ 3 200 []) by (vm_compute; done). reflexivity. Defined.
Lemma shifts_spec_witness :
  opSAR (on [1; minus 8]) = Done [] (on [minus 4]) ∧ opSHL (on [300; 1]) = Done [] (on [0]).
Proof.
  split.
  - destruct (shifts_spec (on [1; minus 8]) 1 (minus 8) [] eq_refl) as (_ & _ & H); [vm_compute; done..|].
    rewrite H. vm_compute. reflexivity.
  - destruct (shifts_spec (on [300; 1]) 300 1 [] eq_refl) as (H & _); [vm_compute; done..|].
    rewrite H. vm_compute. reflexivity.
Defined.
Lemma signed_words_spec_witness :
  opSdiv (on [minus 7; 2]) = Done [] (on [minus 3]) ∧ opSmod (on [minus 7; 2]) = Done [] (on [minus 1]) ∧
  opSlt (on [minus 7; 2]) = Done [] (on [1]).
Proof.
  destruct (signed_words_spec (on [minus 7; 2]) (minus 7) 2 [] eq_refl) as (H1 & H2 & H3 & _);
    [vm_compute; done..|]. rewrite H1, H2, H3. split; [|split]; vm_compute; reflexivity.
Defined.
