(* ===== verification/LibTheorems.v ===== *)
(** * Theorems on the parts under the virtual machine

    Jump destinations, memory and its price, words and bytes, the gas handed
    to calls, the precompiled contracts, the fork configuration and RLP. *)

From S2P Require Import StateDB CoreEvm Concrete ConcreteVm.
From S2P Require Import Prelude BigMath Params Analysis Memory Rlp Interfaces.
From S2P Require Import Machine Gas Instructions Precompiles VmLaws.
From S2P Require Import VmPrecompiles.

(** ** analysis.go, instructions.go: where a jump may go *)

(** codeBitmap, which sets bits one and eight at a time, marks exactly the bytes that a walk
    over the instructions finds to be push data. *)
Theorem codeBitmap_marks_data (code : bytes) (p : nat) : (p < length code)%nat →
  ∃ bits, codeBitmap code = Ok bits ∧ codeSegment bits p = Ok (negb (is_data code p)).
Proof.
  intros Hp. destruct (codeBitmap_spec code) as (bits & Hb & Hl & Hd). exists bits. split; [done|].
  rewrite codeSegment_getbit.
  - by rewrite Hd.
  - pose proof (div8_mono p (length code) ltac:(lia)). lia.
Qed.
Lemma codeBitmap_marks_data_witness :
  ∃ bits, codeBitmap [0x61; 0x5b; 0x5b; 0x5b] = Ok bits ∧ codeSegment bits 2 = Ok false ∧
          codeSegment bits 3 = Ok true.
Proof.
  destruct (codeBitmap_marks_data [0x61; 0x5b; 0x5b; 0x5b] 2) as (b2 & E2 & H2); [vm_compute; lia|].
  destruct (codeBitmap_marks_data [0x61; 0x5b; 0x5b; 0x5b] 3) as (b3 & E3 & H3); [vm_compute; lia|].
  rewrite E2 in E3. injection E3 as <-. exists b2. split; [exact E2|]. split; [exact H2|exact H3].
Defined.

(** C33: With a cache that belongs to the code, JUMP moves the program counter exactly to a
    JUMPDEST byte that is not push data, and fails without moving it for any other target,
    whatever its width. *)
Theorem jump_reaches_jumpdest {S} (m : machine S) pos r :
  stack m = pos :: r → 0 ≤ pos → zlen (Code (contract m)) ≤ 2 ^ 62 →
  cache_ok (jumpdests (evm m)) (CodeHash (contract m)) (Code (contract m)) →
  (valid_jumpdest (Code (contract m)) pos →
     ∃ m', opJump m = Done [] m' ∧ pc m' = pos ∧ stack m' = r) ∧
  (¬ valid_jumpdest (Code (contract m)) pos →
     ∃ e m', opJump m = Fail e m' ∧ pc m' = pc m).
Proof.
  intros Hs Hp Hl Hc. destruct (has_spec _ _ _ pos Hp Hl Hc) as (d & Hd & _ & _).
  unfold opJump, jump_to, jumpdest_has, mbind, M_bind, vpop. rewrite Hs. simpl. rewrite Hd.
  split; intros Hv.
  - rewrite bool_decide_true by done. eexists. split; [done|]. simpl. split; [|done].
    destruct Hv as (_ & Hv & _). apply lookup_lt_Some in Hv. unfold zlen in Hl.
    apply Big.Uint64_id. unfold is_u64. lia.
  - rewrite bool_decide_false by done. eexists _, _. by split.
Qed.
Lemma jump_reaches_jumpdest_witness :
  (∃ m', opJump (frame empty_state [0x60; 0x5b; 0x5b] [2] 9) = Done [] m' ∧ pc m' = 2) ∧
  (∃ e m', opJump (frame empty_state [0x60; 0x5b; 0x5b] [1] 9) = Fail e m' ∧ pc m' = 0).
Proof.
  split.
  - destruct (jump_reaches_jumpdest (frame empty_state [0x60; 0x5b; 0x5b] [2] 9) 2 []) as [H _];
      [reflexivity|lia|vm_compute; discriminate|intros m H; discriminate H|].
    destruct H as (m' & H1 & H2 & _); [split; [lia|split; vm_compute; reflexivity]|]. exists m'. split; [exact H1|exact H2].
  - destruct (jump_reaches_jumpdest (frame empty_state [0x60; 0x5b; 0x5b] [1] 9) 1 []) as [_ H];
      [reflexivity|lia|vm_compute; discriminate|intros m H; discriminate H|].
    apply H. intros (_ & _ & Hd). vm_compute in Hd. discriminate Hd.
Defined.

(** ** memory.go, gas_table.go: memory and its price *)

(** A word stored in memory in range reads back, the length stays, and every range disjoint
    from it reads as before. *)
Theorem mstore_mload (m : Memory) offset val : Memory.in_range m offset 32 → is_u256 val →
  ∃ m' d, Memory_Set32 m offset val = Ok m' ∧ Memory_Get m' offset 32 = Ok d ∧ Big.SetBytes d = val ∧
    zlen (store m') = zlen (store m) ∧
    ∀ o l, 0 ≤ o → 0 ≤ l → o + l ≤ offset ∨ offset + 32 ≤ o → o + l ≤ zlen (store m) →
      Memory_Get m' o l = Memory_Get m o l.
Proof.
  intros Hr Hv. pose proof Hr as (H1 & H2 & H3 & H4). unfold is_u256 in Hv.
  eexists _, (be_bytes 32 val). rewrite Memory_Set32_ok by done. split; [done|].
  rewrite Z.abs_eq by lia.
  assert (Hz : zlen (copy_into (store m) offset 32 (be_bytes 32 val)) = zlen (store m)).
  { unfold zlen in *. rewrite length_copy_into by (unfold zlen; lia). done. }
  split_and!.
  - rewrite Memory_Get_ok by (unfold Memory.in_range; simpl; lia). simpl.
    rewrite copy_into_region by (done || lia). done.
  - unfold Big.SetBytes. rewrite be_val_be_bytes. apply Z.mod_small. change (256 ^ Z.of_nat 32) with (2 ^ 256). lia.
  - done.
  - intros o l Ho Hl Hd Hin. rewrite !Memory_Get_ok by (unfold Memory.in_range; simpl; lia). simpl.
    by rewrite copy_into_frame by lia.
Qed.
Lemma mstore_mload_witness :
  ∃ m' d, Memory_Set32 (mkMemory (replicate 64 7) 6) 16 1000 = Ok m' ∧ Memory_Get m' 16 32 = Ok d ∧
          Big.SetBytes d = 1000.
Proof.
  destruct (mstore_mload (mkMemory (replicate 64 7) 6) 16 1000) as (m' & d & H1 & H2 & H3 & _).
  - vm_compute. split_and!; discriminate || reflexivity.
  - vm_compute. split; discriminate || reflexivity.
  - exists m', d. split; [exact H1|]. split; [exact H2|exact H3].
Defined.

(** The price of [w] words of memory. *)
Definition memory_price (w : Z) : Z := MemoryGas * w + w * w / QuadCoeffDiv.
(** C34: Up to 0x1FFFFFFFE0 bytes of memory the fee is exactly the difference of the quadratic
    prices, with no wrap-around, and growing to a size already paid costs nothing. *)
Theorem memoryGasCost_exact (m : Memory) (size w0 : Z) :
  0 < size ≤ 0x1FFFFFFFE0 → zlen (store m) = 32 * w0 → lastGasCost m = memory_price w0 →
  let w := (size + 31) / 32 in
  memoryGasCost m size =
    if w0 <? w then Ok (memory_price w - memory_price w0, mkMemory (store m) (memory_price w))
    else Ok (0, m).
Proof.
  intros Hs Hz Hlast w. unfold memoryGasCost.
  destruct (Z.eqb_spec size 0); [lia|]. destruct (Z.ltb_spec 0xffffffffe0 size); [lia|].
  rewrite toWordSize_spec by (unfold is_u64; lia). fold w.
  pose proof (Z.div_mod (size + 31) 32 ltac:(lia)). pose proof (Z.mod_pos_bound (size + 31) 32 ltac:(lia)).
  fold w in H. assert (Hw : 1 ≤ w ≤ 2 ^ 32 - 1) by lia.
  rewrite (u64_id (w * 32)) by (unfold is_u64; lia). unfold Len. rewrite Hz.
  destruct (Z.ltb_spec w0 w) as [Hlt|Hge]; destruct (Z.ltb_spec (32 * w0) (w * 32)); try lia; [|done].
  assert (Hw0 : 0 ≤ w0) by (pose proof (zlen_nonneg (store m)); lia).
  assert (Hsq : 0 ≤ w * w < 2 ^ 64) by nia. assert (Hsq0 : w0 * w0 ≤ w * w) by nia.
  rewrite (u64_id (w * w)) by done. rewrite (u64_id (w * MemoryGas)) by (unfold is_u64, MemoryGas; lia).
  assert (Hq : 0 ≤ w * w / 512 < 2 ^ 55).
  { split; [apply Z.div_pos; lia|]. apply Z.div_lt_upper_bound; lia. }
  pose proof (Z.div_le_mono (w0 * w0) (w * w) 512 ltac:(lia) Hsq0).
  unfold memory_price, QuadCoeffDiv, MemoryGas in *.
  assert (0 ≤ w0 * w0 / 512) by (apply Z.div_pos; nia).
  rewrite Hlast. rewrite (u64_id (w * 3 + _)) by (unfold is_u64; lia).
  rewrite u64_id by (unfold is_u64; lia). do 2 f_equal; [f_equal; lia|f_equal; lia].
Qed.
Lemma memoryGasCost_exact_witness :
  memoryGasCost (mkMemory [] 0) 1000 = Ok (98, mkMemory [] 98).
Proof.
  rewrite (memoryGasCost_exact (mkMemory [] 0) 1000 0) by (vm_compute; (split; reflexivity || discriminate) || reflexivity).
  vm_compute. reflexivity.
Defined.

(** Past that size, and below the limit of the code, the square wraps. *)
(** Between 0x1FFFFFFFE0 and the bound in the code the square of the word count wraps: 2^37
    bytes are charged the linear fee only, 2^55 gas less than their price. *)
Theorem memoryGasCost_wraps :
  memoryGasCost NewMemory (2 ^ 37) = Ok (MemoryGas * 2 ^ 32, mkMemory [] (MemoryGas * 2 ^ 32)) ∧
  memory_price (2 ^ 32) = MemoryGas * 2 ^ 32 + 2 ^ 55.
Proof. split; vm_compute; reflexivity. Qed.

(** ** common/math: checked arithmetic, words and bytes *)

(** SafeAdd, SafeSub and SafeMul give the result modulo 2^64 and report an overflow exactly
    when the mathematical result does not fit. *)
Theorem safe_arithmetic_detects_overflow (x y : Z) : is_u64 x → is_u64 y →
  Math.SafeAdd x y = (u64 (x + y), negb (bool_decide (is_u64 (x + y)))) ∧
  Math.SafeSub x y = (u64 (x - y), negb (bool_decide (is_u64 (x - y)))) ∧
  Math.SafeMul x y = (u64 (x * y), negb (bool_decide (is_u64 (x * y)))).
Proof.
  intros Hx Hy. split_and!; [by apply Math.SafeAdd_spec|by apply Math.SafeSub_spec|by apply Math.SafeMul_spec].
Qed.
Lemma safe_arithmetic_detects_overflow_witness :
  Math.SafeAdd (2 ^ 64 - 1) 1 = (0, true) ∧ Math.SafeMul 5 6 = (30, false).
Proof.
  destruct (safe_arithmetic_detects_overflow (2 ^ 64 - 1) 1) as (H1 & _); [by vm_compute|by vm_compute|].
  destruct (safe_arithmetic_detects_overflow 5 6) as (_ & _ & H2); [by vm_compute|by vm_compute|].
  rewrite H1, H2. split; vm_compute; reflexivity.
Defined.

(** PaddedBigBytes writes a number that fits as exactly so many big-endian bytes. *)
Theorem PaddedBigBytes_pads (x : Z) (n : nat) : 0 ≤ x < 256 ^ Z.of_nat n →
  Math.PaddedBigBytes x n = be_bytes n x.
Proof.
  intros Hx. unfold Math.PaddedBigBytes. destruct (Z.leb_spec (Z.of_nat n) (Big.BitLen x / 8)) as [Hle|Hlt].
  - unfold Big.Bytes. rewrite Z.abs_eq by lia. f_equal.
    assert (Hb : Big.BitLen x ≤ 8 * Z.of_nat n).
    { apply Big.BitLen_le; [lia|]. rewrite Z.abs_eq by lia. rewrite Z.pow_mul_r by lia. apply Hx. }
    pose proof (Z.div_le_mono (Big.BitLen x) (8 * Z.of_nat n) 8 ltac:(lia) Hb) as H8.
    rewrite Z.mul_comm, Z.div_mul in H8 by lia.
    pose proof (Z.div_mod (Big.BitLen x) 8 ltac:(lia)). pose proof (Z.mod_pos_bound (Big.BitLen x) 8 ltac:(lia)).
    assert (Hbl : Big.BitLen x = 8 * Z.of_nat n) by lia.
    unfold Big.nbytes. rewrite Hbl. replace (8 * Z.of_nat n + 7) with (7 + Z.of_nat n * 8) by lia.
    rewrite Z.div_add by lia. change (7 / 8) with 0. lia.
  - rewrite Math.ReadBits_zeros. f_equal. lia.
Qed.
Lemma PaddedBigBytes_pads_witness : Math.PaddedBigBytes 0x1234 4 = [0; 0; 0x12; 0x34].
Proof. rewrite (PaddedBigBytes_pads 0x1234 4) by (split; vm_compute; [discriminate|reflexivity]). reflexivity. Defined.

(** getDataBig reads any range of the data: its result has the size asked for, the bytes in
    range are those of the data and the others are zero. *)
Theorem getDataBig_pads (data : bytes) (start size : Z) :
  0 ≤ start → 0 ≤ size < 2 ^ 63 → zlen data < 2 ^ 63 →
  ∃ out, getDataBig data start size = Ok out ∧ zlen out = size ∧
    ∀ i, 0 ≤ i < size → out !! Z.to_nat i = Some (default 0 (data !! Z.to_nat (start + i))).
Proof. apply getDataBig_spec. Qed.
Lemma getDataBig_pads_witness :
  ∃ out, getDataBig [1; 2; 3] 2 2 = Ok out ∧ out !! 0%nat = Some 3 ∧ out !! 1%nat = Some 0.
Proof.
  destruct (getDataBig_pads [1; 2; 3] 2 2) as (out & H & _ & Hi); [lia|lia|vm_compute; reflexivity|].
  exists out. split; [exact H|]. split; [exact (Hi 0 ltac:(lia))|exact (Hi 1 ltac:(lia))].
Defined.

(** ** gas.go: the gas a call may take *)

(** With EIP150 a call may take at most all but one 64th of the gas left after its base cost;
    before, it takes what it asks, or errs past 64 bits. *)
Theorem callGas_all_but_64th (gt : GasTable) (avail base cost : Z) :
  is_u64 avail → 0 ≤ base ≤ avail → 0 ≤ cost →
  callGas gt avail base cost =
    if 0 <? CreateBySuicide gt then Ok (Z.min cost ((avail - base) - (avail - base) / 64))
    else if bool_decide (is_u64 cost) then Ok cost else Err errGasUintOverflow.
Proof.
  intros Ha Hb Hc. unfold callGas. rewrite (u64_id (avail - base)) by (unfold is_u64 in *; lia).
  set (g := avail - base - (avail - base) / 64).
  assert (Hg : 0 ≤ g < 2 ^ 64).
  { unfold g, is_u64 in *. pose proof (Z.div_pos (avail - base) 64).
    pose proof (Z.div_le_upper_bound (avail - base) 64 (avail - base)). lia. }
  destruct (64 <? Big.BitLen cost) eqn:Hbit.
  - assert (Hn : ¬ is_u64 cost) by (rewrite <- Big.BitLen_gt64 by done; by rewrite Hbit).
    rewrite bool_decide_false, andb_true_r by done. destruct (0 <? CreateBySuicide gt); [|done].
    unfold is_u64 in Hn. f_equal. lia.
  - apply Big.BitLen_gt64 in Hbit; [|done]. rewrite Big.Uint64_id, bool_decide_true by done. cbn [orb].
    destruct (0 <? CreateBySuicide gt); [|done]. cbn [andb]. destruct (Z.ltb_spec g cost); f_equal; lia.
Qed.
Lemma callGas_all_but_64th_witness : callGas GasTableEIP158 6500 100 (2 ^ 200) = Ok 6300.
Proof. rewrite (callGas_all_but_64th GasTableEIP158 6500 100 (2 ^ 200)) by (vm_compute; by split || discriminate). reflexivity. Defined.

(** ** contracts.go *)

(** A precompiled contract whose fee is at most 2^62 gas returns a byte string or a Go error,
    and does not panic, on any input. *)
Theorem precompiles_run `{PL : PrecompileLaws} `{CRY : Crypto} (p : PrecompiledContract) (input : bytes) (gas : Z) :
  code_ok input → RequiredGas p input = Ok gas → gas ≤ 2 ^ 62 →
  (∃ out, Precompiled_Run p input = Ok out ∧ code_ok out) ∨ (∃ e, Precompiled_Run p input = Err e).
Proof. intros Hi Hr Hg. exact (Precompiled_Run_ok p input gas Hi Hr Hg). Qed.
(** 2 to the power 10 modulo 1000. *)
Definition modexp_input : bytes :=
  be_bytes 32 1 ++ be_bytes 32 1 ++ be_bytes 32 2 ++ [2; 10; 3; 232].
Lemma precompiles_run_witness :
  (∃ out, Precompiled_Run bigModExp modexp_input = Ok out ∧ code_ok out) ∧
  Precompiled_Run bigModExp modexp_input = Ok [0; 24].
Proof.
  split; [|vm_compute; reflexivity].
  destruct (precompiles_run bigModExp modexp_input 0) as [H|[e H]].
  - split; [by apply is_bytes_list|vm_compute; reflexivity].
  - vm_compute. reflexivity.
  - vm_compute. discriminate.
  - exact H.
  - exfalso. vm_compute in H. discriminate H.
Defined.

(** With the default gas of a read-only call the modular exponentiation can
    index out of range: the sum of the lengths wraps. *)
Definition modexp_panic_input : bytes :=
  be_bytes 32 1 ++ be_bytes 32 (2 ^ 64 - 1) ++ be_bytes 32 1 ++ [5].
(** There is an input whose modular exponentiation fee is below half of the largest gas and
    whose execution panics on a slice bound, because the sum of two lengths wraps. *)
Theorem bigModExp_can_panic {CRY : Crypto} {PCR : PrecompileCrypto} :
  RequiredGas bigModExp modexp_panic_input = Ok 7378697629483820633 ∧
  7378697629483820633 ≤ MaxUint64 / 2 ∧
  Precompiled_Run bigModExp modexp_panic_input = Panic.
Proof. split_and!; vm_compute; reflexivity || discriminate. Qed.

(** ** params/config.go: compatible configurations *)

(** CheckCompatible ends for every height, reports a conflict exactly when there is one at
    the height, and rewinds to a block at or below it where none is left, or to the genesis. *)
Theorem CheckCompatible_finds_conflict (c newcfg : ChainConfig) (height : Z) : is_u64 height →
  ∃ r, CheckCompatible c newcfg height = Ok r ∧
    (r = None ↔ checkCompatible c newcfg height = None) ∧
    ∀ e, r = Some e → 0 ≤ RewindTo e ≤ height ∧
      (checkCompatible c newcfg (RewindTo e) = None ∨ RewindTo e = 0).
Proof.
  intros Hh. destruct (CheckCompatible_loop_spec (Z.to_nat height + 2) c newcfg height None Hh)
    as (r & Hr & Hn & He); [left; lia|done|].
  exists r. split; [exact Hr|]. split; [naive_solver|done].
Qed.
Lemma CheckCompatible_finds_conflict_witness :
  ∃ r, CheckCompatible test_config (mkChainConfig (Some 1) (Some 9) None false (Some 0) 0 (Some 0) (Some 0) (Some 0) (Some 0) None) 20
       = Ok r ∧ r ≠ None ∧ (RewindTo <$> r) = Some 0.
Proof.
  destruct (CheckCompatible_finds_conflict test_config
    (mkChainConfig (Some 1) (Some 9) None false (Some 0) 0 (Some 0) (Some 0) (Some 0) (Some 0) None) 20)
    as (r & Hr & Hn & _); [by vm_compute|].
  exists r. split; [exact Hr|]. split.
  - intros E. apply Hn in E. vm_compute in E. discriminate E.
  - vm_compute in Hr. injection Hr as <-. reflexivity.
Defined.

(** ** rlp: the encoding and its canonical form *)

(** EncodeToBytes, which records list heads aside and merges them at the end, gives the
    recursive RLP encoding of every value. *)
Theorem encoding_is_rlp (v : val) :
  val_ok v → is_u64 (zlen (rlp v)) → EncodeToBytes v = Ok (rlp v).
Proof. apply EncodeToBytes_rlp. Qed.
Lemma encoding_is_rlp_witness :
  EncodeToBytes (VList [VBytes [99; 97; 116]; VUint 1024; VList []]) =
  Ok [200; 131; 99; 97; 116; 130; 4; 0; 192].
Proof.
  rewrite (encoding_is_rlp (VList [VBytes [99; 97; 116]; VUint 1024; VList []])).
  - vm_compute. reflexivity.
  - apply val_ok_list. apply Forall_cons_2; [|apply Forall_cons_2; [|apply Forall_cons_2; [|apply Forall_nil_2]]].
    + by apply is_bytes_list.
    + vm_compute. by split.
    + apply val_ok_list, Forall_nil_2.
  - vm_compute. by split.
Defined.

(** SplitString and SplitList accept exactly the canonical encodings: the input is the
    encoding of the content followed by the rest. *)
Theorem split_accepts_exactly_canonical (b content rest : bytes) : is_bytes b → is_u64 (zlen b) →
  (SplitString b = Ok (content, rest) ↔ b = rlp (VBytes content) ++ rest) ∧
  (SplitList b = Ok (content, rest) ↔ b = rlp_list content ++ rest).
Proof. intros Hb Hu. split; [by apply SplitString_iff|by apply SplitList_iff]. Qed.
Lemma split_accepts_exactly_canonical_witness :
  SplitString [0x82; 1; 2; 9] = Ok ([1; 2], [9]) ∧ SplitString [0x81; 5; 9] ≠ Ok ([5], [9]).
Proof.
  split.
  - apply (split_accepts_exactly_canonical [0x82; 1; 2; 9] [1; 2] [9]); [by apply is_bytes_list|by vm_compute|reflexivity].
  - intros H. apply (split_accepts_exactly_canonical [0x81; 5; 9] [5] [9]) in H; [|by apply is_bytes_list|by vm_compute].
    discriminate H.
Defined.

(** A byte string encoded with EncodeToBytes and followed by anything splits back into itself
    and the rest. *)
Theorem encode_then_split (b rest : bytes) :
  is_bytes b → is_bytes rest → is_u64 (zlen (rlp (VBytes b) ++ rest)) →
  ∃ e, EncodeToBytes (VBytes b) = Ok e ∧ SplitString (e ++ rest) = Ok (b, rest).
Proof.
  intros Hb Hr Hu. exists (rlp (VBytes b)). split.
  - apply EncodeToBytes_rlp; [done|]. eapply is_u64_zlen_le, Hu. rewrite zlen_app.
    pose proof (zlen_nonneg rest). lia.
  - apply SplitString_iff; [|done|done]. apply is_bytes_app. split; [|done].
    apply is_bytes_rlp_bytes; [done|]. eapply is_u64_zlen_le, Hu. rewrite zlen_app.
    pose proof (zlen_rlp_bytes_ge b). pose proof (zlen_nonneg rest). simpl. lia.
Qed.
Lemma encode_then_split_witness :
  ∃ e, EncodeToBytes (VBytes (replicate 60 7)) = Ok e ∧ SplitString (e ++ [1]) = Ok (replicate 60 7, [1]).
Proof.
  apply (encode_then_split (replicate 60 7) [1]).
  - by apply is_bytes_list.
  - by apply is_bytes_list.
  - vm_compute. by split.
Defined.
