(* ===== verification/VmTheorems.v ===== *)
(** * Theorems on the virtual machine

    That it ends, stays within its gas, does not index out of range, and
    undoes what a failed call did; each with an instance on the concrete
    machine of [ConcreteVm.v]. *)

From S2P Require Import Prelude BigMath Params Analysis Memory Rlp Interfaces.
From S2P Require Import Machine Gas Instructions JumpTable Precompiles Evm.
From S2P Require Import VmLaws VmGas VmRules VmInstr VmPrecompiles VmCalls.
From S2P Require Import VmTable VmLoop.
From S2P Require Import StateDB CoreEvm StateEq StateRevert StateHistory StateSpec StateVm Concrete ConcreteVm.

Section Theorems.
Context {S : Type} `{!VMState S} `{!VMStateLaws S} {CRY : Crypto} {PCR : PrecompileCrypto} {PL : PrecompileLaws}.
Variable env : Env S.
Context `{!EnvLaws env}.

(** The loop, without and with the read-only rule. *)
Lemma free_loop_ok fuel : loop_ok (FK:=false) (Z.of_nat fuel) (run_loop env fuel).
Proof. by apply run_loop_ok. Qed.
Lemma static_loop_ok fuel : r_IsByzantium (chainRules env) = true →
  loop_ok (FK:=true) (Z.of_nat fuel) (run_loop env fuel).
Proof. intros H. by apply run_loop_ok. Qed.

(** What a finished computation of the machine is: neither out of fuel nor
    an index out of range, an unknown snapshot or a bad journal entry. *)
Definition ends (x : out S frame_result) : Prop :=
  match x with Done _ _ => True | Fail _ _ => False | Crash w => w = PRefund ∨ w = PCache | NoFuel => False end.
Definition eends {A} (x : eout S A) : Prop :=
  match x with EDone _ _ => True | ECrash w => w = PRefund ∨ w = PCache | ENoFuel => False end.

(** C1: A well-formed frame with less gas than fuel always ends: the interpreter loop never runs
    out of fuel, never indexes its stack, memory or code out of range, and never meets an unknown
    snapshot; only the refund counter and a foreign jump-destination bitmap can make it panic. *)
Theorem frames_end (fuel : nat) (m : machine S) :
  wf_machine m → Gas (contract m) < Z.of_nat fuel → ends (run_loop env fuel m).
Proof.
  intros W Hg. pose proof (free_loop_ok fuel m W Hg) as H. unfold wp in H.
  assert (Hf : ∀ e m', run_loop env fuel m ≠ Fail e m').
  { clear. revert m. induction fuel as [|fuel IH]; intros m e m'; [done|]. cbn [run_loop].
    destruct (abort env); [done|]. destruct (step _ _ _) as [[|o|o] m1|e1 m1|w|]; try done. }
  destruct (run_loop env fuel m) as [r m'|e m'|w|]; try done. by destruct (Hf e m').
Qed.

(** C2: The interpreter loop keeps a frame well-formed: the gas left is between zero and the gas
    given, the depth and the read-only flag come back, the code and the value stay, and the words
    on the stack stay non-negative. *)
Theorem frames_keep_within_gas (fuel : nat) (m m' : machine S) r :
  wf_machine m → Gas (contract m) < Z.of_nat fuel → run_loop env fuel m = Done r m' →
  wf_machine m' ∧ 0 ≤ Gas (contract m') ≤ Gas (contract m) ∧
  depth (evm m') = depth (evm m) ∧ readOnly (evm m') = readOnly (evm m) ∧
  Code (contract m') = Code (contract m) ∧ value (contract m') = value (contract m).
Proof.
  intros W Hg Hr. pose proof (free_loop_ok fuel m W Hg) as H. unfold wp in H. rewrite Hr in H.
  destruct H as [[F1 F2 F3 F4] _]. pose proof (wc_gas _ (wm_contract _ F1)).
  split_and!; try done; try lia; try apply F2; by rewrite F3.
Qed.

(** C3: Given less gas than fuel, Call, CallCode, StaticCall, Create and Create2 (with any salt)
    end on every well-formed virtual machine with a result or one of the two panics that the
    machine alone does not rule out; so does DelegateCall from a contract, while from any other
    caller it panics at the type assertion unless it is refused at once for NoRecursion or the
    depth. *)
Theorem calls_end (fuel : nat) (caller : ContractRef) (addr gas value salt : Z) (input : bytes) (v : evmst S) :
  wf_evm v → caller_ok caller → is_addr addr → code_ok input → 0 ≤ gas < Z.of_nat fuel → gas < 2 ^ 62 → 0 ≤ value →
  eends (Call env (run_loop env fuel) caller addr input gas value v) ∧
  eends (CallCode env (run_loop env fuel) caller addr input gas value v) ∧
  eends (StaticCall env (run_loop env fuel) caller addr input gas v) ∧
  eends (Create env (run_loop env fuel) caller input gas value v) ∧
  eends (Create2 env (run_loop env fuel) caller input gas value salt v) ∧
  match caller with
  | ContractOf _ => eends (DelegateCall env (run_loop env fuel) caller addr input gas v)
  | AccountRef _ => DelegateCall env (run_loop env fuel) caller addr input gas v =
      if NoRecursion env && (0 <? depth v) then EDone ([], gas, None) v
      else if CallCreateDepth <? depth v then EDone ([], gas, Some ErrDepth) v else ECrash PIndex
  end.
Proof.
  intros W Hc Ha Hi Hg Hg2 Hv. pose proof (free_loop_ok fuel) as HL.
  assert (He : ∀ A (x : E S A) Q, ewp x Q v → eends (x v)) by (intros A x Q; unfold ewp; by destruct (x v)).
  split_and!.
  - eapply He, (Call_ok (FK:=false)); try done; by left.
  - eapply He, (CallCode_ok (FK:=false)); try done; by left.
  - eapply He, (StaticCall_ok (FK:=false)); try done; by left.
  - eapply He, (Create_ok (FK:=false)); try done; by left.
  - eapply He, (Create2_ok (FK:=false)); try done; by left.
  - destruct caller as [a|c]; [|by eapply He, (DelegateCall_ok (FK:=false))].
    unfold DelegateCall, egets, mbind, E_bind. cbn. destruct (_ && _); [done|]. destruct (_ <? _); [done|]. unfold eread. by destruct (sSnapshot _).
Qed.

(** C4: A message call that ends in an error, nested calls and all, leaves a state equal to every
    reader to the one before, hands back between none and all of its gas, and restores the depth
    and the read-only flag. *)
Theorem failed_calls_restore (fuel : nat) (caller : ContractRef) (addr gas value : Z) (input : bytes)
    (v v' : evmst S) out left e :
  wf_evm v → caller_ok caller → is_addr addr → code_ok input → 0 ≤ gas < Z.of_nat fuel → gas < 2 ^ 62 → 0 ≤ value →
  Call env (run_loop env fuel) caller addr input gas value v = EDone (out, left, Some e) v' ∨
  CallCode env (run_loop env fuel) caller addr input gas value v = EDone (out, left, Some e) v' ∨
  StaticCall env (run_loop env fuel) caller addr input gas v = EDone (out, left, Some e) v' ∨
  (∃ c, caller = ContractOf c ∧
     DelegateCall env (run_loop env fuel) caller addr input gas v = EDone (out, left, Some e) v') →
  seq_ (statedb v') (statedb v) ∧ readers_eq (statedb v') (statedb v) ∧ 0 ≤ left ≤ gas ∧
  depth v' = depth v ∧ readOnly v' = readOnly v.
Proof.
  intros W Hc Ha Hi Hg Hg2 Hv. pose proof (free_loop_ok fuel) as HL.
  assert (He : ∀ x : E S call_result, (∃ ro, ewp x (call_res (FK:=false) ro gas v) v) → x v = EDone (out, left, Some e) v' →
    seq_ (statedb v') (statedb v) ∧ readers_eq (statedb v') (statedb v) ∧ 0 ≤ left ≤ gas ∧
    depth v' = depth v ∧ readOnly v' = readOnly v).
  { intros x [ro H] Hx. unfold ewp in H. rewrite Hx in H. destruct H as [K _ G _ R].
    split_and!; [by apply R|by apply seq_readers, R|apply G|apply G|apply K|apply K]. }
  intros [H|[H|[H|(c & -> & H)]]]; (eapply He; [eexists|exact H]).
  - eapply (Call_ok (FK:=false)); try done; by left.
  - eapply (CallCode_ok (FK:=false)); try done; by left.
  - eapply (StaticCall_ok (FK:=false)); try done; by left.
  - eapply (DelegateCall_ok (FK:=false)); try done; by left.
Qed.

(** C5: From Byzantium on, a static call changes nothing, whatever the code does and calls: every
    account keeps its balance, nonce, code and storage, and the refund counter stays. *)
Theorem static_calls_change_nothing (fuel : nat) (caller : ContractRef) (addr gas : Z) (input : bytes)
    (v v' : evmst S) r :
  r_IsByzantium (chainRules env) = true →
  wf_evm v → caller_ok caller → is_addr addr → code_ok input → 0 ≤ gas < Z.of_nat fuel → gas < 2 ^ 62 →
  StaticCall env (run_loop env fuel) caller addr input gas v = EDone r v' →
  accounts_eq (statedb v') (statedb v).
Proof.
  intros Hb W Hc Ha Hi Hg Hg2 Hr.
  pose proof (StaticCall_ok (FK:=true) env (λ _, Hb) (Z.of_nat fuel) _ caller addr input gas v
    (static_loop_ok fuel Hb) W Hc Ha Hi Hg Hg2) as H.
  unfold ewp in H. rewrite Hr in H. destruct H as [_ Hev _ _ _].
  destruct (Hev (wv_state _ W)) as (_ & _ & Hq). apply quiet_accounts, Hq. apply orb_true_r.
Qed.

End Theorems.

(** ** Instances *)

Lemma frames_end_witness : ends (run_loop test_env (Z.to_nat 30001) (start_frame 30000)).
Proof. apply (frames_end test_env); [exact start_30000_wf|reflexivity]. Defined.

(** The output, the error and the gas left of a frame. *)
Definition summary (x : out cstate frame_result) : option (bytes * option vmerror * Z) :=
  match x with Done (o, e) m => Some (o, e, Gas (contract m)) | _ => None end.
Abbreviation run_100 := (run_loop test_env (Z.to_nat 30001) (start_frame 30000)).
Lemma run_100_summary : summary run_100 = Some (be_bytes 32 7, None, 9970).
Proof. vm_compute. reflexivity. Qed.
Lemma frames_keep_within_gas_witness :
  ∃ r m, run_100 = Done r m ∧ 0 ≤ Gas (contract m) ≤ 30000 ∧ depth (evm m) = 0.
Proof.
  pose proof run_100_summary as Hs. destruct run_100 as [r m|e m|w|] eqn:E; try discriminate Hs.
  exists r, m. split; [reflexivity|].
  destruct (frames_keep_within_gas test_env (Z.to_nat 30001) (start_frame 30000) m r) as (_ & Hg & Hd & _).
  - exact start_30000_wf.
  - reflexivity.
  - exact E.
  - split; [exact Hg|exact Hd].
Defined.

Abbreviation loop := (run_loop test_env (Z.to_nat 30001)).
Lemma calls_end_witness :
  eends (Call test_env loop (AccountRef 77) 300 [] 30000 7 start_evm) ∧
  eends (Create2 test_env loop (AccountRef 77) [] 30000 7 (2 ^ 200) start_evm) ∧
  DelegateCall test_env loop (AccountRef 77) 300 [] 30000 start_evm = ECrash PIndex.
Proof.
  destruct (calls_end test_env (Z.to_nat 30001) (AccountRef 77) 300 30000 7 (2 ^ 200) [] start_evm)
    as (H1 & _ & _ & _ & H2 & H3).
  - exact start_evm_wf.
  - split; [vm_compute; discriminate|reflexivity].
  - split; [vm_compute; discriminate|reflexivity].
  - exact code_ok_nil.
  - split; [vm_compute; discriminate|reflexivity].
  - reflexivity.
  - vm_compute. discriminate.
  - split; [exact H1|]. split; [exact H2|exact H3].
Defined.

(** Contract 200 stores a word and fails. *)
Abbreviation call_200 := (Call test_env loop (AccountRef 77) 200 [] 30000 7 start_evm).
Definition error_of (x : eout cstate call_result) : option vmerror :=
  match x with EDone r _ => r.2 | _ => None end.
Lemma call_200_error : error_of call_200 = Some (errInvalidOpcode 0xfe).
Proof. vm_compute. reflexivity. Qed.
Lemma failed_calls_restore_witness :
  ∃ r v, call_200 = EDone r v ∧ r.2 = Some (errInvalidOpcode 0xfe) ∧ st_eq (statedb v) world.
Proof.
  pose proof call_200_error as He. destruct call_200 as [r v|w|] eqn:E; try discriminate He.
  destruct r as [[o left] e]. simpl in He. subst e.
  exists (o, left, Some (errInvalidOpcode 0xfe)), v. split; [reflexivity|]. split; [reflexivity|].
  destruct (failed_calls_restore test_env (Z.to_nat 30001) (AccountRef 77) 200 30000 7 [] start_evm v o left
    (errInvalidOpcode 0xfe)) as [Hs _]; [..|exact Hs].
  - exact start_evm_wf.
  - split; [vm_compute; discriminate|reflexivity].
  - split; [vm_compute; discriminate|reflexivity].
  - exact code_ok_nil.
  - split; [vm_compute; discriminate|reflexivity].
  - reflexivity.
  - vm_compute. discriminate.
  - left. exact E.
Defined.

(** Contract 300 calls 200, which tries to store. *)
Abbreviation static_300 := (StaticCall test_env loop (AccountRef 77) 300 [] 30000 start_evm).
Definition result_of {A} (x : eout cstate A) : option A :=
  match x with EDone r _ => Some r | _ => None end.
Lemma static_300_ends : result_of static_300 = Some (replicate 32 0, 442, None).
Proof. vm_compute. reflexivity. Qed.
Lemma static_calls_change_nothing_witness :
  ∃ r v, static_300 = EDone r v ∧ r = (replicate 32 0, 442, None) ∧ accounts_eq (statedb v) world.
Proof.
  pose proof static_300_ends as He. destruct static_300 as [r v|w|] eqn:E; try discriminate He.
  simpl in He. exists r, v. split; [reflexivity|]. split; [injection He as He; exact He|].
  apply (static_calls_change_nothing test_env (Z.to_nat 30001) (AccountRef 77) 300 30000 [] start_evm v r).
  - reflexivity.
  - exact start_evm_wf.
  - split; [vm_compute; discriminate|reflexivity].
  - split; [vm_compute; discriminate|reflexivity].
  - exact code_ok_nil.
  - split; [vm_compute; discriminate|reflexivity].
  - reflexivity.
  - exact E.
Defined.

