(* ===== verification/TransitionTheorems.v ===== *)
(** * Theorems on the transition of a message

    What a message costs and to whom, in every outcome; each with an instance
    on the concrete machine of [ConcreteVm.v]. *)

From S2P Require Import Prelude BigMath Params Analysis Memory Rlp Interfaces.
From S2P Require Import StateDB CoreEvm StateEq StateRevert StateHistory StateSpec StateVm Concrete ConcreteVm.
From S2P Require Import Machine Gas Instructions JumpTable Precompiles Evm StateTransition.
From S2P Require Import VmLaws VmLoop TransitionLaws.

Section Theorems.
Context {S : Type} `{!VMState S} `{!VMStateLaws S} {CRY : Crypto} {PCR : PrecompileCrypto} {PL : PrecompileLaws}.
Variable env : Env S.
Context `{!EnvLaws env}.

(** C6: A message applied to a well-formed machine ends; when it is accepted, the pool of the
    block loses exactly the gas it used, which is at most its gas and at least half its intrinsic
    gas, and the machine is well-formed again at the depth it was. *)
Theorem messages_settle (fuel : nat) (msg : Message) (v : evmst S) (p : GasPool) :
  wf_msg msg (Z.of_nat fuel) → wf_evm v → is_u64 p →
  match ApplyMessage env (run_loop env fuel) msg v p with
  | TOk (_, used, _) st =>
      wf_evm (st_evm st) ∧ depth (st_evm st) = depth v ∧ gp st = p - used ∧
      0 ≤ used ≤ msg_Gas msg ∧ intrinsic_of env msg ≤ msg_Gas msg ∧ intrinsic_of env msg ≤ 2 * used
  | TErr _ _ => True
  | TPanic (TPVM w) => w = PRefund ∨ w = PCache
  | TPanic TPGasPool | TNoFuel => False
  end.
Proof.
  intros HM W Hp. pose proof (ApplyMessage_ok env fuel msg v p HM W Hp) as H.
  destruct (ApplyMessage _ _ _ _ _) as [[[out used] failed] st|e st|[w|]|]; try done.
  destruct H as [H1 H2 H3 [H4 H5] _ H6 _]. split_and!; try done; [by apply H2|apply H3..].
Qed.

(** C7: A message call that fails in the machine moves exactly the price of the gas it used from
    its sender to the miner, raises the nonce of the sender, and changes no other balance and no
    other nonce. *)
Theorem failed_messages_cost_gas (fuel : nat) (msg : Message) (v : evmst S) (p : GasPool) t out used st :
  wf_msg msg (Z.of_nat fuel) → wf_evm v → is_u64 p → msg_To msg = Some t →
  ApplyMessage env (run_loop env fuel) msg v p = TOk (out, used, true) st →
  let paid a := if decide (a = msg_From msg) then used * msg_GasPrice msg else 0 in
  let earned a := if decide (a = Coinbase env) then used * msg_GasPrice msg else 0 in
  let nonce a s := (sGetNonce a s).1 in
  ∀ a, bal a (statedb (st_evm st)) = bal a (statedb v) - paid a + earned a ∧
       nonce a (statedb (st_evm st)) =
         if decide (a = msg_From msg) then u64 (nonce a (statedb v) + 1) else nonce a (statedb v).
Proof.
  intros HM W Hp Ht Hr. pose proof (ApplyMessage_ok env fuel msg v p HM W Hp) as H. rewrite Hr in H.
  apply (sd_failed _ _ _ _ _ _ H); [|done]. unfold creation. by rewrite Ht.
Qed.

(** C35: A message refused for its nonce, its balance or the limit of the block leaves the pool
    and every reader as they were; one refused later, for its intrinsic gas or its value, leaves
    the pool short of all its gas. *)
Theorem rejected_messages_change_nothing (fuel : nat) (msg : Message) (v : evmst S) (p : GasPool) e st :
  wf_msg msg (Z.of_nat fuel) → wf_evm v → is_u64 p →
  ApplyMessage env (run_loop env fuel) msg v p = TErr e st →
  match e with
  | VMError _ => gp st = p - msg_Gas msg
  | _ => gp st = p ∧ readers_eq (statedb (st_evm st)) (statedb v)
  end.
Proof.
  intros HM W Hp Hr. pose proof (ApplyMessage_ok env fuel msg v p HM W Hp) as H. rewrite Hr in H.
  destruct H as [[(H1 & H2 & _) Hne]|(_ & H1 & _ & e' & ->)]; [|done].
  destruct e; try (split; [done|by apply seq_readers]). by destruct (Hne e).
Qed.

End Theorems.

(** The intrinsic gas is the base fee plus 68 for each non-zero byte and 4 for each zero
    byte, and an error exactly when that does not fit in 64 bits. *)
Theorem IntrinsicGas_exact (data : bytes) (contractCreation homestead : bool) : is_u64 (zlen data) →
  IntrinsicGas data contractCreation homestead =
    let exact := (if contractCreation && homestead then 53000 else 21000)
                 + 68 * Z.of_nat (length (filter (λ b, b ≠ 0) data))
                 + 4 * Z.of_nat (length (filter (λ b, b = 0) data)) in
    if bool_decide (exact < 2 ^ 64) then Ok exact else Err ErrOutOfGas.
Proof.
  intros H. rewrite IntrinsicGas_spec by done. unfold intrinsic, TxDataNonZeroGas, TxDataZeroGas.
  assert (E : ∀ x, 0 ≤ x → bool_decide (is_u64 x) = bool_decide (x < 2 ^ 64)).
  { intros x Hx. apply bool_decide_ext. unfold is_u64. lia. }
  rewrite E; [done|]. unfold TxGasContractCreation, TxGas. destruct (_ && _); lia.
Qed.

(** ** Instances *)

(** Account 77 with ether to buy gas, and a message to contract 200, which
    fails. *)
Definition rich : cstate := sAddBalance 77 (10 ^ 9) world.
Lemma rich_inv : sinv rich.
Proof. eapply sinv_sop; [exact world_inv|by apply so_add]. Qed.
Definition rich_evm : evmst cstate := mkEvmst rich 0 0 false [] ∅.
Lemma rich_evm_wf : wf_evm rich_evm.
Proof. split; [exact rich_inv|split; [apply Z.le_refl|reflexivity]|apply is_bytes_nil]. Qed.
Definition message (gas nonce : Z) : Message := mkMessage 77 (Some 200) 3 gas 10 nonce true [].
Lemma message_wf gas nonce : 0 ≤ gas ≤ 60000 → is_u64 nonce → wf_msg (message gas nonce) (Z.of_nat (Z.to_nat 60001)).
Proof.
  intros Hg Hn. replace (Z.of_nat (Z.to_nat 60001)) with 60001 by reflexivity.
  split; unfold to; cbn [message msg_From msg_To msg_GasPrice msg_Gas msg_Value msg_Nonce msg_Data default];
    [by split|by split|lia..|done|apply code_ok_nil].
Qed.
Abbreviation mloop := (run_loop test_env (Z.to_nat 60001)).
Definition gas_left {A} (x : tout cstate (A * Z * bool)) : option (Z * bool) :=
  match x with TOk r _ => Some (r.1.2, r.2) | _ => None end.
Definition error_of {A} (x : tout cstate A) : option txerror :=
  match x with TErr e _ => Some e | _ => None end.

Abbreviation apply_fails := (ApplyMessage test_env mloop (message 50000 0) rich_evm 100000).
Abbreviation apply_nonce := (ApplyMessage test_env mloop (message 50000 7) rich_evm 100000).
Lemma apply_fails_gas : gas_left apply_fails = Some (50000, true).
Proof. vm_compute. reflexivity. Qed.
Lemma apply_nonce_error : error_of apply_nonce = Some ErrNonceTooHigh.
Proof. vm_compute. reflexivity. Qed.
Lemma message_0_wf : wf_msg (message 50000 0) (Z.of_nat (Z.to_nat 60001)).
Proof. apply message_wf; [split|split]; vm_compute; congruence. Qed.
Lemma message_7_wf : wf_msg (message 50000 7) (Z.of_nat (Z.to_nat 60001)).
Proof. apply message_wf; [split|split]; vm_compute; congruence. Qed.
Lemma pool_u64 : is_u64 100000.
Proof. split; vm_compute; congruence. Qed.

Lemma messages_settle_witness :
  ∃ out st, apply_fails = TOk (out, 50000, true) st ∧ gp st = 50000 ∧
    intrinsic_of test_env (message 50000 0) ≤ 2 * 50000.
Proof.
  pose proof apply_fails_gas as Hg.
  pose proof (messages_settle test_env (Z.to_nat 60001) (message 50000 0) rich_evm 100000
    message_0_wf rich_evm_wf pool_u64) as H.
  destruct apply_fails as [[[out used] failed] st|e st|w|]; try discriminate Hg.
  injection Hg as -> ->. exists out, st. split; [reflexivity|].
  split; [exact (proj1 (proj2 (proj2 H)))|exact (proj2 (proj2 (proj2 (proj2 (proj2 H)))))].
Defined.

Lemma failed_messages_cost_gas_witness :
  ∃ out st, apply_fails = TOk (out, 50000, true) st ∧
    bal 77 (statedb (st_evm st)) = bal 77 rich - 150000 ∧
    bal 99 (statedb (st_evm st)) = bal 99 rich + 150000 ∧
    bal 200 (statedb (st_evm st)) = bal 200 rich ∧ bal 77 rich = 1000001000.
Proof.
  pose proof apply_fails_gas as Hg. destruct apply_fails as [[[out used] failed] st|e st|w|] eqn:E; try discriminate Hg.
  injection Hg as -> ->. exists out, st. split; [reflexivity|].
  pose proof (failed_messages_cost_gas test_env (Z.to_nat 60001) (message 50000 0) rich_evm 100000 200 out 50000 st
    message_0_wf rich_evm_wf pool_u64 eq_refl E) as H. cbv zeta in H.
  split; [|split; [|split]]; [destruct (H 77) as [-> _]|destruct (H 99) as [-> _]|destruct (H 200) as [-> _]|];
    vm_compute; reflexivity.
Defined.

Lemma rejected_messages_change_nothing_witness :
  ∃ st, apply_nonce = TErr ErrNonceTooHigh st ∧ gp st = 100000 ∧ readers_eq (statedb (st_evm st)) rich.
Proof.
  pose proof apply_nonce_error as He. destruct apply_nonce as [r st|e st|w|] eqn:E; try discriminate He.
  injection He as ->. exists st. split; [reflexivity|].
  exact (rejected_messages_change_nothing test_env (Z.to_nat 60001) (message 50000 7) rich_evm 100000
    ErrNonceTooHigh st message_7_wf rich_evm_wf pool_u64 E).
Defined.

Lemma IntrinsicGas_exact_witness : IntrinsicGas [1; 0; 2; 0; 0] true true = Ok 53148.
Proof. rewrite (IntrinsicGas_exact [1; 0; 2; 0; 0] true true); [reflexivity|split; vm_compute; congruence]. Defined.
