(* ===== verification/EthashTheorems.v ===== *)
(** * Theorems on the proof-of-work engine

    Each with an instance on a small chain and a toy hash. *)

From S2P Require Import Prelude BigMath Params Memory Rlp Interfaces.
From S2P Require Import StateDB CoreEvm StateEq StateHistory StateVm Concrete ConcreteVm.
From S2P Require Import Header Block Machine VmLaws Hashimoto HashimotoLaws EthashSizes Ethash EthashLaws.

Section Theorems.
Context {CRY : Crypto} {C512 : Crypto512}.

(** The generation of the dataset of an epoch runs in the order [schedule]. *)
Definition dataset_schedule (fuel : nat) (epoch : Z) (test : bool) (schedule : list Z) : Prop :=
  ∃ size, (if test then Some (32 * 1024) else datasetSize fuel (u64 (epoch * epochLength + 1))) = Some size ∧
    interleaving size schedule.

(** The dataset and the verification cache of an epoch. *)
Lemma epoch_buffers fuel epoch (test : bool) : 0 ≤ epoch < 383 → ∃ size cache dataset,
  (if test then Some (32 * 1024) else datasetSize fuel (u64 (epoch * epochLength + 1))) = Some size ∧
  cache_generate fuel epoch test = Some cache ∧
  (∀ schedule, interleaving size schedule → dataset_generate fuel epoch test schedule = Some dataset) ∧
  ∀ hash nonce, ∃ digest result,
    hashimotoFull dataset hash nonce = Some (digest, result) ∧
    hashimotoLight size cache hash nonce = Some (digest, result) ∧
    length digest = 32%nat ∧ is_bytes digest ∧ length result = 32%nat ∧ is_bytes result.
Proof.
  intros He. destruct (epoch_rows_ok fuel epoch test He) as (crows & drows & HR).
  destruct (cache_generate_ok _ _ _ _ _ HR) as (cache & Ec & Hl). pose proof HR as (_ & Ed & Hc & Hd).
  exists (drows * mixBytes), cache, (full_dataset cache (2 * drows)). split_and!; [done|done| |].
  { intros schedule Hs. by eapply dataset_generate_ok. }
  intros hash nonce. rewrite (hashimotoFull_light cache crows) by (done || lia).
  destruct (hashimotoLight_total cache crows (drows * mixBytes) hash nonce) as (d & r & E & H); [lia|done| |].
  { unfold mixBytes. rewrite Z.div_mul, u32_id by (unfold is_u32; lia). lia. }
  exists d, r. by rewrite E.
Qed.

(** C27: In the first 383 epochs the dataset comes out the same from any number of threads in any
    interleaving, and hashing over it or over the small verification cache gives the same digest
    and result, with every index in range. *)
Theorem full_agrees_with_light (fuel : nat) (epoch : Z) (test : bool) : 0 ≤ epoch < 383 →
  ∃ size cache dataset,
    (if test then Some (32 * 1024) else datasetSize fuel (u64 (epoch * epochLength + 1))) = Some size ∧
    cache_generate fuel epoch test = Some cache ∧
    (∀ schedule, interleaving size schedule → dataset_generate fuel epoch test schedule = Some dataset) ∧
    ∀ hash nonce, ∃ digest result,
      hashimotoFull dataset hash nonce = Some (digest, result) ∧
      hashimotoLight size cache hash nonce = Some (digest, result).
Proof.
  intros He. destruct (epoch_buffers fuel epoch test He) as (size & cache & d & H1 & H2 & H3 & H4).
  exists size, cache, d. split_and!; try done. intros hash nonce.
  destruct (H4 hash nonce) as (x & y & Hf & Hl & _). by exists x, y.
Qed.

Definition real_mode (mode : Mode) : Prop := mode = ModeNormal ∨ mode = ModeTest.
Definition is_test (mode : Mode) : bool := bool_decide (mode = ModeTest).
(** A dataset that is ready was generated by some interleaving. *)
Definition generated_ok (fuel : nat) (test : bool) (generated : Z → option (list Z)) : Prop :=
  ∀ epoch d, generated epoch = Some d →
    ∃ schedule, dataset_schedule fuel epoch test schedule ∧ dataset_generate fuel epoch test schedule = Some d.

Lemma number_epoch n : 0 ≤ n < 383 * epochLength → Big.Uint64 n = n ∧ 0 ≤ n / epochLength < 383.
Proof.
  intros H. split; [|by apply epoch_range]. unfold Big.Uint64. rewrite Z.abs_eq by lia.
  apply u64_id. unfold is_u64, epochLength in *. lia.
Qed.

(** What sealing a header comes to: the dataset, and for each nonce its digest
    and result, with which the seal verifies exactly when it is on target. *)
Lemma sealing fuel generated mode fakeFail header schedule :
  real_mode mode → generated_ok fuel (is_test mode) generated →
  0 ≤ h_Number header < 383 * epochLength → 0 < h_Difficulty header →
  dataset_schedule fuel (h_Number header / epochLength) (is_test mode) schedule →
  ∃ dataset, dataset_generate fuel (h_Number header / epochLength) (is_test mode) schedule = Some dataset ∧
    ∀ nonce, ∃ d r, hashimotoFull dataset (hash_bytes (SealHash header)) nonce = Some (d, r) ∧
      length d = 32%nat ∧ is_bytes d ∧ length r = 32%nat ∧ is_bytes r ∧
      ∀ digest fulldag, is_u64 nonce →
        verifySeal fuel generated (mkEthash mode fakeFail None) (set_seal digest (EncodeNonce nonce) header) fulldag
          = Ok tt ↔ hash_bytes digest = d ∧ Big.SetBytes r ≤ two256 / h_Difficulty header.
Proof.
  intros Hm Hg Hn Hd Hsch. destruct (number_epoch _ Hn) as [En He].
  destruct (epoch_buffers fuel (h_Number header / epochLength) (is_test mode) He)
    as (size & cache & dataset & Esize & Ecache & Eds & Hboth).
  assert (Hall : ∀ sch, dataset_schedule fuel (h_Number header / epochLength) (is_test mode) sch →
                 dataset_generate fuel (h_Number header / epochLength) (is_test mode) sch = Some dataset).
  { intros sch (size' & Es' & Hi). apply Eds. by simplify_eq. }
  exists dataset. split; [by apply Hall|]. intros nonce.
  destruct (Hboth (hash_bytes (SealHash header)) nonce) as (d & r & Ef & El & Hdl & Hdb & Hrl & Hrb).
  exists d, r. split_and!; try done. intros digest fulldag Hs.
  cbn [verifySeal]. rewrite (bool_decide_eq_false_2 (mode = ModeFake)), (bool_decide_eq_false_2 (mode = ModeFullFake))
    by (destruct Hm as [-> | ->]; done).
  cbn [orb h_Difficulty set_seal h_Number h_Nonce h_MixDigest]. unfold Big.Sign.
  rewrite Z.sgn_pos by done. change (1 <=? 0) with false. cbv iota zeta.
  rewrite En, SealHash_set_seal, BlockNonce_EncodeNonce by done.
  change (bool_decide (mode = ModeTest)) with (is_test mode). rewrite Ecache. cbn [mbind option_bind].
  assert (Esz : (size' ← datasetSize fuel (h_Number header);
                 hashimotoLight (if is_test mode then 32 * 1024 else size') cache
                   (hash_bytes (SealHash header)) nonce) = Some (d, r)).
  { destruct (datasetSize_table fuel (h_Number header)) as (rows & Er & _); [unfold maxEpoch, epochLength in *; lia|].
    rewrite Er. cbn [mbind option_bind]. rewrite <- El. f_equal. destruct (is_test mode); [by injection Esize|].
    destruct (sizes_by_epoch fuel (u64 (h_Number header / epochLength * epochLength + 1)) (h_Number header)) as [_ E].
    { apply epoch_block. unfold maxEpoch. lia. }
    rewrite E, Er in Esize. by injection Esize. }
  assert (Epick : (if fulldag then match generated (h_Number header / epochLength) with
                                   | Some ds => hashimotoFull ds (hash_bytes (SealHash header)) nonce
                                   | None => size' ← datasetSize fuel (h_Number header);
                                       hashimotoLight (if is_test mode then 32 * 1024 else size') cache
                                         (hash_bytes (SealHash header)) nonce
                                   end
                   else size' ← datasetSize fuel (h_Number header);
                     hashimotoLight (if is_test mode then 32 * 1024 else size') cache
                       (hash_bytes (SealHash header)) nonce) = Some (d, r)).
  { rewrite Esz. destruct fulldag; [|done]. destruct (generated _) as [ds|] eqn:Eg; [|done].
    destruct (Hg _ _ Eg) as (sch & Hsch' & Egen). rewrite Hall in Egen by done. injection Egen as <-. done. }
  rewrite Epick. cbn [of_option res_bind]. case_bool_decide as Ed; cbn [negb]; [|split; [done|by intros [? _]]].
  destruct (Z.ltb_spec (two256 / h_Difficulty header) (Big.SetBytes r)); split; try done.
  intros [_ ?]. lia.
Qed.

(** A nonce wins when some digest makes a seal of it that verifies. *)
Definition wins (fuel : nat) (generated : Z → option (list Z)) (e : Ethash) (header : Header) (nonce : Z) : Prop :=
  ∃ digest, VerifySeal fuel generated e (set_seal digest (EncodeNonce nonce) header) = Ok tt.

(** C26: In the first 383 epochs, in normal and test mode and at any positive difficulty, the
    search tries the nonces in order from its seed, with wrap-around, and seals the header with
    the first one for which a seal can verify, if that is among its attempts: its seal then
    verifies, and otherwise the search goes on. At difficulty one, to which this engine sets every
    header although the comment of CalcDifficulty promises an adjustment (finding), that is the
    first nonce tried. *)
Theorem mining_finds_first_nonce (fuel : nat) (generated : Z → option (list Z)) (mode : Mode) (fakeFail : Z)
    (attempts : nat) (schedule : list Z) (header : Header) (seed : Z) (e := mkEthash mode fakeFail None) :
  real_mode mode → generated_ok fuel (is_test mode) generated →
  0 ≤ h_Number header < 383 * epochLength → 0 < h_Difficulty header → is_u64 seed →
  dataset_schedule fuel (h_Number header / epochLength) (is_test mode) schedule →
  ((∃ k digest, (k < attempts)%nat ∧
      (∀ j, (j < k)%nat → ¬ wins fuel generated e header (u64 (seed + Z.of_nat j))) ∧
      mine fuel e attempts schedule header seed
        = Ok (set_seal digest (EncodeNonce (u64 (seed + Z.of_nat k))) header) ∧
      VerifySeal fuel generated e (set_seal digest (EncodeNonce (u64 (seed + Z.of_nat k))) header) = Ok tt) ∨
   ((∀ j, (j < attempts)%nat → ¬ wins fuel generated e header (u64 (seed + Z.of_nat j))) ∧
    mine fuel e attempts schedule header seed = OutOfFuel)) ∧
  (h_Difficulty header = 1 → wins fuel generated e header seed).
Proof.
  intros Hm Hg Hn Hd Hs Hsch. destruct (number_epoch _ Hn) as [En He].
  destruct (sealing fuel generated mode fakeFail header schedule) as (ds & Eds & Hseal); [done..|].
  assert (Hwin : ∀ n, is_u64 n → wins fuel generated e header n ↔
            hits ds (hash_bytes (SealHash header)) (two256 / h_Difficulty header) n).
  { intros n Hu. destruct (Hseal n) as (d & r & Ef & Hdl & Hdb & _ & _ & Hv). split.
    - intros [digest E]. apply Hv in E as [_ E]; [|done]. by exists d, r.
    - intros (d' & r' & E' & Hle). rewrite Ef in E'. injection E' as <- <-. exists (BytesToHash d).
      apply Hv; [done|]. split; [by apply hash_bytes_BytesToHash|done]. }
  split.
  - unfold mine. cbv zeta. rewrite En. cbn [PowMode e]. destruct (Z.eqb_spec (h_Difficulty header) 0); [lia|].
    change (bool_decide (mode = ModeTest)) with (is_test mode). rewrite Eds. cbn [of_option res_bind].
    rewrite Z.sgn_pos, Z.mul_1_l, Z.abs_eq by lia.
    destruct (mine_loop_first attempts ds (hash_bytes (SealHash header)) (two256 / h_Difficulty header) header seed)
      as [(k & d & r & Hk & Hno & Ef & Hle & ->)|[Hno ->]]; [done| | |].
    + intros m. destruct (Hseal m) as (? & ? & -> & _). done.
    + left. exists k, (BytesToHash d). split_and!; [done| |done|].
      * intros j Hj. rewrite Hwin by apply u64_range. by apply Hno.
      * destruct (Hseal (u64 (seed + Z.of_nat k))) as (d' & r' & Ef' & Hdl & Hdb & _ & _ & Hv).
        rewrite Ef in Ef'. injection Ef' as <- <-. apply Hv; [apply u64_range|].
        split; [by apply hash_bytes_BytesToHash|done].
    + right. split; [|done]. intros j Hj. rewrite Hwin by apply u64_range. by apply Hno.
  - intros H1. apply Hwin; [done|]. destruct (Hseal seed) as (d & r & Ef & _ & _ & Hrl & Hrb & _).
    exists d, r. split; [done|]. rewrite H1, Z.div_1_r. pose proof (result_below_two256 r Hrl Hrb). lia.
Qed.

(** C28: In the first 383 epochs, in normal and test mode, a header that the search for a nonce
    returns differs from the one given in its nonce and digest only, and its seal verifies,
    against the full dataset or the cache, at any positive difficulty. (From epoch 384 on the
    generated dataset is wrong and it does not: finding.) *)
Theorem mined_blocks_verify (fuel : nat) (generated : Z → option (list Z)) (mode : Mode) (fakeFail : Z)
    (attempts : nat) (schedule : list Z) (header : Header) (seed : Z) (h' : Header) :
  real_mode mode → generated_ok fuel (is_test mode) generated →
  0 ≤ h_Number header < 383 * epochLength → 0 < h_Difficulty header → is_u64 seed →
  dataset_schedule fuel (h_Number header / epochLength) (is_test mode) schedule →
  mine fuel (mkEthash mode fakeFail None) attempts schedule header seed = Ok h' →
  (∃ digest nonce, h' = set_seal digest (EncodeNonce nonce) header) ∧
  ∀ fulldag, verifySeal fuel generated (mkEthash mode fakeFail None) h' fulldag = Ok tt.
Proof.
  intros Hm Hg Hn Hd Hs Hsch HM. destruct (number_epoch _ Hn) as [En He].
  destruct (sealing fuel generated mode fakeFail header schedule) as (ds & Eds & Hseal); [done..|].
  unfold mine in HM. cbv zeta in HM. rewrite En in HM. cbn [PowMode] in HM.
  destruct (Z.eqb_spec (h_Difficulty header) 0); [lia|].
  change (bool_decide (mode = ModeTest)) with (is_test mode) in HM. rewrite Eds in HM. cbn [of_option res_bind] in HM.
  rewrite Z.sgn_pos, Z.mul_1_l, Z.abs_eq in HM by lia.
  apply mine_loop_ok in HM as (nonce & d & r & Hnn & Hfull & Hle & ->); [|done].
  split; [by exists (BytesToHash d), nonce|]. intros fulldag.
  destruct (Hseal nonce) as (d' & r' & Ef & Hdl & Hdb & _ & _ & Hv). rewrite Ef in Hfull. injection Hfull as -> ->.
  apply Hv; [done|]. split; [by apply hash_bytes_BytesToHash|done].
Qed.

Lemma mine_first fuel mode fakeFail attempts schedule header seed :
  0 ≤ h_Number header < 383 * epochLength → h_Difficulty header = 1 →
  dataset_schedule fuel (h_Number header / epochLength) (is_test mode) schedule →
  ∃ digest, mine fuel (mkEthash mode fakeFail None) (S attempts) schedule header seed
            = Ok (set_seal digest (EncodeNonce seed) header).
Proof.
  intros Hn Hd (size' & Es' & Hi). destruct (number_epoch _ Hn) as [En He].
  destruct (epoch_buffers fuel (h_Number header / epochLength) (is_test mode) He)
    as (size & cache & dataset & Esize & _ & Eds & Hboth). rewrite Esize in Es'. injection Es' as <-.
  destruct (Hboth (hash_bytes (SealHash header)) seed) as (d & r & Ef & _ & _ & _ & Hl & Hb).
  exists (BytesToHash d). unfold mine. cbv zeta. rewrite Hd, En. cbn [PowMode]. change (1 =? 0) with false. cbv iota.
  change (bool_decide (mode = ModeTest)) with (is_test mode). rewrite Eds by done. cbn [of_option res_bind mine_loop].
  rewrite Ef. cbn [of_option res_bind]. pose proof (result_below_two256 r Hl Hb) as Hr.
  change (Z.sgn 1 * (two256 / Z.abs 1)) with two256. destruct (Z.leb_spec (Big.SetBytes r) two256); [done|lia].
Qed.

(** C29: verifyHeader accepts exactly the headers that satisfy the rules of a valid header: size
    of the extra data, time, the difficulty that the engine computes (which is one, whatever its
    comment says: finding), gas limits within a 1024th of the circular distance on 64 bits that
    the code computes, number, seal, and the extra data and hash of the forks. *)
Theorem verifyHeader_exact (fuel : nat) (generated : Z → option (list Z)) (now : Z) (e : Ethash)
    (chain : ChainReader) (h parent : Header) (uncle seal : bool) :
  is_u64 (h_GasLimit parent) → is_u64 (h_GasLimit h) →
  verifyHeader fuel generated now e chain h parent uncle seal = Ok tt ↔
  valid_header fuel generated now e chain h parent uncle seal.
Proof. intros Hp Hh. apply verifyHeader_iff; [done|apply Hh]. Qed.

(** The uncles of an accepted block are at most two and distinct; none is an ancestor, the
    block, or an uncle of the last seven ancestors; each is a valid child of the second to seventh
    ancestor, one to six blocks back. *)
Theorem verified_uncles_are_recent (fuel : nat) (generated : Z → option (list Z)) (now : Z) (e : Ethash)
    (chain : ChainReader) (block : Block) :
  chain_ok chain → 0 ≤ h_Number (b_header block) < 2 ^ 63 → PowMode e ≠ ModeFullFake →
  (∀ u, u ∈ b_uncles block → h_ParentHash u ≠ Header_Hash (b_header block)) →
  VerifyUncles fuel generated now e chain block = Ok tt →
  (length (b_uncles block) ≤ 2)%nat ∧ NoDup (map Header_Hash (b_uncles block)) ∧
  Forall (λ u, uncle_ok fuel generated now e chain (b_header block) u ∧
               h_Number (b_header block) - 6 ≤ h_Number u < h_Number (b_header block)) (b_uncles block).
Proof.
  intros Hc Hn Hm Hu Hv. unfold VerifyUncles in Hv. rewrite bool_decide_eq_false_2 in Hv by done.
  destruct (Z.ltb_spec maxUncles (zlen (b_uncles block))) as [|Hlen]; [done|].
  destruct block as [h us txs]. cbn [b_header b_uncles] in *.
  pose proof (λ U A, verify_uncles_ok fuel generated now e chain h us txs U A us Hc Hu) as HV.
  destruct (gather _ _ _ _ _ _) as [U0 A0].
  destruct (HV _ _ eq_refl (reflexivity _) Hv) as [Hnd Hf].
  unfold maxUncles, zlen in Hlen. split; [lia|]. split; [done|].
  eapply Forall_impl; [exact Hf|]. intros u [_ Hok]. split; [done|].
  destruct Hok as [(k & p & Hk & Hkp & _ & Hver) _ _].
  pose proof (ancestor_number chain k h p Hc Hn Hkp) as Hnum.
  assert (h_Number u = h_Number (b_header p) + 1).
  { unfold verifyHeader in Hver. cbv zeta in Hver. rewrite !then_ok, !ensure_ok, !Z.eqb_eq in Hver. lia. }
  lia.
Qed.

(** The rewards of a block give its miner the block reward and a 32nd of it for each uncle,
    the miner of each uncle an eighth less per generation, and nobody else anything. *)
Theorem rewards_paid {S : Type} `{!VMState S} `{!VMStateLaws S} (config : ChainConfig) (header : Header)
    (uncles : list Header) (s : S) :
  sinv s → is_addr (h_Coinbase header) →
  Forall (λ u, is_addr (h_Coinbase u) ∧ h_Number header - 6 ≤ h_Number u < h_Number header) uncles →
  let R := blockReward config header in
  sinv (accumulateRewards config header uncles s) ∧
  ∀ a, bal a (accumulateRewards config header uncles s) =
    bal a s + (if decide (a = h_Coinbase header) then R + zlen uncles * (R / 32) else 0)
            + uncle_rewards R header uncles a.
Proof.
  exact (accumulateRewards_ok config header uncles s).
Qed.

(** In every fork the difficulty function of the package stays at or above the minimum, moves
    by at most 99 2048ths down and 2 up besides the bomb, and never rises when the block comes
    later. *)
Theorem difficulty_bounded (config : ChainConfig) (time : Z) (parent : Header) :
  0 ≤ h_Number parent → 131072 ≤ h_Difficulty parent → h_Time parent ≤ time →
  let D := h_Difficulty parent in
  let d := CalcDifficulty config time parent - bomb config parent in
  131072 ≤ d ∧ D - 99 * (D / 2048) ≤ d ≤ D + 2 * (D / 2048) ∧
  ∀ time', time ≤ time' → CalcDifficulty config time' parent ≤ CalcDifficulty config time parent.
Proof.
  intros Hn HD Ht. cbv zeta. rewrite CalcDifficulty_spec by done.
  pose proof (difficulty_step_range config time parent Ht) as Hr.
  assert (64 ≤ h_Difficulty parent / 2048) by (apply Z.div_le_lower_bound; lia).
  split; [lia|]. split; [nia|]. intros time' Htt. rewrite CalcDifficulty_spec by done.
  pose proof (difficulty_step_mono config time time' parent Htt). nia.
Qed.

(** Whatever the order in which the workers finish, VerifyHeaders hands out the errors in the
    order of the headers, and all of them once every worker has reported. *)
Theorem VerifyHeaders_in_order (fuel : nat) (generated : Z → option (list Z)) (now : Z) (e : Ethash)
    (chain : ChainReader) (headers : list Header) (seals : list bool) (dones : list nat) :
  PowMode e ≠ ModeFullFake →
  let errors := map (verifyHeaderWorker fuel generated now e chain headers seals) (seq 0 (length headers)) in
  (∃ n, VerifyHeaders fuel generated now e chain headers seals dones = take n errors) ∧
  ((∀ i, (i < length headers)%nat → i ∈ dones) →
   VerifyHeaders fuel generated now e chain headers seals dones = errors).
Proof.
  intros Hm errors. unfold VerifyHeaders. rewrite bool_decide_eq_false_2 by done. cbn [orb].
  destruct headers as [|h0 headers]; [split; [by exists 0%nat|done]|].
  change (length (h0 :: headers) =? 0)%nat with false. cbv iota zeta. fold errors.
  assert (Hlen : length errors = length (h0 :: headers)) by (subst errors; by rewrite length_map, length_seq).
  destruct (dones_inv errors dones [] _ (start_inv errors)) as [Hl Hc [He Ho] Hn].
  rewrite He. split; [by eexists|]. intros Hall. apply take_ge.
  destruct (decide (out (fold_left (on_done errors) dones (mkVerifier (replicate (length errors) false) 0 []))
                    < length errors)%nat) as [Hlt|]; [|lia].
  destruct (Hn Hlt). rewrite app_nil_r. apply list_elem_of_In, in_rev. rewrite rev_involutive.
  apply list_elem_of_In, Hall. cbn [length] in *. lia.
Qed.
End Theorems.

(** ** Instances *)

#[local] Instance toy_512 : Crypto512 := {|
  Keccak512 b := be_bytes 64 (be_val (mix b) ^ 2);
  Keccak512_length := λ b, length_be_bytes 64 _;
  Keccak512_bytes := λ b, is_bytes_be_bytes 64 _;
|}.

(** A chain of three blocks, the last with an uncle beside the second. *)
Definition header_at (parent number time : Z) (coinbase : Z) : Header :=
  mkHeader parent EmptyUncleHash coinbase 0 0 0 [] 1 number 4700000 21000 time [] 0 (replicate 8 0).
Definition genesis : Header := header_at 0 0 100 7.
Definition first : Header := header_at (Header_Hash genesis) 1 110 7.
Definition rival : Header := header_at (Header_Hash genesis) 1 111 8.
Definition second : Header := header_at (Header_Hash first) 2 120 7.
Definition small_config : ChainConfig :=
  mkChainConfig (Some 1515) (Some 0) None false (Some 0) 0 (Some 0) (Some 0) (Some 0) None None.
Definition small_chain : ChainReader := mkChainReader small_config
  (λ h n, if (h =? Header_Hash genesis) && (n =? 0) then Some genesis
          else if (h =? Header_Hash first) && (n =? 1) then Some first else None)
  (λ h n, if (h =? Header_Hash genesis) && (n =? 0) then Some (mkBlock genesis [] [])
          else if (h =? Header_Hash first) && (n =? 1) then Some (mkBlock first [] []) else None).
Lemma small_chain_ok : chain_ok small_chain.
Proof.
  split; cbn [small_chain GetBlock]; intros h n b H;
    (destruct ((h =? Header_Hash genesis) && (n =? 0)) eqn:E1;
     [|destruct ((h =? Header_Hash first) && (n =? 1)) eqn:E2; [|discriminate]]);
    boolp; subst; injection H as <-; done.
Qed.
Definition faker : Ethash := mkEthash ModeFake 0 None.
Definition tester : Ethash := mkEthash ModeTest 0 None.
Definition none_ready : Z → option (list Z) := λ _, None.
Lemma none_ready_ok test : generated_ok 0 test none_ready.
Proof. by intros epoch d H. Qed.
(** One thread, on the small dataset of the test mode. *)
Definition one_thread : list Z := concat (map (thread_items (32 * 1024) 1) (seqZ 0 1)).
Lemma one_thread_ok : dataset_schedule 0 0 true one_thread.
Proof. exists (32 * 1024). split; [reflexivity|]. exists 1. split; [lia|reflexivity]. Qed.

Lemma full_agrees_with_light_witness :
  ∃ cache dataset, cache_generate 0 0 true = Some cache ∧ dataset_generate 0 0 true one_thread = Some dataset ∧
    ∀ nonce, hashimotoFull dataset [1] nonce = hashimotoLight (32 * 1024) cache [1] nonce.
Proof.
  destruct (full_agrees_with_light 0 0 true) as (size & cache & d & Hs & Hc & Hd & Hb); [lia|].
  injection Hs as <-. exists cache, d. split; [exact Hc|]. split.
  - apply Hd. exists 1. split; [lia|reflexivity].
  - intros nonce. destruct (Hb [1] nonce) as (x & y & -> & ->). reflexivity.
Defined.

(** The header of the second block, as the engine prepares it. *)
Definition prepared : Header := set_Difficulty 1 second.

Lemma mining_finds_first_nonce_witness :
  Prepare small_chain second = Ok prepared ∧
  ∃ digest, mine 0 tester 1 one_thread prepared 42 = Ok (set_seal digest (EncodeNonce 42) prepared) ∧
    VerifySeal 0 none_ready tester (set_seal digest (EncodeNonce 42) prepared) = Ok tt.
Proof.
  split; [vm_compute; reflexivity|].
  destruct (mining_finds_first_nonce 0 none_ready ModeTest 0 1 one_thread prepared 42)
    as [[(k & d & Hk & _ & HM & HV)|[Hno _]] Hw].
  - by right.
  - apply none_ready_ok.
  - split; vm_compute; congruence.
  - reflexivity.
  - split; vm_compute; congruence.
  - exact one_thread_ok.
  - assert (k = 0%nat) as -> by lia. exists d. split; [exact HM|exact HV].
  - destruct (Hno 0%nat); [lia|]. exact (Hw eq_refl).
Defined.

Lemma mined_blocks_verify_witness :
  ∃ sealed, mine 0 tester 1 one_thread second 42 = Ok sealed ∧
    verifySeal 0 none_ready tester sealed false = Ok tt ∧ verifySeal 0 none_ready tester sealed true = Ok tt.
Proof.
  destruct (mine_first 0 ModeTest 0 0 one_thread second 42) as [d E].
  { split; vm_compute; congruence. } { reflexivity. } { exact one_thread_ok. }
  destruct (mined_blocks_verify 0 none_ready ModeTest 0 1 one_thread second 42 (set_seal d (EncodeNonce 42) second))
    as [_ H].
  - by right.
  - apply none_ready_ok.
  - split; vm_compute; congruence.
  - reflexivity.
  - split; vm_compute; congruence.
  - exact one_thread_ok.
  - exact E.
  - eexists. split; [exact E|]. split; [exact (H false)|exact (H true)].
Defined.

Lemma verifyHeader_exact_witness : valid_header 0 none_ready 1000 faker small_chain second first false true.
Proof.
  apply (verifyHeader_exact 0 none_ready 1000 faker small_chain second first false true);
    [split; vm_compute; congruence|split; vm_compute; congruence|vm_compute; reflexivity].
Defined.

Lemma verified_uncles_are_recent_witness :
  uncle_ok 0 none_ready 1000 faker small_chain second rival ∧ 2 - 6 ≤ h_Number rival < 2.
Proof.
  destruct (verified_uncles_are_recent 0 none_ready 1000 faker small_chain (mkBlock second [rival] [])) as (_ & _ & H).
  - exact small_chain_ok.
  - split; vm_compute; congruence.
  - discriminate.
  - intros u Hu. apply list_elem_of_singleton in Hu as ->. vm_compute. congruence.
  - vm_compute. reflexivity.
  - exact (proj1 (Forall_singleton _ _) H).
Defined.

Lemma rewards_paid_witness :
  bal 7 (accumulateRewards small_config second [rival] world) = bal 7 world + 3093750000000000000 ∧
  bal 8 (accumulateRewards small_config second [rival] world) = bal 8 world + 2625000000000000000.
Proof.
  destruct (rewards_paid small_config second [rival] world world_inv) as [_ H].
  { by split. }
  { apply Forall_singleton. split; [by split|split; vm_compute; congruence]. }
  split; rewrite H; reflexivity.
Defined.

Lemma difficulty_bounded_witness :
  CalcDifficulty small_config 150 (set_Difficulty 2048000 first) ≤ CalcDifficulty small_config 111 (set_Difficulty 2048000 first)
  ∧ CalcDifficulty small_config 111 (set_Difficulty 2048000 first) = 2049000.
Proof.
  split; [|vm_compute; reflexivity].
  apply (difficulty_bounded small_config 111 (set_Difficulty 2048000 first)); vm_compute; congruence.
Defined.

Lemma VerifyHeaders_in_order_witness :
  VerifyHeaders 0 none_ready 1000 faker small_chain [first; second] [true; true] [1; 0]%nat = [Ok tt; Ok tt].
Proof.
  destruct (VerifyHeaders_in_order 0 none_ready 1000 faker small_chain [first; second] [true; true] [1; 0]%nat)
    as [_ H]; [discriminate|].
  rewrite H; [vm_compute; reflexivity|]. intros [|[|i]] Hi; [right; left|left|exfalso]. cbn in Hi. lia.
Defined.
