(* ===== verification/TrieTheorems.v ===== *)
(** * Properties of the Merkle Patricia trie *)

From S2P Require Import Prelude BigMath Rlp Interfaces TrieEncoding.
From S2P Require Import Concrete.
From S2P Require Import Trie TrieTree TrieHash TrieRep TrieCommit TrieMap TrieSpec TrieProof.

(** ** A concrete trie: two keys below a common nibble *)

Definition demo_leaf (v : bytes) : tree := TShort [16] (TValue v).
Definition demo_full : tree :=
  TFull ([TNil; demo_leaf [7]; demo_leaf (replicate 33 5)] ++ replicate 14 TNil).
Definition demo_tree : tree := TShort [0] demo_full.
Definition demo_world : list bytes := map blob [demo_tree; demo_full; demo_leaf [7]; demo_leaf (replicate 33 5)].
Definition demo_map : bmap := <[[1] := [7]]> (<[[2] := replicate 33 5]> ∅).
Definition empty_trie : Trie := mkTrie NNil 0 0.
Definition empty_db : Database := NewDatabase (λ _, None).
Lemma demo_tree_of : tree_of demo_map = demo_tree.
Proof. vm_compute. reflexivity. Qed.
Lemma demo_free : collision_free (λ b, b ∈ demo_world).
Proof. apply collision_free_list; apply (bool_decide_unpack _); vm_compute; exact I. Qed.
Lemma demo_in_world : in_world (λ b, b ∈ demo_world) demo_tree.
Proof.
  apply in_world_list. repeat (apply Forall_cons_2; [intros Hn; first [discriminate Hn|by apply (bool_decide_unpack _); vm_compute]|]).
  apply Forall_nil_2.
Qed.
Lemma demo_fits : fits demo_map.
Proof. apply (bool_decide_unpack _). vm_compute. exact I. Qed.
Lemma fits_empty : fits ∅.
Proof. apply map_Forall_empty. Qed.
Lemma empty_represents {CRY : Crypto} : represents empty_db empty_trie ∅.
Proof. exists TNil. split; [constructor|apply content_nil]. Qed.
Lemma empty_from {CRY : Crypto} world : db_from world empty_db.
Proof. intros h c. unfold empty_db, NewDatabase. cbn [nodes]. intros [<- _]%lookup_singleton_Some. by left. Qed.

(** ** A trie is a map with a root *)

(** C14: A trie, with the nodes it loads from its database on the way, answers any sequence of
    reads, updates, deletions, hashes and commits as a finite map from byte strings to byte
    strings does, the root being a function of the map; it ends and does not panic. Assumed: no
    two byte strings among the encodings that the commits store have one hash. *)
Theorem trie_refines_map {CRY : Crypto} (world : bytes → Prop) (ops : list op) (db : Database) (T : Trie) (m : bmap) :
  collision_free world → db_from world db → represents db T m → fits m → Forall op_ok ops →
  Forall (λ m, in_world world (tree_of m)) (committed ops m) →
  ∃ db' T', run ops (db, T) = Ok ((spec_run ops m).1, (db', T')) ∧ represents db' T' (spec_run ops m).2.
Proof.
  intros Hc F R Hf Ho Hw. destruct (run_spec world Hc ops db T m Ho R Hf Hw F) as (db' & T' & E & R' & _). eauto.
Qed.
Definition demo_ops : list op :=
  [OUpdate [1] [7]; OUpdate [2] (replicate 33 5); OGet [1]; OHash; OCommit; ODelete [1]; OGet [1]; OGet [2]].
Lemma trie_refines_map_witness : ∃ db' T', run demo_ops (empty_db, empty_trie) =
    Ok ([ADone; ADone; AValue (Some [7]); ARoot (root_of demo_map); ARoot (root_of demo_map); ADone; AValue None;
         AValue (Some (replicate 33 5))], (db', T')).
Proof.
  destruct (trie_refines_map (λ b, b ∈ demo_world) demo_ops empty_db empty_trie ∅) as (db' & T' & E & _).
  - exact demo_free.
  - apply empty_from.
  - apply empty_represents.
  - exact fits_empty.
  - repeat constructor; by vm_compute.
  - apply Forall_cons_2; [|apply Forall_nil_2]. exact demo_in_world.
  - exists db', T'. exact E.
Defined.

(** C16: Two tries with the same content have the same root hash, whatever the order of the
    operations, the nodes loaded and the hashes cached. *)
Theorem root_depends_on_content {CRY : Crypto} (db1 db2 : Database) (T1 T2 : Trie) (m : bmap) :
  represents db1 T1 m → represents db2 T2 m → fits m →
  ∃ T1' T2', Hash T1 = Ok (root_of m, T1') ∧ Hash T2 = Ok (root_of m, T2') ∧
    represents db1 T1' m ∧ represents db2 T2' m.
Proof.
  intros R1 R2 Hf. destruct (Hash_spec db1 T1 m R1 Hf) as (T1' & E1 & R1'). destruct (Hash_spec db2 T2 m R2 Hf) as (T2' & E2 & R2').
  by exists T1', T2'.
Qed.
(** The trie built in one order, and in the other with a detour. *)
Definition ok_trie {A} (x : tres (A * state)) : Trie := match x with Ok (_, (_, T)) => T | _ => empty_trie end.
Definition demo_trie1 : Trie := ok_trie (run [OUpdate [1] [7]; OUpdate [2] (replicate 33 5)] (empty_db, empty_trie)).
Definition demo_trie2 : Trie :=
  ok_trie (run [OUpdate [2] (replicate 33 5); OUpdate [3] [1]; OUpdate [1] [7]; OHash; OUpdate [3] []] (empty_db, empty_trie)).
Lemma run_keeps_db {CRY : Crypto} ops : ∀ s l s', OCommit ∉ ops → run ops s = Ok (l, s') → s'.1 = s.1.
Proof.
  induction ops as [|o ops IH]; intros [db T] l s' Ho; cbn [run]; [by intros [= _ <-]|].
  apply not_elem_of_cons in Ho as [Ho Hos]. intros H. apply res_bind_ok in H as ([a s1] & E1 & H).
  apply res_bind_ok in H as ([l2 s2] & E2 & H). injection H as _ <-.
  rewrite (IH s1 l2 s2 Hos E2). destruct o; cbn [step] in E1; try done; apply res_bind_ok in E1 as (r & _ & E1); by injection E1 as _ <-.
Qed.
Lemma run_no_commit {CRY : Crypto} ops : Forall op_ok ops → OCommit ∉ ops → committed ops ∅ = [] →
  represents empty_db (ok_trie (run ops (empty_db, empty_trie))) (spec_run ops ∅).2.
Proof.
  intros Ho Hn Hc. assert (Hw : collision_free (λ _, False)) by (split; by intros ?).
  assert (Hcom : Forall (λ m, in_world (λ _, False) (tree_of m)) (committed ops ∅)) by (by rewrite Hc).
  destruct (run_spec _ Hw ops empty_db empty_trie ∅ Ho empty_represents fits_empty Hcom (empty_from _))
    as (db' & T' & E & R & _). rewrite E. apply run_keeps_db in E; [|done]. cbn in E. by subst db'.
Qed.
Lemma root_depends_on_content_witness :
  ∃ T1' T2', Hash demo_trie1 = Ok (root_of demo_map, T1') ∧ Hash demo_trie2 = Ok (root_of demo_map, T2').
Proof.
  destruct (root_depends_on_content empty_db empty_db demo_trie1 demo_trie2 demo_map) as (T1' & T2' & E1 & E2 & _).
  - apply (run_no_commit [OUpdate [1] [7]; OUpdate [2] (replicate 33 5)]); [repeat constructor; by vm_compute|by apply (bool_decide_unpack _)|reflexivity].
  - apply (run_no_commit [OUpdate [2] (replicate 33 5); OUpdate [3] [1]; OUpdate [1] [7]; OHash; OUpdate [3] []]);
      [repeat constructor; by vm_compute|by apply (bool_decide_unpack _)|reflexivity].
  - exact demo_fits.
  - exists T1', T2'. split; [exact E1|exact E2].
Defined.

(** ** What is committed is found again *)

(** C15: A trie that is committed is found again: opening its root on the database gives a trie
    with the same content, and the tries that were readable before stay readable. *)
Theorem committed_trie_reopens {CRY : Crypto} (world : bytes → Prop) (db : Database) (T : Trie) (m : bmap) :
  collision_free world → db_from world db → represents db T m → fits m → in_world world (tree_of m) →
  ∃ T' db', Commit db T = Ok (root_of m, T', db') ∧ represents db' T' m ∧
    (∀ T2 m2, represents db T2 m2 → fits m2 → in_world world (tree_of m2) → represents db' T2 m2) ∧
    ((m ≠ ∅ → root_of m ≠ 0 ∧ root_of m ≠ emptyRoot) → ∀ limit, ∃ T2, New db' (root_of m) limit = Ok T2 ∧ represents db' T2 m).
Proof.
  intros Hc F R Hf W. destruct (Commit_spec world Hc db T m R Hf W F) as (T' & db' & E & R' & X & F' & Hst).
  exists T', db'. split; [done|]. split; [done|]. split; [intros; by eapply (represents_extends world Hc db)|].
  intros H0 limit. apply New_spec; [done|done|]. intros Hn. apply H0. by intros ->.
Qed.
Lemma committed_trie_reopens_witness : ∃ T' db' T2 , Commit empty_db demo_trie1 = Ok (root_of demo_map, T', db') ∧
  New db' (root_of demo_map) 120 = Ok T2 ∧ represents db' T2 demo_map.
Proof.
  destruct (committed_trie_reopens (λ b, b ∈ demo_world) empty_db demo_trie1 demo_map) as (T' & db' & E & _ & _ & H).
  - exact demo_free.
  - apply empty_from.
  - apply (run_no_commit [OUpdate [1] [7]; OUpdate [2] (replicate 33 5)]); [repeat constructor; by vm_compute|by apply (bool_decide_unpack _)|reflexivity].
  - exact demo_fits.
  - exact demo_in_world.
  - destruct (H ltac:(intros _; split; apply Z.eqb_neq; vm_compute; reflexivity) 120) as (T2 & E2 & R2). exists T', db', T2. split; [exact E|split; [exact E2|exact R2]].
Defined.

(** ** The encoding of a node is read back as the node *)

(** The encoding of a node of a trie, embedded nodes and all, decodes to the node that
    expanding the stored node gives. *)
Theorem stored_node_decodes {CRY : Crypto} (t : tree) (h : option bytes) (cg : Z) :
  wf false t → is_node t = true → encodable t →
  ∃ b n, EncodeToBytes (rnode_val (cnode t)) = Ok b ∧ decodeNode cg (S (length b)) h b = Ok n ∧
    expandNode h (cnode t) cg = Some n.
Proof.
  intros W Hn [Hok Hu]. destruct (decode_blob cg t (S (length (blob t))) h [] W Hn Hok) as (n & E & D);
    [constructor|by rewrite app_nil_r|lia|]. rewrite app_nil_r in D.
  exists (blob t), n. split; [by apply EncodeToBytes_rlp|done].
Qed.
Lemma demo_content {CRY : Crypto} : content demo_tree demo_map.
Proof. rewrite <- demo_tree_of. apply content_tree_of, demo_fits. Qed.
Lemma stored_node_decodes_witness : ∃ b n, EncodeToBytes (rnode_val (cnode demo_tree)) = Ok b ∧
  decodeNode 3 (S (length b)) None b = Ok n ∧ expandNode None (cnode demo_tree) 3 = Some n.
Proof.
  apply (stored_node_decodes demo_tree None 3).
  - apply demo_content.
  - reflexivity.
  - apply (all_encodable_bounded demo_tree false); [apply demo_content|exact (content_bounded _ _ demo_content demo_fits)|constructor|reflexivity].
Defined.

(** ** Key encodings *)

(** A key in nibbles goes back to its bytes, and a path in compact form goes back to its
    nibbles and its terminator. *)
Theorem key_encodings_roundtrip (k p : bytes) : is_bytes k → key_part p →
  hexToKeybytes (keybytesToHex k) = Some k ∧ compactToHex (hexToCompact p) = Some p ∧ is_bytes (hexToCompact p).
Proof.
  intros Hk Hp. split; [by apply hexToKeybytes_keybytesToHex|].
  split; [by apply compactToHex_hexToCompact|by apply is_bytes_hexToCompact].
Qed.
Lemma key_encodings_roundtrip_witness :
  hexToKeybytes (keybytesToHex [0x12; 0xAB]) = Some [0x12; 0xAB] ∧ compactToHex (hexToCompact [1; 2; 3; 16]) = Some [1; 2; 3; 16].
Proof.
  destruct (key_encodings_roundtrip [0x12; 0xAB] [1; 2; 3; 16]) as (H1 & H2 & _).
  - by repeat constructor.
  - right. exists [1; 2; 3]. split; [reflexivity|by repeat constructor].
  - split; [exact H1|exact H2].
Defined.

(** ** Merkle proofs *)

(** C17: Prove succeeds on every non-empty trie and files nodes under their own hashes; checked
    against the root over any database that files nodes under right hashes, VerifyProof gives the
    value of the key in the trie, or its absence, and fails only when the database lacks one of
    the nodes of the proof. Assumed: no two byte strings among the nodes considered have one hash.
    *)
Theorem merkle_proofs {CRY : Crypto} (world : bytes → Prop) (db : Database) (T : Trie) (m : bmap) (key : bytes) (fuel : nat) :
  collision_free world → represents db T m → fits m → m ≠ ∅ → in_world world (tree_of m) → is_bytes key → (2 * length key + 1 < fuel)%nat →
  ∃ puts, Prove db T key 0 = Ok puts ∧ (∀ p, p ∈ puts → Keccak256 p.2 = p.1) ∧
    ∀ proofDb, hash_filed world proofDb →
      match VerifyProof fuel (root_of m) key proofDb with
      | Ok (v, _) => v = m !! key
      | Err (ErrProofMissing _ h) => proofDb h = None ∧ h ∈ puts.*1
      | _ => False
      end.
Proof.
  intros Hfree R Hf Hne W Hk Hfuel. eexists. split; [by apply (Prove_spec db T m key 0)|]. rewrite drop_0.
  split; [intros p; by apply tputs_filed|]. intros proofDb Hfiled. by apply (VerifyProof_spec world Hfree m key proofDb fuel).
Qed.
Definition demo_proof_db (puts : list (bytes * bytes)) (h : bytes) : option bytes := (list_to_map puts : gmap bytes bytes) !! h.
Lemma merkle_proofs_witness : ∃ puts, Prove empty_db demo_trie1 [2] 0 = Ok puts ∧
  VerifyProof 4 (root_of demo_map) [2] (demo_proof_db puts) = Ok (Some (replicate 33 5), 3%nat) ∧
  hash_bytes (root_of demo_map) ∈ puts.*1.
Proof.
  destruct (merkle_proofs (λ b, b ∈ demo_world) empty_db demo_trie1 demo_map [2] 4) as (puts & E & _ & H).
  - exact demo_free.
  - apply (run_no_commit [OUpdate [1] [7]; OUpdate [2] (replicate 33 5)]); [repeat constructor; by vm_compute|by apply (bool_decide_unpack _)|reflexivity].
  - exact demo_fits.
  - discriminate.
  - exact demo_in_world.
  - by repeat constructor.
  - cbn. lia.
  - pose proof (H (λ _, None) ltac:(discriminate)) as [_ Hin]. exists puts. split; [exact E|]. split; [|exact Hin].
    clear H Hin. vm_compute in E. injection E as <-. vm_compute. reflexivity.
Defined.
