(* ===== verification/RlpTheorems.v ===== *)
(** * What decoding into Go types gives

    The stream decoder of [rlp/decode.go] against the encoder, for every Go
    type that [makeDecoder] covers here, and the type for which both fail. *)

From S2P Require Import Prelude BigMath Rlp RlpStream RlpTyped.




(** C40: Decoding any byte string into a type without one-byte arrays and optional pointers ends;
    a value that it gives is of the type, and encodes to exactly the input. *)
Theorem decode_canonical t b : typ_ok t → strict t → is_bytes b → is_u64 (zlen b) →
  match DecodeBytes t b with
  | SOk v _ => has_type t v ∧ EncodeValue t v = Ok b
  | SErr _ _ => True
  | SFuel => False
  end.
Proof.
  intros Ht Hst Hb Hu. unfold DecodeBytes. pose proof (NewStream_ready b Hb Hu) as R.
  pose proof (decode_yields t Ht Hst (S (S (length b))) (length b) ltac:(lia) _ _ _ R (le_n _)) as H.
  destruct (decode _ t _) as [v s|e s|]; [|by destruct e|done].
  destruct H as (enc & rest & E & _ & _ & R2 & Ee & Hv). destruct (Z.ltb_spec 0 (zlen (r s))) as [|Hr]; [done|].
  destruct R2 as [[Er _ _ _ _ _ _] _]. rewrite Er in Hr. destruct rest as [|x rest].
  - rewrite app_nil_r in E. subst b enc. split; [done|by apply EncodeValue_rlp].
  - rewrite zlen_cons in Hr. pose proof (zlen_nonneg rest). lia.
Qed.

Definition account_typ : typ := TStruct [TUint 64; TBig; TByteArray 2; TBytes] (Some TBig).
Definition account_enc : bytes := [0xCC; 9; 0x82; 1; 0; 0x82; 0; 0; 0x83; 4; 5; 6; 127].
Theorem decode_canonical_witness :
  (has_type account_typ (GList [GUint 9; GBig 256; GBytes [0; 0]; GBytes [4; 5; 6]; GList [GBig 127]]) ∧
   EncodeValue account_typ (GList [GUint 9; GBig 256; GBytes [0; 0]; GBytes [4; 5; 6]; GList [GBig 127]]) = Ok account_enc).
Proof.
  assert (H : typ_ok account_typ ∧ strict account_typ ∧ is_bytes account_enc ∧ is_u64 (zlen account_enc)).
  { split_and!; [cbn; unfold bits_ok; tauto|cbn; split_and!; done|repeat constructor; by compute|by vm_compute]. }
  destruct H as (H1 & H2 & H3 & H4). exact (decode_canonical account_typ account_enc H1 H2 H3 H4).
Defined.

(** ** An array of one zero byte *)

(** [decodeByteArray] calls [Uint] on the byte and drops its error: 0 is not
    canonical for a number, so the byte stays unread.  The elements of a slice
    then never end. *)
Lemma zero_byte_stays s : kind s = Some KByte → kinderr s = None → byteval s = 0 → decodeByteArray 1 s = SOk (GBytes [0]) s.
Proof. intros Ek Ee Eb. unfold decodeByteArray, S_bind, stream_Kind. rewrite Ek, Ee. cbn. unfold stream_uint, S_bind, stream_Kind. rewrite Ek, Ee. unfold S_get. by rewrite Eb. Qed.
Theorem byte_array_slice_never_ends fuel : decode fuel (TSlice (TByteArray 1)) (NewStream [0xC1; 0] 2) = SFuel.
Proof.
  cbn [decode]. unfold decodeListSlice, S_bind. set (m := S_map_err _ _ _). vm_compute in m. subst m. cbv beta iota.
  destruct fuel as [|fuel]; [done|]. cbn [Z.eqb decodeSliceElems].
  set (m := decodeByteArray 1 _). vm_compute in m. subst m. cbv beta iota. unfold S_bind. set (s := mkStream _ _ _ _ _ _ _ _).
  assert (H : decodeSliceElems (decodeByteArray 1) fuel s = SFuel); [|by rewrite H].
  induction fuel as [|fuel IH]; [done|]. cbn [decodeSliceElems]. rewrite (zero_byte_stays s) by done. unfold S_bind. by rewrite IH.
Qed.
(** And a struct with such a field does not decode from its encoding. *)
Theorem byte_array_field_lost :
  let t := TStruct [TByteArray 1; TByteArray 1] None in
  EncodeValue t (GList [GBytes [0]; GBytes [5]]) = Ok [0xC2; 0; 5] ∧
  ∃ s, DecodeBytes t [0xC2; 0; 5] = SErr (decodeErr errNotAtEOL) s.
Proof. intros t. split; [by vm_compute|]. eexists. vm_compute. reflexivity. Qed.
