(* ===== verification/CliqueTheorems.v ===== *)
(** * Theorems on the proof of authority

    Snapshots count votes as a ballot box does and never leave the signers
    without one who may sign; the engine, whatever it has cached, accepts just
    the headers that obey the rules; the blocks it makes are accepted. *)

From stdpp Require Import sorting.
From S2P Require Import StateDB.
From S2P Require Import Prelude BigMath Params Memory Rlp Interfaces Precompiles Header Block Receipt Transaction Ethash Clique CliqueLaws.
From S2P Require Import Concrete ConcreteVm.

(** C22: A snapshot, with its list of votes and its cached tallies, does what a ballot box of one
    open vote for each signer and address does: applying headers gives a snapshot of the box after
    them, or the error of the first header the box refuses, whatever signatures are cached.
    Assumed: the headers considered have distinct hashes. *)
Theorem snapshots_count_votes {CRY : Crypto} {PCR : PrecompileCrypto} {LRU : ARC} (world : Header → Prop) headers s b cache :
  (∀ h h', world h → world h' → Header_Hash h = Header_Hash h' → h = h') → Forall world headers → coherent world cache →
  snap_ok s b → Epoch (sn_config s) ≠ 0 → sn_Number s + zlen headers < 2 ^ 64 →
  let '(r, cache') := apply headers s cache in
  applied_as headers s r (box_run (Epoch (sn_config s)) headers b) ∧ coherent world cache'.
Proof.
  intros HD Hw Hc Hs He Hn. destruct (apply_ok world (λ h h' H1 H2 E, f_equal signer_of (HD h h' H1 H2 E)) headers s b cache Hw Hc Hs He Hn) as [Ha Hc'].
  by destruct (apply headers s cache).
Qed.
(** C25: While there are signers it is the turn of exactly one of them, and at least one of them
    has not signed recently, so that the snapshot accepts its next header with any vote: the chain
    never gets stuck on the recent signers. *)
Theorem someone_may_sign {CRY : Crypto} {PCR : PrecompileCrypto} {LRU : ARC} (world : Header → Prop) s b cache :
  (∀ h h', world h → world h' → Header_Hash h = Header_Hash h' → h = h') → coherent world cache →
  snap_ok s b → sn_Signers s ≠ ∅ → Epoch (sn_config s) ≠ 0 → sn_Number s + 1 < 2 ^ 64 →
  (∃ x, x ∈ sn_Signers s ∧ inturn (sn_Number s + 1) x s = Some true ∧
        ∀ y, y ∈ sn_Signers s → inturn (sn_Number s + 1) y s = Some true → y = x) ∧
  ∃ x, x ∈ sn_Signers s ∧ ∀ h, world h → signer_of h = Ok x → h_Nonce h ∈ [nonceAuthVote; nonceDropVote] →
    Big.Uint64 (h_Number h) = sn_Number s + 1 → ∃ s', (apply [h] s cache).1 = Ok s'.
Proof.
  intros HD Hc Hs Hne He Hn. split; [|exact (snap_progress world (λ h h' H1 H2 E, f_equal signer_of (HD h h' H1 H2 E)) s b cache Hc Hs Hne He Hn)].
  destruct (turn_member (sn_Signers s) (sn_Number s + 1) Hne) as (x & Ht & Hx). exists x. split; [done|]. split; [by rewrite inturn_ok, bool_decide_true|].
  intros y Hy. rewrite inturn_ok by done. intros E%(inj Some). apply bool_decide_eq_true in E. rewrite Ht in E. by injection E.
Qed.
(** C23: Whatever snapshots and signatures the engine has in its caches and on disk, verifyHeader
    answers without panic and accepts exactly the next headers that obey the rules: time, vote,
    checkpoint list, fields, and a seal by an authorized signer with the difficulty of its turn,
    which from the block of the limit on has not signed recently (before it the uint64 difference
    wraps and the check passes, a finding); the state stays sound, and from the first block that
    shifts a signer out an accepted header can be applied. Assumed: fakeDiff off, fewer than 2^64
    signers, distinct hashes, known ancestors, a database that takes writes. *)
Theorem clique_accepts_exactly {CRY : Crypto} {PCR : PrecompileCrypto} {LRU : ARC} world store_ok chain config g l0 now hs parents b fuel h c :
  chain_world world chain config g l0 → ¬ refusing store_ok → engine_ok world config g l0 c → cq_fakeDiff c = false →
  lineage world g hs → zlen hs + 1 < 2 ^ 64 → available chain hs parents → (length hs < fuel)%nat →
  box_run (Epoch config) hs (start l0) = Ok b →
  world h → Big.Uint64 (h_Number h) = zlen hs + 1 → h_ParentHash h = tip g hs → Z.of_nat (base.size (bx_signers b)) < 2 ^ 64 →
  let '(r, c') := clique_verifyHeader now store_ok chain fuel h parents c in
  engine_ok world config g l0 c' ∧ kept c c' ∧ settled r ∧ (r = Ok tt ↔ header_rules chain config now b (parent_in g hs) h) ∧
  (r = Ok tt → threshold (bx_signers b) ≤ zlen hs → ∃ b', box_run (Epoch config) (hs ++ [h]) (start l0) = Ok b').
Proof.
  intros W Hst Hok Hfd Hl Hlen Ha Hf Eb Hw Hn Hp Hsz.
  pose proof (clique_verifyHeader_ok world store_ok chain config g l0 W now hs parents b fuel h Hst Hl Hlen Ha Hf Eb Hw Hn Hp c Hsz Hok Hfd) as (H1 & H2 & H3 & H4).
  destruct (clique_verifyHeader _ _ _ _ _ _ c) as [r c']. split_and!; try done.
  intros Hr Hlim. apply H4 in Hr. by eapply accepted_applies.
Qed.
(** C24: On a chain with a period, or for a block with transactions, an authorized signer that has
    not signed recently makes blocks: Prepare succeeds, Seal signs whatever block Finalize
    assembles from the prepared header, and every engine accepts its header from its time on, the
    caches staying sound. Assumed: the signature of the account recovers to its address, the
    header is not that of the gas fork with another hash, times below 2^63, fewer than 2^64
    signers, distinct hashes, known ancestors, a database that takes writes. *)
Theorem clique_makes_blocks {D T : Type} {CRY : Crypto} {PCR : PrecompileCrypto} {LRU : ARC} {TI : TrieI T} {DI : DatabaseI D T} {AC : AccountCodec}
    world store_ok chain config g l0 now pick hs b fuel h c :
  chain_world world chain config g l0 → ¬ refusing store_ok → engine_ok world config g l0 c →
  lineage world g hs → zlen hs + 1 < 2 ^ 64 → available chain hs [] → (length hs < fuel)%nat → box_run (Epoch config) hs (start l0) = Ok b →
  Big.Uint64 (h_Number h) = zlen hs + 1 → h_ParentHash h = tip g hs →
  0 ≤ now < 2 ^ 63 → 0 ≤ h_Time (parent_in g hs) → 0 ≤ Period config → h_Time (parent_in g hs) + Period config < 2 ^ 63 →
  Z.of_nat (base.size (bx_signers b)) < 2 ^ 64 → may_sign hs b (cq_signer c) → signs (cq_signer c) (cq_signFn c) →
  ∃ h1 c1, clique_Prepare now store_ok chain fuel pick h c = (Ok h1, c1) ∧ engine_ok world config g l0 c1 ∧ kept c c1 ∧
  ∀ h2 cc (s : @StateDB.StateDB D T) txs uncles rs s' h3 block c2 nanos random,
    same_consensus h1 h2 → clique_Finalize cc h2 s txs uncles rs = (s', Ok (h3, block)) → Period config ≠ 0 ∨ txs ≠ [] →
    engine_ok world config g l0 c2 → kept c1 c2 →
    ∃ delay h' c3, Seal store_ok chain fuel nanos random block c2 = (Ok (Some (delay, WithSeal h' block)), c3) ∧
    ∀ now' c4, world h' → VerifyForkHashes (ch_Config chain) h' false = Ok tt → h_Time h1 ≤ now' →
      engine_ok world config g l0 c4 → cq_fakeDiff c4 = false →
      (clique_verifyHeader now' store_ok chain fuel h' [] c4).1 = Ok tt.
Proof.
  intros W Hst Hok Hl Hlen Ha Hf Eb Hn Hp Hnow Ht Hper Ht2 Hsz Hmay Hsg.
  destruct (clique_Prepare_ok world store_ok chain config g l0 W hs b fuel Hst Hl Hlen Ha Hf Eb now pick h c Hok (proj1 Hmay) Hn Hp ltac:(lia))
    as (h1 & c1 & E1 & Hok1 & Hk1 & Hpp & Ep1 & En1).
  exists h1, c1. split; [done|]. split; [done|]. split; [done|]. intros h2 cc s txs uncles rs s' h3 block c2 nanos random Hsame Hfin Htx Hok2 Hk2.
  apply clique_Finalize_ok in Hfin as (Hsame2 & Hu & <- & _).
  pose proof Hpp as Hpp2. eapply prepared_same in Hpp2; [|exact Hsame]. eapply prepared_same in Hpp2; [|exact Hsame2].
  destruct Hsame as (P1 & _ & _ & N1 & T1 & _), Hsame2 as (P2 & _ & _ & N2 & T2 & _), (kept_preorder) as [_ Htr].
  destruct (Htr _ _ _ Hk1 Hk2) as (_ & _ & Sg & Sf & _). rewrite <- Sg in Hpp2, Hmay, Hsg. rewrite <- Sf in Hsg.
  assert (Hn2 : Big.Uint64 (h_Number (b_header block)) = zlen hs + 1) by congruence. assert (Hp2 : h_ParentHash (b_header block) = tip g hs) by congruence.
  destruct (Seal_ok world store_ok chain config g l0 W hs b fuel Hst Hl Hlen Ha Hf Eb now nanos random block c2 Hok2 Hpp2 Hmay Hsg Hn2 Hp2 Htx) as (delay & h' & c3 & Es & _ & _ & Hse).
  exists delay, h', c3. split; [done|]. intros now' c4 Hw' Hfk Hle Hok4 Hfd4.
  assert (Hh' : Big.Uint64 (h_Number h') = zlen hs + 1 ∧ h_ParentHash h' = tip g hs) by (destruct Hse as (seal & _ & _ & ->); done).
  apply (clique_verifyHeader_ok world store_ok chain config g l0 W now' hs [] b fuel h' Hst Hl Hlen Ha Hf Eb Hw' (proj1 Hh') (proj2 Hh') c4 Hsz Hok4 Hfd4).
  assert (Hti : h_Time (b_header block) = h_Time h1) by congruence. pose proof (pp_time _ _ _ _ _ _ _ Hpp) as Htm.
  eapply (sealed_rules chain config g hs b); try done; [lia|lia].
Qed.

(** ** Instances *)

(** A chain with two signers, whose cache never evicts. *)
#[local] Instance keep_all : ARC := {| evict A m := m; evict_sub A m := reflexivity m |}.
Definition signer_a : Z := pub_address (open_key 5).
Definition signer_b : Z := pub_address (open_key 6).
Definition two_signers : list Z := [signer_a; signer_b].
Definition clique_config : CliqueConfig := mkCliqueConfig 15 30000.
Definition any_config : ChainConfig := mkChainConfig (Some 1515) (Some 0) None false None 0 (Some 0) (Some 0) (Some 0) None None.
Definition clique_header (parent coinbase difficulty number time : Z) (extra : bytes) : Header :=
  mkHeader parent EmptyUncleHash coinbase 0 0 0 [] difficulty number 4700000 0 time extra 0 nonceDropVote.
Definition clique_genesis : Header := clique_header 0 0 1 0 1000 (replicate 32 0 ++ address_bytes two_signers ++ replicate 65 0).
Definition key_seal (key : Z) : bytes := be_bytes 32 key ++ be_bytes 32 1 ++ [0].
(** The block that the second signer seals, out of turn or not. *)
Definition first_header (difficulty : Z) : Header :=
  clique_header (Header_Hash clique_genesis) 0 difficulty 1 1015 (replicate 32 0 ++ key_seal 6).
Definition clique_chain : Chain := mkChain any_config (Some clique_genesis)
  (λ hash n, if (hash =? Header_Hash clique_genesis) && (n =? 0) then Some clique_genesis else None)
  (λ n, if n =? 0 then Some clique_genesis else None) (λ _, None).
Definition two_headers (h : Header) : Prop := h = clique_genesis ∨ h = first_header 1 ∨ h = first_header 2.
Lemma two_headers_names h h' : two_headers h → two_headers h' → Header_Hash h = Header_Hash h' → h = h'.
Proof. intros [->|[->| ->]] [->|[->| ->]]; try reflexivity; vm_compute; discriminate. Qed.
Lemma clique_chain_world : chain_world two_headers clique_chain clique_config clique_genesis two_signers.
Proof.
  split; cbn [clique_chain ch_GetHeader ch_GetHeaderByNumber].
  - exact two_headers_names.
  - intros hash n h. destruct (Z.eqb_spec hash (Header_Hash clique_genesis)) as [->|]; [|discriminate]. destruct (Z.eqb_spec n 0) as [->|]; [|discriminate].
    intros <-%(inj Some). split; [left; reflexivity|]. split; reflexivity.
  - reflexivity.
  - intros n Hn. destruct (Z.eqb_spec (n - 1) 0); [discriminate|]. destruct (Z.eqb_spec n 0); [lia|reflexivity].
  - left. reflexivity.
  - reflexivity.
  - rewrite Z.eqb_refl. reflexivity.
  - vm_compute. reflexivity.
  - discriminate.
Qed.
Lemma clique_new_ok world config g l : Epoch config ≠ 0 → engine_ok world config g l (clique_New config ∅).
Proof.
  intros He. unfold clique_New. rewrite (proj2 (Z.eqb_neq _ _) He). split; [reflexivity|apply coherent_empty|..]; intros k s; cbn; by rewrite lookup_empty.
Qed.
Lemma takes_all : ¬ refusing (λ _, true).
Proof. by intros [s ?]. Qed.
Lemma nothing_before chain : available chain [] [].
Proof. exists []. by split. Qed.

Definition empty_snapshot : Snapshot := newSnapshot clique_config 0 (Header_Hash clique_genesis) two_signers.
Lemma empty_snapshot_ok : snap_ok empty_snapshot (start two_signers).
Proof. apply snap_ok_new. done. Qed.
Lemma snapshots_count_votes_witness : Forall two_headers [first_header 1] ∧
  let '(r, cache') := apply [first_header 1] empty_snapshot ∅ in
  applied_as [first_header 1] empty_snapshot r (box_run 30000 [first_header 1] (start two_signers)) ∧ coherent two_headers cache'.
Proof.
  assert (Hf : Forall two_headers [first_header 1]) by (apply Forall_singleton; right; left; reflexivity). split; [exact Hf|].
  apply (snapshots_count_votes two_headers [first_header 1] empty_snapshot (start two_signers) ∅ two_headers_names Hf (coherent_empty _) empty_snapshot_ok);
    [discriminate|reflexivity].
Defined.
Lemma two_signers_some : sn_Signers empty_snapshot ≠ ∅.
Proof. cbn. set_solver. Qed.
Lemma someone_may_sign_witness : sn_Signers empty_snapshot ≠ ∅ ∧
  (∃ x, x ∈ sn_Signers empty_snapshot ∧ inturn 1 x empty_snapshot = Some true ∧
        ∀ y, y ∈ sn_Signers empty_snapshot → inturn 1 y empty_snapshot = Some true → y = x).
Proof.
  split; [exact two_signers_some|].
  refine (proj1 (someone_may_sign two_headers empty_snapshot (start two_signers) ∅ two_headers_names (coherent_empty _) empty_snapshot_ok two_signers_some _ _));
    [discriminate|reflexivity].
Defined.
(** Block 1 is the turn of one of the two; the other has difficulty 1. *)
Definition first_difficulty : Z := if decide (turn (list_to_set two_signers) 1 = Some signer_b) then 2 else 1.
Lemma new_engine_ok : engine_ok two_headers clique_config clique_genesis two_signers (clique_New clique_config ∅).
Proof. apply clique_new_ok. discriminate. Qed.
Lemma genesis_tip : Header_Hash clique_genesis = tip clique_genesis [].
Proof. unfold tip, parent_in. cbn [last default]. reflexivity. Qed.
Lemma first_number d : Big.Uint64 (h_Number (first_header d)) = zlen (@nil Header) + 1.
Proof. unfold first_header, clique_header. cbn [h_Number]. reflexivity. Qed.
Lemma first_parent d : h_ParentHash (first_header d) = tip clique_genesis [].
Proof. unfold first_header, clique_header. cbn [h_ParentHash]. exact genesis_tip. Qed.
Lemma first_world : two_headers (first_header first_difficulty).
Proof. unfold first_difficulty. case_decide; [right; right; reflexivity|right; left; reflexivity]. Qed.
Lemma few_signers : Z.of_nat (base.size (bx_signers (start two_signers))) < 2 ^ 64.
Proof. vm_compute. reflexivity. Qed.
Lemma clique_accepts_exactly_witness :
  (clique_verifyHeader 2000 (λ _, true) clique_chain 10 (first_header first_difficulty) [] (clique_New clique_config ∅)).1 = Ok tt ∧
  header_rules clique_chain clique_config 2000 (start two_signers) clique_genesis (first_header first_difficulty).
Proof.
  assert (E : (clique_verifyHeader 2000 (λ _, true) clique_chain 10 (first_header first_difficulty) [] (clique_New clique_config ∅)).1 = Ok tt) by (vm_compute; reflexivity).
  split; [exact E|].
  pose proof (clique_accepts_exactly two_headers (λ _, true) clique_chain clique_config clique_genesis two_signers 2000 [] [] (start two_signers) 10
    (first_header first_difficulty) (clique_New clique_config ∅) clique_chain_world takes_all new_engine_ok eq_refl (ln_nil _ _)
    ltac:(reflexivity) (nothing_before _) ltac:(cbn; lia) eq_refl first_world (first_number _) (first_parent _) few_signers) as H.
  destruct (clique_verifyHeader _ _ _ _ _ _ _) as [r c']. exact (proj1 (proj1 (proj2 (proj2 (proj2 H)))) E).
Defined.
Definition key_account (key : Z) (account : Z) (hash : bytes) : option bytes := Some (key_seal key).
Definition engine_b : Clique := Authorize signer_b (key_account 6) (clique_New clique_config ∅).
Lemma key_signs key account : 1 ≤ key < secp256k1N → signs (pub_address (open_key key)) (λ _, key_account key account).
Proof.
  intros Hk hash. assert (E : open_sign (hash_bytes hash) key = Some (key_seal key)) by (unfold open_sign; by rewrite decide_True).
  destruct (open_sign_ok _ _ _ E) as (_ & H1 & _ & _ & _ & H2). exists (key_seal key), (open_key key). split; [reflexivity|]. split; [exact H1|]. split; [exact H2|reflexivity].
Qed.
Lemma b_may_sign : may_sign [] (start two_signers) signer_b.
Proof. split; [unfold start, two_signers; cbn; set_solver|]. intros k. cbn. by rewrite lookup_empty. Qed.
(** The block that the second signer makes: prepared, finalized on an empty
    state, sealed. *)
Definition template : Header := clique_header (Header_Hash clique_genesis) 0 0 1 0 [].
Definition prepares := clique_Prepare 1010 (λ _, true) clique_chain 10 0 template engine_b.
Definition prepared_header : Header := match prepares.1 with Ok h => h | _ => template end.
Definition finalizes := clique_Finalize any_config prepared_header empty_state [] [] [].
Definition unsealed : Block := match finalizes.2 with Ok (_, b) => b | _ => mkBlock template [] [] end.
Definition seals := Seal (λ _, true) clique_chain 10 0 0 unsealed prepares.2.
Definition sealed_header : Header := match seals.1 with Ok (Some (_, b)) => b_header b | _ => template end.
Definition sealed_world (h : Header) : Prop := h = clique_genesis ∨ h = sealed_header.
Lemma sealed_differs : Header_Hash clique_genesis ≠ Header_Hash sealed_header.
Proof. apply Z.eqb_neq. vm_compute. reflexivity. Qed.
Lemma sealed_chain_world : chain_world sealed_world clique_chain clique_config clique_genesis two_signers.
Proof.
  destruct clique_chain_world as [_ H2 H3 H4 _ H6 H7 H8 H9]. split; try assumption.
  - intros h h' [->| ->] [->| ->] E; [reflexivity|destruct (sealed_differs E)|destruct (sealed_differs (eq_sym E))|reflexivity].
  - intros hash n h E. destruct (H2 hash n h E) as (_ & E1 & E2). cbn [clique_chain ch_GetHeader] in E.
    destruct (_ && _); [injection E as <-|discriminate]. split; [left; reflexivity|by split].
  - left. reflexivity.
Qed.
Lemma engine_b_ok : engine_ok sealed_world clique_config clique_genesis two_signers engine_b.
Proof. pose proof (clique_new_ok sealed_world clique_config clique_genesis two_signers) as []; [discriminate|]. by split. Qed.
Lemma same_consensus_refl h : same_consensus h h.
Proof. repeat split. Qed.
Lemma kept_refl c : kept c c.
Proof. apply kept_preorder. Qed.
Lemma finalizes_block : ∃ s' h3, finalizes = (s', Ok (h3, unsealed)).
Proof.
  assert (H : match finalizes.2 with Ok _ => True | _ => False end) by (vm_compute; exact I). unfold unsealed.
  destruct finalizes as [s' [[h3 b]|e| |]]; try contradiction. by exists s', h3.
Qed.
Lemma sealed_fork : VerifyForkHashes (ch_Config clique_chain) sealed_header false = Ok tt.
Proof. vm_compute. reflexivity. Qed.
Lemma prepared_time : h_Time prepared_header ≤ 2000.
Proof. vm_compute. discriminate. Qed.
Lemma clique_makes_blocks_witness : prepares = (Ok prepared_header, prepares.2) ∧ (∃ s' h3, finalizes = (s', Ok (h3, unsealed))) ∧
  (∃ delay, seals.1 = Ok (Some (delay, WithSeal sealed_header unsealed))) ∧
  (clique_verifyHeader 2000 (λ _, true) clique_chain 10 sealed_header [] (clique_New clique_config ∅)).1 = Ok tt.
Proof.
  destruct (clique_makes_blocks (D:=unit) (T:=mtrie) sealed_world (λ _, true) clique_chain clique_config clique_genesis two_signers 1010 0 [] (start two_signers) 10
    template engine_b sealed_chain_world takes_all engine_b_ok (ln_nil _ _) ltac:(reflexivity) (nothing_before _)
    ltac:(cbn; lia) eq_refl (first_number 1) genesis_tip ltac:(lia) ltac:(cbn; lia) ltac:(cbn; lia) ltac:(reflexivity) few_signers b_may_sign
    (key_signs 6 signer_b ltac:(done))) as (h1 & c1 & E & Hok1 & _ & H).
  change (prepares = (Ok h1, c1)) in E. assert (Eh : h1 = prepared_header) by (unfold prepared_header; rewrite E; reflexivity).
  assert (Ec : prepares.2 = c1) by (rewrite E; reflexivity). subst h1. destruct finalizes_block as (s' & h3 & Ef).
  split; [rewrite Ec; exact E|]. split; [exists s', h3; exact Ef|].
  destruct (H prepared_header any_config empty_state [] [] [] s' h3 unsealed c1 0 0) as (delay & h' & c3 & Es & Hv);
    [exact (same_consensus_refl _)|exact Ef|left; discriminate|exact Hok1|exact (kept_refl c1)|].
  assert (Eseal : seals = (Ok (Some (delay, WithSeal h' unsealed)), c3)) by (unfold seals; rewrite Ec; exact Es).
  assert (Eh' : h' = sealed_header) by (unfold sealed_header; rewrite Eseal; reflexivity). subst h'.
  split; [exists delay; rewrite Eseal; reflexivity|].
  apply Hv; [right; reflexivity|exact sealed_fork|exact prepared_time|apply clique_new_ok; discriminate|reflexivity].
Defined.
