(* ===== verification/TxTheorems.v ===== *)
(** * Theorems on transactions

    Signatures and the chains they are for, and the order in which the set of
    transactions hands them out; each with an instance. *)

From S2P Require Import Prelude BigMath Params Rlp RlpStream RlpTyped Heap Interfaces Precompiles Header StateTransition Transaction TxLaws.
From S2P Require Import StateDB StateEq Concrete ConcreteVm.

Section Theorems.
Context {CRY : Crypto} {PCR : PrecompileCrypto}.

(** C11: A signed transaction is accepted from the address of its key by the signer it was signed
    with, and one signed for a chain other than zero is refused by every other signer; the signer
    of chain zero is the exception, it takes the sender that the Homestead rules recover
    (finding). Assumed: Ecrecover inverts Sign. *)
Theorem signed_transactions_verify {SG : Signing} {SL : SigningLaws} (s other : Signer) (k : PrivateKey) (tx tx' : Transaction) :
  signer_ok s → signer_ok other → SignTx tx s k = Ok tx' →
  match s with
  | EIP155Signer 0 _ => (Sender s tx').1 = Homestead_Sender tx'
  | _ => (Sender s tx').1 = Ok (pub_address (PublicKey k))
  end ∧
  match s with
  | EIP155Signer c _ => c ≠ 0 → other ≠ s →
      (Sender other tx').1 = Err (match other with EIP155Signer _ _ => ErrInvalidChainId | _ => ErrInvalidSig end)
  | _ => True
  end.
Proof.
  intros Hs Ho Hsig. assert (Hcache : cache_ok tx') by by eapply SignTx_cache.
  assert (Hok : (∀ cm, s ≠ EIP155Signer 0 cm) → (Sender s tx').1 = Ok (pub_address (PublicKey k))).
  { intros Hc. rewrite (proj1 (Sender_ok s tx' Hcache Hs)). by eapply signed_sender. }
  destruct s as [| |c cm]; [split; [by apply Hok|done]..|]. destruct Hs as [Hc0 ->]. split.
  - destruct c; [|by apply Hok|lia]. change (EIP155Signer 0 (0 * 2)) with (EIP155Signer 0 0) in *. rewrite (proj1 (Sender_ok (EIP155Signer 0 0) tx' Hcache ltac:(by split))). by eapply signed_for_zero.
  - intros Hc Hne. rewrite (proj1 (Sender_ok other tx' Hcache Ho)). eapply signed_elsewhere; [|done..]. lia.
Qed.

(** C12: The heap and the map of pending transactions behave as a queue for each account: every
    step takes the first of a queue whose price is the best among the first ones, or drops that
    queue, until all are empty. *)
Theorem price_nonce_order (signer : Signer) (order : list Z) (q : gmap Z (list Transaction)) :
  queues_ok signer q → order ≡ₚ (map_to_list q).*1 →
  ∃ t, NewTransactionsByPriceAndNonce signer order q = Some t ∧
    ∀ ops outs t', run_picks ops t = Some (outs, t') →
      ∃ q', picks q ops outs q' ∧ (Peek t' = None ↔ q' = ∅) ∧ (Peek t' ≠ None → ∀ op, is_Some (next_of op t')).
Proof.
  intros Hq Ho. destruct (New_holds signer order q Hq Ho) as (t & E & H). exists t. split; [done|].
  intros ops outs t' Hr. destruct (run_picks_ok signer ops t q outs t' H Hr) as (q' & Hp & H'). exists q'.
  split_and!; [done|by apply (holds_empty signer)|]. unfold Peek. destruct (pn_heads t') as [|tx l] eqn:Eh; [done|].
  intros _ op. destruct (next_holds signer op t' q' tx l H' Eh) as (t1 & _ & -> & _). by eexists.
Qed.
End Theorems.

(** ** Instances *)

(** A payment of key 5, signed for chain 7. *)
Definition payment : Transaction := NewTransaction 0 99 3 21000 10 [].
Definition signed_payment : Transaction :=
  match SignTx payment (EIP155Signer 7 14) 5 with Ok tx => tx | _ => payment end.
Lemma signed_payment_ok : SignTx payment (EIP155Signer 7 14) 5 = Ok signed_payment.
Proof. vm_compute. reflexivity. Qed.
Lemma signed_transactions_verify_witness :
  (Sender (EIP155Signer 7 14) signed_payment).1 = Ok (pub_address (open_key 5)) ∧
  (Sender (EIP155Signer 8 16) signed_payment).1 = Err ErrInvalidChainId ∧
  (Sender HomesteadSigner signed_payment).1 = Err ErrInvalidSig.
Proof.
  assert (H7 : signer_ok (EIP155Signer 7 14)) by (split; [lia|done]).
  assert (H8 : signer_ok (EIP155Signer 8 16)) by (split; [lia|done]).
  destruct (signed_transactions_verify (SG:=open_signing) (EIP155Signer 7 14) (EIP155Signer 8 16) (5 : Z) payment signed_payment H7 H8
    signed_payment_ok) as [E1 E2].
  destruct (signed_transactions_verify (SG:=open_signing) (EIP155Signer 7 14) HomesteadSigner (5 : Z) payment signed_payment H7 I
    signed_payment_ok) as [_ E3].
  split; [exact E1|]. split; [apply E2; [lia|discriminate]|apply E3; [lia|discriminate]].
Defined.

(** Two transactions of account 1 and one, of a better price than the second
    of these, of account 2. *)
Definition priced (a nonce price : Z) : Transaction :=
  mkTransaction (mkTxdata nonce price 21000 (Some 99) 0 [] 0 0 0) (Some (HomesteadSigner, a)).
Definition demo_queues : gmap Z (list Transaction) :=
  <[1 := [priced 1 0 20; priced 1 1 5]]> {[2 := [priced 2 0 10]]}.
Lemma price_nonce_order_witness :
  ∃ t outs t', NewTransactionsByPriceAndNonce HomesteadSigner [1; 2] demo_queues = Some t ∧
    run_picks [PShift; PShift; PShift] t = Some (outs, t') ∧
    outs = [priced 1 0 20; priced 2 0 10; priced 1 1 5] ∧ picks demo_queues [PShift; PShift; PShift] outs ∅.
Proof.
  destruct (price_nonce_order HomesteadSigner [1; 2] demo_queues) as (t & E & H).
  - apply map_Forall_insert_2; [split; [discriminate|by repeat constructor]|].
    apply map_Forall_singleton. split; [discriminate|by repeat constructor].
  - vm_compute. constructor.
  - destruct (run_picks [PShift; PShift; PShift] t) as [[outs t']|] eqn:Er; [|by vm_compute in E; injection E as <-; vm_compute in Er].
    destruct (H _ _ _ Er) as (q' & Hp & He & _). exists t, outs, t'. split; [exact E|]. split; [exact Er|].
    vm_compute in E. injection E as <-. vm_compute in Er. injection Er as <- <-.
    split; [vm_compute; reflexivity|]. rewrite <- (proj1 He eq_refl). exact Hp.
Defined.
