(* ===== verification/BlockTheorems.v ===== *)
(** * Theorems on blocks

    Encodings, bloom filters, the roots of lists, processing, assembly and
    production of blocks; each with an instance on the concrete state. *)

From S2P Require Import Prelude BigMath Params Analysis Memory Rlp RlpStream RlpTyped Interfaces Heap Machine Gas Instructions JumpTable Precompiles Evm.
From S2P Require Import TrieEncoding Trie TrieTree TrieHash TrieRep TrieCommit TrieMap TrieSpec.
From S2P Require Import Header StateTransition Transaction TxLaws Receipt ReceiptLaws Block BlockCodec Ethash EthashLaws.
From S2P Require Import VmLaws VmLoop TransitionLaws.
From S2P Require Import StateDB CoreEvm StateEq StateRevert StateHistory StateSpec StateStorage StateFinalise StateVm StateBlock.
From S2P Require Import BlockProcessor BlockLaws Concrete ConcreteVm.

Section Codecs.
Context {CRY : Crypto}.

(** C37: Decoding the encoding of a block, with its transactions and uncles, or of a transaction
    gives it back, without the cached senders and with the same hash. *)
Theorem blocks_roundtrip (b : Block) : block_ok b → is_u64 (zlen (rlp (val_of extblock_typ (block_gval b)))) →
  ∃ bs, Block_EncodeRLP b = Ok bs ∧ Block_DecodeRLP bs = Some (fresh_block b) ∧
    Block_Hash (fresh_block b) = Block_Hash b ∧
    ∀ tx, tx ∈ b_transactions b → is_u64 (zlen (rlp (val_of txdata_typ (txdata_gval (tx_data tx))))) →
      Transaction_DecodeRLP (GetRlp_tx tx) = Some (fresh_tx tx).
Proof.
  intros Hb Hu. pose proof (block_typed b Hb) as [Hty Hd].
  destruct (typed_roundtrip _ _ extblock_typ_ok Hty Hu) as (bs & s & E & D). exists bs.
  split; [exact E|]. split; [unfold Block_DecodeRLP; by rewrite D|]. split; [done|].
  intros tx Htx Hl. pose proof (proj1 (Forall_forall _ _) (bk_txs _ Hb) tx Htx) as Hok.
  by apply tx_roundtrip.
Qed.

(** C38: Decoding the storage encoding of a receipt gives it back with its logs, except for the
    status of a receipt with a state root, which is not stored and comes back as zero (receipts
    before Byzantium have both); decoding its consensus encoding gives back the consensus fields
    likewise. *)
Theorem receipts_roundtrip (r : Receipt) : receipt_ok r →
  is_u64 (zlen (rlp (val_of receiptStorageRLP_typ (receipt_storage_gval r)))) → is_u64 (zlen (rlp (val_of receiptRLP_typ (receipt_gval r)))) →
  ∃ bs cs, ReceiptForStorage_EncodeRLP r = Ok bs ∧ ReceiptForStorage_DecodeRLP bs = Some (stored_receipt r) ∧
    Receipt_EncodeRLP r = Ok cs ∧ Receipt_DecodeRLP cs = Some (bare_receipt r) ∧
    (PostState r = [] ∨ Status r = ReceiptStatusFailed → stored_receipt r = r).
Proof.
  intros Hr Hu1 Hu2. destruct (receipt_storage_codes r Hr) as [Hty1 O1]. destruct (receipt_codes r Hr) as [Hty2 O2].
  destruct (typed_roundtrip _ _ receipt_storage_typ_ok Hty1 Hu1) as (bs & s1 & E1 & D1).
  destruct (typed_roundtrip _ _ receipt_typ_ok Hty2 Hu2) as (cs & s2 & E2 & D2). exists bs, cs.
  split; [exact E1|]. split; [unfold ReceiptForStorage_DecodeRLP; by rewrite D1|]. split; [exact E2|]. split; [unfold Receipt_DecodeRLP; by rewrite D2|].
  unfold stored_receipt, stored_status. destruct r as [ps st]. cbn. intros [-> | ->]; [done|by destruct ps].
Qed.

(** C21: The bloom filter of a block has no false negatives: looking up the address or a topic of
    any log of its receipts succeeds. *)
Theorem bloom_finds_logs (rs : list Receipt) (bloom : bytes) (r : Receipt) (l : Log) : CreateBloom rs = Some bloom → r ∈ rs → l ∈ Logs r →
  length bloom = 256%nat ∧ BloomLookup bloom (addr_bytes (l_Address l)) = true ∧
  ∀ t, t ∈ l_Topics l → BloomLookup bloom (hash_bytes t) = true.
Proof.
  intros Hb Hr Hl. destruct (CreateBloom_ok rs) as (b & Hb' & Hlen & _ & Ebits). rewrite Hb in Hb'. injection Hb' as <-.
  assert (Hin : bits_in (log_bits l) (Bloom_Big bloom)).
  { rewrite Ebits. etrans; [by apply log_in_bits|by apply receipt_in_bits]. }
  split; [done|]. split; [|intros t Ht]; apply BloomLookup_bits; etrans; [|exact Hin| |exact Hin].
  - apply address_in_log.
  - by apply topic_in_log.
Qed.

(** C20: Two lists of transactions with one transactions root are the same transactions. Assumed:
    no two byte strings among the nodes hashed have one hash. *)
Theorem transactions_root_binds {PCR : PrecompileCrypto} (world : bytes → Prop) (txs1 txs2 : list Transaction) (root : Z) :
  collision_free world → (∀ b, world b → Keccak256Hash b ≠ emptyRoot) →
  Forall encodable_tx txs1 → Forall encodable_tx txs2 → is_u64 (zlen txs1) → is_u64 (zlen txs2) →
  in_world world (tree_of (list_content (map GetRlp_tx txs1))) → in_world world (tree_of (list_content (map GetRlp_tx txs2))) →
  TransactionsSha txs1 = Ok root → TransactionsSha txs2 = Ok root →
  map tx_data txs1 = map tx_data txs2 ∧ map Transaction_Hash txs1 = map Transaction_Hash txs2.
Proof.
  intros Hfree He E1 E2 L1 L2 W1 W2 R1 R2.
  assert (Heq : map GetRlp_tx txs1 = map GetRlp_tx txs2).
  { apply (DeriveSha_inj world _ _ root); [done|done|by apply txs_items|by apply txs_items|done..]. }
  assert (Hd : map tx_data txs1 = map tx_data txs2) by by apply GetRlp_txs_inj.
  split; [done|]. unfold Transaction_Hash. rewrite <- !(map_map tx_data (λ d, rlpHash (val_of txdata_typ (txdata_gval d)))). by rewrite Hd.
Qed.
End Codecs.

Section Processing.
Context {D T : Type} {CRY : Crypto} {PCR : PrecompileCrypto} {PL : PrecompileLaws} {TI : TrieI T} {DI : DatabaseI D T} {AC : AccountCodec}.
Context {TL : TrieLaws T} {DL : DatabaseLaws D T} {AL : AccountCodecLaws}.
Context (KD : keys_distinct (T:=T) (A:=is_addr) (K:=is_hash)).
Implicit Types (s : @StateDB D T) (e : @environment D T).

(** C19: Finalise keeps the invariant of the caches over the tries, the logs and the preimages,
    and clears the refund; to readers it removes exactly the dirty accounts in use that destroyed
    themselves or, where asked, are empty, and every other account in use keeps its nonce,
    balance, code and the storage slots in use. Assumed: the hashed keys of the addresses and of
    the slots in use do not collide. *)
Theorem finalise_keeps_accounts {A K : Z → Prop} (deleteEmptyObjects : bool) s m : keys_distinct (T:=T) (A:=A) (K:=K) →
  StateStorage.sinv (A:=A) (K:=K) s → trie_map (trie s) m → let s' := Finalise deleteEmptyObjects s in
  StateStorage.sinv (A:=A) (K:=K) s' ∧ (∃ m', trie_map (trie s') m') ∧ as_refund (abs s') = 0 ∧ same_logs s s' ∧
  ∀ a, A a →
    match as_account (abs s) a with
    | None => as_account (abs s') a = None
    | Some c => if removed deleteEmptyObjects s a then as_account (abs s') a = None
                else ∃ c', as_account (abs s') a = Some c' ∧ same_reads K c c'
    end.
Proof.
  intros HK I Hm s'. destruct (Finalise_reads HK deleteEmptyObjects s m I Hm) as (I' & (m' & Hm' & _) & [H1 H2 H3]). split_and!; try done. by exists m'.
Qed.

(** The block hash function of the machine gives the hash of every ancestor, whatever its
    cache holds from earlier calls, and keeps the cache right. *)
Theorem block_hashes_are_ancestors (chain : ChainContext) (ref : Header) (fuel k : nat) (h : Header) (cache : option (gmap Z Z)) :
  numbered chain ref → forebear chain ref k = Some h → Z.of_nat k < h_Number ref → (k ≤ fuel)%nat →
  (∀ c, cache = Some c → cache_valid chain ref c) →
  ∃ cache', GetHashFn fuel ref chain cache (h_Number ref - 1 - Z.of_nat k) = Some (h_ParentHash h, cache') ∧ cache_valid chain ref cache'.
Proof. apply GetHashFn_ok. Qed.

(** C8: Processing a block on a well-formed state ends, unless one of the receipts it has computed
    has an encoding of 2^32 bytes or more; when no transaction is refused, the receipts name the
    transactions in order with a positive gas within the limit of each, their running totals and
    blooms, the logs are theirs, the gas of the block is their sum and within the limit of the
    block, and the state is well-formed with an empty journal. Assumed: a gas limit below 2^62,
    and, as an idealisation of Keccak, that no two addresses and no two slots have one hashed key
    in the tries. *)
Theorem blocks_account_for_gas (fuel : nat) (config : ChainConfig) (get : Z → Z → option Header) (verify : Block → res ethasherror unit)
    (block : Block) s : let bc := ethash_context get in let header := b_header block in
  context_ok bc header None → config_ok config → uncles_ok header (b_uncles block) → Forall tx_ok (b_transactions block) →
  txs_fit (b_transactions block) → state_inv s → 0 ≤ h_GasLimit header < Z.of_nat fuel → h_GasLimit header < 2 ^ 62 →
  match Process fuel config bc (ethash_engine verify) block s with
  | BOk (rs, logs, used, s') => accounted 0 (b_transactions block) rs ∧ logs = concat (map Logs rs) ∧ used = gas_of rs ∧
      used ≤ h_GasLimit header ∧ state_inv s' ∧ entries s' = []
  | BErr _ _ _ => True
  | BPanic BPTrie | BNoFuel => too_large fuel config bc block s
  | BPanic w => block_panic config header w
  end.
Proof. exact (Process_ok KD fuel config get verify block s). Qed.

(** C10: A block that Finalize assembles passes the checks of a validator: its roots, its bloom
    and its uncle hash are those of its parts, so that ValidateState accepts the state it was made
    from and ValidateBody accepts its body on a known parent. *)
Theorem assembled_blocks_validate (config : ChainConfig) (engine : Engine) (header header' : Header) s s' (txs : list Transaction)
    (uncles : list Header) (receipts : list Receipt) (block : Block) :
  ethash_Finalize config header s txs uncles receipts = (s', Ok (header', block)) → (receipts = [] → h_Bloom header = zero_bloom) →
  b_header block = set_roots (h_TxHash (b_header block)) (h_ReceiptHash (b_header block)) (CalcUncleHash uncles) (h_Bloom (b_header block)) header' ∧
  ValidateState config block s' receipts (h_GasUsed header) = BOk (Finalise (IsEIP158 config (h_Number header)) s') ∧
  ∀ (HasBlockAndState HasBlock : Z → Z → bool) gp, let number := Big.Uint64 (h_Number header) in
    HasBlockAndState (Block_Hash block) number = false → HasBlockAndState (h_ParentHash header) (u64 (number - 1)) = true →
    en_VerifyUncles engine block = Ok tt → ValidateBody engine HasBlockAndState HasBlock block gp s' = BOk tt.
Proof.
  unfold ethash_Finalize. set (s0 := accumulateRewards _ _ _ s). destruct (IntermediateRoot _ s0) as [root s1] eqn:Er.
  destruct (NewBlock _ _ _ _) as [b| | |] eqn:Eb; cbn [res_bind]; try done. intros [= <- <- <-] Hbloom.
  pose proof (NewBlock_assembled _ _ _ _ _ Eb) as [[Hun Htxs] Ht Hr Hb Hh]. split; [exact Hh|].
  assert (Hf : h_Number (b_header b) = h_Number header ∧ h_GasUsed (b_header b) = h_GasUsed header ∧ h_Root (b_header b) = root ∧
    h_ParentHash (b_header b) = h_ParentHash header ∧ h_UncleHash (b_header b) = CalcUncleHash uncles) by by rewrite Hh.
  clear Hh. destruct Hf as (Fn & Fg & Fr & Fp & Fu). split.
  - rewrite <- Fn, <- Fg. apply ValidateState_ok; [|done|].
    + destruct receipts; [|done]. rewrite Hb. cbn [h_Bloom set_Root]. by rewrite (Hbloom eq_refl).
    + rewrite Fn, Fr. pose proof (IntermediateRoot_again (IsEIP158 config (h_Number header)) s0) as Ha. rewrite Er in Ha. exact Ha.
  - intros HBS HB gp Hnew Hpar Hver. unfold ValidateBody. rewrite Fn, Fp, Hver, Hun, Htxs, Ht, Fu, !Z.eqb_refl.
    by rewrite Hnew, Hpar.
Qed.

(** C9: The loop of the miner over any set of pending transactions ends; the transactions it takes
    come from the set and have one receipt each, the gas they used and the gas left stay within
    the limit of the block, and the block is built step by step: a transaction taken is applied, a
    refused one leaves the state equal to every reader and the rest of the block as it was, though
    it may take gas from the pool. Assumed: a limit below 2^62, and, as an idealisation of Keccak,
    that no two addresses and no two slots have one hashed key in the tries. *)
Theorem worker_fills_blocks (config : ChainConfig) (bc : ChainContext) (coinbase : Z) (header : Header) (limit : Z) (fuel turns : nat)
    (signer : Signer) (order : list Z) (q : gmap Z (list Transaction)) e (logs : list Log) :
  context_ok bc header (Some coinbase) → config_ok config → limit < Z.of_nat fuel ∧ limit < 2 ^ 62 →
  queues_ok signer q → order ≡ₚ (map_to_list q).*1 → (∀ tx, queued q tx → tx_ok tx) → (qsize q < turns)%nat → env_ok header limit e →
  ∃ t, NewTransactionsByPriceAndNonce signer order q = Some t ∧
    match commitTransactions fuel config bc coinbase turns t e logs with
    | BOk (t', e', logs') => env_ok header limit e' ∧ ∃ new rs, builds config bc coinbase fuel e new e' ∧
        e_txs e' = e_txs e ++ new ∧ e_receipts e' = e_receipts e ++ rs ∧ logs' = logs ++ concat (map Logs rs) ∧
        e_tcount e' = e_tcount e + zlen new ∧ (∀ tx, tx ∈ new → queued q tx)
    | BErr _ _ _ | BNoFuel => False
    | BPanic w => block_panic config header w
    end.
Proof.
  intros Hc Hcf Hl Hq Ho Htx Hn E. destruct (New_holds signer order q Hq Ho) as (t & Et & Ht). exists t. split; [done|].
  exact (commitTransactions_ok KD config bc coinbase header limit fuel Hc Hcf Hl signer turns t q e logs Ht Htx Hn E).
Qed.
End Processing.

(** ** Instances *)

Lemma header_10_ok : header_ok header_10.
Proof.
  split; try (split_and!; by vm_compute); try by vm_compute.
  - split; [apply is_bytes_replicate|done].
  - split; [apply is_bytes_replicate|done].
Qed.
Lemma block_10_ok : block_ok block_10.
Proof. split; [exact header_10_ok|by constructor|by repeat constructor; apply block_tx_ok]. Qed.
Lemma blocks_roundtrip_witness : ∃ bs, Block_EncodeRLP block_10 = Ok bs ∧ Block_DecodeRLP bs = Some (fresh_block block_10) ∧
  Transaction_DecodeRLP (GetRlp_tx block_tx) = Some (fresh_tx block_tx).
Proof.
  destruct (blocks_roundtrip block_10 block_10_ok) as (bs & E & D & _ & H); [by vm_compute|].
  exists bs. split; [exact E|]. split; [exact D|]. 
  assert (Hin : block_tx ∈ b_transactions block_10) by apply list_elem_of_here.
  assert (Hz : is_u64 (zlen (rlp (val_of txdata_typ (txdata_gval (tx_data block_tx)))))) by (split; vm_compute; congruence).
  exact (H block_tx Hin Hz).
Defined.

Definition log_1 : Log := mkLog 99 [7; 8] [1; 2; 3] 10 5 0 6 2.
Definition log_2 : Log := mkLog 100 [] [] 10 5 0 6 3.
Definition receipt_1 : Receipt := mkReceipt [] ReceiptStatusSuccessful 21000 zero_bloom [log_1; log_2] 5 0 21000.
Lemma log_1_ok : log_ok log_1.
Proof. split; unfold is_addr, is_hash, is_u64; cbn; first [lia|by repeat constructor]. Qed.
Lemma log_2_ok : log_ok log_2.
Proof. split; unfold is_addr, is_hash, is_u64; cbn; first [lia|by repeat constructor]. Qed.
Lemma receipt_1_ok : receipt_ok receipt_1.
Proof.
  split.
  - right. by split; [|right].
  - unfold is_u64. cbn. lia.
  - split; [apply is_bytes_replicate|done].
  - constructor; [exact log_1_ok|]. constructor; [exact log_2_ok|constructor].
  - split; split; vm_compute; congruence.
Qed.
(** A successful receipt from before Byzantium. *)
Definition receipt_0 : Receipt := mkReceipt (hash_bytes 77) ReceiptStatusSuccessful 21000 zero_bloom [log_1] 5 0 21000.
Lemma receipt_0_ok : receipt_ok receipt_0.
Proof.
  split.
  - left. split; [apply is_bytes_be_bytes|reflexivity].
  - unfold is_u64. cbn. lia.
  - split; [apply is_bytes_replicate|done].
  - constructor; [exact log_1_ok|constructor].
  - split; split; vm_compute; congruence.
Qed.
Lemma receipts_roundtrip_witness :
  (∃ bs, ReceiptForStorage_EncodeRLP receipt_1 = Ok bs ∧ ReceiptForStorage_DecodeRLP bs = Some receipt_1) ∧
  (∃ bs, ReceiptForStorage_EncodeRLP receipt_0 = Ok bs ∧ ReceiptForStorage_DecodeRLP bs = Some (stored_receipt receipt_0)) ∧
  Status (stored_receipt receipt_0) = ReceiptStatusFailed.
Proof.
  destruct (receipts_roundtrip receipt_1 receipt_1_ok) as (bs & cs & E1 & D1 & _ & _ & Hk); [split; vm_compute; congruence..|].
  destruct (receipts_roundtrip receipt_0 receipt_0_ok) as (bs0 & cs0 & E0 & D0 & _); [split; vm_compute; congruence..|].
  rewrite (Hk (or_introl eq_refl)) in D1. split; [exists bs; split; [exact E1|exact D1]|]. split; [exists bs0; split; [exact E0|exact D0]|reflexivity].
Defined.

Lemma bloom_finds_logs_witness : ∃ bloom, CreateBloom [receipt_1] = Some bloom ∧ BloomLookup bloom (addr_bytes 99) = true ∧
  BloomLookup bloom (hash_bytes 8) = true.
Proof.
  destruct (CreateBloom [receipt_1]) as [bloom|] eqn:E; [|by vm_compute in E].
  destruct (bloom_finds_logs [receipt_1] bloom receipt_1 log_1 E) as (_ & Ha & Ht); [by left|by left|].
  exists bloom. split; [reflexivity|]. split; [exact Ha|]. apply (Ht 8). by right; left.
Defined.

(** The payment with its sender derived, which does not show in the root. *)
Definition cached_tx : Transaction := (Sender (EIP155Signer 1 2) block_tx).2.
Definition tx_tree : tree := tree_of (list_content (map GetRlp_tx [block_tx])).
Definition tx_world : list bytes := [blob tx_tree].
Lemma tx_world_free : collision_free (λ b, b ∈ tx_world).
Proof. apply collision_free_list; apply (bool_decide_unpack _); vm_compute; exact I. Qed.
Lemma tx_in_world : in_world (λ b, b ∈ tx_world) tx_tree.
Proof.
  apply in_world_list. repeat (apply Forall_cons_2; [intros Hn; first [discriminate Hn|by apply (bool_decide_unpack _); vm_compute]|]).
  apply Forall_nil_2.
Qed.
Lemma block_tx_encodable : encodable_tx block_tx.
Proof. split; [apply block_tx_ok|]. split; [vm_compute; reflexivity|split; vm_compute; congruence]. Qed.
Lemma cached_tx_data : tx_data cached_tx = tx_data block_tx.
Proof. vm_compute. reflexivity. Qed.
Lemma cached_tx_encodable : encodable_tx cached_tx.
Proof. unfold encodable_tx, GetRlp_tx, Transaction_EncodeRLP. rewrite cached_tx_data. exact block_tx_encodable. Qed.
Lemma cached_root : map GetRlp_tx [cached_tx] = map GetRlp_tx [block_tx].
Proof. cbn [map]. unfold GetRlp_tx, Transaction_EncodeRLP. by rewrite cached_tx_data. Qed.
Lemma transactions_root_binds_witness : ∃ root, TransactionsSha [block_tx] = Ok root ∧ TransactionsSha [cached_tx] = Ok root ∧
  map tx_data [block_tx] = map tx_data [cached_tx].
Proof.
  destruct (TransactionsSha [block_tx]) as [root| | |] eqn:E; try (vm_compute in E; discriminate E).
  assert (E2 : TransactionsSha [cached_tx] = Ok root) by (unfold TransactionsSha; rewrite cached_root; exact E).
  exists root. split; [reflexivity|]. split; [exact E2|].
  apply (transactions_root_binds (λ b, b ∈ tx_world) [block_tx] [cached_tx] root tx_world_free).
  - intros b Hb. apply list_elem_of_singleton in Hb as ->. apply Z.eqb_neq. vm_compute. reflexivity.
  - apply Forall_cons_2; [exact block_tx_encodable|apply Forall_nil_2].
  - apply Forall_cons_2; [exact cached_tx_encodable|apply Forall_nil_2].
  - split; vm_compute; congruence.
  - split; vm_compute; congruence.
  - exact tx_in_world.
  - rewrite cached_root. exact tx_in_world.
  - exact E.
  - exact E2.
Defined.

Lemma finalise_keeps_accounts_witness : let s' := Finalise true paid_state in
  StateStorage.sinv (A:=is_addr) (K:=is_hash) s' ∧
  ∃ c c', as_account (abs paid_state) payer = Some c ∧ as_account (abs s') payer = Some c' ∧ same_reads is_hash c c' ∧ a_balance c = 10 ^ 9.
Proof.
  intros s'. destruct (sv_trie _ paid_state_inv) as [m Hm].
  destruct (finalise_keeps_accounts true paid_state m map_keys_distinct (sv_storage _ paid_state_inv) Hm) as (I' & _ & _ & _ & H).
  split; [exact I'|]. specialize (H payer payer_addr).
  assert (Hr : removed true paid_state payer = false) by (vm_compute; reflexivity). rewrite Hr in H.
  assert (Hb : option_map a_balance (as_account (abs paid_state) payer) = Some (10 ^ 9)) by (vm_compute; reflexivity).
  destruct (as_account (abs paid_state) payer) as [c|]; [|discriminate Hb]. injection Hb as Hb.
  destruct H as (c' & E & R). exists c, c'. split; [reflexivity|]. split; [exact E|]. split; [exact R|exact Hb].
Defined.

(** The parent of [header_10], of hash 7, and its parent, of hash 6. *)
Definition header_9 : Header := mkHeader 6 0 1 0 0 0 zero_bloom 1 9 100000 0 900 [] 0 (replicate 8 0).
Definition short_chain : ChainContext :=
  ethash_context (λ h n, if (h =? 7) && (n =? 9) then Some header_9 else None).
Lemma short_numbered : numbered short_chain header_10.
Proof.
  split; [split; vm_compute; congruence|]. intros h n hd. cbn. destruct (Z.eqb_spec n 9) as [->|]; [|by rewrite andb_false_r].
  destruct (h =? 7); cbn; [|done]. by intros [= <-].
Qed.
Lemma block_hashes_are_ancestors_witness : ∃ cache, GetHashFn 5 header_10 short_chain None 8 = Some (6, cache) ∧ cache_valid short_chain header_10 cache.
Proof.
  apply (block_hashes_are_ancestors short_chain header_10 5 1 header_9 None short_numbered).
  - reflexivity.
  - vm_compute. reflexivity.
  - lia.
  - discriminate.
Defined.

(** The block of one payment, on a chain of which nothing else is asked. *)
Definition block_fuel : nat := Z.to_nat 100001.
Definition no_uncles : Block → res ethasherror unit := λ _, Ok tt.
Abbreviation processed := (Process block_fuel test_config (ethash_context no_chain) (ethash_engine no_uncles) block_10 paid_state).
Lemma processed_gas : match processed with BOk (_, _, used, _) => used = 21000 | _ => False end.
Proof. vm_compute. reflexivity. Qed.
Lemma block_10_fits : txs_fit (b_transactions block_10).
Proof.
  unfold block_10. cbn [b_transactions]. apply txs_items; [|by split].
  apply Forall_cons_2; [exact block_tx_encodable|apply Forall_nil_2].
Qed.
Lemma block_fuel_Z : Z.of_nat block_fuel = 100001.
Proof. by apply Z2Nat.id. Qed.
Lemma block_10_limit : 0 ≤ h_GasLimit (b_header block_10) < Z.of_nat block_fuel.
Proof. rewrite block_fuel_Z. cbn. lia. Qed.
Lemma block_10_small : h_GasLimit (b_header block_10) < 2 ^ 62.
Proof. done. Qed.
Lemma block_10_author : context_ok (ethash_context no_chain) (b_header block_10) None.
Proof. apply (context_10 None). by split. Qed.
Lemma block_10_txs : Forall tx_ok (b_transactions block_10).
Proof. apply Forall_cons_2; [exact block_tx_ok|apply Forall_nil_2]. Qed.
Lemma test_config_ok : config_ok test_config.
Proof. vm_compute. congruence. Qed.
Lemma blocks_account_for_gas_witness : ∃ rs logs s', processed = BOk (rs, logs, 21000, s') ∧ accounted 0 (b_transactions block_10) rs ∧ gas_of rs = 21000 ∧ state_inv s'.
Proof.
  pose proof (blocks_account_for_gas map_keys_distinct block_fuel test_config no_chain no_uncles block_10 paid_state
    block_10_author test_config_ok (Forall_nil_2 _) block_10_txs block_10_fits paid_state_inv block_10_limit block_10_small) as H.
  pose proof processed_gas as Hg. cbv zeta in H.
  destruct processed as [[[[rs logs] used] s']| | |]; try contradiction. destruct H as (H1 & _ & H3 & _ & H5 & _).
  rewrite Hg in H3. exists rs, logs, s'. rewrite Hg. split; [reflexivity|]. split; [exact H1|]. split; [symmetry; exact H3|exact H5].
Defined.

(** The block assembled from the payment's receipt. *)
Abbreviation finalized := (ethash_Finalize test_config header_10 paid_state [block_tx] [] [receipt_1]).
Lemma finalized_ok : match finalized.2 with Ok _ => True | _ => False end.
Proof. vm_compute. exact I. Qed.
Lemma assembled_blocks_validate_witness : ∃ s' header' block, finalized = (s', Ok (header', block)) ∧
  ValidateState test_config block s' [receipt_1] 21000 = BOk (Finalise true s') ∧
  ValidateBody (ethash_engine no_uncles) (λ _ n, n =? 9) (λ _ n, n =? 9) block 0 s' = BOk tt.
Proof.
  pose proof finalized_ok as Hok. destruct finalized as [s' [[header' block]| | |]] eqn:E; try contradiction.
  destruct (assembled_blocks_validate test_config (ethash_engine no_uncles) header_10 header' paid_state s' [block_tx] [] [receipt_1] block E
    ltac:(discriminate)) as (_ & Hv & Hb).
  exists s', header', block. split; [reflexivity|]. split; [exact Hv|]. apply Hb; reflexivity.
Defined.

(** A worker with one queued payment. *)
Definition one_queue : gmap Z (list Transaction) := {[payer := [block_tx]]}.
Definition fresh_env : @environment unit mtrie :=
  mkEnvironment (EIP155Signer 1 2) paid_state 0 100000 (set_GasUsed 0 header_10) [] [].
Abbreviation worker t := (commitTransactions block_fuel test_config (ethash_context no_chain) 1 2 t fresh_env []).
Lemma block_tx_sender : sender_or_zero (EIP155Signer 1 2) block_tx = payer.
Proof. vm_compute. reflexivity. Qed.
Lemma fresh_env_ok : env_ok header_10 100000 fresh_env.
Proof. split; [exact paid_state_inv|by exists 0|cbn; lia|done|done]. Qed.
Lemma worker_fills_blocks_witness : ∃ t, NewTransactionsByPriceAndNonce (EIP155Signer 1 2) [payer] one_queue = Some t ∧
  match worker t with
  | BOk (_, e', _) => env_ok header_10 100000 e' ∧ e_txs e' = [block_tx]
  | _ => False
  end.
Proof.
  destruct (worker_fills_blocks map_keys_distinct test_config (ethash_context no_chain) 1 header_10 100000 block_fuel 2 (EIP155Signer 1 2) [payer]
    one_queue fresh_env []) as (t & Et & H).
  - apply (context_10 (Some 1)). unfold is_addr. lia.
  - exact test_config_ok.
  - rewrite block_fuel_Z. split; vm_compute; reflexivity.
  - exact (queues_singleton _ _ _ block_tx_sender).
  - exact (order_singleton payer block_tx).
  - intros tx Hq. rewrite (queued_singleton payer block_tx tx Hq). exact block_tx_ok.
  - unfold one_queue. rewrite qsize_singleton. lia.
  - exact fresh_env_ok.
  - exists t. split; [exact Et|].
    assert (Hc : match NewTransactionsByPriceAndNonce (EIP155Signer 1 2) [payer] one_queue with
                 | Some t => match worker t with BOk (_, e', _) => e_tcount e' = 1 | _ => False end
                 | None => False
                 end) by (vm_compute; reflexivity).
    rewrite Et in Hc. destruct (worker t) as [[[t' e'] logs']| | |]; try contradiction.
    destruct H as (Hok & new & rs & _ & E1 & _ & _ & E4 & Hin). split; [exact Hok|].
    cbn in E1, E4. rewrite E1. rewrite Hc in E4.
    destruct new as [|tx [|tx2 new]]; [discriminate E4| |rewrite !zlen_cons in E4; pose proof (zlen_nonneg new); lia].
    rewrite (queued_singleton payer block_tx tx (Hin tx (list_elem_of_here _ _))). reflexivity.
Defined.
