(* ===== verification/TxPoolTheorems.v ===== *)
(** * Theorems on the transaction pool

    The transactions of the pool are each in one list of their sender, and no
    operation panics: where a transaction is between two lists ([inv]), runs
    of the operations that keep this ([runs]), the operations one by one, and
    histories of them. *)

From stdpp Require Import sorting.
From S2P Require Import Prelude BigMath Params Memory Rlp Interfaces Heap Precompiles Header Concrete ConcreteVm.
From S2P Require Import StateTransition Transaction Block TxPool TxPoolLaws.

(** ** Where the transactions are *)

Inductive place := Pend | Queue.
#[export] Instance place_dec : EqDecision place.
Proof. solve_decision. Defined.
Section Lists.
Context {CRY : Crypto} {PCR : PrecompileCrypto} {RG : MapRange}.
Abbreviation hash := Transaction_Hash.
Variable sg : Signer.
Abbreviation sender_of := (sender_or_zero sg).
Definition lists : Type := place → gmap Z txList.
Definition holds (L : lists) (pl : place) (x : Transaction) : Prop := ∃ tl, L pl !! sender_of x = Some tl ∧ sm_Get (Nonce x) (txs tl) = Some x.
(** [A] are the transactions by hash; those of [D] are in none of the lists
    [L], every other is in one.  The list [busy] may be empty. *)
Record inv (A : gmap Z Transaction) (D : list Transaction) (busy : option (place * Z)) (L : lists) : Prop := {
  iv_lists : ∀ pl a tl, L pl !! a = Some tl → strict tl = bool_decide (pl = Pend) ∧
    ∃ l, lrepr tl l ∧ (busy = Some (pl, a) ∨ l ≠ []) ∧ Forall (λ x, sender_of x = a ∧ A !! hash x = Some x) l;
  iv_keyed : ∀ h x, A !! h = Some x → hash x = h ∧ is_u64 (Nonce x);
  iv_sole : ∀ h k x y, A !! h = Some x → A !! k = Some y → sender_of x = sender_of y → Nonce x = Nonce y → x = y;
  iv_one : ∀ x, holds L Pend x → ¬ holds L Queue x;
  iv_known : ∀ h x, A !! h = Some x → x ∈ D ∨ ∃ pl, holds L pl x;
  iv_dang : ∀ x, x ∈ D → A !! hash x = Some x ∧ ∀ pl, ¬ holds L pl x;
  iv_nodup : NoDup D;
}.
End Lists.

(** ** Runs of the pool *)

(** The run does not panic, and ends with [Q]. *)
Definition runs {A} (m : PM A) (p : TxPool) (Q : A → TxPool → Prop) : Prop := ∃ a p', m p = Some (a, p') ∧ Q a p'.
Lemma runs_put f p (Q : unit → TxPool → Prop) : Q tt (f p) → runs (pm_put f) p Q.
Proof. intros HQ. by exists tt, (f p). Qed.

Section Pool.
Context {CRY : Crypto} {PCR : PrecompileCrypto} {RG : MapRange}.
Abbreviation hash := Transaction_Hash.
Definition lists_of (p : TxPool) : lists := λ pl, match pl with Pend => tp_pending p | Queue => tp_queue p end.
(** [X]: the hashes that the heap of prices may miss. *)
Record good (X : list Z) (D : list Transaction) (busy : option (place * Z)) (p : TxPool) : Prop := {
  gd_inv : inv (tp_signer p) (tp_all p) D busy (lists_of p);
  gd_covers : covers X (tp_all p) (tp_priced p);
}.
(** The lists of [S] apart, nothing changes that the steps go by. *)
Record stays (S : place → Z → Prop) (p p' : TxPool) : Prop := {
  st_config : tp_config p' = tp_config p;
  st_signer : tp_signer p' = tp_signer p;
  st_lists : ∀ pl a, ¬ S pl a → lists_of p' pl !! a = lists_of p pl !! a;
}.

(** ** The steps *)

(** ** The limits *)

End Pool.

Section Steps.
Context {CRY : Crypto} {PCR : PrecompileCrypto} {RG : MapRange}.
Abbreviation hash := Transaction_Hash.
Abbreviation anywhere := (λ _ _, True).

(** ** The limit of the queues *)

(** ** Lists that are trimmed *)

(** What every operation keeps. *)
Definition keeps X (p : TxPool) {A} (m : PM A) : Prop := runs m p (λ _ p', good X [] None p' ∧ stays anywhere p p').

(** ** Additions *)

Lemma put_keeps X f p : good X [] None (f p) → stays anywhere p (f p) → keeps X p (pm_put f).
Proof. intros H Hs. by apply runs_put. Qed.

(** ** A new head *)

(** *** The chain *)


(** ** Histories *)

End Steps.

(** ** The claim, and an instance *)

Section Theorems.
Context {CRY : Crypto} {PCR : PrecompileCrypto} {RG : MapRange}.

End Theorems.
#[export] Instance map_range : MapRange := {| range A m := map_to_list m; range_perm A m := reflexivity _ |}.


